(* ===== verification/_CoqProject ===== *)
-Q . S2P
Prelude.v
CString.v
Dll.v
ConcList.v
SimList.v
Simulator.v
Scheduler.v
Schedulers.v
Mlfq.v
Trace.v
Simulation.v
SchedulerRuns.v
SimMain.v
MemLib.v
Mm.v
MmHeap.v
MmFreeList.v
MmInv.v
MmMalloc.v
MmCoalesce.v
MmInterface.v
STree.v
STreeShape.v
STreeOps.v
STreeMap.v
RangeSet.v
RangeSetProps.v
RangeSetOps.v
TraceFile.v
Driver.v
DriverFill.v
DriverSpec.v
DriverSteps.v
DriverValid.v
DriverDemo.v
DriverEval.v
Fcyc.v
Doubles.v
FcycConfig.v
DoublesRound.v
Clock.v
Throughput.v
DriverMain.v
DriverScores.v
DriverReport.v
DriverRuns.v
HwList.v
Homework.v
Buffer.v
Channel.v
System.v
Buffered.v
Unbuffered.v
Select.v
SendRecv.v
Topology.v
Router.v
RouterProps.v
CheckDone.v
Stress.v
StressShared.v
StressSilent.v
StressHeard.v
StressSafe.v
StressLive.v
StressFooled.v
StressCleanup.v
Lexer.v
Shell.v
ShellSystem.v
ShellProps.v
Parser.v
Grammar.v
ParserLists.v
ParserProps.v
ParserRoundTrip.v
ParserMemory.v
ParserNodes.v
ParserUsers.v
ShellMain.v
