(* ===== verification/Prelude.v ===== *)
(** * CMPSC-473 Operating Systems course projects: a verification library

    The repository holds five programs of an operating systems course, in C.
    They share no code, only habits: intrusive doubly linked lists, [malloc] and
    [assert].  This library models them function by function, as executable
    definitions that keep the names of the source, and proves what makes them
    correct.  Names of files below are relative to [src/].

    ** Conventions

    A C function is a function to [outcome] (this file): [Done] of a value and the
    state after it, or a [Fault].  A null or dangling pointer, an access out of
    range, an uninitialised field that is read, a failed [assert] and a call of
    [exit] are different faults and never default values; a theorem that ends in
    [Done] says that none of them occurs.  Machine integers are [Z] with the
    wrap-around written out ([w64], [add64], [sub64], [mul64]); [double]s are
    computed bit by bit ([Doubles]).  Memory is a store ([gmap]) of the objects of
    one type, the pointer of a new object the choice of a class [Malloc], which
    may fail.  [CString] has the characters of C and [fgets]; [Dll] has the nodes
    of a doubly linked list and the segment predicate [dseg] that the three list
    implementations of the repository share.

    Code that the sources only call is a parameter: the operating system's answers
    (system calls of the shell, [pthread]s' order, clocks), the data in files, the
    readers of numbers ([atof], the conversions of [fscanf]), and the C library's
    allocator.  Concurrent code is a step relation in which any thread may run
    between any two steps; a theorem about it holds for every interleaving.

    ** The concurrency project ([concurrency-project-FreezeKickerz/])

    - [linked_list.c] is [ConcList], [buffer.c] is [Buffer] (theorem
      [buffer_refines_queue]: a bounded queue), [channel.c] is [Channel].  A
      channel function is cut into _regions_ at its [pthread_cond_wait]s; a
      region is what runs under the mutex.  [System] runs the regions of any number
      of threads on one channel, wake-ups and [channel_close] included; its
      environment says on which condition variables wake-ups may be spurious (all of
      them in [Buffered]).
    - [Buffered]: messages leave in the order they entered, each exactly once
      ([buffered_fifo]), and no wake-up is lost: all threads wait only on a full
      or an empty buffer ([buffered_deadlock_only_full_or_empty]).
    - [Unbuffered]: the rendezvous refines a three-state machine
      ([unbuffered_rendezvous], [unbuffered_deadlock_one_sided]), with spurious
      wake-ups at every wait but the one for the partner (line 112), which stands in
      no loop; the last section runs the schedules where closing, a non-blocking
      call, or a spurious wake-up at that wait breaks it.
    - [Select]: [channel_select] as a state and a step function, one round per
      channel; the first entry that can proceed is the one it acts on
      ([select_first_ready]).
    - [stress_send_recv.c] is [SendRecv] ([ring_exactly_once]).  [stress.c] is
      [Topology] ([create_topology] and [floyd_warshall], which computes shortest
      distances), [Router] and [RouterProps] (the distance-vector threads: no
      interleaving makes a router believe a distance that is not the length of a
      walk) and [CheckDone] (the two rounds of [check_done] in a network that has
      converged and still runs: the result is true exactly if every router has sent
      to all its neighbours when it is first asked, [check_done_accepts]).  [Stress]
      puts [run_stress] together, all threads and buffered channels as one step
      relation; [StressShared] proves that the routers recycle their four buffers
      safely ([sent_vectors_stay]), [StressSafe] that only two assertions are left
      that an interleaving can violate ([stress_only_two_assertions]), and
      [StressFooled] runs an interleaving that violates one ([check_done_fooled]).
      Convergence is in two halves.  [StressSilent] bounds what the routers can still
      learn, by the sum of all distances in their vectors, and turns it into a bound
      on the messages of a whole run ([routers_fall_silent]).
      [StressHeard] follows what every router has heard, so that a state without
      open vectors is the solution, and [StressLive] shows that such a state can be
      reached from wherever the routers are: there is always a thread that can move,
      and the program never locks up ([routers_converge]).  [StressCleanup] is
      what [run_stress] does after the join.
      Both stress tests use channels through what [Buffered] and [Unbuffered]
      prove of them: a queue, or (in [SendRecv]) a handover.

    ** The scheduler simulator ([simulatorlab-FreezeKickerz/])

    [linked_list.c] with its comparison function is [SimList]; [job.h] and
    [simulator.c], an event queue and the loop that runs the earliest event's
    callback, are [Simulator]; [scheduler.c] and its table of functions are
    [Scheduler], where the class [SchedulerOps] is the table and [SchedulerLaws]
    states that it implements a [policy] on plain job values.  The four tables are
    in [Schedulers] (FCFS, LCFS, SJF) and [Mlfq], each with its instance of the
    laws.  [Trace] is [trace.c], written once over any table, with the theorem
    that the program does on event queue, stores and list nodes what the policy
    does on values; [Simulation] and [SchedulerRuns] draw the consequences for
    whole runs: [traceRun_refines_policy], [every_job_completes_once] (all four
    schedulers end), [fcfs_completion_times], [sjf_picks_shortest],
    [mlfq_level_is_service] (the state of MLFQ after every event).  [SimMain] is the command line with its call of
    [sort] ([main_writes_times]).

    ** The malloc lab ([assignment-2-malloclab-FreezeKickerz/])

    - [memlib.c] is [MemLib], bytes and a break in one mapped region.  [mm.c] is
      [Mm]; [MmHeap], [MmFreeList] and [MmInv] hold the invariant (block
      chain, flags, footers, free list, no two free neighbours) and its lemmas;
      [MmMalloc], [MmCoalesce] and [MmInterface] prove the contracts of [malloc],
      [free], [realloc], [calloc] and [mm_init].
    - [stree.c] is [STree]; [STreeShape], [STreeOps] and [STreeMap] prove that the
      splay tree with its parent pointers refines a finite map
      ([stree_refines_map]) and that [splay] ends at the root.
    - [mdriver.c] is split by task.  Range sets: [RangeSet], [RangeSetProps],
      [RangeSetOps], over [STree].  Trace files: [TraceFile].  The evaluation of an
      allocator on a trace: [Driver], over the class [Allocator], of which [mm.c]
      and a bump allocator ([DriverDemo]) are instances; [DriverFill] (random data
      in payloads), [DriverSpec] (the contract [CorrectAllocator] and the driver's
      invariant), [DriverSteps] and [DriverValid] (a correct allocator is never
      accused: [driver_no_false_alarm]), [DriverEval] (utilisation and speed).
      [main], the test loop and the scores: [DriverMain], [DriverScores] and
      [DriverRuns] ([driver_grades_correct_package]); the text of the tables and of
      the scores, with [printf] for [double]s: [DriverReport] ([tables_line_up]).
      The table of reference throughputs: [Throughput].
    - [fcyc.c] is [Fcyc] and [FcycConfig]: the measurement loop returns the least of
      the readings it took and ends ([fsec_returns_minimum]).  [clock.c] is [Clock];
      over it the loop ends with positive times on any clock that moves forward
      ([measures_forward_clock]), by the rounding lemmas of [DoublesRound].

    ** The mini-shell ([mini-shell-project-FreezeKickerz/])

    [util/parser/parser.l] is [Lexer] (longest match, start conditions), and
    [parser.y] is [Parser] (the shift-reduce parser with its semantic actions on
    list cells).  [Grammar] gives the productions as relations and proves
    [parser_implements_grammar]; [ParserLists] and [ParserProps] prove what
    [parser.h] promises of a tree, and [ParserRoundTrip] that every such tree can
    be typed.  [ParserMemory] is the registry of what a parse allocates and its
    release ([parse_memory_freed]), [ParserNodes] the nodes of the tree with their
    pointers [up], built by the same parser ([nodes_of_line]).  [ParserUsers] has the
    three programs next to the parser; [DisplayStructure.cpp], which walks these
    nodes, prints the tree and fails no assertion ([display_shows_the_trees]).
    [src/cmd.c] and [src/utils.c] are [Shell]: a command is a tree of
    system calls.  [ShellSystem] runs such trees as processes with descriptors and
    pipes, in any order; [shell_leaves_nothing] and [ShellProps] state what they
    do.  [ShellMain] is [src/main.c]: it composes [read_line], [parse_line] and
    [parse_command] on the characters of the input.

    ** Homework 1 ([homework-1-FreezeKickerz/])

    [linked_list.c] is [HwList]; [polymorphic_ints.c], [zla.c] and [kobject.c] are
    the Modules [PolyInts], [Zla] and [Kobj] of [Homework].

    ** Fuel

    A loop without a structural argument takes fuel and ends in [Fault Diverges]
    when it runs out.  No theorem assumes that this did not happen: list walks
    ([Dll], [SimList], [Mlfq]) get one more than the nodes in the store; [Mm] searches
    with the number of words of the heap ([search_fuel]), more than it has blocks;
    a simulation gets [fuel_for], the sum over the jobs of the events they can
    cause; the walks of [STree] get one more than the nodes; [cparse], the lexer,
    [read_line] and the shell's loop get the length of the text, of which each
    round takes a character or more; the parser gets one unit more than it has
    tokens.  [Fcyc] states how much fuel its loops need in terms of the clock: as
    many rounds as doublings until a reading passes the threshold, and then the
    sample limit.

    ** Not modelled

    - Text for the reader: usage messages, progress lines, what goes to the standard
      error, the debug output of [mm.c]'s tracing macros and of [stress.c].  Printing
      whose result is used, or that is the result (homework 1, [show_tree], the output
      file of a trace, the tables of the driver, [DisplayStructure]), is modelled.
    - The alarm of [mdriver -s]: its handler jumps out of whatever the allocator is
      doing, and the source does not define the state it leaves.  The reference
      binary [mdriver-ref].
    - In [Unbuffered], a spurious wake-up at the wait for the partner of a rendezvous
      ([spurious_wakeup_loses_message] shows what it does).  In [RouterProps] and
      [CheckDone], a network in which a router has returned and freed its buffers;
      [Stress] goes on to the end.  Links in one direction only: a router that gets a
      vector over one fails an assertion, and the files of the tests have none.
    - The threads of [stress.c] have no fairness assumption: [routers_fall_silent] and
      [routers_converge] say that the routers come to rest and can always do so at
      the solution, not that a scheduler that never runs a thread lets them.  The
      configuration with unbuffered channels, which no test uses, is left out.
    - The line and column numbers in the parser's error messages.
    - The unit tests, sample programs, Makefiles and grading scripts.
    - The tables that flex and bison generate: [Lexer] and [Parser] follow the two
      source files, as the manuals of the tools read them. *)

From Stdlib Require Import ZArith Lia.
From stdpp Require Import gmap list.

Open Scope Z_scope.

(** ** Outcomes of C code

    A C function either returns a value or stops.  The ways of stopping that
    the sources can run into are kept apart, so that a theorem can say which
    one occurs; undefined behaviour (a null dereference, a dangling pointer, an
    access out of range) is a [Fault] and never a default value. *)

Inductive fault :=
  | NullDeref
  | Dangling
  | OutOfRange
  | Uninitialised
  | SignedOverflow
  | AssertFailed
  | Exited (code : Z)
  | Diverges.

Inductive outcome (A : Type) :=
  | Done (a : A)
  | Fault (f : fault).
Arguments Done {A} a.
Arguments Fault {A} f.

#[export] Instance fault_eq_dec : EqDecision fault.
Proof. solve_decision. Defined.

#[export] Instance outcome_ret : MRet outcome := @Done.
#[export] Instance outcome_bind : MBind outcome := fun A B k m =>
  match m with Done a => k a | Fault f => Fault f end.
#[export] Instance outcome_fmap : FMap outcome := fun A B k m =>
  match m with Done a => Done (k a) | Fault f => Fault f end.

(** A C [assert]: stops the program when the condition is false. *)
Definition c_assert (b : bool) : outcome unit :=
  if b then Done tt else Fault AssertFailed.

(** Reading through a possibly null pointer. *)
Definition deref {A} (p : option A) : outcome A :=
  match p with Some a => Done a | None => Fault NullDeref end.

(** Array access, out of range is a fault. *)
Definition array_get {A} (l : list A) (i : nat) : outcome A :=
  match l !! i with Some a => Done a | None => Fault OutOfRange end.

Definition array_set {A} (l : list A) (i : nat) (a : A) : outcome (list A) :=
  if decide (i < length l)%nat then Done (<[i := a]> l) else Fault OutOfRange.

(** ** Machine integers

    An unsigned w-bit value is a [Z] in [[0, 2^w)]; the operations the sources
    use on [size_t] and [uint64_t] reduce modulo [2^64]. *)

Definition w64 : Z := 18446744073709551616.
Definition u64_max : Z := 18446744073709551615.
Definition u64 (z : Z) : Prop := 0 <= z < w64.
Definition wrap64 (z : Z) : Z := z mod w64.
Definition add64 (a b : Z) : Z := wrap64 (a + b).
Definition sub64 (a b : Z) : Z := wrap64 (a - b).
Definition mul64 (a b : Z) : Z := wrap64 (a * b).

(** [int] is signed and has 32 bits; leaving its range is undefined. *)
Definition int_min : Z := -2147483648.
Definition int_max : Z := 2147483647.
Definition int_ok (z : Z) : Prop := int_min <= z <= int_max.
#[export] Instance int_ok_dec z : Decision (int_ok z) := and_dec _ _.
Definition add_int (a b : Z) : outcome Z :=
  if decide (int_ok (a + b)) then Done (a + b) else Fault SignedOverflow.

Declare Scope c_scope.
Delimit Scope c_scope with C.
Notation "a +u b" := (add64 a b) (at level 50, left associativity) : c_scope.
Notation "a -u b" := (sub64 a b) (at level 50, left associativity) : c_scope.
Notation "a *u b" := (mul64 a b) (at level 40, left associativity) : c_scope.

(** ** Pointers to malloc'ed objects

    An object is named by a location; a pointer is a location or [NULL]
    ([None]).  [malloc] is the C library's: what the sources rely on is that it
    returns either [NULL] or memory disjoint from every live object, and that
    fewer than [2^64] objects are ever live in a 64-bit address space. *)

Abbreviation loc := positive (only parsing).
Abbreviation ptr := (option positive) (only parsing).

Class Malloc := {
  malloc : gset positive -> ptr;
  malloc_fresh X l : malloc X = Some l -> l ∉ X;
  malloc_room X l : malloc X = Some l -> Z.of_nat (size X) < u64_max
}.

(** A concrete [malloc] that fails only when the address space is full. *)
Program Definition malloc_first : Malloc := {|
  malloc X := if decide (Z.of_nat (size X) < u64_max) then Some (fresh X) else None
|}.
Next Obligation. intros X l H. simpl in H. case_decide; simplify_eq. apply is_fresh. Qed.
Next Obligation. intros X l H. simpl in H. by case_decide. Qed.

(** A [malloc] that fails from the [n]-th live object on: the error paths. *)
Program Definition malloc_upto (n : Z) : Malloc := {|
  malloc X := if decide (Z.of_nat (size X) < n `min` u64_max) then Some (fresh X) else None
|}.
Next Obligation. intros n X l H. simpl in H. case_decide; simplify_eq. apply is_fresh. Qed.
Next Obligation. intros n X l H. simpl in H. case_decide; simplify_eq. lia. Qed.

(** ** Lemmas and automation *)

Lemma Done_inj {A} (a b : A) : Done a = Done b -> a = b.
Proof. by intros [= ->]. Qed.

Lemma bind_Done {A B} (m : outcome A) (k : A -> outcome B) b :
  m ≫= k = Done b <-> exists a, m = Done a /\ k a = Done b.
Proof. destruct m as [a|f]; simpl; [naive_solver | split; [done | naive_solver]]. Qed.

Lemma bind_assoc {A B C} (m : outcome A) (k : A -> outcome B) (h : B -> outcome C) :
  (m ≫= k) ≫= h = m ≫= (fun a => k a ≫= h).
Proof. by destruct m. Qed.

(** [refines R m n]: [m] does what [n] does, with results related by [R]; a
    refinement keeps faults. *)
Definition refines {A B} (R : A -> B -> Prop) (m : outcome A) (n : outcome B) : Prop :=
  match m, n with
  | Done a, Done b => R a b
  | Fault f, Fault g => f = g
  | _, _ => False
  end.

Lemma refines_bind {A B A' B'} (R : A -> B -> Prop) (R' : A' -> B' -> Prop) m n k h :
  refines R m n -> (forall a b, R a b -> refines R' (k a) (h b)) ->
  refines R' (m ≫= k) (n ≫= h).
Proof. destruct m, n; simpl; naive_solver. Qed.

Lemma refines_bind_r {A B B'} (R : A -> B -> Prop) (R' : A -> B' -> Prop) m n h :
  refines R m n -> (forall a b, R a b -> refines R' (Done a) (h b)) -> refines R' m (n ≫= h).
Proof. destruct m, n; simpl; naive_solver. Qed.

Lemma refines_Done {A B} (R : A -> B -> Prop) m n b :
  refines R m n -> n = Done b -> exists a, m = Done a /\ R a b.
Proof. intros Hr ->. destruct m; simpl in *; [eauto|done]. Qed.

Lemma refines_mono {A B} (R R' : A -> B -> Prop) m n :
  (forall a b, R a b -> R' a b) -> refines R m n -> refines R' m n.
Proof. destruct m, n; simpl; naive_solver. Qed.

(** [ends stops m P]: [m] ends with a result for which [P] holds, or with a fault
    that [stops] allows. *)
Definition ends {A} (stops : fault -> Prop) (m : outcome A) (P : A -> Prop) : Prop :=
  match m with Done a => P a | Fault f => stops f end.

Lemma ends_bind {A B} stops (m : outcome A) (k : A -> outcome B) (P : A -> Prop) (Q : B -> Prop) :
  ends stops m P -> (forall a, P a -> ends stops (k a) Q) -> ends stops (m ≫= k) Q.
Proof. destruct m; simpl; auto. Qed.

Lemma ends_mono {A} stops (m : outcome A) (P Q : A -> Prop) : ends stops m P -> (forall a, P a -> Q a) -> ends stops m Q.
Proof. destruct m; simpl; auto. Qed.

(** The program gives up with the status of an error. *)
Definition exits (f : fault) : Prop := f = Exited 1.

Lemma wrap64_small z : u64 z -> wrap64 z = z.
Proof. apply Z.mod_small. Qed.

Lemma wrap64_range z : u64 (wrap64 z).
Proof. apply Z.mod_pos_bound. done. Qed.

Lemma add64_small a b : u64 (a + b) -> add64 a b = a + b.
Proof. apply wrap64_small. Qed.

Lemma sub64_small a b : u64 (a - b) -> sub64 a b = a - b.
Proof. apply wrap64_small. Qed.

Lemma mul64_small a b : u64 (a * b) -> mul64 a b = a * b.
Proof. apply wrap64_small. Qed.

Lemma array_get_Done {A} (l : list A) i a :
  array_get l i = Done a <-> l !! i = Some a.
Proof. unfold array_get. case_match; naive_solver. Qed.

Lemma array_set_ok {A} (l : list A) i a :
  (i < length l)%nat -> array_set l i a = Done (<[i := a]> l).
Proof. intros ?. unfold array_set. by rewrite decide_True. Qed.

(** Two ways to split a list at its first element with a property agree. *)
Lemma first_split_eq {A} (P : A -> bool) (xs xs' ys ys' : list A) a a' :
  xs ++ a :: ys = xs' ++ a' :: ys' ->
  Forall (fun x => P x = false) xs -> P a = true ->
  Forall (fun x => P x = false) xs' -> P a' = true ->
  xs = xs' /\ a = a' /\ ys = ys'.
Proof.
  revert xs'. induction xs as [|x xs IH]; intros [|x' xs'] Heq Hxs Ha Hxs' Ha';
    simplify_eq/=; decompose_Forall_hyps; try congruence; [done|].
  edestruct IH as (-> & -> & ->); eauto.
Qed.

(** Dropping the first occurrence of a value. *)
Fixpoint delete_first {A} `{EqDecision A} (v : A) (l : list A) : list A :=
  match l with [] => [] | a :: l => if decide (a = v) then l else a :: delete_first v l end.

Lemma delete_first_notin {A} `{EqDecision A} (v : A) l : v ∉ l -> delete_first v l = l.
Proof.
  induction l as [|a l IH]; simpl; [done|]. intros Hv. rewrite decide_False by set_solver.
  f_equal. set_solver.
Qed.

Lemma delete_first_app {A} `{EqDecision A} (v : A) xs ys :
  v ∉ xs -> delete_first v (xs ++ v :: ys) = xs ++ ys.
Proof.
  induction xs as [|a xs IH]; simpl; [by rewrite decide_True|]. intros Hv.
  rewrite decide_False by set_solver. f_equal. set_solver.
Qed.

(** A keyed list either lacks a value or splits at its first occurrence. *)
Lemma find_split {K A} `{EqDecision A} (v : A) (ns : list (K * A)) :
  v ∉ ns.*2 \/ exists xs k ys, ns = xs ++ (k, v) :: ys /\ v ∉ xs.*2.
Proof.
  induction ns as [|[k a] ns IH]; simpl; [left; set_solver|].
  destruct (decide (a = v)) as [->|Hne]; [right; exists [], k, ns; set_solver|].
  destruct IH as [|(xs & k' & ys & -> & ?)]; [left; set_solver|].
  right. exists ((k, a) :: xs), k', ys. set_solver.
Qed.

(** Sum of a weight over the values of a map. *)
Definition msum {K A} `{Countable K} (w : A -> nat) (m : gmap K A) : nat :=
  map_fold (fun _ a n => w a + n)%nat 0%nat m.

Section msum.
Context {K A : Type} `{Countable K} (w : A -> nat).
Implicit Types (m : gmap K A).

Lemma msum_empty : msum w (∅ : gmap K A) = 0%nat.
Proof. apply map_fold_empty. Qed.

Lemma msum_insert_new m k a : m !! k = None -> msum w (<[k := a]> m) = (w a + msum w m)%nat.
Proof. intros Hk. unfold msum. rewrite map_fold_insert_L; [done| |done]. intros; lia. Qed.

Lemma msum_delete m k a : m !! k = Some a -> msum w m = (w a + msum w (delete k m))%nat.
Proof.
  intros Hk. rewrite <- (insert_delete_id m k a Hk) at 1.
  by rewrite msum_insert_new by apply lookup_delete_eq.
Qed.

Lemma msum_insert m k a b :
  m !! k = Some a -> (msum w (<[k := b]> m) + w a = msum w m + w b)%nat.
Proof.
  intros Hk. rewrite (msum_delete m k a Hk), <- insert_delete_eq.
  rewrite msum_insert_new by apply lookup_delete_eq. lia.
Qed.

Lemma msum_zero m : (forall k a, m !! k = Some a -> w a = 0%nat) -> msum w m = 0%nat.
Proof.
  induction m as [|k a m Hk IH] using map_ind; intros Hf; [by apply msum_empty|].
  rewrite msum_insert_new by done. rewrite (Hf k a) by apply lookup_insert_eq.
  apply IH. intros k' a' Hk'. apply (Hf k' a'). rewrite lookup_insert_ne; [done|]. congruence.
Qed.

Lemma msum_fmap (f : A -> A) m :
  (forall k a, m !! k = Some a -> w (f a) = w a) -> msum w (f <$> m) = msum w m.
Proof.
  induction m as [|k a m Hk IH] using map_ind; intros Hf; [by rewrite fmap_empty|].
  rewrite fmap_insert, !msum_insert_new by (rewrite ?lookup_fmap, ?Hk; done).
  rewrite (Hf k a) by apply lookup_insert_eq. rewrite IH; [done|].
  intros k' a' Hk'. apply (Hf k' a'). rewrite lookup_insert_ne; [done|]. congruence.
Qed.
End msum.

Create HintDb csimp.
Create Rewrite HintDb csimp.
#[export] Hint Rewrite wrap64_small add64_small sub64_small mul64_small
  using (unfold u64, w64, u64_max in *; lia) : csimp.
#[export] Hint Resolve wrap64_range : csimp.

(** [u64_lia]: linear arithmetic with the word bounds unfolded. *)
Ltac u64_lia := unfold u64, w64, u64_max in *; lia.

(** [inv_outcome]: take apart hypotheses [_ ≫= _ = Done _]. *)
Ltac inv_outcome :=
  repeat match goal with
  | H : _ ≫= _ = Done _ |- _ => apply bind_Done in H as (? & ? & ?)
  | H : Done _ = Done _ |- _ => apply Done_inj in H
  | H : Fault _ = Done _ |- _ => discriminate H
  | H : Done _ = Fault _ |- _ => discriminate H
  | H : mret _ = Done _ |- _ => apply Done_inj in H
  end; simplify_eq.

(** [split_and_goal]: split the conjunctions of a goal and close the easy parts. *)
Ltac split_done := repeat match goal with |- _ /\ _ => split end; try done.
