(* ===== verification/CString.v ===== *)
(** * Characters and strings of C

    What several programs do with text: the buffer of [fgets], and the string that
    starts at a place of a buffer and ends before the first zero. *)

From Stdlib Require Import ZArith Lia Ascii.
From stdpp Require Import list strings.
From S2P Require Import Prelude.

Definition LF : ascii := ascii_of_nat 10.
Definition CR : ascii := ascii_of_nat 13.

Definition chars (s : string) : list ascii := String.list_ascii_of_string s.

(** A line with its newline. *)
Definition typed (l : list ascii) : list ascii := l ++ [LF].

(** The lines of an input: those that end in a newline, then what follows. *)
Definition last_line (l : list ascii) : list (list ascii) := match l with [] => [] | _ => [l] end.

(** [fgets]: at most [n] characters, up to and with a newline. *)
Fixpoint fgets (n : nat) (input : list ascii) : list ascii * list ascii :=
  match n, input with
  | S n, c :: input =>
      if decide (c = LF) then ([c], input) else let '(chunk, rest) := fgets n input in (c :: chunk, rest)
  | _, _ => ([], input)
  end.

(** The bytes of a buffer before the first zero. *)
Fixpoint c_str (buf : list ascii) : list ascii :=
  match buf with [] => [] | c :: buf => if decide (c = zero) then [] else c :: c_str buf end.

(** Text without a newline or a zero. *)
Definition unbroken (l : list ascii) : Prop := LF ∉ l /\ zero ∉ l.

Lemma unbroken_app l k : unbroken (l ++ k) <-> unbroken l /\ unbroken k.
Proof. unfold unbroken. rewrite !elem_of_app. tauto. Qed.

Lemma fgets_short n l rest :
  unbroken l -> (length l < n)%nat -> fgets n (l ++ LF :: rest) = (l ++ [LF], rest).
Proof.
  revert n. induction l as [|c l IH]; intros [|n] Hl Hn; simpl in Hn; try lia; [done|].
  destruct Hl as [H1 H2]. apply not_elem_of_cons in H1 as [Hc H1], H2 as [Hz H2].
  cbn [fgets app]. rewrite decide_False by congruence. rewrite IH; [done|by split|lia].
Qed.

Lemma fgets_full n l rest : unbroken l -> (n <= length l)%nat -> fgets n (l ++ rest) = (take n l, drop n l ++ rest).
Proof.
  revert n. induction l as [|c l IH]; intros [|n] Hl Hn; simpl in Hn; try lia; try (by destruct rest).
  destruct Hl as [H1 H2]. apply not_elem_of_cons in H1 as [Hc H1], H2 as [Hz H2].
  cbn [fgets app]. rewrite decide_False by congruence. rewrite IH; [done|by split|lia].
Qed.

Lemma fgets_end n l : unbroken l -> (length l < n)%nat -> fgets n l = (l, []).
Proof.
  revert n. induction l as [|c l IH]; intros [|n] Hl Hn; simpl in Hn; try lia; [done|].
  destruct Hl as [H1 H2]. apply not_elem_of_cons in H1 as [Hc H1], H2 as [Hz H2].
  cbn [fgets]. rewrite decide_False by congruence. rewrite IH; [done|by split|lia].
Qed.

Lemma c_str_plain l : zero ∉ l -> c_str l = l.
Proof.
  induction l as [|c l IH]; [done|]. intros [Hc Hl]%not_elem_of_cons. simpl. rewrite decide_False by congruence. by rewrite IH.
Qed.

Lemma unbroken_take n l : unbroken l -> unbroken (take n l) /\ unbroken (drop n l).
Proof. rewrite <- (take_drop n l) at 1. apply unbroken_app. Qed.
