(* ===== verification/Dll.v ===== *)
(** * Doubly linked nodes in a store

    The three linked-list implementations of the repository (homework-1,
    the concurrency project and simulatorlab) share one memory layout: nodes
    with [next], [prev] and a data field, reached through pointers.  This file
    holds that layout (a store of nodes), the accesses a C program makes to it,
    the list segment predicate [dseg] and the relinking lemmas the three
    components use. *)

From Stdlib Require Import ZArith Lia.
From stdpp Require Import gmap list.
From S2P Require Import Prelude.

(** ** Nodes and field accesses *)

Record node (D : Type) := Node { next : ptr; prev : ptr; data : D }.
Arguments Node {D} next prev data.
Arguments next {D} _.
Arguments prev {D} _.
Arguments data {D} _.

(** [*p]: a null pointer and a pointer to no live node are faults. *)
Definition get_node {D} (st : gmap loc (node D)) (p : ptr) : outcome (node D) :=
  match p with
  | None => Fault NullDeref
  | Some l => match st !! l with Some n => Done n | None => Fault Dangling end
  end.

(** [p->next = q] and [p->prev = q]. *)
Definition set_next {D} (st : gmap loc (node D)) (p q : ptr) : outcome (gmap loc (node D)) :=
  n ← get_node st p; l ← deref p; Done (<[l := Node q (prev n) (data n)]> st).
Definition set_prev {D} (st : gmap loc (node D)) (p q : ptr) : outcome (gmap loc (node D)) :=
  n ← get_node st p; l ← deref p; Done (<[l := Node (next n) q (data n)]> st).

(** [free(p)]: nothing for [NULL], a fault for memory that is not live. *)
Definition free_node {D} (st : gmap loc (node D)) (p : ptr) : outcome (gmap loc (node D)) :=
  match p with
  | None => Done st
  | Some l => match st !! l with Some _ => Done (delete l st) | None => Fault Dangling end
  end.

(** The loop [while (cur && !stop(cur)) cur = cur->next;].  A walk over an
    acyclic list visits every live node at most once, so [S (size st)] rounds
    are enough; a longer walk has met a cycle and the C loop never ends. *)
Fixpoint walk {D} (fuel : nat) (st : gmap loc (node D)) (stop : node D -> bool) (cur : ptr)
    : outcome ptr :=
  match fuel with
  | O => Fault Diverges
  | S fuel =>
      match cur with
      | None => Done None
      | Some _ =>
          n ← get_node st cur;
          if stop n then Done cur else walk fuel st stop (next n)
      end
  end.

(** The loop [while (cur) { nxt = cur->next; free(cur); cur = nxt; }]. *)
Fixpoint free_chain {D} (fuel : nat) (st : gmap loc (node D)) (cur : ptr)
    : outcome (gmap loc (node D)) :=
  match fuel with
  | O => Fault Diverges
  | S fuel =>
      match cur with
      | None => Done st
      | Some _ =>
          n ← get_node st cur;
          st' ← free_node st cur;
          free_chain fuel st' (next n)
      end
  end.

(** The loop [for (cur = head; cur; cur = cur->next) use(cur->data);], as the
    data in the order visited (the uses do not touch the nodes). *)
Fixpoint visit {D} (fuel : nat) (st : gmap loc (node D)) (cur : ptr) : outcome (list D) :=
  match fuel with
  | O => Fault Diverges
  | S fuel =>
      match cur with
      | None => Done []
      | Some _ => n ← get_node st cur; ds ← visit fuel st (next n); Done (data n :: ds)
      end
  end.

(** [if (p) p->next = q;] and [if (p) p->prev = q;]. *)
Definition set_next_if {D} (st : gmap loc (node D)) (p q : ptr) : outcome (gmap loc (node D)) :=
  match p with None => Done st | Some _ => set_next st p q end.
Definition set_prev_if {D} (st : gmap loc (node D)) (p q : ptr) : outcome (gmap loc (node D)) :=
  match p with None => Done st | Some _ => set_prev st p q end.

(** ** List segments *)

(** First location of a segment that ends with [nx]; last one of a segment
    that starts after [pv]. *)
Definition head_of {D} (ns : list (loc * D)) (nx : ptr) : ptr :=
  match ns with [] => nx | (l, _) :: _ => Some l end.

Fixpoint last_of {D} (pv : ptr) (ns : list (loc * D)) : ptr :=
  match ns with [] => pv | (l, _) :: ns => last_of (Some l) ns end.

(** [dseg st pv ns nx]: the nodes [ns] are laid out in order in [st], linked
    both ways, after the node [pv] and before [nx]. *)
Fixpoint dseg {D} (st : gmap loc (node D)) (pv : ptr) (ns : list (loc * D)) (nx : ptr) : Prop :=
  match ns with
  | [] => True
  | (l, d) :: ns => st !! l = Some (Node (head_of ns nx) pv d) /\ dseg st (Some l) ns nx
  end.

(** A store that holds exactly the nodes of one list. *)
Record rep {D} (st : gmap loc (node D)) (ns : list (loc * D)) : Prop := {
  rep_seg : dseg st None ns None;
  rep_nodup : NoDup ns.*1;
  rep_dom : dom st = list_to_set ns.*1
}.

(** Field updates of a pointer that may be null, as pure functions. *)
Definition link_next {D} (st : gmap loc (node D)) (p q : ptr) : gmap loc (node D) :=
  match p with Some l => alter (fun n => Node q (prev n) (data n)) l st | None => st end.
Definition link_prev {D} (st : gmap loc (node D)) (p q : ptr) : gmap loc (node D) :=
  match p with Some l => alter (fun n => Node (next n) q (data n)) l st | None => st end.

Section segments.
Context {D : Type}.
Implicit Types (st : gmap loc (node D)) (xs ys ns : list (loc * D)) (p q pv nx : ptr).

Lemma head_of_app xs ys nx : head_of (xs ++ ys) nx = head_of xs (head_of ys nx).
Proof. by destruct xs as [|[]]. Qed.

Lemma last_of_app pv xs ys : last_of pv (xs ++ ys) = last_of (last_of pv xs) ys.
Proof. revert pv. induction xs as [|[] xs IH]; intros; simpl; auto. Qed.

Lemma last_of_None pv xs : last_of pv xs = None -> pv = None /\ xs = [].
Proof.
  revert pv. induction xs as [|[l d] xs IH]; intros pv; simpl; [naive_solver|].
  intros [? _]%IH. done.
Qed.

Lemma head_of_None xs : head_of xs None = None -> xs = [].
Proof. by destruct xs as [|[]]. Qed.

Lemma last_of_elem pv xs l : last_of pv xs = Some l -> pv = Some l \/ l ∈ xs.*1.
Proof.
  revert pv. induction xs as [|[l' d] xs IH]; intros pv; simpl; [by left|].
  intros [|]%IH; set_solver.
Qed.

Lemma head_of_elem xs l : head_of xs None = Some l -> l ∈ xs.*1.
Proof. destruct xs as [|[l' d] xs]; simpl; [done|]. intros [= ->]. set_solver. Qed.

Lemma dseg_app st pv xs ys nx :
  dseg st pv (xs ++ ys) nx <->
  dseg st pv xs (head_of ys nx) /\ dseg st (last_of pv xs) ys nx.
Proof.
  revert pv. induction xs as [|[l d] xs IH]; intros pv; simpl; [tauto|].
  rewrite IH, head_of_app. tauto.
Qed.

Lemma dseg_frame st st' pv ns nx :
  (forall l, l ∈ ns.*1 -> st' !! l = st !! l) -> dseg st pv ns nx -> dseg st' pv ns nx.
Proof.
  revert pv. induction ns as [|[l d] ns IH]; intros pv Hf; simpl in *; [done|].
  intros [Hl Hs]. rewrite Hf by set_solver. split; [done|].
  apply IH; [|done]. intros; apply Hf; set_solver.
Qed.

Lemma dseg_lookup st pv ns nx l d :
  dseg st pv ns nx -> (l, d) ∈ ns -> exists n, st !! l = Some n /\ data n = d.
Proof.
  revert pv. induction ns as [|[l' d'] ns IH]; intros pv; simpl; [set_solver|].
  intros [Hl Hs] [[= -> ->]|]%elem_of_cons; eauto.
Qed.

Lemma dseg_dom st pv ns nx l : dseg st pv ns nx -> l ∈ ns.*1 -> is_Some (st !! l).
Proof.
  intros Hs ([l' d] & -> & Hin)%list_elem_of_fmap.
  destruct (dseg_lookup _ _ _ _ _ _ Hs Hin) as (n & ? & ?). eauto.
Qed.

Lemma link_next_ne st p q l : p <> Some l -> link_next st p q !! l = st !! l.
Proof. destruct p; simpl; [|done]. intros. apply lookup_alter_ne. congruence. Qed.
Lemma link_prev_ne st p q l : p <> Some l -> link_prev st p q !! l = st !! l.
Proof. destruct p; simpl; [|done]. intros. apply lookup_alter_ne. congruence. Qed.

Lemma link_next_eq st l q n :
  st !! l = Some n -> link_next st (Some l) q !! l = Some (Node q (prev n) (data n)).
Proof. intros H. simpl. by rewrite lookup_alter_eq, H. Qed.
Lemma link_prev_eq st l q n :
  st !! l = Some n -> link_prev st (Some l) q !! l = Some (Node (next n) q (data n)).
Proof. intros H. simpl. by rewrite lookup_alter_eq, H. Qed.

Lemma link_next_insert st p q l n :
  p <> Some l -> link_next (<[l := n]> st) p q = <[l := n]> (link_next st p q).
Proof.
  intros Hp. destruct p as [k|]; simpl; [|done]. apply map_eq. intros j.
  rewrite lookup_alter, !lookup_insert, lookup_alter. repeat case_decide; naive_solver.
Qed.
Lemma link_prev_insert st p q l n :
  p <> Some l -> link_prev (<[l := n]> st) p q = <[l := n]> (link_prev st p q).
Proof.
  intros Hp. destruct p as [k|]; simpl; [|done]. apply map_eq. intros j.
  rewrite lookup_alter, !lookup_insert, lookup_alter. repeat case_decide; naive_solver.
Qed.

Lemma link_prev_next_comm st p q p' q' :
  link_prev (link_next st p q) p' q' = link_next (link_prev st p' q') p q.
Proof.
  destruct p as [k|], p' as [k'|]; simpl; try done. apply map_eq. intros j.
  rewrite !lookup_alter. repeat case_decide; subst; try done. by destruct (st !! _).
Qed.

Lemma dom_link_next st p q : dom (link_next st p q) = dom st.
Proof. destruct p; simpl; [apply dom_alter_L|done]. Qed.
Lemma dom_link_prev st p q : dom (link_prev st p q) = dom st.
Proof. destruct p; simpl; [apply dom_alter_L|done]. Qed.

(** Changing the successor of a segment's last node. *)
Lemma dseg_link_next st pv xs nx q :
  NoDup xs.*1 -> dseg st pv xs nx -> dseg (link_next st (last_of None xs) q) pv xs q.
Proof.
  destruct xs as [|[l d] xs _] using rev_ind; [done|].
  rewrite fmap_app, last_of_app, !dseg_app. simpl. intros [? [Hd _]]%NoDup_app [Hs [Hl _]].
  split; [|split; [|done]].
  - eapply dseg_frame; [|exact Hs]. intros l' Hl'. apply lookup_alter_ne.
    intros ->. eapply Hd; set_solver.
  - by rewrite lookup_alter_eq, Hl.
Qed.

(** Changing the predecessor of a segment's first node. *)
Lemma dseg_link_prev st pv xs nx q :
  NoDup xs.*1 -> dseg st pv xs nx -> dseg (link_prev st (head_of xs None) q) q xs nx.
Proof.
  destruct xs as [|[l d] xs]; [done|]. simpl. intros [Hni Hnd]%NoDup_cons [Hl Hs].
  split.
  - by rewrite lookup_alter_eq, Hl.
  - eapply dseg_frame; [|exact Hs]. intros l' Hl'. apply lookup_alter_ne. set_solver.
Qed.

Lemma dseg_link_next_frame st p q pv ns nx :
  (forall l, l ∈ ns.*1 -> p <> Some l) -> dseg st pv ns nx -> dseg (link_next st p q) pv ns nx.
Proof. intros. eapply dseg_frame; [|done]. intros. apply link_next_ne. auto. Qed.
Lemma dseg_link_prev_frame st p q pv ns nx :
  (forall l, l ∈ ns.*1 -> p <> Some l) -> dseg st pv ns nx -> dseg (link_prev st p q) pv ns nx.
Proof. intros. eapply dseg_frame; [|done]. intros. apply link_prev_ne. auto. Qed.

Lemma elem_middle xs l (d : D) ys : l ∈ (xs ++ (l, d) :: ys).*1.
Proof. rewrite fmap_app. simpl. set_solver. Qed.

Lemma rep_split_nodup xs l (d : D) ys :
  NoDup (xs ++ (l, d) :: ys).*1 ->
  NoDup xs.*1 /\ NoDup ys.*1 /\ l ∉ xs.*1 /\ l ∉ ys.*1 /\ (forall k, k ∈ xs.*1 -> k ∉ ys.*1).
Proof.
  rewrite fmap_app. simpl. intros (Hx & Hd & [Hl Hy]%NoDup_cons)%NoDup_app.
  split_done; set_solver.
Qed.

(** The store after linking a fresh node between [xs] and [ys]. *)
Lemma rep_insert st xs ys l d :
  rep st (xs ++ ys) -> l ∉ dom st ->
  rep (<[l := Node (head_of ys None) (last_of None xs) d]>
         (link_next (link_prev st (head_of ys None) (Some l)) (last_of None xs) (Some l)))
      (xs ++ (l, d) :: ys).
Proof.
  intros [Hs Hnd Hdom] Hl. rewrite fmap_app in Hnd, Hdom.
  apply NoDup_app in Hnd as (Hx & Hxy & Hy). rewrite Hdom in Hl.
  apply dseg_app in Hs as [Hsx Hsy].
  assert (Hlx : l ∉ xs.*1) by set_solver. assert (Hly : l ∉ ys.*1) by set_solver.
  split.
  - apply dseg_app. simpl. split; [|split].
    + eapply dseg_frame; [intros; apply lookup_insert_ne; set_solver|].
      eapply dseg_link_next, dseg_link_prev_frame; [done| |done].
      intros k Hk Hh%head_of_elem. set_solver.
    + apply lookup_insert_eq.
    + eapply dseg_frame; [intros; apply lookup_insert_ne; set_solver|].
      apply dseg_link_next_frame; [|by eapply dseg_link_prev].
      intros k Hk [|]%last_of_elem; set_solver.
  - rewrite fmap_app. simpl. apply NoDup_app. split_done; [set_solver|].
    by apply NoDup_cons.
  - rewrite dom_insert_L, dom_link_next, dom_link_prev, Hdom, fmap_app. simpl.
    set_solver.
Qed.

(** The store after unlinking and freeing a node. *)
Lemma rep_remove st xs l d ys :
  rep st (xs ++ (l, d) :: ys) ->
  rep (delete l (link_prev (link_next st (last_of None xs) (head_of ys None))
                   (head_of ys None) (last_of None xs)))
      (xs ++ ys).
Proof.
  intros [Hs Hnd Hdom].
  destruct (rep_split_nodup _ _ _ _ Hnd) as (Hx & Hy & Hlx & Hly & Hxy).
  apply dseg_app in Hs as [Hsx [Hl Hsy]].
  split.
  - apply dseg_app. split.
    + eapply dseg_frame; [intros; apply lookup_delete_ne; set_solver|].
      apply dseg_link_prev_frame; [|by eapply dseg_link_next].
      intros k Hk Hh%head_of_elem. set_solver.
    + eapply dseg_frame; [intros; apply lookup_delete_ne; set_solver|].
      eapply dseg_link_prev; [done|]. apply dseg_link_next_frame; [|done].
      intros k Hk [|]%last_of_elem; set_solver.
  - rewrite fmap_app. apply NoDup_app. split_done; set_solver.
  - rewrite dom_delete_L, dom_link_prev, dom_link_next, Hdom, !fmap_app. simpl.
    set_solver.
Qed.

Lemma rep_size st ns : rep st ns -> size st = length ns.
Proof.
  intros [_ Hnd Hdom]. rewrite <- size_dom, Hdom, size_list_to_set by done.
  apply length_fmap.
Qed.

Lemma rep_nil : rep (∅ : gmap loc (node D)) [].
Proof. split; [done|constructor|set_solver]. Qed.

Lemma rep_lookup st xs l d ys :
  rep st (xs ++ (l, d) :: ys) ->
  st !! l = Some (Node (head_of ys None) (last_of None xs) d).
Proof. intros [Hs _ _]. apply dseg_app in Hs as [_ [? _]]. done. Qed.

Lemma get_node_rep st xs l d ys :
  rep st (xs ++ (l, d) :: ys) ->
  get_node st (Some l) = Done (Node (head_of ys None) (last_of None xs) d).
Proof. intros H%rep_lookup. simpl. by rewrite H. Qed.

Lemma set_next_Done st l q :
  l ∈ dom st -> set_next st (Some l) q = Done (link_next st (Some l) q).
Proof.
  intros [n Hn]%elem_of_dom. unfold set_next. simpl. rewrite Hn. simpl. f_equal.
  apply map_eq. intros k. destruct (decide (k = l)) as [->|].
  - by rewrite lookup_insert_eq, lookup_alter_eq, Hn.
  - by rewrite lookup_insert_ne, lookup_alter_ne.
Qed.

Lemma set_prev_Done st l q :
  l ∈ dom st -> set_prev st (Some l) q = Done (link_prev st (Some l) q).
Proof.
  intros [n Hn]%elem_of_dom. unfold set_prev. simpl. rewrite Hn. simpl. f_equal.
  apply map_eq. intros k. destruct (decide (k = l)) as [->|].
  - by rewrite lookup_insert_eq, lookup_alter_eq, Hn.
  - by rewrite lookup_insert_ne, lookup_alter_ne.
Qed.

Lemma set_next_if_Done st p q :
  (forall l, p = Some l -> l ∈ dom st) -> set_next_if st p q = Done (link_next st p q).
Proof. destruct p; intros H; [apply set_next_Done; auto|done]. Qed.

Lemma set_prev_if_Done st p q :
  (forall l, p = Some l -> l ∈ dom st) -> set_prev_if st p q = Done (link_prev st p q).
Proof. destruct p; intros H; [apply set_prev_Done; auto|done]. Qed.

Lemma rep_elem_dom st ns l : rep st ns -> l ∈ dom st <-> l ∈ ns.*1.
Proof. intros [_ _ ->]. set_solver. Qed.

Lemma rep_last_dom st xs ys l : rep st (xs ++ ys) -> last_of None xs = Some l -> l ∈ dom st.
Proof.
  intros Hr [|Hl]%last_of_elem; [done|]. eapply rep_elem_dom; [done|]. set_solver.
Qed.

Lemma rep_head_dom st xs ys l : rep st (xs ++ ys) -> head_of ys None = Some l -> l ∈ dom st.
Proof. intros Hr Hl%head_of_elem. eapply rep_elem_dom; [done|]. set_solver. Qed.

(** Unlinking a node reads its own links unchanged. *)
Lemma get_node_link_next st xs l d ys q :
  rep st (xs ++ (l, d) :: ys) ->
  get_node (link_next st (last_of None xs) q) (Some l) =
    Done (Node (head_of ys None) (last_of None xs) d).
Proof.
  intros Hr. simpl. rewrite link_next_ne; [by rewrite (rep_lookup _ _ _ _ _ Hr)|].
  intros [|Hin]%last_of_elem; [done|].
  destruct (rep_split_nodup _ _ _ _ (rep_nodup _ _ Hr)) as (_ & _ & ? & _). done.
Qed.

Lemma free_node_Done st l : l ∈ dom st -> free_node st (Some l) = Done (delete l st).
Proof. intros [n Hn]%elem_of_dom. simpl. by rewrite Hn. Qed.

Lemma visit_rep fuel st pv ns :
  dseg st pv ns None -> (length ns < fuel)%nat -> visit fuel st (head_of ns None) = Done ns.*2.
Proof.
  revert fuel pv. induction ns as [|[l d] ns IH]; intros [|fuel] pv Hs Hlen; simpl in *; try lia;
    [done|].
  destruct Hs as [Hl Hs]. rewrite Hl. simpl. by rewrite (IH fuel _ Hs) by lia.
Qed.

Lemma rep_fuel st ns : rep st ns -> (length ns < S (size st))%nat.
Proof. intros H%rep_size. lia. Qed.

(** The writes that take a node out of its list, in the order of the code. *)
Lemma unlink_steps st xs l d ys :
  rep st (xs ++ (l, d) :: ys) ->
  let st1 := link_next st (last_of None xs) (head_of ys None) in
  let st2 := link_prev st1 (head_of ys None) (last_of None xs) in
  set_next_if st (last_of None xs) (head_of ys None) = Done st1 /\
  get_node st1 (Some l) = Done (Node (head_of ys None) (last_of None xs) d) /\
  set_prev_if st1 (head_of ys None) (last_of None xs) = Done st2 /\
  l ∈ dom st2 /\ rep (delete l st2) (xs ++ ys).
Proof.
  intros Hr. assert (Hl : l ∈ dom st) by (apply (rep_elem_dom _ _ _ Hr), elem_middle).
  intros st1 st2.
  split_done.
  - apply set_next_if_Done. intros. by eapply rep_last_dom.
  - by apply get_node_link_next.
  - apply set_prev_if_Done. intros k Hk. unfold st1. rewrite dom_link_next.
    rewrite cons_middle, app_assoc in Hr. by eapply rep_head_dom.
  - unfold st2, st1. by rewrite dom_link_prev, dom_link_next.
  - by eapply rep_remove.
Qed.

(** The new head and tail pointers after a removal. *)
Lemma remove_head xs (l : loc) (d : D) ys :
  NoDup (xs ++ (l, d) :: ys).*1 ->
  (if decide (Some l = head_of (xs ++ (l, d) :: ys) None)
   then head_of ys None else head_of (xs ++ (l, d) :: ys) None) = head_of (xs ++ ys) None.
Proof.
  intros (_ & _ & Hx & _ & _)%rep_split_nodup. destruct xs as [|[l' d'] xs]; simpl.
  - by rewrite decide_True.
  - rewrite decide_False; [done|]. set_solver.
Qed.

Lemma remove_tail xs (l : loc) (d : D) ys :
  NoDup (xs ++ (l, d) :: ys).*1 ->
  (if decide (Some l = last_of None (xs ++ (l, d) :: ys))
   then last_of None xs else last_of None (xs ++ (l, d) :: ys)) = last_of None (xs ++ ys).
Proof.
  intros (_ & _ & _ & Hy & _)%rep_split_nodup. rewrite !last_of_app. simpl.
  destruct ys as [|[l' d'] ys]; simpl; [by rewrite decide_True|].
  rewrite decide_False; [done|]. intros E. symmetry in E. apply last_of_elem in E as [[= ->]|]; set_solver.
Qed.

(** Searching by data: the walk stops at the first node whose data passes. *)
Lemma walk_data fuel st pv xs (P : D -> bool) :
  dseg st pv xs None -> (length xs < fuel)%nat ->
  (exists ys l d zs, xs = ys ++ (l, d) :: zs /\ Forall (fun x => P x.2 = false) ys /\ P d = true /\
     walk fuel st (fun n => P (data n)) (head_of xs None) = Done (Some l)) \/
  (Forall (fun x => P x.2 = false) xs /\
     walk fuel st (fun n => P (data n)) (head_of xs None) = Done None).
Proof.
  revert fuel pv. induction xs as [|[l d] xs IH]; intros [|fuel] pv Hs Hlen; simpl in *; try lia.
  { right. split; [constructor|done]. }
  destruct Hs as [Hl Hs]. rewrite Hl. simpl. destruct (P d) eqn:HP.
  - left. exists [], l, d, xs. split_done.
  - destruct (IH fuel _ Hs) as [(ys & l' & d' & zs & -> & Hys & HP' & Hw)|[Hall Hw]]; [lia| |].
    + left. exists ((l, d) :: ys), l', d', zs. split_done; by constructor.
    + right. split; [by constructor|done].
Qed.

(** Walking to the last node. *)
Lemma walk_last fuel st pv l d xs :
  dseg st pv ((l, d) :: xs) None -> (length xs < fuel)%nat ->
  walk fuel st (fun n => bool_decide (next n = None)) (Some l) = Done (last_of (Some l) xs).
Proof.
  revert fuel pv l d. induction xs as [|[l' d'] xs IH]; intros [|fuel] pv l d [Hl Hs] Hlen;
    simpl in *; try lia; rewrite Hl; simpl; [done|].
  eapply IH; [exact Hs|lia].
Qed.

Lemma free_chain_rep fuel st ns :
  rep st ns -> (length ns < fuel)%nat -> free_chain fuel st (head_of ns None) = Done ∅.
Proof.
  intros [Hs Hnd Hdom]. revert Hs Hnd Hdom. generalize (None : ptr) at 1 as pv.
  revert fuel st. induction ns as [|[l d] ns IH]; intros [|fuel] st pv Hs Hnd Hdom Hlen;
    simpl in *; try lia.
  - f_equal. apply dom_empty_inv_L. set_solver.
  - destruct Hs as [Hl Hs]. rewrite Hl. simpl. apply NoDup_cons in Hnd as [Hni Hnd].
    eapply IH; [|done| |lia].
    + eapply dseg_frame; [|exact Hs]. intros k Hk. apply lookup_delete_ne. set_solver.
    + rewrite dom_delete_L, Hdom. set_solver.
Qed.
End segments.

(** [prove_rep]: a concrete store represents a concrete list. *)
Ltac prove_rep :=
  split; [vm_compute; repeat split
         |apply (bool_decide_unpack _); vm_compute; exact I
         |vm_compute; reflexivity].

#[export] Hint Resolve rep_nil rep_seg rep_nodup : core.
