(* ===== verification/ConcList.v ===== *)
(** * The linked list of the concurrency project

    [concurrency-project-FreezeKickerz/linked_list.c]: a doubly linked list with
    head, tail and count that appends at the tail.  A [list_t*] is an
    [option (list_t D)] ([None] is [NULL]); the nodes a list has malloc'ed and
    not yet freed are kept with it in [nodes]. *)

From Stdlib Require Import ZArith Lia.
From stdpp Require Import gmap list.
From S2P Require Import Prelude Dll.

(** ** Data and operations *)

Record list_t (D : Type) := List {
  head : ptr;
  tail : ptr;
  count : Z;
  nodes : gmap loc (node D)
}.
Arguments List {D} head tail count nodes.
Arguments head {D} _.
Arguments tail {D} _.
Arguments count {D} _.
Arguments nodes {D} _.

Section operations.
Context `{Malloc} {D : Type} `{EqDecision D}.

(** [live]: the objects live when the list object itself is malloc'ed. *)
Definition list_create (live : gset loc) : option (list_t D) :=
  match malloc live with
  | None => None
  | Some _ => Some (List None None 0 ∅)
  end.

(** The nodes left after the loop of [free]s, with the list object gone. *)
Definition list_destroy (lp : option (list_t D)) : outcome (gmap loc (node D)) :=
  match lp with
  | None => Done ∅
  | Some l => free_chain (S (size (nodes l))) (nodes l) (head l)
  end.

Definition list_head (lp : option (list_t D)) : ptr :=
  match lp with Some l => head l | None => None end.

Definition list_tail (lp : option (list_t D)) : ptr :=
  match lp with Some l => tail l | None => None end.

(** Node accessors; [l] is the list whose store the node pointer points into. *)
Definition list_next (l : list_t D) (p : ptr) : outcome ptr :=
  match p with None => Done None | Some _ => n ← get_node (nodes l) p; Done (next n) end.

Definition list_prev (l : list_t D) (p : ptr) : outcome ptr :=
  match p with None => Done None | Some _ => n ← get_node (nodes l) p; Done (prev n) end.

Definition list_end (lp : option (list_t D)) : ptr :=
  match lp with Some l => tail l | None => None end.

Definition list_data (l : list_t D) (p : ptr) : outcome (option D) :=
  match p with None => Done None | Some _ => n ← get_node (nodes l) p; Done (Some (data n)) end.

Definition list_count (lp : option (list_t D)) : Z :=
  match lp with None => 0 | Some l => count l end.

Definition list_find (lp : option (list_t D)) (d : D) : outcome ptr :=
  match lp with
  | None => Done None
  | Some l => walk (S (size (nodes l))) (nodes l) (fun n => bool_decide (data n = d)) (head l)
  end.

Definition list_insert (lp : option (list_t D)) (d : D) : outcome (ptr * option (list_t D)) :=
  match lp with
  | None => Done (None, None)
  | Some l =>
      match malloc (dom (nodes l)) with
      | None => Done (None, Some l)
      | Some k =>
          let st := <[k := Node None (tail l) d]> (nodes l) in
          st ← set_next_if st (tail l) (Some k);
          let hd := match tail l with Some _ => head l | None => Some k end in
          Done (Some k, Some (List hd (Some k) (add64 (count l) 1) st))
      end
  end.

Definition list_remove (lp : option (list_t D)) (p : ptr) : outcome (option (list_t D)) :=
  match lp, p with
  | None, _ => Done None
  | Some l, None => Done (Some l)
  | Some l, Some _ =>
      n ← get_node (nodes l) p;
      let hd := if decide (p = head l) then next n else head l in
      let tl := if decide (p = tail l) then prev n else tail l in
      st ← set_next_if (nodes l) (prev n) (next n);
      n ← get_node st p;
      st ← set_prev_if st (next n) (prev n);
      st ← free_node st p;
      Done (Some (List hd tl (sub64 (count l) 1) st))
  end.

(** The loop over all nodes that [notify_select_senders] runs. *)
Definition list_visit (lp : option (list_t D)) : outcome (list D) :=
  match lp with
  | None => Done []
  | Some l => visit (S (size (nodes l))) (nodes l) (head l)
  end.
End operations.

(** ** The list a structure represents *)

Record list_ok {D} (l : list_t D) (ns : list (loc * D)) : Prop := {
  ok_rep : rep (nodes l) ns;
  ok_head : head l = head_of ns None;
  ok_tail : tail l = last_of None ns;
  ok_count : count l = Z.of_nat (length ns);
  ok_room : Z.of_nat (length ns) < w64
}.

Section proofs.
Context `{Malloc} {D : Type} `{EqDecision D}.
Implicit Types (l : list_t D) (xs ys ns : list (loc * D)).

Lemma conc_empty_ok : list_ok (List None None 0 (∅ : gmap loc (node D))) [].
Proof. split; try done. Qed.

Lemma list_create_ok live l : list_create live = Some l -> list_ok l [].
Proof. unfold list_create. case_match; [intros [= <-]|done]. apply conc_empty_ok. Qed.

Lemma list_count_ok l ns : list_ok l ns -> list_count (Some l) = Z.of_nat (length ns).
Proof. by intros []. Qed.

Lemma list_visit_ok l ns : list_ok l ns -> list_visit (Some l) = Done ns.*2.
Proof.
  intros [Hr Hh _ _ _]. unfold list_visit. rewrite Hh.
  eapply visit_rep; [by apply rep_seg|by apply rep_fuel].
Qed.

(** Insertion is an append of a fresh node, or leaves the list unchanged when
    [malloc] fails. *)
Lemma conc_insert_cases l ns d :
  list_ok l ns ->
  (malloc (dom (nodes l)) = None /\ list_insert (Some l) d = Done (None, Some l)) \/
  exists k l', malloc (dom (nodes l)) = Some k /\ k ∉ ns.*1 /\
    list_insert (Some l) d = Done (Some k, Some l') /\ list_ok l' (ns ++ [(k, d)]).
Proof.
  intros [Hr Hh Ht Hc Hroom]. simpl. destruct (malloc _) as [k|] eqn:Hm; [right|by left].
  pose proof (malloc_fresh _ _ Hm) as Hk. pose proof (malloc_room _ _ Hm) as Hroom'.
  rewrite size_dom, (rep_size _ _ Hr) in Hroom'.
  rewrite set_next_if_Done.
  2:{ rewrite Ht, dom_insert_L. intros k' Hk'. apply elem_of_union_r.
      eapply (rep_last_dom _ ns []); [by rewrite app_nil_r|done]. }
  simpl. eexists k, _. split_done; [by rewrite <- (rep_elem_dom _ _ _ Hr)|].
  pose proof (rep_insert (nodes l) ns [] k d) as Hr'. rewrite app_nil_r in Hr'.
  specialize (Hr' Hr Hk). simpl in Hr'.
  split; simpl.
  - rewrite link_next_insert; [by rewrite Ht|]. rewrite Ht. intros Heq.
    apply Hk. eapply (rep_last_dom _ ns []); [by rewrite app_nil_r|done].
  - rewrite head_of_app, Hh, Ht. destruct ns as [|[p d'] ns]; [done|].
    destruct (last_of None ((p, d') :: ns)) eqn:Hl; [done|].
    by apply last_of_None in Hl as [_ ?].
  - by rewrite last_of_app.
  - rewrite Hc, length_app. simpl. rewrite add64_small by u64_lia. lia.
  - rewrite length_app. simpl. u64_lia.
Qed.

Lemma conc_remove_ok l xs k d ys :
  list_ok l (xs ++ (k, d) :: ys) ->
  exists l', list_remove (Some l) (Some k) = Done (Some l') /\ list_ok l' (xs ++ ys).
Proof.
  intros [Hr Hh Ht Hc Hroom]. unfold list_remove. pose proof (rep_nodup _ _ Hr) as Hnd.
  destruct (unlink_steps _ _ _ _ _ Hr) as (E1 & E2 & E3 & E4 & E5).
  rewrite (get_node_rep _ _ _ _ _ Hr). cbn [mbind outcome_bind prev next].
  rewrite E1. cbn [mbind outcome_bind]. rewrite E2. cbn [mbind outcome_bind prev next].
  rewrite E3. cbn [mbind outcome_bind]. rewrite (free_node_Done _ _ E4).
  cbn [mbind outcome_bind]. eexists. split; [done|]. rewrite length_app in Hc, Hroom. simpl in *.
  split; simpl.
  - done.
  - rewrite Hh. by apply remove_head.
  - rewrite Ht. by apply remove_tail.
  - rewrite Hc, length_app, sub64_small by u64_lia. lia.
  - rewrite length_app. lia.
Qed.

Lemma conc_find_ok l ns d :
  list_ok l ns ->
  (d ∉ ns.*2 /\ list_find (Some l) d = Done None) \/
  exists xs k ys, ns = xs ++ (k, d) :: ys /\ d ∉ xs.*2 /\ list_find (Some l) d = Done (Some k).
Proof.
  intros [Hr Hh _ _ _]. unfold list_find. rewrite Hh.
  destruct (walk_data (S (size (nodes l))) (nodes l) None ns (fun d' => bool_decide (d' = d)))
    as [(ys & c & dc & zs & -> & Hys & Hdc & ->)|[Hall ->]];
    [by apply rep_seg|by apply rep_fuel| |].
  - right. apply bool_decide_eq_true in Hdc as ->. exists ys, c, zs. split_done.
    intros ([k' ?] & -> & Hin)%list_elem_of_fmap. rewrite Forall_forall in Hys.
    specialize (Hys _ Hin). by apply bool_decide_eq_false in Hys.
  - left. split; [|done]. intros ([k' ?] & -> & Hin)%list_elem_of_fmap.
    rewrite Forall_forall in Hall. specialize (Hall _ Hin). by apply bool_decide_eq_false in Hall.
Qed.

(** Removing what [list_find] finds: the step of the [remove_select] helpers. *)
Lemma conc_find_remove_ok l ns d :
  list_ok l ns ->
  exists l' ns', (p ← list_find (Some l) d; list_remove (Some l) p) = Done (Some l') /\
    list_ok l' ns' /\ ns' `sublist_of` ns /\ ns'.*2 = delete_first d ns.*2.
Proof.
  intros Hok. destruct (conc_find_ok l ns d Hok) as [[Hd ->]|(xs & k & ys & -> & Hd & ->)];
    cbn [mbind outcome_bind].
  - exists l, ns. rewrite delete_first_notin by done. split_done.
  - destruct (conc_remove_ok _ _ _ _ _ Hok) as (l' & -> & Hok'). exists l', (xs ++ ys).
    split_done.
    + apply sublist_app; [done|]. by apply sublist_cons.
    + by rewrite !fmap_app, fmap_cons, delete_first_app.
Qed.
End proofs.
