(* ===== verification/SimList.v ===== *)
(** * The linked list of simulatorlab

    [simulatorlab-FreezeKickerz/linked_list.c]: the list of the concurrency
    project with a comparison function.  Without one [list_insert] pushes at the
    head; with one it inserts before the first node that does not compare less,
    which keeps the event queue sorted.  A [list_t*] is an [option (list_t D)],
    and [NULL] for the comparison function is [None]. *)

From Stdlib Require Import ZArith Lia.
From stdpp Require Import gmap list.
From S2P Require Import Prelude Dll.

(** ** Data and operations *)

Record list_t (D : Type) := List {
  head : ptr;
  tail : ptr;
  count : Z;
  compare : option (D -> D -> Z);
  nodes : gmap loc (node D)
}.
Arguments List {D} head tail count compare nodes.
Arguments head {D} _.
Arguments tail {D} _.
Arguments count {D} _.
Arguments compare {D} _.
Arguments nodes {D} _.

Section operations.
Context `{Malloc} {D : Type} `{EqDecision D}.

Definition list_create (live : gset loc) (cmp : option (D -> D -> Z)) : option (list_t D) :=
  match malloc live with
  | None => None
  | Some _ => Some (List None None 0 cmp ∅)
  end.

(** The nodes left after the loop of [free]s, with the list object gone. *)
Definition list_destroy (lp : option (list_t D)) : outcome (gmap loc (node D)) :=
  match lp with
  | None => Done ∅
  | Some l => free_chain (S (size (nodes l))) (nodes l) (head l)
  end.

Definition list_head (lp : option (list_t D)) : ptr :=
  match lp with Some l => head l | None => None end.

Definition list_tail (lp : option (list_t D)) : ptr :=
  match lp with Some l => tail l | None => None end.

Definition list_next (l : list_t D) (p : ptr) : outcome ptr :=
  match p with None => Done None | Some _ => n ← get_node (nodes l) p; Done (next n) end.

Definition list_prev (l : list_t D) (p : ptr) : outcome ptr :=
  match p with None => Done None | Some _ => n ← get_node (nodes l) p; Done (prev n) end.

Definition list_end (lp : option (list_t D)) : ptr :=
  match lp with Some l => tail l | None => None end.

Definition list_data (l : list_t D) (p : ptr) : outcome (option D) :=
  match p with None => Done None | Some _ => n ← get_node (nodes l) p; Done (Some (data n)) end.

Definition list_count (lp : option (list_t D)) : Z :=
  match lp with None => 0 | Some l => count l end.

Definition list_find (lp : option (list_t D)) (d : D) : outcome ptr :=
  match lp with
  | None => Done None
  | Some l => walk (S (size (nodes l))) (nodes l) (fun n => bool_decide (data n = d)) (head l)
  end.

(** The insertion proper, for the node [k] that [malloc] returned. *)
Definition insert_at_head (l : list_t D) (k : loc) (d : D) : outcome (list_t D) :=
  let st := <[k := Node (head l) None d]> (nodes l) in
  st ← set_prev_if st (head l) (Some k);
  let tl := match head l with Some _ => tail l | None => Some k end in
  Done (List (Some k) tl (add64 (count l) 1) (compare l) st).

Definition insert_at_tail (l : list_t D) (k : loc) (d : D) : outcome (list_t D) :=
  let st := <[k := Node None (tail l) d]> (nodes l) in
  st ← set_next st (tail l) (Some k);
  Done (List (head l) (Some k) (add64 (count l) 1) (compare l) st).

Definition insert_before (l : list_t D) (k : loc) (d : D) (curr : ptr) : outcome (list_t D) :=
  c ← get_node (nodes l) curr;
  let st := <[k := Node curr (prev c) d]> (nodes l) in
  st ← set_next_if st (prev c) (Some k);
  let hd := match prev c with Some _ => head l | None => Some k end in
  st ← set_prev st curr (Some k);
  Done (List hd (tail l) (add64 (count l) 1) (compare l) st).

Definition list_insert (lp : option (list_t D)) (d : D) : outcome (ptr * option (list_t D)) :=
  match lp with
  | None => Done (None, None)
  | Some l =>
      match malloc (dom (nodes l)) with
      | None => Done (None, Some l)
      | Some k =>
          l' ← match compare l, head l with
               | None, _ | _, None => insert_at_head l k d
               | Some cmp, Some _ =>
                   curr ← walk (S (size (nodes l))) (nodes l)
                               (fun n => negb (cmp (data n) d <? 0)) (head l);
                   match curr with
                   | None => insert_at_tail l k d
                   | Some _ => insert_before l k d curr
                   end
               end;
          Done (Some k, Some l')
      end
  end.

Definition list_remove (lp : option (list_t D)) (p : ptr) : outcome (option (list_t D)) :=
  match lp, p with
  | None, _ => Done None
  | Some l, None => Done (Some l)
  | Some l, Some _ =>
      n ← get_node (nodes l) p;
      let hd := if decide (p = head l) then next n else head l in
      let tl := if decide (p = tail l) then prev n else tail l in
      st ← set_next_if (nodes l) (prev n) (next n);
      n ← get_node st p;
      st ← set_prev_if st (next n) (prev n);
      st ← set_next st p None;
      st ← set_prev st p None;
      st ← free_node st p;
      Done (Some (List hd tl (sub64 (count l) 1) (compare l) st))
  end.

(** The loop [for (cur = list_head(l); cur; cur = list_next(cur))] with uses
    of [list_data(cur)] only. *)
Definition list_visit (lp : option (list_t D)) : outcome (list D) :=
  match lp with
  | None => Done []
  | Some l => visit (S (size (nodes l))) (nodes l) (head l)
  end.
End operations.

(** ** The list a structure represents *)

Record list_ok {D} (l : list_t D) (ns : list (loc * D)) : Prop := {
  ok_rep : rep (nodes l) ns;
  ok_head : head l = head_of ns None;
  ok_tail : tail l = last_of None ns;
  ok_count : count l = Z.of_nat (length ns);
  ok_room : Z.of_nat (length ns) < w64
}.

(** Where [list_insert] puts new data: at the head without a comparison,
    otherwise before the first element that does not compare less. *)
Fixpoint insert_pos {A D} (cmp : D -> D -> Z) (proj : A -> D) (x : A) (l : list A) : list A :=
  match l with
  | [] => [x]
  | y :: l' => if cmp (proj y) (proj x) <? 0 then y :: insert_pos cmp proj x l' else x :: l
  end.

Definition insert_spec {A D} (cmp : option (D -> D -> Z)) (proj : A -> D) (x : A) (l : list A) :=
  match cmp with None => x :: l | Some c => insert_pos c proj x l end.

Section proofs.
Context `{Malloc} {D : Type} `{EqDecision D}.
Implicit Types (l : list_t D) (xs ys ns : list (loc * D)).

Lemma sim_create_ok live cmp l : list_create live cmp = Some l -> list_ok l [] /\ compare l = cmp.
Proof. unfold list_create. case_match; [intros [= <-]|done]. split; [|done]. by split. Qed.

Lemma sim_count_ok l ns : list_ok l ns -> list_count (Some l) = Z.of_nat (length ns).
Proof. by intros []. Qed.

Lemma sim_visit_ok l ns : list_ok l ns -> list_visit (Some l) = Done ns.*2.
Proof.
  intros [Hr Hh _ _ _]. unfold list_visit. rewrite Hh.
  eapply visit_rep; [by apply rep_seg|by apply rep_fuel].
Qed.

Lemma sim_head_ok l ns : list_ok l ns -> list_head (Some l) = head_of ns None.
Proof. by intros []. Qed.

Lemma sim_tail_ok l ns : list_ok l ns -> list_tail (Some l) = last_of None ns.
Proof. by intros []. Qed.

Lemma sim_data_ok l xs k d ys :
  list_ok l (xs ++ (k, d) :: ys) -> list_data l (Some k) = Done (Some d).
Proof. intros [Hr _ _ _ _]. simpl. by rewrite (rep_lookup _ _ _ _ _ Hr). Qed.

Lemma insert_pos_split cmp xs (k : loc) (d : D) :
  exists ys zs, xs = ys ++ zs /\ insert_pos cmp snd (k, d) xs = ys ++ (k, d) :: zs.
Proof.
  induction xs as [|[k' d'] xs IH]; simpl; [by exists [], []|].
  case_match.
  - destruct IH as (ys & zs & -> & ->). by exists ((k', d') :: ys), zs.
  - by exists [], ((k', d') :: xs).
Qed.

Lemma insert_pos_app cmp xs ys (k : loc) (d : D) :
  Forall (fun x => cmp x.2 d <? 0 = true) xs ->
  insert_pos cmp snd (k, d) (xs ++ ys) = xs ++ insert_pos cmp snd (k, d) ys.
Proof. induction 1 as [|[k' d'] xs Hx Hxs IH]; simpl in *; [done|]. by rewrite Hx, IH. Qed.

(** The three ways a node is linked in all produce the store of [rep_insert]. *)
Lemma insert_result l xs k d ys st hd tl cmp :
  list_ok l (xs ++ ys) -> malloc (dom (nodes l)) = Some k ->
  st = <[k := Node (head_of ys None) (last_of None xs) d]>
         (link_next (link_prev (nodes l) (head_of ys None) (Some k)) (last_of None xs) (Some k)) ->
  hd = head_of (xs ++ (k, d) :: ys) None -> tl = last_of None (xs ++ (k, d) :: ys) ->
  list_ok (List hd tl (add64 (count l) 1) cmp st) (xs ++ (k, d) :: ys).
Proof.
  intros [Hr Hh Ht Hc Hroom] Hm -> -> ->.
  pose proof (malloc_fresh _ _ Hm) as Hk. pose proof (malloc_room _ _ Hm) as Hroom'.
  rewrite size_dom, (rep_size _ _ Hr) in Hroom'.
  rewrite length_app in Hroom', Hc. split; simpl.
  - by apply rep_insert.
  - done.
  - done.
  - rewrite Hc, length_app. simpl. rewrite add64_small by u64_lia. lia.
  - rewrite length_app. simpl. u64_lia.
Qed.

Lemma insert_at_head_ok l ns k d :
  list_ok l ns -> malloc (dom (nodes l)) = Some k ->
  exists l', insert_at_head l k d = Done l' /\ list_ok l' ((k, d) :: ns) /\ compare l' = compare l.
Proof.
  intros Hok Hm. pose proof (malloc_fresh _ _ Hm) as Hk.
  destruct (Hok) as [Hr Hh Ht Hc Hroom]. unfold insert_at_head.
  assert (Hne : head l <> Some k).
  { rewrite Hh. intros Heq. apply Hk. by eapply (rep_head_dom _ [] ns). }
  rewrite set_prev_if_Done.
  2:{ intros j Hj. rewrite dom_insert_L. apply elem_of_union_r.
      rewrite Hh in Hj. by eapply (rep_head_dom _ [] ns). }
  simpl. eexists. split_done. eapply (insert_result l [] k d ns); try done.
  - rewrite link_prev_insert by done. by rewrite Hh.
  - rewrite Hh, Ht. by destruct ns as [|[]].
Qed.

Lemma insert_at_tail_ok l ns k d :
  list_ok l ns -> ns <> [] -> malloc (dom (nodes l)) = Some k ->
  exists l', insert_at_tail l k d = Done l' /\ list_ok l' (ns ++ [(k, d)]) /\ compare l' = compare l.
Proof.
  intros Hok Hnil Hm. pose proof (malloc_fresh _ _ Hm) as Hk.
  destruct (Hok) as [Hr Hh Ht Hc Hroom]. unfold insert_at_tail.
  destruct (tail l) as [t|] eqn:Htl.
  2:{ symmetry in Ht. by apply last_of_None in Ht as [_ ?]. }
  assert (Htd : t ∈ dom (nodes l)).
  { eapply (rep_last_dom _ ns []); [by rewrite app_nil_r|done]. }
  rewrite set_next_Done by (rewrite dom_insert_L; set_solver).
  cbn [mbind outcome_bind]. eexists. split_done.
  rewrite <- (app_nil_r ns) in Hok. eapply (insert_result l ns k d []); try done.
  - rewrite link_next_insert by set_solver. simpl. by rewrite <- Ht.
  - rewrite head_of_app, Hh. by destruct ns as [|[]].
  - by rewrite last_of_app.
Qed.

Lemma insert_before_ok l xs k d c dc ys :
  list_ok l (xs ++ (c, dc) :: ys) -> malloc (dom (nodes l)) = Some k ->
  exists l', insert_before l k d (Some c) = Done l' /\
    list_ok l' (xs ++ (k, d) :: (c, dc) :: ys) /\ compare l' = compare l.
Proof.
  intros Hok Hm. pose proof (malloc_fresh _ _ Hm) as Hk.
  destruct (Hok) as [Hr Hh Ht Hc Hroom]. unfold insert_before.
  rewrite (get_node_rep _ _ _ _ _ Hr). cbn [mbind outcome_bind prev].
  assert (Hcd : c ∈ dom (nodes l)) by (apply (rep_elem_dom _ _ _ Hr), elem_middle).
  assert (Hne : last_of None xs <> Some k).
  { intros Heq. apply Hk. by eapply rep_last_dom. }
  rewrite set_next_if_Done.
  2:{ intros j Hj. rewrite dom_insert_L. apply elem_of_union_r. by eapply rep_last_dom. }
  cbn [mbind outcome_bind].
  rewrite set_prev_Done by (rewrite dom_link_next, dom_insert_L; set_solver).
  cbn [mbind outcome_bind]. eexists. split_done.
  eapply (insert_result l xs k d ((c, dc) :: ys)); try done.
  - rewrite link_next_insert, link_prev_insert by set_solver. f_equal. simpl.
    apply (link_prev_next_comm (nodes l) _ _ (Some c)).
  - rewrite Hh, !head_of_app. destruct xs as [|[x dx] xs]; [done|].
    destruct (last_of None ((x, dx) :: xs)) eqn:Hl; [done|]. by apply last_of_None in Hl as [_ ?].
  - rewrite Ht, !last_of_app. done.
Qed.

(** [list_insert]: [NULL] and an unchanged list when [malloc] fails, otherwise
    the new node at the position the comparison gives. *)
Lemma sim_insert_cases l ns d :
  list_ok l ns ->
  (malloc (dom (nodes l)) = None /\ list_insert (Some l) d = Done (None, Some l)) \/
  exists k l', malloc (dom (nodes l)) = Some k /\ k ∉ ns.*1 /\
    list_insert (Some l) d = Done (Some k, Some l') /\
    list_ok l' (insert_spec (compare l) snd (k, d) ns) /\ compare l' = compare l.
Proof.
  intros Hok. unfold list_insert. destruct (malloc _) as [k|] eqn:Hm; [right|by left].
  pose proof (malloc_fresh _ _ Hm) as Hk. destruct (Hok) as [Hr Hh Ht Hc Hroom].
  exists k.
  assert (Hkn : k ∉ ns.*1) by by rewrite <- (rep_elem_dom _ _ _ Hr).
  destruct (compare l) as [cmp|] eqn:Hcmp; cbn [insert_spec].
  2:{ destruct (insert_at_head_ok _ _ _ d Hok Hm) as (l' & -> & ? & ?).
      exists l'. rewrite Hcmp in *. by destruct (head l). }
  destruct ns as [|[h dh] ns].
  { rewrite Hh. cbn [head_of]. destruct (insert_at_head_ok _ _ _ d Hok Hm) as (l' & -> & ? & ?).
    exists l'. by rewrite Hcmp in *. }
  rewrite Hh. cbn [head_of].
  destruct (walk_data (S (size (nodes l))) (nodes l) None ((h, dh) :: ns)
              (fun d' => negb (cmp d' d <? 0))) as [(ys & c & dc & zs & Hxs & Hys & Hdc & Hw)|[Hall Hw]];
    [by apply rep_seg|by apply rep_fuel| |].
  - cbn [head_of] in Hw. rewrite Hw. cbn [mbind outcome_bind]. rewrite Hxs in *.
    destruct (insert_before_ok _ _ _ d _ _ _ Hok Hm) as (l' & -> & Hok' & Hc').
    exists l'. cbn [mbind outcome_bind]. split_done.
    + rewrite insert_pos_app; [|eapply Forall_impl; [exact Hys|]; simpl; intros ? ?%negb_false_iff; done].
      simpl. apply negb_true_iff in Hdc. by rewrite Hdc.
    + by rewrite Hcmp in *.
  - cbn [head_of] in Hw. rewrite Hw. cbn [mbind outcome_bind].
    destruct (insert_at_tail_ok _ _ _ d Hok ltac:(done) Hm) as (l' & -> & Hok' & Hc').
    exists l'. cbn [mbind outcome_bind]. split_done; [|by rewrite Hcmp in *].
    rewrite <- (app_nil_r ((h, dh) :: ns)), insert_pos_app;
      [done|eapply Forall_impl; [exact Hall|]; simpl; intros ? ?%negb_false_iff; done].
Qed.

Lemma sim_remove_ok l xs k d ys :
  list_ok l (xs ++ (k, d) :: ys) ->
  exists l', list_remove (Some l) (Some k) = Done (Some l') /\ list_ok l' (xs ++ ys) /\
    compare l' = compare l.
Proof.
  intros [Hr Hh Ht Hc Hroom]. unfold list_remove. pose proof (rep_nodup _ _ Hr) as Hnd.
  destruct (unlink_steps _ _ _ _ _ Hr) as (E1 & E2 & E3 & E4 & E5).
  rewrite (get_node_rep _ _ _ _ _ Hr). cbn [mbind outcome_bind prev next].
  rewrite E1. cbn [mbind outcome_bind]. rewrite E2. cbn [mbind outcome_bind prev next].
  rewrite E3. cbn [mbind outcome_bind]. rewrite (set_next_Done _ _ _ E4).
  cbn [mbind outcome_bind]. rewrite set_prev_Done by by rewrite dom_link_next.
  cbn [mbind outcome_bind]. rewrite free_node_Done by by rewrite dom_link_prev, dom_link_next.
  cbn [mbind outcome_bind]. eexists. split_done. rewrite length_app in Hc, Hroom. simpl in *.
  split; simpl.
  - by rewrite !delete_alter_eq.
  - rewrite Hh. by apply remove_head.
  - rewrite Ht. by apply remove_tail.
  - rewrite Hc, length_app, sub64_small by u64_lia. lia.
  - rewrite length_app. lia.
Qed.
End proofs.

(** ** The list as its data

    Clients that never keep a node see a list as the sequence of its data. *)

Definition holds {D} (cmp : option (D -> D -> Z)) (lp : option (list_t D)) (ds : list D) : Prop :=
  exists l ns, lp = Some l /\ list_ok l ns /\ compare l = cmp /\ ns.*2 = ds.

Section data_view.
Context `{Malloc} {D : Type} `{EqDecision D}.
Implicit Types (lp : option (list_t D)) (ds : list D) (cmp : option (D -> D -> Z)).

Lemma holds_create live cmp :
  is_Some (malloc live) -> holds cmp (list_create (D := D) live cmp) [].
Proof.
  intros [k Hk]. destruct (list_create live cmp) as [l|] eqn:Hl.
  - destruct (sim_create_ok _ _ _ Hl). by exists l, [].
  - unfold list_create in Hl. by rewrite Hk in Hl.
Qed.

Lemma holds_count cmp lp ds : holds cmp lp ds -> list_count lp = Z.of_nat (length ds).
Proof.
  intros (l & ns & -> & Hok & _ & <-). rewrite (sim_count_ok _ _ Hok). by rewrite length_fmap.
Qed.

Lemma holds_visit cmp lp ds : holds cmp lp ds -> list_visit lp = Done ds.
Proof. intros (l & ns & -> & Hok & _ & <-). by apply sim_visit_ok. Qed.

Lemma holds_destroy cmp lp ds : holds cmp lp ds -> list_destroy lp = Done ∅.
Proof.
  intros (l & ns & -> & [Hr Hh _ _ _] & _ & _). unfold list_destroy. rewrite Hh.
  apply free_chain_rep; [done|]. by apply rep_fuel.
Qed.

Lemma fmap_insert_pos c k d (ns : list (loc * D)) :
  (insert_pos c snd (k, d) ns).*2 = insert_pos c (fun x => x) d ns.*2.
Proof. induction ns as [|[k' d'] ns IH]; simpl; [done|]. case_match; simpl; [by f_equal|done]. Qed.

Lemma holds_insert cmp lp ds d n :
  holds cmp lp ds -> (forall X : gset loc, (size X <= n)%nat -> is_Some (malloc X)) ->
  (length ds <= n)%nat ->
  exists k lp', list_insert lp d = Done (Some k, lp') /\
    holds cmp lp' (insert_spec cmp (fun x => x) d ds).
Proof.
  intros (l & ns & -> & Hok & Hcmp & <-) Hm Hlen. rewrite length_fmap in Hlen.
  destruct (sim_insert_cases l ns d Hok) as [[Hn _]|(k & l' & Hk & Hkn & -> & Hok' & Hcmp')].
  - destruct (Hm (dom (nodes l))) as [k Hk]; [|congruence].
    rewrite size_dom, (rep_size _ _ (ok_rep _ _ Hok)). done.
  - exists k, (Some l'). split; [done|]. exists l', (insert_spec (compare l) snd (k, d) ns).
    split_done; [congruence|]. rewrite Hcmp.
    destruct cmp; simpl; [apply fmap_insert_pos|done].
Qed.

Lemma holds_remove_at cmp (l : list_t D) xs k d ys :
  list_ok l (xs ++ (k, d) :: ys) -> compare l = cmp ->
  exists lp', list_remove (Some l) (Some k) = Done lp' /\ holds cmp lp' (xs.*2 ++ ys.*2).
Proof.
  intros Hok Hcmp. destruct (sim_remove_ok l xs k d ys Hok) as (l' & Hrm & Hok' & Hcmp').
  eexists. split; [exact Hrm|]. exists l', (xs ++ ys). split_done; [congruence|]. by rewrite fmap_app.
Qed.

(** The node at one end: its data, and the list without it. *)
Lemma holds_head cmp lp d ds :
  holds cmp lp (d :: ds) ->
  exists l lp', lp = Some l /\ list_data l (list_head lp) = Done (Some d) /\
    list_remove lp (list_head lp) = Done lp' /\ holds cmp lp' ds.
Proof.
  intros (l & [|[k d'] ns] & -> & Hok & Hcmp & [= -> <-]).
  destruct (holds_remove_at _ _ [] _ _ _ Hok Hcmp) as (lp' & Hrm & Hlp').
  rewrite (sim_head_ok _ _ Hok). simpl head_of. exists l, lp'.
  split_done. by apply (sim_data_ok _ [] _ _ ns).
Qed.

Lemma holds_tail cmp lp d ds :
  holds cmp lp (ds ++ [d]) ->
  exists l lp', lp = Some l /\ list_data l (list_tail lp) = Done (Some d) /\
    list_remove lp (list_tail lp) = Done lp' /\ holds cmp lp' ds.
Proof.
  intros (l & ns & -> & Hok & Hcmp & Hds).
  destruct ns as [|[k d'] xs _] using rev_ind; [by destruct ds|].
  rewrite fmap_app in Hds. simpl in Hds. apply app_inj_tail in Hds as [<- <-].
  destruct (holds_remove_at _ _ xs _ _ [] Hok Hcmp) as (lp' & Hrm & Hlp').
  rewrite (sim_tail_ok _ _ Hok), last_of_app. simpl last_of. exists l, lp'.
  simpl in Hlp'. rewrite app_nil_r in Hlp'. split_done. by apply (sim_data_ok _ xs _ _ []).
Qed.

(** Finding data by equality and removing its node. *)
Lemma holds_find_remove cmp lp xs d ys :
  holds cmp lp (xs ++ d :: ys) -> d ∉ xs ->
  exists p lp', list_find lp d = Done p /\ list_remove lp p = Done lp' /\ holds cmp lp' (xs ++ ys).
Proof.
  intros (l & ns & -> & Hok & Hcmp & Hds) Hd.
  apply fmap_app_inv in Hds as (nx & ny & -> & Hds & ->).
  apply symmetry, fmap_cons_inv in Hds as ([k d'] & ny' & -> & -> & ->). cbn [fst snd] in *.
  destruct (holds_remove_at _ _ nx _ _ ny' Hok Hcmp) as (lp' & Hrm & Hlp').
  exists (Some k), lp'. split_done. unfold list_find. rewrite (ok_head _ _ Hok).
  destruct (walk_data (S (size (nodes l))) (nodes l) None (nx ++ (k, d') :: ny')
              (fun d => bool_decide (d = d'))) as [(ys' & c & dc & zs & Hxs & Hys & Hdc & Hw)|[Hall Hw]];
    [eapply rep_seg, Hok|eapply rep_fuel, Hok| |].
  - rewrite Hw. do 2 f_equal.
    edestruct (first_split_eq (fun x : loc * D => bool_decide (x.2 = d')) nx ys' ny' zs (k, d') (c, dc))
      as (_ & Heq & _); [exact Hxs| | |exact Hys|exact Hdc|by simplify_eq].
    + rewrite Forall_forall. intros [k' d''] Hin. apply bool_decide_eq_false. simpl. intros ->.
      apply Hd. apply list_elem_of_fmap. by exists (k', d').
    + by apply bool_decide_eq_true.
  - rewrite Forall_app in Hall. destruct Hall as [_ Hall]. inversion Hall as [|x0 l0 Hx0 _]; subst.
    simpl in Hx0. by apply bool_decide_eq_false in Hx0.
Qed.
End data_view.
