(* ===== verification/Simulator.v ===== *)
(** * The discrete event simulator of simulatorlab

    [simulatorlab-FreezeKickerz/job.h], [simulator.h] and [simulator.c]: jobs
    in a store, events in the sorted linked list of [SimList], and the loop that
    runs the callback of the earliest event.  A callback is a constructor of
    [event_callback]; [simulatorRun] takes the function that runs one. *)

From Stdlib Require Import ZArith Lia Sorted.
From stdpp Require Import gmap list sorting.
From S2P Require Import Prelude Dll SimList.

(** ** Jobs *)

Record job_t := Job { arrivalTime : Z; jobTime : Z; remainingTime : Z; id : Z }.

Abbreviation jobs_t := (gmap positive job_t) (only parsing).

Definition get_job (jobs : jobs_t) (p : ptr) : outcome job_t :=
  match p with
  | None => Fault NullDeref
  | Some l => match jobs !! l with Some j => Done j | None => Fault Dangling end
  end.

Lemma get_job_ok (jobs : jobs_t) l j : jobs !! l = Some j -> get_job jobs (Some l) = Done j.
Proof. simpl. by intros ->. Qed.

Definition jobGetArrivalTime (jobs : jobs_t) (p : ptr) : outcome Z :=
  j ← get_job jobs p; Done (arrivalTime j).
Definition jobGetJobTime (jobs : jobs_t) (p : ptr) : outcome Z :=
  j ← get_job jobs p; Done (jobTime j).
Definition jobGetRemainingTime (jobs : jobs_t) (p : ptr) : outcome Z :=
  j ← get_job jobs p; Done (remainingTime j).
Definition jobSetRemainingTime (jobs : jobs_t) (p : ptr) (r : Z) : outcome jobs_t :=
  j ← get_job jobs p; l ← deref p;
  Done (<[l := Job (arrivalTime j) (jobTime j) r (id j)]> jobs).
Definition jobGetCompletedTime (jobs : jobs_t) (p : ptr) : outcome Z :=
  j ← get_job jobs p; Done (sub64 (jobTime j) (remainingTime j)).
Definition jobGetId (jobs : jobs_t) (p : ptr) : outcome Z :=
  j ← get_job jobs p; Done (id j).

(** [free]: nothing for [NULL]. *)
Definition jobDestroy (jobs : jobs_t) (p : ptr) : outcome jobs_t :=
  match p with
  | None => Done jobs
  | Some l => match jobs !! l with Some _ => Done (delete l jobs) | None => Fault Dangling end
  end.

(** ** Events *)

Inductive event_type_t := EVENT_COMPLETION | EVENT_ARRIVAL.

(** The two functions the program schedules, with the data each is called on. *)
Inductive event_callback := ArrivalCallback | CompleteJobCallback.

Record event_t := Event {
  timestamp : Z; type : event_type_t; event_id : Z; callback : event_callback
}.

#[export] Instance event_type_eq_dec : EqDecision event_type_t.
Proof. solve_decision. Defined.
#[export] Instance event_callback_eq_dec : EqDecision event_callback.
Proof. solve_decision. Defined.
#[export] Instance event_eq_dec : EqDecision event_t.
Proof. solve_decision. Defined.

(** The value of the enumeration constant. *)
Definition type_value (t : event_type_t) : Z :=
  match t with EVENT_COMPLETION => 0 | EVENT_ARRIVAL => 1 end.

Definition simulatorEventCompare (event1 event2 : event_t) : Z :=
  if timestamp event1 <? timestamp event2 then -1
  else if timestamp event1 =? timestamp event2 then
    if type_value (type event1) <? type_value (type event2) then -1
    else if type_value (type event1) =? type_value (type event2) then
      if event_id event1 <? event_id event2 then -1
      else if event_id event1 =? event_id event2 then 0 else 1
    else 1
  else 1.

Record simulator_t := Sim { queue : option (list_t event_t); simTime : Z; sim_id : Z }.

Definition set_queue (sim : simulator_t) (q : option (list_t event_t)) : simulator_t :=
  Sim q (simTime sim) (sim_id sim).

Definition simulatorSimTime (sim : simulator_t) : Z := simTime sim.

Section code.
Context `{Malloc}.

Definition jobCreate (jobs : jobs_t) (arrivalTime jobTime id : Z) : ptr * jobs_t :=
  match malloc (dom jobs) with
  | None => (None, jobs)
  | Some l => (Some l, <[l := Job arrivalTime jobTime jobTime id]> jobs)
  end.

Definition simulatorCreate (live : gset loc) : option simulator_t :=
  match malloc live with
  | None => None
  | Some l =>
      match list_create ({[l]} ∪ live) (Some simulatorEventCompare) with
      | None => None
      | Some q => Some (Sim (Some q) 0 0)
      end
  end.

(** One event object is live for each node of the queue. *)
Definition event_live (sim : simulator_t) : gset loc :=
  match queue sim with Some q => dom (nodes q) | None => ∅ end.

Definition simulatorSchedule (sim : simulator_t) (timestamp : Z) (type : event_type_t)
    (callback : event_callback) : outcome (ptr * simulator_t) :=
  _ ← c_assert (simulatorSimTime sim <=? timestamp);
  match malloc (event_live sim) with
  | None => Done (None, sim)
  | Some _ =>
      let event := Event timestamp type (sim_id sim) callback in
      '(node, q) ← list_insert (queue sim) event;
      Done (node, Sim q (simTime sim) (add64 (sim_id sim) 1))
  end.

Definition simulatorRemoveEvent (sim : simulator_t) (eventRef : ptr) : outcome simulator_t :=
  l ← deref (queue sim);
  _ ← list_data l eventRef;
  q ← list_remove (queue sim) eventRef;
  Done (set_queue sim q).

(** The nodes left allocated when the queue object is gone. *)
Fixpoint simulatorDestroy (fuel : nat) (sim : simulator_t) : outcome (gmap loc (node event_t)) :=
  if 0 <? list_count (queue sim) then
    match fuel with
    | O => Fault Diverges
    | S fuel =>
        sim ← simulatorRemoveEvent sim (list_head (queue sim));
        simulatorDestroy fuel sim
    end
  else list_destroy (queue sim).

(** [simulatorRun] on a program state that holds the simulator. *)
Section run.
Context {T : Type} (get_sim : T -> simulator_t) (put_sim : T -> simulator_t -> T).
Context (call : event_callback -> T -> outcome T).

(** One turn of the loop: the first event. *)
Definition simulator_event (s : T) : outcome T :=
  let node := list_head (queue (get_sim s)) in
  l ← deref (queue (get_sim s));
  event ← list_data l node;
  event ← deref event;
  let s := put_sim s (Sim (queue (get_sim s)) (timestamp event) (sim_id (get_sim s))) in
  s ← call (callback event) s;
  q ← list_remove (queue (get_sim s)) node;
  Done (put_sim s (set_queue (get_sim s) q)).

Fixpoint simulatorRun (fuel : nat) (s : T) : outcome T :=
  if 0 <? list_count (queue (get_sim s)) then
    match fuel with
    | O => Fault Diverges
    | S fuel => s ← simulator_event s; simulatorRun fuel s
    end
  else Done s.

(** The state [k] events on, or the last one if there are fewer. *)
Fixpoint after_events (k : nat) (s : T) : outcome T :=
  match k with
  | O => Done s
  | S k => if 0 <? list_count (queue (get_sim s)) then s ← simulator_event s; after_events k s else Done s
  end.

Lemma simulatorRun_after_events fuel s s' : simulatorRun fuel s = Done s' -> after_events fuel s = Done s'.
Proof.
  revert s. induction fuel as [|fuel IH]; intros s; simpl; destruct (_ <? _); try done.
  intros (s1 & -> & Hs)%bind_Done. by apply IH.
Qed.
End run.
End code.

(** ** The event queue is sorted *)

Definition ev_le (e1 e2 : event_t) : Prop := simulatorEventCompare e1 e2 <= 0.

Ltac compare_cases := unfold ev_le, simulatorEventCompare in *; repeat case_match; lia.

#[export] Instance ev_le_trans : Transitive ev_le.
Proof. intros e1 e2 e3. compare_cases. Qed.

Lemma compare_less e1 e2 : (simulatorEventCompare e1 e2 <? 0) = true -> ev_le e1 e2.
Proof. compare_cases. Qed.

Lemma compare_not_less e1 e2 : (simulatorEventCompare e1 e2 <? 0) = false -> ev_le e2 e1.
Proof. compare_cases. Qed.

Definition sorted_events (ns : list (loc * event_t)) : Prop := StronglySorted ev_le ns.*2.

Lemma insert_pos_perm {A D} cmp (proj : A -> D) x (l : list A) :
  insert_pos cmp proj x l ≡ₚ x :: l.
Proof.
  induction l as [|y l IH]; simpl; [done|]. case_match; [|done]. rewrite IH. constructor.
Qed.

Lemma insert_pos_sorted k e ns :
  sorted_events ns -> sorted_events (insert_pos simulatorEventCompare snd (k, e) ns).
Proof.
  unfold sorted_events. induction ns as [|[k' e'] ns IH]; simpl; [by repeat constructor|].
  intros [Hs Hall]%StronglySorted_inv.
  case_match eqn:Hc; simpl.
  - apply compare_less in Hc. constructor; [by apply IH|]. rewrite Forall_forall.
    intros x Hx. rewrite (fmap_Permutation snd _ _ (insert_pos_perm _ _ _ _)) in Hx. simpl in Hx.
    apply elem_of_cons in Hx as [->|Hx]; [done|]. by eapply Forall_forall in Hall.
  - apply compare_not_less in Hc. constructor; [by constructor|]. constructor; [done|].
    eapply Forall_impl; [exact Hall|]. intros x Hx. by transitivity e'.
Qed.

Lemma sorted_events_remove xs x ys : sorted_events (xs ++ x :: ys) -> sorted_events (xs ++ ys).
Proof.
  unfold sorted_events. induction xs as [|y xs IH]; simpl; intros [Hs Hall]%StronglySorted_inv; [done|].
  constructor; [by apply IH|]. rewrite fmap_app in *. apply Forall_app in Hall as [? Hall].
  inversion Hall; subst. by apply Forall_app.
Qed.

(** The queue holds the events [evs], in some order that is sorted. *)
Definition queue_ok (sim : simulator_t) (evs : list (loc * event_t)) : Prop :=
  exists l ns, queue sim = Some l /\ list_ok l ns /\ compare l = Some simulatorEventCompare /\
    ns ≡ₚ evs /\ sorted_events ns.

Section queue.
Context `{Malloc}.
Implicit Types (sim : simulator_t) (evs : list (loc * event_t)).

Lemma queue_ok_perm sim evs evs' : evs ≡ₚ evs' -> queue_ok sim evs -> queue_ok sim evs'.
Proof. intros Hp (l & ns & ? & ? & ? & ? & ?). exists l, ns. split_done. by etrans. Qed.

Lemma queue_ok_queue sim sim' evs : queue sim' = queue sim -> queue_ok sim evs -> queue_ok sim' evs.
Proof. unfold queue_ok. by intros ->. Qed.

Lemma queue_ok_count sim evs : queue_ok sim evs -> list_count (queue sim) = Z.of_nat (length evs).
Proof.
  intros (l & ns & -> & Hok & _ & Hp & _). rewrite (sim_count_ok _ _ Hok).
  by rewrite (Permutation_length Hp).
Qed.

Lemma queue_ok_nodup sim evs : queue_ok sim evs -> NoDup evs.*1.
Proof. intros (l & ns & _ & Hok & _ & Hp & _). rewrite <- Hp. eapply rep_nodup, Hok. Qed.

Lemma simulatorCreate_ok live sim :
  simulatorCreate live = Some sim -> queue_ok sim [] /\ simTime sim = 0.
Proof.
  unfold simulatorCreate. intros Hc. repeat case_match; simplify_eq. split; [|done].
  match goal with Hl : list_create _ _ = Some _ |- _ => destruct (sim_create_ok _ _ _ Hl) as [Hok Hcmp] end. eexists _, []. split_done. constructor.
Qed.

(** [simulatorSchedule]: the assertion, then one more event. *)
Lemma simulatorSchedule_ok sim evs ts ty cb :
  queue_ok sim evs -> (forall X, (size X <= length evs)%nat -> is_Some (malloc X)) ->
  simTime sim <= ts ->
  exists k sim', simulatorSchedule sim ts ty cb = Done (Some k, sim') /\
    k ∉ evs.*1 /\ simTime sim' = simTime sim /\
    queue_ok sim' ((k, Event ts ty (sim_id sim) cb) :: evs).
Proof.
  intros (l & ns & Hq & Hok & Hcmp & Hp & Hs) Hm Hts. unfold simulatorSchedule, event_live.
  rewrite (proj2 (Z.leb_le _ _)) by done. simpl. rewrite Hq.
  assert (Hsz : (size (dom (nodes l)) <= length evs)%nat).
  { rewrite size_dom, (rep_size _ _ (ok_rep _ _ Hok)), (Permutation_length Hp). lia. }
  destruct (Hm _ Hsz) as [k0 Hk0]. rewrite Hk0.
  destruct (sim_insert_cases l ns (Event ts ty (sim_id sim) cb) Hok)
    as [[Hn _]|(k & l' & Hk & Hkn & Hins & Hok' & Hcmp')]; [congruence|].
  rewrite Hins. simpl. exists k. eexists. split_done.
  - by rewrite <- Hp.
  - exists l', (insert_pos simulatorEventCompare snd (k, Event ts ty (sim_id sim) cb) ns).
    rewrite Hcmp in Hok'. split_done.
    + by rewrite Hcmp'.
    + by rewrite insert_pos_perm, Hp.
    + by apply insert_pos_sorted.
Qed.

Lemma queue_remove_ok sim k e evs :
  queue_ok sim ((k, e) :: evs) ->
  exists q, list_remove (queue sim) (Some k) = Done q /\ queue_ok (set_queue sim q) evs.
Proof.
  intros (l & ns & -> & Hok & Hcmp & Hp & Hs).
  assert (Hin : (k, e) ∈ ns) by (rewrite Hp; apply list_elem_of_here).
  apply list_elem_of_split in Hin as (xs & ys & ->).
  destruct (sim_remove_ok l xs k e ys Hok) as (l' & Hrm & Hok' & Hcmp').
  eexists. split; [exact Hrm|]. exists l', (xs ++ ys). split_done.
  - by rewrite Hcmp'.
  - rewrite <- Permutation_middle in Hp. by apply Permutation_cons_inv in Hp.
  - by eapply sorted_events_remove.
Qed.

Lemma simulatorRemoveEvent_ok sim k e evs :
  queue_ok sim ((k, e) :: evs) ->
  exists sim', simulatorRemoveEvent sim (Some k) = Done sim' /\ queue_ok sim' evs /\
    simTime sim' = simTime sim.
Proof.
  intros Hq. unfold simulatorRemoveEvent.
  destruct (queue_remove_ok _ _ _ _ Hq) as (q & Hrm & Hok).
  destruct Hq as (l & ns & Hl & Hlok & Hcmp & Hp & Hs). rewrite Hl in *. cbn [deref].
  assert (Hin : (k, e) ∈ ns) by (rewrite Hp; apply list_elem_of_here).
  apply list_elem_of_split in Hin as (xs & ys & ->).
  cbn [mbind outcome_bind]. rewrite (sim_data_ok _ _ _ _ _ Hlok). cbn [mbind outcome_bind].
  rewrite ?Hl, Hrm. simpl. eauto.
Qed.

(** The head of the queue is its earliest event. *)
Lemma queue_head_ok sim evs :
  queue_ok sim evs -> evs <> [] ->
  exists k e evs' l, evs ≡ₚ (k, e) :: evs' /\ queue sim = Some l /\
    list_head (queue sim) = Some k /\ list_data l (Some k) = Done (Some e) /\
    Forall (fun x => ev_le e x.2) evs'.
Proof.
  intros (l & ns & Hq & Hok & Hcmp & Hp & Hs) Hne.
  destruct ns as [|[k e] ns]; [by apply Permutation_nil_l in Hp; subst|].
  exists k, e, ns, l. split_done.
  - rewrite ?Hq. by rewrite (sim_head_ok _ _ Hok).
  - by apply (sim_data_ok l [] k e ns).
  - apply StronglySorted_inv in Hs as [_ Hall]. by apply (Forall_fmap snd (ev_le e)) in Hall.
Qed.
End queue.
