(* ===== verification/Scheduler.v ===== *)
(** * Schedulers: the interface of simulatorlab

    [simulatorlab-FreezeKickerz/scheduler.h] and [scheduler.c].  A scheduler is
    a table of functions over its own information, here the class
    [SchedulerOps]; it acts on the program through [scheduler_t], the store of
    jobs, the simulator and the reference of its completion event.  A [policy]
    is what a scheduler promises: the same decisions on plain job values.
    [SchedulerLaws] states that the functions of the table implement a policy,
    whatever else the event queue holds. *)

From Stdlib Require Import ZArith Lia.
From stdpp Require Import gmap list.
From S2P Require Import Prelude Dll SimList Simulator.

(** ** The code *)

(** The part of the program state a scheduler works on. *)
Record scheduler_t := Scheduler {
  sim : simulator_t;
  jobs : gmap loc job_t;
  completionEvent : ptr
}.

Definition set_jobs (s : scheduler_t) (js : gmap loc job_t) : scheduler_t :=
  Scheduler (sim s) js (completionEvent s).

(** The function table filled in by [INIT_SCHEDULER]. *)
Class SchedulerOps (I : Type) := {
  create : gset loc -> option I;
  destroy : I -> outcome unit;
  scheduleJob : I -> scheduler_t -> loc -> Z -> outcome (I * scheduler_t);
  completeJob : I -> scheduler_t -> Z -> outcome (I * scheduler_t * ptr)
}.

Section code.
Context `{Malloc}.

Definition schedulerScheduleNextCompletion (s : scheduler_t) (timestamp : Z)
    : outcome (bool * scheduler_t) :=
  match completionEvent s with
  | Some _ => Done (false, s)
  | None =>
      '(ev, sim') ← simulatorSchedule (sim s) timestamp EVENT_COMPLETION CompleteJobCallback;
      let s := Scheduler sim' (jobs s) ev in
      match ev with None => Done (false, s) | Some _ => Done (true, s) end
  end.

Definition schedulerCancelNextCompletion (s : scheduler_t) : outcome (bool * scheduler_t) :=
  match completionEvent s with
  | None => Done (false, s)
  | Some _ =>
      sim' ← simulatorRemoveEvent (sim s) (completionEvent s);
      Done (true, Scheduler sim' (jobs s) None)
  end.

Definition schedulerScheduleJob {I : Type} `{SchedulerOps I} (i : I) (s : scheduler_t) (job : loc)
    : outcome (I * scheduler_t) :=
  scheduleJob i s job (simulatorSimTime (sim s)).

(** [completionCallback] is the function the scheduler was created with. *)
Definition schedulerCompleteJob {I C : Type} `{SchedulerOps I}
    (completionCallback : C -> scheduler_t -> ptr -> outcome (C * scheduler_t))
    (c : C) (i : I) (s : scheduler_t) : outcome (C * I * scheduler_t) :=
  let s := Scheduler (sim s) (jobs s) None in
  '(i, s, job) ← completeJob i s (simulatorSimTime (sim s));
  match job with
  | Some _ => '(c, s) ← completionCallback c s job; Done (c, i, s)
  | None => Done (c, i, s)
  end.

Definition schedulerDestroy {I : Type} `{SchedulerOps I} (i : I) (s : scheduler_t) : outcome scheduler_t :=
  '(_, s) ← match completionEvent s with
            | Some _ => schedulerCancelNextCompletion s
            | None => Done (false, s)
            end;
  _ ← destroy i;
  Done s.
End code.

(** ** What a scheduler promises

    [p_arrive now pending j st] and [p_complete now st] say how the state of
    the scheduler and the time of its pending completion event change. *)

Record policy := Policy {
  p_state : Type;
  p_init : p_state;
  p_arrive : Z -> option Z -> job_t -> p_state -> outcome (p_state * option Z);
  p_complete : Z -> p_state -> outcome (p_state * option Z * option job_t)
}.

(** A completion [d] after [now]: nothing changes when one is pending, and the
    simulator's assertion fails when the sum does not fit 64 bits. *)
Definition next_completion (now d : Z) (pending : option Z) : outcome (option Z) :=
  match pending with
  | Some t => Done (Some t)
  | None => _ ← c_assert (now + d <? w64); Done (Some (now + d))
  end.
#[global] Arguments next_completion : simpl never.

Definition job_ok (j : job_t) : Prop :=
  u64 (arrivalTime j) /\ u64 (jobTime j) /\ u64 (remainingTime j) /\ u64 (id j).

(** The events of the queue: the pending completion, and [rest]. *)
Definition pending_ok (s : scheduler_t) (pending : option Z) (rest : list (loc * event_t)) : Prop :=
  match completionEvent s, pending with
  | Some k, Some t => u64 t /\ exists i,
      queue_ok (sim s) ((k, Event t EVENT_COMPLETION i CompleteJobCallback) :: rest)
  | None, None => queue_ok (sim s) rest
  | _, _ => False
  end.

Record sched_ok (s : scheduler_t) (pending : option Z) (rest : list (loc * event_t)) : Prop := {
  so_pending : pending_ok s pending rest;
  so_time : u64 (simTime (sim s));
  so_jobs : map_Forall (fun _ j => job_ok j) (jobs s)
}.

(** What a call leaves alone: the time, and every job but those in [ls]. *)
Definition same_except (ls : list loc) (s s' : scheduler_t) : Prop :=
  simTime (sim s') = simTime (sim s) /\ dom (jobs s') = dom (jobs s) /\
  forall l, l ∉ ls -> jobs s' !! l = jobs s !! l.

(** [malloc] succeeds while at most [n] objects are live. *)
Definition malloc_room_for `{Malloc} (n : nat) : Prop :=
  forall X : gset loc, (size X <= n)%nat -> is_Some (malloc X).

(** [info_ok i ls js st]: the scheduler's information [i] holds the jobs at
    [ls], and stands for [st] when the store of jobs is [js]. *)
Class SchedulerLaws `{Malloc} (I : Type) `{SchedulerOps I} (P : policy) := {
  info_ok : I -> list loc -> gmap loc job_t -> p_state P -> Prop;
  info_frame i ls js js' st :
    (forall l, l ∈ ls -> js' !! l = js !! l) -> info_ok i ls js st -> info_ok i ls js' st;
  create_ok X n :
    malloc_room_for n -> (size X + 1 <= n)%nat ->
    exists i, create X = Some i /\ forall js, info_ok i [] js (p_init P);
  destroy_ok i ls js st : info_ok i ls js st -> destroy i = Done tt;
  scheduleJob_ok i ls s st pending rest l j n :
    info_ok i ls (jobs s) st -> sched_ok s pending rest ->
    malloc_room_for n -> (length ls <= n)%nat -> (length rest <= n)%nat ->
    NoDup (l :: ls) -> jobs s !! l = Some j ->
    refines (fun '(i', s') '(st', pending') =>
        exists ls', ls' ≡ₚ l :: ls /\ info_ok i' ls' (jobs s') st' /\
          sched_ok s' pending' rest /\ same_except (l :: ls) s s')
      (scheduleJob i s l (simTime (sim s)))
      (p_arrive P (simTime (sim s)) pending j st);
  completeJob_ok i ls s st rest n :
    info_ok i ls (jobs s) st -> sched_ok s None rest ->
    malloc_room_for n -> (length ls <= n)%nat -> (length rest <= n)%nat -> NoDup ls ->
    refines (fun '(i', s', job) '(st', pending', finished) =>
        exists ls', info_ok i' ls' (jobs s') st' /\ sched_ok s' pending' rest /\ same_except ls s s' /\
          match job, finished with
          | Some l, Some j => ls ≡ₚ l :: ls' /\ jobs s' !! l = Some j
          | None, None => ls ≡ₚ ls'
          | _, _ => False
          end)
      (completeJob i s (simTime (sim s)))
      (p_complete P (simTime (sim s)) st)
}.

(** ** The completion event *)

Section proofs.
Context `{Malloc}.
Implicit Types (s : scheduler_t) (rest : list (loc * event_t)).

Lemma same_except_refl ls s : same_except ls s s.
Proof. unfold same_except. by split_done. Qed.

Lemma same_except_trans ls s s' s'' :
  same_except ls s s' -> same_except ls s' s'' -> same_except ls s s''.
Proof.
  intros (E1 & E2 & Hj) (E3 & E4 & Hj2). unfold same_except. split_done; [congruence..|].
  intros l Hl. rewrite Hj2, Hj; done.
Qed.

Lemma sched_ok_set_jobs s pending rest js :
  sched_ok s pending rest -> map_Forall (fun _ j => job_ok j) js -> sched_ok (set_jobs s js) pending rest.
Proof. by intros [? ? ?] ?. Qed.

Lemma job_ok_lookup s pending rest l j : sched_ok s pending rest -> jobs s !! l = Some j -> job_ok j.
Proof. intros [_ _ Hj] Hl. exact (Hj _ _ Hl). Qed.

(** The program's next completion, with 64-bit wrap-around, is the policy's. *)
Lemma next_completion_ok s pending rest d n :
  sched_ok s pending rest -> u64 d -> malloc_room_for n -> (length rest <= n)%nat ->
  refines (fun '(_, s') pending' => sched_ok s' pending' rest /\ jobs s' = jobs s /\ same_except [] s s')
    (schedulerScheduleNextCompletion s (add64 (simTime (sim s)) d))
    (next_completion (simTime (sim s)) d pending).
Proof.
  intros Hs Hd Hm Hlen. destruct (Hs) as [Hp Ht Hj]. unfold schedulerScheduleNextCompletion, pending_ok in *.
  destruct (completionEvent s) as [k|] eqn:Hc, pending as [t|]; try done; unfold next_completion; cbn [refines].
  destruct (Z.ltb_spec (simTime (sim s) + d) w64) as [Hlt|Hge]; cbn [c_assert mbind outcome_bind].
  - rewrite add64_small by u64_lia.
    destruct (simulatorSchedule_ok (sim s) rest (simTime (sim s) + d) EVENT_COMPLETION CompleteJobCallback)
      as (k & sim' & -> & Hk & Htime & Hq); [done| |u64_lia|].
    { intros X HX. apply Hm. lia. }
    cbn [mbind outcome_bind refines]. split_done; simpl.
    split; simpl; [|by rewrite Htime|done]. split; [u64_lia|]. by eexists.
  - unfold simulatorSchedule, simulatorSimTime.
    assert (E : add64 (simTime (sim s)) d = simTime (sim s) + d - w64).
    { unfold add64, wrap64. symmetry. apply Z.mod_unique with 1; u64_lia. }
    rewrite (proj2 (Z.leb_gt _ _)) by (rewrite E; u64_lia). done.
Qed.

Lemma cancel_completion_ok s pending rest :
  sched_ok s pending rest ->
  exists b s', schedulerCancelNextCompletion s = Done (b, s') /\ sched_ok s' None rest /\
    jobs s' = jobs s /\ same_except [] s s'.
Proof.
  intros [Hp Ht Hj]. unfold schedulerCancelNextCompletion, pending_ok in *.
  destruct (completionEvent s) as [k|] eqn:Hc, pending as [t|]; try done.
  - destruct Hp as (_ & i & Hq). destruct (simulatorRemoveEvent_ok _ _ _ _ Hq) as (sim' & Hr & Hq' & Ht').
    rewrite Hr. simpl. eexists _, _. split_done. split; simpl; [done|by rewrite Ht'|done].
  - eexists _, _. split_done. split; [|done..]. unfold pending_ok. by rewrite Hc.
Qed.
End proofs.

#[export] Hint Resolve same_except_refl : core.
