(* ===== verification/Schedulers.v ===== *)
(** * The non-preemptive schedulers: FCFS, LCFS and SJF

    [simulatorlab-FreezeKickerz/schedulerFCFS.c], [schedulerLCFS.c] and
    [schedulerSJF.c], each with the policy it implements and its instance of
    [SchedulerLaws]. *)

From Stdlib Require Import ZArith Lia.
From stdpp Require Import gmap list.
From S2P Require Import Prelude Dll SimList Simulator Scheduler.

(** ** The code *)

Record scheduler_FCFS_t := FCFS { fcfs_jobQueue : option (list_t loc) }.
Record scheduler_LCFS_t := LCFS { lcfs_jobQueue : option (list_t loc); lcfs_currentJob : ptr }.
Record scheduler_SJF_t := SJF { sjf_jobQueue : option (list_t loc); sjf_currentJob : ptr }.

(** [list_find] for a possibly null job: no node holds [NULL]. *)
Definition find_job `{Malloc} (q : option (list_t loc)) (job : ptr) : outcome ptr :=
  match job with None => Done None | Some l => list_find q l end.

Section code.
Context `{Malloc}.

Definition schedulerFCFSCreate (live : gset loc) : option scheduler_FCFS_t :=
  match malloc live with
  | None => None
  | Some l => match list_create ({[l]} ∪ live) None with
              | None => None
              | Some q => Some (FCFS (Some q))
              end
  end.

Definition schedulerFCFSDestroy (info : scheduler_FCFS_t) : outcome unit :=
  _ ← list_destroy (fcfs_jobQueue info); Done tt.

Definition schedulerFCFSScheduleJob (info : scheduler_FCFS_t) (s : scheduler_t) (job : loc)
    (currentTime : Z) : outcome (scheduler_FCFS_t * scheduler_t) :=
  '(_, q) ← list_insert (fcfs_jobQueue info) job;
  if list_count q =? 1 then
    t ← jobGetJobTime (jobs s) (Some job);
    let finishTime := add64 currentTime t in
    '(_, s) ← schedulerScheduleNextCompletion s finishTime;
    Done (FCFS q, s)
  else Done (FCFS q, s).

Definition schedulerFCFSCompleteJob (info : scheduler_FCFS_t) (s : scheduler_t)
    (currentTime : Z) : outcome (scheduler_FCFS_t * scheduler_t * ptr) :=
  let q := fcfs_jobQueue info in
  if list_count q =? 0 then Done (info, s, None)
  else
    let node := list_tail q in
    l ← deref q;
    finishedJob ← list_data l node;
    q ← list_remove q node;
    if 0 <? list_count q then
      l ← deref q;
      nextJob ← list_data l (list_tail q);
      r ← jobGetRemainingTime (jobs s) nextJob;
      let nextFinish := add64 currentTime r in
      '(_, s) ← schedulerScheduleNextCompletion s nextFinish;
      Done (FCFS q, s, finishedJob)
    else Done (FCFS q, s, finishedJob).

Definition schedulerLCFSCreate (live : gset loc) : option scheduler_LCFS_t :=
  match malloc live with
  | None => None
  | Some l => match list_create ({[l]} ∪ live) None with
              | None => None
              | Some q => Some (LCFS (Some q) None)
              end
  end.

Definition schedulerLCFSDestroy (info : scheduler_LCFS_t) : outcome unit :=
  _ ← list_destroy (lcfs_jobQueue info); Done tt.

Definition schedulerLCFSScheduleJob (info : scheduler_LCFS_t) (s : scheduler_t) (job : loc)
    (currentTime : Z) : outcome (scheduler_LCFS_t * scheduler_t) :=
  '(_, q) ← list_insert (lcfs_jobQueue info) job;
  if list_count q =? 1 then
    t ← jobGetJobTime (jobs s) (Some job);
    let finishTime := add64 currentTime t in
    '(_, s) ← schedulerScheduleNextCompletion s finishTime;
    Done (LCFS q (Some job), s)
  else Done (LCFS q (lcfs_currentJob info), s).

Definition schedulerLCFSCompleteJob (info : scheduler_LCFS_t) (s : scheduler_t)
    (currentTime : Z) : outcome (scheduler_LCFS_t * scheduler_t * ptr) :=
  match lcfs_currentJob info with
  | None => Done (info, s, None)
  | Some finished =>
      p ← list_find (lcfs_jobQueue info) finished;
      q ← list_remove (lcfs_jobQueue info) p;
      if 0 <? list_count q then
        let node := list_head q in
        l ← deref q;
        next ← list_data l node;
        t ← jobGetJobTime (jobs s) next;
        let finishTime := add64 currentTime t in
        '(_, s) ← schedulerScheduleNextCompletion s finishTime;
        Done (LCFS q next, s, Some finished)
      else Done (LCFS q None, s, Some finished)
  end.

Definition schedulerSJFCreate (live : gset loc) : option scheduler_SJF_t :=
  match malloc live with
  | None => None
  | Some l => match list_create ({[l]} ∪ live) None with
              | None => None
              | Some q => Some (SJF (Some q) None)
              end
  end.

Definition schedulerSJFDestroy (info : scheduler_SJF_t) : outcome unit :=
  _ ← list_destroy (sjf_jobQueue info); Done tt.

Definition schedulerSJFScheduleJob (info : scheduler_SJF_t) (s : scheduler_t) (job : loc)
    (currentTime : Z) : outcome (scheduler_SJF_t * scheduler_t) :=
  '(_, q) ← list_insert (sjf_jobQueue info) job;
  match sjf_currentJob info with
  | None =>
      t ← jobGetJobTime (jobs s) (Some job);
      '(_, s) ← schedulerScheduleNextCompletion s (add64 currentTime t);
      Done (SJF q (Some job), s)
  | Some _ => Done (SJF q (sjf_currentJob info), s)
  end.

(** The loop over the queue, on the jobs it visits. *)
Fixpoint sjf_scan (js : gmap loc job_t) (candidates : list loc) (bestTime bestId : Z)
    (nextJob : ptr) : outcome ptr :=
  match candidates with
  | [] => Done nextJob
  | candidate :: candidates =>
      t ← jobGetJobTime js (Some candidate);
      id ← jobGetId js (Some candidate);
      if (t <? bestTime) || ((t =? bestTime) && (id <? bestId))
      then sjf_scan js candidates t id (Some candidate)
      else sjf_scan js candidates bestTime bestId nextJob
  end.

Definition schedulerSJFCompleteJob (info : scheduler_SJF_t) (s : scheduler_t)
    (currentTime : Z) : outcome (scheduler_SJF_t * scheduler_t * ptr) :=
  let finished := sjf_currentJob info in
  node ← find_job (sjf_jobQueue info) finished;
  q ← list_remove (sjf_jobQueue info) node;
  candidates ← list_visit q;
  nextJob ← sjf_scan (jobs s) candidates u64_max u64_max None;
  match nextJob with
  | Some _ =>
      t ← jobGetJobTime (jobs s) nextJob;
      '(_, s) ← schedulerScheduleNextCompletion s (add64 currentTime t);
      Done (SJF q nextJob, s, finished)
  | None => Done (SJF q None, s, finished)
  end.
End code.

#[export] Instance scheduler_FCFS `{Malloc} : SchedulerOps scheduler_FCFS_t := {
  create := schedulerFCFSCreate; destroy := schedulerFCFSDestroy;
  scheduleJob := schedulerFCFSScheduleJob; completeJob := schedulerFCFSCompleteJob
}.
#[export] Instance scheduler_LCFS `{Malloc} : SchedulerOps scheduler_LCFS_t := {
  create := schedulerLCFSCreate; destroy := schedulerLCFSDestroy;
  scheduleJob := schedulerLCFSScheduleJob; completeJob := schedulerLCFSCompleteJob
}.
#[export] Instance scheduler_SJF `{Malloc} : SchedulerOps scheduler_SJF_t := {
  create := schedulerSJFCreate; destroy := schedulerSJFDestroy;
  scheduleJob := schedulerSJFScheduleJob; completeJob := schedulerSJFCompleteJob
}.

(** ** The policies *)

(** FCFS: the jobs in order of arrival, the first one running. *)
Definition fcfs_policy : policy := {|
  p_state := list job_t;
  p_init := [];
  p_arrive now pending j st :=
    match st with
    | [] => pending ← next_completion now (jobTime j) pending; Done ([j], pending)
    | _ => Done (st ++ [j], pending)
    end;
  p_complete now st :=
    match st with
    | [] => Done ([], None, None)
    | j :: st =>
        pending ← match st with
                  | [] => Done None
                  | j' :: _ => next_completion now (remainingTime j') None
                  end;
        Done (st, pending, Some j)
    end
|}.

(** LCFS: the waiting jobs, newest first, and the running one. *)
Definition lcfs_policy : policy := {|
  p_state := list job_t * option job_t;
  p_init := ([], None);
  p_arrive now pending j '(waiting, current) :=
    match current with
    | None => pending ← next_completion now (jobTime j) pending; Done ((waiting, Some j), pending)
    | Some _ => Done ((j :: waiting, current), pending)
    end;
  p_complete now '(waiting, current) :=
    match current with
    | None => Done ((waiting, current), None, None)
    | Some j =>
        match waiting with
        | [] => Done (([], None), None, Some j)
        | j' :: waiting =>
            pending ← next_completion now (jobTime j') None;
            Done ((waiting, Some j'), pending, Some j)
        end
    end
|}.

(** SJF: the index of the job with the least time, then id, below a bound; the
    first in the list wins a tie. *)
Fixpoint sjf_best (waiting : list job_t) (bestTime bestId : Z) : option nat :=
  match waiting with
  | [] => None
  | j :: waiting =>
      if (jobTime j <? bestTime) || ((jobTime j =? bestTime) && (id j <? bestId))
      then match sjf_best waiting (jobTime j) (id j) with Some i => Some (S i) | None => Some O end
      else S <$> sjf_best waiting bestTime bestId
  end.

Definition sjf_policy : policy := {|
  p_state := list job_t * option job_t;
  p_init := ([], None);
  p_arrive now pending j '(waiting, current) :=
    match current with
    | None => pending ← next_completion now (jobTime j) pending; Done ((waiting, Some j), pending)
    | Some _ => Done ((j :: waiting, current), pending)
    end;
  p_complete now '(waiting, current) :=
    match sjf_best waiting u64_max u64_max with
    | None => Done ((waiting, None), None, current)
    | Some i =>
        j ← array_get waiting i;
        pending ← next_completion now (jobTime j) None;
        Done ((delete i waiting, Some j), pending, current)
    end
|}.

(** ** The code implements the policies *)

(** The jobs at [ls] are the values [st]. *)
Definition jobs_at (js : gmap loc job_t) (ls : list loc) (st : list job_t) : Prop :=
  Forall2 (fun l j => js !! l = Some j) ls st.

Lemma jobs_at_frame js js' ls st :
  (forall l, l ∈ ls -> js' !! l = js !! l) -> jobs_at js ls st -> jobs_at js' ls st.
Proof.
  intros Hf Hj. induction Hj as [|l j ls st Hl Hj IH]; constructor.
  - rewrite Hf; [done|]. apply list_elem_of_here.
  - apply IH. intros l' Hl'. apply Hf. by apply list_elem_of_further.
Qed.

Definition fcfs_info (i : scheduler_FCFS_t) (ls : list loc) (js : gmap loc job_t)
    (st : list job_t) : Prop :=
  holds None (fcfs_jobQueue i) (reverse ls) /\ jobs_at js ls st.

(** A queue that holds the running job somewhere among the waiting ones. *)
Definition queue_info (q : option (list_t loc)) (cur : ptr) (ls : list loc)
    (js : gmap loc job_t) (st : list job_t * option job_t) : Prop :=
  exists xs ys, holds None q ls /\ ls = xs ++ option_list cur ++ ys /\
    jobs_at js (xs ++ ys) st.1 /\ jobs_at js (option_list cur) (option_list st.2).

Definition lcfs_info i ls js st : Prop :=
  queue_info (lcfs_jobQueue i) (lcfs_currentJob i) ls js st /\ (st.2 = None -> st.1 = []).
Definition sjf_info i ls js st : Prop := queue_info (sjf_jobQueue i) (sjf_currentJob i) ls js st.

Section laws.
Context `{Malloc}.
Implicit Types (s : scheduler_t) (js : gmap loc job_t) (ls : list loc).

Lemma queue_info_frame q cur ls js js' st :
  (forall l, l ∈ ls -> js' !! l = js !! l) -> queue_info q cur ls js st -> queue_info q cur ls js' st.
Proof.
  intros Hf (xs & ys & Hq & -> & Hw & Hc). exists xs, ys.
  split_done; (eapply jobs_at_frame; [|eassumption]);
    intros l Hl; apply Hf; rewrite !elem_of_app in *; tauto.
Qed.

Lemma create_holds (X : gset loc) n :
  malloc_room_for n -> (size X + 1 <= n)%nat ->
  exists l q, malloc X = Some l /\ list_create ({[l]} ∪ X) None = Some q /\
    holds (D := loc) None (Some q) [].
Proof.
  intros Hm HX. destruct (Hm X) as [l Hl]; [lia|]. exists l.
  destruct (Hm ({[l]} ∪ X)) as [k Hk].
  { rewrite size_union_alt. rewrite size_singleton.
    pose proof (subseteq_size (X ∖ {[l]}) X ltac:(set_solver)). lia. }
  pose proof (holds_create ({[l]} ∪ X) (None : option (loc -> loc -> Z)) ltac:(by eexists)) as Hh.
  destruct (list_create _ _) as [q|] eqn:Hq; [by exists q|]. by destruct Hh as (? & ? & ? & _).
Qed.

(** Starting a job: the common end of the scheduling functions. *)
Lemma start_job s pending rest l j n {A B} (R : A -> B -> Prop) k h :
  sched_ok s pending rest -> malloc_room_for n -> (length rest <= n)%nat ->
  jobs s !! l = Some j ->
  (forall b s' pending', sched_ok s' pending' rest -> jobs s' = jobs s -> same_except [] s s' ->
     refines R (k (b, s')) (h pending')) ->
  refines R (t ← jobGetJobTime (jobs s) (Some l);
             x ← schedulerScheduleNextCompletion s (add64 (simTime (sim s)) t); k x)
            (pending ← next_completion (simTime (sim s)) (jobTime j) pending; h pending).
Proof.
  intros Hs Hm Hlen Hl Hk. unfold jobGetJobTime. rewrite (get_job_ok _ _ _ Hl).
  cbn [mbind outcome_bind]. eapply refines_bind.
  - eapply next_completion_ok; try done. eapply job_ok_lookup in Hl; [|done]. apply Hl.
  - intros [b s'] pending' (? & ? & ?). by apply Hk.
Qed.

Lemma same_except_weaken ls s s' : same_except [] s s' -> same_except ls s s'.
Proof. intros (E1 & E2 & Hj). split; [done|split; [done|]]. intros l _. apply Hj. apply not_elem_of_nil. Qed.

#[export] Program Instance fcfs_laws : SchedulerLaws scheduler_FCFS_t fcfs_policy := {
  info_ok := fcfs_info
}.
Next Obligation.
  intros i ls js js' st Hf [Hq Hj]. split; [done|]. by eapply jobs_at_frame.
Qed.
Next Obligation.
  intros X n Hm HX. destruct (create_holds X n Hm HX) as (l & q & Hl & Hq & Hh). simpl.
  unfold schedulerFCFSCreate. rewrite Hl, Hq. eexists. split; [done|]. intros js. by split; [|constructor].
Qed.
Next Obligation.
  intros i ls js st [Hq _]. simpl. unfold schedulerFCFSDestroy. by rewrite (holds_destroy _ _ _ Hq).
Qed.
Next Obligation.
  intros i ls s st pending rest l j n [Hq Hst] Hs Hm Hls Hrest Hnd Hl. simpl.
  unfold schedulerFCFSScheduleJob.
  destruct (holds_insert _ _ _ l n Hq Hm) as (k & q & -> & Hq'); [by rewrite length_reverse|].
  cbn [mbind outcome_bind insert_spec] in *.
  assert (Hq2 : holds None q (reverse (ls ++ [l]))) by by rewrite reverse_snoc.
  rewrite (holds_count _ _ _ Hq2), length_reverse, length_app. simpl length.
  destruct Hst as [|l0 j0 ls st Hl0 Hst].
  - simpl. eapply start_job; try done. intros b s' pending' Hs' Hj Hsame.
    cbn [refines]. exists [l]. split_done; [|by apply same_except_weaken].
    split; [done|]. constructor; [by rewrite Hj|constructor].
  - rewrite (proj2 (Z.eqb_neq _ _)) by (simpl; lia). simpl. exists ((l0 :: ls) ++ [l]).
    split_done; [by rewrite Permutation_app_comm|]. split; [done|].
    change (jobs_at (jobs s) ((l0 :: ls) ++ [l]) ((j0 :: st) ++ [j])).
    apply Forall2_app; by repeat constructor.
Qed.
Next Obligation.
  intros i ls s st rest n [Hq Hst] Hs Hm Hls Hrest Hnd. simpl. unfold schedulerFCFSCompleteJob.
  rewrite (holds_count _ _ _ Hq), length_reverse.
  destruct Hst as [|l0 j0 ls st Hl0 Hst].
  { simpl. exists []. split_done. by split; [|constructor]. }
  rewrite (proj2 (Z.eqb_neq _ _)) by (simpl; lia).
  rewrite reverse_cons in Hq. destruct (holds_tail _ _ _ _ Hq) as (q0 & q & -> & Hd & Hr & Hq').
  cbn [deref mbind outcome_bind]. rewrite Hd. cbn [mbind outcome_bind]. rewrite Hr.
  cbn [mbind outcome_bind]. rewrite (holds_count _ _ _ Hq'), length_reverse.
  destruct Hst as [|l1 j1 ls st Hl1 Hst].
  { simpl. exists []. split_done. by split; [|constructor]. }
  rewrite (proj2 (Z.ltb_lt _ _)) by (simpl; lia).
  pose proof Hq' as Hq''. rewrite reverse_cons in Hq''.
  destruct (holds_tail _ _ _ _ Hq'') as (q1 & q2 & -> & Hd1 & _ & _).
  cbn [deref mbind outcome_bind]. rewrite Hd1. cbn [mbind outcome_bind].
  unfold jobGetRemainingTime. rewrite (get_job_ok _ _ _ Hl1). cbn [mbind outcome_bind].
  eapply refines_bind.
  - eapply next_completion_ok; try done. eapply job_ok_lookup in Hl1; [|done]. apply Hl1.
  - intros [b s'] pending' (Hs' & Hj & Hsame). cbn [refines]. exists (l1 :: ls).
    split_done; [|by apply same_except_weaken|by rewrite Hj].
    split; [done|]. rewrite Hj. by constructor.
Qed.

(** A queue with its running job: arrival, completion, and the next choice. *)
Lemma queue_arrival q cur ls js st l j n :
  queue_info q cur ls js st -> malloc_room_for n -> (length ls <= n)%nat -> js !! l = Some j ->
  exists k q', list_insert q l = Done (Some k, q') /\ holds None q' (l :: ls) /\
    match cur with
    | None => st.2 = None /\ queue_info q' (Some l) (l :: ls) js (st.1, Some j)
    | Some _ => is_Some st.2 /\ queue_info q' cur (l :: ls) js (j :: st.1, st.2)
    end.
Proof.
  intros (xs & ys & Hq & -> & Hw & Hc) Hm Hls Hl. destruct st as [w c].
  destruct (holds_insert _ _ _ l n Hq Hm Hls) as (k & q' & Hins & Hq').
  exists k, q'. split_done. destruct cur as [l0|]; simpl in *.
  - destruct c as [c|]; [|inversion Hc]. split; [done|]. exists (l :: xs), ys. split_done. by constructor.
  - destruct c as [c|]; [inversion Hc|]. split; [done|]. exists [], (xs ++ ys). split_done.
    by repeat constructor.
Qed.

Lemma queue_completion q l ls js st :
  queue_info q (Some l) ls js st -> NoDup ls ->
  exists j p q' zs, st.2 = Some j /\ js !! l = Some j /\
    list_find q l = Done p /\ list_remove q p = Done q' /\
    queue_info q' None zs js (st.1, None) /\ ls ≡ₚ l :: zs.
Proof.
  intros (xs & ys & Hq & -> & Hw & Hc) Hnd. destruct st as [w [j|]]; [|inversion Hc].
  simpl in *. inversion Hc; subst.
  assert (Hl : l ∉ xs) by (apply NoDup_app in Hnd as (_ & Hx & _); intros Hin; eapply Hx; [done|]; left).
  destruct (holds_find_remove _ _ _ _ _ Hq Hl) as (p & q' & Hf & Hr & Hq').
  exists j, p, q', (xs ++ ys). split_done; try by rewrite Permutation_middle.
  exists xs, ys. split_done.
Qed.

Lemma queue_choice q zs js w i j :
  queue_info q None zs js (w, None) -> w !! i = Some j ->
  exists l, zs !! i = Some l /\ js !! l = Some j /\ queue_info q (Some l) zs js (delete i w, Some j).
Proof.
  intros (xs & ys & Hq & -> & Hw & Hc) Hi. simpl in *.
  destruct (Forall2_lookup_r _ _ _ _ _ Hw Hi) as (l & Hl & Hj).
  exists l. split_done. exists (take i (xs ++ ys)), (drop (S i) (xs ++ ys)). split_done.
  - simpl. symmetry. by apply take_drop_middle.
  - unfold jobs_at. rewrite <- delete_take_drop. by apply Forall2_delete.
  - by repeat constructor.
Qed.

Lemma queue_holds q cur ls js st : queue_info q cur ls js st -> holds None q ls.
Proof. by intros (xs & ys & Hq & _ & _ & _). Qed.

Lemma queue_info_length q cur ls js w c :
  queue_info q cur ls js (w, c) -> length ls = (length w + length (option_list cur))%nat.
Proof.
  intros (xs & ys & _ & -> & Hw & _). apply Forall2_length in Hw. simpl in Hw.
  rewrite !length_app in *. lia.
Qed.

Lemma sjf_scan_ok js zs w bt bi nxt :
  jobs_at js zs w ->
  sjf_scan js zs bt bi nxt =
    Done (match sjf_best w bt bi with Some i => zs !! i | None => nxt end).
Proof.
  intros Hw. revert bt bi nxt. induction Hw as [|l j zs w Hl Hw IH]; intros bt bi nxt; simpl; [done|].
  unfold jobGetJobTime, jobGetId. rewrite (get_job_ok _ _ _ Hl). cbn [mbind outcome_bind].
  case_match; rewrite IH; destruct (sjf_best w _ _); done.
Qed.

Lemma sjf_best_lookup w bt bi i : sjf_best w bt bi = Some i -> is_Some (w !! i).
Proof.
  revert bt bi i. induction w as [|j w IH]; intros bt bi i; simpl; [done|].
  case_match; destruct (sjf_best w _ _) eqn:E; intros [= <-]; simpl; eauto.
Qed.

Lemma lcfs_create X n :
  malloc_room_for n -> (size X + 1 <= n)%nat ->
  exists q, schedulerLCFSCreate X = Some (LCFS (Some q) None) /\ schedulerSJFCreate X = Some (SJF (Some q) None) /\
    forall js, queue_info (Some q) None [] js ([], None).
Proof.
  intros Hm HX. destruct (create_holds X n Hm HX) as (l & q & Hl & Hq & Hh).
  unfold schedulerLCFSCreate, schedulerSJFCreate. rewrite Hl, Hq. exists q. split_done.
  intros js. exists [], []. split_done; constructor.
Qed.

#[export] Program Instance lcfs_laws : SchedulerLaws scheduler_LCFS_t lcfs_policy := {
  info_ok := lcfs_info
}.
Next Obligation.
  intros i ls js js' st Hf [Hq Hj]. split; [|done]. by eapply queue_info_frame.
Qed.
Next Obligation.
  intros X n Hm HX. destruct (lcfs_create X n Hm HX) as (q & Hc & _ & Hq). simpl. eexists.
  split; [exact Hc|]. intros js. split; [apply Hq|done].
Qed.
Next Obligation.
  intros i ls js st [Hq _]. simpl. unfold schedulerLCFSDestroy.
  by rewrite (holds_destroy _ _ _ (queue_holds _ _ _ _ _ Hq)).
Qed.
Next Obligation.
  intros [q cur] ls s [w c] pending rest l j n [Hq Hst] Hs Hm Hls Hrest Hnd Hl. simpl in *.
  unfold schedulerLCFSScheduleJob. simpl.
  destruct (queue_arrival _ _ _ _ _ l j n Hq Hm Hls Hl) as (k & q' & -> & Hh & Harr).
  cbn [mbind outcome_bind]. rewrite (holds_count _ _ _ Hh).
  pose proof (queue_info_length _ _ _ _ _ _ Hq) as Hlen. destruct cur as [l0|].
  - destruct Harr as [[j0 Hc] Hq']. simpl in Hc. subst c.
    rewrite (proj2 (Z.eqb_neq _ _)) by (simpl in *; lia).
    simpl. exists (l :: ls). by split_done.
  - destruct Harr as [Hc Hq']. simpl in Hc. subst c. rewrite Hst in Hlen by done.
    destruct ls; [|simpl in Hlen; lia]. simpl.
    eapply start_job; try done. intros b s' pending' Hs' Hj Hsame. simpl.
    exists [l]. split_done; [|by apply same_except_weaken]. by split; [rewrite Hj|].
Qed.
Next Obligation.
  intros [q cur] ls s [w c] rest n [Hq Hst] Hs Hm Hls Hrest Hnd. simpl in *.
  unfold schedulerLCFSCompleteJob. simpl. destruct cur as [l|].
  2:{ destruct Hq as (xs & ys & Hh & -> & Hw & Hc). destruct c; [inversion Hc|]. simpl.
      exists (xs ++ ys). split_done. split; [|done]. by exists xs, ys. }
  destruct (queue_completion _ _ _ _ _ Hq Hnd) as (j & p & q' & zs & Hc & Hl & -> & Hr & Hq' & Hp).
  simpl in Hc. subst c. cbn [mbind outcome_bind]. rewrite Hr. cbn [mbind outcome_bind].
  pose proof (queue_holds _ _ _ _ _ Hq') as Hh. rewrite (holds_count _ _ _ Hh).
  pose proof (queue_info_length _ _ _ _ _ _ Hq') as Hlen.
  destruct w as [|j' w].
  - destruct zs; [|simpl in Hlen; lia]. simpl. exists []. by split_done.
  - destruct (queue_choice _ _ _ _ O j' Hq' eq_refl) as (l' & Hz & Hl' & Hq'').
    destruct zs as [|? zs]; [done|]. simpl in Hz. injection Hz as ->.
    rewrite (proj2 (Z.ltb_lt _ _)) by (simpl; lia).
    destruct (holds_head _ _ _ _ Hh) as (q0 & q1 & -> & Hd & _). simpl deref. cbn [mbind outcome_bind].
    rewrite Hd. cbn [mbind outcome_bind]. eapply start_job; try done.
    intros b s' pending' Hs' Hj Hsame. simpl. exists (l' :: zs).
    split_done; [|by apply same_except_weaken|by rewrite Hj]. by split; [rewrite Hj|].
Qed.

#[export] Program Instance sjf_laws : SchedulerLaws scheduler_SJF_t sjf_policy := {
  info_ok := sjf_info
}.
Next Obligation. intros i ls js js' st Hf Hq. by eapply queue_info_frame. Qed.
Next Obligation.
  intros X n Hm HX. destruct (lcfs_create X n Hm HX) as (q & _ & Hc & Hq). simpl. eexists.
  split; [exact Hc|]. intros js. apply Hq.
Qed.
Next Obligation.
  intros i ls js st Hq. simpl. unfold schedulerSJFDestroy.
  by rewrite (holds_destroy _ _ _ (queue_holds _ _ _ _ _ Hq)).
Qed.
Next Obligation.
  intros [q cur] ls s [w c] pending rest l j n Hq Hs Hm Hls Hrest Hnd Hl. simpl in *.
  unfold sjf_info in Hq. simpl in Hq. unfold schedulerSJFScheduleJob. simpl.
  destruct (queue_arrival _ _ _ _ _ l j n Hq Hm Hls Hl) as (k & q' & -> & Hh & Harr).
  cbn [mbind outcome_bind]. destruct cur as [l0|]; simpl in *.
  - destruct Harr as [[j0 ->] Hq']. simpl. exists (l :: ls). by split_done.
  - destruct Harr as [-> Hq'].
    eapply start_job; try done. intros b s' pending' Hs' Hj Hsame. simpl.
    exists (l :: ls). split_done; [|by apply same_except_weaken]. unfold sjf_info. by rewrite Hj.
Qed.
Next Obligation.
  intros [q cur] ls s [w c] rest n Hq Hs Hm Hls Hrest Hnd. simpl in *.
  unfold sjf_info in Hq. simpl in Hq. unfold schedulerSJFCompleteJob. simpl.
  assert (exists p q' zs, find_job q cur = Done p /\ list_remove q p = Done q' /\
    queue_info q' None zs (jobs s) (w, None) /\
    match cur, c with
    | Some l, Some j => ls ≡ₚ l :: zs /\ jobs s !! l = Some j
    | None, None => ls ≡ₚ zs
    | _, _ => False
    end) as (p & q' & zs & -> & Hr & Hq' & Hcur).
  { destruct cur as [l|].
    - destruct (queue_completion _ _ _ _ _ Hq Hnd) as (j & p & q' & zs & Hc & Hl & Hf & Hr & Hq' & Hp).
      simpl in Hc. subst c. by exists p, q', zs.
    - destruct Hq as (xs & ys & Hh & -> & Hw & Hc). destruct c; [inversion Hc|].
      exists None, q, (xs ++ ys). split_done.
      + destruct Hh as (lq & ? & -> & _). done.
      + by exists xs, ys. }
  cbn [mbind outcome_bind]. rewrite Hr. cbn [mbind outcome_bind].
  rewrite (holds_visit _ _ _ (queue_holds _ _ _ _ _ Hq')). cbn [mbind outcome_bind].
  assert (Hw : jobs_at (jobs s) zs w) by by destruct Hq' as (? & ? & _ & -> & Hw & _).
  rewrite (sjf_scan_ok _ _ _ _ _ _ Hw). cbn [mbind outcome_bind].
  destruct (sjf_best w u64_max u64_max) as [i|] eqn:Hb.
  - destruct (sjf_best_lookup _ _ _ _ Hb) as [j Hi].
    destruct (queue_choice _ _ _ _ _ _ Hq' Hi) as (l & Hz & Hl & Hq'').
    rewrite Hz. unfold array_get. rewrite Hi. cbn [mbind outcome_bind]. eapply start_job; try done.
    intros b s' pending' Hs' Hj Hsame. simpl. exists zs.
    split_done; [by unfold sjf_info; rewrite Hj|by apply same_except_weaken|by rewrite Hj].
  - simpl. exists zs. by split_done.
Qed.
End laws.
