(* ===== verification/Mlfq.v ===== *)
(** * The multi-level feedback queue of simulatorlab

    [simulatorlab-FreezeKickerz/schedulerMLFQ.c]: ten lists of wrappers around
    jobs, a running wrapper, slices of one time unit, and demotion by one level
    after each slice. *)

From Stdlib Require Import ZArith Lia.
From stdpp Require Import gmap list.
From S2P Require Import Prelude Dll SimList Simulator Scheduler.

(** ** The code *)

Definition MAX_MLFQ_LEVELS : nat := 10.

Record mlfq_job_t := MJob { job : loc; level : Z }.

Definition always_less (d1 d2 : loc) : Z := -1.

(** The wrappers are in a store of their own. *)
Record scheduler_MLFQ_t := MLFQ {
  queues : list (option (list_t loc));
  running : ptr;
  last_time : Z;
  wrappers : gmap loc mlfq_job_t
}.

Definition get_wrapper (wr : gmap loc mlfq_job_t) (p : ptr) : outcome mlfq_job_t :=
  match p with
  | None => Fault NullDeref
  | Some l => match wr !! l with Some w => Done w | None => Fault Dangling end
  end.

Definition free_wrapper (wr : gmap loc mlfq_job_t) (p : ptr) : outcome (gmap loc mlfq_job_t) :=
  match p with
  | None => Done wr
  | Some l => match wr !! l with Some _ => Done (delete l wr) | None => Fault Dangling end
  end.

Section code.
Context `{Malloc}.

(** The loop over the levels: [n] levels left from [lvl]. *)
Fixpoint mlfq_pick (n lvl : nat) (qs : list (option (list_t loc)))
    : outcome (ptr * list (option (list_t loc))) :=
  match n with
  | O => Done (None, qs)
  | S n =>
      q ← array_get qs lvl;
      if 0 <? list_count q then
        let node := list_head q in
        l ← deref q;
        next ← list_data l node;
        q ← list_remove q node;
        qs ← array_set qs lvl q;
        Done (next, qs)
      else mlfq_pick n (S lvl) qs
  end.

Definition schedule_next (s : scheduler_t) (info : scheduler_MLFQ_t) (now : Z)
    : outcome (scheduler_MLFQ_t * scheduler_t) :=
  '(next, qs) ← mlfq_pick MAX_MLFQ_LEVELS 0 (queues info);
  match next with
  | None => Done (MLFQ qs next (last_time info) (wrappers info), s)
  | Some _ =>
      w ← get_wrapper (wrappers info) next;
      rem ← jobGetRemainingTime (jobs s) (Some (job w));
      let run := if rem <? 1 then rem else 1 in
      '(_, s) ← schedulerScheduleNextCompletion s (add64 now run);
      Done (MLFQ qs next now (wrappers info), s)
  end.

Definition schedulerMLFQCreate (live : gset loc) : option scheduler_MLFQ_t :=
  match malloc live with
  | None => None
  | Some l =>
      Some (MLFQ (repeat (list_create ({[l]} ∪ live) (Some always_less)) MAX_MLFQ_LEVELS) None 0 ∅)
  end.

(** The loop that frees the wrappers of one queue, from node [n]. *)
Fixpoint free_wrappers (fuel : nat) (q : list_t loc) (n : ptr) (wr : gmap loc mlfq_job_t)
    : outcome (gmap loc mlfq_job_t) :=
  if decide (n = list_end (Some q)) then Done wr
  else
    match fuel with
    | O => Fault Diverges
    | S fuel =>
        w ← list_data q n;
        nxt ← list_next q n;
        wr ← free_wrapper wr w;
        free_wrappers fuel q nxt wr
    end.

Fixpoint destroy_queues (qs : list (option (list_t loc))) (wr : gmap loc mlfq_job_t)
    : outcome (gmap loc mlfq_job_t) :=
  match qs with
  | [] => Done wr
  | q :: qs =>
      wr ← match q with
           | Some l => free_wrappers (S (size (nodes l))) l (list_head q) wr
           | None => Done wr
           end;
      _ ← list_destroy q;
      destroy_queues qs wr
  end.

(** The wrappers left allocated. *)
Definition schedulerMLFQDestroy (info : scheduler_MLFQ_t) : outcome (gmap loc mlfq_job_t) :=
  wr ← free_wrapper (wrappers info) (running info);
  destroy_queues (queues info) wr.

(** [list_insert(info->queues[lvl], w)] *)
Definition enqueue (qs : list (option (list_t loc))) (lvl : nat) (w : loc)
    : outcome (list (option (list_t loc))) :=
  q ← array_get qs lvl;
  '(_, q) ← list_insert q w;
  array_set qs lvl q.

Definition set_level (wr : gmap loc mlfq_job_t) (l : loc) (w : mlfq_job_t) (lvl : Z) :=
  <[l := MJob (job w) lvl]> wr.

Definition last_level : Z := Z.of_nat MAX_MLFQ_LEVELS - 1.

Definition schedulerMLFQScheduleJob (info : scheduler_MLFQ_t) (s : scheduler_t) (jb : loc) (now : Z)
    : outcome (scheduler_MLFQ_t * scheduler_t) :=
  nw ← deref (malloc (dom (wrappers info)));
  let wr := <[nw := MJob jb 0]> (wrappers info) in
  qs ← enqueue (queues info) 0 nw;
  match running info with
  | None => schedule_next s (MLFQ qs None (last_time info) wr) now
  | Some r =>
      w ← get_wrapper wr (Some r);
      if 0 <? level w then
        '(_, s) ← schedulerCancelNextCompletion s;
        let run := sub64 now (last_time info) in
        '(w, wr, s) ←
          (if 0 <? run then
             rem ← jobGetRemainingTime (jobs s) (Some (job w));
             let run := if rem <? run then rem else run in
             js ← jobSetRemainingTime (jobs s) (Some (job w)) (sub64 rem run);
             let lvl := if (1 <=? run) && (level w <? last_level) then level w + 1 else level w in
             Done (MJob (job w) lvl, set_level wr r w lvl, set_jobs s js)
           else Done (w, wr, s));
        qs ← enqueue qs (Z.to_nat (level w)) r;
        schedule_next s (MLFQ qs None (last_time info) wr) now
      else Done (MLFQ qs (Some r) (last_time info) wr, s)
  end.

Definition schedulerMLFQCompleteJob (info : scheduler_MLFQ_t) (s : scheduler_t) (now : Z)
    : outcome (scheduler_MLFQ_t * scheduler_t * ptr) :=
  '(qs, wr, js, finished) ←
    match running info with
    | None => Done (queues info, wrappers info, jobs s, None)
    | Some r =>
        w ← get_wrapper (wrappers info) (Some r);
        rem ← jobGetRemainingTime (jobs s) (Some (job w));
        if 1 <? rem then
          js ← jobSetRemainingTime (jobs s) (Some (job w)) (sub64 rem 1);
          let lvl := if level w <? last_level then level w + 1 else level w in
          qs ← enqueue (queues info) (Z.to_nat lvl) r;
          Done (qs, set_level (wrappers info) r w lvl, js, None)
        else
          js ← jobSetRemainingTime (jobs s) (Some (job w)) 0;
          wr ← free_wrapper (wrappers info) (Some r);
          Done (queues info, wr, js, Some (job w))
    end;
  '(info, s) ← schedule_next (set_jobs s js) (MLFQ qs None (last_time info) wr) now;
  Done (info, s, finished).
End code.

#[export] Instance scheduler_MLFQ `{Malloc} : SchedulerOps scheduler_MLFQ_t := {
  create := schedulerMLFQCreate; destroy i := _ ← schedulerMLFQDestroy i; Done tt;
  scheduleJob := schedulerMLFQScheduleJob; completeJob := schedulerMLFQCompleteJob
}.

(** ** The policy *)

(** The first element of the first non-empty level, its level, and the rest. *)
Fixpoint mlfq_first {A} (levels : list (list A)) : option (nat * A * list (list A)) :=
  match levels with
  | [] => None
  | (a :: q) :: levels => Some (O, a, q :: levels)
  | [] :: levels => '(i, a, levels) ← mlfq_first levels; Some (S i, a, [] :: levels)
  end.

(** Add at the end of a level. *)
Definition mlfq_add {A} (levels : list (list A)) (i : nat) (a : A) : list (list A) :=
  match levels !! i with Some q => <[i := q ++ [a]]> levels | None => levels end.

Definition set_remaining (j : job_t) (r : Z) : job_t := Job (arrivalTime j) (jobTime j) r (id j).

(** The waiting jobs at each level, the running job with its level, and when it
    started. *)
Record mlfq_state := MState {
  m_levels : list (list job_t);
  m_running : option (job_t * nat);
  m_last : Z
}.

Definition mlfq_next (now : Z) (pending : option Z) (levels : list (list job_t)) (last : Z)
    : outcome (mlfq_state * option Z) :=
  match mlfq_first levels with
  | None => Done (MState levels None last, pending)
  | Some (i, j, levels) =>
      pending ← next_completion now (remainingTime j `min` 1) pending;
      Done (MState levels (Some (j, i)) now, pending)
  end.

Definition demote (i : nat) : nat := (S i `min` 9)%nat.

Definition mlfq_policy : policy := {|
  p_state := mlfq_state;
  p_init := MState (replicate MAX_MLFQ_LEVELS []) None 0;
  p_arrive now pending j st :=
    let levels := mlfq_add (m_levels st) 0 j in
    match m_running st with
    | None => mlfq_next now pending levels (m_last st)
    | Some (r, O) => Done (MState levels (Some (r, O)) (m_last st), pending)
    | Some (r, S i) =>
        let run := sub64 now (m_last st) in
        let '(r, lvl) :=
          if 0 <? run then
            let run := remainingTime r `min` run in
            (set_remaining r (remainingTime r - run), if 1 <=? run then demote (S i) else S i)
          else (r, S i) in
        mlfq_next now None (mlfq_add levels lvl r) (m_last st)
    end;
  p_complete now st :=
    let '(levels, finished) :=
      match m_running st with
      | None => (m_levels st, None)
      | Some (r, i) =>
          if 1 <? remainingTime r
          then (mlfq_add (m_levels st) (demote i) (set_remaining r (remainingTime r - 1)), None)
          else (m_levels st, Some (set_remaining r 0))
      end in
    '(st, pending) ← mlfq_next now None levels (m_last st);
    Done (st, pending, finished)
|}.

(** ** The first non-empty level *)

Lemma mlfq_first_fmap {A B} (f : A -> B) (levels : list (list A)) :
  mlfq_first (map (map f) levels) =
    option_map (fun '(i, a, ls) => (i, f a, map (map f) ls)) (mlfq_first levels).
Proof.
  induction levels as [|[|a q] levels IH]; simpl; [done| |done].
  rewrite IH. by destruct (mlfq_first levels) as [[[i a] ls]|].
Qed.

Lemma mlfq_first_spec {A} (levels : list (list A)) :
  match mlfq_first levels with
  | None => concat levels = []
  | Some (i, a, ls) => exists q, levels !! i = Some (a :: q) /\ ls = <[i := q]> levels /\
      concat (take i levels) = []
  end.
Proof.
  induction levels as [|[|a q] levels IH]; simpl; [done| |by exists q].
  destruct (mlfq_first levels) as [[[i a] ls]|]; simpl; [|done].
  destruct IH as (q & ? & -> & ?). by exists q.
Qed.

Lemma concat_insert_perm {A} (E : list (list A)) i es es' :
  E !! i = Some es -> es' ++ concat E ≡ₚ es ++ concat (<[i := es']> E).
Proof.
  revert i. induction E as [|e E IH]; intros [|i] Hi; simpl in *; simplify_eq.
  - by rewrite !(assoc_L (++)), (Permutation_app_comm es').
  - rewrite (assoc_L (++)), (Permutation_app_comm es'), <- (assoc_L (++)), (IH i Hi).
    by rewrite !(assoc_L (++)), (Permutation_app_comm e).
Qed.

Lemma concat_add_perm {A} (E : list (list A)) i a :
  (i < length E)%nat -> concat (mlfq_add E i a) ≡ₚ a :: concat E.
Proof.
  intros Hi. destruct (lookup_lt_is_Some_2 E i Hi) as [es Hes]. unfold mlfq_add.
  rewrite Hes.
  apply (Permutation_app_inv_l es). rewrite <- (concat_insert_perm E i es (es ++ [a]) Hes).
  rewrite <- (assoc_L (++)). done.
Qed.

(** ** The invariant *)

(** A wrapper at [ew] around the job at [el], whose value is [ej], at a level. *)
Record entry := Entry { ew : loc; el : loc; ej : job_t; elv : nat }.

Record mq_ok (qs : list (option (list_t loc))) (wr : gmap loc mlfq_job_t) (js : gmap loc job_t)
    (E : list (list entry)) (x : list entry) : Prop := {
  mq_len : length E = MAX_MLFQ_LEVELS;
  mq_holds : Forall2 (fun q es => holds (Some always_less) q (ew <$> es)) qs E;
  mq_level i es : E !! i = Some es -> Forall (fun e => elv e = i) es;
  mq_ent : Forall (fun e => wr !! ew e = Some (MJob (el e) (Z.of_nat (elv e))) /\
                            js !! el e = Some (ej e) /\ (elv e < 10)%nat) (concat E ++ x);
  mq_nodup : NoDup (ew <$> concat E ++ x);
  mq_jobs : NoDup (el <$> concat E ++ x);
  mq_dom : dom wr = list_to_set (ew <$> concat E ++ x)
}.

(** The invariant depends on the queues and on the entries up to order. *)
Lemma mq_rebuild qs qs' wr wr' js js' E E' x x' :
  mq_ok qs wr js E x -> length E' = length E ->
  Forall2 (fun q es => holds (Some always_less) q (ew <$> es)) qs' E' ->
  (forall i es, E' !! i = Some es -> Forall (fun e => elv e = i) es) ->
  (concat E' ++ x' ≡ₚ concat E ++ x) -> wr' = wr -> js' = js -> mq_ok qs' wr' js' E' x'.
Proof.
  intros [] ? ? ? Hp -> ->. split; try done; [congruence|by rewrite Hp..].
Qed.

Section proofs.
Context `{Malloc}.
Implicit Types (qs : list (option (list_t loc))) (wr : gmap loc mlfq_job_t) (js : gmap loc job_t).

Lemma insert_always_less w (ds : list loc) :
  insert_spec (Some always_less) (fun x => x) w ds = ds ++ [w].
Proof. simpl. induction ds as [|d ds IH]; simpl; [done|]. by rewrite IH. Qed.

Lemma enqueue_ok qs wr js E e x n :
  mq_ok qs wr js E (e :: x) -> malloc_room_for n -> (length (concat E) <= n)%nat ->
  exists qs', enqueue qs (elv e) (ew e) = Done qs' /\ mq_ok qs' wr js (mlfq_add E (elv e) e) x.
Proof.
  intros Hok Hm Hlen. destruct (Hok) as [HE Hh Hlv Hent Hnd Hjobs Hdom].
  assert (Hlt : (elv e < length E)%nat).
  { rewrite HE. apply Forall_app in Hent as [_ Hent]. apply Forall_cons in Hent as [Hent _]. apply Hent. }
  destruct (lookup_lt_is_Some_2 E _ Hlt) as [es Hes].
  destruct (Forall2_lookup_r _ _ _ _ _ Hh Hes) as (q & Hq & Hqh).
  unfold enqueue. rewrite (proj2 (array_get_Done _ _ _) Hq). cbn [mbind outcome_bind].
  destruct (holds_insert _ _ _ (ew e) n Hqh Hm) as (k & q' & -> & Hq').
  { rewrite length_fmap. etrans; [|exact Hlen]. pose proof (Permutation_length (concat_insert_perm E _ es [] Hes)) as Hp.
    simpl in Hp. rewrite Hp, length_app. lia. }
  cbn [mbind outcome_bind]. rewrite array_set_ok by by eapply lookup_lt_Some.
  eexists. split; [done|]. unfold mlfq_add. rewrite Hes.
  eapply mq_rebuild; [exact Hok|..]; try done.
  - by rewrite length_insert.
  - apply Forall2_insert; [done|]. rewrite insert_always_less in Hq'. by rewrite fmap_app.
  - intros i es'. destruct (decide (i = elv e)) as [->|].
    + rewrite list_lookup_insert_eq by done. intros [= <-]. apply Forall_app. split; [by apply Hlv|].
      by repeat constructor.
    + rewrite list_lookup_insert_ne by done. apply Hlv.
  - pose proof (concat_add_perm E _ e Hlt) as Hp. unfold mlfq_add in Hp. rewrite Hes in Hp.
    rewrite Hp. simpl. by rewrite Permutation_middle.
Qed.

Lemma mlfq_pick_ok qs (E : list (list entry)) m lvl :
  Forall2 (fun q es => holds (Some always_less) q (ew <$> es)) qs E -> (lvl + m = length E)%nat ->
  concat (take lvl E) = [] ->
  match mlfq_first E with
  | None => mlfq_pick m lvl qs = Done (None, qs)
  | Some (i, e, E') => exists qs', mlfq_pick m lvl qs = Done (Some (ew e), qs') /\
      Forall2 (fun q es => holds (Some always_less) q (ew <$> es)) qs' E'
  end.
Proof.
  intros Hh. revert lvl. induction m as [|m IH]; intros lvl Hlen Htake; pose proof (mlfq_first_spec E) as Hf.
  - destruct (mlfq_first E) as [[[i e] E']|]; [|done]. destruct Hf as (es & Hi & _ & _).
    apply lookup_lt_Some in Hi as Hlt. rewrite take_ge in Htake by lia.
    pose proof (concat_insert_perm E i _ [] Hi) as Hp. rewrite Htake in Hp. simpl in Hp.
    by apply Permutation_nil_cons in Hp.
  - destruct (lookup_lt_is_Some_2 E lvl ltac:(lia)) as [es Hes].
    destruct (Forall2_lookup_r _ _ _ _ _ Hh Hes) as (q & Hq & Hqh).
    simpl. rewrite (proj2 (array_get_Done _ _ _) Hq). cbn [mbind outcome_bind].
    rewrite (holds_count _ _ _ Hqh). destruct es as [|e es]; simpl.
    + assert (Htk : concat (take (S lvl) E) = []).
      { rewrite (take_S_r _ _ _ Hes), concat_app, Htake. done. }
      pose proof (IH (S lvl) ltac:(lia) Htk) as IH'. destruct (mlfq_first E) as [[[i e] E']|]; exact IH'.
    + destruct (holds_head _ _ _ _ Hqh) as (l & q' & -> & Hd & Hr & Hq').
      cbn [deref mbind outcome_bind]. simpl list_head in *. rewrite Hd. cbn [mbind outcome_bind].
      rewrite Hr. cbn [mbind outcome_bind]. rewrite array_set_ok by by eapply lookup_lt_Some.
      destruct (mlfq_first E) as [[[i e'] E']|].
      2:{ exfalso. pose proof (concat_insert_perm E lvl _ [] Hes) as Hp. rewrite Hf in Hp. simpl in Hp.
          by apply Permutation_nil_cons in Hp. }
      destruct Hf as (es' & Hi & -> & Htake'). assert (i = lvl) as ->.
      { destruct (Nat.lt_trichotomy i lvl) as [Hlt|[?|Hgt]]; [|done|].
        - rewrite <- (lookup_take_lt _ lvl i) in Hi by lia.
          pose proof (concat_insert_perm _ i _ [] Hi) as Hp. rewrite Htake in Hp. simpl in Hp.
          by apply Permutation_nil_cons in Hp.
        - rewrite <- (lookup_take_lt _ i lvl) in Hes by lia.
          pose proof (concat_insert_perm _ lvl _ [] Hes) as Hp. rewrite Htake' in Hp. simpl in Hp.
          by apply Permutation_nil_cons in Hp. }
      simplify_eq. simpl. eexists. split; [done|]. by apply Forall2_insert.
Qed.

Lemma mq_elem qs wr js E e x :
  mq_ok qs wr js E (e :: x) ->
  wr !! ew e = Some (MJob (el e) (Z.of_nat (elv e))) /\ js !! el e = Some (ej e) /\ (elv e < 10)%nat.
Proof. intros []. apply Forall_app in mq_ent0 as [_ Hx]. by apply Forall_cons in Hx as [Hx _]. Qed.

(** The entries other than the first one outside the queues. *)
Lemma mq_others qs wr js E e x :
  mq_ok qs wr js E (e :: x) ->
  Forall (fun e' => ew e' <> ew e /\ el e' <> el e) (concat E ++ x).
Proof.
  intros [_ _ _ _ Hw Hl _]. rewrite <- Permutation_middle in Hw, Hl. simpl in *.
  apply NoDup_cons in Hw as [Hw _], Hl as [Hl _]. apply Forall_forall. intros e' He'.
  split; intros Heq; [apply Hw; rewrite <- Heq|apply Hl; rewrite <- Heq];
    apply list_elem_of_fmap; by exists e'.
Qed.

(** A running wrapper and its job change level and value. *)
Lemma mq_update qs wr js E e x j lvl :
  mq_ok qs wr js E (e :: x) -> (lvl < 10)%nat ->
  mq_ok qs (<[ew e := MJob (el e) (Z.of_nat lvl)]> wr) (<[el e := j]> js) E
    (Entry (ew e) (el e) j lvl :: x).
Proof.
  intros Hok Hlt. pose proof (mq_others _ _ _ _ _ _ Hok) as Hoth. destruct (mq_elem _ _ _ _ _ _ Hok) as (Hwe & _).
  destruct Hok as [HE Hh Hlv Hent Hw Hl Hdom]. split; try done.
  - rewrite <- Permutation_middle in *. apply Forall_cons in Hent as [_ Hent]. constructor; simpl.
    + rewrite !lookup_insert_eq. done.
    + rewrite Forall_forall in *. intros e' He'. destruct (Hoth _ He').
      rewrite !lookup_insert_ne by done. by apply Hent.
  - rewrite <- Permutation_middle in *. done.
  - rewrite <- Permutation_middle in *. done.
  - rewrite dom_insert_L, Hdom. rewrite <- Permutation_middle. simpl. set_solver.
Qed.

(** A new wrapper around a new job. *)
Lemma mq_new qs wr js E w l j x :
  mq_ok qs wr js E x -> w ∉ dom wr -> js !! l = Some j -> l ∉ (el <$> concat E ++ x) ->
  mq_ok qs (<[w := MJob l 0]> wr) js E (Entry w l j 0 :: x).
Proof.
  intros [HE Hh Hlv Hent Hw Hl Hdom] Hfresh Hj Hnl. split; try done.
  - rewrite <- Permutation_middle. constructor; simpl; [rewrite lookup_insert_eq; split_done; lia|].
    rewrite Forall_forall in *. intros e' He'. rewrite lookup_insert_ne; [by apply Hent|].
    intros ->. apply Hfresh. rewrite Hdom. apply elem_of_list_to_set, list_elem_of_fmap. by exists e'.
  - rewrite <- Permutation_middle. simpl. constructor; [|done].
    rewrite Hdom in Hfresh. by rewrite elem_of_list_to_set in Hfresh.
  - rewrite <- Permutation_middle. simpl. by constructor.
  - rewrite dom_insert_L, Hdom, <- Permutation_middle. simpl. done.
Qed.

(** A finished wrapper is freed. *)
Lemma mq_drop qs wr js js' E e x :
  mq_ok qs wr js E (e :: x) -> (forall l, l <> el e -> js' !! l = js !! l) ->
  mq_ok qs (delete (ew e) wr) js' E x.
Proof.
  intros Hok Hjs. pose proof (mq_others _ _ _ _ _ _ Hok) as Hoth.
  destruct Hok as [HE Hh Hlv Hent Hw Hl Hdom]. rewrite <- Permutation_middle in Hent, Hw, Hl, Hdom.
  simpl in *. apply Forall_cons in Hent as [_ Hent]. apply NoDup_cons in Hw as [Hew Hw], Hl as [_ Hl].
  split; try done.
  - rewrite Forall_forall in *. intros e' He'. destruct (Hoth _ He').
    rewrite lookup_delete_ne, Hjs by done. by apply Hent.
  - rewrite dom_delete_L, Hdom. rewrite <- (elem_of_list_to_set (C := gset positive)) in Hew. set_solver.
Qed.

Definition mlfq_info (i : scheduler_MLFQ_t) (ls : list loc) (js : gmap loc job_t) (st : mlfq_state) : Prop :=
  exists E x, mq_ok (queues i) (wrappers i) js E x /\ m_levels st = map (map ej) E /\
    m_last st = last_time i /\ ls ≡ₚ (el <$> concat E ++ x) /\
    match m_running st with
    | None => running i = None /\ x = []
    | Some (r, lvl) => exists e, x = [e] /\ running i = Some (ew e) /\ ej e = r /\ elv e = lvl
    end.

Lemma mq_dequeue qs qs' wr js E i e E' x :
  mq_ok qs wr js E x -> mlfq_first E = Some (i, e, E') ->
  Forall2 (fun q es => holds (Some always_less) q (ew <$> es)) qs' E' ->
  mq_ok qs' wr js E' (e :: x) /\ elv e = i /\ concat E ≡ₚ e :: concat E'.
Proof.
  intros Hok Hf Hh. pose proof (mlfq_first_spec E) as Hs. rewrite Hf in Hs.
  destruct Hs as (q & Hi & -> & _). pose proof (mq_level _ _ _ _ _ Hok _ _ Hi) as Hlv.
  apply Forall_cons in Hlv as [Hlv Hq].
  assert (Hp : concat E ≡ₚ e :: concat (<[i := q]> E)).
  { apply (Permutation_app_inv_l q). rewrite (concat_insert_perm E i _ q Hi).
    by rewrite <- Permutation_middle. }
  split_done. eapply mq_rebuild; [exact Hok|..]; try done.
  - by rewrite length_insert.
  - intros k es'. destruct (decide (k = i)) as [->|].
    + rewrite list_lookup_insert_eq by by eapply lookup_lt_Some. by intros [= <-].
    + rewrite list_lookup_insert_ne by done. by apply mq_level with (1 := Hok).
  - rewrite Hp. by rewrite <- Permutation_middle.
Qed.

Lemma schedule_next_ok qs wr s E pending rest last n :
  mq_ok qs wr (jobs s) E [] -> sched_ok s pending rest -> malloc_room_for n -> (length rest <= n)%nat ->
  refines (fun '(i', s') '(st', pending') => forall ls, ls ≡ₚ (el <$> concat E) ->
      mlfq_info i' ls (jobs s') st' /\ sched_ok s' pending' rest /\ jobs s' = jobs s /\ same_except [] s s')
    (schedule_next s (MLFQ qs None last wr) (simTime (sim s)))
    (mlfq_next (simTime (sim s)) pending (map (map ej) E) last).
Proof.
  intros Hok Hs Hm Hlen. unfold schedule_next, mlfq_next. simpl queues.
  pose proof (mlfq_pick_ok qs E MAX_MLFQ_LEVELS 0 (mq_holds _ _ _ _ _ Hok) ltac:(by rewrite (mq_len _ _ _ _ _ Hok)) eq_refl) as Hpick.
  rewrite mlfq_first_fmap. destruct (mlfq_first E) as [[[i e] E']|] eqn:Hf; cbn [option_map].
  2:{ rewrite Hpick. simpl. intros ls Hls. split_done. exists E, []. split_done. by rewrite app_nil_r. }
  destruct Hpick as (qs' & -> & Hh'). cbn [mbind outcome_bind].
  destruct (mq_dequeue _ _ _ _ _ _ _ _ _ Hok Hf Hh') as (Hok' & Hlv & Hp).
  destruct (mq_elem _ _ _ _ _ _ Hok') as (Hw & Hj & Hlt).
  cbn [wrappers]. unfold get_wrapper. rewrite Hw. cbn [mbind outcome_bind job].
  unfold jobGetRemainingTime. rewrite (get_job_ok _ _ _ Hj). cbn [mbind outcome_bind].
  assert (Hu : u64 (remainingTime (ej e))) by (eapply job_ok_lookup in Hj; [|done]; apply Hj).
  replace (if remainingTime (ej e) <? 1 then remainingTime (ej e) else 1) with (remainingTime (ej e) `min` 1)
    by (case_match; lia).
  eapply refines_bind; [apply next_completion_ok with (n := n); try done; u64_lia|].
  intros [b s'] pending' (Hs' & Hjs & Hsame). simpl. intros ls Hls. split_done.
  exists E', [e]. split_done; [by rewrite Hjs| |by exists e].
  rewrite Hls, Hp. simpl. rewrite fmap_app. simpl. by rewrite Permutation_app_comm.
Qed.

Lemma map_add (E : list (list entry)) i e :
  map (map ej) (mlfq_add E i e) = mlfq_add (map (map ej) E) i (ej e).
Proof.
  unfold mlfq_add. rewrite list_lookup_fmap. destruct (E !! i) as [q|] eqn:Hq; simpl; [|done].
  rewrite (list_fmap_insert (map ej)). by rewrite map_app.
Qed.

Lemma mq_length qs wr js E x ls :
  mq_ok qs wr js E x -> ls ≡ₚ (el <$> concat E ++ x) ->
  size (dom wr) = length ls /\ (length (concat E) <= length ls)%nat.
Proof.
  intros Hok Hls. rewrite (mq_dom _ _ _ _ _ Hok), size_list_to_set by apply Hok.
  rewrite (Permutation_length Hls), !length_fmap, length_app. lia.
Qed.

(** The update of the running job at an arrival, both branches. *)
Definition run_update (j : job_t) (lvl : nat) (run : Z) : job_t * nat :=
  if 0 <? run then
    let run := remainingTime j `min` run in
    (set_remaining j (remainingTime j - run), if 1 <=? run then demote lvl else lvl)
  else (j, lvl).

Lemma demote_level i :
  (i < 10)%nat ->
  (if Z.of_nat i <? last_level then Z.of_nat i + 1 else Z.of_nat i) = Z.of_nat (demote i).
Proof. intros Hi. unfold last_level, MAX_MLFQ_LEVELS, demote. destruct (Z.ltb_spec (Z.of_nat i) (Z.of_nat 10 - 1)); lia. Qed.

Lemma arrive_running s info qs wr E e l j ls pending rest n now :
  now = simTime (sim s) ->
  mq_ok qs wr (jobs s) E [Entry (ew e) (el e) (ej e) (elv e)] -> (0 < elv e)%nat ->
  running info = Some (ew e) -> sched_ok s pending rest ->
  malloc_room_for n -> (length rest <= n)%nat -> (length (concat E) <= n)%nat ->
  ls ≡ₚ (el <$> concat E ++ [e]) -> jobs s !! l = Some j ->
  refines (fun '(i', s') '(st', pending') =>
      mlfq_info i' ls (jobs s') st' /\ sched_ok s' pending' rest /\ same_except ls s s')
    (w ← get_wrapper wr (Some (ew e));
     if 0 <? level w then
       '(_, s) ← schedulerCancelNextCompletion s;
       let run := sub64 now (last_time info) in
       '(w, wr, s) ←
         (if 0 <? run then
            rem ← jobGetRemainingTime (jobs s) (Some (job w));
            let run := if rem <? run then rem else run in
            js ← jobSetRemainingTime (jobs s) (Some (job w)) (sub64 rem run);
            let lvl := if (1 <=? run) && (level w <? last_level) then level w + 1 else level w in
            Done (MJob (job w) lvl, set_level wr (ew e) w lvl, set_jobs s js)
          else Done (w, wr, s));
       qs ← enqueue qs (Z.to_nat (level w)) (ew e);
       schedule_next s (MLFQ qs None (last_time info) wr) now
     else Done (MLFQ qs (Some (ew e)) (last_time info) wr, s))
    (let '(r, lvl) := run_update (ej e) (elv e) (sub64 now (last_time info)) in
     mlfq_next now None (mlfq_add (map (map ej) E) lvl r) (last_time info)).
Proof.
  intros -> Hok Hlv Hrun Hs Hm Hrest Hlen Hls Hl. destruct e as [w le je lv]. simpl in *.
  destruct (mq_elem _ _ _ _ _ _ Hok) as (Hw & Hj & Hlt). simpl in Hw, Hj, Hlt.
  rewrite Hw. cbn [mbind outcome_bind level job]. rewrite (proj2 (Z.ltb_lt _ _)) by lia.
  destruct (cancel_completion_ok s pending rest Hs) as (b & s1 & -> & Hs1 & Hjs1 & Ht1 & _).
  cbn [mbind outcome_bind]. rewrite Hjs1.
  set (run := sub64 _ _). assert (Hu : u64 (remainingTime je)) by (eapply job_ok_lookup in Hj; [|done]; apply Hj).
  assert (Hur : u64 run) by apply wrap64_range. clearbody run.
  unfold run_update. destruct (Z.ltb_spec 0 run) as [Hpos|Hz].
  - unfold jobGetRemainingTime, jobSetRemainingTime. rewrite (get_job_ok _ _ _ Hj). cbn [mbind outcome_bind deref].
    replace (if remainingTime je <? run then remainingTime je else run) with (remainingTime je `min` run)
      by (case_match; lia).
    rewrite sub64_small by u64_lia. set (r := remainingTime je `min` run). set (j' := set_remaining je _).
    set (lv' := if 1 <=? r then demote lv else lv).
    assert (Hlv' : (if (1 <=? r) && (Z.of_nat lv <? last_level) then Z.of_nat lv + 1 else Z.of_nat lv) = Z.of_nat lv').
    { unfold lv'. destruct (1 <=? r); simpl; [by apply demote_level|done]. }
    rewrite Hlv'. assert (Hlt' : (lv' < 10)%nat) by (unfold lv', demote; destruct (1 <=? r); lia).
    pose proof (mq_update _ _ _ _ _ _ j' lv' Hok Hlt') as Hok'. simpl in Hok'.
    assert (Hs' : sched_ok (set_jobs s1 (<[le := j']> (jobs s))) None rest).
    { apply sched_ok_set_jobs; [done|]. apply map_Forall_insert_2; [|apply Hs].
      pose proof (job_ok_lookup _ _ _ _ _ Hs Hj) as (? & ? & ? & ?).
      unfold job_ok, j', set_remaining. split_done; simpl; unfold r; u64_lia. }
    destruct (enqueue_ok qs _ _ E _ [] n Hok' Hm Hlen) as (qs' & Heq & Hok''). simpl in Heq.
    cbn [mbind outcome_bind level job]. rewrite Nat2Z.id. unfold set_level. cbn [job] in *.
    rewrite Heq. cbn [mbind outcome_bind].
    pose proof (map_add E lv' (Entry w le j' lv')) as Hma. cbn [ej] in Hma. rewrite <- Hma. simpl in Hok''.
    pose proof (schedule_next_ok qs' _ (set_jobs s1 (<[le := j']> (jobs s))) _ None rest (last_time info) n
                  Hok'' Hs' Hm Hrest) as Hnext. simpl in Hnext. rewrite Ht1 in Hnext.
    eapply refines_mono; [|exact Hnext].
    intros [i' s'] [st' pending'] Hres. destruct (Hres ls) as (Hi & Hss & Hjj & Ht' & Hd' & _).
    { rewrite Hls, !fmap_app, concat_add_perm by by rewrite (mq_len _ _ _ _ _ Hok).
      simpl. by rewrite Permutation_app_comm. }
    split_done. split; [simpl in Ht'; congruence|]. rewrite Hjj. simpl. split.
    + rewrite dom_insert_L. apply elem_of_dom_2 in Hj. set_solver.
    + intros l' Hl'. rewrite lookup_insert_ne; [done|]. intros ->. apply Hl'. rewrite Hls, fmap_app.
      apply elem_of_app. right. by left.
  - cbn [mbind outcome_bind level]. rewrite Nat2Z.id.
    destruct (enqueue_ok qs _ _ E _ [] n Hok Hm Hlen) as (qs' & Heq & Hok'). simpl in Heq.
    rewrite Heq. cbn [mbind outcome_bind]. pose proof (map_add E lv (Entry w le je lv)) as Hma. cbn [ej] in Hma.
    rewrite <- Hma. simpl in Hok'.
    rewrite <- Hjs1 in Hok'.
    pose proof (schedule_next_ok qs' _ s1 _ None rest (last_time info) n Hok' Hs1 Hm Hrest) as Hnext.
    rewrite Ht1 in Hnext. eapply refines_mono; [|exact Hnext].
    intros [i' s'] [st' pending'] Hres. destruct (Hres ls) as (Hi & Hss & Hjj & Ht' & Hd' & _).
    { rewrite Hls, !fmap_app, concat_add_perm by by rewrite (mq_len _ _ _ _ _ Hok).
      simpl. by rewrite Permutation_app_comm. }
    split_done. split; [congruence|]. by rewrite Hjj, Hjs1.
Qed.

Lemma holds_create_levels X k :
  is_Some (malloc X) ->
  Forall2 (fun q es => holds (Some always_less) q (ew <$> es))
    (repeat (list_create X (Some always_less)) k) (replicate k []).
Proof.
  intros HX. induction k as [|k IH]; simpl; constructor; [|done]. by apply holds_create.
Qed.


(** The loop of [schedulerMLFQDestroy] frees every wrapper of a queue but the
    last. *)
Lemma free_wrappers_ok fuel (q : list_t loc) ys z pv wr :
  dseg (nodes q) pv (ys ++ [z]) None -> tail q = Some z.1 -> (length ys < fuel)%nat ->
  NoDup (ys ++ [z]).*1 -> NoDup (ys ++ [z]).*2 -> (forall w, w ∈ ys.*2 -> w ∈ dom wr) ->
  exists wr', free_wrappers fuel q (head_of (ys ++ [z]) None) wr = Done wr' /\
    (forall w, w ∉ ys.*2 -> wr' !! w = wr !! w) /\ (forall w, w ∈ ys.*2 -> wr' !! w = None).
Proof.
  revert fuel pv wr. induction ys as [|[k w] ys IH]; intros fuel pv wr Hs Ht Hfuel Hk Hw Hdom;
    (destruct fuel as [|fuel]; [simpl in Hfuel; lia|]).
  - exists wr. destruct z as [k w]. cbn [free_wrappers]. simpl in *. rewrite decide_True by done.
    split_done. intros w0 Hw0. by apply not_elem_of_nil in Hw0.
  - cbn [free_wrappers app head_of] in *. simpl in Hs. destruct Hs as [Hn Hs].
    cbn [fmap list_fmap fst snd] in *. apply NoDup_cons in Hk as [Hk0 Hk], Hw as [Hw0 Hw].
    rewrite decide_False.
    2:{ simpl. rewrite Ht. intros [= ->]. apply Hk0. rewrite fmap_app. apply elem_of_app. right. by left. }
    unfold list_data, list_next, get_node. rewrite Hn. cbn [mbind outcome_bind next data].
    pose proof (Hdom w ltac:(by left)) as Hx. apply elem_of_dom in Hx as [x Hx]. simpl. rewrite Hx. cbn [mbind outcome_bind].
    destruct (IH fuel (Some k) (delete w wr)) as (wr' & -> & Hout & Hin); try done.
    + simpl in Hfuel. lia.
    + intros w' Hw'. rewrite dom_delete_L. apply elem_of_difference. split; [apply Hdom; by right|].
      intros ->%elem_of_singleton. apply Hw0. rewrite fmap_app. by apply elem_of_app; left.
    + exists wr'. split_done.
      * intros w' Hw'. apply not_elem_of_cons in Hw' as [? Hw']. rewrite Hout by done.
        by rewrite lookup_delete_ne.
      * intros w' Hw'. destruct (decide (w' ∈ ys.*2)); [by apply Hin|].
        rewrite Hout by done. apply elem_of_cons in Hw' as [->|]; [|done]. by rewrite lookup_delete_eq.
Qed.

(** The wrappers at the end of a non-empty queue. *)
Definition last_of_some (Ws : list (list loc)) (w : loc) : Prop := exists ws, ws ++ [w] ∈ Ws.

Lemma destroy_queues_ok qs Ws wr :
  Forall2 (holds (Some always_less)) qs Ws -> NoDup (concat Ws) -> (forall w, w ∈ concat Ws -> w ∈ dom wr) ->
  exists wr', destroy_queues qs wr = Done wr' /\ (forall w, w ∉ concat Ws -> wr' !! w = wr !! w) /\
    forall w, w ∈ concat Ws -> is_Some (wr' !! w) <-> last_of_some Ws w.
Proof.
  intros Hh. revert wr. induction Hh as [|q ws qs Ws Hq Hh IH]; intros wr Hnd Hdom;
    cbn [destroy_queues concat] in *.
  { exists wr. split_done. intros w Hw. by apply not_elem_of_nil in Hw. }
  apply NoDup_app in Hnd as (Hnd1 & Hdisj & Hnd2).
  pose proof (holds_destroy _ _ _ Hq) as Hdes. destruct Hq as (l & ns & -> & Hok & _ & Hns).
  assert (exists wr1, free_wrappers (S (size (nodes l))) l (list_head (Some l)) wr = Done wr1 /\
    (forall w, w ∉ ws -> wr1 !! w = wr !! w) /\
    forall w, w ∈ ws -> is_Some (wr1 !! w) <-> exists ws', ws = ws' ++ [w]) as (wr1 & Hfw & Hout & Hin).
  { rewrite (sim_head_ok _ _ Hok).
    destruct ns as [|z ys _] using rev_ind.
    - exists wr. subst ws. simpl. rewrite (ok_tail _ _ Hok), decide_True by done. split_done.
      intros w Hw. by apply not_elem_of_nil in Hw.
    - destruct (free_wrappers_ok (S (size (nodes l))) l ys z None wr) as (wr1 & -> & Hout & Hin).
      + apply (rep_seg _ _ (ok_rep _ _ Hok)).
      + rewrite (ok_tail _ _ Hok), last_of_app. by destruct z.
      + pose proof (rep_fuel _ _ (ok_rep _ _ Hok)) as Hf. rewrite length_app in Hf. simpl in Hf. lia.
      + apply (rep_nodup _ _ (ok_rep _ _ Hok)).
      + by rewrite Hns.
      + intros w Hw. apply Hdom. rewrite <- Hns, fmap_app. apply elem_of_app. left. by apply elem_of_app; left.
      + exists wr1. rewrite fmap_app in Hns. simpl in Hns. subst ws. split_done.
        * intros w Hw. apply Hout. intros ?. apply Hw. by apply elem_of_app; left.
        * intros w Hw. apply NoDup_app in Hnd1 as (_ & Hz & _).
          destruct (decide (w ∈ ys.*2)) as [Hy|Hy].
          -- rewrite (Hin _ Hy). split; [by intros []|]. intros (ws' & Heq).
             apply app_inj_tail in Heq as [_ <-]. by destruct (Hz _ Hy ltac:(by left)).
          -- rewrite (Hout _ Hy). apply elem_of_app in Hw as [?|Hw]; [done|].
             apply list_elem_of_singleton in Hw as ->. split; [by exists (ys.*2)|].
             intros _. apply elem_of_dom, Hdom. apply elem_of_app. left. apply elem_of_app. right. by left. }
  cbv beta iota. rewrite Hfw. cbn [mbind outcome_bind]. rewrite Hdes. cbn [mbind outcome_bind].
  destruct (IH wr1) as (wr' & -> & Hout' & Hin'); [done| |].
  { intros w Hw. apply elem_of_dom. rewrite Hout; [|intros ?; by eapply Hdisj].
    apply elem_of_dom, Hdom. apply elem_of_app. by right. }
  exists wr'. split_done.
  - intros w Hw. apply not_elem_of_app in Hw as [? ?]. by rewrite Hout', Hout.
  - intros w Hw. unfold last_of_some. setoid_rewrite elem_of_cons.
    apply elem_of_app in Hw as [Hw|Hw].
    + rewrite Hout' by (intros ?; by eapply Hdisj). rewrite (Hin _ Hw). split.
      * intros (ws' & ->). exists ws'. by left.
      * intros (ws' & [Heq|He]); [by exists ws'|]. exfalso. eapply Hdisj; [exact Hw|].
        apply list_elem_of_In, in_concat. exists (ws' ++ [w]). rewrite <- !list_elem_of_In.
        split; [done|]. apply elem_of_app. right. by left.
    + rewrite (Hin' _ Hw). split; [intros (ws' & ?); exists ws'; by right|].
      intros (ws' & [Heq|He]); [|by exists ws']. exfalso. apply (Hdisj w); [|done].
      rewrite <- Heq. apply elem_of_app. right. by left.
Qed.

Lemma levels_holds qs (E : list (list entry)) :
  Forall2 (fun q es => holds (Some always_less) q (ew <$> es)) qs E ->
  Forall2 (holds (Some always_less)) qs (map (fmap ew) E).
Proof. induction 1; simpl; by constructor. Qed.

Lemma concat_map_ew (E : list (list entry)) : concat (map (fmap ew) E) = ew <$> concat E.
Proof. induction E as [|es E IH]; simpl; [done|]. by rewrite IH, fmap_app. Qed.

Lemma mlfq_destroy_ok info E x js st ls :
  mlfq_info info ls js st -> mq_ok (queues info) (wrappers info) js E x ->
  (running info = None /\ x = []) \/ (exists e, x = [e] /\ running info = Some (ew e)) ->
  exists wr', schedulerMLFQDestroy info = Done wr' /\
    forall w, w ∈ (ew <$> concat E) -> is_Some (wr' !! w) <-> last_of_some (map (fmap ew) E) w.
Proof.
  intros _ Hok Hrun. unfold schedulerMLFQDestroy. destruct (Hok) as [_ Hh _ _ Hnd _ Hdom].
  rewrite fmap_app in Hnd, Hdom. apply NoDup_app in Hnd as (Hnd & Hdisj & _).
  assert (exists wr1, free_wrapper (wrappers info) (running info) = Done wr1 /\
    forall w, w ∈ (ew <$> concat E) -> w ∈ dom wr1) as (wr1 & -> & Hw1).
  { destruct Hrun as [[-> ->]|(e & -> & ->)]; simpl.
    - exists (wrappers info). split_done. intros w Hw. rewrite Hdom. apply elem_of_list_to_set.
      by apply elem_of_app; left.
    - destruct (mq_elem _ _ _ _ _ _ Hok) as (-> & _). eexists. split; [done|]. intros w Hw.
      rewrite dom_delete_L, Hdom. apply elem_of_difference. split.
      + apply elem_of_list_to_set. by apply elem_of_app; left.
      + intros ->%elem_of_singleton. apply (Hdisj _ Hw). by left. }
  cbn [mbind outcome_bind]. rewrite <- concat_map_ew in *.
  destruct (destroy_queues_ok _ _ wr1 (levels_holds _ _ Hh) Hnd Hw1) as (wr' & -> & _ & Hlast). eauto.
Qed.

Lemma mlfq_frame i ls js js' st :
  (forall l, l ∈ ls -> js' !! l = js !! l) -> mlfq_info i ls js st -> mlfq_info i ls js' st.
Proof.
  intros Hf (E & x & [? ? ? Hent ? ? ?] & ? & ? & Hls & Hr). exists E, x. split_done. split; try done.
  rewrite Forall_forall in *. intros e He. destruct (Hent e He) as (? & Hj & ?). split_done.
  rewrite Hf; [done|]. rewrite Hls. apply list_elem_of_fmap. by exists e.
Qed.

Lemma mlfq_new_job i ls s st l j n :
  mlfq_info i ls (jobs s) st -> malloc_room_for n -> (length ls <= n)%nat ->
  NoDup (l :: ls) -> jobs s !! l = Some j ->
  exists nw qs E x, malloc (dom (wrappers i)) = Some nw /\ enqueue (queues i) 0 nw = Done qs /\
    mq_ok qs (<[nw := MJob l 0]> (wrappers i)) (jobs s) E x /\
    mlfq_add (m_levels st) 0 j = map (map ej) E /\ m_last st = last_time i /\
    l :: ls ≡ₚ (el <$> concat E ++ x) /\
    match m_running st with
    | None => running i = None /\ x = []
    | Some (r, lvl) => exists e, x = [e] /\ running i = Some (ew e) /\ ej e = r /\ elv e = lvl
    end.
Proof.
  intros (E & x & Hok & Hlv & Hlast & Hls & Hr) Hm Hlen Hnd Hl.
  destruct (mq_length _ _ _ _ _ _ Hok Hls) as [Hsize Hconc].
  destruct (Hm (dom (wrappers i))) as [nw Hnw]; [lia|].
  apply NoDup_cons in Hnd as [Hfresh Hnd]. rewrite Hls in Hfresh.
  pose proof (mq_new _ _ _ _ nw l j _ Hok (malloc_fresh _ _ Hnw) Hl Hfresh) as Hok1.
  destruct (enqueue_ok _ _ _ _ _ _ n Hok1 Hm ltac:(lia)) as (qs & Hq & Hok2). simpl in Hq, Hok2.
  exists nw, qs, (mlfq_add E 0 (Entry nw l j 0)), x. split_done.
  - by rewrite Hlv, map_add.
  - rewrite Hls, !fmap_app, concat_add_perm by (rewrite (mq_len _ _ _ _ _ Hok); unfold MAX_MLFQ_LEVELS; lia).
    done.
Qed.

Lemma mlfq_next_running now pending levels last st' p' :
  mlfq_next now pending levels last = Done (st', p') -> m_last st' = last \/ m_last st' = now.
Proof.
  unfold mlfq_next. destruct (mlfq_first levels) as [[[i j] ls]|].
  - intros (p & _ & [= <- <-])%bind_Done. by right.
  - intros [= <- <-]. by left.
Qed.

#[export] Program Instance mlfq_laws : SchedulerLaws scheduler_MLFQ_t mlfq_policy := {
  info_ok := mlfq_info
}.
Next Obligation. intros i ls js js' st Hf Hi. by eapply mlfq_frame. Qed.
Next Obligation.
  intros X n Hm HX. simpl. unfold schedulerMLFQCreate. destruct (Hm X) as [l Hl]; [lia|]. rewrite Hl.
  eexists. split; [done|]. intros js. exists (replicate MAX_MLFQ_LEVELS []), []. split_done.
  split; try done.
  - apply holds_create_levels. apply Hm. rewrite size_union_alt, size_singleton.
    pose proof (subseteq_size (X ∖ {[l]}) X ltac:(set_solver)). lia.
  - intros i es Hi. apply lookup_replicate in Hi as [-> _]. constructor.
  - constructor.
  - constructor.
Qed.
Next Obligation.
  intros i ls js st Hi. pose proof Hi as (E & x & Hok & _ & _ & _ & Hr). simpl.
  destruct (mlfq_destroy_ok i E x js st ls Hi Hok) as (wr' & -> & _); [|done].
  destruct (m_running st) as [[r lvl]|]; [right|left; tauto]. destruct Hr as (e & -> & -> & _). eauto.
Qed.
Next Obligation.
  intros i ls s st pending rest l j n Hi Hs Hm Hls Hrest Hnd Hl. simpl.
  destruct (mlfq_new_job i ls s st l j n Hi Hm Hls Hnd Hl)
    as (nw & qs & E & x & Hnw & Hq & Hok & Hlv & Hlast & Hperm & Hr).
  unfold schedulerMLFQScheduleJob. rewrite Hnw. cbn [deref mbind outcome_bind]. rewrite Hq.
  cbn [mbind outcome_bind]. rewrite Hlv, Hlast.
  destruct (m_running st) as [[r lvl]|] eqn:Hrun.
  - destruct Hr as (e & -> & Hre & Her & Hel). rewrite Hre. destruct lvl as [|lvl].
    + destruct (mq_elem _ _ _ _ _ _ Hok) as (Hw & _). cbn [get_wrapper]. rewrite Hw. simpl.
      rewrite Hel. simpl. exists (l :: ls). split_done. exists E, [e]. split_done. by exists e.
    + destruct (mq_length _ _ _ _ _ _ Hok Hperm) as [_ Hconc].
      assert (Hx : [Entry (ew e) (el e) (ej e) (elv e)] = [e]) by by destruct e.
      assert (Hlen : (length (concat E) <= n)%nat).
      { apply Permutation_length in Hperm. rewrite length_fmap, length_app in Hperm. simpl in Hperm. lia. }
      pose proof (arrive_running s i qs _ E e l j (l :: ls) pending rest n (simTime (sim s)) eq_refl
        ltac:(by rewrite Hx) ltac:(lia) Hre Hs Hm Hrest Hlen Hperm Hl) as Harr.
      rewrite Her, Hel in Harr. eapply refines_mono; [|exact Harr].
      intros [i' s'] [st' pending'] (? & ? & ?). exists (l :: ls). done.
  - destruct Hr as [Hre ->]. rewrite Hre.
    eapply refines_mono; [|by eapply schedule_next_ok].
    intros [i' s'] [st' pending'] Hres. destruct (Hres (l :: ls)) as (Hi' & Hs' & Hj' & Hsame).
    { by rewrite app_nil_r in Hperm. }
    exists (l :: ls). split_done. destruct Hsame as (E1 & E2 & E3). split; [done|split; [done|]].
    intros l' _. apply E3. apply not_elem_of_nil.
Qed.
Next Obligation.
  intros i ls s st rest n Hi Hs Hm Hls Hrest Hnd. simpl. unfold schedulerMLFQCompleteJob.
  pose proof Hi as (E & x & Hok & Hlv & Hlast & Hperm & Hr). rewrite Hlv, Hlast.
  destruct (mq_length _ _ _ _ _ _ Hok Hperm) as [_ Hconc].
  destruct (m_running st) as [[r lvl]|] eqn:Hrun.
  2:{ destruct Hr as [Hre ->]. rewrite Hre. cbn [mbind outcome_bind].
      assert (Hss : set_jobs s (jobs s) = s) by by destruct s. rewrite Hss.
      eapply refines_bind; [by eapply schedule_next_ok|].
      intros [i' s'] [st' pending'] Hres. destruct (Hres ls) as (Hi' & Hs' & Hj' & Hsame).
      { by rewrite app_nil_r in Hperm. }
      simpl. exists ls. split_done. destruct Hsame as (E1 & E2 & E3). split; [done|split; [done|]].
      intros l' _. apply E3. apply not_elem_of_nil. }
  destruct Hr as (e & -> & Hre & Her & Hel). rewrite Hre.
  destruct (mq_elem _ _ _ _ _ _ Hok) as (Hw & Hj & Hlt). cbn [get_wrapper]. rewrite Hw.
  cbn [mbind outcome_bind job level]. unfold jobGetRemainingTime, jobSetRemainingTime.
  rewrite (get_job_ok _ _ _ Hj). cbn [mbind outcome_bind deref]. rewrite Her in *.
  pose proof (job_ok_lookup _ _ _ _ _ Hs Hj) as Hju. pose proof Hju as (Hu1 & Hu2 & Hu3 & Hu4).
  assert (Hle : el e ∈ ls) by (rewrite Hperm, fmap_app; apply elem_of_app; right; by left).
  assert (Hsame0 : forall j' s', same_except [] (set_jobs s (<[el e := j']> (jobs s))) s' -> same_except ls s s').
  { intros j' s' (E1 & E2 & E3). simpl in *. split; [done|split].
    - rewrite E2, dom_insert_L. apply elem_of_dom_2 in Hj. set_solver.
    - intros l' Hl'. rewrite E3 by apply not_elem_of_nil. rewrite lookup_insert_ne; [done|]. intros Heq. apply Hl'. by rewrite <- Heq. }
  assert (Hso : forall r', u64 r' -> sched_ok (set_jobs s (<[el e := set_remaining r r']> (jobs s))) None rest).
  { intros r' Hr'. apply sched_ok_set_jobs; [done|]. apply map_Forall_insert_2; [|apply Hs].
    unfold job_ok, set_remaining. split_done. }
  destruct (Z.ltb_spec 1 (remainingTime r)) as [Hgt|Hle1].
  - rewrite (demote_level _ Hlt), Nat2Z.id, sub64_small by u64_lia. rewrite Hel.
    assert (Hd : (demote lvl < 10)%nat) by (unfold demote; lia).
    pose proof (mq_update _ _ _ _ _ _ (set_remaining r (remainingTime r - 1)) (demote lvl) Hok Hd) as Hok1.
    destruct (enqueue_ok _ _ _ _ _ _ n Hok1 Hm ltac:(lia)) as (qs & Hq & Hok2). simpl in Hq, Hok2.
    rewrite Hq. cbn [mbind outcome_bind]. unfold set_level. cbn [job].
    pose proof (map_add E (demote lvl) (Entry (ew e) (el e) (set_remaining r (remainingTime r - 1)) (demote lvl))) as Hma.
    cbn [ej] in Hma. rewrite <- Hma.
    eapply refines_bind.
    { apply (schedule_next_ok _ _ (set_jobs s (<[el e := set_remaining r (remainingTime r - 1)]> (jobs s))) _ None rest _ n);
        [exact Hok2|apply Hso; u64_lia|done|done]. }
    intros [i' s'] [st' pending'] Hres. destruct (Hres ls) as (Hi' & Hs' & Hj' & Hsame).
    { rewrite Hperm, !fmap_app, concat_add_perm by by rewrite (mq_len _ _ _ _ _ Hok).
      simpl. by rewrite Permutation_app_comm. }
    simpl. exists ls. split_done. by eapply Hsame0.
  - cbn [free_wrapper]. rewrite Hw. cbn [mbind outcome_bind].
    pose proof (mq_drop _ _ _ (<[el e := set_remaining r 0]> (jobs s)) _ _ _ Hok) as Hok1.
    eapply refines_bind.
    { apply (schedule_next_ok _ _ (set_jobs s (<[el e := set_remaining r 0]> (jobs s))) _ None rest _ n);
        [apply Hok1; intros; by rewrite lookup_insert_ne|apply Hso; u64_lia|done|done]. }
    intros [i' s'] [st' pending'] Hres. destruct (Hres (el <$> concat E)) as (Hi' & Hs' & Hj' & Hsame); [done|].
    simpl. exists (el <$> concat E). split_done.
    + by eapply Hsame0.
    + rewrite Hperm, fmap_app. simpl. by rewrite Permutation_app_comm.
    + rewrite Hj'. simpl. by rewrite lookup_insert_eq.
Qed.
End proofs.
