(* ===== verification/Trace.v ===== *)
(** * Running a trace

    [simulatorlab-FreezeKickerz/trace.c] over any scheduler table, and the run
    of a policy on the same trace: no event queue, no pointers, no list nodes.
    [traceRun_refines] states that the program does what the policy does,
    failed assertions included. *)

From Stdlib Require Import ZArith Lia.
From stdpp Require Import gmap list.
From S2P Require Import Prelude Dll SimList Simulator Scheduler.

(** ** The code *)

(** The trace file is the results of [fscanf]: [Some] of the three numbers id,
    arrival time and job time, [None] when they could not be read before the
    end of the file. *)
Definition scan : Type := option (Z * Z * Z).

Record trace_t (I : Type) := Trace {
  traceFile : list scan;
  outFile : list (Z * Z);
  info : I;
  scheduler : scheduler_t;
  currentJob : ptr
}.
Arguments Trace {I} traceFile outFile info scheduler currentJob.
Arguments traceFile {I} _.
Arguments outFile {I} _.
Arguments info {I} _.
Arguments scheduler {I} _.
Arguments currentJob {I} _.

Definition is_some_b {A} (o : option A) : bool := match o with Some _ => true | None => false end.

Section code.
Context `{Malloc} {I : Type} `{SchedulerOps I}.

Definition traceScheduleNextArrival (t : trace_t I) : outcome (trace_t I) :=
  match traceFile t with
  | [] => Done t
  | None :: _ => Fault AssertFailed
  | Some (id, arrivalTime, jobTime) :: file =>
      let '(job, js) := jobCreate (jobs (scheduler t)) arrivalTime jobTime id in
      _ ← c_assert (is_some_b job);
      a ← jobGetArrivalTime js job;
      '(eventRef, sim') ← simulatorSchedule (sim (scheduler t)) a EVENT_ARRIVAL ArrivalCallback;
      _ ← c_assert (is_some_b eventRef);
      Done (Trace file (outFile t) (info t)
              (Scheduler sim' js (completionEvent (scheduler t))) job)
  end.

Definition traceArrivalCallback (t : trace_t I) : outcome (trace_t I) :=
  job ← deref (currentJob t);
  '(i, s) ← schedulerScheduleJob (info t) (scheduler t) job;
  traceScheduleNextArrival (Trace (traceFile t) (outFile t) i s (currentJob t)).

Definition traceCompletionCallback (out : list (Z * Z)) (s : scheduler_t) (job : ptr)
    : outcome (list (Z * Z) * scheduler_t) :=
  id ← jobGetId (jobs s) job;
  js ← jobDestroy (jobs s) job;
  Done (out ++ [(id, simulatorSimTime (sim s))], set_jobs s js).

Definition run_callback (cb : event_callback) (t : trace_t I) : outcome (trace_t I) :=
  match cb with
  | ArrivalCallback => traceArrivalCallback t
  | CompleteJobCallback =>
      '(out, i, s) ← schedulerCompleteJob traceCompletionCallback (outFile t) (info t) (scheduler t);
      Done (Trace (traceFile t) out i s (currentJob t))
  end.

Definition trace_sim (t : trace_t I) : simulator_t := sim (scheduler t).
Definition trace_set_sim (t : trace_t I) (sm : simulator_t) : trace_t I :=
  Trace (traceFile t) (outFile t) (info t)
    (Scheduler sm (jobs (scheduler t)) (completionEvent (scheduler t))) (currentJob t).

(** [schedulerCreate] once the name has selected the table. *)
Definition schedulerCreate_with (live : gset loc) (sm : simulator_t) : option (I * scheduler_t) :=
  match malloc live with
  | None => None
  | Some l => match create ({[l]} ∪ live) with
              | None => None
              | Some i => Some (i, Scheduler sm ∅ None)
              end
  end.

(** From the creation of the simulator to the first event; [live] is the trace
    object. *)
Definition trace_start (live : gset loc) (file : list scan) : outcome (option (trace_t I)) :=
  match simulatorCreate live with
  | None => Done None
  | Some sm =>
      match schedulerCreate_with live sm with
      | None => Done None
      | Some (i, s) => t ← traceScheduleNextArrival (Trace file [] i s None); Done (Some t)
      end
  end.

(** From the creation of the simulator; [live] is the trace object. *)
Definition traceRun_with (fuel : nat) (live : gset loc) (file : list scan)
    : outcome (bool * list (Z * Z)) :=
  match simulatorCreate live with
  | None => Done (false, [])
  | Some sm =>
      match schedulerCreate_with live sm with
      | None => _ ← simulatorDestroy fuel sm; Done (false, [])
      | Some (i, s) =>
          t ← traceScheduleNextArrival (Trace file [] i s None);
          t ← simulatorRun trace_sim trace_set_sim run_callback fuel t;
          s ← schedulerDestroy (info t) (scheduler t);
          _ ← simulatorDestroy fuel (sim s);
          Done (true, outFile t)
      end
  end.

(** What [traceRun_with] does after the start. *)
Lemma traceRun_with_start fuel live file t :
  trace_start live file = Done (Some t) ->
  traceRun_with fuel live file =
    (t ← simulatorRun trace_sim trace_set_sim run_callback fuel t;
     s ← schedulerDestroy (info t) (scheduler t);
     _ ← simulatorDestroy fuel (sim s);
     Done (true, outFile t)).
Proof.
  unfold trace_start, traceRun_with. destruct (simulatorCreate live) as [sm|]; [|done].
  destruct (schedulerCreate_with live sm) as [[i s]|]; [|done]. by intros (t1 & -> & [= ->])%bind_Done.
Qed.
End code.

(** ** The run of a policy *)

Section spec.
Context (P : policy).

Record spec_state := Spec {
  sp_pending : option Z;
  sp_next : option job_t;
  sp_input : list scan;
  sp_st : p_state P;
  sp_out : list (Z * Z)
}.

Definition spec_arrival (now : Z) (input : list scan) : outcome (option job_t * list scan) :=
  match input with
  | [] => Done (None, [])
  | None :: _ => Fault AssertFailed
  | Some (id, a, d) :: input => _ ← c_assert (now <=? a); Done (Some (Job a d d id), input)
  end.

Definition log_completion (out : list (Z * Z)) (now : Z) (finished : option job_t) : list (Z * Z) :=
  match finished with Some j => out ++ [(id j, now)] | None => out end.

Definition spec_complete (t : Z) (s : spec_state) : outcome spec_state :=
  '(st, pending, finished) ← p_complete P t (sp_st s);
  Done (Spec pending (sp_next s) (sp_input s) st (log_completion (sp_out s) t finished)).

Definition spec_arrive (j : job_t) (s : spec_state) : outcome spec_state :=
  '(st, pending) ← p_arrive P (arrivalTime j) (sp_pending s) j (sp_st s);
  '(next, input) ← spec_arrival (arrivalTime j) (sp_input s);
  Done (Spec pending next input st (sp_out s)).

(** The next step: the completion first when both are due. *)
Definition spec_step (s : spec_state) : option (outcome spec_state) :=
  match sp_pending s, sp_next s with
  | None, None => None
  | Some t, None => Some (spec_complete t s)
  | None, Some j => Some (spec_arrive j s)
  | Some t, Some j =>
      Some (if t <=? arrivalTime j then spec_complete t s else spec_arrive j s)
  end.

Fixpoint spec_loop (fuel : nat) (s : spec_state) : outcome spec_state :=
  match spec_step s with
  | None => Done s
  | Some m => match fuel with O => Fault Diverges | S fuel => s ← m; spec_loop fuel s end
  end.

Definition spec_run (fuel : nat) (input : list scan) : outcome (list (Z * Z)) :=
  '(next, input) ← spec_arrival 0 input;
  s ← spec_loop fuel (Spec None next input (p_init P) []);
  Done (sp_out s).
End spec.
Arguments Spec {P}.
Arguments sp_pending {P}.
Arguments sp_next {P}.
Arguments sp_input {P}.
Arguments sp_st {P}.
Arguments sp_out {P}.

(** ** The simulation *)

Definition scan_ok (x : scan) : Prop :=
  match x with Some (i, a, d) => u64 i /\ u64 a /\ u64 d | None => True end.

(** The job that arrives next: its event, and its place in the store. *)
Definition next_event (next : option job_t) (kn : loc * Z) : list (loc * event_t) :=
  match next with
  | Some j => [(kn.1, Event (arrivalTime j) EVENT_ARRIVAL kn.2 ArrivalCallback)]
  | None => []
  end.

Definition next_job (js : gmap loc job_t) (cur : ptr) (ls : list loc) (next : option job_t) : Prop :=
  match next with
  | Some j => exists l, cur = Some l /\ js !! l = Some j /\ l ∉ ls
  | None => True
  end.

Section simulation.
Context `{Malloc} {I : Type} {P : policy} {Iops : SchedulerOps I} {Laws : SchedulerLaws I P}.
Context (n : nat) (Hroom : malloc_room_for n) (Hn : (3 <= n)%nat).
Implicit Types (t : trace_t I) (sp : spec_state P) (ls : list loc) (rest : list (loc * event_t)).

Record trace_ok (t : trace_t I) (sp : spec_state P) (rest : list (loc * event_t)) (ls : list loc) : Prop := {
  to_in : traceFile t = sp_input sp;
  to_out : outFile t = sp_out sp;
  to_sched : sched_ok (scheduler t) (sp_pending sp) rest;
  to_info : info_ok (info t) ls (jobs (scheduler t)) (sp_st sp);
  to_nodup : NoDup ls;
  to_dom : forall l, l ∈ ls -> l ∈ dom (jobs (scheduler t));
  to_next : next_job (jobs (scheduler t)) (currentJob t) ls (sp_next sp);
  to_scans : Forall scan_ok (sp_input sp);
  to_size : (size (jobs (scheduler t)) + length (sp_input sp) <= n)%nat
}.

Lemma pending_ok_perm s pending rest rest' :
  rest ≡ₚ rest' -> sched_ok s pending rest -> sched_ok s pending rest'.
Proof.
  intros Hp [Hs ? ?]. split; [|done..]. unfold pending_ok in *. repeat case_match; try done.
  - destruct Hs as (? & i & Hq). split; [done|]. exists i. eapply queue_ok_perm; [|done]. by constructor.
  - by eapply queue_ok_perm.
Qed.

(** Removing the event whose callback ran. *)
Lemma pending_remove s pending k e rest :
  sched_ok s pending ((k, e) :: rest) ->
  exists q, list_remove (queue (sim s)) (Some k) = Done q /\
    sched_ok (Scheduler (set_queue (sim s) q) (jobs s) (completionEvent s)) pending rest.
Proof.
  intros [Hs Ht Hj]. unfold pending_ok in Hs.
  destruct (completionEvent s) as [kc|] eqn:Hc, pending as [t|]; try done.
  - destruct Hs as (? & i & Hq). eapply queue_ok_perm in Hq; [|apply Permutation_swap].
    destruct (queue_remove_ok _ _ _ _ Hq) as (q & Hr & Hq'). exists q. split; [done|].
    split; [|done..]. split; [done|]. by exists i.
  - destruct (queue_remove_ok _ _ _ _ Hs) as (q & Hr & Hq'). exists q. split; [done|]. by split.
Qed.

(** Scheduling an arrival leaves the completion event in place. *)
Lemma schedule_arrival s pending rest a js :
  sched_ok s pending rest -> (S (length rest) <= n)%nat -> map_Forall (fun _ j => job_ok j) js ->
  refines (fun '(ev, sim') _ => exists k i, ev = Some k /\
      sched_ok (Scheduler sim' js (completionEvent s)) pending
        ((k, Event a EVENT_ARRIVAL i ArrivalCallback) :: rest) /\ simTime sim' = simTime (sim s))
    (simulatorSchedule (sim s) a EVENT_ARRIVAL ArrivalCallback)
    (c_assert (simTime (sim s) <=? a)).
Proof.
  intros [Hs Ht Hj] Hlen Hjs. destruct (Z.leb_spec (simTime (sim s)) a) as [Hle|Hgt]; cbn [c_assert].
  2:{ unfold simulatorSchedule, simulatorSimTime. by rewrite (proj2 (Z.leb_gt _ _)). }
  assert (exists evs, queue_ok (sim s) evs /\ (length evs <= n)%nat /\
    forall k i sim', queue_ok sim' ((k, Event a EVENT_ARRIVAL i ArrivalCallback) :: evs) ->
      pending_ok (Scheduler sim' js (completionEvent s)) pending
        ((k, Event a EVENT_ARRIVAL i ArrivalCallback) :: rest)) as (evs & Hq & Hle2 & Hback).
  { unfold pending_ok in *. simpl. destruct (completionEvent s) as [kc|], pending as [t|]; try done.
    - destruct Hs as (? & i & Hq). eexists. split; [exact Hq|]. split; [done|].
      intros k i' sim' Hq'. split; [done|]. exists i. eapply queue_ok_perm; [apply Permutation_swap|done].
    - exists rest. split_done. lia. }
  destruct (simulatorSchedule_ok (sim s) evs a EVENT_ARRIVAL ArrivalCallback Hq) as (k & sim' & -> & Hk & Ht' & Hq');
    [intros X HX; apply Hroom; lia|done|].
  simpl. exists k, (sim_id (sim s)). split_done. split; simpl; [by apply Hback|by rewrite Ht'|done].
Qed.

Lemma next_arrival_ok t sp rest ls :
  trace_ok t sp rest ls -> sp_next sp = None -> (length rest <= 1)%nat ->
  refines (fun t' '(next, input) => exists kn,
      trace_ok t' (Spec (sp_pending sp) next input (sp_st sp) (sp_out sp)) (next_event next kn ++ rest) ls /\
      simTime (trace_sim t') = simTime (trace_sim t))
    (traceScheduleNextArrival t) (spec_arrival (simTime (trace_sim t)) (sp_input sp)).
Proof.
  intros [Hin Hout Hs Hi Hnd Hdom Hnext Hscan Hsize] Hnn Hrest. unfold traceScheduleNextArrival. rewrite Hin.
  unfold spec_arrival. destruct sp as [pending nx input st out]; simpl in *.
  destruct input as [|[[[i a] d]|] input]; simpl; [exists (1%positive, 0); by split_done| |done].
  unfold jobCreate. destruct (Hroom (dom (jobs (scheduler t)))) as [l Hl]; [rewrite size_dom; lia|].
  rewrite Hl. apply malloc_fresh in Hl as Hfresh. cbn [is_some_b c_assert mbind outcome_bind].
  unfold jobGetArrivalTime. erewrite get_job_ok by apply lookup_insert_eq.
  cbn [mbind outcome_bind arrivalTime].
  apply Forall_cons in Hscan as [Hj Hscan']. simpl in Hj. destruct Hj as (Hid & Ha & Hd).
  assert (Hjobs : map_Forall (fun _ j => job_ok j) (<[l:=Job a d d i]> (jobs (scheduler t)))).
  { apply map_Forall_insert_2; [by split_done|]. apply Hs. }
  eapply refines_bind.
  { eapply (schedule_arrival (scheduler t) pending rest a); [done|lia|exact Hjobs]. }
  intros [ev sim'] _ (k & i' & -> & Hs' & Ht'). simpl. exists (k, i'). split; [|done].
  split; simpl; try done.
  - eapply info_frame; [|exact Hi]. intros l' Hl'. rewrite lookup_insert_ne; [done|].
    intros ->. by apply Hfresh, Hdom.
  - intros l' Hl'. rewrite dom_insert_L. set_solver.
  - exists l. rewrite lookup_insert_eq. split_done. intros Hin'. by apply Hfresh, Hdom.
  - rewrite map_size_insert_None by by apply not_elem_of_dom. simpl in Hsize. lia.
Qed.

Definition now_of (t : trace_t I) : Z := simTime (trace_sim t).

(** The simulator sets its time before the callback. *)
Definition at_time (t : trace_t I) (now : Z) : trace_t I :=
  trace_set_sim t (Sim (queue (trace_sim t)) now (sim_id (trace_sim t))).

Lemma sched_ok_time s pending rest now id :
  sched_ok s pending rest -> u64 now ->
  sched_ok (Scheduler (Sim (queue (sim s)) now id) (jobs s) (completionEvent s)) pending rest.
Proof.
  intros [Hs ? ?] ?. split; [|done..]. unfold pending_ok in *. simpl in *. repeat case_match; try done.
Qed.

(** The arrival of the next job. *)
Lemma arrival_ok t sp ls j kn :
  trace_ok t sp (next_event (sp_next sp) kn) ls -> sp_next sp = Some j ->
  refines (fun t' sp' => exists ls' kn',
      trace_ok t' sp' (next_event (sp_next sp') kn' ++ next_event (Some j) kn) ls')
    (traceArrivalCallback (at_time t (arrivalTime j))) (spec_arrive P j sp).
Proof.
  intros [Hin Hout Hs Hi Hnd Hdom Hnext Hscan Hsize] Hnn. rewrite Hnn in *.
  destruct Hnext as (l & Hcur & Hl & Hfresh). unfold traceArrivalCallback, at_time, trace_set_sim.
  cbn [currentJob]. rewrite Hcur. cbn [deref mbind outcome_bind].
  unfold schedulerScheduleJob, spec_arrive. cbn [scheduler sim info simulatorSimTime simTime].
  assert (Hu : u64 (arrivalTime j)) by (eapply job_ok_lookup in Hl; [|done]; apply Hl).
  assert (Hlen : (S (length ls) <= size (jobs (scheduler t)))%nat).
  { rewrite <- size_dom. change (S (length ls)) with (length (l :: ls)).
    rewrite <- (size_list_to_set (C := gset positive) (l :: ls)) by by constructor.
    apply subseteq_size. intros x. rewrite elem_of_list_to_set, elem_of_cons.
    intros [->|Hx]; [by apply elem_of_dom_2 in Hl|by apply Hdom]. }
  set (s0 := Scheduler _ _ _).
  assert (Hs0 : sched_ok s0 (sp_pending sp) (next_event (Some j) kn)) by by apply sched_ok_time.
  eapply refines_bind.
  { apply (scheduleJob_ok (info t) ls s0 (sp_st sp) (sp_pending sp) (next_event (Some j) kn) l j n); try done; simpl; [lia|lia|].
    by constructor. }
  intros [i' s'] [st' pending'] (ls' & Hp & Hi' & Hs' & Htime & Hd' & Hsame). simpl in Htime.
  assert (Htr : trace_ok (Trace (traceFile t) (outFile t) i' s' (currentJob t))
            (Spec pending' None (sp_input sp) st' (sp_out sp)) (next_event (Some j) kn) ls').
  { split; simpl; try done.
    - rewrite Hp. by constructor.
    - intros x. rewrite Hd', Hp, elem_of_cons. simpl. intros [->|Hx]; [by apply elem_of_dom_2 in Hl|by apply Hdom].
    - rewrite <- size_dom, Hd'. simpl. rewrite size_dom. lia. }
  eapply refines_bind_r.
  { pose proof (next_arrival_ok _ _ _ _ Htr eq_refl ltac:(done)) as Hna.
    unfold trace_sim in Hna. cbn [scheduler sp_input sp_pending sp_st sp_out] in Hna.
    rewrite Htime, Hcur in Hna. exact Hna. }
  intros t' [next input] (kn' & Hok & _). simpl. exists ls', kn'. exact Hok.
Qed.

(** The completion of a job. *)
Lemma completion_ok t sp ls now kn x :
  trace_ok t sp (x :: next_event (sp_next sp) kn) ls -> sp_pending sp = None -> u64 now ->
  completionEvent (scheduler t) = None ->
  refines (fun t' sp' => exists ls', sp_next sp' = sp_next sp /\
      trace_ok t' sp' (x :: next_event (sp_next sp') kn) ls')
    (run_callback CompleteJobCallback (at_time t now)) (spec_complete P now sp).
Proof.
  intros [Hin Hout Hs Hi Hnd Hdom Hnext Hscan Hsize] Hpend Hnow Hce. rewrite Hpend in *.
  unfold run_callback, at_time, trace_set_sim, schedulerCompleteJob, spec_complete.
  cbn [scheduler sim jobs info outFile traceFile currentJob simulatorSimTime simTime].
  assert (Hlen : (length ls <= size (jobs (scheduler t)))%nat).
  { rewrite <- size_dom, <- (size_list_to_set (C := gset positive) ls) by done.
    apply subseteq_size. intros y. rewrite elem_of_list_to_set. apply Hdom. }
  rewrite bind_assoc. set (s0 := Scheduler _ _ None).
  assert (Hs0 : sched_ok s0 None (x :: next_event (sp_next sp) kn)).
  { unfold s0. rewrite <- Hce. by apply sched_ok_time. }
  eapply refines_bind.
  { apply (completeJob_ok (info t) ls s0 (sp_st sp) (x :: next_event (sp_next sp) kn) n); try done; [lia|].
    unfold next_event. case_match; simpl; lia. }
  intros [[i' s'] job] [[st' pending'] fin] (ls' & Hi' & Hs' & (Htime & Hd' & Hsame) & Hfin).
  simpl in Htime, Hd'.
  assert (Hnx : forall js', (forall l, l ∉ ls -> js' !! l = jobs s' !! l) ->
            next_job js' (currentJob t) ls' (sp_next sp)).
  { intros js' Hjs'. unfold next_job in *. destruct (sp_next sp) as [jn|]; [|exact Logic.I]. destruct Hnext as (l & Hc & Hl & Hfr).
    exists l. split_done.
    - rewrite Hjs', Hsame by done. done.
    - intros Hl'. apply Hfr. destruct job, fin; try done; [|by rewrite Hfin].
      destruct Hfin as [-> _]. by right. }
  destruct job as [lf|], fin as [jf|]; try done.
  - destruct Hfin as [Hp Hlf]. rewrite Hp in Hnd. apply NoDup_cons in Hnd as [Hlf' Hnd].
    unfold traceCompletionCallback, jobGetId, jobDestroy. simpl. rewrite Hlf. simpl.
    exists ls'. split; [done|]. split; simpl; try done.
    + by unfold simulatorSimTime; rewrite Hout, Htime.
    + apply sched_ok_set_jobs; [done|]. apply map_Forall_delete, Hs'.
    + eapply info_frame; [|exact Hi']. intros l Hl. rewrite lookup_delete_ne; [done|]. by intros ->.
    + intros l Hl. rewrite dom_delete_L, Hd'. apply elem_of_difference. split.
      * apply Hdom. rewrite Hp. by right.
      * intros ->%elem_of_singleton. done.
    + apply Hnx. intros l Hl. rewrite lookup_delete_ne; [done|]. intros ->. apply Hl. rewrite Hp. by left.
    + rewrite <- size_dom, dom_delete_L, Hd'.
      pose proof (subseteq_size (dom (jobs (scheduler t)) ∖ {[lf]}) (dom (jobs (scheduler t))) ltac:(set_solver)) as Hsub.
      rewrite (size_dom (jobs (scheduler t))) in Hsub. lia.
  - simpl. exists ls'. split; [done|]. split; simpl; try done.
    + by rewrite <- Hfin.
    + intros l. rewrite Hd', <- Hfin. apply Hdom.
    + by apply Hnx.
    + rewrite <- size_dom, Hd', size_dom. lia.
Qed.

Lemma trace_remove t sp k e rest ls :
  trace_ok t sp ((k, e) :: rest) ls ->
  exists q, list_remove (queue (trace_sim t)) (Some k) = Done q /\
    trace_ok (trace_set_sim t (set_queue (trace_sim t) q)) sp rest ls.
Proof.
  intros [Hin Hout Hs Hi Hnd Hdom Hnext Hscan Hsize].
  destruct (pending_remove _ _ _ _ _ Hs) as (q & Hr & Hs'). exists q. split; [done|]. by split.
Qed.

Lemma trace_ok_perm t sp rest rest' ls :
  rest ≡ₚ rest' -> trace_ok t sp rest ls -> trace_ok t sp rest' ls.
Proof. intros Hp []. split; try done. by eapply pending_ok_perm. Qed.

(** The events in the queue, the completion and the arrival. *)
Definition queue_events (pending : option Z) (kc : loc * Z) (rest : list (loc * event_t)) :=
  match pending with
  | Some t => (kc.1, Event t EVENT_COMPLETION kc.2 CompleteJobCallback) :: rest
  | None => rest
  end.

Lemma trace_events t sp rest ls :
  trace_ok t sp rest ls -> exists kc, queue_ok (trace_sim t) (queue_events (sp_pending sp) kc rest).
Proof.
  intros [_ _ [Hs _ _] _ _ _ _ _ _]. unfold pending_ok in Hs. repeat case_match; try done.
  - destruct Hs as (_ & i & Hq). by eexists (_, i).
  - by exists (1%positive, 0).
Qed.

(** The head of the queue is the event the policy handles next. *)
Lemma queue_head_step t sp kc kn :
  queue_ok (trace_sim t) (queue_events (sp_pending sp) kc (next_event (sp_next sp) kn)) ->
  match spec_step P sp with
  | None => list_count (queue (trace_sim t)) = 0
  | Some m => 0 < list_count (queue (trace_sim t)) /\
      exists l k e, queue (trace_sim t) = Some l /\ list_head (queue (trace_sim t)) = Some k /\
      list_data l (Some k) = Done (Some e) /\
      ((exists now, sp_pending sp = Some now /\ m = spec_complete P now sp /\
         k = kc.1 /\ e = Event now EVENT_COMPLETION kc.2 CompleteJobCallback) \/
       (exists j, sp_next sp = Some j /\ m = spec_arrive P j sp /\
         k = kn.1 /\ e = Event (arrivalTime j) EVENT_ARRIVAL kn.2 ArrivalCallback))
  end.
Proof.
  intros Hq. rewrite (queue_ok_count _ _ Hq). unfold spec_step.
  destruct (sp_pending sp) as [now|] eqn:Hp, (sp_next sp) as [j|] eqn:Hj; simpl in *; [| | |done];
    (split; [lia|]);
    destruct (queue_head_ok _ _ Hq) as (k & e & evs & l & Hperm & Hl & Hh & Hd & Hmin); try done;
    exists l, k, e; split_done.
  - apply Permutation_length_2_inv in Hperm as [[= -> -> ->]|[= -> -> ->]];
      apply Forall_cons in Hmin as [Hmin _]; unfold ev_le, simulatorEventCompare in Hmin; simpl in Hmin.
    + left. exists now. split_done. f_equal. rewrite (proj2 (Z.leb_le _ _)); [done|].
      repeat case_match; lia.
    + right. exists j. split_done. f_equal. rewrite (proj2 (Z.leb_gt _ _)); [done|].
      repeat case_match; lia.
  - apply Permutation_length_1_inv in Hperm. simplify_eq. left. eauto.
  - apply Permutation_length_1_inv in Hperm. simplify_eq. right. eauto.
Qed.

Lemma run_step t sp kn ls m :
  trace_ok t sp (next_event (sp_next sp) kn) ls -> spec_step P sp = Some m ->
  (0 <? list_count (queue (trace_sim t))) = true /\
  refines (fun t' sp' => exists kn' ls', trace_ok t' sp' (next_event (sp_next sp') kn') ls')
    (simulator_event trace_sim trace_set_sim run_callback t) m.
Proof.
  intros Hok Hm. destruct (trace_events _ _ _ _ Hok) as [kc Hq].
  pose proof (queue_head_step _ _ _ _ Hq) as Hstep. rewrite Hm in Hstep.
  destruct Hstep as (Hc & l & k & e & Hl & Hh & Hd & Hcase). split; [by apply Z.ltb_lt|].
  assert (Hcb : refines (fun t' sp' => exists q kn' ls',
        list_remove (queue (trace_sim t')) (Some k) = Done q /\
        trace_ok (trace_set_sim t' (set_queue (trace_sim t') q)) sp' (next_event (sp_next sp') kn') ls')
      (run_callback (callback e) (at_time t (timestamp e))) m).
  2:{ unfold simulator_event. rewrite Hh. rewrite Hl at 1. cbn [deref mbind outcome_bind]. rewrite Hd. cbn [deref mbind outcome_bind].
      destruct (run_callback (callback e) (at_time t (timestamp e))) as [t'|] eqn:E, m as [sp'|]; try done;
        unfold at_time in E; rewrite E; cbn [mbind outcome_bind]; [|done].
      destruct Hcb as (q & kn' & ls' & -> & Hok'). cbn [mbind outcome_bind refines]. by exists kn', ls'. }
  clear Hc.
  destruct Hcase as [(now & Hp & -> & -> & ->)|(j & Hj & -> & -> & ->)]; cbn [callback timestamp].
  - destruct Hok as [Hin Hout [Hs Ht Hjs] Hi Hnd Hdom Hnext Hscan Hsize].
    rewrite Hp in *. unfold pending_ok in Hs.
    destruct (completionEvent (scheduler t)) as [k0|] eqn:Hce; [|done]. destruct Hs as (Hu & i & Hq').
    set (t0 := Trace (traceFile t) (outFile t) (info t)
                 (Scheduler (trace_sim t) (jobs (scheduler t)) None) (currentJob t)).
    set (sp0 := Spec None (sp_next sp) (sp_input sp) (sp_st sp) (sp_out sp)).
    assert (H0 : trace_ok t0 sp0
      ((kc.1, Event now EVENT_COMPLETION kc.2 CompleteJobCallback) :: next_event (sp_next sp) kn) ls).
    { by split. }
    eapply refines_mono; [|exact (completion_ok t0 sp0 ls now kn _ H0 eq_refl Hu eq_refl)].
    intros t' sp' (ls' & Hnn & Hok'). destruct (trace_remove _ _ _ _ _ _ Hok') as (q & Hr & Hok'').
    exists q, kn, ls'. done.
  - eapply refines_mono; [|exact (arrival_ok t sp ls j kn Hok Hj)].
    intros t' sp' (ls' & kn' & Hok').
    eapply trace_ok_perm in Hok'; [|rewrite Permutation_app_comm; reflexivity].
    destruct (trace_remove _ _ _ _ _ _ Hok') as (q & Hr & Hok''). by exists q, kn', ls'.
Qed.

Lemma run_ok fuel t sp kn ls :
  trace_ok t sp (next_event (sp_next sp) kn) ls ->
  refines (fun t' sp' => exists ls', trace_ok t' sp' [] ls' /\ completionEvent (scheduler t') = None /\
             list_count (queue (trace_sim t')) = 0)
    (simulatorRun trace_sim trace_set_sim run_callback fuel t) (spec_loop P fuel sp).
Proof.
  revert t sp kn ls. induction fuel as [|fuel IH]; intros t sp kn ls Hok;
    destruct (trace_events _ _ _ _ Hok) as [kc Hq]; pose proof (queue_head_step _ _ _ _ Hq) as Hstep;
    simpl; destruct (spec_step P sp) as [m|] eqn:Hm.
  1,3: destruct Hstep as [Hc _]; rewrite (proj2 (Z.ltb_lt _ _)) by done.
  3,4: rewrite Hstep; simpl; exists ls; unfold spec_step in Hm;
    destruct (sp_pending sp) eqn:Hp, (sp_next sp) eqn:Hn'; try done; split_done;
    destruct Hok as [_ _ [Hs _ _] _ _ _ _ _ _]; unfold pending_ok in Hs; rewrite Hp in Hs;
    by destruct (completionEvent _).
  - done.
  - destruct (run_step _ _ _ _ _ Hok Hm) as [_ Href]. eapply refines_bind; [exact Href|].
    intros t' sp' (kn' & ls' & Hok'). by eapply IH.
Qed.

Lemma simulatorDestroy_empty fuel sm l :
  queue sm = Some l -> list_ok l [] -> simulatorDestroy fuel sm = Done ∅.
Proof.
  intros Hq Hok. destruct fuel as [|fuel]; cbn [simulatorDestroy]; rewrite Hq, (sim_count_ok _ _ Hok); simpl;
    apply (holds_destroy (compare l) (Some l) []); by exists l, [].
Qed.

(** The program is at its first event as the policy is. *)
Lemma trace_start_ok live file :
  (size live + 2 <= n)%nat -> (length file <= n)%nat -> Forall scan_ok file ->
  refines (fun r '(next, input) => exists t kn, r = Some t /\
      trace_ok t (Spec None next input (p_init P) []) (next_event next kn) [])
    (trace_start (I := I) live file) (spec_arrival 0 file).
Proof.
  intros Hlive Hlen Hscan. unfold trace_start.
  destruct (simulatorCreate live) as [sm|] eqn:Hsm.
  2:{ unfold simulatorCreate in Hsm. destruct (Hroom live) as [l Hl]; [lia|]. rewrite Hl in Hsm.
      destruct (Hroom ({[l]} ∪ live)) as [l' Hl']; [rewrite size_union_alt, size_singleton;
        pose proof (subseteq_size (live ∖ {[l]}) live ltac:(set_solver)); lia|].
      unfold list_create in Hsm. by rewrite Hl' in Hsm. }
  destruct (simulatorCreate_ok _ _ Hsm) as [Hq Ht]. unfold schedulerCreate_with.
  destruct (Hroom live) as [l Hl]; [lia|]. rewrite Hl.
  destruct (create_ok (I := I) ({[l]} ∪ live) n Hroom) as (i & -> & Hi).
  { rewrite size_union_alt, size_singleton.
    pose proof (subseteq_size (live ∖ {[l]}) live ltac:(set_solver)). lia. }
  assert (H0 : trace_ok (Trace file [] i (Scheduler sm ∅ None) None) (Spec None None file (p_init P) []) [] []).
  { split; simpl; try done; [|constructor|set_solver]. split; simpl; [done|by rewrite Ht|].
    apply map_Forall_empty. }
  pose proof (next_arrival_ok _ _ _ _ H0 eq_refl ltac:(simpl; lia)) as Hna.
  unfold trace_sim in Hna. cbn [scheduler sp_input sp_pending sp_st sp_out sim] in Hna. rewrite Ht in Hna.
  destruct (traceScheduleNextArrival _) as [t|], (spec_arrival 0 file) as [[next input]|]; try done.
  destruct Hna as (kn & Hok & _). rewrite app_nil_r in Hok. by exists t, kn.
Qed.

(** The program on a trace does what its policy does. *)
Lemma traceRun_with_refines fuel live file :
  (size live + 2 <= n)%nat -> (length file <= n)%nat -> Forall scan_ok file ->
  refines (fun '(ok, out) out' => ok = true /\ out = out')
    (traceRun_with (I := I) fuel live file) (spec_run P fuel file).
Proof.
  intros Hlive Hlen Hscan. pose proof (trace_start_ok live file Hlive Hlen Hscan) as Hstart. unfold spec_run.
  destruct (trace_start live file) as [t0|f] eqn:E, (spec_arrival 0 file) as [[next input]|f']; cbn [refines] in Hstart; try done.
  2:{ subst f'. cbn [mbind outcome_bind]. unfold trace_start in E. unfold traceRun_with.
      destruct (simulatorCreate live) as [sm|]; [|done]. destruct (schedulerCreate_with live sm) as [[i s]|]; [|done].
      destruct (traceScheduleNextArrival _) as [t|f']; [done|]. cbn in E |- *. congruence. }
  destruct Hstart as (t & kn & -> & Hok). rewrite (traceRun_with_start _ _ _ _ E). cbn [mbind outcome_bind].
  eapply refines_bind; [by apply (run_ok fuel _ _ kn [])|].
  intros t' sp' (ls' & Hok' & Hce & Hcount). unfold schedulerDestroy. rewrite Hce.
  cbn [mbind outcome_bind]. rewrite (destroy_ok _ _ _ _ (to_info _ _ _ _ Hok')).
  cbn [mbind outcome_bind]. destruct (trace_events _ _ _ _ Hok') as [kc (l' & ns & Hl' & Hlok & _ & Hp & _)].
  unfold trace_sim in *. rewrite Hl', (sim_count_ok _ _ Hlok) in Hcount. destruct ns; [|simpl in Hcount; lia].
  rewrite (simulatorDestroy_empty _ _ _ Hl' Hlok). simpl. split; [done|]. apply Hok'.
Qed.
End simulation.
