(* ===== verification/Simulation.v ===== *)
(** * What the simulated schedulers do

    [traceRun] with the scheduler selected by name, its refinement to the
    policies, and the properties of whole runs: FCFS completion times, every job
    completing exactly once under all four schedulers, the choice of SJF, and
    the levels of MLFQ. *)

From Stdlib Require Import ZArith Lia String.
From stdpp Require Import gmap list strings.
From S2P Require Import Prelude Dll SimList Simulator Scheduler Schedulers Mlfq Trace.
Open Scope Z_scope.

(** ** The program *)

Section code.
Context `{Malloc}.

(** [traceFilename] and [outFilename] matter by whether they open. *)
Definition traceRun (fuel : nat) (traceFile : option (list scan)) (outOpens : bool)
    (schedulerName : string) : outcome (bool * list (Z * Z)) :=
  match malloc ∅ with
  | None => Done (false, [])
  | Some trace =>
      match traceFile with
      | None => Done (false, [])
      | Some file =>
          if negb outOpens then Done (false, [])
          else if String.eqb schedulerName "FCFS" then
            traceRun_with (I := scheduler_FCFS_t) fuel {[trace]} file
          else if String.eqb schedulerName "LCFS" then
            traceRun_with (I := scheduler_LCFS_t) fuel {[trace]} file
          else if String.eqb schedulerName "SJF" then
            traceRun_with (I := scheduler_SJF_t) fuel {[trace]} file
          else if String.eqb schedulerName "MLFQ" then
            traceRun_with (I := scheduler_MLFQ_t) fuel {[trace]} file
          else
            match simulatorCreate {[trace]} with
            | None => Done (false, [])
            | Some sm => _ ← simulatorDestroy fuel sm; Done (false, [])
            end
      end
  end.
End code.

(** ** Runs of a policy to the end

    [PolicyLive]: the jobs a policy holds ([pool]), the time it still needs
    after the pending completion, and how many completions are left. *)

Definition fresh_job (j : job_t) : Prop :=
  u64 (jobTime j) /\ remainingTime j = jobTime j /\ u64 (id j) /\ id j <> u64_max.

Definition cost (j : job_t) : nat := Z.to_nat (Z.max 1 (jobTime j)).

Class PolicyLive (P : policy) := {
  live_ok : Z -> p_state P -> option Z -> Prop;
  pool : p_state P -> list job_t;
  after_pending : p_state P -> Z;
  events_left : p_state P -> nat;
  due (now : Z) (st : p_state P) (pending : option Z) : Z :=
    match pending with Some t => t + after_pending st | None => now end;
  live_init : live_ok 0 (p_init P) None /\ pool (p_init P) = [] /\ events_left (p_init P) = O;
  live_idle now st : live_ok now st None -> pool st = [];
  live_due now st t : live_ok now st (Some t) -> now <= t /\ 0 <= after_pending st;
  live_arrive now a st pending j :
    live_ok now st pending -> now <= a -> (forall t, pending = Some t -> a < t) ->
    fresh_job j -> due a st pending + jobTime j < w64 ->
    exists st' pending', p_arrive P a pending j st = Done (st', pending') /\ live_ok a st' pending' /\
      (id <$> pool st') ≡ₚ id j :: (id <$> pool st) /\
      due a st' pending' <= due a st pending + jobTime j /\
      (events_left st' <= events_left st + cost j)%nat;
  live_complete now st t :
    live_ok now st (Some t) -> due now st (Some t) < w64 ->
    exists st' pending' fin, p_complete P t st = Done (st', pending', fin) /\ live_ok t st' pending' /\
      (id <$> pool st) ≡ₚ (id <$> option_list fin) ++ (id <$> pool st') /\
      due t st' pending' <= due now st (Some t) /\ (events_left st' < events_left st)%nat
}.

(** The end of the work of a trace when the processor is never idle while there
    is work, from time [D] on. *)
Fixpoint finish (D : Z) (recs : list (Z * Z * Z)) : Z :=
  match recs with [] => D | (_, a, d) :: recs => finish (Z.max D a + d) recs end.

(** Records in order of arrival, with values that fit. *)
Fixpoint records_ok (now : Z) (recs : list (Z * Z * Z)) : Prop :=
  match recs with
  | [] => True
  | (i, a, d) :: recs => now <= a /\ u64 a /\ u64 d /\ u64 i /\ i <> u64_max /\ records_ok a recs
  end.

Definition rec_id (r : Z * Z * Z) : Z := r.1.1.
Definition rec_job (r : Z * Z * Z) : job_t := Job r.1.2 r.2 r.2 r.1.1.

Definition fuel_for (recs : list (Z * Z * Z)) : nat :=
  sum_list ((fun r => S (cost (rec_job r))) <$> recs).

Lemma fuel_for_cons r recs : fuel_for (r :: recs) = (S (cost (rec_job r)) + fuel_for recs)%nat.
Proof. done. Qed.

Lemma finish_mono recs D D' : D <= D' -> finish D recs <= finish D' recs.
Proof.
  revert D D'. induction recs as [|[[i a] d] recs IH]; intros D D' HD; simpl; [done|]. apply IH. lia.
Qed.

Lemma finish_ge recs D now : records_ok now recs -> D <= finish D recs.
Proof.
  revert D now. induction recs as [|[[i a] d] recs IH]; intros D now; simpl; [lia|].
  intros (? & ? & Hd & _ & _ & Hr). etrans; [|by eapply IH]. unfold u64 in Hd. lia.
Qed.

Lemma records_weaken now now' recs : now' <= now -> records_ok now recs -> records_ok now' recs.
Proof. destruct recs as [|[[i a] d] recs]; simpl; [done|]. intros ? (? & ?). split; [lia|done]. Qed.

Section live.
Context {P : policy} {L : PolicyLive P}.
Implicit Types (s : spec_state P) (recs : list (Z * Z * Z)).

(** The state of a run in which the records [recs] have not arrived yet. *)
Definition future (recs : list (Z * Z * Z)) (s : spec_state P) : Prop :=
  match recs with
  | [] => sp_next s = None /\ sp_input s = []
  | r :: recs => sp_next s = Some (rec_job r) /\ sp_input s = Some <$> recs
  end.

Lemma spec_arrival_ok now recs :
  records_ok now recs ->
  exists next input, spec_arrival now (Some <$> recs) = Done (next, input) /\
    forall pending st out, future recs (Spec pending next input st out).
Proof.
  destruct recs as [|[[i a] d] recs]; simpl; [by exists None, []|].
  intros (Ha & _). rewrite (proj2 (Z.leb_le _ _)) by done. simpl. eexists _, _. split; [done|]. by split.
Qed.

Lemma spec_step_cases s recs :
  future recs s ->
  (sp_pending s = None /\ recs = [] /\ spec_step P s = None) \/
  (exists t, sp_pending s = Some t /\ (forall r recs', recs = r :: recs' -> t <= r.1.2) /\
     spec_step P s = Some (spec_complete P t s)) \/
  (exists r recs', recs = r :: recs' /\ (forall t, sp_pending s = Some t -> r.1.2 < t) /\
     spec_step P s = Some (spec_arrive P (rec_job r) s)).
Proof.
  unfold spec_step. destruct s as [pending next input st out]; simpl.
  destruct recs as [|r recs]; simpl; intros [-> ->]; destruct pending as [t|].
  - right. left. by exists t.
  - by left.
  - destruct (Z.leb_spec t (arrivalTime (rec_job r))); right.
    + left. exists t. split_done. by intros ? ? [= <- <-].
    + right. exists r, recs. split_done. by intros ? [= <-].
  - right. right. by exists r, recs.
Qed.

(** A state from which the run goes well: the policy is fit to go on, the records
    to come are in order, and all the work ends within 64 bits. *)
Record on_track s (now : Z) recs : Prop := {
  ot_live : live_ok now (sp_st s) (sp_pending s);
  ot_future : future recs s;
  ot_records : records_ok now recs;
  ot_fits : finish (due now (sp_st s) (sp_pending s)) recs < w64
}.

(** The records that arrive in one step and the completions that are output. *)
Record moved s (now : Z) recs s' (now' : Z) recs' (arrived : list (Z * Z * Z)) (more : list (Z * Z)) : Prop := {
  mv_track : on_track s' now' recs';
  mv_recs : recs = arrived ++ recs';
  mv_out : sp_out s' = sp_out s ++ more;
  mv_ids : (id <$> pool (sp_st s)) ++ (rec_id <$> arrived) ≡ₚ more.*1 ++ (id <$> pool (sp_st s'));
  mv_times : Forall (fun x => x.2 <= finish (due now (sp_st s) (sp_pending s)) recs) more;
  mv_finish : finish (due now' (sp_st s') (sp_pending s')) recs' <= finish (due now (sp_st s) (sp_pending s)) recs;
  mv_events : (events_left (sp_st s') + fuel_for recs' < events_left (sp_st s) + fuel_for recs)%nat
}.

Lemma spec_complete_live s now recs t :
  on_track s now recs -> sp_pending s = Some t -> (forall r recs', recs = r :: recs' -> t <= r.1.2) ->
  exists s' more, spec_complete P t s = Done s' /\ moved s now recs s' t recs [] more.
Proof.
  intros [Hl Hf Hr Hfin] Hp Hle. rewrite Hp in Hl, Hfin.
  pose proof (finish_ge _ (due now (sp_st s) (Some t)) _ Hr) as Hge.
  destruct (live_complete _ _ _ Hl ltac:(lia)) as (st' & pending' & fin & Hc & Hl' & Hids & Hdue & Hev).
  destruct (live_due _ _ _ Hl) as [Hnow Hafter]. pose proof (finish_mono recs _ _ Hdue) as Hmono.
  unfold spec_complete. rewrite Hc. cbn [mbind outcome_bind].
  exists (Spec pending' (sp_next s) (sp_input s) st' (log_completion (sp_out s) t fin)), (option_list ((fun j => (id j, t)) <$> fin)).
  split; [done|]. split; cbn [sp_st sp_pending sp_out]; rewrite ?Hp; [split| | | | | |lia]; cbn [sp_st sp_pending]; try done.
  - destruct recs as [|[[i a] d] recs]; [done|]. simpl in *. destruct Hr as (? & ? & ? & ? & ? & ?).
    split_done. by apply (Hle (i, a, d) recs).
  - eapply Z.le_lt_trans; [exact Hmono|exact Hfin].
  - destruct fin; simpl; [done|by rewrite app_nil_r].
  - simpl. rewrite app_nil_r, Hids. by destruct fin.
  - simpl in Hge. destruct fin; simpl; repeat constructor. simpl. lia.
Qed.

Lemma spec_arrive_live s now recs r :
  on_track s now (r :: recs) -> (forall t, sp_pending s = Some t -> r.1.2 < t) ->
  exists s', spec_arrive P (rec_job r) s = Done s' /\ moved s now (r :: recs) s' r.1.2 recs [r] [].
Proof.
  intros [Hl Hf Hr Hfin] Hlt. destruct r as [[i a] d]. simpl in Hr. destruct Hr as (Ha & Hua & Hud & Hui & Him & Hr).
  assert (Hdue_a : due a (sp_st s) (sp_pending s) <= Z.max (due now (sp_st s) (sp_pending s)) a).
  { destruct (sp_pending s); simpl; lia. }
  pose proof (finish_ge recs (Z.max (due now (sp_st s) (sp_pending s)) a + d) a Hr) as Hge. simpl in Hfin.
  destruct (live_arrive now a (sp_st s) (sp_pending s) (rec_job (i, a, d)) Hl Ha Hlt)
    as (st' & pending' & Harr & Hl' & Hids & Hdue & Hev).
  { unfold fresh_job. simpl. by split_done. }
  { simpl. lia. }
  unfold spec_arrive. simpl arrivalTime. rewrite Harr. cbn [mbind outcome_bind].
  simpl in Hf. destruct Hf as [Hn Hin]. rewrite Hin.
  destruct (spec_arrival_ok a recs Hr) as (next & input & -> & Hf'). cbn [mbind outcome_bind].
  change (jobTime (rec_job (i, a, d))) with d in Hdue.
  pose proof (finish_mono recs (due a st' pending') (Z.max (due now (sp_st s) (sp_pending s)) a + d)
    ltac:(etrans; [exact Hdue|]; by apply Z.add_le_mono_r)) as Hmono.
  exists (Spec pending' next input st' (sp_out s)). split; [done|].
  split; cbn [sp_st sp_pending sp_out]; [split; try done; cbn [sp_st sp_pending]| | | | |exact Hmono|].
  - eapply Z.le_lt_trans; [exact Hmono|exact Hfin].
  - done.
  - by rewrite app_nil_r.
  - simpl. rewrite Hids. by rewrite Permutation_app_comm.
  - constructor.
  - rewrite fuel_for_cons. lia.
Qed.

Lemma spec_step_live s now recs m :
  on_track s now recs -> spec_step P s = Some m ->
  exists s' now' recs' arrived more, m = Done s' /\ moved s now recs s' now' recs' arrived more.
Proof.
  intros Hok Hm.
  destruct (spec_step_cases s recs (ot_future _ _ _ Hok)) as [(Hp & -> & Hs)|[(t & Hp & Hle & Hs)|(r & recs' & -> & Hlt & Hs)]];
    rewrite Hs in Hm; [done|injection Hm as <-..].
  - destruct (spec_complete_live s now recs t Hok Hp Hle) as (s' & more & -> & Hmv). by exists s', t, recs, [], more.
  - destruct (spec_arrive_live s now recs' r Hok Hlt) as (s' & -> & Hmv). by exists s', r.1.2, recs', [r], [].
Qed.

(** Only when nothing is left to do is there no next step. *)
Lemma spec_step_none s now recs : on_track s now recs -> spec_step P s = None -> pool (sp_st s) = [] /\ recs = [].
Proof.
  intros [Hl Hf _ _] Hm. destruct (spec_step_cases s recs Hf) as [(Hp & -> & _)|[(t & _ & _ & Hs)|(r & recs' & _ & _ & Hs)]];
    [|by rewrite Hs in Hm..]. rewrite Hp in Hl. split; [by apply (live_idle now)|done].
Qed.

(** What a run adds to the output. *)
Definition run_result (s : spec_state P) (ids : list Z) (bound : Z) (m : outcome (spec_state P)) : Prop :=
  exists s' more, m = Done s' /\ sp_out s' = sp_out s ++ more /\ more.*1 ≡ₚ ids /\
    Forall (fun x => x.2 <= bound) more.

Lemma spec_loop_live fuel s now recs :
  on_track s now recs -> (events_left (sp_st s) + fuel_for recs <= fuel)%nat ->
  run_result s ((id <$> pool (sp_st s)) ++ (rec_id <$> recs))
    (finish (due now (sp_st s) (sp_pending s)) recs) (spec_loop P fuel s).
Proof.
  revert s now recs. induction fuel as [|fuel IH]; intros s now recs Hok Hfuel; cbn [spec_loop];
    destruct (spec_step P s) as [m|] eqn:Hm.
  2,4: destruct (spec_step_none s now recs Hok Hm) as [-> ->]; exists s, []; rewrite app_nil_r; by split_done.
  all: destruct (spec_step_live s now recs m Hok Hm) as (s1 & now1 & recs1 & arrived & more1 & -> & Hmv);
    pose proof (mv_events _ _ _ _ _ _ _ _ Hmv).
  { lia. }
  cbn [mbind outcome_bind].
  destruct (IH s1 now1 recs1 (mv_track _ _ _ _ _ _ _ _ Hmv) ltac:(lia)) as (s' & more & -> & Hout & Hmore & Hall).
  destruct Hmv as [_ -> Hout1 Hids Htimes Hfinish _]. exists s', (more1 ++ more). split_done.
  - by rewrite Hout, Hout1, (assoc_L (++)).
  - rewrite fmap_app, Hmore, !fmap_app, !(assoc_L (++)). by rewrite Hids.
  - apply Forall_app. split; [done|]. eapply Forall_impl; [exact Hall|]. simpl. intros x Hx. etrans; [exact Hx|exact Hfinish].
Qed.

Lemma start_on_track recs next input :
  records_ok 0 recs -> finish 0 recs < w64 -> (forall pending st out, future recs (Spec pending next input st out)) ->
  on_track (Spec None next input (p_init P) []) 0 recs.
Proof. intros Hr Hfin Hf. by split; [apply live_init| | |]. Qed.

Lemma spec_run_live fuel recs :
  records_ok 0 recs -> finish 0 recs < w64 -> (fuel_for recs <= fuel)%nat ->
  exists out, spec_run P fuel (Some <$> recs) = Done out /\ out.*1 ≡ₚ (rec_id <$> recs) /\
    Forall (fun x => x.2 <= finish 0 recs) out.
Proof.
  intros Hr Hfin Hfuel. unfold spec_run.
  destruct (spec_arrival_ok 0 recs Hr) as (next & input & -> & Hf). cbn [mbind outcome_bind].
  destruct live_init as (_ & Hpool & Hev).
  destruct (spec_loop_live fuel (Spec None next input (p_init P) []) 0 recs (start_on_track _ _ _ Hr Hfin Hf))
    as (s' & more & -> & Hout & Hmore & Hall); [simpl; lia|].
  simpl in *. rewrite Hpool in Hmore. exists more. rewrite Hout. by split_done.
Qed.
End live.

(** ** The four policies *)

Ltac forall_list := simpl; repeat first [done | apply Forall_nil_2 | apply Forall_cons_2; [done|]].

Definition total (f : job_t -> Z) (l : list job_t) : Z := foldr (fun j n => f j + n) 0 l.

Lemma total_app f l l' : total f (l ++ l') = total f l + total f l'.
Proof. induction l as [|j l IH]; simpl; [lia|]. rewrite IH. lia. Qed.

Lemma total_nonneg f l : Forall (fun j => 0 <= f j) l -> 0 <= total f l.
Proof. induction 1; simpl; lia. Qed.

Lemma total_perm f l l' : l ≡ₚ l' -> total f l = total f l'.
Proof. induction 1; simpl; lia. Qed.

Lemma fresh_times l : Forall fresh_job l -> 0 <= total jobTime l.
Proof. intros Hl. apply total_nonneg. eapply Forall_impl; [exact Hl|]. intros j [Hj _]. apply Hj. Qed.

Lemma next_completion_some now d : now + d < w64 -> next_completion now d None = Done (Some (now + d)).
Proof. intros Hd. unfold next_completion. by rewrite (proj2 (Z.ltb_lt _ _)). Qed.

(** The common parts of a liveness goal. *)
Ltac live_done :=
  simpl; split_done; try solve [lia | forall_list | eexists; split; [reflexivity|lia]].

(** A completion is pending exactly when a job runs. *)
Definition running_ok (now : Z) (running : bool) (pending : option Z) : Prop :=
  if running then exists t, pending = Some t /\ now <= t else pending = None.

Definition is_cons {A} (l : list A) : bool := match l with [] => false | _ => true end.

#[export] Program Instance fcfs_live : PolicyLive fcfs_policy := {
  live_ok now st pending := Forall fresh_job st /\ running_ok now (is_cons st) pending;
  pool st := st;
  after_pending st := total jobTime (List.tl st);
  events_left st := length st
}.
Next Obligation. by split_done. Qed.
Next Obligation. intros now st [_ Hr]. destruct st; [done|]. by destruct Hr as (? & ? & _). Qed.
Next Obligation.
  intros now st t [Hf Hr]. destruct st as [|j st]; simpl in Hr; [done|]. destruct Hr as (? & [= <-] & ?).
  split; [done|]. apply Forall_cons in Hf as [_ Hf]. by apply fresh_times.
Qed.
Next Obligation.
  intros now a st pending j [Hf Hr] Ha Hlt Hj Hdue. pose proof Hj as [[Hj0 _] _]. simpl.
  destruct st as [|j0 st]; simpl in *.
  - rewrite Hr in *. rewrite next_completion_some by lia. eexists _, _. split; [done|]. split_done.
    + by forall_list.
    + eexists. split; [done|]. lia.
    + simpl. lia.
    + unfold cost. simpl. lia.
  - destruct Hr as (t & -> & Ht). eexists _, _. split; [done|]. split_done.
    + change (Forall fresh_job ((j0 :: st) ++ [j])). apply Forall_app. split; [done|]. by forall_list.
    + exists t. split; [done|]. specialize (Hlt t eq_refl). lia.
    + apply (fmap_Permutation id ((j0 :: st) ++ [j]) (j :: j0 :: st)). by rewrite Permutation_app_comm.
    + simpl. rewrite total_app. simpl. lia.
    + simpl. rewrite length_app. unfold cost. simpl. lia.
Qed.
Next Obligation.
  intros now st t [Hf Hr] Hdue. destruct st as [|j st]; simpl in *; [done|].
  destruct Hr as (? & [= <-] & Ht). apply Forall_cons in Hf as [_ Hf]. destruct st as [|j' st]; simpl in *.
  - eexists _, _, _. split; [done|]. live_done.
  - pose proof Hf as Hf'. apply Forall_cons in Hf' as [([Hj' _] & -> & _) Hf'].
    pose proof (fresh_times _ Hf'). rewrite next_completion_some by lia.
    eexists _, _, _. split; [done|]. live_done.
Qed.

(** LCFS and SJF keep the running job apart from the waiting ones. *)
Definition split_live (now : Z) (st : list job_t * option job_t) (pending : option Z) : Prop :=
  Forall fresh_job (option_list st.2 ++ st.1) /\
  running_ok now (is_some_b st.2) pending /\ (st.2 = None -> st.1 = []).

Definition split_pool (st : list job_t * option job_t) : list job_t := option_list st.2 ++ st.1.

Definition split_due (now : Z) (st : list job_t * option job_t) (pending : option Z) : Z :=
  match pending with Some t => t + total jobTime st.1 | None => now end.

Lemma split_idle now st : split_live now st None -> split_pool st = [].
Proof.
  intros (_ & Hr & Hw). unfold split_pool. destruct st as [w [c|]]; simpl in *; [by destruct Hr as (? & ? & _)|].
  by apply Hw.
Qed.

Lemma split_now now st t : split_live now st (Some t) -> now <= t /\ 0 <= total jobTime st.1.
Proof.
  intros (Hf & Hr & _). destruct st as [w [c|]]; simpl in *; [|done]. destruct Hr as (? & [= <-] & ?).
  split; [done|]. apply Forall_cons in Hf as [_ Hf]. by apply fresh_times.
Qed.

Lemma split_arrive now a w c pending j :
  split_live now (w, c) pending -> now <= a -> (forall t, pending = Some t -> a < t) ->
  fresh_job j -> split_due a (w, c) pending + jobTime j < w64 ->
  exists st' pending',
    match c with
    | None => pending ← next_completion a (jobTime j) pending; Done ((w, Some j), pending)
    | Some _ => Done ((j :: w, c), pending)
    end = Done (st', pending') /\ split_live a st' pending' /\
    (id <$> split_pool st') ≡ₚ id j :: (id <$> split_pool (w, c)) /\
    split_due a st' pending' <= split_due a (w, c) pending + jobTime j /\
    (length (split_pool st') <= length (split_pool (w, c)) + cost j)%nat.
Proof.
  intros (Hf & Hr & Hw) Ha Hlt Hj Hdue. pose proof Hj as [[Hj0 _] _]. destruct c as [c|]; simpl in *.
  - destruct Hr as (t & -> & Ht). specialize (Hlt t eq_refl). eexists _, _. split; [done|]. unfold cost.
    simpl. split_done; try lia.
    + apply Forall_cons in Hf as [? ?]. split; [forall_list|]. live_done.
    + apply Permutation_swap.
  - rewrite Hr in *. rewrite Hw in * by done. rewrite next_completion_some by (simpl in *; lia).
    eexists _, _. split; [done|]. unfold cost. simpl in *. split_done; try lia.
    split; [forall_list|]. live_done.
Qed.

(** The running job completes and the waiting job at [i] starts, if any. *)
Lemma split_complete t w c (w' : list job_t) (next : option job_t) :
  split_live t (w, Some c) (Some t) -> w ≡ₚ option_list next ++ w' -> (next = None -> w' = []) ->
  split_due t (w, Some c) (Some t) < w64 ->
  exists pending',
    match next with None => Done None | Some j => next_completion t (jobTime j) None end = Done pending' /\
    split_live t (w', next) pending' /\
    (id <$> split_pool (w, Some c)) ≡ₚ (id <$> option_list (Some c)) ++ (id <$> split_pool (w', next)) /\
    split_due t (w', next) pending' <= split_due t (w, Some c) (Some t) /\
    (length (split_pool (w', next)) < length (split_pool (w, Some c)))%nat.
Proof.
  intros (Hf & Hr & _) Hp Hn Hdue. simpl in *. apply Forall_cons in Hf as [Hc Hf].
  pose proof (Permutation_length Hp) as Hlen. rewrite length_app in Hlen.
  rewrite (total_perm _ _ _ Hp) in *. rewrite Hp in Hf. rewrite total_app in *.
  destruct next as [j|]; simpl in *.
  - apply Forall_cons in Hf as [Hj Hf]. pose proof (fresh_times _ Hf). pose proof Hj as [[Hj0 _] _].
    rewrite next_completion_some by lia. eexists. split; [done|]. simpl. split_done; try lia.
    + split; [forall_list|]. live_done.
    + unfold split_pool. simpl. by rewrite Hp.
  - rewrite Hn in * by done. eexists. split; [done|]. simpl. split_done; [|lia|lia].
    unfold split_pool. simpl. by rewrite Hp.
Qed.

Lemma split_live_now now t w c : split_live now (w, c) (Some t) -> split_live t (w, c) (Some t).
Proof.
  intros (? & Hr & ?). split; [done|]. split; [|done]. destruct c; [|done]. by exists t.
Qed.

#[export] Program Instance lcfs_live : PolicyLive lcfs_policy := {
  live_ok := split_live; pool := split_pool;
  after_pending st := total jobTime st.1; events_left st := length (split_pool st)
}.
Next Obligation. by split_done. Qed.
Next Obligation. intros now st. apply split_idle. Qed.
Next Obligation. intros now st t. apply split_now. Qed.
Next Obligation. intros now a [w c] pending j Hl Ha Hlt Hj Hdue. exact (split_arrive _ _ _ _ _ _ Hl Ha Hlt Hj Hdue). Qed.
Next Obligation.
  intros now [w c] t Hl Hdue. simpl in *. apply split_live_now in Hl as Hl'.
  destruct c as [c|]; [|by destruct Hl as (_ & ? & _)].
  destruct (split_complete t w c (List.tl w) (List.hd_error w)) as (p & Hp & Hl2 & Hids & Hdue2 & Hlen); try done;
    [by destruct w|by destruct w|].
  destruct w as [|j w]; simpl in *; [simplify_eq; by eexists _, _, _|].
  rewrite Hp. by eexists _, _, _.
Qed.

(** [sjf_best] finds a job unless none is below the bound. *)
Lemma sjf_best_none w bt bi :
  sjf_best w bt bi = None -> Forall (fun j => bt < jobTime j \/ (jobTime j = bt /\ bi <= id j)) w.
Proof.
  revert bt bi. induction w as [|j w IH]; intros bt bi; simpl; [constructor|].
  case_match eqn:E; [by case_match|]. intros Hn. apply fmap_None in Hn. constructor; [|by apply IH].
  apply orb_false_iff in E as [E1 E2]. apply andb_false_iff in E2. lia.
Qed.

Lemma sjf_best_fresh w : Forall fresh_job w -> sjf_best w u64_max u64_max = None -> w = [].
Proof.
  intros Hf Hn. apply sjf_best_none in Hn. destruct w as [|j w]; [done|].
  apply Forall_cons in Hf as [(Hj & _ & Hi & Hne) _]. apply Forall_cons in Hn as [Hn _].
  unfold u64, u64_max, w64 in *. lia.
Qed.

#[export] Program Instance sjf_live : PolicyLive sjf_policy := {
  live_ok := split_live; pool := split_pool;
  after_pending st := total jobTime st.1; events_left st := length (split_pool st)
}.
Next Obligation. by split_done. Qed.
Next Obligation. intros now st. apply split_idle. Qed.
Next Obligation. intros now st t. apply split_now. Qed.
Next Obligation. intros now a [w c] pending j Hl Ha Hlt Hj Hdue. exact (split_arrive _ _ _ _ _ _ Hl Ha Hlt Hj Hdue). Qed.
Next Obligation.
  intros now [w c] t Hl Hdue. simpl in *. apply split_live_now in Hl as Hl'.
  destruct c as [c|]; [|by destruct Hl as (_ & ? & _)].
  destruct (sjf_best w u64_max u64_max) as [i|] eqn:Hb.
  - destruct (sjf_best_lookup _ _ _ _ Hb) as [j Hi]. unfold array_get. rewrite Hi. cbn [mbind outcome_bind].
    destruct (split_complete t w c (delete i w) (Some j)) as (p & Hp & Hl2 & Hids & Hdue2 & Hlen); try done.
    { simpl. by apply delete_Permutation. }
    rewrite Hp. by eexists _, _, _.
  - assert (w = []) as ->.
    { apply sjf_best_fresh; [|done]. destruct Hl as (Hf & _). by apply Forall_cons in Hf as [_ Hf]. }
    destruct (split_complete t [] c [] None) as (p & Hp & Hl2 & Hids & Hdue2 & Hlen); try done.
    simplify_eq. by eexists _, _, _.
Qed.
