(* ===== verification/SchedulerRuns.v ===== *)
(** * Whole runs of the four schedulers

    The liveness of MLFQ, with the invariant that ties a job's level to the
    service it has received, and the properties of [traceRun]: of its output, and
    for MLFQ of its state after every event. *)

From Stdlib Require Import ZArith Lia String.
From stdpp Require Import gmap list strings.
From S2P Require Import Prelude Dll SimList Simulator Scheduler Schedulers Mlfq Trace Simulation.
Open Scope Z_scope.

(** ** MLFQ *)

(** A job at level [i] has been served [i] times, or at least 9 times at the
    last level. *)
Definition served (i : nat) (j : job_t) : Prop :=
  0 <= remainingTime j <= jobTime j /\ Z.of_nat i = Z.min 9 (jobTime j - remainingTime j).

Definition levels_ok (levels : list (list job_t)) : Prop :=
  length levels = MAX_MLFQ_LEVELS /\ forall i q, levels !! i = Some q -> Forall (served i) q.

Definition mlfq_pool (st : mlfq_state) : list job_t :=
  option_list (fst <$> m_running st) ++ concat (m_levels st).

Definition mlfq_after (st : mlfq_state) : Z :=
  total remainingTime (concat (m_levels st)) +
  match m_running st with Some (r, _) => remainingTime r - Z.min (remainingTime r) 1 | None => 0 end.

Definition slices (j : job_t) : nat := Z.to_nat (Z.max 1 (remainingTime j)).
Definition total_slices (l : list job_t) : nat := sum_list (slices <$> l).

Definition mlfq_live_ok (now : Z) (st : mlfq_state) (pending : option Z) : Prop :=
  levels_ok (m_levels st) /\
  match m_running st with
  | Some (r, lvl) =>
      (lvl < MAX_MLFQ_LEVELS)%nat /\ served lvl r /\ m_last st <= now /\
      pending = Some (m_last st + Z.min (remainingTime r) 1) /\ now <= m_last st + Z.min (remainingTime r) 1
  | None => pending = None /\ concat (m_levels st) = []
  end.

Definition mlfq_due (now : Z) (st : mlfq_state) (pending : option Z) : Z :=
  match pending with Some t => t + mlfq_after st | None => now end.

Lemma levels_served levels : levels_ok levels -> Forall (fun j => 0 <= remainingTime j) (concat levels).
Proof.
  intros [_ Hl]. apply Forall_concat. apply Forall_lookup. intros i q Hq. eapply Forall_impl; [by eapply Hl|].
  intros j [? _]. lia.
Qed.

Lemma levels_add levels i j :
  levels_ok levels -> served i j -> (i < MAX_MLFQ_LEVELS)%nat ->
  levels_ok (mlfq_add levels i j) /\ concat (mlfq_add levels i j) ≡ₚ j :: concat levels.
Proof.
  intros [Hlen Hl] Hj Hi. split; [|apply concat_add_perm; lia]. unfold mlfq_add.
  destruct (levels !! i) as [q|] eqn:Hq; [|done]. split; [by rewrite length_insert|].
  intros k q'. destruct (decide (k = i)) as [->|].
  - rewrite list_lookup_insert_eq by by eapply lookup_lt_Some. intros [= <-]. apply Forall_app.
    split; [by apply Hl|]. by constructor.
  - rewrite list_lookup_insert_ne by done. apply Hl.
Qed.

#[export] Instance total_slices_proper : Proper (Permutation ==> eq) total_slices.
Proof. intros l l' Hp. unfold total_slices. by rewrite Hp. Qed.

Lemma total_slices_cons j l : total_slices (j :: l) = (slices j + total_slices l)%nat.
Proof. done. Qed.

Lemma mlfq_next_live now levels last :
  levels_ok levels -> now + total remainingTime (concat levels) < w64 ->
  exists st' pending', mlfq_next now None levels last = Done (st', pending') /\
    mlfq_live_ok now st' pending' /\ mlfq_pool st' ≡ₚ concat levels /\
    mlfq_due now st' pending' <= now + total remainingTime (concat levels).
Proof.
  intros Hl Hb. pose proof (levels_served _ Hl) as Hnn. pose proof (total_nonneg _ _ Hnn) as Htot.
  pose proof (mlfq_first_spec levels) as Hf. unfold mlfq_next.
  destruct (mlfq_first levels) as [[[i j] ls]|].
  - destruct Hf as (q & Hq & -> & _). pose proof (concat_insert_perm levels i _ q Hq) as Hp.
    assert (Hp2 : concat levels ≡ₚ j :: concat (<[i := q]> levels)).
    { apply (Permutation_app_inv_l q). rewrite Hp. by rewrite <- Permutation_middle. }
    rewrite (total_perm _ _ _ Hp2) in *. simpl in *.
    pose proof (proj2 Hl _ _ Hq) as Hs. apply Forall_cons in Hs as [Hj Hs]. pose proof Hj as [Hj0 _].
    assert (Hl' : levels_ok (<[i := q]> levels)).
    { split; [rewrite length_insert; apply Hl|]. intros k q'. destruct (decide (k = i)) as [->|].
      - rewrite list_lookup_insert_eq by by eapply lookup_lt_Some. by intros [= <-].
      - rewrite list_lookup_insert_ne by done. apply Hl. }
    pose proof (total_nonneg _ _ (levels_served _ Hl')).
    rewrite next_completion_some by lia. cbn [mbind outcome_bind]. eexists _, _. split; [done|].
    unfold mlfq_live_ok, mlfq_pool, mlfq_after. simpl. split_done; try lia.
    + rewrite <- (proj1 Hl). by eapply lookup_lt_Some.
    + unfold mlfq_after. simpl. lia.
  - rewrite Hf in *. eexists _, _. split; [done|]. unfold mlfq_live_ok, mlfq_pool, mlfq_after. simpl.
    rewrite Hf. split_done; try apply Hl. lia.
Qed.

Lemma served_slice i j :
  served i j -> 1 < remainingTime j -> (i < MAX_MLFQ_LEVELS)%nat ->
  served (demote i) (set_remaining j (remainingTime j - 1)) /\ (demote i < MAX_MLFQ_LEVELS)%nat.
Proof. unfold served, demote, set_remaining, MAX_MLFQ_LEVELS. simpl. lia. Qed.

#[export] Program Instance mlfq_live : PolicyLive mlfq_policy := {
  live_ok := mlfq_live_ok; pool := mlfq_pool; after_pending := mlfq_after;
  events_left st := total_slices (mlfq_pool st)
}.
Next Obligation.
  split; [|done]. split; [|done]. split; [done|]. intros i q Hq. apply lookup_replicate in Hq as [-> _]. constructor.
Qed.
Next Obligation.
  intros now st [_ Hr]. unfold mlfq_pool. destruct (m_running st) as [[r lvl]|].
  - by destruct Hr as (_ & _ & _ & ? & _).
  - destruct Hr as [_ ->]. done.
Qed.
Next Obligation.
  intros now st t [Hl Hr]. unfold mlfq_after. pose proof (total_nonneg _ _ (levels_served _ Hl)).
  destruct (m_running st) as [[r lvl]|]; [|by destruct Hr].
  destruct Hr as (_ & [? _] & _ & [= ->] & ?). lia.
Qed.
Next Obligation.
  intros now a st pending j [Hl Hr] Ha Hlt Hj Hdue. destruct Hj as ([Hj0 _] & Hjr & _).
  assert (Hj : served 0 j) by (unfold served; lia).
  destruct (levels_add _ _ _ Hl Hj ltac:(unfold MAX_MLFQ_LEVELS; lia)) as [Hl1 Hp1].
  pose proof (total_nonneg _ _ (levels_served _ Hl)) as Htot.
  assert (Hcost : cost j = slices j) by (unfold cost, slices; by rewrite Hjr).
  unfold mlfq_pool, mlfq_after in *. simpl.
  destruct (m_running st) as [[r lvl]|] eqn:Hrun.
  - destruct Hr as (Hlv & Hs & Hlast & -> & Hnow). specialize (Hlt _ eq_refl). pose proof Hs as [Hs0 _].
    assert (a = m_last st /\ 1 <= remainingTime r) as [-> Hr1] by lia.
    destruct lvl as [|lvl].
    + eexists _, _. split; [done|]. unfold mlfq_live_ok, mlfq_pool, mlfq_after. simpl.
      rewrite (total_perm _ _ _ Hp1). simpl.
      rewrite Hp1, !total_slices_cons. split_done; try lia; try apply Hl1. apply Permutation_swap.
    + unfold sub64. rewrite Z.sub_diag. simpl Z.ltb.
      assert (0 <? wrap64 0 = false) as -> by done.
      destruct (levels_add _ _ _ Hl1 Hs Hlv) as [Hl2 Hp2].
      destruct (mlfq_next_live (m_last st) (mlfq_add (mlfq_add (m_levels st) 0 j) (S lvl) r) (m_last st) Hl2)
        as (st' & p' & -> & Hok & Hpool & Hdue').
      { rewrite (total_perm _ _ _ Hp2). simpl. rewrite (total_perm _ _ _ Hp1). simpl. lia. }
      rewrite (total_perm _ _ _ Hp2) in Hdue'. simpl in Hdue'. rewrite (total_perm _ _ _ Hp1) in Hdue'. simpl in Hdue'.
      assert (Hperm : mlfq_pool st' ≡ₚ r :: j :: concat (m_levels st)) by by rewrite Hpool, Hp2, Hp1.
      exists st', p'. split_done.
      * unfold mlfq_pool in Hperm. rewrite Hperm. simpl. apply Permutation_swap.
      * unfold mlfq_due, mlfq_after in Hdue'. lia.
      * unfold mlfq_pool in Hperm. rewrite Hperm. simpl. rewrite !total_slices_cons. lia.
  - destruct Hr as [-> Hnil].
    destruct (mlfq_next_live a (mlfq_add (m_levels st) 0 j) (m_last st) Hl1) as (st' & p' & -> & Hok & Hpool & Hdue').
    { rewrite (total_perm _ _ _ Hp1), Hnil. simpl. lia. }
    rewrite (total_perm _ _ _ Hp1), Hnil in Hdue'. simpl in Hdue'. rewrite Hp1, Hnil in Hpool.
    unfold mlfq_pool in Hpool. exists st', p'. rewrite Hnil. split_done.
    + by rewrite Hpool.
    + unfold mlfq_due, mlfq_after in Hdue'. lia.
    + rewrite Hpool, total_slices_cons. change (option_list (fst <$> None) ++ []) with (@nil job_t). lia.
Qed.
Next Obligation.
  intros now st t [Hl Hr] Hdue. pose proof (total_nonneg _ _ (levels_served _ Hl)) as Htot.
  unfold mlfq_pool, mlfq_after in *. simpl.
  destruct (m_running st) as [[r lvl]|] eqn:Hrun; [|by destruct Hr].
  destruct Hr as (Hlv & Hs & Hlast & [= ->] & Hnow). pose proof Hs as [Hs0 _].
  destruct (Z.ltb_spec 1 (remainingTime r)) as [Hgt|Hle].
  - destruct (served_slice _ _ Hs Hgt Hlv) as [Hs' Hlv'].
    destruct (levels_add _ _ _ Hl Hs' Hlv') as [Hl1 Hp1].
    destruct (mlfq_next_live (m_last st + Z.min (remainingTime r) 1)
      (mlfq_add (m_levels st) (demote lvl) (set_remaining r (remainingTime r - 1))) (m_last st) Hl1)
      as (st' & p' & -> & Hok & Hpool & Hdue').
    { rewrite (total_perm _ _ _ Hp1). simpl. lia. }
    rewrite (total_perm _ _ _ Hp1) in Hdue'. simpl in Hdue'. rewrite Hp1 in Hpool. unfold mlfq_pool in Hpool.
    cbn [mbind outcome_bind]. eexists _, _, _. split; [done|]. split_done.
    + by rewrite Hpool.
    + unfold mlfq_due, mlfq_after in Hdue'. lia.
    + rewrite Hpool. simpl. rewrite !total_slices_cons. unfold slices. simpl. lia.
  - destruct (mlfq_next_live (m_last st + Z.min (remainingTime r) 1) (m_levels st) (m_last st) Hl)
      as (st' & p' & -> & Hok & Hpool & Hdue').
    { lia. }
    unfold mlfq_pool in Hpool.
    cbn [mbind outcome_bind]. eexists _, _, _. split; [done|]. split_done.
    + by rewrite Hpool.
    + unfold mlfq_due, mlfq_after in Hdue'. lia.
    + rewrite Hpool. simpl. rewrite total_slices_cons. unfold slices. lia.
Qed.

(** ** FCFS *)

(** Completion times in order of arrival: each job starts when it has arrived
    and the one before it is complete. *)
Fixpoint fcfs_times (prev : Z) (recs : list (Z * Z * Z)) : list (Z * Z) :=
  match recs with
  | [] => []
  | (i, a, d) :: recs => let c := Z.max prev a + d in (i, c) :: fcfs_times c recs
  end.

Definition job_rec (j : job_t) : Z * Z * Z := (id j, arrivalTime j, jobTime j).

(** What is still to be output, with the jobs [st] present and [recs] to come. *)
Definition fcfs_rest (now : Z) (st : list job_t) (pending : option Z) (recs : list (Z * Z * Z)) : list (Z * Z) :=
  match st, pending with
  | j :: st, Some t => (id j, t) :: fcfs_times t ((job_rec <$> st) ++ recs)
  | _, _ => fcfs_times now recs
  end.

Lemma next_completion_Done now d pending :
  next_completion now d None = Done pending -> pending = Some (now + d).
Proof. unfold next_completion. intros (? & _ & [= <-])%bind_Done. done. Qed.

Lemma fcfs_loop fuel (s s' : spec_state fcfs_policy) now recs :
  live_ok now (sp_st s) (sp_pending s) -> future recs s -> records_ok now recs ->
  Forall (fun j => arrivalTime j <= now) (sp_st s) ->
  spec_loop fcfs_policy fuel s = Done s' ->
  sp_out s' = sp_out s ++ fcfs_rest now (sp_st s) (sp_pending s) recs.
Proof.
  revert s now recs. induction fuel as [|fuel IH]; intros s now recs [Hfr Hrun] Hf Hr Harr Hloop;
    destruct (spec_step_cases s recs Hf) as [(Hp & -> & Hs)|[(t & Hp & Hle & Hs)|(r & recs' & -> & Hlt & Hs)]];
    simpl in Hloop; rewrite Hs in Hloop; try done.
  1,2: apply Done_inj in Hloop as <-; rewrite Hp in *; destruct (sp_st s); simpl in *;
    by rewrite ?app_nil_r.
  - apply bind_Done in Hloop as (s1 & Hs1 & Hloop). unfold spec_complete in Hs1. simpl in Hs1.
    destruct s as [pending next input st out]; simpl in *. subst pending.
    destruct st as [|j st]; simpl in Hrun; [done|]. destruct Hrun as (? & [= <-] & Hnow).
    inv_outcome. apply Forall_cons in Hfr as [_ Hfr]. apply Forall_cons in Harr as [_ Harr].
    assert (Harr' : Forall (fun j => arrivalTime j <= t) st) by (eapply Forall_impl; [exact Harr|]; simpl; lia).
    apply IH with (now := t) (recs := recs) in Hloop; simpl; try done.
    + rewrite Hloop. simpl. rewrite <- (assoc_L (++)). f_equal. simpl. f_equal.
      destruct st as [|j' st]; simplify_eq/=; [done|].
      match goal with Hn : next_completion _ _ _ = _ |- _ => apply next_completion_Done in Hn as -> end.
      apply Forall_cons in Hfr as [(_ & -> & _) _]. apply Forall_cons in Harr' as [Ha _]. simpl.
      rewrite Z.max_l by lia. done.
    + split; [done|]. destruct st as [|j' st]; simplify_eq/=; [done|].
      match goal with Hn : next_completion _ _ _ = _ |- _ => apply next_completion_Done in Hn as -> end.
      apply Forall_cons in Hfr as [([? _] & -> & _) _]. eexists. split; [done|]. lia.
    + destruct recs as [|[[i a] d] recs]; [done|]. simpl in *. destruct Hr as (? & ? & ? & ? & ? & ?).
      split_done. by apply (Hle (i, a, d) recs).
  - apply bind_Done in Hloop as (s1 & Hs1 & Hloop). unfold spec_arrive in Hs1. simpl in Hs1.
    destruct s as [pending next input st out]; simpl in *. destruct Hf as [-> ->].
    destruct r as [[i a] d]. simpl in Hr. destruct Hr as (Ha & Hua & Hud & Hui & Him & Hr).
    apply bind_Done in Hs1 as ([st' pending'] & Harrive & Hs1).
    destruct (spec_arrival_ok (P := fcfs_policy) a recs' Hr) as (next' & input' & Hsp & Hf').
    simpl in Hs1. rewrite Hsp in Hs1.
    apply Done_inj in Hs1 as <-. simpl in *.
    assert (Hj : fresh_job (rec_job (i, a, d))) by (unfold fresh_job; by split_done).
    destruct st as [|j st]; simpl in *.
    + subst pending. apply bind_Done in Harrive as (p & Hn & Hst). apply next_completion_Done in Hn as ->.
      apply Done_inj in Hst. simplify_eq. simpl in *.
      apply IH with (now := a) (recs := recs') in Hloop; simpl; try done.
      * rewrite Hloop. simpl. by rewrite Z.max_r by lia.
      * split; [forall_list|]. eexists. split; [done|]. unfold u64 in Hud. lia.
      * forall_list.
    + destruct Hrun as (t & -> & Hnow). apply Done_inj in Harrive. simplify_eq. specialize (Hlt t eq_refl).
      apply IH with (now := a) (recs := recs') in Hloop; simpl; try done.
      * rewrite Hloop. simpl. by rewrite fmap_app, <- (assoc_L (++)).
      * split; [|by exists t; split; [|lia]]. change (Forall fresh_job ((j :: st) ++ [rec_job (i, a, d)])).
        apply Forall_app. split; [done|]. forall_list.
      * change (Forall (fun j => arrivalTime j <= a) ((j :: st) ++ [rec_job (i, a, d)])).
        apply Forall_app. split; [eapply Forall_impl; [exact Harr|]; simpl; lia|]. forall_list.
Qed.

Lemma fcfs_run fuel recs :
  records_ok 0 recs -> finish 0 recs < w64 -> (fuel_for recs <= fuel)%nat ->
  spec_run fcfs_policy fuel (Some <$> recs) = Done (fcfs_times 0 recs).
Proof.
  intros Hr Hfin Hfuel. destruct (spec_run_live (P := fcfs_policy) fuel recs Hr Hfin Hfuel) as (out & Hrun & _). rewrite Hrun.
  unfold spec_run in Hrun. destruct (spec_arrival_ok (P := fcfs_policy) 0 recs Hr) as (next & input & Hsp & Hf).
  rewrite Hsp in Hrun. cbn [mbind outcome_bind] in Hrun. apply bind_Done in Hrun as (s' & Hloop & Hout). apply Done_inj in Hout as <-.
  f_equal. apply fcfs_loop with (now := 0) (recs := recs) in Hloop; simpl; try done.
Qed.

(** ** SJF *)

Definition sjf_le (j j' : job_t) : Prop :=
  jobTime j < jobTime j' \/ (jobTime j = jobTime j' /\ id j <= id j').

Lemma sjf_best_least w bt bi i :
  sjf_best w bt bi = Some i ->
  exists j, w !! i = Some j /\ (jobTime j < bt \/ (jobTime j = bt /\ id j < bi)) /\ Forall (sjf_le j) w.
Proof.
  unfold sjf_le. revert bt bi i. induction w as [|j w IH]; intros bt bi i; simpl; [done|].
  destruct (_ || _) eqn:E.
  - apply orb_true_iff in E. rewrite andb_true_iff in E.
    destruct (sjf_best w (jobTime j) (id j)) as [k|] eqn:Hb; intros [= <-].
    + destruct (IH _ _ _ Hb) as (j' & Hj' & Hlt & Hall). exists j'. split_done; [lia|].
      constructor; [lia|done].
    + apply sjf_best_none in Hb. exists j. split_done; [lia|]. constructor; [lia|].
      eapply Forall_impl; [exact Hb|]. simpl. lia.
  - apply orb_false_iff in E. rewrite andb_false_iff in E. intros (k & Hb & ->)%fmap_Some.
    destruct (IH _ _ _ Hb) as (j' & Hj' & Hlt & Hall). exists j'. split_done.
    constructor; [lia|done].
Qed.

(** ** Selection by name *)

Definition policy_named (name : string) : option policy :=
  if String.eqb name "FCFS" then Some fcfs_policy
  else if String.eqb name "LCFS" then Some lcfs_policy
  else if String.eqb name "SJF" then Some sjf_policy
  else if String.eqb name "MLFQ" then Some mlfq_policy
  else None.

Section properties.
Context `{Malloc}.

Lemma traceRun_named fuel file name P n :
  policy_named name = Some P -> malloc_room_for n -> (length file + 3 <= n)%nat -> Forall scan_ok file ->
  refines (fun r out => r = (true, out)) (traceRun fuel (Some file) true name) (spec_run P fuel file).
Proof.
  intros HP Hm Hn Hscan. unfold traceRun, policy_named in *.
  destruct (Hm ∅) as [l Hl]; [rewrite size_empty; lia|]. rewrite Hl. simpl.
  assert (Hsz : (size ({[l]} : gset loc) + 2 <= n)%nat) by (rewrite size_singleton; lia).
  assert (Himp : forall (r : bool * list (Z * Z)) out,
    (fun '(ok, out) out' => ok = true /\ out = out') r out -> r = (true, out)).
  { by intros [ok o] out [-> ->]. }
  repeat case_match; simplify_eq;
    (refine (refines_mono _ _ _ _ Himp _); refine (traceRun_with_refines n Hm _ fuel {[l]} file _ _ Hscan); lia).
Qed.

(** C4: with any of its four schedulers the program computes exactly the run of
    that scheduler's policy on plain job values.  The policies have no event
    queue, no lists of pointers and no cancelled events; the equality covers the
    output in order, the return value, and the runs that stop at a failed
    assertion (arrivals out of order, a completion time over 64 bits, a
    malformed trace). *)
Theorem traceRun_refines_policy fuel file name P n :
  policy_named name = Some P -> malloc_room_for n -> (length file + 3 <= n)%nat -> Forall scan_ok file ->
  traceRun fuel (Some file) true name =
    match spec_run P fuel file with Done out => Done (true, out) | Fault f => Fault f end.
Proof.
  intros HP Hm Hn Hscan. pose proof (traceRun_named fuel file name P n HP Hm Hn Hscan) as Hr.
  destruct (traceRun _ _ _ _), (spec_run _ _ _); simpl in Hr; subst; done.
Qed.

Lemma recs_scans now recs : records_ok now recs -> Forall scan_ok (Some <$> recs).
Proof.
  revert now. induction recs as [|[[i a] d] recs IH]; intros now; simpl; [constructor|].
  intros (? & ? & ? & ? & ? & Hr). constructor; [by split_done|]. by eapply IH.
Qed.

(** A run on a readable trace, and what its policy outputs. *)
Lemma traceRun_live fuel recs name P n :
  policy_named name = Some P -> malloc_room_for n -> (length recs + 3 <= n)%nat ->
  records_ok 0 recs -> finish 0 recs < w64 -> (fuel_for recs <= fuel)%nat ->
  exists out, spec_run P fuel (Some <$> recs) = Done out /\ traceRun fuel (Some (Some <$> recs)) true name = Done (true, out) /\
    out.*1 ≡ₚ (rec_id <$> recs) /\ Forall (fun x => x.2 <= finish 0 recs) out.
Proof.
  intros HP Hm Hn Hr Hfin Hfuel. pose proof (traceRun_named fuel (Some <$> recs) name P n HP Hm) as Href.
  rewrite length_fmap in Href. specialize (Href Hn (recs_scans _ _ Hr)).
  assert (exists out, spec_run P fuel (Some <$> recs) = Done out /\ out.*1 ≡ₚ (rec_id <$> recs) /\
    Forall (fun x => x.2 <= finish 0 recs) out) as (out & Hrun & Hids & Hall).
  { unfold policy_named in HP. repeat case_match; simplify_eq; by apply spec_run_live. }
  destruct (refines_Done _ _ _ _ Href Hrun) as (x & Hx & ->). exists out. split_done.
Qed.

(** C26: FCFS.  For jobs in order of arrival whose work ends within 64 bits, the
    program outputs the jobs in that order, each completing its job time after
    the later of its arrival and the completion before it. *)
Theorem fcfs_completion_times fuel recs n :
  malloc_room_for n -> (length recs + 3 <= n)%nat ->
  records_ok 0 recs -> finish 0 recs < w64 -> (fuel_for recs <= fuel)%nat ->
  traceRun fuel (Some (Some <$> recs)) true "FCFS" = Done (true, fcfs_times 0 recs).
Proof.
  intros Hm Hn Hr Hfin Hfuel. destruct (traceRun_live fuel recs "FCFS" fcfs_policy n eq_refl Hm Hn Hr Hfin Hfuel) as (out & Hs & -> & _).
  rewrite (fcfs_run _ _ Hr Hfin Hfuel) in Hs. by injection Hs as <-.
Qed.

(** C11: every scheduler finishes every job.  For jobs in order of arrival whose
    work ends within 64 bits the program terminates successfully under each of
    the four schedulers, outputs every job exactly once, and no completion is
    later than the moment a never idle processor would be done with all the
    work. *)
Theorem every_job_completes_once fuel recs name n :
  is_Some (policy_named name) -> malloc_room_for n -> (length recs + 3 <= n)%nat ->
  records_ok 0 recs -> finish 0 recs < w64 -> (fuel_for recs <= fuel)%nat ->
  exists out, traceRun fuel (Some (Some <$> recs)) true name = Done (true, out) /\
    out.*1 ≡ₚ (rec_id <$> recs) /\ Forall (fun x => x.2 <= finish 0 recs) out.
Proof.
  intros [P HP] Hm Hn Hr Hfin Hfuel. destruct (traceRun_live fuel recs name P n HP Hm Hn Hr Hfin Hfuel) as (out & _ & H1 & H2 & H3).
  by exists out.
Qed.

(** SJF runs a shortest waiting job.  The scan of [schedulerSJFCompleteJob]
    over the waiting jobs selects one whose job time is least, and least by id
    among those. *)
Theorem sjf_picks_shortest (js : gmap loc job_t) (zs : list loc) (w : list job_t) :
  jobs_at js zs w -> Forall fresh_job w -> w <> [] ->
  exists i l j, sjf_scan js zs u64_max u64_max None = Done (Some l) /\
    zs !! i = Some l /\ w !! i = Some j /\ Forall (sjf_le j) w.
Proof.
  intros Hjs Hf Hne. rewrite (sjf_scan_ok _ _ _ _ _ _ Hjs).
  destruct (sjf_best w u64_max u64_max) as [i|] eqn:Hb.
  - destruct (sjf_best_least _ _ _ _ Hb) as (j & Hj & _ & Hall).
    destruct (Forall2_lookup_r _ _ _ _ _ Hjs Hj) as (l & Hl & _). rewrite Hl. by exists i, l, j.
  - by apply sjf_best_fresh in Hb.
Qed.

(** *** The run, event by event *)

Section events.
Context {I : Type} {P : policy} {Iops : SchedulerOps I} {Laws : SchedulerLaws I P} {Live : PolicyLive P}.
Context (n : nat) (Hm : malloc_room_for n) (Hn : (3 <= n)%nat).

(** Of the records [recs] some have arrived; these are in the output or held by
    the policy, and the run goes well with the others. *)
Definition progress (recs : list (Z * Z * Z)) (sp : spec_state P) (now : Z) (arrived : list (Z * Z * Z)) : Prop :=
  exists recs', on_track sp now recs' /\ recs = arrived ++ recs' /\
    (sp_out sp).*1 ++ (id <$> pool (sp_st sp)) ≡ₚ rec_id <$> arrived.

Lemma progress_step recs sp now arrived m : progress recs sp now arrived -> spec_step P sp = Some m ->
  exists sp' now' arrived', m = Done sp' /\ progress recs sp' now' arrived'.
Proof using Type.
  intros (recs' & Ht & -> & Hids) Hs. destruct (spec_step_live sp now recs' m Ht Hs) as (sp' & now' & recs2 & more & out & -> & [Ht' -> Hout Hids' _ _ _]).
  exists sp', now', (arrived ++ more). split; [done|]. exists recs2. split; [done|]. split; [by rewrite (assoc_L (++))|].
  rewrite Hout, !fmap_app, <- (assoc_L (++)), <- Hids', (assoc_L (++)). by rewrite Hids.
Qed.

Lemma after_events_ok recs k (t : trace_t I) sp kn ls now arrived :
  trace_ok n t sp (next_event (sp_next sp) kn) ls -> progress recs sp now arrived ->
  exists t' sp' kn' ls' now' arrived', after_events trace_sim trace_set_sim run_callback k t = Done t' /\
    trace_ok n t' sp' (next_event (sp_next sp') kn') ls' /\ progress recs sp' now' arrived'.
Proof using Hm Hn Laws.
  revert t sp kn ls now arrived. induction k as [|k IH]; intros t sp kn ls now arrived Ht Hp; [by exists t, sp, kn, ls, now, arrived|].
  cbn [after_events]. destruct (spec_step P sp) as [m|] eqn:Hs.
  - destruct (run_step n Hm Hn t sp kn ls m Ht Hs) as [-> Href]. destruct (progress_step _ _ _ _ _ Hp Hs) as (sp1 & now1 & arr1 & -> & Hp1).
    destruct (refines_Done _ _ _ _ Href eq_refl) as (t1 & -> & kn1 & ls1 & Ht1). cbn [mbind outcome_bind]. by eapply IH.
  - destruct (trace_events n t sp _ ls Ht) as [kc Hq]. pose proof (queue_head_step n Hn t sp kc kn Hq) as Hstep. rewrite Hs in Hstep.
    rewrite Hstep. by exists t, sp, kn, ls, now, arrived.
Qed.

Lemma run_from_start recs live :
  (size live + 2 <= n)%nat -> (length recs <= n)%nat -> records_ok 0 recs -> finish 0 recs < w64 ->
  exists t0, trace_start (I := I) live (Some <$> recs) = Done (Some t0) /\
    forall k, exists t sp kn ls now arrived, after_events trace_sim trace_set_sim run_callback k t0 = Done t /\
      trace_ok n t sp (next_event (sp_next sp) kn) ls /\ progress recs sp now arrived.
Proof using Hm Hn Laws.
  intros Hlive Hlen Hr Hfin. destruct (spec_arrival_ok (P := P) 0 recs Hr) as (next & input & E & Hf).
  pose proof (trace_start_ok (I := I) (P := P) n Hm Hn live (Some <$> recs) Hlive) as Hst. rewrite length_fmap in Hst.
  destruct (refines_Done _ _ _ _ (Hst Hlen (recs_scans _ _ Hr)) E) as (r & Er & t0 & kn & -> & Ht).
  exists t0. split; [done|]. intros k. apply (after_events_ok recs k t0 (Spec None next input (p_init P) []) kn [] 0 []); [done|].
  exists recs. split; [by apply start_on_track|]. split; [done|]. simpl. destruct (live_init (P := P)) as (_ & -> & _). done.
Qed.
End events.

(** *** MLFQ at every moment of a run *)

(** The jobs that have a wrapper: those the scheduler holds. *)
Definition in_system (t : trace_t scheduler_MLFQ_t) : list job_t :=
  omap (fun w => jobs (scheduler t) !! job w.2) (map_to_list (wrappers (info t))).

(** Of the records that have arrived each is either in the output or a job of the
    scheduler; every such job stands at the level equal to the service it has
    received, at most the last level 9, and the queues hold wrappers of their own level. *)
Record levels_are_service (t : trace_t scheduler_MLFQ_t) (arrived : list (Z * Z * Z)) : Prop := {
  ls_jobs : (outFile t).*1 ++ (id <$> in_system t) ≡ₚ rec_id <$> arrived;
  ls_level w l lv : wrappers (info t) !! w = Some (MJob l lv) ->
    exists j, jobs (scheduler t) !! l = Some j /\ 0 <= remainingTime j <= jobTime j /\ lv = Z.min 9 (jobTime j - remainingTime j);
  ls_queue i q : queues (info t) !! i = Some q ->
    exists ws, holds (Some always_less) q ws /\ Forall (fun w => level <$> wrappers (info t) !! w = Some (Z.of_nat i)) ws
}.

(** The entries behind the wrappers of the code. *)
Lemma mlfq_entries info ls js now st pending : mlfq_info info ls js st -> mlfq_live_ok now st pending ->
  exists E x, mq_ok (queues info) (wrappers info) js E x /\ (ej <$> concat E ++ x) ≡ₚ mlfq_pool st /\
    Forall (fun e => served (elv e) (ej e)) (concat E ++ x).
Proof.
  intros (E & x & Hok & Hlv & _ & _ & Hr) [[_ Hl] Hrun]. exists E, x. split; [done|].
  assert (Hx : ej <$> x = option_list (fst <$> m_running st)).
  { destruct (m_running st) as [[r lvl]|]; [by destruct Hr as (e & -> & _ & <- & _)|by destruct Hr as [_ ->]]. }
  split.
  - unfold mlfq_pool. rewrite fmap_app, Hx, Hlv, <- concat_map. apply Permutation_app_comm.
  - apply Forall_app. split.
    + apply Forall_concat, Forall_lookup. intros i es Hi. pose proof (mq_level _ _ _ _ _ Hok _ _ Hi) as Hlev.
      specialize (Hl i (map ej es)). rewrite Hlv, list_lookup_fmap, Hi in Hl. specialize (Hl eq_refl).
      rewrite Forall_forall in Hlev. apply Forall_forall. intros e He. rewrite (Hlev e He).
      apply (proj1 (Forall_forall _ _) Hl), list_elem_of_fmap. by exists e.
    + destruct (m_running st) as [[r lvl]|]; [|by destruct Hr as [_ ->]].
      destruct Hr as (e & -> & _ & <- & <-). constructor; [by destruct Hrun as (_ & ? & _)|done].
Qed.

(** The wrappers of the store are the entries. *)
Lemma entries_in_system qs wr js E x : mq_ok qs wr js E x ->
  omap (fun w => js !! job w.2) (map_to_list wr) ≡ₚ (ej <$> concat E ++ x).
Proof.
  intros Hok. pose proof (mq_ent _ _ _ _ _ Hok) as Hent. rewrite Forall_forall in Hent.
  assert (Hp : map_to_list wr ≡ₚ (fun e => (ew e, MJob (el e) (Z.of_nat (elv e)))) <$> concat E ++ x).
  { apply NoDup_Permutation; [apply NoDup_map_to_list|apply (NoDup_fmap_1 fst); rewrite <- list_fmap_compose; apply Hok|].
    intros [w v]. rewrite elem_of_map_to_list, list_elem_of_fmap. split.
    - intros Hw. pose proof (elem_of_dom_2 _ _ _ Hw) as Hd. rewrite (mq_dom _ _ _ _ _ Hok) in Hd.
      apply elem_of_list_to_set, list_elem_of_fmap in Hd as (e & -> & He). exists e. split; [|done].
      destruct (Hent _ He) as (Hwe & _). by simplify_eq.
    - intros (e & [= -> ->] & He). by apply Hent. }
  rewrite Hp. clear Hp Hok. induction (concat E ++ x) as [|e es IH]; [done|]. csimpl.
  destruct (Hent e ltac:(left)) as (_ & -> & _). rewrite IH; [done|]. intros e' He'. apply Hent. by right.
Qed.

Lemma mlfq_levels n t sp now kn ls arrived :
  @trace_ok _ scheduler_MLFQ_t mlfq_policy _ _ n t sp kn ls -> mlfq_live_ok now (sp_st sp) (sp_pending sp) ->
  (sp_out sp).*1 ++ (id <$> mlfq_pool (sp_st sp)) ≡ₚ rec_id <$> arrived -> levels_are_service t arrived.
Proof.
  intros Ht Hl Hids. destruct (mlfq_entries _ _ _ _ _ _ (to_info _ _ _ _ _ Ht) Hl) as (E & x & Hok & Hp & Hs).
  pose proof (mq_ent _ _ _ _ _ Hok) as Hent. rewrite Forall_forall in Hent, Hs. split.
  - unfold in_system. rewrite (to_out _ _ _ _ _ Ht), (entries_in_system _ _ _ _ _ Hok), Hp. exact Hids.
  - intros w l lv Hw. pose proof (elem_of_dom_2 _ _ _ Hw) as Hd. rewrite (mq_dom _ _ _ _ _ Hok) in Hd.
    apply elem_of_list_to_set, list_elem_of_fmap in Hd as (e & -> & He). destruct (Hent _ He) as (Hwe & Hje & _).
    rewrite Hw in Hwe. injection Hwe as -> ->. exists (ej e). split_done; [apply (Hs e He)..].
  - intros i q Hq. destruct (Forall2_lookup_l _ _ _ _ _ (mq_holds _ _ _ _ _ Hok) Hq) as (es & Hi & Hq').
    exists (ew <$> es). split; [done|]. apply Forall_fmap, Forall_forall. intros e He. simpl.
    pose proof (mq_level _ _ _ _ _ Hok _ _ Hi) as Hlev. rewrite Forall_forall in Hlev.
    destruct (Hent e) as (-> & _); [|simpl; by rewrite (Hlev e He)].
    apply elem_of_app. left. apply list_elem_of_In, in_concat. exists es. rewrite <- !list_elem_of_In. split; [|done].
    by eapply list_elem_of_lookup_2.
Qed.

(** [traceRun] with this scheduler is the run from [trace_start]. *)
Lemma traceRun_MLFQ_start fuel file trace t :
  malloc ∅ = Some trace -> trace_start (I := scheduler_MLFQ_t) {[trace]} file = Done (Some t) ->
  traceRun fuel (Some file) true "MLFQ" =
    (t ← simulatorRun trace_sim trace_set_sim run_callback fuel t;
     s ← schedulerDestroy (info t) (scheduler t);
     _ ← simulatorDestroy fuel (sim s);
     Done (true, outFile t)).
Proof. intros Hl Hs. unfold traceRun. rewrite Hl. simpl. by apply traceRun_with_start. Qed.

End properties.
(** ** Concrete runs *)

Lemma malloc_first_room n : Z.of_nat n < u64_max -> @malloc_room_for malloc_first n.
Proof. intros Hn X HX. simpl. rewrite decide_True by lia. eauto. Qed.

(** Three jobs (id, arrival time, job time). *)
Definition demo_recs : list (Z * Z * Z) := [(1, 0, 5); (2, 1, 3); (3, 2, 1)].

Lemma traceRun_refines_policy_witness :
  @traceRun malloc_first 9 (Some (Some <$> demo_recs)) true "LCFS" =
    match spec_run lcfs_policy 9 (Some <$> demo_recs) with Done out => Done (true, out) | Fault f => Fault f end /\
  spec_run lcfs_policy 9 (Some <$> demo_recs) = Done [(1, 5); (3, 6); (2, 9)].
Proof.
  split; [|vm_compute; reflexivity].
  apply (@traceRun_refines_policy malloc_first 9 (Some <$> demo_recs) "LCFS" lcfs_policy 6).
  - reflexivity.
  - apply malloc_first_room. vm_compute. reflexivity.
  - vm_compute. lia.
  - repeat constructor; vm_compute; intros; discriminate.
Defined.

Lemma fcfs_completion_times_witness :
  @traceRun malloc_first 20 (Some (Some <$> demo_recs)) true "FCFS" = Done (true, [(1, 5); (2, 8); (3, 9)]).
Proof.
  apply (@fcfs_completion_times malloc_first 20 demo_recs 6).
  - apply malloc_first_room. vm_compute. reflexivity.
  - vm_compute. lia.
  - vm_compute. repeat split; intros; discriminate.
  - vm_compute. reflexivity.
  - vm_compute. lia.
Defined.

Lemma every_job_completes_once_witness :
  exists out, @traceRun malloc_first 20 (Some (Some <$> demo_recs)) true "MLFQ" = Done (true, out) /\
    out.*1 ≡ₚ [1; 2; 3] /\ Forall (fun x => x.2 <= 9) out.
Proof.
  apply (@every_job_completes_once malloc_first 20 demo_recs "MLFQ" 6).
  - eexists. reflexivity.
  - apply malloc_first_room. vm_compute. reflexivity.
  - vm_compute. lia.
  - vm_compute. repeat split; intros; discriminate.
  - vm_compute. reflexivity.
  - vm_compute. lia.
Defined.

Definition demo_jobs : list job_t := [Job 1 3 3 2; Job 2 1 1 3].

Lemma sjf_picks_shortest_witness :
  exists i l j, sjf_scan {[4%positive := Job 1 3 3 2; 5%positive := Job 2 1 1 3]} [4%positive; 5%positive]
      u64_max u64_max None = Done (Some l) /\
    [4%positive; 5%positive] !! i = Some l /\ demo_jobs !! i = Some j /\ Forall (sjf_le j) demo_jobs.
Proof.
  apply (sjf_picks_shortest {[4%positive := Job 1 3 3 2; 5%positive := Job 2 1 1 3]} [4%positive; 5%positive]).
  - repeat constructor.
  - repeat constructor; vm_compute; intros; discriminate.
  - discriminate.
Defined.

