(* ===== verification/SimMain.v ===== *)
(** * The simulator's command line

    [simulatorlab-FreezeKickerz/main.c]: the arguments, the run of the trace, and
    the call of [sort] that puts the output file in the order of the jobs' ids.
    The file system, the shell that [system] starts and the memory for the command
    are arguments; what [sort] is relied on for is stated in the theorem. *)

From Stdlib Require Import ZArith Lia String Ascii.
From stdpp Require Import gmap list strings sorting.
From S2P Require Import Prelude Dll SimList Simulator Scheduler Trace Simulation SchedulerRuns.
Open Scope Z_scope.

(** ** Code *)

Section code.
Context `{Malloc}.
(** What a file holds and whether one can be written; what a command does to
    the lines of the output file, with its status; whether so many bytes can be
    had. *)
Context (trace_of : string -> option (list scan)) (can_write : string -> bool).
Context (system : string -> list (Z * Z) -> Z * list (Z * Z)) (room : Z -> bool).

Definition strlen (s : string) : Z := Z.of_nat (String.length s).

(** [snprintf] with the format [sort -t, -k1n,1 -o %s %s]. *)
Definition sort_command (outFile : string) : string := ("sort -t, -k1n,1 -o " ++ outFile ++ " " ++ outFile)%string.

(** The status and the lines of the output file. *)
Definition main (fuel : nat) (argv : list string) : outcome (Z * list (Z * Z)) :=
  match argv with
  | [_; traceFile; outFile; schedulerName] =>
      '(ok, out) ← traceRun fuel (trace_of traceFile) (can_write outFile) schedulerName;
      if negb ok then Done (-2, out)
      else
        let len := add64 (add64 (mul64 2 (strlen outFile)) (strlen "sort -t, -k1n,1 -o  ")) 1 in
        if negb (room len) then Done (0, out)
        else
          let cmd := sort_command outFile in
          if bool_decide (strlen cmd <> sub64 len 1) then Done (0, out) else Done (system cmd out)
  | _ => Done (-1, [])
  end.
End code.

(** ** The command fits its buffer *)

Lemma strlen_app a b : strlen (a ++ b)%string = strlen a + strlen b.
Proof. unfold strlen. rewrite <- Nat2Z.inj_add. f_equal. induction a as [|c a IH]; [done|]. exact (f_equal S IH). Qed.

Lemma sort_command_length f : strlen (sort_command f) = 2 * strlen f + 20.
Proof. unfold sort_command. rewrite !strlen_app. change (strlen "sort -t, -k1n,1 -o ") with 19. change (strlen " ") with 1. lia. Qed.

(** ** Sorting by id *)

Definition by_id (x y : Z * Z) : Prop := x.1 <= y.1.

Lemma sorted_ids l : StronglySorted by_id l -> StronglySorted Z.le l.*1.
Proof.
  induction 1 as [|x l _ IH Hx]; simpl; constructor; [done|]. apply Forall_fmap. eapply Forall_impl; [exact Hx|]. done.
Qed.

Lemma sorted_lt_le l : StronglySorted Z.lt l -> StronglySorted Z.le l /\ NoDup l.
Proof.
  induction 1 as [|x l _ [IH1 IH2] Hx]; [split; constructor|]. split.
  - constructor; [done|]. eapply Forall_impl; [exact Hx|]. simpl. lia.
  - constructor; [|done]. intros Hin. rewrite Forall_forall in Hx. specialize (Hx _ Hin). lia.
Qed.

(** The sorted lines name the jobs in the order of the trace. *)
Lemma sorted_by_id (ids : list Z) (l l' : list (Z * Z)) :
  StronglySorted Z.lt ids -> l.*1 ≡ₚ ids -> l' ≡ₚ l -> StronglySorted by_id l' -> l'.*1 = ids.
Proof.
  intros Hids Hl Hp Hs. apply (StronglySorted_unique Z.le); [by apply sorted_ids|by apply sorted_lt_le|]. by rewrite Hp.
Qed.

(** Lines with distinct ids that are in order already stay as they are. *)
Lemma permuted_keys (l l' : list (Z * Z)) : NoDup l.*1 -> l' ≡ₚ l -> l'.*1 = l.*1 -> l' = l.
Proof.
  revert l'. induction l as [|[k v] l IH]; intros [|[k' v'] l'] Hnd Hp E; simplify_eq/=; [done|].
  apply NoDup_cons in Hnd as [Hk Hnd]. assert (v' = v) as ->.
  { assert (Hin : (k, v') ∈ (k, v) :: l) by (rewrite <- Hp; left). apply elem_of_cons in Hin as [[= ->]|Hin]; [done|].
    destruct Hk. by apply (list_elem_of_fmap_2 fst) in Hin. }
  f_equal. apply IH; [done| |done]. by apply Permutation_cons_inv in Hp.
Qed.

Lemma fcfs_times_ids prev recs : (fcfs_times prev recs).*1 = rec_id <$> recs.
Proof. revert prev. induction recs as [|[[i a] d] recs IH]; intros prev; simpl; [done|]. by rewrite IH. Qed.

(** ** Theorem *)

(** A name that a shell passes on as it is and that [sort] does not take for an
    option. *)
Definition plain_char (c : ascii) : bool :=
  let n := nat_of_ascii c in
  ((97 <=? n) && (n <=? 122) || (65 <=? n) && (n <=? 90) || (45 <=? n) && (n <=? 57) || (n =? 95))%nat.
Definition plain_name (f : string) : Prop :=
  match String.list_ascii_of_string f with
  | [] => False
  | c :: l => plain_char c = true /\ c <> "-"%char /\ Forall (fun c => plain_char c = true) l
  end.

(** What [sort -t, -k1n,1 -o f f] does to lines of two numbers: the same lines in
    the order of the first number. *)
Definition sorts (system : string -> list (Z * Z) -> Z * list (Z * Z)) : Prop :=
  forall f c, plain_name f -> exists c', system (sort_command f) c = (0, c') /\ c' ≡ₚ c /\ StronglySorted by_id c'.

(** The simulator's output.  For a readable trace of jobs in order of arrival
    with increasing ids, whose work ends within 64 bits, and an output file with a
    plain name, the program ends with status 0 under each of the four schedulers
    and leaves one line per job, in the order of the trace; under FCFS these are
    exactly the completion times of a queue.  Other numbers of arguments give the
    status -1. *)
Theorem main_writes_times `{Malloc} trace_of can_write system room fuel program traceFile outFile name recs n :
  sorts system -> (forall k, room k = true) -> plain_name outFile -> strlen outFile < 2 ^ 31 ->
  trace_of traceFile = Some (Some <$> recs) -> can_write outFile = true -> is_Some (policy_named name) ->
  malloc_room_for n -> (length recs + 3 <= n)%nat -> records_ok 0 recs -> StronglySorted Z.lt (rec_id <$> recs) ->
  finish 0 recs < w64 -> (fuel_for recs <= fuel)%nat ->
  exists out, main trace_of can_write system room fuel [program; traceFile; outFile; name] = Done (0, out) /\
    out.*1 = rec_id <$> recs /\ Forall (fun x => x.2 <= finish 0 recs) out /\
    (name = "FCFS"%string -> out = fcfs_times 0 recs) /\
    forall args, length args <> 4%nat -> main trace_of can_write system room fuel args = Done (-1, []).
Proof.
  intros Hsys Hroom Hf Hlen Htr Hw [P HP] Hm Hn Hr Hids Hfin Hfuel.
  destruct (traceRun_live fuel recs name P n HP Hm Hn Hr Hfin Hfuel) as (out & Hspec & Hrun & Hout & Hall).
  destruct (Hsys outFile out Hf) as (out' & Hsort & Hp & Hs). exists out'.
  assert (Hkeys : out'.*1 = rec_id <$> recs) by by apply (sorted_by_id _ out).
  assert (Hl : 0 <= strlen outFile) by (unfold strlen; lia). change (2 ^ 31) with 2147483648 in Hlen.
  split; [|split; [exact Hkeys|split; [by rewrite Hp|split]]].
  - unfold main. rewrite Htr, Hw, Hrun. cbn [mbind outcome_bind negb]. rewrite Hroom, sort_command_length. cbn [negb].
    change (strlen "sort -t, -k1n,1 -o  ") with 20. rewrite mul64_small, (add64_small (2 * _)), add64_small by u64_lia.
    rewrite sub64_small by u64_lia. rewrite bool_decide_false by lia. by rewrite Hsort.
  - intros ->. injection HP as <-. rewrite (fcfs_run _ _ Hr Hfin Hfuel) in Hspec. injection Hspec as <-.
    apply permuted_keys; [rewrite fcfs_times_ids; by apply sorted_lt_le|done|by rewrite Hkeys, fcfs_times_ids].
  - intros args Hargs. destruct args as [|? [|? [|? [|? [|? ?]]]]]; try done.
Qed.

#[export] Instance by_id_dec x y : Decision (by_id x y).
Proof. unfold by_id. apply _. Defined.
#[export] Instance by_id_trans : Transitive by_id.
Proof. intros [] [] []; unfold by_id; simpl; lia. Qed.
#[export] Instance by_id_total : Total by_id.
Proof. intros [] []; unfold by_id; simpl; lia. Qed.

(** A shell whose [sort] works, for the example. *)
Definition demo_system (cmd : string) (c : list (Z * Z)) : Z * list (Z * Z) := (0, merge_sort by_id c).

Lemma demo_sorts : sorts demo_system.
Proof.
  intros f c _. exists (merge_sort by_id c). split_done; [apply merge_sort_Permutation|].
  apply (StronglySorted_merge_sort by_id).
Qed.

Lemma main_writes_times_witness :
  @main malloc_first (fun _ => Some (Some <$> demo_recs)) (fun _ => true) demo_system (fun _ => true) 20
    ["simulator"; "trace.txt"; "out.txt"; "LCFS"]%string = Done (0, [(1, 5); (2, 9); (3, 6)]).
Proof.
  destruct (@main_writes_times malloc_first (fun _ => Some (Some <$> demo_recs)) (fun _ => true) demo_system (fun _ => true) 20
    "simulator" "trace.txt" "out.txt" "LCFS" demo_recs 6) as (out & E & _).
  - exact demo_sorts.
  - done.
  - vm_compute. repeat split; [discriminate|repeat constructor].
  - vm_compute. reflexivity.
  - done.
  - done.
  - eexists. reflexivity.
  - apply malloc_first_room. vm_compute. reflexivity.
  - vm_compute. lia.
  - vm_compute. repeat split; intros; discriminate.
  - repeat constructor; vm_compute; done.
  - vm_compute. reflexivity.
  - vm_compute. lia.
  - rewrite E. vm_compute in E. injection E as <-. reflexivity.
Defined.
