(* ===== verification/MemLib.v ===== *)
(** * The simulated memory of malloclab

    [assignment-2-malloclab-FreezeKickerz/memlib.c]: one mapped region, a break
    that only grows, and word accesses to the bytes of the region.  Addresses
    are [Z]; bytes never written are zero, as for a fresh anonymous mapping;
    an access outside the region is a fault. *)

From Stdlib Require Import ZArith Lia.
From stdpp Require Import gmap list.
From S2P Require Import Prelude.
Open Scope Z_scope.

(** ** State *)

Record mem := Mem {
  heap : Z;
  mem_brk : Z;
  mem_max_addr : Z;
  bytes : gmap Z Z
}.

Definition byte_at (m : mem) (a : Z) : Z := default 0 (bytes m !! a).

Definition set_byte (m : mem) (a v : Z) : mem :=
  Mem (heap m) (mem_brk m) (mem_max_addr m) (<[a := v mod 256]> (bytes m)).

Definition set_brk (m : mem) (b : Z) : mem := Mem (heap m) b (mem_max_addr m) (bytes m).

(** The [n] bytes from [a], least significant first. *)
Fixpoint read_bytes (n : nat) (m : mem) (a : Z) : Z :=
  match n with O => 0 | S n => byte_at m a + 256 * read_bytes n m (a + 1) end.

Fixpoint write_bytes (n : nat) (m : mem) (a v : Z) : mem :=
  match n with O => m | S n => set_byte (write_bytes n m (a + 1) (v / 256)) a v end.

Definition in_region (m : mem) (a n : Z) : bool := (heap m <=? a) && (a + n <=? mem_max_addr m).

(** The word at an address, and the word stores the programs make. *)
Definition word_at (m : mem) (a : Z) : Z := read_bytes 8 m a.
Definition put_word (m : mem) (a v : Z) : mem := write_bytes 8 m a v.

Definition load (m : mem) (a : Z) : outcome Z :=
  if in_region m a 8 then Done (word_at m a) else Fault OutOfRange.
Definition store (m : mem) (a v : Z) : outcome mem :=
  if in_region m a 8 then Done (put_word m a v) else Fault OutOfRange.

(** ** The functions of memlib.c *)

Definition MAX_HEAP_SIZE : Z := 1099511627776.

(** [(void * ) -1] *)
Definition failed_sbrk : Z := u64_max.

(** Conversion of a 64-bit unsigned value to [intptr_t]. *)
Definition to_intptr (z : Z) : Z := if z <? 9223372036854775808 then z else z - w64.

Definition mm_sbrk (m : mem) (incr : Z) : Z * mem :=
  let old_brk := mem_brk m in
  if incr <? 0 then (failed_sbrk, m)
  else if mem_max_addr m <? mem_brk m + incr then (failed_sbrk, m)
  else (old_brk, set_brk m (mem_brk m + incr)).

Definition mm_heap_lo (m : mem) : Z := heap m.
Definition mm_heap_hi (m : mem) : Z := mem_brk m - 1.
Definition mm_heapsize (m : mem) : Z := wrap64 (mem_brk m - heap m).

Definition mem_reset_brk (m : mem) : mem := set_brk m (heap m).

(** [mapped] is what [mmap] returned. *)
Definition mem_init (mapped : option Z) : outcome mem :=
  match mapped with
  | None => Fault (Exited 1)
  | Some addr => Done (mem_reset_brk (Mem addr addr (addr + MAX_HEAP_SIZE) ∅))
  end.

(** [unmapped] is whether [munmap] succeeded. *)
Definition mem_deinit (m : mem) (unmapped : bool) : outcome unit :=
  if unmapped then Done tt else Fault (Exited 1).

Definition mem_sbrk := mm_sbrk.
Definition mem_heap_lo := mm_heap_lo.
Definition mem_heap_hi := mm_heap_hi.
Definition mem_heapsize := mm_heapsize.

(** A full word is always read, then masked. *)
Definition mem_read (m : mem) (addr len : Z) : outcome Z :=
  rdata ← load m addr;
  Done (if len <? 8 then Z.land rdata (Z.shiftl 1 (8 * len) - 1) else rdata).

Definition mem_write (m : mem) (addr val len : Z) : outcome mem :=
  if len =? 8 then store m addr val
  else if in_region m addr len then Done (write_bytes (Z.to_nat len) m addr val)
  else Fault OutOfRange.

(** The loops of [mm_memcpy] and [mm_memset]: [n / 8] words, then the rest. *)
Fixpoint memcpy_words (k : nat) (m : mem) (dst src : Z) : outcome mem :=
  match k with
  | O => Done m
  | S k =>
      data ← mem_read m src 8;
      m ← mem_write m dst data 8;
      memcpy_words k m (dst + 8) (src + 8)
  end.

Definition mm_memcpy (m : mem) (dst src n : Z) : outcome mem :=
  m ← memcpy_words (Z.to_nat (n / 8)) m dst src;
  if n mod 8 =? 0 then Done m
  else
    data ← mem_read m (src + 8 * (n / 8)) (n mod 8);
    mem_write m (dst + 8 * (n / 8)) data (n mod 8).

(** The loop that repeats a byte eight times. *)
Fixpoint repeat_byte (i : nat) (byte : Z) : Z :=
  match i with O => 0 | S i => Z.lor (repeat_byte i byte) (Z.shiftl byte (8 * Z.of_nat i)) end.

Fixpoint memset_words (k : nat) (m : mem) (dst data : Z) : outcome mem :=
  match k with
  | O => Done m
  | S k => m ← mem_write m dst data 8; memset_words k m (dst + 8) data
  end.

Definition mm_memset (m : mem) (dst c n : Z) : outcome mem :=
  let byte := Z.land c 255 in
  let data := repeat_byte 8 byte in
  m ← memset_words (Z.to_nat (n / 8)) m dst data;
  if n mod 8 =? 0 then Done m else mem_write m (dst + 8 * (n / 8)) data (n mod 8).

Definition mem_memcpy := mm_memcpy.
Definition mem_memset := mm_memset.

(** [hprobe] prints the bytes of a range of the heap, the highest address first;
    the result is what it prints, [None] the complaint about the range. *)
Definition hprobe (m : mem) (ptr offset count : Z) : outcome (option (list Z)) :=
  let cptr_lo := ptr + offset in
  let cptr_hi := cptr_lo + count - 1 in
  if cptr_lo <? mem_heap_lo m then Done None
  else if mem_heap_hi m <? cptr_hi then Done None
  else
    bs ← (fix go (n : nat) (iptr : Z) : outcome (list Z) :=
            match n with
            | O => Done []
            | S n => b ← mem_read m iptr 1; rest ← go n (iptr - 1); Done (b :: rest)
            end) (Z.to_nat count) cptr_hi;
    Done (Some bs).

(** ** Bytes and words *)

Definition byte (z : Z) : Prop := 0 <= z < 256.

Record mem_ok (m : mem) : Prop := {
  mo_bytes : map_Forall (fun _ v => byte v) (bytes m);
  mo_lo : heap m <= mem_brk m;
  mo_hi : mem_brk m <= mem_max_addr m
}.

Lemma byte_at_set m a b v : byte_at (set_byte m a v) b = if decide (a = b) then v mod 256 else byte_at m b.
Proof.
  unfold byte_at, set_byte. simpl. case_decide as E; subst.
  - by rewrite lookup_insert_eq.
  - by rewrite lookup_insert_ne.
Qed.

Lemma write_bytes_frame n m a v :
  heap (write_bytes n m a v) = heap m /\ mem_brk (write_bytes n m a v) = mem_brk m /\
  mem_max_addr (write_bytes n m a v) = mem_max_addr m.
Proof. revert m a v. induction n as [|n IH]; intros m a v; simpl; [done|]. apply IH. Qed.

Lemma byte_at_write n m a v x :
  byte_at (write_bytes n m a v) x =
    if decide (a <= x < a + Z.of_nat n) then (v / 256 ^ (x - a)) mod 256 else byte_at m x.
Proof.
  revert m a v. induction n as [|n IH]; intros m a v; simpl write_bytes.
  { by rewrite decide_False by lia. }
  rewrite byte_at_set, IH. destruct (decide (a = x)) as [->|Hne].
  - rewrite decide_True by lia. by rewrite Z.sub_diag, Z.div_1_r.
  - destruct (decide (a + 1 <= x < a + 1 + Z.of_nat n)).
    + rewrite decide_True by lia. rewrite Z.div_div by lia. do 2 f_equal.
      replace (x - a) with (Z.succ (x - (a + 1))) by lia. by rewrite Z.pow_succ_r by lia.
    + by rewrite decide_False by lia.
Qed.

Lemma read_bytes_ext n m m' a :
  (forall x, a <= x < a + Z.of_nat n -> byte_at m' x = byte_at m x) -> read_bytes n m' a = read_bytes n m a.
Proof.
  revert a. induction n as [|n IH]; intros a Hx; simpl; [done|]. rewrite Hx by lia.
  rewrite IH; [done|]. intros x ?. apply Hx. lia.
Qed.

Lemma read_bytes_value n m a v :
  (forall x, a <= x < a + Z.of_nat n -> byte_at m x = (v / 256 ^ (x - a)) mod 256) ->
  read_bytes n m a = v mod 256 ^ Z.of_nat n.
Proof.
  revert a v. induction n as [|n IH]; intros a v Hx; [by rewrite Z.mod_1_r|].
  change (read_bytes (S n) m a) with (byte_at m a + 256 * read_bytes n m (a + 1)).
  rewrite (Hx a), Z.sub_diag, Z.div_1_r by lia. rewrite (IH (a + 1) (v / 256)).
  - rewrite Nat2Z.inj_succ, Z.pow_succ_r by lia. rewrite Z.rem_mul_r; [done|lia|].
    apply Z.pow_pos_nonneg; lia.
  - intros x ?. rewrite Hx, Z.div_div by lia. do 2 f_equal.
    replace (x - a) with (Z.succ (x - (a + 1))) by lia. by rewrite Z.pow_succ_r by lia.
Qed.

Lemma word_at_put m a v : u64 v -> word_at (put_word m a v) a = v.
Proof.
  intros Hv. unfold word_at, put_word. rewrite (read_bytes_value 8 _ a v).
  - apply Z.mod_small. exact Hv.
  - intros x Hx. rewrite byte_at_write. by rewrite decide_True.
Qed.

Lemma word_at_put_ne m a b v : (a + 8 <= b \/ b + 8 <= a) -> word_at (put_word m a v) b = word_at m b.
Proof.
  intros Hab. apply read_bytes_ext. intros x Hx. unfold put_word. rewrite byte_at_write.
  rewrite decide_False; [done|]. simpl in *. lia.
Qed.

Lemma byte_at_put m a v x : (x < a \/ a + 8 <= x) -> byte_at (put_word m a v) x = byte_at m x.
Proof. intros Hx. unfold put_word. rewrite byte_at_write, decide_False; [done|]. simpl. lia. Qed.

Lemma read_bytes_range n m a : mem_ok m -> 0 <= read_bytes n m a < 256 ^ Z.of_nat n.
Proof.
  intros Hm. revert a. induction n as [|n IH]; intros a; simpl read_bytes; [done|].
  specialize (IH (a + 1)). rewrite Nat2Z.inj_succ, Z.pow_succ_r by lia.
  assert (Hb : byte (byte_at m a)).
  { unfold byte_at. destruct (bytes m !! a) as [v|] eqn:Hv; simpl; [|by vm_compute].
    exact (mo_bytes _ Hm _ _ Hv). }
  unfold byte in Hb. lia.
Qed.

Lemma word_at_range m a : mem_ok m -> u64 (word_at m a).
Proof. intros Hm. exact (read_bytes_range 8 m a Hm). Qed.

Lemma write_bytes_ok n m a v : mem_ok m -> mem_ok (write_bytes n m a v).
Proof.
  revert m a v. induction n as [|n IH]; intros m a v Hm; simpl; [done|].
  destruct (IH m (a + 1) (v / 256) Hm) as [Hb Hl Hh]. split; simpl; try done.
  apply map_Forall_insert_2; [|done]. apply Z.mod_pos_bound. lia.
Qed.

Lemma put_word_ok m a v : mem_ok m -> mem_ok (put_word m a v).
Proof. apply write_bytes_ok. Qed.

Lemma put_word_frame m a v :
  heap (put_word m a v) = heap m /\ mem_brk (put_word m a v) = mem_brk m /\
  mem_max_addr (put_word m a v) = mem_max_addr m.
Proof. apply write_bytes_frame. Qed.

Lemma load_ok m a : heap m <= a -> a + 8 <= mem_max_addr m -> load m a = Done (word_at m a).
Proof. intros ? ?. unfold load, in_region. by rewrite !(proj2 (Z.leb_le _ _)). Qed.

Lemma store_ok m a v : heap m <= a -> a + 8 <= mem_max_addr m -> store m a v = Done (put_word m a v).
Proof. intros ? ?. unfold store, in_region. by rewrite !(proj2 (Z.leb_le _ _)). Qed.

Lemma byte_at_range m a : mem_ok m -> byte (byte_at m a).
Proof.
  intros Hm. unfold byte_at. destruct (bytes m !! a) as [v|] eqn:Hv; simpl; [|by vm_compute].
  exact (mo_bytes _ Hm _ _ Hv).
Qed.

Lemma byte_of_read n m a i :
  mem_ok m -> 0 <= i < Z.of_nat n -> (read_bytes n m a / 256 ^ i) mod 256 = byte_at m (a + i).
Proof.
  intros Hm. revert a i. induction n as [|n IH]; intros a i Hi; [lia|].
  change (read_bytes (S n) m a) with (byte_at m a + 256 * read_bytes n m (a + 1)).
  pose proof (byte_at_range m a Hm) as Hb. unfold byte in Hb.
  destruct (decide (i = 0)) as [->|Hne].
  - rewrite Z.pow_0_r, Z.div_1_r, Z.add_0_r, (Z.mul_comm 256), Z.mod_add by lia. by apply Z.mod_small.
  - replace (256 ^ i) with (256 * 256 ^ (i - 1)).
    2:{ rewrite <- Z.pow_succ_r by lia. f_equal. lia. }
    rewrite <- Z.div_div by (try lia; apply Z.pow_pos_nonneg; lia).
    rewrite (Z.mul_comm 256 (read_bytes _ _ _)), Z.div_add by lia.
    rewrite (Z.div_small (byte_at m a) 256), Z.add_0_l by lia. rewrite IH by lia. f_equal. lia.
Qed.

Lemma byte_of_mod v n i : 0 <= i < n -> (v mod 256 ^ n / 256 ^ i) mod 256 = (v / 256 ^ i) mod 256.
Proof.
  intros Hi. replace (256 ^ n) with (256 ^ i * 256 ^ (n - i)).
  2:{ rewrite <- Z.pow_add_r by lia. f_equal. lia. }
  assert (0 < 256 ^ i) by (apply Z.pow_pos_nonneg; lia).
  assert (0 < 256 ^ (n - i)) by (apply Z.pow_pos_nonneg; lia).
  rewrite Z.rem_mul_r by lia. rewrite (Z.mul_comm (256 ^ i)), Z.div_add by lia.
  rewrite (Z.div_small (v mod 256 ^ i)), Z.add_0_l by by apply Z.mod_pos_bound.
  rewrite <- Znumtheory.Zmod_div_mod; [done|lia|lia|].
  exists (256 ^ (n - i - 1)). rewrite Z.mul_comm, <- Z.pow_succ_r by lia. f_equal. lia.
Qed.

(** [copied m m' dst src n]: [m'] is [m] with [n] bytes copied. *)
Definition same_region (m m' : mem) : Prop :=
  heap m' = heap m /\ mem_brk m' = mem_brk m /\ mem_max_addr m' = mem_max_addr m.

Definition copied (m m' : mem) (dst src n : Z) : Prop :=
  same_region m m' /\ mem_ok m' /\
  forall x, byte_at m' x = if decide (dst <= x < dst + n) then byte_at m (x - dst + src) else byte_at m x.

Definition filled (m m' : mem) (dst c n : Z) : Prop :=
  same_region m m' /\ mem_ok m' /\
  forall x, byte_at m' x = if decide (dst <= x < dst + n) then c mod 256 else byte_at m x.

Definition inside (m : mem) (a n : Z) : Prop := heap m <= a /\ a + n <= mem_max_addr m.

Lemma mem_write_word m a v : inside m a 8 -> mem_write m a v 8 = Done (put_word m a v).
Proof. intros []. unfold mem_write. rewrite Z.eqb_refl. by apply store_ok. Qed.

Lemma mem_write_part m a v n :
  0 < n < 8 -> inside m a n -> mem_write m a v n = Done (write_bytes (Z.to_nat n) m a v).
Proof.
  intros Hn []. unfold mem_write, in_region. rewrite (proj2 (Z.eqb_neq _ _)) by lia.
  by rewrite !(proj2 (Z.leb_le _ _)) by lia.
Qed.

Lemma mem_read_word m a : inside m a 8 -> mem_read m a 8 = Done (word_at m a).
Proof. intros []. unfold mem_read. rewrite load_ok by done. done. Qed.

Lemma mem_read_part m a n :
  0 < n < 8 -> inside m a 8 -> mem_read m a n = Done (word_at m a mod 256 ^ n).
Proof.
  intros Hn []. unfold mem_read. rewrite load_ok by done. simpl.
  rewrite (proj2 (Z.ltb_lt _ _)) by lia. f_equal.
  assert (E : Z.shiftl 1 (8 * n) - 1 = Z.ones (8 * n)).
  { rewrite Z.ones_equiv, Z.shiftl_1_l. lia. }
  rewrite E, Z.land_ones by lia. f_equal. by rewrite Z.pow_mul_r by lia.
Qed.

Lemma memcpy_words_ok k m dst src :
  mem_ok m -> inside m dst (8 * Z.of_nat k) -> inside m src (8 * Z.of_nat k) ->
  (src + 8 * Z.of_nat k <= dst \/ dst + 8 * Z.of_nat k <= src) ->
  exists m', memcpy_words k m dst src = Done m' /\ copied m m' dst src (8 * Z.of_nat k).
Proof.
  revert m dst src. induction k as [|k IH]; intros m dst src Hm Hd Hs Hdis.
  - exists m. split; [done|]. split; [done|]. split; [done|]. intros x. by rewrite decide_False by lia.
  - cbn [memcpy_words]. unfold inside in *.
    rewrite mem_read_word by (unfold inside; lia). cbn [mbind outcome_bind].
    rewrite mem_write_word by (unfold inside; lia). cbn [mbind outcome_bind].
    pose proof (put_word_frame m dst (word_at m src)) as (E1 & E2 & E3).
    destruct (IH (put_word m dst (word_at m src)) (dst + 8) (src + 8)) as (m' & -> & (F1 & F2 & F3) & Hm' & Hx);
      [by apply put_word_ok|rewrite E1, E3; lia|rewrite E1, E3; lia|lia|].
    exists m'. split; [done|]. split; [|split; [done|]]; [unfold same_region; split_done; congruence|].
    intros x. rewrite Hx. unfold put_word. rewrite !byte_at_write.
    destruct (decide (dst + 8 <= x < dst + 8 + 8 * Z.of_nat k)).
    + rewrite decide_False by lia. rewrite decide_True by lia. f_equal. lia.
    + destruct (decide (dst <= x < dst + Z.of_nat 8)).
      * rewrite decide_True by lia. unfold word_at. rewrite byte_of_read by (try done; lia). f_equal. lia.
      * by rewrite decide_False by lia.
Qed.

Lemma mm_memcpy_ok m dst src n :
  mem_ok m -> 0 <= n -> inside m dst n -> inside m src (8 * ((n + 7) / 8)) ->
  (src + n <= dst \/ dst + n <= src) ->
  exists m', mm_memcpy m dst src n = Done m' /\ copied m m' dst src n.
Proof.
  intros Hm Hn Hd Hs Hdis. unfold mm_memcpy, inside in *.
  pose proof (Z.div_mod n 8 ltac:(lia)) as Hdm. pose proof (Z.mod_pos_bound n 8 ltac:(lia)) as Hmod.
  assert (Hq : 0 <= n / 8) by (apply Z.div_pos; lia).
  assert (Hup : 8 * (n / 8) + (if n mod 8 =? 0 then 0 else 8) <= 8 * ((n + 7) / 8)).
  { destruct (Z.eqb_spec (n mod 8) 0).
    - assert (n / 8 <= (n + 7) / 8) by (apply Z.div_le_mono; lia). lia.
    - assert (n / 8 + 1 <= (n + 7) / 8) by (apply Z.div_le_lower_bound; lia). lia. }
  destruct (memcpy_words_ok (Z.to_nat (n / 8)) m dst src Hm) as (m1 & -> & (E1 & E2 & E3) & Hm1 & Hx1);
    rewrite ?Z2Nat.id in * by lia; [unfold inside; lia|unfold inside; case_match; lia|lia|].
  cbn [mbind outcome_bind]. destruct (Z.eqb_spec (n mod 8) 0) as [E|Hne].
  - exists m1. split; [done|]. rewrite E, Z.add_0_r in Hdm. rewrite Hdm. by split_done.
  - rewrite mem_read_part by (unfold inside; rewrite ?E1, ?E3; lia). cbn [mbind outcome_bind].
    rewrite mem_write_part by (unfold inside; rewrite ?E1, ?E3; lia). eexists. split; [done|].
    split; [|split]; [|by apply write_bytes_ok|].
    + pose proof (write_bytes_frame (Z.to_nat (n mod 8)) m1 (dst + 8 * (n / 8))
        (word_at m1 (src + 8 * (n / 8)) mod 256 ^ (n mod 8))) as (F1 & F2 & F3).
      unfold same_region. split_done; congruence.
    + intros x. rewrite byte_at_write, Z2Nat.id by lia.
      destruct (decide (dst + 8 * (n / 8) <= x < dst + 8 * (n / 8) + n mod 8)).
      * rewrite decide_True by lia. rewrite byte_of_mod by lia.
        unfold word_at. rewrite byte_of_read by (try done; lia). rewrite Hx1, decide_False by lia. f_equal. lia.
      * rewrite Hx1. destruct (decide (dst <= x < dst + 8 * (n / 8)));
          [by rewrite decide_True by lia|by rewrite decide_False by lia].
Qed.

(** [mm_memcpy] copies.  For two ranges of [n] bytes that do not overlap, in
    the region up to the whole words the function reads, every byte of the
    destination becomes the byte of the source and no other byte changes. *)
Theorem mm_memcpy_copies m dst src n :
  mem_ok m -> 0 <= n -> inside m dst n -> inside m src (8 * ((n + 7) / 8)) ->
  (src + n <= dst \/ dst + n <= src) ->
  exists m', mm_memcpy m dst src n = Done m' /\ copied m m' dst src n.
Proof. exact (mm_memcpy_ok m dst src n). Qed.

Lemma repeat_byte_value c i :
  byte c -> 0 <= i < 8 -> (repeat_byte 8 c / 256 ^ i) mod 256 = c.
Proof.
  intros Hc Hi. unfold byte in Hc.
  assert (E : Forall (fun c => forall i, i ∈ seqZ 0 8 -> (repeat_byte 8 c / 256 ^ i) mod 256 = c) (seqZ 0 256)).
  { apply List.Forall_forall. intros c' Hc'.
    assert (Hb : forallb (fun c => forallb (fun i => (repeat_byte 8 c / 256 ^ i) mod 256 =? c) (seqZ 0 8)) (seqZ 0 256) = true)
      by (vm_compute; reflexivity).
    rewrite forallb_forall in Hb. specialize (Hb c' Hc'). rewrite forallb_forall in Hb.
    intros j Hj. apply Z.eqb_eq, Hb. by apply list_elem_of_In. }
  rewrite Forall_forall in E. apply E; apply elem_of_seqZ; lia.
Qed.

Lemma memset_words_ok k m dst c :
  mem_ok m -> byte c -> inside m dst (8 * Z.of_nat k) ->
  exists m', memset_words k m dst (repeat_byte 8 c) = Done m' /\ filled m m' dst c (8 * Z.of_nat k).
Proof.
  intros Hm Hc. revert m dst Hm. induction k as [|k IH]; intros m dst Hm Hd.
  - exists m. split; [done|]. split; [done|]. split; [done|]. intros x. by rewrite decide_False by lia.
  - cbn [memset_words]. unfold inside in *.
    rewrite mem_write_word by (unfold inside; lia). cbn [mbind outcome_bind].
    pose proof (put_word_frame m dst (repeat_byte 8 c)) as (E1 & E2 & E3).
    destruct (IH (put_word m dst (repeat_byte 8 c)) (dst + 8)) as (m' & -> & (F1 & F2 & F3) & Hm' & Hx);
      [by apply put_word_ok|rewrite E1, E3; lia|].
    exists m'. split; [done|]. split; [|split; [done|]]; [unfold same_region; split_done; congruence|].
    intros x. rewrite Hx. unfold put_word. rewrite !byte_at_write.
    destruct (decide (dst + 8 <= x < dst + 8 + 8 * Z.of_nat k)); [by rewrite decide_True by lia|].
    destruct (decide (dst <= x < dst + Z.of_nat 8)).
    + rewrite decide_True by lia. rewrite repeat_byte_value by (try done; lia).
      by rewrite Z.mod_small by apply Hc.
    + by rewrite decide_False by lia.
Qed.

Lemma mm_memset_ok m dst c n :
  mem_ok m -> 0 <= n -> inside m dst n ->
  exists m', mm_memset m dst c n = Done m' /\ filled m m' dst c n.
Proof.
  intros Hm Hn Hd. unfold mm_memset.
  assert (E : Z.land c 255 = c mod 256) by (apply (Z.land_ones c 8); lia). rewrite E.
  assert (Hc : byte (c mod 256)) by (apply Z.mod_pos_bound; lia).
  pose proof (Z.div_mod n 8 ltac:(lia)) as Hdm. pose proof (Z.mod_pos_bound n 8 ltac:(lia)) as Hmod.
  assert (Hq : 0 <= n / 8) by (apply Z.div_pos; lia). unfold inside in *.
  destruct (memset_words_ok (Z.to_nat (n / 8)) m dst (c mod 256) Hm Hc) as (m1 & -> & (E1 & E2 & E3) & Hm1 & Hx1);
    rewrite ?Z2Nat.id in * by lia; [unfold inside; lia|].
  cbn [mbind outcome_bind]. rewrite Zmod_mod in Hx1. destruct (Z.eqb_spec (n mod 8) 0) as [E0|Hne].
  - exists m1. split; [done|]. rewrite E0, Z.add_0_r in Hdm. rewrite Hdm. by split_done.
  - rewrite mem_write_part by (unfold inside; rewrite ?E1, ?E3; lia). eexists. split; [done|].
    split; [|split]; [|by apply write_bytes_ok|].
    + pose proof (write_bytes_frame (Z.to_nat (n mod 8)) m1 (dst + 8 * (n / 8)) (repeat_byte 8 (c mod 256))) as (F1 & F2 & F3).
      unfold same_region. split_done; congruence.
    + intros x. rewrite byte_at_write, Z2Nat.id by lia.
      destruct (decide (dst + 8 * (n / 8) <= x < dst + 8 * (n / 8) + n mod 8)).
      * rewrite decide_True by lia. rewrite repeat_byte_value by (try done; lia). done.
      * rewrite Hx1. destruct (decide (dst <= x < dst + 8 * (n / 8)));
          [by rewrite decide_True by lia|by rewrite decide_False by lia].
Qed.

(** [mm_memset] fills.  The [n] bytes from [dst] all become the low byte of
    [c], and no other byte changes. *)
Theorem mm_memset_fills m dst c n :
  mem_ok m -> 0 <= n -> inside m dst n ->
  exists m', mm_memset m dst c n = Done m' /\ filled m m' dst c n.
Proof. exact (mm_memset_ok m dst c n). Qed.

(** A region of 64 bytes with two of them set. *)
Definition demo_mem : mem := Mem 1024 1024 1088 {[1024 := 7; 1033 := 9]}.

Lemma demo_mem_ok : mem_ok demo_mem.
Proof.
  split; simpl; [|lia|lia]. intros a v Hv. unfold byte.
  apply lookup_insert_Some in Hv as [[_ <-]|[_ Hv]]; [lia|].
  apply lookup_singleton_Some in Hv as [_ <-]. lia.
Qed.

Lemma mm_memcpy_copies_witness :
  exists m', mm_memcpy demo_mem 1050 1024 11 = Done m' /\ copied demo_mem m' 1050 1024 11.
Proof.
  apply (mm_memcpy_copies demo_mem 1050 1024 11).
  - exact demo_mem_ok.
  - lia.
  - split; vm_compute; intros; discriminate.
  - split; vm_compute; intros; discriminate.
  - left. vm_compute. intros; discriminate.
Defined.

Lemma mm_memset_fills_witness :
  exists m', mm_memset demo_mem 1030 (-2) 13 = Done m' /\ filled demo_mem m' 1030 (-2) 13.
Proof.
  apply (mm_memset_fills demo_mem 1030 (-2) 13).
  - exact demo_mem_ok.
  - lia.
  - split; vm_compute; intros; discriminate.
Defined.
