(* ===== verification/Mm.v ===== *)
(** * The allocator of malloclab: the code

    [assignment-2-malloclab-FreezeKickerz/mm.c] as the driver builds it: blocks
    with a header word (size, allocated flag 1, previous-allocated flag 2), a
    footer in free blocks only, and an explicit doubly linked free list threaded
    through them, all in the memory of [MemLib]. *)

From Stdlib Require Import ZArith Lia.
From stdpp Require Import gmap list.
From S2P Require Import Prelude MemLib.
Open Scope Z_scope.

Record mm := MM { memory : mem; free_block_pointer : Z }.

Definition ALIGNMENT : Z := 16.
Definition NULL : Z := 0.

(** Fields of a [Block] at an address. *)
Definition next_node (block : Z) : Z := block + 8.
Definition prev_node (block : Z) : Z := block + 16.

(** [w & ~3] *)
Definition block_size (w : Z) : Z := Z.land w (Z.lnot 3).

Definition words (n : Z) : Z := 8 * (n / 8).

Definition set_memory (s : mm) (m : mem) : mm := MM m (free_block_pointer s).
Definition set_free (s : mm) (b : Z) : mm := MM (memory s) b.

Definition rd (s : mm) (a : Z) : outcome Z := load (memory s) a.
Definition wr (s : mm) (a v : Z) : outcome mm := m ← store (memory s) a v; Done (set_memory s m).

(** [*a ^= v] and [*a &= ~v] *)
Definition xor_at (s : mm) (a v : Z) : outcome mm := w ← rd s a; wr s a (Z.lxor w v).
Definition clear_at (s : mm) (a v : Z) : outcome mm := w ← rd s a; wr s a (Z.land w (Z.lnot v)).

Definition align (x : Z) : Z := ALIGNMENT * (sub64 (add64 x ALIGNMENT) 1 / ALIGNMENT).

(** ** The free list *)

Definition remove_from_free_list (s : mm) (block : Z) : outcome mm :=
  prev ← rd s (prev_node block);
  s ← (if prev =? NULL
       then next ← rd s (next_node block); Done (set_free s next)
       else next ← rd s (next_node block); wr s (next_node prev) next);
  next ← rd s (next_node block);
  if next =? NULL then Done s
  else prev ← rd s (prev_node block); wr s (prev_node next) prev.

Definition add_to_free_list (s : mm) (block : Z) : outcome mm :=
  s ← wr s (prev_node block) NULL;
  s ← wr s (next_node block) (free_block_pointer s);
  s ← (if free_block_pointer s =? NULL then Done s
       else wr s (prev_node (free_block_pointer s)) block);
  Done (set_free s block).

(** The loop of [search], from the block [look]. *)
Fixpoint search_loop (fuel : nat) (s : mm) (look size : Z) : outcome Z :=
  if look =? NULL then Done NULL
  else
    match fuel with
    | O => Fault Diverges
    | S fuel =>
        w ← rd s look;
        if size <=? block_size w then Done look
        else look ← rd s (next_node look); search_loop fuel s look size
    end.

(** No more blocks than bytes. *)
Definition search_fuel (s : mm) : nat := Z.to_nat (mem_brk (memory s) - heap (memory s)).

Definition search (s : mm) (size : Z) : outcome Z :=
  search_loop (search_fuel s) s (free_block_pointer s) size.

(** The bound tests of [coalesce]; pointers to words step by 8. *)
Definition in_bounds (s : mm) (header : Z) : bool :=
  (mm_heap_lo (memory s) + 8 <=? header) && (header <? mm_heap_hi (memory s) - 56).

(** The two halves of [coalesce], before and after the block.  A merged
    neighbour leaves the free list and adds its size. *)
Definition coalesce_prev (s : mm) (block current_size : Z) (prev_free : bool) (prev_header : Z) : outcome (mm * Z * Z) :=
  if prev_free && in_bounds s prev_header then
    s ← remove_from_free_list s prev_header;
    pw ← rd s prev_header;
    Done (s, add64 current_size (block_size pw), prev_header)
  else Done (s, current_size, block).

Definition coalesce_next (s : mm) (next_header merged_size : Z) : outcome (mm * Z) :=
  if in_bounds s next_header then
    nw ← rd s next_header;
    if Z.land nw 1 =? 0 then
      s ← remove_from_free_list s next_header;
      nw ← rd s next_header;
      Done (s, add64 merged_size (block_size nw))
    else Done (s, merged_size)
  else Done (s, merged_size).

Definition coalesce (s : mm) (block : Z) : outcome mm :=
  w ← rd s block;
  let current_size := block_size w in
  let prev_free := Z.land w 2 =? 0 in
  footer ← rd s (block - 8);
  let prev_header := wrap64 (block - words (block_size footer)) in
  '(s, merged_size, merged_block) ← coalesce_prev s block current_size prev_free prev_header;
  let next_header := block + words current_size in
  '(s, merged_size) ← coalesce_next s next_header merged_size;
  if merged_size =? current_size then Done s
  else
    s ← remove_from_free_list s block;
    s ← wr s merged_block merged_size;
    s ← xor_at s merged_block 2;
    s ← wr s (merged_block + words merged_size - 8) merged_size;
    add_to_free_list s merged_block.

(** ** The interface *)

Definition mm_init (s : mm) : outcome (bool * mm) :=
  let '(heap_start, m) := mm_sbrk (memory s) (4096 + 16) in
  let s := set_memory s m in
  if heap_start =? failed_sbrk then Done (false, s)
  else
    let heap_end := mm_heap_hi (memory s) + 1 in
    s ← wr s heap_start 1;
    let free_block := heap_start + 8 in
    s ← wr s free_block 4096;
    s ← wr s (prev_node free_block) NULL;
    s ← wr s (next_node free_block) NULL;
    s ← xor_at s free_block 2;
    let s := set_free s free_block in
    s ← wr s (heap_end - 16) 4096;
    s ← wr s (heap_end - 8) 1;
    Done (true, s).

(** The header of a block that is allocated whole: its size with the allocated
    flag, keeping the previous-allocated flag. *)
Definition allocate_header (s : mm) (block size : Z) : outcome mm :=
  w ← rd s block;
  if negb (Z.land w 2 =? 0) then
    s ← wr s block (Z.lor size 1);
    xor_at s block 2
  else wr s block (Z.lor size 1).

(** The block size [malloc] asks for: the request and its header, aligned. *)
Definition required_size (size : Z) : Z :=
  let required_block_size := align (add64 size 8) in
  if required_block_size <? 32 then 32 else required_block_size.

Definition malloc (s : mm) (size : Z) : outcome (Z * mm) :=
  if size =? 0 then Done (NULL, s)
  else
    let required_block_size := required_size size in
    block ← search s required_block_size;
    if negb (block =? NULL) then
      w ← rd s block;
      let current_size := block_size w in
      let remaining_size := sub64 current_size required_block_size in
      if (remaining_size <=? 32) || (current_size =? required_block_size) then
        s ← allocate_header s block current_size;
        s ← xor_at s (block + words current_size) 2;
        s ← remove_from_free_list s block;
        Done (block + 8, s)
      else
        let extra_size := sub64 current_size required_block_size in
        s ← (if negb (Z.land w 2 =? 0) then
               s ← wr s block extra_size;
               xor_at s block 2
             else wr s block extra_size);
        s ← wr s (block + words extra_size - 8) extra_size;
        let alloc_header := block + words extra_size in
        s ← wr s alloc_header (Z.lor required_block_size 1);
        s ← xor_at s (block + words current_size) 2;
        Done (alloc_header + 8, s)
    else
      let '(new_block_ptr, m) := mm_sbrk (memory s) (to_intptr required_block_size) in
      let s := set_memory s m in
      if new_block_ptr =? failed_sbrk then Done (NULL, s)
      else
        let new_heap_end := mm_heap_hi (memory s) + 1 in
        let new_block_header := new_block_ptr - 8 in
        s ← allocate_header s new_block_header required_block_size;
        s ← wr s (new_heap_end - 8) 3;
        Done (new_block_ptr, s).

Definition free (s : mm) (ptr : Z) : outcome mm :=
  if ptr =? NULL then Done s
  else
    let block := ptr - 8 in
    s ← clear_at s block 1;
    w ← rd s block;
    let size := block_size w in
    s ← wr s (block + words size - 8) size;
    s ← clear_at s (block + words size) 2;
    s ← add_to_free_list s block;
    coalesce s block.

Definition realloc (s : mm) (oldptr size : Z) : outcome (Z * mm) :=
  if oldptr =? NULL then malloc s size
  else if size =? 0 then s ← free s oldptr; Done (NULL, s)
  else
    '(newMemory, s) ← malloc s size;
    s ← (if negb (newMemory =? NULL) then
           let old_block := oldptr - 8 in
           w ← rd s old_block;
           let old_block_size := block_size w in
           let bytes_to_copy := if old_block_size <? size then old_block_size else size in
           m ← mm_memcpy (memory s) newMemory oldptr bytes_to_copy;
           Done (set_memory s m)
         else Done s);
    s ← free s oldptr;
    Done (newMemory, s).

Definition calloc (s : mm) (nmemb size : Z) : outcome (Z * mm) :=
  let size := mul64 size nmemb in
  '(ptr, s) ← malloc s size;
  if negb (ptr =? NULL) then
    m ← mm_memset (memory s) ptr 0 size;
    Done (ptr, set_memory s m)
  else Done (ptr, s).

(** ** Checks *)

Definition in_heap (s : mm) (p : Z) : bool :=
  (p <=? mm_heap_hi (memory s)) && (mm_heap_lo (memory s) <=? p).

Definition aligned (p : Z) : bool := align p =? p.

(** What [mm_checkheap] prints when it is compiled with [DEBUG]. *)
Inductive complaint := HeaderOob | FooterOob | NotInFreeList (begin : Z).

Definition heap_low_bound (s : mm) : Z := mm_heap_lo (memory s) + 8.
Definition heap_high_bound (s : mm) : Z := mm_heap_hi (memory s) - 7.

Definition out_of_bounds (s : mm) (loc : Z) : bool :=
  (loc <? heap_low_bound s) || (heap_high_bound s <=? loc).

(** The pass over the free list. *)
Fixpoint check_free_list (fuel : nat) (s : mm) (checker : Z) : outcome (list complaint) :=
  if checker =? NULL then Done []
  else
    match fuel with
    | O => Fault Diverges
    | S fuel =>
        w ← rd s checker;
        let header_size := block_size w in
        let footer_loc := checker + words header_size - 8 in
        next ← rd s (next_node checker);
        rest ← check_free_list fuel s next;
        Done ((if out_of_bounds s checker then [HeaderOob] else []) ++
              (if out_of_bounds s footer_loc then [FooterOob] else []) ++ rest)
    end.

Fixpoint in_free_list (fuel : nat) (s : mm) (free_iter begin : Z) : outcome bool :=
  if free_iter =? NULL then Done false
  else
    match fuel with
    | O => Fault Diverges
    | S fuel =>
        if begin =? free_iter then Done true
        else next ← rd s (next_node free_iter); in_free_list fuel s next begin
    end.

(** The pass over the blocks. *)
Fixpoint check_blocks (fuel : nat) (s : mm) (begin : Z) : outcome (list complaint) :=
  if heap_high_bound s <=? begin then Done []
  else
    match fuel with
    | O => Fault Diverges
    | S fuel =>
        w ← rd s begin;
        here ← (if Z.land w 1 =? 0 then
                  found ← in_free_list (search_fuel s) s (free_block_pointer s) begin;
                  Done (if negb found then [NotInFreeList begin] else [])
                else Done []);
        rest ← check_blocks fuel s (begin + words (block_size w));
        Done (here ++ rest)
    end.

Definition checkheap_debug (s : mm) : outcome (list complaint) :=
  l ← check_free_list (search_fuel s) s (free_block_pointer s);
  k ← check_blocks (search_fuel s) s (heap_low_bound s);
  Done (l ++ k).

(** Without [DEBUG], as the driver builds it, the body is empty. *)
Definition mm_checkheap (s : mm) (line_number : Z) : bool := true.
