(* ===== verification/MmHeap.v ===== *)
(** * The heap of the allocator

    What the memory of [Mm] holds: header words, the chain of blocks between
    the prologue and the epilogue, and the free list through the free blocks,
    with the lemmas on the code that reads and writes them. *)

From Stdlib Require Import ZArith Lia.
From stdpp Require Import gmap list.
From S2P Require Import Prelude MemLib Mm.
Open Scope Z_scope.

(** ** Header words *)

Ltac flag_cases al pv :=
  destruct al, pv;
  repeat match goal with
  | |- context [Z.land ?a ?b] => let v := eval vm_compute in (Z.land a b) in change (Z.land a b) with v
  end; simpl; lia.

(** The header of a block of size [sz] with its two flags. *)
Definition hdr (sz : Z) (al pv : bool) : Z := sz + Z.b2z al + 2 * Z.b2z pv.

Lemma land_lnot w c : 0 <= w -> 0 <= c -> Z.land w (Z.lnot c) = w - Z.land w c.
Proof.
  intros _ _. rewrite <- Z.ldiff_land.
  pose proof (Z.add_nocarry_lxor (Z.ldiff w c) (Z.land w c)) as Hadd.
  assert (Hz : Z.land (Z.ldiff w c) (Z.land w c) = 0).
  { apply Z.bits_inj'. intros n Hn. rewrite Z.bits_0, !Z.land_spec, Z.ldiff_spec.
    destruct (Z.testbit w n), (Z.testbit c n); done. }
  specialize (Hadd Hz).
  assert (Hx : Z.lxor (Z.ldiff w c) (Z.land w c) = w).
  { apply Z.bits_inj'. intros n Hn. rewrite Z.lxor_spec, Z.ldiff_spec, Z.land_spec.
    destruct (Z.testbit w n), (Z.testbit c n); done. }
  lia.
Qed.

Lemma land_low w c : 0 <= c < 4 -> Z.land w c = Z.land (w mod 4) c.
Proof.
  intros Hc. assert (E : w mod 4 = Z.land w (Z.ones 2)) by (rewrite Z.land_ones by lia; done).
  rewrite E, <- Z.land_assoc. f_equal.
  rewrite Z.land_comm, Z.land_ones by lia. symmetry. apply Z.mod_small. simpl. lia.
Qed.

Lemma hdr_mod sz al pv : sz mod 16 = 0 -> hdr sz al pv mod 4 = Z.b2z al + 2 * Z.b2z pv.
Proof.
  intros Hsz. unfold hdr. assert (E : sz = 4 * (4 * (sz / 16))) by (pose proof (Z.div_mod sz 16); lia).
  rewrite E. symmetry. apply Z.mod_unique with (4 * (sz / 16)); destruct al, pv; simpl; lia.
Qed.

Lemma hdr_land2 sz al pv : sz mod 16 = 0 -> (Z.land (hdr sz al pv) 2 =? 0) = negb pv.
Proof. intros Hsz. rewrite land_low, hdr_mod by (try done; lia). by destruct al, pv. Qed.

Lemma hdr_land1 sz al pv : sz mod 16 = 0 -> (Z.land (hdr sz al pv) 1 =? 0) = negb al.
Proof. intros Hsz. rewrite land_low, hdr_mod by (try done; lia). by destruct al, pv. Qed.

Lemma hdr_size sz al pv : 0 <= sz -> sz mod 16 = 0 -> block_size (hdr sz al pv) = sz.
Proof.
  intros H0 Hsz. unfold block_size. rewrite land_lnot by (unfold hdr; destruct al, pv; simpl; lia).
  rewrite land_low, hdr_mod by (try done; lia). unfold hdr. flag_cases al pv.
Qed.

Lemma hdr_clear1 sz al pv : 0 <= sz -> sz mod 16 = 0 -> Z.land (hdr sz al pv) (Z.lnot 1) = hdr sz false pv.
Proof.
  intros H0 Hsz. rewrite land_lnot by (unfold hdr; destruct al, pv; simpl; lia).
  rewrite land_low, hdr_mod by (try done; lia). unfold hdr. flag_cases al pv.
Qed.

Lemma hdr_clear2 sz al pv : 0 <= sz -> sz mod 16 = 0 -> Z.land (hdr sz al pv) (Z.lnot 2) = hdr sz al false.
Proof.
  intros H0 Hsz. rewrite land_lnot by (unfold hdr; destruct al, pv; simpl; lia).
  rewrite land_low, hdr_mod by (try done; lia). unfold hdr. flag_cases al pv.
Qed.

Lemma hdr_xor2 sz al pv : 0 <= sz -> sz mod 16 = 0 -> Z.lxor (hdr sz al pv) 2 = hdr sz al (negb pv).
Proof.
  intros H0 Hsz. destruct pv; simpl.
  - assert (E : Z.lxor (hdr sz al false) 2 = hdr sz al true).
    { rewrite <- Z.add_nocarry_lxor; [unfold hdr; simpl; lia|].
      pose proof (hdr_land2 sz al false Hsz) as Hl. by apply Z.eqb_eq in Hl. }
    rewrite <- E, Z.lxor_assoc, Z.lxor_nilpotent. by rewrite Z.lxor_0_r.
  - rewrite <- Z.add_nocarry_lxor; [unfold hdr; simpl; lia|].
    pose proof (hdr_land2 sz al false Hsz) as Hl. by apply Z.eqb_eq in Hl.
Qed.

Lemma hdr_lor1 sz : 0 <= sz -> sz mod 16 = 0 -> Z.lor sz 1 = hdr sz true false.
Proof.
  intros H0 Hsz. pose proof (hdr_land1 sz false false Hsz) as Hl. apply Z.eqb_eq in Hl.
  assert (E : hdr sz false false = sz) by (unfold hdr; simpl; lia). rewrite E in Hl.
  pose proof (Z.add_lor_land sz 1). unfold hdr. simpl. lia.
Qed.

Lemma hdr_free sz : hdr sz false false = sz.
Proof. unfold hdr. simpl. lia. Qed.

Lemma words_16 sz : sz mod 16 = 0 -> words sz = sz.
Proof.
  intros Hsz. unfold words. symmetry. apply Z_div_exact_2; [lia|].
  rewrite (Z.div_mod sz 16) at 1 by lia. rewrite Hsz, Z.add_0_r.
  replace (16 * (sz / 16)) with (2 * (sz / 16) * 8) by lia. apply Z.mod_mul. lia.
Qed.

(** ** Memories that agree on some bytes *)

Lemma word_agree m m' a :
  (forall x, a <= x < a + 8 -> byte_at m' x = byte_at m x) -> word_at m' a = word_at m a.
Proof. intros Hx. apply read_bytes_ext. exact Hx. Qed.

Lemma same_region_refl m : same_region m m.
Proof. done. Qed.

Lemma same_region_trans m m' m'' : same_region m m' -> same_region m' m'' -> same_region m m''.
Proof. intros (? & ? & ?) (? & ? & ?). unfold same_region. split_done; congruence. Qed.

(** One word stored. *)
Lemma wr_ok s a v :
  mem_ok (memory s) -> inside (memory s) a 8 -> u64 v ->
  exists s', wr s a v = Done s' /\ mem_ok (memory s') /\ same_region (memory s) (memory s') /\
    free_block_pointer s' = free_block_pointer s /\ word_at (memory s') a = v /\
    forall x, x < a \/ a + 8 <= x -> byte_at (memory s') x = byte_at (memory s) x.
Proof.
  intros Hm [] Hv. unfold wr. rewrite store_ok by done. cbn [mbind outcome_bind].
  eexists. split; [done|]. simpl. split; [by apply put_word_ok|]. split; [apply put_word_frame|].
  split; [done|]. split; [by apply word_at_put|]. intros x Hx. by apply byte_at_put.
Qed.

Lemma rd_ok s a : inside (memory s) a 8 -> rd s a = Done (word_at (memory s) a).
Proof. intros []. by apply load_ok. Qed.

(** ** The chain of blocks *)

Record block := Blk { b_addr : Z; b_size : Z; b_alloc : bool }.

Definition block_ok (m : mem) (prev : bool) (b : block) : Prop :=
  32 <= b_size b /\ b_size b mod 16 = 0 /\
  word_at m (b_addr b) = hdr (b_size b) (b_alloc b) prev /\
  (b_alloc b = false -> word_at m (b_addr b + b_size b - 8) = b_size b).

(** [pre m prev a bs]: the blocks [bs] follow each other from [a], after a block
    that is allocated iff [prev]. *)
Fixpoint pre (m : mem) (prev : bool) (a : Z) (bs : list block) : Prop :=
  match bs with
  | [] => True
  | b :: bs => b_addr b = a /\ block_ok m prev b /\ pre m (b_alloc b) (a + b_size b) bs
  end.

(** Where they end, and whether the last one is allocated. *)
Fixpoint ends (a : Z) (bs : list block) : Z :=
  match bs with [] => a | b :: bs => ends (a + b_size b) bs end.
Fixpoint last_alloc (prev : bool) (bs : list block) : bool :=
  match bs with [] => prev | b :: bs => last_alloc (b_alloc b) bs end.

(** With the epilogue header after them. *)
Definition chain (m : mem) (prev : bool) (a : Z) (bs : list block) (e : Z) : Prop :=
  pre m prev a bs /\ ends a bs = e /\ word_at m e = hdr 0 true (last_alloc prev bs).

Definition frees (bs : list block) : list Z := b_addr <$> filter (fun b => b_alloc b = false) bs.

(** No two free blocks are adjacent. *)
Fixpoint coalesced (prev : bool) (bs : list block) : Prop :=
  match bs with
  | [] => True
  | b :: bs => (prev || b_alloc b = true) /\ coalesced (b_alloc b) bs
  end.

Lemma pre_app m prev a bs bs' :
  pre m prev a (bs ++ bs') <-> pre m prev a bs /\ pre m (last_alloc prev bs) (ends a bs) bs'.
Proof.
  revert prev a. induction bs as [|b bs IH]; intros prev a; simpl; [tauto|]. rewrite IH. tauto.
Qed.

Lemma ends_app a bs bs' : ends a (bs ++ bs') = ends (ends a bs) bs'.
Proof. revert a. induction bs as [|b bs IH]; intros a; simpl; [done|]. apply IH. Qed.

Lemma last_alloc_app prev bs bs' : last_alloc prev (bs ++ bs') = last_alloc (last_alloc prev bs) bs'.
Proof. revert prev. induction bs as [|b bs IH]; intros prev; simpl; [done|]. apply IH. Qed.

Lemma coalesced_app prev bs bs' :
  coalesced prev (bs ++ bs') <-> coalesced prev bs /\ coalesced (last_alloc prev bs) bs'.
Proof. revert prev. induction bs as [|b bs IH]; intros prev; simpl; [tauto|]. rewrite IH. tauto. Qed.

Lemma frees_app bs bs' : frees (bs ++ bs') = frees bs ++ frees bs'.
Proof. unfold frees. by rewrite filter_app, fmap_app. Qed.

Lemma frees_cons b bs : frees (b :: bs) = if b_alloc b then frees bs else b_addr b :: frees bs.
Proof. unfold frees. rewrite filter_cons. by destruct (b_alloc b). Qed.

Lemma elem_of_frees bs y : y ∈ frees bs <-> exists sz, Blk y sz false ∈ bs.
Proof.
  unfold frees. rewrite list_elem_of_fmap. split.
  - intros ([a sz al] & -> & [Hal Hin]%list_elem_of_filter). simpl in *. subst. by exists sz.
  - intros (sz & Hin). exists (Blk y sz false). split; [done|]. by apply list_elem_of_filter.
Qed.

(** The blocks lie in order between [a] and the end. *)
Lemma pre_bounds m prev a bs b :
  pre m prev a bs -> b ∈ bs -> a <= b_addr b /\ b_addr b + b_size b <= ends a bs /\ 32 <= b_size b /\ b_size b mod 16 = 0.
Proof.
  revert prev a. induction bs as [|c bs IH]; intros prev a; simpl; [by intros _ ?%not_elem_of_nil|].
  intros (Hc & (Hsz & Hmod & _) & Hp).
  assert (Hle : forall a bs prev, pre m prev a bs -> a <= ends a bs).
  { clear. intros a bs. revert a. induction bs as [|b bs IH]; intros a prev; simpl; [lia|].
    intros (_ & (? & _) & Hp). specialize (IH _ _ Hp). lia. }
  intros [->|Hin]%elem_of_cons.
  - specialize (Hle _ _ _ Hp). split_done; lia.
  - destruct (IH _ _ Hp Hin) as (? & ? & ? & ?). split_done; lia.
Qed.

Lemma pre_ends m prev a bs : pre m prev a bs -> a <= ends a bs.
Proof.
  revert prev a. induction bs as [|b bs IH]; intros prev a; simpl; [lia|].
  intros (_ & (? & _) & Hp). specialize (IH _ _ Hp). lia.
Qed.

(** Two blocks of a heap are the same or do not overlap. *)
Lemma pre_disjoint m prev a bs b c :
  pre m prev a bs -> b ∈ bs -> c ∈ bs ->
  b = c \/ b_addr b + b_size b <= b_addr c \/ b_addr c + b_size c <= b_addr b.
Proof.
  revert prev a. induction bs as [|d bs IH]; intros prev a; simpl; [by intros _ ?%not_elem_of_nil|].
  intros (Hd & (Hsz & _) & Hp) [->|Hb]%elem_of_cons [->|Hc]%elem_of_cons.
  - by left.
  - right. left. destruct (pre_bounds _ _ _ _ _ Hp Hc). lia.
  - right. right. destruct (pre_bounds _ _ _ _ _ Hp Hb). lia.
  - by eapply IH.
Qed.

(** The links of a free block, and all bytes but the links of [fl]. *)
Definition in_links (fl : list Z) (x : Z) : Prop := exists y, y ∈ fl /\ y + 8 <= x < y + 24.

(** Blocks survive a change of bytes in the links of blocks among them. *)
Lemma pre_agree m m' prev a bs :
  pre m prev a bs ->
  (forall x, a <= x < ends a bs -> (forall b, b ∈ bs -> ~ (b_addr b + 8 <= x < b_addr b + 24)) ->
     byte_at m' x = byte_at m x) ->
  pre m' prev a bs.
Proof.
  revert prev a. induction bs as [|b bs IH]; intros prev a; simpl; [done|].
  intros (Hb & (Hsz & Hmod & Hw & Hf) & Hp) Hx. pose proof (pre_ends _ _ _ _ Hp) as He.
  assert (Hown : forall x, a <= x < a + b_size b -> ~ (a + 8 <= x < a + 24) -> byte_at m' x = byte_at m x).
  { intros x Hx1 Hx2. apply Hx; [lia|]. intros c [->|Hc]%elem_of_cons; [lia|].
    destruct (pre_bounds _ _ _ _ _ Hp Hc). lia. }
  split; [done|]. split.
  - unfold block_ok. rewrite Hb in *. split_done.
    + rewrite (word_agree m m'); [done|]. intros x ?. apply Hown; lia.
    + intros Hal. rewrite (word_agree m m'); [by apply Hf|]. intros x ?. apply Hown; lia.
  - apply IH; [done|]. intros x Hx1 Hx2. apply Hx; [lia|]. intros c [->|Hc]%elem_of_cons; [lia|]. by apply Hx2.
Qed.

Lemma chain_agree m m' prev a bs e :
  chain m prev a bs e ->
  (forall x, a <= x < e + 8 -> (forall b, b ∈ bs -> ~ (b_addr b + 8 <= x < b_addr b + 24)) ->
     byte_at m' x = byte_at m x) ->
  chain m' prev a bs e.
Proof.
  intros (Hp & He & Hw) Hx. pose proof (pre_ends _ _ _ _ Hp) as Hle. split; [|split; [done|]].
  - eapply pre_agree; [exact Hp|]. intros x ? ?. apply Hx; [lia|done].
  - rewrite (word_agree m m'); [done|]. intros x ?. apply Hx; [lia|].
    intros b Hb ?. destruct (pre_bounds _ _ _ _ _ Hp Hb) as (? & ? & ?). lia.
Qed.

(** The flag in the first header of a chain. *)
Lemma chain_head_word m prev a bs e :
  chain m prev a bs e ->
  exists sz al, 0 <= sz /\ sz mod 16 = 0 /\ word_at m a = hdr sz al prev /\
    match bs with [] => a = e /\ sz = 0 /\ al = true | b :: _ => b_addr b = a /\ b_size b = sz /\ b_alloc b = al end.
Proof.
  intros (Hp & He & Hw). destruct bs as [|b bs]; simpl in *.
  - subst e. exists 0, true. by split_done.
  - destruct Hp as (Ha & (? & ? & Hh & _) & _). exists (b_size b), (b_alloc b). rewrite <- Ha.
    split_done. lia.
Qed.

(** Changing only that flag. *)
Lemma chain_set_prev m m' prev prev' a bs e :
  chain m prev a bs e ->
  (forall sz al, word_at m a = hdr sz al prev -> word_at m' a = hdr sz al prev') ->
  (forall x, a + 8 <= x < e + 8 -> (forall b, b ∈ bs -> ~ (b_addr b + 8 <= x < b_addr b + 24)) ->
     byte_at m' x = byte_at m x) ->
  chain m' prev' a bs e.
Proof.
  intros (Hp & He & Hw) Hhd Hx. destruct bs as [|b bs]; simpl in *.
  - subst e. split; [done|]. split; [done|]. by apply Hhd.
  - destruct Hp as (Ha & (Hsz & Hmod & Hh & Hf) & Hp). pose proof (pre_ends _ _ _ _ Hp) as Hle.
    split; [|split; [done|]]; simpl.
    + split; [done|]. split.
      * unfold block_ok. split_done.
        { rewrite Ha. apply Hhd. by rewrite <- Ha. }
        intros Hal. rewrite (word_agree m m'); [by apply Hf|]. intros x ?. apply Hx; [lia|].
        intros c [->|Hc]%elem_of_cons; [lia|]. destruct (pre_bounds _ _ _ _ _ Hp Hc). lia.
      * eapply pre_agree; [exact Hp|]. intros x ? Hnb. apply Hx; [lia|].
        intros c [->|Hc]%elem_of_cons; [lia|]. by apply Hnb.
    + rewrite (word_agree m m'); [done|]. intros x ?. apply Hx; [lia|].
      intros c [->|Hc]%elem_of_cons; [lia|]. destruct (pre_bounds _ _ _ _ _ Hp Hc) as (? & ? & ?). lia.
Qed.
