(* ===== verification/MmFreeList.v ===== *)
(** * The free list of the allocator

    The doubly linked list threaded through the free blocks:
    [remove_from_free_list], [add_to_free_list] and [search] of [Mm], on any
    list of places that do not overlap. *)

From Stdlib Require Import ZArith Lia.
From stdpp Require Import gmap list.
From S2P Require Import Prelude MemLib Mm MmHeap.
Open Scope Z_scope.

(** ** Lists of places *)

Definition hdz (fl : list Z) (nx : Z) : Z := match fl with [] => nx | y :: _ => y end.
Fixpoint lastz (pv : Z) (fl : list Z) : Z := match fl with [] => pv | y :: fl => lastz y fl end.

Fixpoint dll (m : mem) (pv : Z) (fl : list Z) (nx : Z) : Prop :=
  match fl with
  | [] => True
  | y :: fl => word_at m (prev_node y) = pv /\ word_at m (next_node y) = hdz fl nx /\ dll m y fl nx
  end.

(** The places are distinct, 32 bytes apart, inside the region, and not null. *)
Record places (m : mem) (fl : list Z) : Prop := {
  pl_nodup : NoDup fl;
  pl_apart y z : y ∈ fl -> z ∈ fl -> y <> z -> y + 32 <= z \/ z + 32 <= y;
  pl_inside y : y ∈ fl -> 0 < y /\ y + 32 < w64 /\ inside m y 32
}.

Definition free_list (s : mm) (fl : list Z) : Prop :=
  dll (memory s) 0 fl 0 /\ free_block_pointer s = hdz fl 0 /\ places (memory s) fl /\ mem_ok (memory s).

Lemma lastz_app pv f1 f2 : lastz pv (f1 ++ f2) = lastz (lastz pv f1) f2.
Proof. revert pv. induction f1 as [|y f1 IH]; intros pv; simpl; [done|]. apply IH. Qed.

Lemma hdz_app f1 f2 nx : hdz (f1 ++ f2) nx = hdz f1 (hdz f2 nx).
Proof. by destruct f1. Qed.

Lemma dll_app m pv f1 f2 nx :
  dll m pv (f1 ++ f2) nx <-> dll m pv f1 (hdz f2 nx) /\ dll m (lastz pv f1) f2 nx.
Proof.
  revert pv. induction f1 as [|y f1 IH]; intros pv; simpl; [tauto|]. rewrite IH, hdz_app. tauto.
Qed.

Lemma dll_agree m m' pv fl nx :
  dll m pv fl nx -> (forall y x, y ∈ fl -> y + 8 <= x < y + 24 -> byte_at m' x = byte_at m x) -> dll m' pv fl nx.
Proof.
  revert pv. induction fl as [|y fl IH]; intros pv; simpl; [done|]. intros (Hp & Hn & Hd) Hx.
  unfold prev_node, next_node in *. split_done.
  - rewrite (word_agree m m'); [done|]. intros x ?. apply (Hx y); [by left|lia].
  - rewrite (word_agree m m'); [done|]. intros x ?. apply (Hx y); [by left|lia].
  - apply IH; [done|]. intros z x Hz. apply Hx. by right.
Qed.

Lemma places_sub m m' fl fl' :
  places m fl -> fl' ⊆+ fl -> same_region m m' -> places m' fl'.
Proof.
  intros [Hn Ha Hi] Hsub (E1 & E2 & E3).
  assert (Hin : forall y, y ∈ fl' -> y ∈ fl) by (intros y Hy; by eapply elem_of_submseteq).
  split.
  - apply submseteq_Permutation in Hsub as [k Hk]. rewrite Hk in Hn. by apply NoDup_app in Hn as [? _].
  - intros y z Hy Hz. apply Ha; auto.
  - intros y Hy. unfold inside. rewrite E1, E3. by apply Hi, Hin.
Qed.

Lemma lastz_zero m f1 y f2 : places m (f1 ++ y :: f2) -> lastz 0 f1 = 0 -> f1 = [].
Proof.
  intros [_ _ Hi] Hl. destruct f1 as [|p f1 _] using rev_ind; [done|]. rewrite lastz_app in Hl. simpl in Hl.
  subst p. destruct (Hi 0) as (? & _); [|lia]. rewrite !elem_of_app. left. right. by left.
Qed.

Lemma hdz_zero m f1 y f2 : places m (f1 ++ y :: f2) -> hdz f2 0 = 0 -> f2 = [].
Proof.
  intros [_ _ Hi] Hl. destruct f2 as [|n f2]; [done|]. simpl in Hl. subst n.
  destruct (Hi 0) as (? & _); [|lia]. rewrite elem_of_app. right. right. by left.
Qed.

(** Two links of one list of places. *)
Lemma places_links m fl y z x :
  places m fl -> y ∈ fl -> z ∈ fl -> y <> z -> y + 8 <= x < y + 24 -> x < z \/ z + 32 <= x.
Proof. intros [_ Ha _] Hy Hz Hne Hx. destruct (Ha _ _ Hy Hz Hne); lia. Qed.

(** Writing the next link of the last element, or the previous link of the
    first. *)
Lemma dll_set_next m m' pv f1 p nx nx' :
  dll m pv (f1 ++ [p]) nx -> places m (f1 ++ [p]) ->
  word_at m' (next_node p) = nx' ->
  (forall x, x < p + 8 \/ p + 16 <= x -> byte_at m' x = byte_at m x) ->
  dll m' pv (f1 ++ [p]) nx'.
Proof.
  rewrite !dll_app. simpl. intros (Hf & Hp & _ & _) Hpl Hw Hx. split; [|split_done].
  - eapply dll_agree; [exact Hf|]. intros y x Hy Hyx. apply Hx.
    assert (Hne : y <> p).
    { intros ->. pose proof (pl_nodup _ _ Hpl) as Hnd. apply NoDup_app in Hnd as (_ & Hd & _). apply (Hd p Hy). by left. }
    destruct (places_links m (f1 ++ [p]) y p x Hpl) as [?|?]; try done; try lia; apply elem_of_app; [by left|right; by left].
  - rewrite (word_agree m m'); [done|]. intros x ?. apply Hx. unfold prev_node in *. lia.
Qed.

Lemma dll_set_prev m m' pv pv' n f2 nx :
  dll m pv (n :: f2) nx -> places m (n :: f2) ->
  word_at m' (prev_node n) = pv' ->
  (forall x, x < n + 16 \/ n + 24 <= x -> byte_at m' x = byte_at m x) ->
  dll m' pv' (n :: f2) nx.
Proof.
  simpl. intros (_ & Hn & Hf) Hpl Hw Hx. split_done.
  - rewrite (word_agree m m'); [done|]. intros x ?. apply Hx. unfold next_node in *. lia.
  - eapply dll_agree; [exact Hf|]. intros y x Hy Hyx. apply Hx.
    assert (Hne : y <> n) by (intros ->; pose proof (pl_nodup _ _ Hpl) as Hnd; by apply NoDup_cons in Hnd as [? _]).
    destruct (places_links m (n :: f2) y n x Hpl) as [?|?]; try done; try lia; [by right|by left].
Qed.

(** ** The operations *)

(** [changes_links s s' fl]: only links of blocks in [fl] change. *)
Definition changes_links (s s' : mm) (fl : list Z) : Prop :=
  same_region (memory s) (memory s') /\
  forall x, ~ in_links fl x -> byte_at (memory s') x = byte_at (memory s) x.

Lemma not_in_links_elem fl x y : ~ in_links fl x -> y ∈ fl -> x < y + 8 \/ y + 24 <= x.
Proof. intros Hx Hy. destruct (Z.lt_ge_cases x (y + 8)); [by left|]. destruct (Z.lt_ge_cases x (y + 24)); [|by right].
  exfalso. apply Hx. by exists y. Qed.

Lemma region_inside m m' a n : same_region m m' -> inside m a n -> inside m' a n.
Proof. intros (E1 & E2 & E3). unfold inside. by rewrite E1, E3. Qed.

Lemma inside_sub m a n b k : inside m a n -> a <= b -> b + k <= a + n -> inside m b k.
Proof. unfold inside. lia. Qed.

Lemma remove_ok s f1 y f2 :
  free_list s (f1 ++ y :: f2) ->
  exists s', remove_from_free_list s y = Done s' /\ free_list s' (f1 ++ f2) /\
    changes_links s s' (f1 ++ f2).
Proof.
  intros (Hd & Hf & Hpl & Hm). pose proof Hd as Hd0. apply dll_app in Hd as (Hd1 & Hd2).
  simpl in Hd2. destruct Hd2 as (Hp & Hn & Hd2). simpl hdz in Hd1.
  assert (Hsub : (f1 ++ f2) ⊆+ f1 ++ y :: f2) by (rewrite <- Permutation_middle; by apply submseteq_cons).
  pose proof (pl_inside _ _ Hpl y ltac:(apply elem_of_app; right; by left)) as (Hy0 & _ & Hyi).
  pose proof (pl_nodup _ _ Hpl) as Hnd.
  unfold remove_from_free_list.
  rewrite (rd_ok s (prev_node y)) by (unfold prev_node; eapply inside_sub; [exact Hyi|lia|lia]).
  cbn [mbind outcome_bind]. rewrite Hp.
  rewrite (rd_ok s (next_node y)) by (unfold next_node; eapply inside_sub; [exact Hyi|lia|lia]).
  (* unlink from the left *)
  assert (exists s1, (if lastz 0 f1 =? NULL
       then next ← Done (word_at (memory s) (next_node y)); Done (set_free s next)
       else next ← Done (word_at (memory s) (next_node y)); wr s (next_node (lastz 0 f1)) next) = Done s1 /\
     mem_ok (memory s1) /\ changes_links s s1 f1 /\ free_block_pointer s1 = hdz (f1 ++ f2) 0 /\
     dll (memory s1) 0 f1 (hdz f2 0)) as (s1 & -> & Hm1 & (Hr1 & Hx1) & Hf1 & Hd1').
  { destruct (Z.eqb_spec (lastz 0 f1) NULL) as [E|Hne].
    - apply (lastz_zero _ _ _ _ Hpl) in E as ->. simpl. eexists. split; [done|]. split_done.
    - destruct f1 as [|p f1 _] using rev_ind; [done|]. rewrite lastz_app in *. simpl lastz in *.
      assert (Hpin : p ∈ (f1 ++ [p]) ++ y :: f2) by (rewrite !elem_of_app; left; right; by left).
      destruct (pl_inside _ _ Hpl p Hpin) as (Hp0 & _ & Hpi). rewrite Hn. cbn [mbind outcome_bind].
      assert (Hu : u64 (hdz f2 0)).
      { destruct f2 as [|n f2]; simpl; [u64_lia|]. destruct (pl_inside _ _ Hpl n) as (? & ? & _);
          [rewrite elem_of_app; right; right; by left|]. u64_lia. }
      destruct (wr_ok s (next_node p) (hdz f2 0) Hm) as (s1 & -> & Hm1 & Hr1 & Hf1 & Hw1 & Hx1);
        [unfold next_node; eapply inside_sub; [exact Hpi|lia|lia]|done|].
      eexists. split; [done|]. split; [done|]. split; [|split].
      + split; [done|]. intros x Hx. apply Hx1. unfold next_node.
        destruct (not_in_links_elem _ _ p Hx) as [?|?]; [apply elem_of_app; right; by left|lia|lia].
      + rewrite Hf1, Hf. by destruct f1.
      + eapply dll_set_next; [exact Hd1| |exact Hw1|].
        * eapply places_sub; [exact Hpl| |done]. by apply submseteq_inserts_r.
        * intros x ?. apply Hx1. unfold next_node. lia. }
  cbn [mbind outcome_bind].
  assert (Hy1 : inside (memory s1) y 32) by by eapply region_inside.
  rewrite (rd_ok s1 (next_node y)) by (unfold next_node; eapply inside_sub; [exact Hy1|lia|lia]).
  cbn [mbind outcome_bind].
  assert (Hkeep : forall x, y + 8 <= x < y + 24 -> byte_at (memory s1) x = byte_at (memory s) x).
  { intros x Hxy. apply Hx1. intros (z & Hz & Hzx). assert (z <> y).
    { intros ->. apply NoDup_app in Hnd as (_ & Hdis & _). apply (Hdis y Hz). by left. }
    destruct (places_links _ _ y z x Hpl); try done; try lia; apply elem_of_app; [right; by left|by left]. }
  rewrite (word_agree (memory s) (memory s1) (next_node y)) by (intros; apply Hkeep; unfold next_node in *; lia).
  rewrite Hn. destruct (Z.eqb_spec (hdz f2 0) NULL) as [E|Hne].
  - apply (hdz_zero _ _ _ _ Hpl) in E as ->. exists s1. rewrite app_nil_r in *. split; [done|].
    split; [|done]. split; [done|]. split; [exact Hf1|]. split; [|done].
    eapply places_sub; [exact Hpl|done|done].
  - destruct f2 as [|n f2]; [done|]. simpl hdz in *.
    rewrite (rd_ok s1 (prev_node y)) by (unfold prev_node; eapply inside_sub; [exact Hy1|lia|lia]).
    cbn [mbind outcome_bind].
    rewrite (word_agree (memory s) (memory s1) (prev_node y)) by (intros; apply Hkeep; unfold prev_node in *; lia).
    rewrite Hp.
    assert (Hnin : n ∈ f1 ++ y :: n :: f2) by (rewrite elem_of_app; right; right; by left).
    destruct (pl_inside _ _ Hpl n Hnin) as (Hn0 & _ & Hni).
    assert (Hu : u64 (lastz 0 f1)).
    { destruct f1 as [|p f1 _] using rev_ind; simpl; [u64_lia|]. rewrite lastz_app. simpl.
      destruct (pl_inside _ _ Hpl p) as (? & ? & _); [rewrite !elem_of_app; left; right; by left|]. u64_lia. }
    destruct (wr_ok s1 (prev_node n) (lastz 0 f1) Hm1) as (s2 & -> & Hm2 & Hr2 & Hf2 & Hw2 & Hx2);
      [unfold prev_node; eapply inside_sub; [eapply region_inside; [exact Hr1|exact Hni]|lia|lia]|done|].
    exists s2. split; [done|]. split; [split; [|split; [|split]]|].
    + apply dll_app. split.
      * eapply dll_agree; [exact Hd1'|]. intros z x Hz Hzx. apply Hx2. unfold prev_node.
        assert (z <> n).
        { intros ->. apply NoDup_app in Hnd as (_ & Hdis & _). apply (Hdis n Hz). right. by left. }
        destruct (places_links _ _ z n x Hpl); try done; try lia. apply elem_of_app. by left.
      * eapply dll_set_prev; [| |exact Hw2|intros x ?; apply Hx2; unfold prev_node; lia].
        -- eapply dll_agree; [exact Hd2|]. intros z x Hz Hzx. apply Hx1. intros (z' & Hz' & Hzx').
           assert (z' <> z).
           { intros ->. apply NoDup_app in Hnd as (_ & Hdis & _). apply (Hdis z Hz'). by right. }
           destruct (places_links _ _ z z' x Hpl); try done; try lia; apply elem_of_app; [right; by right|by left].
        -- eapply places_sub; [exact Hpl| |done].
           apply submseteq_inserts_l. by apply submseteq_cons.
    + by rewrite Hf2, Hf1, hdz_app.
    + eapply places_sub; [exact Hpl|done|by eapply same_region_trans].
    + done.
    + split; [by eapply same_region_trans|]. intros x Hx.
      rewrite Hx2; [apply Hx1|].
      * intros (z & Hz & ?). apply Hx. exists z. split; [|done]. apply elem_of_app. by left.
      * unfold prev_node. destruct (not_in_links_elem _ _ n Hx); [rewrite elem_of_app; right; by left|lia|lia].
Qed.

Lemma add_ok s y fl :
  free_list s fl -> places (memory s) (y :: fl) ->
  exists s', add_to_free_list s y = Done s' /\ free_list s' (y :: fl) /\ changes_links s s' (y :: fl).
Proof.
  intros (Hd & Hf & Hpl & Hm) Hpl'. pose proof (pl_nodup _ _ Hpl') as Hnd. apply NoDup_cons in Hnd as [Hy Hnd].
  pose proof (pl_inside _ _ Hpl' y ltac:(by left)) as (Hy0 & Hyw & Hyi). unfold add_to_free_list.
  destruct (wr_ok s (prev_node y) NULL Hm) as (s1 & -> & Hm1 & Hr1 & Hf1 & Hw1 & Hx1);
    [unfold prev_node; eapply inside_sub; [exact Hyi|lia|lia]|unfold NULL; u64_lia|].
  cbn [mbind outcome_bind]. rewrite Hf1, Hf.
  assert (Hu : u64 (hdz fl 0)).
  { destruct fl as [|n fl]; simpl; [u64_lia|]. destruct (pl_inside _ _ Hpl n) as (? & ? & _); [by left|]. u64_lia. }
  destruct (wr_ok s1 (next_node y) (hdz fl 0) Hm1) as (s2 & -> & Hm2 & Hr2 & Hf2 & Hw2 & Hx2);
    [unfold next_node; eapply inside_sub; [eapply region_inside; [exact Hr1|exact Hyi]|lia|lia]|done|].
  cbn [mbind outcome_bind]. rewrite Hf2, Hf1, Hf.
  assert (Hr12 : same_region (memory s) (memory s2)) by by eapply same_region_trans.
  assert (Hx12 : forall x, x < y + 8 \/ y + 24 <= x -> byte_at (memory s2) x = byte_at (memory s) x).
  { intros x Hx. unfold next_node, prev_node in *. rewrite Hx2, Hx1 by lia. done. }
  assert (Hown : word_at (memory s2) (prev_node y) = 0 /\ word_at (memory s2) (next_node y) = hdz fl 0).
  { split; [|done]. rewrite (word_agree (memory s1) (memory s2)); [done|].
    intros x ?. apply Hx2. unfold next_node, prev_node in *. lia. }
  assert (Hd12 : dll (memory s2) 0 fl 0).
  { eapply dll_agree; [exact Hd|]. intros z x Hz Hzx. apply Hx12. assert (z <> y) by by intros ->.
    destruct (places_links _ _ z y x Hpl'); try done; try lia; [by right|by left]. }
  destruct (Z.eqb_spec (hdz fl 0) NULL) as [E|Hne]; cbn [mbind outcome_bind].
  - assert (fl = []) as ->.
    { destruct fl as [|n fl]; [done|]. destruct (pl_inside _ _ Hpl n) as (? & _); [by left|]. simpl in E. unfold NULL in E. lia. }
    eexists. split; [done|]. split; [split; [|split; [done|split; [|done]]]|].
    + simpl. destruct Hown as [-> ->]. done.
    + eapply places_sub; [exact Hpl'|done|done].
    + split; [done|]. intros x Hx. apply Hx12. by apply (not_in_links_elem _ _ y Hx); left.
  - destruct fl as [|n fl]; [done|]. simpl hdz in *.
    destruct (pl_inside _ _ Hpl n ltac:(by left)) as (Hn0 & _ & Hni).
    assert (Hny : n <> y) by (intros ->; apply Hy; by left).
    destruct (wr_ok s2 (prev_node n) y Hm2) as (s3 & -> & Hm3 & Hr3 & Hf3 & Hw3 & Hx3);
      [unfold prev_node; eapply inside_sub; [eapply region_inside; [exact Hr12|exact Hni]|lia|lia]|u64_lia|].
    cbn [mbind outcome_bind]. eexists. split; [done|].
    assert (Hr13 : same_region (memory s) (memory s3)) by by eapply same_region_trans.
    split; [split; [|split; [done|split; [|done]]]|].
    + change (memory (set_free s3 y)) with (memory s3). cbn [dll]. split; [|split].
      * rewrite (word_agree (memory s2) (memory s3)); [apply Hown|]. intros x Hx. apply Hx3.
        unfold prev_node in *. destruct (pl_apart _ _ Hpl' y n); [by left|right; by left|done|lia|lia].
      * rewrite (word_agree (memory s2) (memory s3)); [apply Hown|]. intros x Hx. apply Hx3.
        unfold prev_node, next_node in *. destruct (pl_apart _ _ Hpl' y n); [by left|right; by left|done|lia|lia].
      * apply (dll_set_prev (memory s2) (memory s3) 0 y n fl 0); [exact Hd12| |exact Hw3|].
        -- eapply places_sub; [exact Hpl|done|done].
        -- intros x ?. apply Hx3. unfold prev_node. lia.
    + eapply places_sub; [exact Hpl'|done|done].
    + split; [done|]. intros x Hx. simpl. rewrite Hx3; [apply Hx12|].
      * by apply (not_in_links_elem _ _ y Hx); left.
      * unfold prev_node. destruct (not_in_links_elem _ _ n Hx); [right; by left|lia|lia].
Qed.

(** [search] returns the first block that is large enough. *)
Lemma search_loop_ok fuel s pv fl size :
  dll (memory s) pv fl 0 -> places (memory s) fl -> (length fl < fuel)%nat ->
  (search_loop fuel s (hdz fl 0) size = Done 0 /\
     forall y, y ∈ fl -> block_size (word_at (memory s) y) < size) \/
  exists f1 y f2, fl = f1 ++ y :: f2 /\ search_loop fuel s (hdz fl 0) size = Done y /\
    size <= block_size (word_at (memory s) y).
Proof.
  revert fuel pv. induction fl as [|y fl IH]; intros [|fuel] pv Hd Hpl Hlen; simpl in Hlen; try lia.
  - left. split; [done|]. by intros y ?%not_elem_of_nil.
  - destruct Hd as (_ & Hn & Hd). destruct (pl_inside _ _ Hpl y ltac:(by left)) as (Hy0 & _ & Hyi).
    simpl hdz. cbn [search_loop]. rewrite (proj2 (Z.eqb_neq _ _)) by (unfold NULL; lia).
    rewrite (rd_ok s y) by (eapply inside_sub; [exact Hyi|lia|lia]). cbn [mbind outcome_bind].
    destruct (Z.leb_spec size (block_size (word_at (memory s) y))).
    + right. by exists [], y, fl.
    + rewrite rd_ok by (unfold next_node; eapply inside_sub; [exact Hyi|lia|lia]). cbn [mbind outcome_bind].
      rewrite Hn. destruct (IH fuel y) as [[-> Hall]|(f1 & z & f2 & -> & -> & Hz)]; [done| |lia| |].
      * eapply places_sub; [exact Hpl| |done]. by apply submseteq_cons.
      * left. split; [done|]. intros z [->|Hz]%elem_of_cons; [done|by apply Hall].
      * right. by exists (y :: f1), z, f2.
Qed.
