(* ===== verification/MmInv.v ===== *)
(** * The invariant of the allocator

    [heap_inv s bs]: the memory of [s] is the chain of blocks [bs] with correct
    flags and footers, no two free blocks are adjacent, and the free list holds
    exactly the free blocks.  The lemmas rebuild the invariant around the blocks
    an operation changes.  [shape s bs fl], in the second half, is the part of it that
    also holds in the middle of an operation: the chain and a free list through
    some of its blocks. *)

From Stdlib Require Import ZArith Lia.
From stdpp Require Import gmap list.
From S2P Require Import Prelude MemLib Mm MmHeap MmFreeList.
Open Scope Z_scope.

(** The region lies in the lower half of the address space, aligned to 16. *)
Record geometry (m : mem) : Prop := {
  ge_lo : 0 < heap m;
  ge_align : heap m mod 16 = 0;
  ge_brk : heap m + 16 <= mem_brk m;
  ge_max : mem_brk m <= mem_max_addr m;
  ge_half : mem_max_addr m < 4611686018427387904
}.

Definition first (m : mem) : Z := heap m + 8.
Definition epilogue (m : mem) : Z := mem_brk m - 8.

Record heap_inv (s : mm) (bs : list block) : Prop := {
  hi_geom : geometry (memory s);
  hi_chain : chain (memory s) true (first (memory s)) bs (epilogue (memory s));
  hi_coal : coalesced true bs;
  hi_free : exists fl, free_list s fl /\ fl ≡ₚ frees bs
}.

(** The blocks in use, and that their contents stay. *)
Definition live (bs : list block) : list block := filter (fun b => b_alloc b = true) bs.

Definition payload (b : block) (x : Z) : Prop := b_addr b + 8 <= x < b_addr b + b_size b.

Definition keeps (m m' : mem) (bs : list block) : Prop :=
  forall b x, b ∈ bs -> b_alloc b = true -> payload b x -> byte_at m' x = byte_at m x.

Lemma live_app bs bs' : live (bs ++ bs') = live bs ++ live bs'.
Proof. apply filter_app. Qed.

Lemma live_cons b bs : live (b :: bs) = if b_alloc b then b :: live bs else live bs.
Proof. unfold live. rewrite filter_cons. by destruct (b_alloc b). Qed.

Lemma elem_of_live bs b : b ∈ live bs <-> b ∈ bs /\ b_alloc b = true.
Proof. unfold live. rewrite list_elem_of_filter. tauto. Qed.

Lemma keeps_trans m m' m'' bs : keeps m m' bs -> keeps m' m'' bs -> keeps m m'' bs.
Proof. intros H1 H2 b x Hb Hal Hx. by rewrite (H2 b x), (H1 b x). Qed.

(** ** Around the changed blocks *)

Section around.
Context (m : mem) (a : Z) (bs1 mid bs2 : list block) (e : Z).
Hypothesis Hchain : chain m true a (bs1 ++ mid ++ bs2) e.

Definition y0 := ends a bs1.
Definition z0 := ends (ends a bs1) mid.

Lemma around_parts :
  pre m true a bs1 /\ pre m (last_alloc true bs1) (ends a bs1) mid /\
  chain m (last_alloc (last_alloc true bs1) mid) z0 bs2 e /\
  a <= ends a bs1 /\ ends a bs1 <= z0 /\ z0 <= e.
Proof.
  destruct Hchain as (Hp & He & Hw). rewrite !pre_app in Hp. destruct Hp as (Hp1 & Hp2 & Hp3).
  rewrite !ends_app in He. rewrite !last_alloc_app in Hw. unfold chain, z0.
  pose proof (pre_ends _ _ _ _ Hp1). pose proof (pre_ends _ _ _ _ Hp2). pose proof (pre_ends _ _ _ _ Hp3).
  split_done. lia.
Qed.

(** Where the links of a free block can be. *)
Lemma around_links x :
  in_links (frees (bs1 ++ mid ++ bs2)) x ->
  (exists b, b ∈ bs1 /\ b_addr b + 8 <= x < b_addr b + 24 /\ x < ends a bs1) \/
  (exists b, b ∈ mid /\ b_alloc b = false /\ b_addr b + 8 <= x < b_addr b + 24 /\ ends a bs1 <= x < z0) \/
  (exists b, b ∈ bs2 /\ b_addr b + 8 <= x < b_addr b + 24 /\ z0 + 8 <= x < e).
Proof.
  intros (y & Hy & Hx). apply elem_of_frees in Hy as (sz & Hin).
  destruct around_parts as (Hp1 & Hp2 & (Hp3 & He3 & _) & _).
  rewrite !elem_of_app in Hin. destruct Hin as [Hin|[Hin|Hin]].
  - left. exists (Blk y sz false). destruct (pre_bounds _ _ _ _ _ Hp1 Hin) as (? & ? & ? & _). simpl in *.
    split_done; lia.
  - right. left. exists (Blk y sz false). destruct (pre_bounds _ _ _ _ _ Hp2 Hin) as (? & ? & ? & _).
    unfold z0. simpl in *. split_done; lia.
  - right. right. exists (Blk y sz false). destruct (pre_bounds _ _ _ _ _ Hp3 Hin) as (? & ? & ? & _).
    simpl in *. split_done; lia.
Qed.

(** A change inside [mid], of the flag after it, and of links. *)
Lemma around_ok m' fl pv' :
  (forall y, y ∈ fl -> y ∈ frees (bs1 ++ mid ++ bs2)) ->
  (forall x, (a <= x < ends a bs1 \/ z0 + 8 <= x < e + 8) -> ~ in_links fl x -> byte_at m' x = byte_at m x) ->
  (forall sz al, word_at m z0 = hdr sz al (last_alloc (last_alloc true bs1) mid) -> word_at m' z0 = hdr sz al pv') ->
  pre m' true a bs1 /\ chain m' pv' z0 bs2 e /\ keeps m m' (bs1 ++ bs2).
Proof.
  intros Hfl Hx Hflag. destruct around_parts as (Hp1 & Hp2 & Hc3 & Hle1 & Hle2 & Hle3).
  pose proof Hc3 as (Hp3 & He3 & _).
  assert (Hsub : forall x, in_links fl x -> in_links (frees (bs1 ++ mid ++ bs2)) x).
  { intros x (y & Hy & ?). exists y. split; [by apply Hfl|done]. }
  split; [|split].
  - eapply pre_agree; [exact Hp1|]. intros x Hr Hnl. apply Hx; [by left|]. intros Hl%Hsub%around_links.
    destruct Hl as [(b & Hb & ? & _)|[(b & _ & _ & _ & ?)|(b & _ & _ & ?)]]; [by eapply Hnl|lia|lia].
  - eapply chain_set_prev; [exact Hc3|exact Hflag|]. intros x Hr Hnl. apply Hx; [by right|].
    intros Hl%Hsub%around_links.
    destruct Hl as [(b & _ & _ & ?)|[(b & _ & _ & _ & ?)|(b & Hb & ? & _)]]; [lia|lia|by eapply Hnl].
  - intros b x Hb Hal Hpl. unfold payload in Hpl. apply elem_of_app in Hb as [Hb|Hb].
    + destruct (pre_bounds _ _ _ _ _ Hp1 Hb) as (? & ? & ? & _). apply Hx; [left; lia|].
      intros Hl%Hsub. destruct Hl as (y & Hy & ?). apply elem_of_frees in Hy as (sz & Hin).
      destruct Hchain as (Hp & _ & _).
      destruct (pre_disjoint _ _ _ _ b (Blk y sz false) Hp) as [->|[?|?]]; try done; simpl in *; try lia.
      * apply elem_of_app. by left.
      * destruct (pre_bounds _ _ _ _ _ Hp Hin) as (_ & _ & ? & _). simpl in *. lia.
    + destruct (pre_bounds _ _ _ _ _ Hp3 Hb) as (? & ? & ? & _). apply Hx; [right; lia|].
      intros Hl%Hsub. destruct Hl as (y & Hy & ?). apply elem_of_frees in Hy as (sz & Hin).
      destruct Hchain as (Hp & _ & _).
      destruct (pre_disjoint _ _ _ _ b (Blk y sz false) Hp) as [->|[?|?]]; try done; simpl in *; try lia.
      * rewrite !elem_of_app. by right; right.
      * destruct (pre_bounds _ _ _ _ _ Hp Hin) as (_ & _ & ? & _). simpl in *. lia.
Qed.
End around.

(** The new chain from the kept parts and the new middle. *)
Lemma chain_glue m a bs1 mid bs2 e :
  pre m true a bs1 -> pre m (last_alloc true bs1) (ends a bs1) mid ->
  chain m (last_alloc (last_alloc true bs1) mid) (ends (ends a bs1) mid) bs2 e ->
  chain m true a (bs1 ++ mid ++ bs2) e.
Proof.
  intros Hp1 Hp2 (Hp3 & He & Hw). split; [by rewrite !pre_app|].
  split; [by rewrite !ends_app|by rewrite !last_alloc_app].
Qed.

(** ** Free lists and the chain *)

Lemma frees_nodup m prev a bs : pre m prev a bs -> NoDup (frees bs).
Proof.
  revert prev a. induction bs as [|b bs IH]; intros prev a; [constructor|]. simpl.
  intros (Ha & (Hsz & _) & Hp). rewrite frees_cons. destruct (b_alloc b) eqn:Hal; [by eapply IH|].
  constructor; [|by eapply IH]. intros (sz & Hin)%elem_of_frees.
  destruct (pre_bounds _ _ _ _ _ Hp Hin) as (? & _). simpl in *. lia.
Qed.

Lemma frees_places m prev bs e fl :
  geometry m -> chain m prev (first m) bs e -> e <= epilogue m -> fl ≡ₚ frees bs -> places m fl.
Proof.
  intros [? ? ? ? ?] (Hp & He & _) Hle Hfl. unfold first, epilogue in *. split.
  - rewrite Hfl. by eapply frees_nodup.
  - intros y z Hy Hz Hne. rewrite Hfl in Hy, Hz.
    apply elem_of_frees in Hy as (sy & Hy), Hz as (sz & Hz).
    destruct (pre_bounds _ _ _ _ _ Hp Hy) as (_ & _ & ? & _), (pre_bounds _ _ _ _ _ Hp Hz) as (_ & _ & ? & _).
    destruct (pre_disjoint _ _ _ _ _ _ Hp Hy Hz) as [[=]|[?|?]]; simpl in *; [done|lia|lia].
  - intros y Hy. rewrite Hfl in Hy. apply elem_of_frees in Hy as (sy & Hy).
    destruct (pre_bounds _ _ _ _ _ Hp Hy) as (? & ? & ? & _). simpl in *. unfold inside, w64. lia.
Qed.

Lemma free_list_agree s s' fl :
  free_list s fl -> free_block_pointer s' = free_block_pointer s -> same_region (memory s) (memory s') ->
  mem_ok (memory s') -> (forall x, in_links fl x -> byte_at (memory s') x = byte_at (memory s) x) ->
  free_list s' fl.
Proof.
  intros (Hd & Hf & Hpl & _) Hf' Hr Hm Hx. split; [|split; [congruence|split; [|done]]].
  - eapply dll_agree; [exact Hd|]. intros y x Hy ?. apply Hx. by exists y.
  - by eapply places_sub.
Qed.

(** ** Words that the operations write *)

Lemma hdr_u64 sz al pv : 0 <= sz < 4611686018427387904 -> u64 (hdr sz al pv).
Proof. intros Hsz. unfold hdr. destruct al, pv; simpl; u64_lia. Qed.

(** [writes s s' lo hi]: a successful step that only changes bytes in a range. *)
Definition writes (s s' : mm) (lo hi : Z) : Prop :=
  mem_ok (memory s') /\ same_region (memory s) (memory s') /\
  free_block_pointer s' = free_block_pointer s /\
  forall x, x < lo \/ hi <= x -> byte_at (memory s') x = byte_at (memory s) x.

Lemma writes_word s s' lo hi b : writes s s' lo hi -> b + 8 <= lo \/ hi <= b -> word_at (memory s') b = word_at (memory s) b.
Proof. intros (_ & _ & _ & Hx) Hb. apply word_agree. intros x ?. apply Hx. lia. Qed.

Lemma wr_writes s a v :
  mem_ok (memory s) -> inside (memory s) a 8 -> u64 v ->
  exists s', wr s a v = Done s' /\ writes s s' a (a + 8) /\ word_at (memory s') a = v.
Proof.
  intros Hm Hi Hv. destruct (wr_ok s a v Hm Hi Hv) as (s' & -> & ? & ? & ? & ? & ?).
  exists s'. by split_done.
Qed.

Lemma allocate_header_ok s y sz sz' al pv :
  mem_ok (memory s) -> inside (memory s) y 8 -> word_at (memory s) y = hdr sz al pv ->
  sz mod 16 = 0 -> 0 <= sz' < 4611686018427387904 -> sz' mod 16 = 0 ->
  exists s', allocate_header s y sz' = Done s' /\ writes s s' y (y + 8) /\
    word_at (memory s') y = hdr sz' true pv.
Proof.
  intros Hm Hi Hw Hmod Hsz' Hmod'. unfold allocate_header. rewrite (rd_ok s y) by done.
  cbn [mbind outcome_bind]. rewrite Hw, hdr_land2, negb_involutive, hdr_lor1 by (try done; lia).
  destruct (wr_writes s y (hdr sz' true false) Hm Hi) as (s1 & -> & (Hm1 & Hr1 & Hf1 & Hx1) & Hw1);
    [by apply hdr_u64|].
  destruct pv; [|exists s1; split_done; by split_done].
  cbn [mbind outcome_bind]. unfold xor_at. pose proof (region_inside _ _ _ _ Hr1 Hi) as Hi1.
  rewrite (rd_ok s1 y) by done. cbn [mbind outcome_bind]. rewrite Hw1, hdr_xor2 by (try done; lia). simpl negb.
  destruct (wr_writes s1 y (hdr sz' true true) Hm1 Hi1) as (s2 & -> & (Hm2 & Hr2 & Hf2 & Hx2) & Hw2);
    [by apply hdr_u64|].
  exists s2. split_done. unfold writes. split_done; [by eapply same_region_trans|congruence|].
  intros x Hx. by rewrite Hx2, Hx1.
Qed.

(** Flipping or clearing the previous-allocated flag of a header. *)
Lemma xor_flag_ok s y sz al pv :
  mem_ok (memory s) -> inside (memory s) y 8 -> word_at (memory s) y = hdr sz al pv ->
  0 <= sz < 4611686018427387904 -> sz mod 16 = 0 ->
  exists s', xor_at s y 2 = Done s' /\ writes s s' y (y + 8) /\ word_at (memory s') y = hdr sz al (negb pv).
Proof.
  intros Hm Hi Hw Hsz Hmod. unfold xor_at. rewrite (rd_ok s y) by done. cbn [mbind outcome_bind].
  rewrite Hw, hdr_xor2 by (try done; lia). apply wr_writes; [done|done|]. by apply hdr_u64.
Qed.

Lemma clear_flag_ok s y sz al pv :
  mem_ok (memory s) -> inside (memory s) y 8 -> word_at (memory s) y = hdr sz al pv ->
  0 <= sz < 4611686018427387904 -> sz mod 16 = 0 ->
  (exists s', clear_at s y 2 = Done s' /\ writes s s' y (y + 8) /\ word_at (memory s') y = hdr sz al false) /\
  (exists s', clear_at s y 1 = Done s' /\ writes s s' y (y + 8) /\ word_at (memory s') y = hdr sz false pv).
Proof.
  intros Hm Hi Hw Hsz Hmod. unfold clear_at. rewrite !(rd_ok s y) by done. cbn [mbind outcome_bind].
  rewrite Hw, hdr_clear1, hdr_clear2 by (try done; lia).
  split; (apply wr_writes; [done|done|]); by apply hdr_u64.
Qed.

(** ** Between two writes *)

Record shape (s : mm) (bs : list block) (fl : list Z) : Prop := {
  sh_geom : geometry (memory s);
  sh_chain : chain (memory s) true (first (memory s)) bs (epilogue (memory s));
  sh_free : free_list s fl;
  sh_places y : y ∈ fl -> exists b, b ∈ bs /\ b_addr b = y
}.

(** Blocks outside a free list keep their contents. *)
Definition spares (m m' : mem) (bs : list block) (fl : list Z) : Prop :=
  forall b x, b ∈ bs -> b_addr b ∉ fl -> payload b x -> byte_at m' x = byte_at m x.

Lemma heap_inv_shape s bs :
  heap_inv s bs <-> coalesced true bs /\ exists fl, shape s bs fl /\ fl ≡ₚ frees bs.
Proof.
  split.
  - intros [Hg Hc Hco (fl & Hf & Hp)]. split; [done|]. exists fl. split; [|done]. split; try done.
    intros y Hy. rewrite Hp in Hy. apply elem_of_frees in Hy as (sz & Hin). by exists (Blk y sz false).
  - intros (Hco & fl & [Hg Hc Hf _] & Hp). split; try done. by exists fl.
Qed.

Lemma geometry_region m m' : same_region m m' -> geometry m -> geometry m'.
Proof. intros (E1 & E2 & E3) [? ? ? ? ?]. split; rewrite ?E1, ?E2, ?E3; done. Qed.

Lemma region_ends m m' : same_region m m' -> first m' = first m /\ epilogue m' = epilogue m.
Proof. intros (E1 & E2 & E3). unfold first, epilogue. by rewrite E1, E2. Qed.

Lemma inside_heap m a n : geometry m -> first m - 8 <= a -> a + n <= epilogue m + 8 -> inside m a n.
Proof. intros [? ? ? ? ?]. unfold first, epilogue, inside. lia. Qed.

Lemma first_mod m : geometry m -> first m mod 16 = 8.
Proof.
  intros [? Ha ? ? ?]. unfold first. rewrite Z.add_mod, Ha by lia. done.
Qed.

(** Addresses and sizes along a chain. *)
Lemma ends_mod m prev a bs : pre m prev a bs -> ends a bs mod 16 = a mod 16.
Proof.
  revert prev a. induction bs as [|b bs IH]; intros prev a; simpl; [done|].
  intros (_ & (_ & Hmod & _) & Hp). rewrite (IH _ _ Hp), Z.add_mod, Hmod, Z.add_0_r, Z.mod_mod by lia. done.
Qed.

Lemma pre_length m prev a bs : pre m prev a bs -> a + 32 * Z.of_nat (length bs) <= ends a bs.
Proof.
  revert prev a. induction bs as [|b bs IH]; intros prev a; simpl length; simpl ends; [lia|].
  simpl pre. intros (_ & (? & _) & Hp). specialize (IH _ _ Hp). lia.
Qed.

Lemma pre_addr m prev a bs1 b bs2 : pre m prev a (bs1 ++ b :: bs2) -> b_addr b = ends a bs1.
Proof. rewrite pre_app. by intros (_ & ? & _). Qed.

Lemma pre_addr_inj m prev a bs b c : pre m prev a bs -> b ∈ bs -> c ∈ bs -> b_addr b = b_addr c -> b = c.
Proof.
  intros Hp Hb Hc E. destruct (pre_disjoint _ _ _ _ _ _ Hp Hb Hc) as [?|?]; [done|].
  destruct (pre_bounds _ _ _ _ _ Hp Hb) as (_ & _ & ? & _), (pre_bounds _ _ _ _ _ Hp Hc) as (_ & _ & ? & _). lia.
Qed.

Lemma live_not_free m prev a bs b : pre m prev a bs -> b ∈ bs -> b_alloc b = true -> b_addr b ∉ frees bs.
Proof.
  intros Hp Hb Hal (sz & Hin)%elem_of_frees.
  pose proof (pre_addr_inj _ _ _ _ _ _ Hp Hb Hin eq_refl) as E. by rewrite E in Hal.
Qed.

(** Header words are not links. *)
Lemma head_apart m a bs1 bs2 e x :
  chain m true a (bs1 ++ bs2) e -> ends a bs1 <= x < ends a bs1 + 8 -> ~ in_links (frees (bs1 ++ bs2)) x.
Proof.
  intros Hc Hx Hl. destruct (around_links m a bs1 [] bs2 e Hc x Hl) as [(? & _ & _ & ?)|[(? & _ & _ & _ & ?)|(? & _ & _ & ?)]];
    unfold z0 in *; simpl in *; lia.
Qed.

(** ** Changes of the free list *)

Lemma links_shape s s' bs fl fl' :
  shape s bs fl -> changes_links s s' fl' -> free_list s' fl' ->
  (forall y, y ∈ fl' -> exists b, b ∈ bs /\ b_addr b = y) ->
  shape s' bs fl' /\ spares (memory s) (memory s') bs fl' /\ same_region (memory s) (memory s').
Proof.
  intros [Hg Hc Hf _] (Hr & Hx) Hf' Hpl. destruct (region_ends _ _ Hr) as [E1 E2].
  split; [split|split]; try done.
  - by eapply geometry_region.
  - rewrite E1, E2. eapply chain_agree; [exact Hc|]. intros x _ Hnb. apply Hx. intros (y & Hy & Hyx).
    destruct (Hpl y Hy) as (b & Hb & <-). by apply (Hnb b Hb).
  - intros b x Hb Hnf Hp. apply Hx. intros (y & Hy & Hyx). destruct (Hpl y Hy) as (c & Hcin & <-).
    destruct Hc as (Hc & _). unfold payload in Hp.
    destruct (pre_bounds _ _ _ _ _ Hc Hcin) as (_ & _ & ? & _).
    destruct (pre_disjoint _ _ _ _ b c Hc Hb Hcin) as [->|[?|?]]; [done|lia|lia].
Qed.

Lemma shape_remove s bs fl y rest :
  shape s bs fl -> fl ≡ₚ y :: rest ->
  exists s' fl', remove_from_free_list s y = Done s' /\ shape s' bs fl' /\ fl' ≡ₚ rest /\
    spares (memory s) (memory s') bs fl' /\ same_region (memory s) (memory s').
Proof.
  intros Hsh Hp. assert (Hy : y ∈ fl) by (rewrite Hp; by left).
  apply list_elem_of_split in Hy as (f1 & f2 & ->).
  destruct (remove_ok s f1 y f2 (sh_free _ _ _ Hsh)) as (s' & Hs' & Hf' & Hch).
  destruct (links_shape s s' bs _ _ Hsh Hch Hf') as (? & ? & ?).
  { intros z Hz. apply (sh_places _ _ _ Hsh). rewrite elem_of_app in *. destruct Hz; [by left|right; by right]. }
  exists s', (f1 ++ f2). split_done. rewrite <- Permutation_middle in Hp. by apply Permutation_cons_inv in Hp.
Qed.

Lemma shape_places s bs fl fl' : shape s bs fl -> fl' ≡ₚ frees bs -> places (memory s) fl'.
Proof. intros [Hg Hc _ _] Hp. eapply frees_places; [done|exact Hc|lia|done]. Qed.

Lemma shape_add s bs fl y rest :
  shape s bs fl -> y :: fl ++ rest ≡ₚ frees bs ->
  exists s', add_to_free_list s y = Done s' /\ shape s' bs (y :: fl) /\
    spares (memory s) (memory s') bs (y :: fl) /\ same_region (memory s) (memory s').
Proof.
  intros Hsh Hp. destruct (add_ok s y fl (sh_free _ _ _ Hsh)) as (s' & Hs' & Hf' & Hch).
  { eapply places_sub; [eapply shape_places; [exact Hsh|reflexivity]| |done].
    rewrite <- Hp. apply submseteq_skip, submseteq_inserts_r. done. }
  destruct (links_shape s s' bs _ _ Hsh Hch Hf') as (? & ? & ?); [|by exists s'; split_done].
  intros z Hz. assert (Hz' : z ∈ frees bs).
  { rewrite <- Hp. apply elem_of_cons in Hz as [->|Hz]; [by left|]. right. apply elem_of_app. by left. }
  apply elem_of_frees in Hz' as (sz & ?). by exists (Blk z sz false).
Qed.

(** ** Changes of blocks *)

Lemma writes_trans s s1 s2 lo hi lo1 hi1 lo2 hi2 :
  writes s s1 lo1 hi1 -> writes s1 s2 lo2 hi2 -> lo <= lo1 -> lo <= lo2 -> hi1 <= hi -> hi2 <= hi ->
  writes s s2 lo hi.
Proof.
  intros (Hm1 & Hr1 & Hf1 & Hx1) (Hm2 & Hr2 & Hf2 & Hx2) ? ? ? ?. unfold writes. split_done.
  - by eapply same_region_trans.
  - congruence.
  - intros x Hx. rewrite Hx2, Hx1 by lia. done.
Qed.

Lemma writes_weaken s s' lo hi lo' hi' : writes s s' lo' hi' -> lo <= lo' -> hi' <= hi -> writes s s' lo hi.
Proof. intros (Hm & Hr & Hf & Hx) ? ?. unfold writes. split_done. intros x ?. apply Hx. lia. Qed.

Definition same_links (s s' : mm) (fl : list Z) : Prop :=
  forall x, in_links fl x -> byte_at (memory s') x = byte_at (memory s) x.

Lemma same_links_trans s s1 s2 fl : same_links s s1 fl -> same_links s1 s2 fl -> same_links s s2 fl.
Proof. intros H1 H2 x Hx. by rewrite H2, H1. Qed.

Lemma writes_links s s' lo hi fl :
  writes s s' lo hi -> (forall x, lo <= x < hi -> ~ in_links fl x) -> same_links s s' fl.
Proof.
  intros (_ & _ & _ & Hx) Hn x Hl. apply Hx.
  destruct (Z.lt_ge_cases x lo); [by left|]. destruct (Z.lt_ge_cases x hi); [|by right].
  by destruct (Hn x).
Qed.

(** The blocks [mid] become [mid'], of the same extent. *)
Lemma shape_change s s' bs1 mid mid' bs2 fl :
  shape s (bs1 ++ mid ++ bs2) fl ->
  (forall y, y ∈ fl -> y ∈ frees (bs1 ++ mid ++ bs2)) ->
  writes s s' (ends (first (memory s)) bs1) (ends (ends (first (memory s)) bs1) mid + 8) ->
  same_links s s' fl ->
  (forall sz al, word_at (memory s) (ends (ends (first (memory s)) bs1) mid) = hdr sz al (last_alloc (last_alloc true bs1) mid) ->
     word_at (memory s') (ends (ends (first (memory s)) bs1) mid) = hdr sz al (last_alloc (last_alloc true bs1) mid')) ->
  pre (memory s') (last_alloc true bs1) (ends (first (memory s)) bs1) mid' ->
  ends (ends (first (memory s)) bs1) mid' = ends (ends (first (memory s)) bs1) mid ->
  (forall b, b ∈ mid -> b_addr b ∈ fl -> exists b', b' ∈ mid' /\ b_addr b' = b_addr b) ->
  shape s' (bs1 ++ mid' ++ bs2) fl /\ keeps (memory s) (memory s') (bs1 ++ bs2) /\
  same_region (memory s) (memory s').
Proof.
  intros [Hg Hc Hf Hpl] Hfl (Hm' & Hr & Hfb & Hx) Hl Hflag Hpre Hends Hmid.
  destruct (region_ends _ _ Hr) as [E1 E2].
  destruct (around_ok (memory s) _ bs1 mid bs2 _ Hc (memory s') fl (last_alloc (last_alloc true bs1) mid') Hfl)
    as (Hp1 & Hp2 & Hk); [|done|].
  { intros x Hx' _. apply Hx. unfold z0 in Hx'. lia. }
  split; [split|done].
  - by eapply geometry_region.
  - rewrite E1, E2. apply chain_glue; [done|done|]. by rewrite Hends.
  - by eapply free_list_agree.
  - intros y Hy. destruct (Hpl y Hy) as (b & Hb & Hby). subst y. rewrite !elem_of_app in Hb.
    destruct Hb as [Hb|[Hb|Hb]].
    + exists b. split; [|done]. rewrite !elem_of_app. by left.
    + destruct (Hmid b Hb Hy) as (b' & ? & ?). exists b'. split; [|done]. rewrite !elem_of_app. right; by left.
    + exists b. split; [|done]. rewrite !elem_of_app. by right; right.
Qed.
