(* ===== verification/MmMalloc.v ===== *)
(** * [malloc] of the allocator

    [malloc] takes the first free block that is large enough, whole or split,
    or extends the heap; each way keeps the invariant, gives memory nobody else
    holds and leaves every live payload as it was. *)

From Stdlib Require Import ZArith Lia.
From stdpp Require Import gmap list.
From S2P Require Import Prelude MemLib Mm MmHeap MmFreeList MmInv.
Open Scope Z_scope.

(** ** Sizes *)

Lemma required_size_ok size :
  0 < size < 4611686018427387904 ->
  let r := required_size size in
  32 <= r /\ size + 8 <= r /\ r <= size + 40 /\ r mod 16 = 0.
Proof.
  intros Hs. unfold required_size, align, ALIGNMENT, sub64, add64, wrap64. unfold w64.
  rewrite (Z.mod_small (size + 8)), (Z.mod_small (size + 8 + 16)), (Z.mod_small (size + 8 + 16 - 1)) by lia.
  pose proof (Z.div_mod (size + 8 + 16 - 1) 16 ltac:(lia)) as Hdm.
  pose proof (Z.mod_pos_bound (size + 8 + 16 - 1) 16 ltac:(lia)) as Hmod.
  assert (Hal : (16 * ((size + 8 + 16 - 1) / 16)) mod 16 = 0) by (rewrite Z.mul_comm; apply Z.mod_mul; lia).
  cbv zeta. destruct (Z.ltb_spec (16 * ((size + 8 + 16 - 1) / 16)) 32); split_done; lia.
Qed.

(** ** One block of a heap *)

Record block_at (s : mm) (bs1 : list block) (y sz : Z) (al : bool) (bs2 : list block) : Prop := {
  ba_addr : y = ends (first (memory s)) bs1;
  ba_lo : first (memory s) <= y;
  ba_hi : y + sz <= epilogue (memory s);
  ba_size : 32 <= sz < 4611686018427387904;
  ba_mod : sz mod 16 = 0;
  ba_align : y mod 16 = 8;
  ba_word : word_at (memory s) y = hdr sz al (last_alloc true bs1);
  ba_null : 0 < y;
  ba_next : exists nsz nal, 0 <= nsz < 4611686018427387904 /\ nsz mod 16 = 0 /\
    word_at (memory s) (y + sz) = hdr nsz nal al
}.

Lemma shape_block s bs1 y sz al bs2 fl :
  shape s (bs1 ++ Blk y sz al :: bs2) fl -> block_at s bs1 y sz al bs2.
Proof.
  intros [Hg Hc _ _]. pose proof Hg as [? ? ? ? ?].
  pose proof (around_parts (memory s) _ bs1 [Blk y sz al] bs2 _ Hc) as (Hp1 & Hp2 & Hc3 & ? & ? & ?).
  simpl in Hp2. destruct Hp2 as (Hy & (Hsz & Hmod & Hw & _) & _). unfold z0 in *. simpl in *.
  assert (Hlim : sz < 4611686018427387904) by (unfold first, epilogue in *; lia).
  split; try done; try lia; try (unfold first, epilogue in *; lia).
  - rewrite Hy, (ends_mod _ _ _ _ Hp1). by apply first_mod.
  - destruct (chain_head_word _ _ _ _ _ Hc3) as (nsz & nal & Hn0 & Hnm & Hnw & Hnb).
    exists nsz, nal. rewrite Hy. split_done. destruct bs2 as [|b bs2]; [lia|].
    destruct Hc3 as (Hp3 & He3 & _). destruct (pre_bounds _ _ _ _ b Hp3 ltac:(by left)) as (? & ? & _ & _).
    destruct Hnb as (_ & <- & _). rewrite He3 in *. unfold epilogue, first in *. lia.
Qed.

(** [search] finds a free block of the chain that is large enough, or none. *)
Lemma search_ok s bs fl size :
  shape s bs fl -> fl ≡ₚ frees bs ->
  search s size = Done NULL \/
  exists bs1 y sz bs2, bs = bs1 ++ Blk y sz false :: bs2 /\ search s size = Done y /\ size <= sz.
Proof.
  intros Hsh Hp. pose proof Hsh as [Hg (Hpre & He & _) (Hd & Hfb & Hpl & Hm) _].
  unfold search. rewrite Hfb.
  destruct (search_loop_ok (search_fuel s) s 0 fl size Hd Hpl) as [[-> _]|(f1 & y & f2 & Hfl & -> & Hsz)].
  - pose proof (pre_length _ _ _ _ Hpre) as Hlen. rewrite He in Hlen.
    assert (length fl <= length bs)%nat.
    { rewrite Hp. unfold frees. rewrite length_fmap. apply length_filter. }
    destruct Hg. unfold search_fuel, first, epilogue in *. lia.
  - by left.
  - right. assert (Hy : y ∈ frees bs) by (rewrite <- Hp, Hfl; apply elem_of_app; right; by left).
    apply elem_of_frees in Hy as (sz & Hin). apply list_elem_of_split in Hin as (bs1 & bs2 & ->).
    exists bs1, y, sz, bs2. split; [done|]. split; [done|].
    destruct (shape_block _ _ _ _ _ _ _ Hsh) as [_ _ _ ? ? _ Hw _ _].
    rewrite Hw, hdr_size in Hsz by (try done; lia). done.
Qed.

(** ** Keeping payloads *)

Lemma keeps_sub m m' bs bs' :
  keeps m m' bs' -> (forall b, b ∈ bs -> b_alloc b = true -> b ∈ bs') -> keeps m m' bs.
Proof. intros Hk Hs b x Hb Hal Hx. apply (Hk b); auto. Qed.

Lemma spares_keeps s s' bs fl0 fl :
  shape s bs fl0 -> spares (memory s) (memory s') bs fl -> fl ⊆ frees bs -> keeps (memory s) (memory s') bs.
Proof.
  intros [_ (Hp & _) _ _] Hsp Hfl b x Hb Hal Hx. apply (Hsp b); [done| |done].
  intros Hin. by eapply live_not_free; [exact Hp|exact Hb|done|apply Hfl].
Qed.

Lemma perm_subset (l k : list Z) : l ≡ₚ k -> l ⊆ k.
Proof. intros Hp x Hx. by rewrite <- Hp. Qed.

Lemma free_prev_alloc bs1 b bs2 :
  coalesced true (bs1 ++ b :: bs2) -> b_alloc b = false ->
  last_alloc true bs1 = true /\ coalesced true bs1 /\ coalesced false bs2.
Proof.
  intros (Hc1 & Hc & Hc2)%coalesced_app Hal. rewrite Hal in *. rewrite orb_false_r in Hc. done.
Qed.

Lemma coalesced_weaken bs : coalesced false bs -> coalesced true bs.
Proof. destruct bs as [|b bs]; simpl; [done|]. by intros [_ ?]. Qed.

Lemma coalesced_join bs1 mid bs2 :
  coalesced true bs1 -> coalesced (last_alloc true bs1) mid -> coalesced (last_alloc (last_alloc true bs1) mid) bs2 ->
  coalesced true (bs1 ++ mid ++ bs2).
Proof. intros. by rewrite !coalesced_app. Qed.

(** ** The three ways *)

(** The first two write to the block; all of it lies outside the links. *)
Lemma free_list_mid s bs1 y sz bs2 fl x :
  shape s (bs1 ++ Blk y sz false :: bs2) fl -> fl ≡ₚ frees (bs1 ++ Blk y sz false :: bs2) ->
  (y <= x < y + 8 \/ y + 24 <= x < y + sz + 8) -> ~ in_links fl x.
Proof.
  intros Hsh Hp Hx Hl. pose proof (shape_block _ _ _ _ _ _ _ Hsh) as [Hy _ _ Hsz _ _ _ _ _].
  assert (Hl' : in_links (frees (bs1 ++ [Blk y sz false] ++ bs2)) x).
  { destruct Hl as (z & Hz & ?). exists z. split; [by rewrite Hp in Hz|done]. }
  destruct Hsh as [_ Hc _ _].
  destruct (around_links _ _ bs1 [Blk y sz false] bs2 _ Hc x Hl') as [(b & Hb & ? & ?)|[(b & Hb & _ & ? & _)|(b & Hb & ? & ?)]].
  - lia.
  - apply list_elem_of_singleton in Hb as ->. simpl in *. lia.
  - unfold z0 in *. simpl in *. lia.
Qed.

Lemma take_whole s bs1 y sz bs2 fl :
  shape s (bs1 ++ Blk y sz false :: bs2) fl -> fl ≡ₚ frees (bs1 ++ Blk y sz false :: bs2) ->
  coalesced true (bs1 ++ Blk y sz false :: bs2) ->
  exists s',
    (s ← allocate_header s y sz; s ← xor_at s (y + words sz) 2; s ← remove_from_free_list s y; Done (y + 8, s))
      = Done (y + 8, s') /\
    heap_inv s' (bs1 ++ Blk y sz true :: bs2) /\
    keeps (memory s) (memory s') (bs1 ++ Blk y sz false :: bs2).
Proof.
  intros Hsh Hp Hco. pose proof (shape_block _ _ _ _ _ _ _ Hsh) as [Hy Hlo Hhi Hsz Hmod _ Hw _ (nsz & nal & Hn & Hnm & Hnw)].
  destruct (free_prev_alloc _ _ _ Hco eq_refl) as (Hla & Hc1 & Hc2). rewrite Hla in Hw.
  pose proof Hsh as [Hg _ (_ & _ & _ & Hm) _].
  destruct (allocate_header_ok s y sz sz false true Hm) as (s1 & -> & Hwr1 & Hw1);
    [apply inside_heap; [done|lia|lia]|done|done|lia|done|].
  cbn [mbind outcome_bind]. rewrite words_16 by done.
  destruct (xor_flag_ok s1 (y + sz) nsz nal false) as (s2 & -> & Hwr2 & Hw2); [apply Hwr1| | |done|done|].
  { eapply region_inside; [apply Hwr1|]. apply inside_heap; [done|lia|lia]. }
  { rewrite (writes_word _ _ _ _ _ Hwr1) by lia. done. }
  cbn [mbind outcome_bind].
  destruct (shape_change s s2 bs1 [Blk y sz false] [Blk y sz true] bs2 fl Hsh) as (Hsh2 & Hk2 & Hr2);
    rewrite <- ?Hy; simpl ends; simpl last_alloc.
  - intros z Hz. by rewrite <- Hp.
  - eapply writes_trans; [exact Hwr1|exact Hwr2|lia|lia|lia|lia].
  - eapply same_links_trans; (eapply writes_links; [eassumption|]); intros x Hx; eapply free_list_mid; try done; lia.
  - intros sz' al' Hwz. rewrite Hw2. rewrite Hnw in Hwz. unfold hdr in *. simpl in *. lia.
  - rewrite Hla. split; [done|]. split; [|done]. split_done; try lia.
    unfold block_ok. simpl. split_done; try lia. rewrite (writes_word _ _ _ _ _ Hwr2) by lia. done.
  - done.
  - intros b Hb _. exists (Blk y sz true). apply list_elem_of_singleton in Hb as ->. split; [by left|done].
  - destruct (shape_remove s2 _ fl y (frees (bs1 ++ [Blk y sz true] ++ bs2)) Hsh2) as (s3 & fl' & -> & Hsh3 & Hp3 & Hk3 & _).
    { rewrite Hp, !frees_app, !frees_cons. simpl. by rewrite Permutation_middle. }
    exists s3. split; [done|]. split.
    + apply heap_inv_shape. split; [|by exists fl'].
      apply (coalesced_join bs1 [Blk y sz true]); rewrite ?Hla; simpl; [done|done|by apply coalesced_weaken].
    + pose proof (spares_keeps _ _ _ _ _ Hsh2 Hk3 (perm_subset _ _ Hp3)) as Hk3'.
      eapply keeps_sub; [eapply keeps_trans; [exact Hk2|eapply keeps_sub; [exact Hk3'|]]|].
      * intros b Hb _. rewrite !elem_of_app in *. tauto.
      * intros b Hb Hal. rewrite elem_of_app, elem_of_cons in *. destruct Hb as [?|[->|?]]; [by left|done|by right].
Qed.

(** The header of the part of a block that stays free. *)
Lemma free_header_ok s y sz al pv extra :
  mem_ok (memory s) -> inside (memory s) y 8 -> word_at (memory s) y = hdr sz al pv -> sz mod 16 = 0 ->
  0 <= extra < 4611686018427387904 -> extra mod 16 = 0 ->
  exists s',
    (if negb (Z.land (hdr sz al pv) 2 =? 0) then s ← wr s y extra; xor_at s y 2 else wr s y extra) = Done s' /\
    writes s s' y (y + 8) /\ word_at (memory s') y = hdr extra false pv.
Proof.
  intros Hm Hi Hw Hmod He Hem. rewrite hdr_land2, negb_involutive by done.
  destruct (wr_writes s y extra Hm Hi) as (s1 & Es1 & Hwr1 & Hw1);
    [rewrite <- (hdr_free extra); by apply hdr_u64|].
  rewrite <- (hdr_free extra) in Hw1.
  destruct pv; rewrite Es1; [|by exists s1]. cbn [mbind outcome_bind].
  destruct (xor_flag_ok s1 y extra false false) as (s2 & -> & Hwr2 & Hw2); [apply Hwr1| |done|done|done|].
  { eapply region_inside; [apply Hwr1|done]. }
  exists s2. split; [done|]. split; [|done]. eapply writes_trans; [exact Hwr1|exact Hwr2|lia|lia|lia|lia].
Qed.

Lemma take_split s bs1 y sz bs2 fl req :
  shape s (bs1 ++ Blk y sz false :: bs2) fl -> fl ≡ₚ frees (bs1 ++ Blk y sz false :: bs2) ->
  coalesced true (bs1 ++ Blk y sz false :: bs2) -> 32 <= req -> req mod 16 = 0 -> 32 <= sz - req ->
  let extra := sz - req in
  exists s',
    (s ← (if negb (Z.land (hdr sz false true) 2 =? 0) then s ← wr s y extra; xor_at s y 2 else wr s y extra);
     s ← wr s (y + words extra - 8) extra;
     let alloc_header := y + words extra in
     s ← wr s alloc_header (Z.lor req 1);
     s ← xor_at s (y + words sz) 2;
     Done (alloc_header + 8, s)) = Done (y + extra + 8, s') /\
    heap_inv s' (bs1 ++ Blk y extra false :: Blk (y + extra) req true :: bs2) /\
    keeps (memory s) (memory s') (bs1 ++ Blk y sz false :: bs2).
Proof.
  intros Hsh Hp Hco Hreq Hrmod Hlarge extra.
  pose proof (shape_block _ _ _ _ _ _ _ Hsh) as [Hy Hlo Hhi Hsz Hmod _ Hw _ (nsz & nal & Hn & Hnm & Hnw)].
  destruct (free_prev_alloc _ _ _ Hco eq_refl) as (Hla & Hc1 & Hc2). rewrite Hla in Hw.
  pose proof Hsh as [Hg _ (_ & _ & _ & Hm) _].
  assert (He : 32 <= extra < 4611686018427387904) by (unfold extra; lia).
  assert (Hem : extra mod 16 = 0) by (unfold extra; rewrite Zminus_mod, Hmod, Hrmod; done).
  assert (Hin : forall s1 a, same_region (memory s) (memory s1) -> y <= a <= y + sz -> inside (memory s1) a 8).
  { intros s1 a Hr Ha. eapply region_inside; [exact Hr|]. apply inside_heap; [done|lia|lia]. }
  destruct (free_header_ok s y sz false true extra Hm) as (s1 & -> & Hwr1 & Hw1);
    [apply Hin; [done|lia]|done|done|lia|done|].
  cbn [mbind outcome_bind]. rewrite !words_16 by done.
  destruct (wr_writes s1 (y + extra - 8) extra) as (s2 & -> & Hwr2 & Hw2);
    [apply Hwr1|apply Hin; [apply Hwr1|unfold extra in *; lia]|rewrite <- (hdr_free extra); apply hdr_u64; lia|].
  assert (Hwr02 : writes s s2 y (y + extra)) by (eapply writes_trans; [exact Hwr1|exact Hwr2|lia|lia|lia|lia]).
  cbn [mbind outcome_bind]. rewrite hdr_lor1 by (done || lia).
  destruct (wr_writes s2 (y + extra) (hdr req true false)) as (s3 & -> & Hwr3 & Hw3);
    [apply Hwr02|apply Hin; [apply Hwr02|unfold extra in *; lia]|apply hdr_u64; lia|].
  cbn [mbind outcome_bind].
  assert (Hwr03 : writes s s3 y (y + sz)) by (eapply writes_trans; [exact Hwr02|exact Hwr3|unfold extra in *; lia..]).
  destruct (xor_flag_ok s3 (y + sz) nsz nal false) as (s4 & -> & Hwr4 & Hw4); [apply Hwr3| | |done|done|].
  { apply Hin; [apply Hwr03|lia]. }
  { rewrite (writes_word _ _ _ _ _ Hwr03) by lia. done. }
  cbn [mbind outcome_bind]. exists s4. split; [done|].
  assert (Hlinks : forall s s' lo hi, writes s s' lo hi ->
    (y <= lo /\ hi <= y + 8 \/ y + 24 <= lo /\ hi <= y + sz + 8) -> same_links s s' fl).
  { intros s0 s0' lo hi Hwr Hr. eapply writes_links; [exact Hwr|]. intros x Hx.
    eapply free_list_mid; try done. lia. }
  destruct (shape_change s s4 bs1 [Blk y sz false] [Blk y extra false; Blk (y + extra) req true] bs2 fl Hsh)
    as (Hsh4 & Hk4 & Hr4); rewrite <- ?Hy; simpl ends; simpl last_alloc.
  - intros z Hz. by rewrite <- Hp.
  - eapply writes_trans; [exact Hwr03|exact Hwr4|lia|lia|lia|lia].
  - eapply same_links_trans; [|eapply (Hlinks s3 s4); [exact Hwr4|lia]].
    eapply same_links_trans; [|eapply (Hlinks s2 s3); [exact Hwr3|unfold extra in *; lia]].
    eapply same_links_trans; [eapply (Hlinks s s1); [exact Hwr1|lia]|].
    eapply (Hlinks s1 s2); [exact Hwr2|unfold extra in *; lia].
  - intros sz' al' Hwz. rewrite Hw4. rewrite Hnw in Hwz. unfold hdr in *. simpl in *. lia.
  - rewrite Hla. simpl. unfold block_ok. simpl. split_done; try lia.
    + rewrite (writes_word _ _ _ _ _ Hwr4), (writes_word _ _ _ _ _ Hwr3), (writes_word _ _ _ _ _ Hwr2)
        by (unfold extra in *; lia). done.
    + intros _. rewrite (writes_word _ _ _ _ _ Hwr4), (writes_word _ _ _ _ _ Hwr3) by (unfold extra in *; lia). done.
    + rewrite (writes_word _ _ _ _ _ Hwr4) by (unfold extra in *; lia). done.
  - unfold extra. lia.
  - intros b Hb _. exists (Blk y extra false). apply list_elem_of_singleton in Hb as ->. split; [by left|done].
  - split.
    + apply heap_inv_shape. split.
      * apply (coalesced_join bs1 [_; _]); rewrite ?Hla; simpl; [done|done|by apply coalesced_weaken].
      * exists fl. split; [exact Hsh4|]. rewrite Hp, !frees_app, !frees_cons. done.
    + eapply keeps_sub; [exact Hk4|].
      intros b Hb Hal. rewrite elem_of_app, elem_of_cons in *. destruct Hb as [?|[->|?]]; [by left|done|by right].
Qed.

(** Moving the break changes no byte. *)
Lemma free_list_set_brk s b fl :
  free_list s fl -> mem_ok (set_brk (memory s) b) -> free_list (set_memory s (set_brk (memory s) b)) fl.
Proof.
  intros (Hd & Hf & [Hn Ha Hi] & Hm) Hm'. split; [|split; [done|split; [|done]]].
  - eapply dll_agree; [exact Hd|]. done.
  - by split.
Qed.

Lemma set_brk_ok m b : mem_ok m -> mem_brk m <= b <= mem_max_addr m -> mem_ok (set_brk m b).
Proof. intros [? ? ?] Hb. split; simpl; [done|lia|lia]. Qed.

Lemma extend_ok s bs fl req :
  shape s bs fl -> fl ≡ₚ frees bs -> coalesced true bs ->
  32 <= req -> req mod 16 = 0 -> mem_brk (memory s) + req <= mem_max_addr (memory s) ->
  let brk := mem_brk (memory s) in
  exists s',
    (s ← allocate_header (set_memory s (set_brk (memory s) (brk + req))) (brk - 8) req;
     s ← wr s (brk + req - 1 + 1 - 8) 3;
     Done (brk, s)) = Done (brk, s') /\
    heap_inv s' (bs ++ [Blk (brk - 8) req true]) /\
    keeps (memory s) (memory s') bs.
Proof.
  intros Hsh Hp Hco Hreq Hrmod Hmax brk. pose proof Hsh as [Hg (Hpre & He & Hw) Hf _].
  pose proof Hg as [? ? ? ? ?]. pose proof Hf as (_ & _ & _ & Hm).
  set (s0 := set_memory s (set_brk (memory s) (brk + req))).
  assert (Hm0 : mem_ok (memory s0)) by (apply set_brk_ok; [done|unfold brk; lia]).
  assert (Hf0 : free_list s0 fl) by by apply free_list_set_brk.
  assert (Hin : forall s1 a, same_region (memory s0) (memory s1) -> brk - 8 <= a <= brk + req - 8 -> inside (memory s1) a 8).
  { intros s1 a Hr Ha. eapply region_inside; [exact Hr|]. unfold inside. simpl. unfold brk in *. lia. }
  destruct (allocate_header_ok s0 (brk - 8) 0 req true (last_alloc true bs) Hm0) as (s1 & -> & Hwr1 & Hw1);
    [apply Hin; [done|lia]|exact Hw|done|unfold brk in *; lia|done|].
  cbn [mbind outcome_bind]. replace (brk + req - 1 + 1 - 8) with (brk - 8 + req) by lia.
  destruct (wr_writes s1 (brk - 8 + req) (hdr 0 true true)) as (s2 & Es2 & Hwr2 & Hw2);
    [apply Hwr1|apply Hin; [apply Hwr1|lia]|by apply hdr_u64|].
  change 3 with (hdr 0 true true). rewrite Es2. cbn [mbind outcome_bind]. exists s2. split; [done|].
  assert (Hwr : writes s0 s2 (brk - 8) (brk + req)) by (eapply writes_trans; [exact Hwr1|exact Hwr2|lia|lia|lia|lia]).
  pose proof Hwr as (Hm2 & Hr2 & Hfb2 & Hx2). destruct (region_ends _ _ Hr2) as [E1 E2].
  assert (Hbelow : forall b x, b ∈ bs -> b_addr b <= x < b_addr b + b_size b -> byte_at (memory s2) x = byte_at (memory s) x).
  { intros b x Hb Hx. destruct (pre_bounds _ _ _ _ _ Hpre Hb) as (_ & Hle & _). apply Hx2. left.
    rewrite He in Hle. unfold epilogue in Hle. unfold brk. lia. }
  split; [apply heap_inv_shape; split|].
  - rewrite coalesced_app. split; [done|]. simpl. by rewrite orb_true_r.
  - exists fl. split; [|by rewrite Hp, frees_app, app_nil_r].
    split.
    + eapply geometry_region; [exact Hr2|]. split; simpl; unfold brk; lia.
    + rewrite E1, E2. apply (chain_glue _ _ bs [Blk (brk - 8) req true] []).
      * eapply pre_agree; [exact Hpre|]. intros x Hx _. apply Hx2. left.
        change (first (memory s0)) with (first (memory s)) in Hx. rewrite He in Hx. unfold epilogue in Hx. unfold brk. lia.
      * change (first (memory s0)) with (first (memory s)). rewrite He. simpl. split; [done|]. split; [|done].
        unfold block_ok. simpl. split_done. by rewrite (writes_word _ _ _ _ _ Hwr2) by lia.
      * change (first (memory s0)) with (first (memory s)). rewrite He. simpl. unfold chain, epilogue; simpl.
        split; [done|]. split; [unfold brk; lia|]. rewrite <- Hw2. f_equal. unfold brk. lia.
    + eapply free_list_agree; [exact Hf0|done|done|done|]. intros x (y & Hy & Hyx).
      rewrite Hp in Hy. apply elem_of_frees in Hy as (sz & Hin2).
      destruct (pre_bounds _ _ _ _ _ Hpre Hin2) as (_ & _ & ? & _). apply (Hbelow _ _ Hin2). simpl in *. lia.
    + intros y Hy. rewrite Hp in Hy. apply elem_of_frees in Hy as (sz & ?). exists (Blk y sz false).
      split; [|done]. apply elem_of_app. by left.
  - intros b x Hb _ Hx. apply (Hbelow b); [done|]. unfold payload in Hx. lia.
Qed.

(** ** The whole function *)

(** The last block of the heap is free and shorter than 64 bytes. *)
Definition short_last (bs : list block) : bool :=
  match last bs with Some b => negb (b_alloc b) && (b_size b <? 64) | None => false end.

Lemma short_last_taken bs1 b bs2 :
  b_alloc b = true -> short_last (bs1 ++ b :: bs2) = short_last bs2.
Proof.
  intros Hal. unfold short_last. destruct bs2 as [|c bs2 _] using rev_ind.
  - rewrite last_snoc. by rewrite Hal.
  - by rewrite app_comm_cons, app_assoc, !last_snoc.
Qed.

Lemma short_last_tail bs1 b bs2 : short_last (bs1 ++ b :: bs2) = false -> short_last bs2 = false.
Proof.
  unfold short_last. destruct bs2 as [|c bs2 _] using rev_ind; [done|].
  by rewrite app_comm_cons, app_assoc, !last_snoc.
Qed.

(** [allocated s bs size p s' bs']: a block of at least [size] bytes was added
    to the live ones; its bytes overlap no live payload, and those keep. *)
Record allocated (s : mm) (bs : list block) (size p : Z) (s' : mm) (bs' : list block) : Prop := {
  al_inv : heap_inv s' bs';
  al_align : p mod 16 = 0;
  al_live : exists sz, size + 8 <= sz /\ live bs' ≡ₚ Blk (p - 8) sz true :: live bs;
  al_heap : heap (memory s') < p /\ p + size <= mem_brk (memory s');
  al_apart b : b ∈ live bs -> b_addr b + b_size b <= p - 8 \/ p + size <= b_addr b;
  al_keeps : keeps (memory s) (memory s') bs;
  al_last : short_last bs = false -> short_last bs' = false
}.

Lemma allocated_intro s bs size s' bs' bs1 y sz bs2 :
  heap_inv s' bs' -> keeps (memory s) (memory s') bs -> bs' = bs1 ++ Blk y sz true :: bs2 ->
  live bs1 ++ live bs2 = live bs -> size + 8 <= sz ->
  (bs2 = [] \/ exists b bs0, bs = bs0 ++ b :: bs2) ->
  allocated s bs size (y + 8) s' bs'.
Proof.
  intros Hinv Hk -> Hlive Hsz Hlast. pose proof Hinv as [Hg (Hpre & He & Hw) Hco (fl & Hf & Hp)].
  assert (Hsh : shape s' (bs1 ++ Blk y sz true :: bs2) fl).
  { split; try done. intros z Hz. rewrite Hp in Hz. apply elem_of_frees in Hz as (szz & ?). by exists (Blk z szz false). }
  pose proof (shape_block _ _ _ _ _ _ _ Hsh) as [Hy Hlo Hhi _ Hm Hmod _ Hnull _].
  split; try done.
  - rewrite Z.add_mod, Hmod by lia. done.
  - exists sz. split; [done|]. rewrite Z.add_simpl_r, live_app, live_cons. simpl. rewrite <- Hlive.
    by rewrite Permutation_middle.
  - unfold first, epilogue in *. lia.
  - intros b Hb. rewrite <- Hlive, elem_of_app, !elem_of_live in Hb.
    apply pre_app in Hpre as (Hp1 & _ & _ & Hp2). rewrite <- Hy in Hp2. simpl in Hp2.
    destruct Hb as [[Hb _]|[Hb _]].
    + destruct (pre_bounds _ _ _ _ _ Hp1 Hb) as (_ & ? & _). left. lia.
    + destruct (pre_bounds _ _ _ _ _ Hp2 Hb) as (? & _). right. lia.
  - rewrite short_last_taken by done. destruct Hlast as [->|(b & bs0 & ->)]; [done|]. apply short_last_tail.
Qed.

Lemma malloc_ok s bs size :
  heap_inv s bs -> 0 < size < 4611686018427387904 ->
  malloc s size = Done (NULL, s) \/
  exists p s' bs', malloc s size = Done (p, s') /\ p <> NULL /\ allocated s bs size p s' bs'.
Proof.
  intros (Hco & fl & Hsh & Hp)%heap_inv_shape Hsize.
  pose proof (required_size_ok size Hsize) as (Hr1 & Hr2 & Hr3 & Hr4). unfold malloc.
  rewrite (proj2 (Z.eqb_neq size 0)) by lia. set (req := required_size size) in *. cbv zeta.
  destruct (search_ok s bs fl req Hsh Hp) as [->|(bs1 & y & sz & bs2 & -> & -> & Hle)]; cbn [mbind outcome_bind].
  - pose proof Hsh as [[? ? ? ? ?] _ _ _].
    assert (Hti : to_intptr req = req).
    { unfold to_intptr. by rewrite (proj2 (Z.ltb_lt _ _)) by lia. }
    unfold mm_sbrk. rewrite Hti, (proj2 (Z.ltb_ge req 0)) by lia. simpl negb. cbv iota.
    destruct (Z.ltb_spec (mem_max_addr (memory s)) (mem_brk (memory s) + req)) as [Hlt|Hge].
    { left. unfold set_memory. by destruct s. }
    right. destruct (extend_ok s bs fl req Hsh Hp Hco) as (s' & Hs' & Hinv & Hk); [done..|].
    exists (mem_brk (memory s)), s', (bs ++ [Blk (mem_brk (memory s) - 8) req true]).
    rewrite (proj2 (Z.eqb_neq _ _)) by (unfold failed_sbrk, u64_max, w64; lia). split; [exact Hs'|]. unfold NULL.
    split; [lia|]. replace (mem_brk (memory s)) with (mem_brk (memory s) - 8 + 8) at 1 by lia.
    eapply allocated_intro; [exact Hinv|exact Hk|reflexivity|by rewrite app_nil_r|lia|by left].
  - right. pose proof (shape_block _ _ _ _ _ _ _ Hsh) as [Hy Hlo Hhi Hsz Hmod _ Hw Hnull _].
    destruct (free_prev_alloc _ _ _ Hco eq_refl) as (Hla & _ & _). rewrite Hla in Hw.
    pose proof Hsh as [Hg _ _ _].
    rewrite (proj2 (Z.eqb_neq y NULL)) by (unfold NULL; lia). simpl negb. cbv iota.
    rewrite (rd_ok s y) by (apply inside_heap; [done|lia|lia]). cbn [mbind outcome_bind].
    rewrite Hw, hdr_size by (done || lia).
    assert (Hsub : sub64 sz req = sz - req) by (unfold sub64, wrap64; rewrite Z.mod_small; [done|unfold w64; lia]).
    rewrite Hsub. destruct ((sz - req <=? 32) || (sz =? req)) eqn:Ewhole; cbv iota.
    + destruct (take_whole s bs1 y sz bs2 fl Hsh Hp Hco) as (s' & -> & Hinv & Hk).
      eexists (y + 8), s', _. split; [done|]. unfold NULL. split; [lia|].
      eapply allocated_intro; [exact Hinv|exact Hk|reflexivity| |lia|by right; exists (Blk y sz false), bs1].
      by rewrite !live_app, live_cons.
    + apply orb_false_iff in Ewhole as [E1%Z.leb_gt _].
      destruct (take_split s bs1 y sz bs2 fl req Hsh Hp Hco) as (s' & Hs' & Hinv & Hk); [lia|done|lia|].
      eexists (y + (sz - req) + 8), s', _. split; [exact Hs'|]. unfold NULL. split; [lia|].
      eapply (allocated_intro _ _ _ _ _ (bs1 ++ [Blk y (sz - req) false])); [exact Hinv|exact Hk|by rewrite <- app_assoc| |lia|by right; exists (Blk y sz false), bs1].
      rewrite !live_app, !live_cons. simpl. by rewrite app_nil_r.
Qed.

(** C1: [malloc] allocates.  On a well-formed heap, for any request below 2^62,
    [malloc] either returns null and changes nothing, or returns a 16-byte
    aligned pointer inside the heap to at least [size] bytes that overlap no
    live payload; the heap is well formed again, its live blocks are the old
    ones and the new one, and all live payloads keep their bytes. *)
Theorem malloc_allocates s bs size :
  heap_inv s bs -> 0 < size < 4611686018427387904 ->
  malloc s size = Done (NULL, s) \/
  exists p s' bs', malloc s size = Done (p, s') /\ p <> NULL /\ allocated s bs size p s' bs'.
Proof. exact (malloc_ok s bs size). Qed.
