(* ===== verification/MmCoalesce.v ===== *)
(** * [free] and [coalesce] of the allocator

    [free] returns a live block to the free list and merges it with its free
    neighbours; the merged heap is well formed again.  The bound test of
    [coalesce] misses a last free block of less than 64 bytes, which the
    theorem excludes. *)

From Stdlib Require Import ZArith Lia.
From stdpp Require Import gmap list.
From S2P Require Import Prelude MemLib Mm MmHeap MmFreeList MmInv MmMalloc.
Open Scope Z_scope.

(** ** Extents *)

(** The size of a run of blocks. *)
Definition extent (l : list block) : Z := ends 0 l.

Lemma ends_extent a l : ends a l = a + extent l.
Proof.
  unfold extent. revert a. induction l as [|b l IH]; intros a; cbn [ends]; [lia|].
  rewrite (IH (a + b_size b)), (IH (0 + b_size b)). lia.
Qed.

Lemma extent_cons b l : extent (b :: l) = b_size b + extent l.
Proof. unfold extent at 1. cbn [ends]. rewrite ends_extent. lia. Qed.

Lemma extent_app l k : extent (l ++ k) = extent l + extent k.
Proof. unfold extent at 1. by rewrite ends_app, ends_extent. Qed.

Definition all_free (l : list block) : Prop := Forall (fun b => b_alloc b = false) l.

Lemma live_all_free l : all_free l -> live l = [].
Proof.
  induction 1 as [|b l Hb _ IH]; [done|]. rewrite live_cons, Hb. exact IH.
Qed.

(** ** Writing the merged block *)

Lemma merge_ok s bs1 mid bs2 fl :
  shape s (bs1 ++ mid ++ bs2) fl -> fl ≡ₚ frees bs1 ++ frees bs2 ->
  last_alloc true bs1 = true -> last_alloc true mid = false -> all_free mid ->
  coalesced true bs1 -> coalesced false bs2 ->
  let y := ends (first (memory s)) bs1 in
  let total := extent mid in
  exists s',
    (s ← wr s y total; s ← xor_at s y 2; s ← wr s (y + words total - 8) total; add_to_free_list s y) = Done s' /\
    heap_inv s' (bs1 ++ [Blk y total false] ++ bs2) /\
    keeps (memory s) (memory s') (bs1 ++ mid ++ bs2).
Proof.
  intros Hsh Hp Hla Hlm Hfm Hc1 Hc2 y total. pose proof Hsh as [Hg Hc (_ & _ & _ & Hm) _].
  destruct (around_parts (memory s) _ bs1 mid bs2 _ Hc) as (Hp1 & Hp2 & Hc3 & Hb1 & Hb2 & Hb3).
  unfold z0 in *. fold y in Hp2, Hc3, Hb1, Hb2, Hb3. rewrite (ends_extent y) in *. fold total in Hc3, Hb2, Hb3.
  assert (Ht : 32 <= total < 4611686018427387904).
  { destruct mid as [|b mid]; [done|]. pose proof (pre_length _ _ _ _ Hp2) as Hl. rewrite ends_extent in Hl. fold total in Hl.
    simpl length in Hl. destruct Hg as [? ? ? ? ?]. unfold first, epilogue in *. lia. }
  assert (Htm : total mod 16 = 0).
  { pose proof (ends_mod _ _ _ _ Hp2) as Hem. rewrite ends_extent in Hem. fold total in Hem.
    pose proof (Z.div_mod (y + total) 16 ltac:(lia)). pose proof (Z.div_mod y 16 ltac:(lia)).
    replace total with ((y + total) / 16 * 16 - y / 16 * 16) by lia.
    rewrite <- Z.mul_sub_distr_r. apply Z.mod_mul. lia. }
  assert (Hin : forall s1 a, same_region (memory s) (memory s1) -> y <= a <= y + total -> inside (memory s1) a 8).
  { intros s1 a Hr Ha. eapply region_inside; [exact Hr|]. apply inside_heap; [done|lia|lia]. }
  destruct (wr_writes s y total Hm) as (s1 & -> & Hwr1 & Hw1);
    [apply Hin; [done|lia]|rewrite <- (hdr_free total); apply hdr_u64; lia|].
  cbn [mbind outcome_bind]. rewrite <- (hdr_free total) in Hw1.
  destruct (xor_flag_ok s1 y total false false) as (s2 & -> & Hwr2 & Hw2);
    [apply Hwr1|apply Hin; [apply Hwr1|lia]|done|lia|done|].
  cbn [mbind outcome_bind]. rewrite words_16 by done.
  assert (Hwr02 : writes s s2 y (y + 8)) by (eapply writes_trans; [exact Hwr1|exact Hwr2|lia|lia|lia|lia]).
  destruct (wr_writes s2 (y + total - 8) total) as (s3 & -> & Hwr3 & Hw3);
    [apply Hwr02|apply Hin; [apply Hwr02|lia]|rewrite <- (hdr_free total); apply hdr_u64; lia|].
  assert (Hwr03 : writes s s3 y (y + total)) by (eapply writes_trans; [exact Hwr02|exact Hwr3|lia|lia|lia|lia]).
  cbn [mbind outcome_bind].
  assert (Hout : forall z, z ∈ fl -> z + 32 <= y \/ y + total <= z).
  { intros z Hz. rewrite Hp, elem_of_app in Hz. destruct Hz as [(sz & Hz)%elem_of_frees|(sz & Hz)%elem_of_frees].
    - destruct (pre_bounds _ _ _ _ _ Hp1 Hz) as (_ & ? & ? & _). simpl in *. left. unfold y. lia.
    - destruct Hc3 as (Hp3 & _). destruct (pre_bounds _ _ _ _ _ Hp3 Hz) as (? & _). simpl in *. by right. }
  destruct (shape_change s s3 bs1 mid [Blk y total false] bs2 fl Hsh) as (Hsh3 & Hk3 & Hr3);
    fold y; rewrite ?(ends_extent y); fold total; rewrite ?Hla, ?Hlm.
  - intros z Hz. rewrite Hp in Hz. rewrite !frees_app, !elem_of_app in *. tauto.
  - eapply writes_trans; [exact Hwr02|exact Hwr3|lia|lia|lia|lia].
  - eapply writes_links; [exact Hwr03|]. intros x Hx (z & Hz & Hzx). destruct (Hout z Hz); lia.
  - intros sz' al' Hwz. by rewrite (writes_word _ _ _ _ _ Hwr03) by lia.
  - simpl. split; [done|]. split; [|done]. unfold block_ok. simpl. split_done; [lia|].
    by rewrite (writes_word _ _ _ _ _ Hwr3) by lia.
  - unfold extent. simpl. lia.
  - intros b Hb Hz. exfalso. destruct (pre_bounds _ _ _ _ _ Hp2 Hb) as (? & He & ? & _). rewrite ends_extent in He.
    fold total in He. destruct (Hout _ Hz); lia.
  - destruct (shape_add s3 _ fl y [] Hsh3) as (s4 & -> & Hsh4 & Hk4 & _).
    { rewrite app_nil_r, Hp, !frees_app, frees_cons. simpl. by rewrite Permutation_middle. }
    assert (Hp4 : y :: fl ≡ₚ frees (bs1 ++ [Blk y total false] ++ bs2)).
    { rewrite Hp, !frees_app, frees_cons. simpl. by rewrite Permutation_middle. }
    pose proof (spares_keeps _ _ _ _ _ Hsh3 Hk4 (perm_subset _ _ Hp4)) as Hk4'.
    exists s4. split; [done|]. split.
    + apply heap_inv_shape. split; [|by exists (y :: fl)]. apply coalesced_join; rewrite ?Hla; done.
    + eapply keeps_sub; [eapply keeps_trans; [exact Hk3|eapply keeps_sub; [exact Hk4'|]]|].
      * intros b Hb _. rewrite !elem_of_app in *. tauto.
      * intros b Hb Hal. rewrite !elem_of_app in *. destruct Hb as [?|[Hb|?]]; [by left| |by right].
        unfold all_free in Hfm. rewrite Forall_forall in Hfm. rewrite (Hfm b Hb) in Hal. done.
Qed.

(** ** Removing a free neighbour *)

(** A free block of the chain inside the bounds of [coalesce] leaves the list;
    its header can still be read. *)
Lemma take_neighbour {A} s bs bs1 p psz bs2 fl rest (k : mm -> Z -> outcome A) :
  shape s bs fl -> bs = bs1 ++ Blk p psz false :: bs2 -> fl ≡ₚ p :: rest -> (forall y, y ∈ rest -> y ∈ frees bs) ->
  exists s' fl',
    (s ← remove_from_free_list s p; pw ← rd s p; k s (block_size pw)) = k s' psz /\
    shape s' bs fl' /\ fl' ≡ₚ rest /\ keeps (memory s) (memory s') bs /\ same_region (memory s) (memory s').
Proof.
  intros Hsh -> Hp Hrest. destruct (shape_remove s _ fl p rest Hsh Hp) as (s' & fl' & -> & Hsh' & Hp' & Hk & Hr).
  cbn [mbind outcome_bind]. pose proof (shape_block _ _ _ _ _ _ _ Hsh') as [Hy Hlo Hhi Hsz Hmod _ Hw _ _].
  pose proof Hsh' as [Hg _ _ _].
  rewrite (rd_ok s' p) by (apply inside_heap; [done|lia|lia]). cbn [mbind outcome_bind].
  rewrite Hw, hdr_size by (done || lia). exists s', fl'. split_done.
  eapply spares_keeps; [exact Hsh|exact Hk|]. intros z Hz. apply Hrest. by rewrite <- Hp'.
Qed.

Lemma prev_ok s bs1 y sz bs2 fl :
  shape s (bs1 ++ Blk y sz false :: bs2) fl -> fl ≡ₚ frees (bs1 ++ Blk y sz false :: bs2) -> coalesced true bs1 ->
  exists bs0 l s' fl',
    bs1 = bs0 ++ l /\ all_free l /\ last_alloc true bs0 = true /\ coalesced true bs0 /\
    coalesce_prev s y sz (negb (last_alloc true bs1)) (wrap64 (y - words (block_size (word_at (memory s) (y - 8)))))
      = Done (s', sz + extent l, ends (first (memory s)) bs0) /\
    shape s' (bs1 ++ Blk y sz false :: bs2) fl' /\ fl' ≡ₚ y :: frees bs0 ++ frees bs2 /\
    keeps (memory s) (memory s') (bs1 ++ Blk y sz false :: bs2) /\ same_region (memory s) (memory s').
Proof.
  intros Hsh Hp Hco. pose proof (shape_block _ _ _ _ _ _ _ Hsh) as [Hy Hlo Hhi Hsz Hmod _ Hw _ _].
  destruct (last_alloc true bs1) eqn:Hla.
  { exists bs1, [], s, fl. rewrite app_nil_r. unfold coalesce_prev. simpl. rewrite Z.add_0_r, <- Hy.
    split_done; [by apply Forall_nil|].
    rewrite Hp, frees_app, frees_cons. simpl. by rewrite Permutation_middle. }
  destruct bs1 as [|[p psz al] bs0 _] using rev_ind; [done|].
  rewrite last_alloc_app in Hla. simpl in Hla. subst al.
  apply coalesced_app in Hco as (Hc0 & Hla0 & _). simpl in Hla0. rewrite orb_false_r in Hla0.
  rewrite <- app_assoc in *. simpl in *.
  pose proof (shape_block _ _ _ _ _ _ _ Hsh) as [Hpa Hplo Hphi Hpsz Hpmod _ _ Hp0 _].
  rewrite ends_app in Hy. simpl in Hy. rewrite <- Hpa in Hy.
  assert (Hfoot : word_at (memory s) (y - 8) = psz).
  { destruct Hsh as [_ (Hpre & _) _ _]. apply pre_app in Hpre as (_ & _ & (_ & _ & _ & Hf) & _). simpl in Hf.
    rewrite Hy. by apply Hf. }
  assert (Hbs : block_size psz = psz) by (rewrite <- (hdr_free psz) at 1; apply hdr_size; [lia|done]).
  rewrite Hfoot, Hbs, words_16 by done.
  assert (Hwrap : wrap64 (y - psz) = p).
  { unfold wrap64. rewrite Hy, Z.add_simpl_r. apply Z.mod_small.
    destruct Hsh as [[? ? ? ? ?] _ _ _]. unfold epilogue, w64 in *. lia. }
  rewrite Hwrap. unfold coalesce_prev. assert (Hb : in_bounds s p = true).
  { unfold in_bounds, mm_heap_lo, mm_heap_hi. unfold first, epilogue in *.
    rewrite (proj2 (Z.leb_le _ _)), (proj2 (Z.ltb_lt _ _)) by lia. done. }
  rewrite Hb. simpl andb. cbv iota.
  destruct (take_neighbour s _ bs0 p psz _ fl (y :: frees bs0 ++ frees bs2)
    (fun s pw => Done (s, add64 sz pw, p)) Hsh eq_refl) as (s' & fl' & -> & Hsh' & Hp' & Hk & Hr).
  { rewrite Hp, frees_app, !frees_cons. simpl. rewrite <- !Permutation_middle. constructor. done. }
  { intros z Hz. rewrite frees_app, !frees_cons. simpl. rewrite elem_of_cons, elem_of_app in Hz.
    rewrite elem_of_app, !elem_of_cons. tauto. }
  exists bs0, [Blk p psz false], s', fl'. unfold extent. simpl. rewrite add64_small.
  2:{ destruct Hsh as [[? ? ? ? ?] _ _ _]. unfold epilogue in *. u64_lia. }
  rewrite <- Hpa. split_done. by apply Forall_singleton.
Qed.

(** The last block is free and below the bound of [coalesce]. *)
Definition short_tail (bs : list block) : bool :=
  match bs with [b] => negb (b_alloc b) && (b_size b <? 64) | _ => false end.

Lemma next_free_in_bounds s bs1 y sz al n nsz bs2 fl :
  shape s (bs1 ++ Blk y sz al :: Blk n nsz false :: bs2) fl -> short_tail (Blk n nsz false :: bs2) = false ->
  n = y + sz /\ in_bounds s n = true.
Proof.
  intros Hsh Htail. destruct Hsh as [Hg (Hpre & He & _) _ _].
  apply pre_app in Hpre as (Hp1 & Hy & (Hsz & _) & Hn & (Hnsz & _) & Hp2). simpl in *.
  rewrite ends_app in He. simpl in He. pose proof (pre_ends _ _ _ _ Hp1). split; [lia|].
  unfold in_bounds, mm_heap_lo, mm_heap_hi. unfold first, epilogue in *. rewrite (proj2 (Z.leb_le _ _)) by lia.
  rewrite (proj2 (Z.ltb_lt _ _)); [done|]. destruct bs2 as [|b bs2]; simpl in *.
  - apply Z.ltb_ge in Htail. lia.
  - destruct Hp2 as (_ & (? & _) & Hp2). pose proof (pre_ends _ _ _ _ Hp2). lia.
Qed.

Lemma free_head bs :
  coalesced true bs -> (exists n nsz bs', bs = Blk n nsz false :: bs') \/ coalesced false bs.
Proof. destruct bs as [|[n nsz [|]] bs]; simpl; [by right|tauto|]. left. by exists n, nsz, bs. Qed.

Lemma taken_head s bs1 y sz bs2 fl :
  shape s (bs1 ++ Blk y sz false :: bs2) fl -> coalesced false bs2 ->
  exists nsz, nsz mod 16 = 0 /\ word_at (memory s) (y + sz) = hdr nsz true false.
Proof.
  intros Hsh Hc. pose proof (shape_block _ _ _ _ _ _ _ Hsh) as [Hy _ _ _ _ _ _ _ _].
  destruct (around_parts _ _ bs1 [Blk y sz false] bs2 _ (sh_chain _ _ _ Hsh)) as (_ & _ & Hc3 & _).
  unfold z0 in Hc3. simpl in Hc3. rewrite <- Hy in Hc3.
  destruct (chain_head_word _ _ _ _ _ Hc3) as (nsz & nal & _ & Hm & Hw & Hb). exists nsz. split; [done|].
  destruct bs2 as [|b bs2]; simpl in *; [by destruct Hb as (_ & _ & ->)|].
  destruct Hb as (_ & _ & <-). destruct Hc as [Hal _]. simpl in Hal. by rewrite Hal in Hw.
Qed.

Lemma next_ok s bs1 y sz bs2 fl rest merged :
  shape s (bs1 ++ Blk y sz false :: bs2) fl -> fl ≡ₚ y :: rest ++ frees bs2 -> rest ⊆ frees bs1 ->
  coalesced true bs2 -> short_tail bs2 = false -> 0 <= merged < 4611686018427387904 ->
  exists r bs3 s' fl',
    bs2 = r ++ bs3 /\ all_free r /\ last_alloc false r = false /\ coalesced false bs3 /\
    coalesce_next s (y + sz) merged = Done (s', merged + extent r) /\
    shape s' (bs1 ++ Blk y sz false :: bs2) fl' /\ fl' ≡ₚ y :: rest ++ frees bs3 /\
    keeps (memory s) (memory s') (bs1 ++ Blk y sz false :: bs2) /\ same_region (memory s) (memory s').
Proof.
  intros Hsh Hp Hrest Hco Htail Hmerged.
  pose proof (shape_block _ _ _ _ _ _ _ Hsh) as [Hy Hlo Hhi Hsz Hmod _ Hw _ _].
  destruct (free_head bs2 Hco) as [(n & nsz & bs3 & ->)|Hc0].
  - destruct (next_free_in_bounds _ _ _ _ _ _ _ _ _ Hsh Htail) as (En & Hb). simpl in Hco.
    unfold coalesce_next. rewrite <- En, Hb.
    assert (Hsh0 := Hsh). rewrite (cons_middle _ bs1), app_assoc in Hsh0.
    pose proof (shape_block _ _ _ _ _ _ _ Hsh0) as [Hna Hnlo Hnhi Hnsz Hnmod _ Hnw _ _].
    rewrite (rd_ok s n) by (apply inside_heap; [apply Hsh|lia|lia]). cbn [mbind outcome_bind].
    rewrite Hnw, hdr_land1 by done. simpl negb. cbv iota.
    destruct (take_neighbour s _ (bs1 ++ [Blk y sz false]) n nsz bs3 fl (y :: rest ++ frees bs3)
      (fun s nw => Done (s, add64 merged nw)) Hsh) as (s' & fl' & -> & Hsh' & Hp' & Hk & Hr).
    { by rewrite <- app_assoc. }
    { rewrite Hp, frees_cons. simpl. rewrite <- Permutation_middle. constructor. }
    { intros z Hz. rewrite frees_app, !frees_cons. simpl. rewrite elem_of_cons, elem_of_app in Hz.
      rewrite elem_of_app, !elem_of_cons. destruct Hz as [?|[?%Hrest|?]]; tauto. }
    exists [Blk n nsz false], bs3, s', fl'. unfold extent. simpl. rewrite add64_small by u64_lia.
    split_done; [by apply Forall_singleton|tauto].
  - exists [], bs2, s, fl. unfold extent. simpl. rewrite Z.add_0_r.
    split_done; [by apply Forall_nil|].
    unfold coalesce_next. case_match; [|done].
    rewrite (rd_ok s (y + sz)) by (apply inside_heap; [apply Hsh|lia|lia]). cbn [mbind outcome_bind].
    destruct (taken_head _ _ _ _ _ _ Hsh Hc0) as (nsz & Hnm & ->). by rewrite hdr_land1.
Qed.

(** ** [coalesce] *)

Lemma coalesce_ok s bs1 y sz bs2 fl :
  shape s (bs1 ++ Blk y sz false :: bs2) fl -> fl ≡ₚ frees (bs1 ++ Blk y sz false :: bs2) ->
  coalesced true bs1 -> coalesced true bs2 -> short_tail bs2 = false ->
  exists s' bs', coalesce s y = Done s' /\ heap_inv s' bs' /\ live bs' = live bs1 ++ live bs2 /\
    keeps (memory s) (memory s') (bs1 ++ Blk y sz false :: bs2).
Proof.
  intros Hsh Hp Hc1 Hc2 Htail. pose proof (shape_block _ _ _ _ _ _ _ Hsh) as [Hy Hlo Hhi Hsz Hmod _ Hw _ _].
  pose proof (sh_geom _ _ _ Hsh) as Hg. unfold coalesce.
  rewrite (rd_ok s y), (rd_ok s (y - 8)) by (apply inside_heap; [done|lia|lia]). cbn [mbind outcome_bind].
  rewrite Hw, hdr_size, hdr_land2 by (done || lia). cbv zeta.
  destruct (prev_ok s bs1 y sz bs2 fl Hsh Hp Hc1) as (bs0 & l & s1 & fl1 & -> & Hl & Hla0 & Hc0 & -> & Hsh1 & Hp1 & Hk1 & Hr1).
  cbn [mbind outcome_bind]. rewrite words_16 by done.
  assert (Hext : forall l : list block, forall m prev a, pre m prev a l -> 0 <= extent l /\ (extent l = 0 -> l = [])).
  { intros k m prev a Hpre. pose proof (pre_length _ _ _ _ Hpre) as Hlen. rewrite ends_extent in Hlen.
    destruct k; simpl length in Hlen; [done|]. split; [lia|]. intros. lia. }
  pose proof (sh_chain _ _ _ Hsh1) as (Hpre & He & _). rewrite <- app_assoc in Hpre, He. rewrite !pre_app in Hpre.
  destruct Hpre as (Hpre0 & Hprel & Hpre2). pose proof (Hext _ _ _ _ Hprel) as (Hl0 & Hlnil).
  pose proof (pre_ends _ _ _ _ Hpre0) as Hbs0.
  destruct (region_ends _ _ Hr1) as [E1 E2]. rewrite !ends_app, !ends_extent, E1, E2 in He. rewrite ends_extent, E1 in Hbs0.
  simpl in Hpre2. destruct Hpre2 as (_ & _ & Hpre2). pose proof (Hext _ _ _ _ Hpre2) as (Hb20 & _).
  assert (Hend : first (memory s) + extent bs0 + extent l + sz + extent bs2 = epilogue (memory s)).
  { rewrite <- He, extent_cons. simpl. lia. }
  assert (Hm1 : sz + extent l < 4611686018427387904).
  { destruct Hg as [? ? ? ? ?]. unfold first, epilogue in *. lia. }
  destruct (next_ok s1 (bs0 ++ l) y sz bs2 fl1 (frees bs0) (sz + extent l) Hsh1 Hp1)
    as (r & bs3 & s2 & fl2 & -> & Hr & Hlr & Hc3 & -> & Hsh2 & Hp2 & Hk2 & Hr2); [|done|done|lia|].
  { intros z Hz. rewrite frees_app. apply elem_of_app. by left. }
  cbn [mbind outcome_bind].
  apply pre_app in Hpre2 as (Hprer & _). pose proof (Hext _ _ _ _ Hprer) as (Hr0 & Hrnil).
  assert (Hk02 : keeps (memory s) (memory s2) ((bs0 ++ l) ++ Blk y sz false :: r ++ bs3)) by by eapply keeps_trans.
  destruct (Z.eqb_spec (sz + extent l + extent r) sz) as [E|Hne].
  - assert (l = []) as -> by (apply Hlnil; lia). assert (r = []) as -> by (apply Hrnil; lia).
    rewrite app_nil_r in *. simpl in *. exists s2, (bs0 ++ [Blk y sz false] ++ bs3). split; [done|]. split; [|split; [|done]].
    + apply heap_inv_shape. split; [apply coalesced_join; by rewrite ?Hla0|]. exists fl2. split; [exact Hsh2|].
      rewrite Hp2, !frees_app, frees_cons. simpl. by rewrite Permutation_middle.
    + by rewrite !live_app, live_cons.
  - destruct (shape_remove s2 _ fl2 y (frees bs0 ++ frees bs3) Hsh2 Hp2) as (s3 & fl3 & -> & Hsh3 & Hp3 & Hk3 & Hr3).
    cbn [mbind outcome_bind].
    assert (Hfl3 : fl3 ⊆ frees ((bs0 ++ l) ++ Blk y sz false :: r ++ bs3)).
    { intros z Hz. rewrite Hp3 in Hz. rewrite !frees_app, frees_cons, frees_app. simpl. set_solver. }
    pose proof (spares_keeps _ _ _ _ _ Hsh2 Hk3 Hfl3) as Hk3'.
    pose proof (same_region_trans _ _ _ Hr1 (same_region_trans _ _ _ Hr2 Hr3)) as Hr03.
    destruct (region_ends _ _ Hr03) as [E3 _].
    assert (Hmid : (bs0 ++ l) ++ Blk y sz false :: r ++ bs3 = bs0 ++ (l ++ Blk y sz false :: r) ++ bs3)
      by by rewrite <- !app_assoc.
    rewrite Hmid in *.
    assert (Hall : all_free (l ++ Blk y sz false :: r)) by (apply Forall_app; split; [done|by constructor]).
    assert (Hsum : sz + extent l + extent r = extent (l ++ Blk y sz false :: r)).
    { rewrite extent_app, extent_cons. simpl. lia. }
    destruct (merge_ok s3 bs0 (l ++ Blk y sz false :: r) bs3 fl3 Hsh3 Hp3 Hla0) as (s4 & Hs4 & Hinv & Hk4);
      [by rewrite last_alloc_app|done|done|done|].
    rewrite E3, <- Hsum in Hs4. rewrite E3, <- Hsum in Hinv.
    eexists s4, _. split; [exact Hs4|]. split; [exact Hinv|]. split.
    + rewrite !live_app, live_cons, (live_all_free l), (live_all_free r) by done. simpl. by rewrite app_nil_r.
    + eapply keeps_trans; [eapply keeps_trans; [exact Hk02|exact Hk3']|exact Hk4].
Qed.

(** ** [free] *)

Lemma short_last_short_tail bs : short_last bs = false -> short_tail bs = false.
Proof. destruct bs as [|b [|c bs]]; done. Qed.

Lemma free_ok s bs1 p sz bs2 :
  heap_inv s (bs1 ++ Blk (p - 8) sz true :: bs2) -> short_tail bs2 = false ->
  exists s' bs', free s p = Done s' /\ heap_inv s' bs' /\ live bs' = live bs1 ++ live bs2 /\
    keeps (memory s) (memory s') (bs1 ++ bs2).
Proof.
  intros (Hco & fl & Hsh & Hp)%heap_inv_shape Htail. set (y := p - 8) in *.
  pose proof (shape_block _ _ _ _ _ _ _ Hsh) as [Hy Hlo Hhi Hsz Hmod _ Hw Hnull (nsz & nal & Hn & Hnm & Hnw)].
  pose proof Hsh as [Hg Hc (_ & _ & _ & Hm) _].
  apply coalesced_app in Hco as (Hc1 & _ & Hc2). simpl in Hc2.
  assert (Hin : forall s1 a, same_region (memory s) (memory s1) -> y <= a <= y + sz -> inside (memory s1) a 8).
  { intros s1 a Hr Ha. eapply region_inside; [exact Hr|]. apply inside_heap; [done|lia|lia]. }
  unfold free. rewrite (proj2 (Z.eqb_neq p NULL)) by (unfold NULL, y in *; lia). fold y. cbv zeta.
  destruct (clear_flag_ok s y sz true (last_alloc true bs1) Hm) as (_ & s1 & -> & Hwr1 & Hw1);
    [apply Hin; [done|lia]|done|lia|done|].
  cbn [mbind outcome_bind]. rewrite (rd_ok s1 y) by (apply Hin; [apply Hwr1|lia]). cbn [mbind outcome_bind].
  rewrite Hw1, hdr_size, words_16 by (done || lia).
  destruct (wr_writes s1 (y + sz - 8) sz) as (s2 & -> & Hwr2 & Hw2);
    [apply Hwr1|apply Hin; [apply Hwr1|lia]|rewrite <- (hdr_free sz); apply hdr_u64; lia|].
  assert (Hwr02 : writes s s2 y (y + sz)) by (eapply writes_trans; [exact Hwr1|exact Hwr2|lia..]).
  cbn [mbind outcome_bind].
  destruct (clear_flag_ok s2 (y + sz) nsz nal true) as ((s3 & -> & Hwr3 & Hw3) & _);
    [apply Hwr2|apply Hin; [apply Hwr02|lia]|by rewrite (writes_word _ _ _ _ _ Hwr02) by lia|done|done|].
  assert (Hwr03 : writes s s3 y (y + sz + 8)) by (eapply writes_trans; [exact Hwr02|exact Hwr3|lia..]).
  cbn [mbind outcome_bind].
  assert (Hout : forall x, y <= x < y + sz + 8 -> ~ in_links fl x).
  { intros x Hx (z & Hz & Hzx). rewrite Hp in Hz.
    assert (Hl : in_links (frees (bs1 ++ [Blk y sz true] ++ bs2)) x) by by exists z.
    destruct (around_links _ _ bs1 [Blk y sz true] bs2 _ Hc x Hl) as [(b & Hb & ? & ?)|[(b & Hb & Hal & _)|(b & Hb & ? & ?)]].
    - lia.
    - apply list_elem_of_singleton in Hb as ->. done.
    - unfold z0 in *. simpl in *. lia. }
  destruct (shape_change s s3 bs1 [Blk y sz true] [Blk y sz false] bs2 fl Hsh) as (Hsh3 & Hk3 & Hr3);
    rewrite <- ?Hy; simpl ends; simpl last_alloc.
  - intros z Hz. by rewrite <- Hp.
  - exact Hwr03.
  - eapply writes_links; [exact Hwr03|exact Hout].
  - intros sz' al' Hwz. rewrite Hw3. rewrite Hnw in Hwz. unfold hdr in *. simpl in *. lia.
  - simpl. unfold block_ok. simpl. split_done; try lia.
    + by rewrite (writes_word _ _ _ _ _ Hwr3), (writes_word _ _ _ _ _ Hwr2) by lia.
    + intros _. by rewrite (writes_word _ _ _ _ _ Hwr3) by lia.
  - done.
  - intros b Hb _. exists (Blk y sz false). apply list_elem_of_singleton in Hb as ->. split; [by left|done].
  - simpl app in Hsh3.
    assert (Hp4 : y :: fl ≡ₚ frees (bs1 ++ Blk y sz false :: bs2)).
    { rewrite Hp, !frees_app, !frees_cons. simpl. by rewrite Permutation_middle. }
    destruct (shape_add s3 _ fl y [] Hsh3) as (s4 & -> & Hsh4 & Hk4 & _); [by rewrite app_nil_r|].
    cbn [mbind outcome_bind].
    pose proof (spares_keeps _ _ _ _ _ Hsh3 Hk4 (perm_subset _ _ Hp4)) as Hk4'.
    destruct (coalesce_ok s4 bs1 y sz bs2 _ Hsh4 Hp4 Hc1 Hc2 Htail) as (s5 & bs' & -> & Hinv & Hlive & Hk5).
    exists s5, bs'. split_done. eapply keeps_trans; [exact Hk3|].
    eapply keeps_sub; [eapply keeps_trans; [exact Hk4'|exact Hk5]|].
    intros b Hb _. rewrite elem_of_app, elem_of_cons in *. tauto.
Qed.

(** C2: [free] releases.  On a well-formed heap, freeing the pointer of a live
    block succeeds: the heap is well formed again, with no two free blocks
    adjacent, its live blocks are the others in the same order, and their
    payloads keep their bytes.  The block after it must not be a last free
    block of less than 64 bytes, which the bound test of [coalesce] misses. *)
Theorem free_releases s bs1 p sz bs2 :
  heap_inv s (bs1 ++ Blk (p - 8) sz true :: bs2) -> short_tail bs2 = false ->
  exists s' bs', free s p = Done s' /\ heap_inv s' bs' /\ live bs' = live bs1 ++ live bs2 /\
    keeps (memory s) (memory s') (bs1 ++ bs2).
Proof. exact (free_ok s bs1 p sz bs2). Qed.
