(* ===== verification/MmInterface.v ===== *)
(** * [mm_init], [realloc] and [calloc] of the allocator

    What the remaining functions of the interface guarantee, from the contracts
    of [malloc] and [free], and runs of the allocator. *)

From Stdlib Require Import ZArith Lia.
From stdpp Require Import gmap list.
From S2P Require Import Prelude MemLib Mm MmHeap MmFreeList MmInv MmMalloc MmCoalesce.
Open Scope Z_scope.

(** ** [mm_init] *)

(** A region as [mem_init] leaves it. *)
Record fresh_region (m : mem) : Prop := {
  fr_ok : mem_ok m;
  fr_lo : 0 < heap m;
  fr_align : heap m mod 16 = 0;
  fr_brk : mem_brk m = heap m;
  fr_max : heap m + 4112 <= mem_max_addr m < 4611686018427387904
}.

Definition initial_blocks (m : mem) : list block := [Blk (heap m + 8) 4096 false].

Ltac next_write s' Hwr Hw :=
  match goal with
  | |- context [wr ?s ?a ?v] =>
      let E := fresh "E" in
      destruct (wr_writes s a v) as (s' & E & Hwr & Hw);
      [ | | | rewrite E; clear E; cbn [mbind outcome_bind] ]
  end.

Lemma mm_init_ok s :
  fresh_region (memory s) ->
  exists s', mm_init s = Done (true, s') /\ heap_inv s' (initial_blocks (memory s)) /\
    mem_brk (memory s') = heap (memory s) + 4112.
Proof.
  intros [Hm Hlo Hal Hbrk [Hmax Hhalf]]. unfold mm_init, mm_sbrk. rewrite Hbrk. change (4096 + 16) with 4112.
  rewrite (proj2 (Z.ltb_ge _ _)) by lia. rewrite (proj2 (Z.ltb_ge _ _)) by lia. cbv iota beta.
  rewrite (proj2 (Z.eqb_neq _ _)) by (unfold failed_sbrk, u64_max; lia).
  set (h := heap (memory s)) in *. set (s0 := set_memory s (set_brk (memory s) (h + 4112))).
  cbv zeta. fold s0. replace (mm_heap_hi (memory s0) + 1) with (h + 4112) by (unfold mm_heap_hi; simpl; lia).
  assert (Hm0 : mem_ok (memory s0)) by (apply set_brk_ok; [done|lia]).
  assert (Hin : forall s1 a, same_region (memory s0) (memory s1) -> h <= a <= h + 4104 -> inside (memory s1) a 8).
  { intros s1 a Hr Ha. eapply region_inside; [exact Hr|]. unfold inside. simpl. fold h. lia. }
  unfold prev_node, next_node, xor_at.
  next_write s1 Hwr1 Hw1; [done|apply Hin; [done|lia]|u64_lia|].
  next_write s2 Hwr2 Hw2; [apply Hwr1|apply Hin; [apply Hwr1|lia]|u64_lia|].
  assert (H2 : writes s0 s2 h (h + 4112)) by (eapply writes_trans; [exact Hwr1|exact Hwr2|lia..]).
  next_write s3 Hwr3 Hw3; [apply H2|apply Hin; [apply H2|lia]|unfold NULL; u64_lia|].
  assert (H3 : writes s0 s3 h (h + 4112)) by (eapply writes_trans; [exact H2|exact Hwr3|lia..]).
  next_write s4 Hwr4 Hw4; [apply H3|apply Hin; [apply H3|lia]|unfold NULL; u64_lia|].
  assert (H4 : writes s0 s4 h (h + 4112)) by (eapply writes_trans; [exact H3|exact Hwr4|lia..]).
  rewrite (rd_ok s4 (h + 8)) by (apply Hin; [apply H4|lia]). cbn [mbind outcome_bind].
  assert (Hh : word_at (memory s4) (h + 8) = 4096).
  { by rewrite (writes_word _ _ _ _ _ Hwr4), (writes_word _ _ _ _ _ Hwr3) by lia. }
  rewrite Hh. change (Z.lxor 4096 2) with (hdr 4096 false true).
  next_write s5 Hwr5 Hw5; [apply H4|apply Hin; [apply H4|lia]|apply hdr_u64; lia|].
  assert (H5 : writes s0 s5 h (h + 4112)) by (eapply writes_trans; [exact H4|exact Hwr5|lia..]).
  set (s5' := set_free s5 (h + 8)).
  next_write s6 Hwr6 Hw6; [apply H5|apply (Hin s5'); [apply H5|lia]|u64_lia|].
  assert (H6 : same_region (memory s0) (memory s6)) by (eapply same_region_trans; [apply H5|apply Hwr6]).
  next_write s7 Hwr7 Hw7; [apply Hwr6|apply Hin; [done|lia]|u64_lia|].
  assert (H7 : same_region (memory s0) (memory s7)) by (eapply same_region_trans; [exact H6|apply Hwr7]).
  exists s7. split; [done|].
  assert (Hbrk7 : mem_brk (memory s7) = h + 4112) by by destruct H7 as (_ & -> & _).
  split; [|done].
  assert (Hkeep : forall a, h <= a <= h + 4080 -> word_at (memory s7) a = word_at (memory s5) a).
  { intros a Ha. rewrite (writes_word _ _ _ _ _ Hwr7), (writes_word _ _ _ _ _ Hwr6) by lia. done. }
  destruct (region_ends _ _ H7) as [E1 E2].
  assert (Hchain : chain (memory s7) true (first (memory s7)) (initial_blocks (memory s)) (epilogue (memory s7))).
  { rewrite E1, E2. unfold first, epilogue, initial_blocks, chain. simpl. fold h. split; [|split; [lia|]].
    - split; [done|]. split; [|done]. unfold block_ok. simpl. split_done.
      + rewrite Hkeep by lia. exact Hw5.
      + intros _. rewrite (writes_word _ _ _ _ _ Hwr7) by lia. rewrite <- Hw6. f_equal. lia.
    - etrans; [|exact Hw7]. f_equal. }
  assert (Hg : geometry (memory s7)).
  { eapply geometry_region; [exact H7|]. split; simpl; fold h; lia. }
  split; [done|done|done|]. exists [h + 8]. split; [|done]. split; [|split; [|split; [|apply Hwr7]]].
  - simpl. unfold prev_node, next_node. rewrite !Hkeep by lia. split_done.
    + rewrite (writes_word _ _ _ _ _ Hwr5), (writes_word _ _ _ _ _ Hwr4) by lia.
      etrans; [|exact Hw3]. f_equal.
    + rewrite (writes_word _ _ _ _ _ Hwr5) by lia.
      etrans; [|exact Hw4]. f_equal.
  - destruct Hwr7 as (_ & _ & -> & _), Hwr6 as (_ & _ & -> & _). done.
  - eapply frees_places; [exact Hg|exact Hchain|lia|done].
Qed.

(** [mm_init] makes a well-formed heap of one free block of 4096 bytes in a
    fresh region. *)
Theorem mm_init_ready s :
  fresh_region (memory s) ->
  exists s', mm_init s = Done (true, s') /\ heap_inv s' (initial_blocks (memory s)) /\
    mem_brk (memory s') = heap (memory s) + 4112.
Proof. exact (mm_init_ok s). Qed.

(** ** Writing a payload *)

(** A program may write the payload of a live block. *)
Lemma payload_change s bs b m' :
  heap_inv s bs -> b ∈ live bs -> same_region (memory s) m' -> mem_ok m' ->
  (forall x, ~ payload b x -> byte_at m' x = byte_at (memory s) x) ->
  heap_inv (set_memory s m') bs.
Proof.
  intros (Hco & fl & Hsh & Hp)%heap_inv_shape Hb Hr Hm Hx. apply elem_of_live in Hb as [Hb Hal].
  apply list_elem_of_split in Hb as (bs1 & bs2 & ->). destruct b as [y sz al]. simpl in Hal. subst al.
  pose proof (shape_block _ _ _ _ _ _ _ Hsh) as [Hy Hlo Hhi Hsz Hmod _ Hw Hnull _]. unfold payload in Hx. simpl in Hx.
  assert (Hwr : writes s (set_memory s m') (y + 8) (y + sz)).
  { split; [done|]. split; [done|]. split; [done|]. intros x ?. apply Hx. lia. }
  destruct Hsh as [Hg Hc Hf Hpl].
  destruct (shape_change s (set_memory s m') bs1 [Blk y sz true] [Blk y sz true] bs2 fl) as (Hsh' & _);
    rewrite <- ?Hy; simpl ends; simpl last_alloc; try done.
  - intros z Hz. by rewrite <- Hp.
  - eapply writes_weaken; [exact Hwr|lia..].
  - intros x (z & Hz & Hzx). apply Hx. rewrite Hp in Hz.
    assert (Hl : in_links (frees (bs1 ++ [Blk y sz true] ++ bs2)) x) by by exists z.
    destruct (around_links _ _ bs1 [Blk y sz true] bs2 _ Hc x Hl) as [(b & Hb & ? & ?)|[(b & Hb & Hal & _)|(b & Hb & ? & ?)]].
    + lia.
    + apply list_elem_of_singleton in Hb as ->. done.
    + unfold z0 in *. simpl in *. lia.
  - intros sz' al'. by rewrite (writes_word _ _ _ _ _ Hwr) by lia.
  - simpl. split_done. unfold block_ok. simpl. split_done; [lia|].
    by rewrite (writes_word _ _ _ _ _ Hwr) by lia.
  - intros b Hb _. by exists b.
  - apply heap_inv_shape. split; [done|]. by exists fl.
Qed.

Lemma copied_outside m m' dst src n x : copied m m' dst src n -> ~ (dst <= x < dst + n) -> byte_at m' x = byte_at m x.
Proof. intros (_ & _ & Hx) Hn. by rewrite Hx, decide_False. Qed.

(** The block [malloc] gave out, as a block of the heap. *)
Lemma allocated_block s bs size p s' bs' :
  allocated s bs size p s' bs' ->
  exists sz, Blk (p - 8) sz true ∈ live bs' /\ size + 8 <= sz /\ live bs' ≡ₚ Blk (p - 8) sz true :: live bs /\
    heap (memory s') <= p /\ p - 8 + sz <= mem_brk (memory s').
Proof.
  intros [Hinv _ (sz & Hsz & Hl) _ _ _ _]. exists sz.
  assert (Hin : Blk (p - 8) sz true ∈ live bs') by (rewrite Hl; by left). split_done;
    destruct Hinv as [_ (Hp & He & _) _ _]; apply elem_of_live in Hin as [Hin _];
    destruct (pre_bounds _ _ _ _ _ Hp Hin) as (? & ? & _); unfold first, epilogue in *; simpl in *; lia.
Qed.

(** ** [calloc] *)

(** [calloc] allocates and clears.  When the product, computed modulo 2^64,
    lies below 2^62, [calloc] returns null and changes nothing, or allocates
    that many bytes and sets each of them to zero. *)
Theorem calloc_zeroes s bs nmemb size :
  let n := mul64 size nmemb in
  heap_inv s bs -> 0 < n < 4611686018427387904 ->
  calloc s nmemb size = Done (NULL, s) \/
  exists p s' bs', calloc s nmemb size = Done (p, s') /\ p <> NULL /\ allocated s bs n p s' bs' /\
    forall x, p <= x < p + n -> byte_at (memory s') x = 0.
Proof.
  intros n Hinv Hn. unfold calloc. cbv zeta. fold n.
  destruct (malloc_ok s bs n Hinv Hn) as [->|(p & s1 & bs1 & -> & Hp0 & Hal)]; cbn [mbind outcome_bind].
  { by left. }
  right. rewrite (proj2 (Z.eqb_neq p NULL)) by done. simpl negb. cbv iota.
  destruct (allocated_block _ _ _ _ _ _ Hal) as (sz & Hin & Hsz & Hlive & Hlo & Hhi).
  pose proof Hal as [Hinv1 Hmod _ Hheap Hapart Hkeep Hlast].
  pose proof (hi_geom _ _ Hinv1) as [? ? ? ? ?].
  assert (Hm1 : mem_ok (memory s1)) by by destruct (hi_free _ _ Hinv1) as (fl & (_ & _ & _ & ?) & _).
  destruct (mm_memset_ok (memory s1) p 0 n Hm1) as (m' & -> & (Hr & Hm' & Hx)); [lia|unfold inside; lia|].
  cbn [mbind outcome_bind]. exists p, (set_memory s1 m'), bs1. split; [done|]. split; [done|].
  assert (Hout : forall x, ~ (p <= x < p + n) -> byte_at m' x = byte_at (memory s1) x).
  { intros x Hnx. by rewrite Hx, decide_False. }
  split; [|intros x Hpx; simpl; by rewrite Hx, decide_True].
  split; try done.
  - eapply payload_change; [done|exact Hin|done|done|]. intros x Hnp. apply Hout. unfold payload in Hnp. simpl in Hnp. lia.
  - by exists sz.
  - destruct Hr as (E1 & E2 & _). simpl. rewrite E1, E2. done.
  - intros b x Hb Hba Hbx. simpl. rewrite Hout; [by apply (Hkeep b)|]. unfold payload in Hbx.
    assert (Hl : b ∈ live bs) by by apply elem_of_live. destruct (Hapart b Hl); lia.
Qed.

(** ** [realloc] *)

(** [moved s bs p osz size q s' bs']: the block at [p] is gone, one at [q] came,
    its first bytes are the old ones, and the other payloads keep theirs. *)
Record moved (s : mm) (bs : list block) (p osz size q : Z) (s' : mm) (bs' : list block) : Prop := {
  mv_inv : heap_inv s' bs';
  mv_live : exists sz, size + 8 <= sz /\ Blk (p - 8) osz true :: live bs' ≡ₚ Blk (q - 8) sz true :: live bs;
  mv_copy i : 0 <= i < Z.min size (osz - 8) -> byte_at (memory s') (q + i) = byte_at (memory s) (p + i);
  mv_keeps b x : b ∈ live bs -> b_addr b <> p - 8 -> payload b x -> byte_at (memory s') x = byte_at (memory s) x
}.

Lemma live_split bs b : b ∈ live bs -> exists bs1 bs2, bs = bs1 ++ b :: bs2 /\ b_alloc b = true.
Proof.
  intros [Hb Hal]%elem_of_live. apply list_elem_of_split in Hb as (bs1 & bs2 & ->). by exists bs1, bs2.
Qed.

(** The copy of [realloc], after its [malloc]. *)
Lemma realloc_copy s bs size q s1 bs1 p osz :
  heap_inv s bs -> Blk (p - 8) osz true ∈ live bs -> 0 < size -> allocated s bs size q s1 bs1 ->
  exists m', rd s1 (p - 8) = Done (word_at (memory s1) (p - 8)) /\
    block_size (word_at (memory s1) (p - 8)) = osz /\
    mm_memcpy (memory s1) q p (if osz <? size then osz else size) = Done m' /\
    copied (memory s1) m' q p (if osz <? size then osz else size).
Proof.
  intros Hinv Hb Hsize Hal.
  destruct (allocated_block _ _ _ _ _ _ Hal) as (sz & Hin & Hsz & Hlive & Hlo & Hhi).
  pose proof (al_apart _ _ _ _ _ _ Hal _ Hb) as Hapart. simpl in Hapart.
  assert (Hb1 : Blk (p - 8) osz true ∈ live bs1) by (rewrite Hlive; by right).
  destruct (live_split _ _ Hb1) as (b1 & b2 & -> & _).
  pose proof (al_inv _ _ _ _ _ _ Hal) as (_ & fl & Hsh & _)%heap_inv_shape.
  pose proof (shape_block _ _ _ _ _ _ _ Hsh) as [_ Hplo Hphi Hosz Hmod _ Hw _ _].
  pose proof Hsh as [Hg _ (_ & _ & _ & Hm) _]. pose proof Hg as [? ? ? ? ?].
  rewrite Hw, hdr_size by (done || lia).
  assert (Hn : 0 < (if osz <? size then osz else size) <= size /\ (if osz <? size then osz else size) <= osz)
    by (destruct (Z.ltb_spec osz size); lia).
  set (n := if osz <? size then osz else size) in *. unfold first, epilogue in *.
  assert (Hup : 8 * ((n + 7) / 8) <= osz).
  { assert (E : osz = 8 * (osz / 8)).
    { rewrite <- words_16 at 1 by done. done. }
    rewrite E in Hn. rewrite E at 1. assert ((n + 7) / 8 <= osz / 8); [|lia].
    apply Z.lt_succ_r, Z.div_lt_upper_bound; lia. }
  destruct (mm_memcpy_ok (memory s1) q p n Hm) as (m' & -> & Hc); [lia|unfold inside; lia|unfold inside; lia|lia|].
  exists m'. split; [|done]. rewrite <- Hw. apply rd_ok. unfold inside. lia.
Qed.

(** C28: [realloc] moves.  For a live block and a size below 2^62, on a heap whose
    last block is not a free one of less than 64 bytes: when no memory is left
    [realloc] returns null and the block is freed; otherwise it returns a new
    block that starts with the old contents, up to the smaller of the two sizes,
    the old block is freed, the heap is well formed and every other live payload
    keeps its bytes. *)
Theorem realloc_moves s bs p osz size :
  heap_inv s bs -> Blk (p - 8) osz true ∈ live bs -> 0 < size < 4611686018427387904 -> short_last bs = false ->
  (exists s' bs', realloc s p size = Done (NULL, s') /\ heap_inv s' bs' /\ live bs ≡ₚ Blk (p - 8) osz true :: live bs') \/
  exists q s' bs', realloc s p size = Done (q, s') /\ q <> NULL /\ moved s bs p osz size q s' bs'.
Proof.
  intros Hinv Hb Hsize Hlast.
  assert (Hp0 : p <> NULL).
  { destruct (live_split _ _ Hb) as (b1 & b2 & -> & _). pose proof Hinv as (_ & fl & Hsh & _)%heap_inv_shape.
    pose proof (shape_block _ _ _ _ _ _ _ Hsh) as [_ _ _ _ _ _ _ ? _]. unfold NULL. lia. }
  unfold realloc. rewrite (proj2 (Z.eqb_neq p NULL)), (proj2 (Z.eqb_neq size 0)) by (done || lia).
  destruct (malloc_ok s bs size Hinv Hsize) as [->|(q & s1 & bs1 & -> & Hq0 & Hal)]; cbn [mbind outcome_bind].
  - left. simpl negb. cbv iota. cbn [mbind outcome_bind]. destruct (live_split _ _ Hb) as (b1 & b2 & -> & _).
    destruct (free_ok s b1 p osz b2 Hinv) as (s' & bs' & -> & Hinv' & Hl & _);
      [eapply short_last_short_tail, short_last_tail, Hlast|].
    exists s', bs'. split_done. rewrite Hl, live_app, live_cons. simpl. by rewrite Permutation_middle.
  - right. rewrite (proj2 (Z.eqb_neq q NULL)) by done. simpl negb. cbv iota.
    destruct (realloc_copy s bs size q s1 bs1 p osz Hinv Hb ltac:(lia) Hal) as (m' & -> & Hbs & Hcp & Hc).
    cbn [mbind outcome_bind]. rewrite Hbs. cbv zeta. rewrite Hcp. cbn [mbind outcome_bind].
    set (n := if osz <? size then osz else size) in *.
    destruct (allocated_block _ _ _ _ _ _ Hal) as (sz & Hin & Hsz & Hlive & Hlo & Hhi).
    pose proof Hal as [Hinv1 _ _ _ Hapart Hkeep Hlast1]. pose proof (Hapart _ Hb) as Hpq. simpl in Hpq.
    assert (Hn : n <= size /\ Z.min size (osz - 8) <= n) by (unfold n; destruct (Z.ltb_spec osz size); lia).
    assert (Hinv2 : heap_inv (set_memory s1 m') bs1).
    { destruct Hc as (Hr & Hm' & Hx). eapply payload_change; [done|exact Hin|done|done|].
      intros x Hnp. rewrite Hx, decide_False; [done|]. unfold payload in Hnp. simpl in Hnp. lia. }
    assert (Hb1 : Blk (p - 8) osz true ∈ live bs1) by (rewrite Hlive; by right).
    destruct (live_split _ _ Hb1) as (b1 & b2 & -> & _).
    destruct (free_ok _ b1 p osz b2 Hinv2) as (s' & bs' & -> & Hinv' & Hl & Hk3);
      [eapply short_last_short_tail, short_last_tail, Hlast1, Hlast|]. cbn [mbind outcome_bind].
    assert (Hstay : forall b, b ∈ live (b1 ++ Blk (p - 8) osz true :: b2) -> b_addr b <> p - 8 -> b ∈ b1 ++ b2 /\ b_alloc b = true).
    { intros b [Hbin Hba]%elem_of_live Hne. split; [|done]. rewrite elem_of_app, elem_of_cons in *.
      destruct Hbin as [?|[->|?]]; [by left|done|by right]. }
    exists q, s', bs'. split; [done|]. split; [done|]. split; [done| | |].
    + exists sz. split; [done|]. rewrite Hl, <- Hlive, live_app, live_cons. simpl. by rewrite Permutation_middle.
    + intros i Hi. destruct (Hstay _ Hin) as [Hqin _]; [simpl; lia|].
      rewrite (Hk3 (Blk (q - 8) sz true)) by (try done; unfold payload; simpl; lia). simpl.
      destruct Hc as (_ & _ & ->). rewrite decide_True by lia. replace (q + i - q + p) with (p + i) by lia.
      apply (Hkeep (Blk (p - 8) osz true)); [by apply elem_of_live in Hb as [? _]|done|]. unfold payload. simpl. lia.
    + intros b x Hbl Hne Hx. destruct (Hstay b) as [Hbin Hba]; [rewrite Hlive; by right|done|].
      rewrite (Hk3 b) by done. simpl. rewrite (copied_outside _ _ _ _ _ _ Hc).
      * apply (Hkeep b); [by apply elem_of_live in Hbl as [? _]|done|done].
      * unfold payload in Hx. destruct (Hapart b Hbl); lia.
Qed.

(** ** [mm_checkheap] *)

Lemma check_free_list_ok fuel s bs pv fl :
  heap_inv s bs -> (forall y, y ∈ fl -> y ∈ frees bs) ->
  dll (memory s) pv fl 0 -> (length fl < fuel)%nat -> check_free_list fuel s (hdz fl 0) = Done [].
Proof.
  intros Hinv. revert fuel pv. induction fl as [|y fl IH]; intros [|fuel] pv Hfl Hd Hlen; simpl in Hlen; try lia; [done|].
  destruct Hd as (_ & Hn & Hd). pose proof (Hfl y ltac:(by left)) as (sz & Hin)%elem_of_frees.
  apply list_elem_of_split in Hin as (bs1 & bs2 & ->). pose proof Hinv as (_ & fl' & Hsh & _)%heap_inv_shape.
  pose proof (shape_block _ _ _ _ _ _ _ Hsh) as [_ Hlo Hhi Hsz Hmod _ Hw Hnull _].
  simpl hdz. cbn [check_free_list]. rewrite (proj2 (Z.eqb_neq y NULL)) by (unfold NULL; lia).
  rewrite (rd_ok s y) by (apply inside_heap; [apply Hinv|lia|lia]). cbn [mbind outcome_bind].
  rewrite (rd_ok s (next_node y)) by (apply inside_heap; [apply Hinv|unfold next_node; lia|unfold next_node; lia]).
  cbn [mbind outcome_bind]. rewrite Hn, (IH fuel y) by (try done; try lia; intros z Hz; apply Hfl; by right).
  cbn [mbind outcome_bind]. rewrite Hw, hdr_size, words_16 by (done || lia).
  assert (Hob : forall a, y <= a <= y + sz - 8 -> out_of_bounds s a = false).
  { intros a Ha. unfold out_of_bounds, heap_low_bound, heap_high_bound, mm_heap_lo, mm_heap_hi, first, epilogue in *.
    rewrite (proj2 (Z.ltb_ge _ _)), (proj2 (Z.leb_gt _ _)) by lia. done. }
  by rewrite !Hob by lia.
Qed.

Lemma in_free_list_ok fuel s pv fl y :
  dll (memory s) pv fl 0 -> places (memory s) fl -> y ∈ fl -> (length fl < fuel)%nat ->
  in_free_list fuel s (hdz fl 0) y = Done true.
Proof.
  revert fuel pv. induction fl as [|z fl IH]; intros [|fuel] pv Hd Hpl Hy Hlen; simpl in Hlen; try lia;
    [by apply not_elem_of_nil in Hy|].
  destruct (pl_inside _ _ Hpl z ltac:(by left)) as (Hz0 & _ & Hzi). destruct Hd as (_ & Hn & Hd).
  simpl hdz. cbn [in_free_list]. rewrite (proj2 (Z.eqb_neq z NULL)) by (unfold NULL; lia).
  destruct (Z.eqb_spec y z) as [->|Hne]; [done|].
  rewrite (rd_ok s (next_node z)) by (unfold next_node; eapply inside_sub; [exact Hzi|lia|lia]).
  cbn [mbind outcome_bind]. rewrite Hn. apply (IH fuel z); [done| |by apply elem_of_cons in Hy as [?|?]|lia].
  eapply places_sub; [exact Hpl|by apply submseteq_cons|done].
Qed.

Lemma check_blocks_ok fuel s bs1 bs2 :
  heap_inv s (bs1 ++ bs2) -> (length bs2 < fuel)%nat -> check_blocks fuel s (ends (first (memory s)) bs1) = Done [].
Proof.
  revert fuel bs1. induction bs2 as [|[y sz al] bs2 IH]; intros [|fuel] bs1 Hinv Hlen; simpl in Hlen; try lia.
  - rewrite app_nil_r in Hinv. destruct Hinv as [_ (_ & He & _) _ _]. cbn [check_blocks]. rewrite He.
    unfold heap_high_bound, mm_heap_hi, epilogue. by rewrite (proj2 (Z.leb_le _ _)) by lia.
  - pose proof Hinv as (_ & fl & Hsh & Hp)%heap_inv_shape.
    pose proof (shape_block _ _ _ _ _ _ _ Hsh) as [Hy Hlo Hhi Hsz Hmod _ Hw Hnull _].
    cbn [check_blocks]. rewrite <- Hy.
    unfold heap_high_bound at 1, mm_heap_hi. unfold first, epilogue in Hlo, Hhi. rewrite (proj2 (Z.leb_gt _ _)) by lia.
    rewrite (rd_ok s y) by (apply inside_heap; [apply Hinv|unfold first; lia|unfold epilogue; lia]).
    cbn [mbind outcome_bind]. rewrite Hw, hdr_land1, hdr_size, words_16 by (done || lia).
    assert (Hrest : check_blocks fuel s (y + sz) = Done []).
    { rewrite Hy. specialize (IH fuel (bs1 ++ [Blk y sz al])). rewrite ends_app, <- app_assoc in IH. apply IH; [done|lia]. }
    destruct al; simpl negb; cbv iota; cbn [mbind outcome_bind]; [by rewrite Hrest|].
    pose proof Hsh as [Hg (Hpre & He & _) (Hd & Hfb & Hpl & _) _].
    rewrite Hfb, (in_free_list_ok _ _ 0 fl y Hd Hpl).
    + cbn [mbind outcome_bind]. by rewrite Hrest.
    + rewrite Hp, frees_app, frees_cons, elem_of_app. right. by left.
    + pose proof (pre_length _ _ _ _ Hpre) as Hl. rewrite He in Hl.
      assert (length fl <= length (bs1 ++ Blk y sz false :: bs2))%nat.
      { rewrite Hp. unfold frees. rewrite length_fmap. apply length_filter. }
      destruct Hg. unfold search_fuel, first, epilogue in *. lia.
Qed.

(** The heap checker accepts.  On a well-formed heap, and so after every
    operation above, the passes that [mm_checkheap] makes when debugging is
    compiled in end without a complaint. *)
Theorem checkheap_silent s bs : heap_inv s bs -> checkheap_debug s = Done [].
Proof.
  intros Hinv. pose proof Hinv as (_ & fl & Hsh & Hp)%heap_inv_shape.
  pose proof Hsh as [Hg (Hpre & He & _) (Hd & Hfb & Hpl & _) _].
  assert (Hlen : (length bs < search_fuel s)%nat).
  { pose proof (pre_length _ _ _ _ Hpre) as Hl. rewrite He in Hl.
    destruct Hg. unfold search_fuel, first, epilogue in *. lia. }
  unfold checkheap_debug. rewrite Hfb, (check_free_list_ok _ s bs 0 fl Hinv); [|intros y Hy; by rewrite <- Hp|done|].
  - cbn [mbind outcome_bind]. rewrite (check_blocks_ok _ s [] bs) by done. done.
  - rewrite Hp. unfold frees. rewrite length_fmap.
    pose proof (length_filter (fun b => b_alloc b = false) bs). lia.
Qed.

(** ** Runs *)

(** A region of 64 KiB, initialised, and after one allocation. *)
Definition demo_region : mm := MM (Mem 4096 4096 (4096 + 65536) ∅) 0.

Definition demo_heap : mm := match mm_init demo_region with Done (_, s) => s | Fault _ => demo_region end.
Definition demo_used : mm := match malloc demo_heap 24 with Done (_, s) => s | Fault _ => demo_heap end.
Definition demo_pointer : Z := match malloc demo_heap 24 with Done (p, _) => p | Fault _ => 0 end.

Lemma demo_region_fresh : fresh_region (memory demo_region).
Proof. split; simpl; try lia; [|done]. split; simpl; [apply map_Forall_empty|lia|lia]. Qed.

Lemma demo_heap_inv : heap_inv demo_heap (initial_blocks (memory demo_region)).
Proof.
  destruct (mm_init_ok demo_region demo_region_fresh) as (s' & E & Hinv & _).
  unfold demo_heap. by rewrite E.
Qed.

Lemma demo_used_inv :
  exists bs, allocated demo_heap (initial_blocks (memory demo_region)) 24 demo_pointer demo_used bs.
Proof.
  destruct (malloc_ok _ _ 24 demo_heap_inv ltac:(lia)) as [E|(p & s' & bs' & E & _ & Hal)].
  - exfalso. assert (Hp : demo_pointer <> NULL) by (vm_compute; discriminate).
    apply Hp. unfold demo_pointer. by rewrite E.
  - exists bs'. unfold demo_pointer, demo_used. by rewrite E.
Qed.

Lemma demo_used_live :
  exists sz bs, heap_inv demo_used bs /\ Blk (demo_pointer - 8) sz true ∈ live bs /\ short_last bs = false.
Proof.
  destruct demo_used_inv as (bs & Hal). destruct (allocated_block _ _ _ _ _ _ Hal) as (sz & Hin & _).
  exists sz, bs. split; [apply Hal|]. split; [done|]. by apply (al_last _ _ _ _ _ _ Hal).
Qed.

Lemma malloc_allocates_witness :
  malloc demo_heap 24 = Done (NULL, demo_heap) \/
  exists p s' bs', malloc demo_heap 24 = Done (p, s') /\ p <> NULL /\
    allocated demo_heap (initial_blocks (memory demo_region)) 24 p s' bs'.
Proof. apply malloc_allocates; [exact demo_heap_inv|lia]. Defined.

Lemma free_releases_witness :
  exists s' bs', free demo_used demo_pointer = Done s' /\ heap_inv s' bs'.
Proof.
  destruct demo_used_live as (sz & bs & Hinv & Hin & Hlast).
  destruct (live_split _ _ Hin) as (bs1 & bs2 & -> & _).
  destruct (free_releases demo_used bs1 demo_pointer sz bs2 Hinv) as (s' & bs' & E & Hinv' & _).
  - eapply short_last_short_tail, short_last_tail, Hlast.
  - exists s', bs'. by split.
Defined.

Lemma mm_init_ready_witness :
  exists s', mm_init demo_region = Done (true, s') /\ heap_inv s' (initial_blocks (memory demo_region)) /\
    mem_brk (memory s') = heap (memory demo_region) + 4112.
Proof. apply mm_init_ready. exact demo_region_fresh. Defined.

Lemma checkheap_silent_witness : checkheap_debug demo_heap = Done [].
Proof. apply (checkheap_silent demo_heap (initial_blocks (memory demo_region))). exact demo_heap_inv. Defined.

Lemma calloc_zeroes_witness :
  calloc demo_heap 3 20 = Done (NULL, demo_heap) \/
  exists p s' bs', calloc demo_heap 3 20 = Done (p, s') /\ p <> NULL /\
    allocated demo_heap (initial_blocks (memory demo_region)) 60 p s' bs' /\
    forall x, p <= x < p + 60 -> byte_at (memory s') x = 0.
Proof. apply (calloc_zeroes demo_heap _ 3 20 demo_heap_inv). vm_compute. split; reflexivity. Defined.

Lemma realloc_moves_witness :
  exists sz bs, heap_inv demo_used bs /\
  ((exists s' bs', realloc demo_used demo_pointer 100 = Done (NULL, s') /\ heap_inv s' bs' /\
      live bs ≡ₚ Blk (demo_pointer - 8) sz true :: live bs') \/
   exists q s' bs', realloc demo_used demo_pointer 100 = Done (q, s') /\ q <> NULL /\
     moved demo_used bs demo_pointer sz 100 q s' bs').
Proof.
  destruct demo_used_live as (sz & bs & Hinv & Hin & Hlast). exists sz, bs. split; [exact Hinv|].
  apply (realloc_moves demo_used bs demo_pointer sz 100); [exact Hinv|exact Hin|lia|exact Hlast].
Defined.

(** ** Where the bound of [coalesce] goes wrong *)

(** A client of the interface: an allocation keeps its pointer in a numbered
    slot. *)
Inductive request := Alloc (size : Z) | Release (slot : nat).

Fixpoint serve (s : mm) (ptrs : list Z) (rs : list request) : outcome (list Z * mm) :=
  match rs with
  | [] => Done (ptrs, s)
  | Alloc size :: rs => '(p, s) ← malloc s size; serve s (ptrs ++ [p]) rs
  | Release i :: rs => s ← free s (nth i ptrs 0); serve s ptrs rs
  end.

(** No slot is released twice, and only after it was filled. *)
Fixpoint sensible (filled : nat) (released : list nat) (rs : list request) : bool :=
  match rs with
  | [] => true
  | Alloc _ :: rs => sensible (S filled) released rs
  | Release i :: rs =>
      (i <? filled)%nat && negb (existsb (Nat.eqb i) released) && sensible filled (i :: released) rs
  end.

Definition overlap_run : list request :=
  [Alloc 24; Alloc 24; Release 0; Release 1; Alloc 5000; Release 2; Alloc 5032; Alloc 4056; Release 3; Alloc 9088].

(** Two live blocks can be one.  A client that releases each block once, and
    only blocks it got, receives the same address twice while the first is
    still in use: slots 4 and 5 of the run. *)
Theorem malloc_returns_live_block :
  sensible 0 [] overlap_run = true /\
  ~ (4 ∈ (omap (fun r => match r with Release i => Some i | _ => None end) overlap_run))%nat /\
  exists ptrs s, serve demo_heap [] overlap_run = Done (ptrs, s) /\
    length ptrs = 6%nat /\ nth 4 ptrs 0 <> NULL /\ nth 4 ptrs 0 = nth 5 ptrs 0.
Proof.
  split; [reflexivity|]. split.
  { intros Hin. assert (Hb : existsb (Nat.eqb 4) [0; 1; 2; 3]%nat = false) by reflexivity.
    set_solver. }
  destruct (serve demo_heap [] overlap_run) as [[ptrs s]|e] eqn:E.
  - exists ptrs, s. split; [reflexivity|].
    assert (Hp : match serve demo_heap [] overlap_run with Done (l, _) => l | Fault _ => [] end = ptrs) by by rewrite E.
    vm_compute in Hp. subst ptrs. split; [reflexivity|]. split; [discriminate|reflexivity].
  - exfalso. assert (Hp : match serve demo_heap [] overlap_run with Done _ => true | Fault _ => false end = false) by by rewrite E.
    vm_compute in Hp. discriminate.
Qed.
