(* ===== verification/STree.v ===== *)
(** * The splay tree of the malloc lab's driver: the code

    [assignment-2-malloclab-FreezeKickerz/stree.c] and [stree.h]: a binary search
    tree with parent pointers over keys of type [long], whose insertion and
    removal splay.  Nodes live in a store with the tree; a [void*] record is a
    value of type [V], never [NULL], so [NULL] as a result is [None].  Every
    pointer write of the C functions is a [set_] here, in the same order. *)

From Stdlib Require Import ZArith Lia.
From stdpp Require Import gmap list.
From S2P Require Import Prelude.

(** ** Data and accesses *)

Record node_t (V : Type) := SNode {
  left : ptr;
  right : ptr;
  parent : ptr;
  key : Z;
  record : V
}.
Arguments SNode {V} left right parent key record.
Arguments left {V} _.
Arguments right {V} _.
Arguments parent {V} _.
Arguments key {V} _.
Arguments record {V} _.

Record tree_t (V : Type) := Tree {
  root : ptr;
  node_count : Z;
  comparison_count : Z;
  nodes : gmap loc (node_t V)
}.
Arguments Tree {V} root node_count comparison_count nodes.
Arguments root {V} _.
Arguments node_count {V} _.
Arguments comparison_count {V} _.
Arguments nodes {V} _.

Section code.
Context `{Malloc} {V : Type}.
Implicit Types (tree : tree_t V) (x u v z : ptr).

Definition get_node (st : gmap loc (node_t V)) (p : ptr) : outcome (node_t V) :=
  match p with
  | None => Fault NullDeref
  | Some l => match st !! l with Some n => Done n | None => Fault Dangling end
  end.
Definition get tree (p : ptr) : outcome (node_t V) := get_node (nodes tree) p.

(** [p->field = q]. *)
Definition update tree (p : ptr) (f : node_t V -> node_t V) : outcome (tree_t V) :=
  n ← get tree p; l ← deref p;
  Done (Tree (root tree) (node_count tree) (comparison_count tree) (<[l := f n]> (nodes tree))).
Definition set_left tree (p q : ptr) : outcome (tree_t V) :=
  update tree p (fun n => SNode q (right n) (parent n) (key n) (record n)).
Definition set_right tree (p q : ptr) : outcome (tree_t V) :=
  update tree p (fun n => SNode (left n) q (parent n) (key n) (record n)).
Definition set_parent tree (p q : ptr) : outcome (tree_t V) :=
  update tree p (fun n => SNode (left n) (right n) q (key n) (record n)).
Definition set_root tree (q : ptr) : tree_t V :=
  Tree q (node_count tree) (comparison_count tree) (nodes tree).
Definition add_comparison tree : tree_t V :=
  Tree (root tree) (node_count tree) (add64 (comparison_count tree) 1) (nodes tree).

(** ** Rotations and splaying *)

(** [if (!p) root = y; else if (x == p->left) p->left = y; else p->right = y;]
    with [p = x->parent]. *)
Definition relink tree (x y : ptr) : outcome (tree_t V) :=
  n ← get tree x;
  match parent n with
  | None => Done (set_root tree y)
  | Some _ =>
      pn ← get tree (parent n);
      if decide (x = left pn) then set_left tree (parent n) y else set_right tree (parent n) y
  end.

Definition left_rotate tree x : outcome (tree_t V) :=
  n ← get tree x;
  let y := right n in
  tree ← (match y with
          | None => Done tree
          | Some _ =>
              yn ← get tree y;
              tree ← set_right tree x (left yn);
              yn ← get tree y;
              tree ← (match left yn with None => Done tree | Some _ => set_parent tree (left yn) x end);
              n ← get tree x;
              set_parent tree y (parent n)
          end);
  tree ← relink tree x y;
  tree ← (match y with None => Done tree | Some _ => set_left tree y x end);
  set_parent tree x y.

Definition right_rotate tree x : outcome (tree_t V) :=
  n ← get tree x;
  let y := left n in
  tree ← (match y with
          | None => Done tree
          | Some _ =>
              yn ← get tree y;
              tree ← set_left tree x (right yn);
              yn ← get tree y;
              tree ← (match right yn with None => Done tree | Some _ => set_parent tree (right yn) x end);
              n ← get tree x;
              set_parent tree y (parent n)
          end);
  tree ← relink tree x y;
  tree ← (match y with None => Done tree | Some _ => set_right tree y x end);
  set_parent tree x y.

(** One round of the loop of [splay]: [p] is [x->parent]. *)
Definition splay_round tree x (p : ptr) : outcome (tree_t V) :=
  pn ← get tree p;
  match parent pn with
  | None => if decide (left pn = x) then right_rotate tree p else left_rotate tree p
  | Some _ =>
      gn ← get tree (parent pn);
      if decide (left pn = x /\ left gn = p) then
        tree ← right_rotate tree (parent pn); n ← get tree x; right_rotate tree (parent n)
      else if decide (right pn = x /\ right gn = p) then
        tree ← left_rotate tree (parent pn); n ← get tree x; left_rotate tree (parent n)
      else if decide (left pn = x /\ right gn = p) then
        tree ← right_rotate tree p; n ← get tree x; left_rotate tree (parent n)
      else
        tree ← left_rotate tree p; n ← get tree x; right_rotate tree (parent n)
  end.

Fixpoint splay_loop (fuel : nat) tree x : outcome (tree_t V) :=
  match fuel with
  | O => Fault Diverges
  | S fuel =>
      n ← get tree x;
      match parent n with
      | None => Done tree
      | Some _ => tree ← splay_round tree x (parent n); splay_loop fuel tree x
      end
  end.

(** The depth of [x] is at most the number of nodes, and every round lowers it. *)
Definition splay tree x : outcome (tree_t V) := splay_loop (S (size (nodes tree))) tree x.

Definition replace tree u v : outcome (tree_t V) :=
  tree ← relink tree u v;
  match v with
  | None => Done tree
  | Some _ => n ← get tree u; set_parent tree v (parent n)
  end.

Fixpoint subtree_minimum (fuel : nat) tree u : outcome ptr :=
  match fuel with
  | O => Fault Diverges
  | S fuel =>
      n ← get tree u;
      match left n with None => Done u | Some _ => subtree_minimum fuel tree (left n) end
  end.
Fixpoint subtree_maximum (fuel : nat) tree u : outcome ptr :=
  match fuel with
  | O => Fault Diverges
  | S fuel =>
      n ← get tree u;
      match right n with None => Done u | Some _ => subtree_maximum fuel tree (right n) end
  end.

(** ** The interface *)

Definition tree_new (live : gset loc) : outcome (tree_t V) :=
  match malloc live with
  | None => Fault (Exited 1)
  | Some _ => Done (Tree None 0 0 ∅)
  end.

(** The descent of [tree_insert]: whether the key was met, the last node, and
    the tree with its comparison count. *)
Fixpoint insert_walk (fuel : nat) tree (k : Z) (z p : ptr) : outcome (bool * ptr * tree_t V) :=
  match fuel with
  | O => Fault Diverges
  | S fuel =>
      match z with
      | None => Done (false, p, tree)
      | Some _ =>
          n ← get tree z;
          let tree := add_comparison tree in
          if decide (k = key n) then Done (true, z, tree)
          else
            let tree := add_comparison tree in
            insert_walk fuel tree k (if decide (key n < k) then right n else left n) z
      end
  end.

Definition tree_insert tree (k : Z) (r : V) : outcome (bool * tree_t V) :=
  '(found, p, tree) ← insert_walk (S (size (nodes tree))) tree k (root tree) None;
  if (found : bool) then Done (false, tree)
  else
    match malloc (dom (nodes tree)) with
    | None => Fault (Exited 1)
    | Some l =>
        let tree := Tree (root tree) (node_count tree) (comparison_count tree)
                      (<[l := SNode None None p k r]> (nodes tree)) in
        tree ← (match p with
                | None => Done (set_root tree (Some l))
                | Some _ =>
                    pn ← get tree p;
                    if decide (key pn < k) then set_right tree p (Some l)
                    else set_left tree p (Some l)
                end);
        tree ← splay tree (Some l);
        Done (true, Tree (root tree) (add64 (node_count tree) 1) (comparison_count tree) (nodes tree))
    end.

Fixpoint find_walk (fuel : nat) tree (k : Z) z : outcome (option V * tree_t V) :=
  match fuel with
  | O => Fault Diverges
  | S fuel =>
      match z with
      | None => Done (None, tree)
      | Some _ =>
          n ← get tree z;
          let tree := add_comparison tree in
          if decide (k = key n) then Done (Some (record n), tree)
          else
            let tree := add_comparison tree in
            find_walk fuel tree k (if decide (key n < k) then right n else left n)
      end
  end.
Definition tree_find tree (k : Z) : outcome (option V * tree_t V) :=
  find_walk (S (size (nodes tree))) tree k (root tree).

Fixpoint nearest_walk (fuel : nat) tree (k : Z) z (n : ptr) : outcome (option V * tree_t V) :=
  match fuel with
  | O => Fault Diverges
  | S fuel =>
      match z with
      | None =>
          match n with
          | None => Done (None, tree)
          | Some _ => nn ← get tree n; Done (Some (record nn), tree)
          end
      | Some _ =>
          zn ← get tree z;
          let tree := add_comparison tree in
          if decide (k = key zn) then Done (Some (record zn), tree)
          else
            let tree := add_comparison tree in
            if decide (key zn < k) then
              n ← (match n with
                   | None => Done z
                   | Some _ => nn ← get tree n; Done (if decide (key nn < key zn) then z else n)
                   end);
              nearest_walk fuel tree k (right zn) n
            else nearest_walk fuel tree k (left zn) n
      end
  end.
Definition tree_find_nearest tree (k : Z) : outcome (option V * tree_t V) :=
  nearest_walk (S (size (nodes tree))) tree k (root tree) None.

Fixpoint remove_walk (fuel : nat) tree (k : Z) z : outcome (ptr * tree_t V) :=
  match fuel with
  | O => Fault Diverges
  | S fuel =>
      match z with
      | None => Done (None, tree)
      | Some _ =>
          n ← get tree z;
          if decide (key n = k) then Done (z, tree)
          else
            let tree := add_comparison tree in
            remove_walk fuel tree k (if decide (key n < k) then right n else left n)
      end
  end.

(** The unlinking of [z], which [splay] has made the root. *)
Definition unlink_root tree z : outcome (tree_t V) :=
  n ← get tree z;
  match left n, right n with
  | None, _ => replace tree z (right n)
  | Some _, None => replace tree z (left n)
  | Some _, Some _ =>
      y ← subtree_minimum (S (size (nodes tree))) tree (right n);
      yn ← get tree y;
      tree ← (if decide (parent yn <> z) then
                tree ← replace tree y (right yn);
                n ← get tree z;
                tree ← set_right tree y (right n);
                yn ← get tree y;
                set_parent tree (right yn) y
              else Done tree);
      tree ← replace tree z y;
      n ← get tree z;
      tree ← set_left tree y (left n);
      yn ← get tree y;
      set_parent tree (left yn) y
  end.

Definition tree_remove tree (k : Z) : outcome (option V * tree_t V) :=
  '(z, tree) ← remove_walk (S (size (nodes tree))) tree k (root tree);
  match z with
  | None => Done (None, tree)
  | Some l =>
      tree ← splay tree z;
      tree ← unlink_root tree z;
      n ← get tree z;
      Done (Some (record n),
            Tree (root tree) (sub64 (node_count tree) 1) (comparison_count tree) (delete l (nodes tree)))
  end.

(** The records passed to [free_fun], in order, and the nodes left. *)
Fixpoint free_subtree (fuel : nat) (st : gmap loc (node_t V)) x
    : outcome (list V * gmap loc (node_t V)) :=
  match fuel with
  | O => Fault Diverges
  | S fuel =>
      match x with
      | None => Done ([], st)
      | Some l =>
          n ← get_node st x;
          '(rs, st) ← free_subtree fuel st (left n);
          '(rs', st) ← free_subtree fuel st (right n);
          n ← get_node st x;
          Done (rs ++ rs' ++ [record n], delete l st)
      end
  end.
Definition tree_free tree : outcome (list V * gmap loc (node_t V)) :=
  free_subtree (S (size (nodes tree))) (nodes tree) (root tree).

(** The text of [show_subtree], keys kept as numbers. *)
Inductive token := Open | Close | Key (k : Z).
Fixpoint show_subtree (fuel : nat) tree x (tree_mode : bool) : outcome (list token) :=
  match fuel with
  | O => Fault Diverges
  | S fuel =>
      match x with
      | None => Done []
      | Some _ =>
          n ← get tree x;
          l ← show_subtree fuel tree (left n) tree_mode;
          r ← show_subtree fuel tree (right n) tree_mode;
          Done ((if tree_mode then [Open] else []) ++ l ++ [Key (key n)] ++ r ++
                (if tree_mode then [Close] else []))
      end
  end.
End code.
