(* ===== verification/STreeShape.v ===== *)
(** * The splay tree: its shape in memory

    A ghost tree ([gtree]) names the nodes of a splay tree; [shape] says that the
    store holds it, parent pointers included.  A position in a tree is a focus
    and a list of frames ([ctx]), so that a rotation at any depth is a fact about
    its focus: the rotations, [replace] and [splay] are proved once, on
    positions. *)

From Stdlib Require Import ZArith Lia.
From stdpp Require Import gmap list.
From S2P Require Import Prelude STree.

(** ** Ghost trees and positions *)

Inductive gtree (V : Type) :=
  | Leaf
  | GNode (l : gtree V) (p : loc) (k : Z) (v : V) (r : gtree V).
Arguments Leaf {V}.
Arguments GNode {V} l p k v r.

Inductive frame (V : Type) :=
  | InLeft (p : loc) (k : Z) (v : V) (r : gtree V)    (* the focus is the left child of [p] *)
  | InRight (l : gtree V) (p : loc) (k : Z) (v : V).
Arguments InLeft {V} p k v r.
Arguments InRight {V} l p k v.

(** Innermost frame first. *)
Notation ctx V := (list (frame V)).

Section ghost.
Context {V : Type}.
Implicit Types (t : gtree V) (c : ctx V).

(** The nodes in order: location, key, record. *)
Fixpoint elems t : list (loc * (Z * V)) :=
  match t with Leaf => [] | GNode l p k v r => elems l ++ (p, (k, v)) :: elems r end.

Definition plug1 (f : frame V) t : gtree V :=
  match f with InLeft p k v r => GNode t p k v r | InRight l p k v => GNode l p k v t end.
Fixpoint plug c t : gtree V := match c with [] => t | f :: c => plug c (plug1 f t) end.

(** The nodes of a context before and after the focus. *)
Fixpoint before c : list (loc * (Z * V)) :=
  match c with
  | [] => []
  | InLeft _ _ _ _ :: c => before c
  | InRight l p k v :: c => before c ++ elems l ++ [(p, (k, v))]
  end.
Fixpoint after c : list (loc * (Z * V)) :=
  match c with
  | [] => []
  | InLeft p k v r :: c => (p, (k, v)) :: elems r ++ after c
  | InRight _ _ _ _ :: c => after c
  end.

Lemma elems_plug c t : elems (plug c t) = before c ++ elems t ++ after c.
Proof.
  revert t. induction c as [|[p k v r|l p k v] c IH]; intros t; simpl; rewrite ?IH; simpl.
  - by rewrite app_nil_r.
  - by rewrite <- !app_assoc.
  - by rewrite <- !app_assoc.
Qed.

Definition locs t : list loc := (elems t).*1.
Definition clocs c : list loc := (before c).*1 ++ (after c).*1.

Definition ptr_of t : ptr := match t with Leaf => None | GNode _ p _ _ _ => Some p end.
Definition frame_loc (f : frame V) : loc :=
  match f with InLeft p _ _ _ => p | InRight _ p _ _ => p end.
Definition parent_of c : ptr := match c with [] => None | f :: _ => Some (frame_loc f) end.

(** ** The store holds a tree, and a position *)

Fixpoint shape (st : gmap loc (node_t V)) (par : ptr) t : Prop :=
  match t with
  | Leaf => True
  | GNode l p k v r =>
      st !! p = Some (SNode (ptr_of l) (ptr_of r) par k v) /\
      shape st (Some p) l /\ shape st (Some p) r
  end.

(** [q] is the pointer to the focus. *)
Fixpoint cshape (st : gmap loc (node_t V)) (rt : ptr) (q : ptr) c : Prop :=
  match c with
  | [] => rt = q
  | InLeft p k v r :: c =>
      st !! p = Some (SNode q (ptr_of r) (parent_of c) k v) /\ shape st (Some p) r /\
      cshape st rt (Some p) c
  | InRight l p k v :: c =>
      st !! p = Some (SNode (ptr_of l) q (parent_of c) k v) /\ shape st (Some p) l /\
      cshape st rt (Some p) c
  end.

Definition at_pos (st : gmap loc (node_t V)) (rt : ptr) c t : Prop :=
  shape st (parent_of c) t /\ cshape st rt (ptr_of t) c.

Lemma at_pos_up st rt f c t : at_pos st rt (f :: c) t <-> at_pos st rt c (plug1 f t).
Proof. unfold at_pos. destruct f; simpl; tauto. Qed.

Lemma at_pos_plug st rt c c' t : at_pos st rt (c ++ c') t <-> at_pos st rt c' (plug c t).
Proof. revert t. induction c as [|f c IH]; intros t; simpl; [done|]. by rewrite at_pos_up, IH. Qed.

Lemma shape_frame st st' par t :
  (forall p, p ∈ locs t -> st' !! p = st !! p) -> shape st par t -> shape st' par t.
Proof.
  unfold locs. revert par. induction t as [|l IHl p k v r IHr]; intros par Hf; simpl; [done|].
  simpl in Hf. rewrite fmap_app in Hf. simpl in Hf.
  intros (Hp & Hl & Hr). rewrite Hf by set_solver. split_done; [apply IHl|apply IHr]; set_solver.
Qed.

Lemma cshape_frame st st' rt q c :
  (forall p, p ∈ clocs c -> st' !! p = st !! p) -> cshape st rt q c -> cshape st' rt q c.
Proof.
  unfold clocs. revert q. induction c as [|[p k v r|l p k v] c IH]; intros q Hf; simpl; [done| |];
    simpl in Hf; rewrite ?fmap_app in Hf; simpl in Hf; rewrite ?fmap_app in Hf; simpl in Hf;
    intros (Hp & Hl & Hc); rewrite Hf by set_solver; split_done;
    first [apply IH; set_solver | eapply shape_frame; [|done]; unfold locs; set_solver].
Qed.

(** The pointer to the focus is redirected. *)
Definition redirect (st : gmap loc (node_t V)) (q : ptr) c : gmap loc (node_t V) :=
  match c with
  | [] => st
  | InLeft p _ _ _ :: _ => alter (fun n => SNode q (right n) (parent n) (key n) (record n)) p st
  | InRight _ p _ _ :: _ => alter (fun n => SNode (left n) q (parent n) (key n) (record n)) p st
  end.
Definition redirect_root (rt q : ptr) c : ptr := match c with [] => q | _ => rt end.

Definition ctx_nodup c : Prop := NoDup (clocs c).

Lemma cshape_redirect st rt q q' c :
  ctx_nodup c -> cshape st rt q c -> cshape (redirect st q' c) (redirect_root rt q' c) q' c.
Proof.
  unfold ctx_nodup, clocs. destruct c as [|[p k v r|l p k v] c]; simpl; [done| |];
    rewrite ?fmap_app; simpl; rewrite ?fmap_app; simpl; intros Hnd (Hp & Hs & Hc);
    rewrite lookup_alter_eq, Hp; simpl; (split; [done|]).
  - assert (p ∉ (before c).*1 ++ (elems r).*1 ++ (after c).*1) as Hp'.
    { apply NoDup_app in Hnd as (Hb & Hd & [Ha Hn]%NoDup_cons). set_solver. }
    split; [eapply shape_frame; [|done]|eapply cshape_frame; [|done]]; unfold locs, clocs;
      intros p' Hp''; apply lookup_alter_ne; set_solver.
  - assert (p ∉ (before c).*1 ++ (elems l).*1 ++ (after c).*1) as Hp'.
    { rewrite <- !app_assoc in Hnd. simpl in Hnd.
      apply NoDup_app in Hnd as (Hb & Hd & (Hl & Hd2 & [Ha Hn]%NoDup_cons)%NoDup_app). set_solver. }
    split; [eapply shape_frame; [|done]|eapply cshape_frame; [|done]]; unfold locs, clocs;
      intros p' Hp''; apply lookup_alter_ne; set_solver.
Qed.

(** A new parent for the root of a subtree. *)
Definition reparent (st : gmap loc (node_t V)) (par : ptr) t : gmap loc (node_t V) :=
  match t with
  | Leaf => st
  | GNode _ p _ _ _ => alter (fun n => SNode (left n) (right n) par (key n) (record n)) p st
  end.

Lemma shape_reparent st par par' t :
  NoDup (locs t) -> shape st par t -> shape (reparent st par' t) par' t.
Proof.
  unfold locs. destruct t as [|l p k v r]; simpl; [done|]. rewrite fmap_app. simpl.
  intros (Hl & Hd & [Hp Hr]%NoDup_cons)%NoDup_app (Hn & Hsl & Hsr).
  rewrite lookup_alter_eq, Hn. split_done; (eapply shape_frame; [|done]); unfold locs;
    intros p' Hp'; apply lookup_alter_ne; set_solver.
Qed.

(** ** Which nodes are whose *)

Lemma elem_of_locs l p k v r q :
  q ∈ locs (GNode l p k v r) <-> q ∈ locs l \/ q = p \/ q ∈ locs r.
Proof. unfold locs. simpl. rewrite fmap_app. simpl. set_solver. Qed.

Definition frame_tree (f : frame V) : gtree V :=
  match f with InLeft _ _ _ r => r | InRight l _ _ _ => l end.

Lemma elem_of_clocs f c q :
  q ∈ clocs (f :: c) <-> q = frame_loc f \/ q ∈ locs (frame_tree f) \/ q ∈ clocs c.
Proof.
  unfold clocs, locs. destruct f; simpl; rewrite ?fmap_app; simpl; rewrite ?fmap_app; set_solver.
Qed.

Lemma nodup_node l p k v r :
  NoDup (locs (GNode l p k v r)) ->
  NoDup (locs l) /\ NoDup (locs r) /\ p ∉ locs l /\ p ∉ locs r /\ (forall q, q ∈ locs l -> q ∉ locs r).
Proof.
  unfold locs. simpl. rewrite fmap_app. simpl.
  intros (Hl & Hd & [Hp Hr]%NoDup_cons)%NoDup_app. split_done; set_solver.
Qed.

Lemma nodup_pos c t :
  NoDup (locs (plug c t)) ->
  NoDup (locs t) /\ ctx_nodup c /\ (forall q, q ∈ locs t -> q ∉ clocs c).
Proof.
  unfold locs, ctx_nodup, clocs. rewrite elems_plug, !fmap_app.
  intros (Hb & Hd & (Ht & Hd2 & Ha)%NoDup_app)%NoDup_app. split_done; [|set_solver].
  apply NoDup_app. split_done; set_solver.
Qed.

Lemma redirect_ne st q c p : p ∉ clocs c -> redirect st q c !! p = st !! p.
Proof.
  destruct c as [|[p' k v r|l p' k v] c]; simpl; [done| |]; intros Hp; apply lookup_alter_ne;
    intros ->; apply Hp; unfold clocs; simpl; rewrite ?fmap_app; set_solver.
Qed.

Lemma redirect_same st st' q c p :
  st' !! p = st !! p -> redirect st' q c !! p = redirect st q c !! p.
Proof.
  intros Hp. destruct c as [|[] c]; simpl; [done| |]; rewrite !lookup_alter; case_decide; subst;
    by rewrite ?Hp.
Qed.

Lemma reparent_ne st q t p : p ∉ locs t -> reparent st q t !! p = st !! p.
Proof.
  destruct t as [|l p' k v r]; simpl; [done|]. rewrite elem_of_locs. intros Hp.
  apply lookup_alter_ne. naive_solver.
Qed.

Lemma reparent_same st st' q t p :
  st' !! p = st !! p -> reparent st' q t !! p = reparent st q t !! p.
Proof.
  intros Hp. destruct t; simpl; [done|]. rewrite !lookup_alter. case_decide; subst; by rewrite ?Hp.
Qed.

Lemma dom_redirect st q c : dom (redirect st q c) = dom st.
Proof. destruct c as [|[] c]; simpl; by rewrite ?dom_alter_L. Qed.
Lemma dom_reparent st q t : dom (reparent st q t) = dom st.
Proof. destruct t; simpl; by rewrite ?dom_alter_L. Qed.
End ghost.

(** [frames]: lookups through updates at other nodes. *)
Ltac frame_step :=
  first
    [ rewrite lookup_alter_eq
    | rewrite lookup_alter_ne by (try congruence; set_solver)
    | rewrite redirect_ne by set_solver
    | rewrite reparent_ne by set_solver ].
Ltac frames := repeat frame_step.

(** ** The code on a position *)

Section code.
Context {V : Type}.
Implicit Types (tree : tree_t V) (t a b d : gtree V) (c : ctx V).

Definition with_st tree (rt : ptr) (st : gmap loc (node_t V)) : tree_t V :=
  Tree rt (node_count tree) (comparison_count tree) st.

Lemma get_ok tree p n : nodes tree !! p = Some n -> get tree (Some p) = Done n.
Proof. intros Hp. unfold get, get_node. by rewrite Hp. Qed.

Lemma update_ok tree p n f :
  nodes tree !! p = Some n -> update tree (Some p) f = Done (with_st tree (root tree) (alter f p (nodes tree))).
Proof.
  intros Hp. unfold update. rewrite (get_ok _ _ _ Hp). simpl. unfold with_st. do 2 f_equal.
  apply map_eq. intros q. destruct (decide (q = p)) as [->|].
  - by rewrite lookup_insert_eq, lookup_alter_eq, Hp.
  - by rewrite lookup_insert_ne, lookup_alter_ne.
Qed.

Lemma with_st_with_st tree rt st rt' st' :
  with_st (with_st tree rt st) rt' st' = with_st tree rt' st'.
Proof. done. Qed.

(** [if (v) v->parent = q]. *)
Lemma set_parent_ok tree q t par :
  shape (nodes tree) par t ->
  match ptr_of t with None => Done tree | Some _ => set_parent tree (ptr_of t) q end =
    Done (with_st tree (root tree) (reparent (nodes tree) q t)).
Proof.
  destruct t as [|l p k v r]; simpl; [by destruct tree|]. intros (Hp & _).
  unfold set_parent. by rewrite (update_ok _ _ _ _ Hp).
Qed.

Lemma relink_ok tree x y n c :
  nodes tree !! x = Some n -> parent n = parent_of c -> x ∉ clocs c ->
  cshape (nodes tree) (root tree) (Some x) c ->
  relink tree (Some x) y =
    Done (with_st tree (redirect_root (root tree) y c) (redirect (nodes tree) y c)).
Proof.
  intros Hx Hn Hc Hs. unfold relink. rewrite (get_ok _ _ _ Hx). cbn [mbind outcome_bind]. rewrite Hn.
  destruct c as [|[p k v r|l p k v] c]; cbn [parent_of frame_loc cshape redirect redirect_root] in *;
    [done| |]; destruct Hs as (Hp & Hl & Hs);
    rewrite (get_ok _ _ _ Hp); cbn [mbind outcome_bind left].
  - rewrite decide_True by done. unfold set_left. by rewrite (update_ok _ _ _ _ Hp).
  - rewrite decide_False. { unfold set_right. by rewrite (update_ok _ _ _ _ Hp). }
    destruct l; simpl; [done|]. intros [= ->]. apply Hc. rewrite elem_of_clocs.
    simpl. rewrite elem_of_locs. auto.
Qed.

(** The six writes of a rotation of [x] with its child [y] whose inner subtree
    is [b]: [in_x] and [in_y] redirect the pointers of [x] and [y]. *)
Definition rotated (in_x in_y : ptr -> node_t V -> node_t V) (st : gmap loc (node_t V))
    (x y : loc) b c : gmap loc (node_t V) :=
  alter (fun n => SNode (left n) (right n) (Some y) (key n) (record n)) x
    (alter (in_y (Some x)) y
      (redirect
         (alter (fun n => SNode (left n) (right n) (parent_of c) (key n) (record n)) y
            (reparent (alter (in_x (ptr_of b)) x st) (Some x) b)) (Some y) c)).

Lemma rotated_frames in_x in_y st x y b c :
  x <> y -> x ∉ locs b -> y ∉ locs b -> x ∉ clocs c -> y ∉ clocs c ->
  (forall q, q ∈ locs b -> q ∉ clocs c) ->
  let st' := rotated in_x in_y st x y b c in
  st' !! x = (fun n => let n := in_x (ptr_of b) n in
    SNode (left n) (right n) (Some y) (key n) (record n)) <$> st !! x /\
  st' !! y = (fun n => in_y (Some x)
    (SNode (left n) (right n) (parent_of c) (key n) (record n))) <$> st !! y /\
  (forall q, q ∈ locs b -> st' !! q = reparent st (Some x) b !! q) /\
  (forall q, q ∈ clocs c -> st' !! q = redirect st (Some y) c !! q) /\
  (forall q, q <> x -> q <> y -> q ∉ locs b -> q ∉ clocs c -> st' !! q = st !! q) /\
  dom st' = dom st.
Proof.
  intros Hxy Hxb Hyb Hxc Hyc Hbc. simpl. unfold rotated.
  assert (Hb : forall q, q ∈ locs b -> q <> x /\ q <> y /\ q ∉ clocs c) by set_solver.
  assert (Hc : forall q, q ∈ clocs c -> q <> x /\ q <> y /\ q ∉ locs b) by set_solver.
  split_done.
  - rewrite lookup_alter_eq, lookup_alter_ne, redirect_ne, lookup_alter_ne, reparent_ne,
      lookup_alter_eq by congruence. by destruct (st !! x).
  - rewrite lookup_alter_ne, lookup_alter_eq, redirect_ne, lookup_alter_eq, reparent_ne,
      lookup_alter_ne by congruence. by destruct (st !! y).
  - intros q Hq. destruct (Hb q Hq) as (? & ? & ?).
    rewrite lookup_alter_ne, lookup_alter_ne, redirect_ne, lookup_alter_ne by congruence.
    apply reparent_same. by rewrite lookup_alter_ne by congruence.
  - intros q Hq. destruct (Hc q Hq) as (? & ? & ?).
    rewrite lookup_alter_ne, lookup_alter_ne by congruence. apply redirect_same.
    by rewrite lookup_alter_ne, reparent_ne, lookup_alter_ne by congruence.
  - intros q ? ? ? ?. by rewrite lookup_alter_ne, lookup_alter_ne, redirect_ne, lookup_alter_ne,
      reparent_ne, lookup_alter_ne by congruence.
  - by rewrite !dom_alter_L, dom_redirect, dom_alter_L, dom_reparent, dom_alter_L.
Qed.

(** The nodes around a rotation are apart from each other. *)
Lemma rotation_apart c a y ky vy b x kx vx d :
  NoDup (locs (plug c (GNode (GNode a y ky vy b) x kx vx d))) \/
  NoDup (locs (plug c (GNode d x kx vx (GNode b y ky vy a)))) ->
  (x <> y /\ x ∉ locs b /\ y ∉ locs b /\ x ∉ clocs c /\ y ∉ clocs c /\
   (forall q, q ∈ locs b -> q ∉ clocs c)) /\
  NoDup (locs b) /\ ctx_nodup c /\
  (forall q, q ∈ locs a \/ q ∈ locs d -> q <> x /\ q <> y /\ q ∉ locs b /\ q ∉ clocs c).
Proof.
  assert (Hgen : forall t, NoDup (locs t) /\ ctx_nodup c /\ (forall q, q ∈ locs t -> q ∉ clocs c) ->
    (forall q, q ∈ locs t <-> q ∈ locs a \/ q = y \/ q ∈ locs b \/ q = x \/ q ∈ locs d) ->
    NoDup (locs a) /\ NoDup (locs b) /\ y ∉ locs a /\ y ∉ locs b /\ x ∉ locs a /\ x <> y /\
      x ∉ locs b /\ x ∉ locs d /\ (forall q, q ∈ locs a -> q ∉ locs b) /\
      (forall q, q ∈ locs a \/ q = y \/ q ∈ locs b -> q ∉ locs d) ->
    (x <> y /\ x ∉ locs b /\ y ∉ locs b /\ x ∉ clocs c /\ y ∉ clocs c /\
     (forall q, q ∈ locs b -> q ∉ clocs c)) /\ NoDup (locs b) /\ ctx_nodup c /\
    (forall q, q ∈ locs a \/ q ∈ locs d -> q <> x /\ q <> y /\ q ∉ locs b /\ q ∉ clocs c)).
  { intros t (Ht & Hc & Hd) Hin (Ha & Hb & Hya & Hyb & Hxa & Hxy & Hxb & Hxd & Hab & Hyd).
    setoid_rewrite Hin in Hd. split_done; [apply Hd; tauto|apply Hd; tauto|intros q ?; apply Hd; tauto|].
    intros q Hq. specialize (Hab q). split_done; [intros ->; tauto| |intros ?|apply Hd; tauto].
    - intros ->. specialize (Hyd y). tauto.
    - specialize (Hyd q). tauto. }
  intros [Hnd|Hnd]; apply nodup_pos in Hnd as (Ht & Hc & Hd); (eapply Hgen; [split_done| |]).
  - intros q. rewrite !elem_of_locs. tauto.
  - pose proof (nodup_node _ _ _ _ _ Ht) as (Hy & _ & Hx & Hxd & Hyd).
    pose proof (nodup_node _ _ _ _ _ Hy) as (Ha & Hb & Hya & Hyb & Hab).
    rewrite elem_of_locs in Hx. setoid_rewrite elem_of_locs in Hyd. split_done; tauto.
  - intros q. rewrite !elem_of_locs. tauto.
  - pose proof (nodup_node _ _ _ _ _ Ht) as (_ & Hy & Hxd & Hx & Hyd).
    pose proof (nodup_node _ _ _ _ _ Hy) as (Hb & Ha & Hyb & Hya & Hab).
    rewrite elem_of_locs in Hx. setoid_rewrite elem_of_locs in Hyd. split_done; try tauto.
    + intros q Hqa Hqb. by apply (Hab q).
    + intros q Hq Hqd. apply (Hyd q Hqd). tauto.
Qed.

Lemma right_rotate_run tree c a y ky vy b x kx vx d :
  let t := GNode (GNode a y ky vy b) x kx vx d in
  NoDup (locs (plug c t)) -> at_pos (nodes tree) (root tree) c t ->
  right_rotate tree (Some x) =
    Done (with_st tree (redirect_root (root tree) (Some y) c)
      (rotated (fun q n => SNode q (right n) (parent n) (key n) (record n))
               (fun q n => SNode (left n) q (parent n) (key n) (record n)) (nodes tree) x y b c)).
Proof.
  intros t Hnd [(Hx & (Hy & Ha & Hb) & Hd) Hc].
  destruct (rotation_apart c a y ky vy b x kx vx d (or_introl Hnd))
    as ((Hxy & Hxb & Hyb & Hxc & Hyc & Hbc) & _).
  cbn [ptr_of] in Hx, Hc. unfold right_rotate, set_left, set_right.
  rewrite (get_ok _ _ _ Hx). cbn [mbind outcome_bind left].
  rewrite (get_ok _ _ _ Hy). cbn [mbind outcome_bind].
  rewrite (update_ok _ _ _ _ Hx). cbn [mbind outcome_bind right].
  set (st1 := alter _ x (nodes tree)).
  assert (H1y : st1 !! y = nodes tree !! y) by (apply lookup_alter_ne; congruence).
  erewrite (get_ok (with_st tree (root tree) st1) y); [|simpl; by rewrite H1y]. cbn [mbind outcome_bind right].
  assert (Hb1 : shape st1 (Some y) b).
  { eapply shape_frame; [|done]. intros q Hq. apply lookup_alter_ne. congruence. }
  rewrite (set_parent_ok (with_st tree (root tree) st1) (Some x) b (Some y) Hb1).
  cbn [mbind outcome_bind root with_st nodes].
  set (st2 := reparent st1 (Some x) b).
  assert (H2x : st2 !! x = Some (SNode (ptr_of b) (ptr_of d) (parent_of c) kx vx)).
  { unfold st2, st1. rewrite reparent_ne by done. by rewrite lookup_alter_eq, Hx. }
  assert (H2y : st2 !! y = nodes tree !! y) by (unfold st2; by rewrite reparent_ne).
  rewrite with_st_with_st, (get_ok (with_st tree (root tree) st2) _ _ H2x). cbn [mbind outcome_bind parent].
  unfold set_parent. erewrite (update_ok (with_st tree (root tree) st2) y); [|simpl; by rewrite H2y].
  cbn [mbind outcome_bind root with_st nodes].
  set (st3 := alter _ y st2).
  assert (H3x : st3 !! x = st2 !! x) by (apply lookup_alter_ne; congruence).
  assert (Hc3 : cshape st3 (root tree) (Some x) c).
  { eapply cshape_frame; [|exact Hc]. intros q Hq. unfold st3, st2, st1.
    rewrite lookup_alter_ne, reparent_ne, lookup_alter_ne by naive_solver. done. }
  rewrite with_st_with_st.
  erewrite (relink_ok (with_st tree (root tree) st3) x); [|simpl; by rewrite H3x|done|done|exact Hc3].
  cbn [mbind outcome_bind root with_st nodes]. set (st4 := redirect st3 (Some y) c).
  erewrite (update_ok (with_st _ _ st4) y).
  2:{ simpl. unfold st4. rewrite redirect_ne by done. unfold st3. rewrite lookup_alter_eq, H2y, Hy.
      simpl. done. }
  cbn [mbind outcome_bind root with_st nodes].
  erewrite update_ok.
  2:{ simpl. rewrite lookup_alter_ne by congruence. unfold st4. rewrite redirect_ne by done.
      by rewrite H3x, H2x. }
  done.
Qed.

(** The parts around the two nodes after a rotation. *)
Lemma rotated_parts in_x in_y st rt c a y ky vy b x kx vx d px py :
  NoDup (locs (plug c (GNode (GNode a y ky vy b) x kx vx d))) \/
  NoDup (locs (plug c (GNode d x kx vx (GNode b y ky vy a)))) ->
  shape st py a -> shape st py b -> shape st px d -> cshape st rt (Some x) c ->
  let st' := rotated in_x in_y st x y b c in
  shape st' py a /\ shape st' (Some x) b /\ shape st' px d /\
  cshape st' (redirect_root rt (Some y) c) (Some y) c /\ dom st' = dom st.
Proof.
  intros Hnd Ha Hb Hd Hc st'.
  destruct (rotation_apart _ _ _ _ _ _ _ _ _ _ Hnd)
    as ((Hxy & Hxb & Hyb & Hxc & Hyc & Hbc) & Hbn & Hcn & Hrest).
  destruct (rotated_frames in_x in_y st x y b c Hxy Hxb Hyb Hxc Hyc Hbc)
    as (_ & _ & Fb & Fc & Fr & Fd). fold st' in Fb, Fc, Fr, Fd.
  assert (Fad : forall q, q ∈ locs a \/ q ∈ locs d -> st' !! q = st !! q).
  { intros q Hq. destruct (Hrest q Hq) as (? & ? & ? & ?). auto. }
  split_done.
  - eapply shape_frame; [|done]. auto.
  - eapply shape_frame; [apply Fb|]. by eapply shape_reparent.
  - eapply shape_frame; [|done]. auto.
  - eapply cshape_frame; [apply Fc|]. by eapply cshape_redirect.
Qed.

Lemma right_rotate_ok tree c a y ky vy b x kx vx d :
  let t := GNode (GNode a y ky vy b) x kx vx d in
  NoDup (locs (plug c t)) -> at_pos (nodes tree) (root tree) c t ->
  exists rt st, right_rotate tree (Some x) = Done (with_st tree rt st) /\
    at_pos st rt c (GNode a y ky vy (GNode b x kx vx d)) /\ dom st = dom (nodes tree).
Proof.
  intros t Hnd Hpos. eexists _, _. split; [by apply (right_rotate_run tree c a y ky vy b x kx vx d)|].
  destruct Hpos as [(Hx & (Hy & Ha & Hb) & Hd) Hc].
  destruct (rotated_parts (fun q n => SNode q (right n) (parent n) (key n) (record n))
              (fun q n => SNode (left n) q (parent n) (key n) (record n)) (nodes tree) (root tree)
              c a y ky vy b x kx vx d _ _ (or_introl Hnd) Ha Hb Hd Hc) as (Pa & Pb & Pd & Pc & Pdom).
  destruct (rotation_apart c a y ky vy b x kx vx d (or_introl Hnd))
    as ((Hxy & Hxb & Hyb & Hxc & Hyc & Hbc) & _).
  edestruct rotated_frames as (Fx & Fy & _); [exact Hxy|exact Hxb|exact Hyb|exact Hxc|exact Hyc|exact Hbc|].
  split; [|exact Pdom]. split; [|exact Pc]. cbn [shape]. rewrite Fx, Fy, Hx, Hy. split_done.
Qed.

Lemma left_rotate_run tree c a y ky vy b x kx vx d :
  let t := GNode d x kx vx (GNode b y ky vy a) in
  NoDup (locs (plug c t)) -> at_pos (nodes tree) (root tree) c t ->
  left_rotate tree (Some x) =
    Done (with_st tree (redirect_root (root tree) (Some y) c)
      (rotated (fun q n => SNode (left n) q (parent n) (key n) (record n))
               (fun q n => SNode q (right n) (parent n) (key n) (record n)) (nodes tree) x y b c)).
Proof.
  intros t Hnd [(Hx & Hd & (Hy & Hb & Ha)) Hc].
  destruct (rotation_apart c a y ky vy b x kx vx d (or_intror Hnd))
    as ((Hxy & Hxb & Hyb & Hxc & Hyc & Hbc) & _).
  cbn [ptr_of] in Hx, Hc. unfold left_rotate, set_left, set_right.
  rewrite (get_ok _ _ _ Hx). cbn [mbind outcome_bind right].
  rewrite (get_ok _ _ _ Hy). cbn [mbind outcome_bind].
  rewrite (update_ok _ _ _ _ Hx). cbn [mbind outcome_bind left].
  set (st1 := alter _ x (nodes tree)).
  assert (H1y : st1 !! y = nodes tree !! y) by (apply lookup_alter_ne; congruence).
  erewrite (get_ok (with_st tree (root tree) st1) y); [|simpl; by rewrite H1y]. cbn [mbind outcome_bind left].
  assert (Hb1 : shape st1 (Some y) b).
  { eapply shape_frame; [|done]. intros q Hq. apply lookup_alter_ne. congruence. }
  rewrite (set_parent_ok (with_st tree (root tree) st1) (Some x) b (Some y) Hb1).
  cbn [mbind outcome_bind root with_st nodes].
  set (st2 := reparent st1 (Some x) b).
  assert (H2x : st2 !! x = Some (SNode (ptr_of d) (ptr_of b) (parent_of c) kx vx)).
  { unfold st2, st1. rewrite reparent_ne by done. by rewrite lookup_alter_eq, Hx. }
  assert (H2y : st2 !! y = nodes tree !! y) by (unfold st2; by rewrite reparent_ne).
  rewrite with_st_with_st, (get_ok (with_st tree (root tree) st2) _ _ H2x). cbn [mbind outcome_bind parent].
  unfold set_parent. erewrite (update_ok (with_st tree (root tree) st2) y); [|simpl; by rewrite H2y].
  cbn [mbind outcome_bind root with_st nodes].
  set (st3 := alter _ y st2).
  assert (H3x : st3 !! x = st2 !! x) by (apply lookup_alter_ne; congruence).
  assert (Hc3 : cshape st3 (root tree) (Some x) c).
  { eapply cshape_frame; [|exact Hc]. intros q Hq. unfold st3, st2, st1.
    rewrite lookup_alter_ne, reparent_ne, lookup_alter_ne by naive_solver. done. }
  rewrite with_st_with_st.
  erewrite (relink_ok (with_st tree (root tree) st3) x); [|simpl; by rewrite H3x|done|done|exact Hc3].
  cbn [mbind outcome_bind root with_st nodes]. set (st4 := redirect st3 (Some y) c).
  erewrite (update_ok (with_st _ _ st4) y).
  2:{ simpl. unfold st4. rewrite redirect_ne by done. unfold st3. rewrite lookup_alter_eq, H2y, Hy.
      simpl. done. }
  cbn [mbind outcome_bind root with_st nodes].
  erewrite update_ok.
  2:{ simpl. rewrite lookup_alter_ne by congruence. unfold st4. rewrite redirect_ne by done.
      by rewrite H3x, H2x. }
  done.
Qed.

Lemma left_rotate_ok tree c a y ky vy b x kx vx d :
  let t := GNode d x kx vx (GNode b y ky vy a) in
  NoDup (locs (plug c t)) -> at_pos (nodes tree) (root tree) c t ->
  exists rt st, left_rotate tree (Some x) = Done (with_st tree rt st) /\
    at_pos st rt c (GNode (GNode d x kx vx b) y ky vy a) /\ dom st = dom (nodes tree).
Proof.
  intros t Hnd Hpos. eexists _, _. split; [by apply (left_rotate_run tree c a y ky vy b x kx vx d)|].
  destruct Hpos as [(Hx & Hd & (Hy & Hb & Ha)) Hc].
  destruct (rotated_parts (fun q n => SNode (left n) q (parent n) (key n) (record n))
              (fun q n => SNode q (right n) (parent n) (key n) (record n)) (nodes tree) (root tree)
              c a y ky vy b x kx vx d _ _ (or_intror Hnd) Ha Hb Hd Hc) as (Pa & Pb & Pd & Pc & Pdom).
  destruct (rotation_apart c a y ky vy b x kx vx d (or_intror Hnd))
    as ((Hxy & Hxb & Hyb & Hxc & Hyc & Hbc) & _).
  edestruct rotated_frames as (Fx & Fy & _); [exact Hxy|exact Hxb|exact Hyb|exact Hxc|exact Hyc|exact Hbc|].
  split; [|exact Pdom]. split; [|exact Pc]. cbn [shape]. rewrite Fx, Fy, Hx, Hy. split_done.
Qed.
End code.
