(* ===== verification/STreeOps.v ===== *)
(** * The splay tree: its operations implement a finite map

    [splay] brings a node to the root without changing the order of the nodes;
    the descents of insertion, search and removal find the position of a key; and
    the whole interface of [stree.c] refines a map from keys to records. *)

From Stdlib Require Import ZArith Lia.
From stdpp Require Import gmap list sorting.
From S2P Require Import Prelude STree STreeShape.

(** ** Splaying *)

Section splay.
Context {V : Type}.
Implicit Types (tree : tree_t V) (t a b d : gtree V) (c : ctx V).

(** The subtrees of the node at a position once it is at the root. *)
Fixpoint gsplay c a b : gtree V * gtree V :=
  match c with
  | [] => (a, b)
  | [InLeft p k v r] => (a, GNode b p k v r)
  | [InRight l p k v] => (GNode l p k v a, b)
  | InLeft p k v r :: InLeft g k' v' d :: c => gsplay c a (GNode b p k v (GNode r g k' v' d))
  | InRight l p k v :: InRight e g k' v' :: c => gsplay c (GNode (GNode e g k' v' l) p k v a) b
  | InLeft p k v r :: InRight e g k' v' :: c => gsplay c (GNode e g k' v' a) (GNode b p k v r)
  | InRight l p k v :: InLeft g k' v' d :: c => gsplay c (GNode l p k v a) (GNode b g k' v' d)
  end.

(** Induction on a context two frames at a time. *)
Lemma ctx_ind2 (P : ctx V -> Prop) :
  P [] -> (forall f, P [f]) -> (forall f g c, P c -> P (f :: g :: c)) -> forall c, P c.
Proof.
  intros H0 H1 H2. fix IH 1. intros [|f [|g c]]; [exact H0|apply H1|apply H2, IH].
Qed.

Lemma gsplay_elems c a b x kx vx :
  elems (gsplay c a b).1 ++ (x, (kx, vx)) :: elems (gsplay c a b).2 =
  before c ++ elems a ++ (x, (kx, vx)) :: elems b ++ after c.
Proof.
  revert a b. induction c as [|f|f g c IH] using ctx_ind2; intros a b.
  - simpl. by rewrite app_nil_r.
  - destruct f; simpl; by rewrite ?app_nil_r, <- ?app_assoc.
  - destruct f, g; simpl; rewrite IH; simpl; by repeat (rewrite <- ?app_assoc; simpl).
Qed.

Lemma nodup_elems c t t' :
  elems t' = elems t -> NoDup (locs (plug c t)) -> NoDup (locs (plug c t')).
Proof. intros E. unfold locs. by rewrite !elems_plug, E. Qed.

Lemma ptr_of_ne t x : x ∉ locs t -> ptr_of t <> Some x.
Proof. destruct t; [done|]. intros Hx [= ->]. apply Hx. rewrite elem_of_locs. auto. Qed.

Lemma get_pos tree p rt c (l r : gtree V) k v :
  at_pos (nodes tree) rt c (GNode l p k v r) ->
  get tree (Some p) = Done (SNode (ptr_of l) (ptr_of r) (parent_of c) k v).
Proof. intros [(Hp & _) _]. by apply get_ok. Qed.

(** The nodes above a position differ from it and from each other. *)
Lemma above_ne f c t :
  NoDup (locs (plug (f :: c) t)) ->
  (forall x, x ∈ locs t -> ptr_of (frame_tree f) <> Some x) /\
  match c with
  | [] => True
  | g :: _ => ptr_of (frame_tree g) <> Some (frame_loc f)
  end.
Proof.
  intros Hnd. pose proof (nodup_pos _ _ Hnd) as (_ & _ & Hout). split.
  - intros x Hx. apply ptr_of_ne. specialize (Hout x Hx). rewrite elem_of_clocs in Hout. tauto.
  - destruct c as [|g c]; [done|]. simpl in Hnd.
    pose proof (nodup_pos (g :: c) (plug1 f t) Hnd) as (_ & _ & Hout').
    apply ptr_of_ne. specialize (Hout' (frame_loc f)). rewrite elem_of_clocs in Hout'.
    destruct f; simpl in *; rewrite elem_of_locs in Hout'; tauto.
Qed.

(** One round of the loop makes two steps of [gsplay] into one. *)
Definition round_ok tree (res : outcome (tree_t V)) (x : loc) (kx : Z) (vx : V) c a b : Prop :=
  exists rt st c' a' b', res = Done (with_st tree rt st) /\
    at_pos st rt c' (GNode a' x kx vx b') /\ dom st = dom (nodes tree) /\
    gsplay c' a' b' = gsplay c a b /\ (length c' < length c)%nat.

Lemma round_zig tree f a x kx vx b :
  NoDup (locs (plug [f] (GNode a x kx vx b))) ->
  at_pos (nodes tree) (root tree) [f] (GNode a x kx vx b) ->
  round_ok tree (splay_round tree (Some x) (Some (frame_loc f))) x kx vx [f] a b.
Proof.
  intros Hnd Hpos. pose proof (proj1 (at_pos_up _ _ _ _ _) Hpos) as Hp.
  destruct (above_ne _ _ _ Hnd) as [Hne _]. specialize (Hne x). rewrite elem_of_locs in Hne.
  unfold splay_round. destruct f as [p k v r|l p k v]; cbn [plug plug1 frame_loc frame_tree] in *;
    rewrite (get_pos _ _ _ _ _ _ _ _ Hp); cbn [mbind outcome_bind parent left right parent_of ptr_of].
  - rewrite decide_True by done.
    destruct (right_rotate_ok tree [] a x kx vx b p k v r Hnd Hp) as (rt & st & -> & Hpos' & Hdom).
    eexists rt, st, [], a, _. split_done. simpl. lia.
  - rewrite decide_False by auto.
    destruct (left_rotate_ok tree [] b x kx vx a p k v l Hnd Hp) as (rt & st & -> & Hpos' & Hdom).
    eexists rt, st, [], _, b. split_done. simpl. lia.
Qed.

(** The second rotation of a round, at the node the first one left above [x]. *)
Lemma second_right tree c a x kx vx b p k v d rt1 st1 :
  at_pos st1 rt1 c (GNode (GNode a x kx vx b) p k v d) ->
  NoDup (locs (plug c (GNode (GNode a x kx vx b) p k v d))) -> dom st1 = dom (nodes tree) ->
  exists rt st, (n ← get (with_st tree rt1 st1) (Some x); right_rotate (with_st tree rt1 st1) (parent n)) =
    Done (with_st tree rt st) /\ at_pos st rt c (GNode a x kx vx (GNode b p k v d)) /\
    dom st = dom (nodes tree).
Proof.
  intros Hpos Hnd Hdom.
  pose proof (proj2 (at_pos_up _ _ (InLeft p k v d) _ _) Hpos) as Hx.
  rewrite (get_pos (with_st tree rt1 st1) _ _ _ _ _ _ _ Hx). cbn [mbind outcome_bind parent parent_of frame_loc].
  destruct (right_rotate_ok (with_st tree rt1 st1) c a x kx vx b p k v d Hnd Hpos)
    as (rt & st & -> & Hpos' & Hdom'). exists rt, st. rewrite with_st_with_st. split_done.
  by rewrite Hdom'.
Qed.

Lemma second_left tree c a x kx vx b p k v d rt1 st1 :
  at_pos st1 rt1 c (GNode d p k v (GNode a x kx vx b)) ->
  NoDup (locs (plug c (GNode d p k v (GNode a x kx vx b)))) -> dom st1 = dom (nodes tree) ->
  exists rt st, (n ← get (with_st tree rt1 st1) (Some x); left_rotate (with_st tree rt1 st1) (parent n)) =
    Done (with_st tree rt st) /\ at_pos st rt c (GNode (GNode d p k v a) x kx vx b) /\
    dom st = dom (nodes tree).
Proof.
  intros Hpos Hnd Hdom.
  pose proof (proj2 (at_pos_up _ _ (InRight d p k v) _ _) Hpos) as Hx.
  rewrite (get_pos (with_st tree rt1 st1) _ _ _ _ _ _ _ Hx). cbn [mbind outcome_bind parent parent_of frame_loc].
  destruct (left_rotate_ok (with_st tree rt1 st1) c b x kx vx a p k v d Hnd Hpos)
    as (rt & st & -> & Hpos' & Hdom'). exists rt, st. rewrite with_st_with_st. split_done.
  by rewrite Hdom'.
Qed.

Lemma round_two tree f g c a x kx vx b :
  NoDup (locs (plug (f :: g :: c) (GNode a x kx vx b))) ->
  at_pos (nodes tree) (root tree) (f :: g :: c) (GNode a x kx vx b) ->
  round_ok tree (splay_round tree (Some x) (Some (frame_loc f))) x kx vx (f :: g :: c) a b.
Proof.
  intros Hnd Hpos. pose proof (proj1 (at_pos_up _ _ _ _ _) Hpos) as Hp.
  pose proof (proj1 (at_pos_up _ _ _ _ _) Hp) as Hg.
  destruct (above_ne _ _ _ Hnd) as [Hne Hne2]. specialize (Hne x). rewrite elem_of_locs in Hne.
  specialize (Hne (or_intror (or_introl eq_refl))). unfold splay_round.
  destruct f as [p k v r|l p k v], g as [q k' v' d|e q k' v'];
    cbn [plug plug1 frame_loc frame_tree] in *;
    rewrite (get_pos _ _ _ _ _ _ _ _ Hp); cbn [mbind outcome_bind parent parent_of frame_loc];
    rewrite (get_pos _ _ _ _ _ _ _ _ Hg); cbn [mbind outcome_bind left right ptr_of].
  - rewrite decide_True by done.
    destruct (right_rotate_ok tree c _ p k v r q k' v' d Hnd Hg) as (rt1 & st1 & -> & H1 & D1).
    cbn [mbind outcome_bind].
    destruct (second_right tree c a x kx vx b p k v (GNode r q k' v' d) rt1 st1 H1)
      as (rt & st & -> & H2 & D2); [|done|].
    { eapply nodup_elems; [|exact Hnd]. simpl. by repeat (rewrite <- ?app_assoc; simpl). }
    eexists rt, st, c, _, _. split_done. simpl. lia.
  - rewrite decide_False by naive_solver. rewrite decide_False by naive_solver.
    rewrite decide_True by done.
    destruct (right_rotate_ok tree (InRight e q k' v' :: c) a x kx vx b p k v r Hnd Hp) as (rt1 & st1 & -> & H1 & D1).
    cbn [mbind outcome_bind]. apply at_pos_up in H1.
    destruct (second_left tree c a x kx vx (GNode b p k v r) q k' v' e rt1 st1 H1)
      as (rt & st & -> & H2 & D2); [|done|].
    { eapply nodup_elems; [|exact Hnd]. simpl. by repeat (rewrite <- ?app_assoc; simpl). }
    eexists rt, st, c, _, _. split_done. simpl. lia.
  - rewrite decide_False by naive_solver. rewrite decide_False by naive_solver.
    rewrite decide_False by naive_solver.
    destruct (left_rotate_ok tree (InLeft q k' v' d :: c) b x kx vx a p k v l Hnd Hp) as (rt1 & st1 & -> & H1 & D1).
    cbn [mbind outcome_bind]. apply at_pos_up in H1.
    destruct (second_right tree c (GNode l p k v a) x kx vx b q k' v' d rt1 st1 H1)
      as (rt & st & -> & H2 & D2); [|done|].
    { eapply nodup_elems; [|exact Hnd]. simpl. by repeat (rewrite <- ?app_assoc; simpl). }
    eexists rt, st, c, _, _. split_done. simpl. lia.
  - rewrite decide_False by naive_solver. rewrite decide_True by done.
    destruct (left_rotate_ok tree c _ p k v l q k' v' e Hnd Hg) as (rt1 & st1 & -> & H1 & D1).
    cbn [mbind outcome_bind].
    destruct (second_left tree c a x kx vx b p k v (GNode e q k' v' l) rt1 st1 H1)
      as (rt & st & -> & H2 & D2); [|done|].
    { eapply nodup_elems; [|exact Hnd]. simpl. by repeat (rewrite <- ?app_assoc; simpl). }
    eexists rt, st, c, _, _. split_done. simpl. lia.
Qed.

(** The loop ends: every round shortens the context. *)
Lemma splay_loop_ok fuel tree c a x kx vx b :
  NoDup (locs (plug c (GNode a x kx vx b))) ->
  at_pos (nodes tree) (root tree) c (GNode a x kx vx b) -> (length c < fuel)%nat ->
  exists st, splay_loop fuel tree (Some x) = Done (with_st tree (Some x) st) /\
    at_pos st (Some x) [] (GNode (gsplay c a b).1 x kx vx (gsplay c a b).2) /\
    dom st = dom (nodes tree).
Proof.
  revert tree c a b. induction fuel as [|fuel IH]; intros tree c a b Hnd Hpos Hlen; [lia|].
  cbn [splay_loop]. rewrite (get_pos _ _ _ _ _ _ _ _ Hpos). cbn [mbind outcome_bind parent].
  destruct c as [|f c].
  { simpl. exists (nodes tree). pose proof Hpos as [_ Hr]. simpl in Hr. rewrite <- Hr. split_done.
    by destruct tree. }
  assert (round_ok tree (splay_round tree (Some x) (Some (frame_loc f))) x kx vx (f :: c) a b)
    as (rt & st & c' & a' & b' & Hrun & Hpos' & Hdom & Hg & Hlen').
  { destruct c as [|g c]; [by apply round_zig|by apply round_two]. }
  simpl parent_of. cbn match. rewrite Hrun. cbn [mbind outcome_bind].
  destruct (IH (with_st tree rt st) c' a' b') as (st' & Hloop & Hpos2 & Hdom2); [|done|simpl in *; lia|].
  { unfold locs. rewrite elems_plug. simpl. rewrite <- app_assoc. simpl.
    rewrite <- gsplay_elems, Hg, gsplay_elems. unfold locs in Hnd. rewrite elems_plug in Hnd.
    simpl in Hnd. by rewrite <- app_assoc in Hnd. }
  exists st'. rewrite Hloop, Hg in *. split_done. by rewrite Hdom2.
Qed.

Definition nodes_of (st : gmap loc (node_t V)) t : Prop :=
  NoDup (locs t) /\ dom st = list_to_set (locs t).

Lemma nodes_of_size st t : nodes_of st t -> size st = length (elems t).
Proof.
  intros [Hnd Hd]. rewrite <- size_dom, Hd, size_list_to_set by done. unfold locs. by rewrite length_fmap.
Qed.

Lemma length_ctx c t : (length c <= length (elems (plug c t)))%nat.
Proof.
  rewrite elems_plug, !length_app. induction c as [|f c IH]; [simpl; lia|].
  destruct f; simpl; rewrite ?length_app; simpl; lia.
Qed.

Lemma splay_ok tree c a x kx vx b :
  nodes_of (nodes tree) (plug c (GNode a x kx vx b)) ->
  at_pos (nodes tree) (root tree) c (GNode a x kx vx b) ->
  exists st a' b', splay tree (Some x) = Done (with_st tree (Some x) st) /\
    at_pos st (Some x) [] (GNode a' x kx vx b') /\ nodes_of st (GNode a' x kx vx b') /\
    elems (GNode a' x kx vx b') = elems (plug c (GNode a x kx vx b)) /\
    dom st = dom (nodes tree).
Proof.
  intros Hn Hpos. pose proof Hn as [Hnd Hd]. unfold splay.
  destruct (splay_loop_ok (S (size (nodes tree))) tree c a x kx vx b Hnd Hpos) as (st & -> & Hpos' & Hdom).
  { rewrite (nodes_of_size _ _ Hn). pose proof (length_ctx c (GNode a x kx vx b)). lia. }
  assert (E : elems (GNode (gsplay c a b).1 x kx vx (gsplay c a b).2) =
              elems (plug c (GNode a x kx vx b))).
  { rewrite elems_plug. simpl. rewrite gsplay_elems. by rewrite <- app_assoc. }
  eexists st, _, _. split_done. unfold nodes_of, locs. rewrite E, Hdom. done.
Qed.

(** ** Descents *)

(** Where the search for [k] ends: at the node with that key, or at the leaf
    where it belongs. *)
Fixpoint descend (k : Z) c t : ctx V * gtree V :=
  match t with
  | Leaf => (c, Leaf)
  | GNode l p k' v r =>
      if decide (k = k') then (c, t)
      else if decide (k' < k) then descend k (InRight l p k' v :: c) r
      else descend k (InLeft p k' v r :: c) l
  end.

Definition entry : Type := (loc * (Z * V))%type.
Definition key_lt (e e' : entry) : Prop := e.2.1 < e'.2.1.
Definition bst t : Prop := StronglySorted key_lt (elems t).

Lemma descend_plug k c t : plug (descend k c t).1 (descend k c t).2 = plug c t.
Proof.
  revert c. induction t as [|l IHl p k' v r IHr]; intros c; simpl; [done|].
  repeat case_decide; simpl; [done|by rewrite IHr|by rewrite IHl].
Qed.

(** Every key on the left of the position is below [k], every one on its right
    above. *)
Definition around (k : Z) c : Prop :=
  Forall (fun e : entry => e.2.1 < k) (before c) /\ Forall (fun e : entry => k < e.2.1) (after c).

Lemma bst_node l p k v r :
  bst (GNode l p k v r) ->
  bst l /\ bst r /\ Forall (fun e : entry => e.2.1 < k) (elems l) /\
  Forall (fun e : entry => k < e.2.1) (elems r).
Proof.
  unfold bst. simpl. rewrite StronglySorted_app, StronglySorted_cons. intros (Hlr & Hl & Hf & Hr).
  split_done. apply Forall_forall. intros e He. apply (Hlr e (p, (k, v))); set_solver.
Qed.

Lemma around_left k c p k' v r :
  around k c -> k < k' -> Forall (fun e : entry => k' < e.2.1) (elems r) ->
  around k (InLeft p k' v r :: c).
Proof.
  intros [Hb Ha] Hk Hr. split; [done|]. simpl. constructor; [done|]. apply Forall_app. split; [|done].
  eapply Forall_impl; [exact Hr|]. simpl. intros. lia.
Qed.

Lemma around_right k c l p k' v :
  around k c -> k' < k -> Forall (fun e : entry => e.2.1 < k') (elems l) ->
  around k (InRight l p k' v :: c).
Proof.
  intros [Hb Ha] Hk Hl. split; [|done]. simpl. rewrite !Forall_app. split_done; [|by repeat constructor].
  eapply Forall_impl; [exact Hl|]. simpl. intros. lia.
Qed.

Lemma descend_around k c t :
  bst t -> around k c ->
  around k (descend k c t).1 /\
  match (descend k c t).2 with Leaf => True | GNode _ _ k' _ _ => k' = k end.
Proof.
  revert c. induction t as [|l IHl p k' v r IHr]; intros c Hs Hc; [done|].
  apply bst_node in Hs as (Hsl & Hsr & Hl & Hr). cbn [descend].
  case_decide as Hk; [by subst|]. case_decide as Hlt.
  - apply IHr; [done|]. by apply around_right.
  - apply IHl; [done|]. apply around_left; [done|lia|done].
Qed.

(** What a descent sees of the tree it runs on. *)
Definition counted tree (n : Z) : tree_t V := Tree (root tree) (node_count tree) n (nodes tree).

(** The two recursive calls of a descent. *)
Ltac walk_children IH tr Hpos l p k' v r c k :=
  destruct (decide (k' < k));
  [ refine (IH tr (InRight l p k' v :: c) r _ _);
    [by apply (at_pos_up _ _ (InRight l p k' v))|lia]
  | refine (IH tr (InLeft p k' v r :: c) l _ _);
    [by apply (at_pos_up _ _ (InLeft p k' v r))|lia] ].

Lemma insert_walk_ok fuel tree k c t st :
  at_pos st (root tree) c t -> nodes tree = st -> (length (elems t) < fuel)%nat ->
  exists n, insert_walk fuel tree k (ptr_of t) (parent_of c) =
    Done (match (descend k c t).2 with
          | Leaf => (false, parent_of (descend k c t).1, counted tree n)
          | t' => (true, ptr_of t', counted tree n)
          end).
Proof.
  intros Hpos <-. revert tree c t Hpos.
  induction fuel as [|fuel IH]; intros tree c t Hpos Hlen; [lia|]. cbn [insert_walk].
  destruct t as [|l p k' v r]; cbn [ptr_of].
  { exists (comparison_count tree). simpl. by destruct tree. }
  rewrite (get_pos _ _ _ _ _ _ _ _ Hpos). cbn [mbind outcome_bind key left right descend].
  simpl in Hlen. rewrite length_app in Hlen. simpl in Hlen.
  case_decide as Hk; [by eexists|].
  walk_children IH (add_comparison (add_comparison tree)) Hpos l p k' v r c k.
Qed.

Lemma find_walk_ok fuel tree k c t st :
  at_pos st (root tree) c t -> nodes tree = st -> (length (elems t) < fuel)%nat ->
  exists n, find_walk fuel tree k (ptr_of t) =
    Done (match (descend k c t).2 with Leaf => None | GNode _ _ _ v _ => Some v end, counted tree n).
Proof.
  intros Hpos <-. revert tree c t Hpos.
  induction fuel as [|fuel IH]; intros tree c t Hpos Hlen; [lia|]. cbn [find_walk].
  destruct t as [|l p k' v r]; cbn [ptr_of].
  { exists (comparison_count tree). simpl. by destruct tree. }
  rewrite (get_pos _ _ _ _ _ _ _ _ Hpos). cbn [mbind outcome_bind key left right descend record].
  simpl in Hlen. rewrite length_app in Hlen. simpl in Hlen.
  case_decide as Hk; [by eexists|].
  walk_children IH (add_comparison (add_comparison tree)) Hpos l p k' v r c k.
Qed.

Lemma remove_walk_ok fuel tree k c t st :
  at_pos st (root tree) c t -> nodes tree = st -> (length (elems t) < fuel)%nat ->
  exists n, remove_walk fuel tree k (ptr_of t) = Done (ptr_of (descend k c t).2, counted tree n).
Proof.
  intros Hpos <-. revert tree c t Hpos.
  induction fuel as [|fuel IH]; intros tree c t Hpos Hlen; [lia|]. cbn [remove_walk].
  destruct t as [|l p k' v r]; cbn [ptr_of].
  { exists (comparison_count tree). simpl. by destruct tree. }
  rewrite (get_pos _ _ _ _ _ _ _ _ Hpos). cbn [mbind outcome_bind key left right descend].
  simpl in Hlen. rewrite length_app in Hlen. simpl in Hlen.
  destruct (decide (k' = k)) as [->|Hk].
  { rewrite decide_True by done. exists (comparison_count tree). simpl. by destruct tree. }
  rewrite (decide_False (P := k = k')) by congruence.
  walk_children IH (add_comparison tree) Hpos l p k' v r c k.
Qed.

(** The nearest smaller key of a descent is the last node on its left. *)
Lemma last_before_get st rt q c e :
  cshape st rt q c -> last (before c) = Some e ->
  exists n, st !! e.1 = Some n /\ key n = e.2.1 /\ record n = e.2.2.
Proof.
  revert q. induction c as [|[p k v r|l p k v] c IH]; intros q; simpl; [done| |].
  - intros (_ & _ & Hc) He. eauto.
  - intros (Hp & _) He. rewrite app_assoc, last_snoc in He. simplify_eq/=. eauto.
Qed.

Lemma nearest_walk_ok fuel tree k c t st :
  at_pos st (root tree) c t -> nodes tree = st -> bst t ->
  (forall e, last (before c) = Some e -> Forall (key_lt e) (elems t)) ->
  (length (elems t) < fuel)%nat ->
  exists m, nearest_walk fuel tree k (ptr_of t) (fst <$> last (before c)) =
    Done (match (descend k c t).2 with
          | Leaf => (fun e : entry => e.2.2) <$> last (before (descend k c t).1)
          | GNode _ _ _ v _ => Some v
          end, counted tree m).
Proof.
  intros Hpos <-. revert tree c t Hpos.
  induction fuel as [|fuel IH]; intros tree c t Hpos Hs Hlast Hlen; [lia|]. cbn [nearest_walk].
  destruct t as [|l p k' v r]; cbn [ptr_of].
  { exists (comparison_count tree). simpl. destruct Hpos as [_ Hc]. destruct tree as [rt nc cc st].
    destruct (last (before c)) as [e|] eqn:He; simpl; [|done].
    destruct (last_before_get _ _ _ _ _ Hc He) as (n & Hn & _ & <-).
    simpl in Hn. by rewrite Hn. }
  rewrite (get_pos _ _ _ _ _ _ _ _ Hpos). cbn [mbind outcome_bind key left right descend record].
  simpl in Hlen. rewrite length_app in Hlen. simpl in Hlen.
  case_decide as Hk; [by eexists|]. apply bst_node in Hs as (Hsl & Hsr & Hl & Hr).
  destruct (decide (k' < k)) as [Hlt|Hge].
  - assert (Hn : (match fst <$> last (before c) with
        | None => Done (Some p)
        | Some _ => nn ← get (add_comparison (add_comparison tree)) (fst <$> last (before c));
            Done (if decide (key nn < k') then Some p else fst <$> last (before c))
        end) = Done (Some p)).
    { destruct (last (before c)) as [e|] eqn:He; simpl; [|done].
      destruct (last_before_get _ _ _ _ _ (proj2 Hpos) He) as (n & Hn & Hkn & _).
      rewrite Hn. simpl. rewrite decide_True; [done|]. rewrite Hkn. specialize (Hlast e eq_refl).
      simpl in Hlast. apply Forall_app in Hlast as [_ Hlast%Forall_inv]. exact Hlast. }
    rewrite Hn. cbn [mbind outcome_bind].
    destruct (IH (add_comparison (add_comparison tree)) (InRight l p k' v :: c) r) as (m & Hm);
      [by apply (at_pos_up _ _ (InRight l p k' v))|done| |lia|].
    { simpl. intros e. rewrite app_assoc, last_snoc. intros [= <-].
      eapply Forall_impl; [exact Hr|]. done. }
    simpl before in Hm. rewrite app_assoc, last_snoc in Hm. exists m. exact Hm.
  - refine (IH (add_comparison (add_comparison tree)) (InLeft p k' v r :: c) l _ Hsl _ _);
      [by apply (at_pos_up _ _ (InLeft p k' v r))| |lia].
    intros e He. specialize (Hlast e He). simpl in Hlast. by apply Forall_app in Hlast as [? _].
Qed.

(** ** Unlinking *)

(** The place of [u] is given to the subtree [t]. *)
Lemma replace_ok tree u n c t par :
  nodes tree !! u = Some n -> parent n = parent_of c -> u ∉ clocs c -> u ∉ locs t ->
  cshape (nodes tree) (root tree) (Some u) c -> shape (nodes tree) par t ->
  NoDup (locs t) -> ctx_nodup c -> (forall q, q ∈ locs t -> q ∉ clocs c) ->
  exists st, replace tree (Some u) (ptr_of t) =
      Done (with_st tree (redirect_root (root tree) (ptr_of t) c) st) /\
    at_pos st (redirect_root (root tree) (ptr_of t) c) c t /\ dom st = dom (nodes tree) /\
    forall q, q ∉ locs t -> q ∉ clocs c -> st !! q = nodes tree !! q.
Proof.
  intros Hu Hn Huc Hut Hc Ht Hnt Hnc Hd. unfold replace.
  rewrite (relink_ok _ _ _ _ _ Hu Hn Huc Hc). cbn [mbind outcome_bind].
  set (st1 := redirect (nodes tree) (ptr_of t) c).
  set (tr1 := with_st tree (redirect_root (root tree) (ptr_of t) c) st1).
  assert (H1u : nodes tr1 !! u = Some n) by (simpl; unfold st1; by rewrite redirect_ne).
  assert (Ht1 : shape (nodes tr1) par t).
  { eapply shape_frame; [|done]. intros q Hq. apply redirect_ne. auto. }
  assert (Hset : match ptr_of t with
    | None => Done tr1
    | Some _ => n ← get tr1 (Some u); set_parent tr1 (ptr_of t) (parent n)
    end = Done (with_st tr1 (root tr1) (reparent (nodes tr1) (parent_of c) t))).
  { rewrite <- (set_parent_ok tr1 (parent_of c) t par Ht1). destruct (ptr_of t); [|done].
    rewrite (get_ok _ _ _ H1u). simpl. by rewrite Hn. }
  rewrite Hset. eexists. split; [done|]. split; [split|split].
  - by eapply shape_reparent.
  - eapply cshape_frame; [|by eapply cshape_redirect]. intros q Hq. apply reparent_ne.
    intros Hqt. by apply (Hd q).
  - rewrite dom_reparent. simpl. unfold st1. by rewrite dom_redirect.
  - intros q Hqt Hqc. rewrite reparent_ne by done. simpl. unfold st1. by rewrite redirect_ne.
Qed.

(** The minimum of a subtree is at the end of a path of left children. *)
Lemma subtree_minimum_ok fuel tree c l p k v r :
  at_pos (nodes tree) (root tree) c (GNode l p k v r) ->
  (length (elems (GNode l p k v r)) <= fuel)%nat ->
  exists c' y ky vy d, subtree_minimum fuel tree (Some p) = Done (Some y) /\
    plug c' (GNode Leaf y ky vy d) = GNode l p k v r /\ Forall (fun f => exists p k v r, f = InLeft p k v r) c'.
Proof.
  revert fuel c p k v r. induction l as [|ll IHl lp lk lv lr _]; intros fuel c p k v r Hpos Hlen;
    (destruct fuel as [|fuel]; [cbn [elems] in Hlen; rewrite length_app in Hlen; simpl in Hlen; lia|]);
    cbn [subtree_minimum]; rewrite (get_pos _ _ _ _ _ _ _ _ Hpos);
    cbn [mbind outcome_bind left ptr_of].
  - exists [], p, k, v, r. split_done.
  - destruct (IHl fuel (InLeft p k v r :: c) lp lk lv lr) as (c' & y & ky & vy & d & Hm & Hp & Hf).
    { by apply at_pos_up. }
    { simpl in *. rewrite !length_app in Hlen. rewrite length_app. simpl in *. lia. }
    exists (c' ++ [InLeft p k v r]), y, ky, vy, d. split_done.
    + assert (forall c1 c2 (t : gtree V), plug (c1 ++ c2) t = plug c2 (plug c1 t)) as Happ.
      { intros c1. induction c1; intros; simpl; auto. }
      rewrite Happ, Hp. done.
    + apply Forall_app. split; [done|]. constructor; [by eexists _, _, _, _|constructor].
Qed.

(** The end of a removal: [y], the minimum of the right subtree, takes the place
    of [z] and its left subtree. *)
Definition take_place tree (z y : ptr) : outcome (tree_t V) :=
  tree ← replace tree z y;
  n ← get tree z;
  tree ← set_left tree y (left n);
  yn ← get tree y;
  set_parent tree (left yn) y.

Lemma take_place_ok tree a z kz vz y ky vy d rz par :
  let t := GNode Leaf y ky vy d in
  NoDup (locs (GNode a z kz vz t)) -> a <> Leaf -> root tree = Some z ->
  nodes tree !! z = Some (SNode (ptr_of a) rz None kz vz) ->
  shape (nodes tree) (Some z) a -> shape (nodes tree) par t ->
  exists st, take_place tree (Some z) (Some y) = Done (with_st tree (Some y) st) /\
    shape st None (GNode a y ky vy d) /\ dom st = dom (nodes tree) /\ st !! z = nodes tree !! z.
Proof.
  intros t Hnd Ha Hrt Hz Hsa Ht.
  destruct (nodup_node _ _ _ _ _ Hnd) as (Hna & Hnt & Hza & Hzt & Hat).
  destruct (nodup_node _ _ _ _ _ Hnt) as (_ & Hndd & _ & Hyd & _).
  assert (Hay : forall q, q ∈ locs a -> q <> y /\ q ∉ locs d).
  { intros q Hq. specialize (Hat q Hq). unfold t in Hat. rewrite elem_of_locs in Hat. tauto. }
  assert (Hzy : z <> y) by (intros ->; apply Hzt; unfold t; rewrite elem_of_locs; auto).
  assert (Hnil : forall q, q ∉ clocs (V := V) []) by (intros q; apply not_elem_of_nil).
  unfold take_place.
  destruct (replace_ok tree z _ [] t par Hz eq_refl (Hnil z) Hzt) as (st1 & Hrep & [Hs1 _] & Hd1 & Hf1);
    [by simpl; rewrite Hrt|done|done|constructor|intros; apply Hnil|].
  simpl ptr_of in Hrep. rewrite Hrep. cbn [mbind outcome_bind redirect_root].
  assert (H1z : st1 !! z = nodes tree !! z) by (by apply Hf1).
  simpl redirect_root. rewrite (get_ok (with_st tree (Some y) st1) z _ (eq_trans H1z Hz)).
  cbn [mbind outcome_bind left]. destruct Hs1 as (H1y & _ & H1d). unfold set_left.
  rewrite (update_ok (with_st tree (Some y) st1) y _ _ H1y). cbn [mbind outcome_bind root with_st nodes].
  set (st2 := alter _ y st1).
  assert (H2y : st2 !! y = Some (SNode (ptr_of a) (ptr_of d) None ky vy)).
  { unfold st2. by rewrite lookup_alter_eq, H1y. }
  rewrite with_st_with_st, (get_ok (with_st tree (Some y) st2) y _ H2y). cbn [mbind outcome_bind left].
  assert (H2a : shape st2 (Some z) a).
  { eapply shape_frame; [|exact Hsa]. intros q Hq. destruct (Hay q Hq). unfold st2.
    rewrite lookup_alter_ne by congruence. apply Hf1; [by apply Hat|apply Hnil]. }
  pose proof (set_parent_ok (with_st tree (Some y) st2) (Some y) a (Some z) H2a) as Hset.
  destruct a as [|la pa ka va ra]; [done|]. cbn [ptr_of] in Hset |- *. rewrite Hset. clear Hset.
  set (a := GNode la pa ka va ra) in *. eexists. split; [done|]. simpl nodes.
  split; [|split].
  - split; [|split].
    + rewrite reparent_ne; [exact H2y|]. intros Hq. by destruct (Hay y Hq).
    + by eapply shape_reparent.
    + eapply shape_frame; [|exact H1d]. intros q Hq. rewrite reparent_ne.
      2:{ intros Hq'. by destruct (Hay q Hq'). }
      apply lookup_alter_ne. congruence.
  - rewrite dom_reparent. unfold st2. by rewrite dom_alter_L.
  - rewrite reparent_ne by done. unfold st2. by rewrite lookup_alter_ne by congruence.
Qed.

Lemma elems_left_path c t t' :
  Forall (fun f => exists p k v r, f = InLeft p k v r) c ->
  exists es, elems (plug c t) = elems t ++ es /\ elems (plug c t') = elems t' ++ es.
Proof.
  intros Hc. exists (after c). rewrite !elems_plug.
  assert (before c = []) as ->; [|done].
  induction Hc as [|f c (p & k & v & r & ->) _ IH]; done.
Qed.

Lemma locs_plug c t q : q ∈ locs t -> q ∈ locs (plug c t).
Proof. unfold locs. rewrite elems_plug, !fmap_app. set_solver. Qed.

Lemma ptr_of_plug f c t : exists w, ptr_of (plug (f :: c) t) = Some w.
Proof. revert f t. induction c as [|g c IH]; intros f t; [destruct f; by eexists|apply (IH g)]. Qed.

(** Cutting the minimum [y], which is not a child of [z], out of the right
    subtree. *)
Lemma cut_minimum_ok tree f c a z kz vz y ky vy d :
  NoDup (locs (GNode a z kz vz (plug (f :: c) (GNode Leaf y ky vy d)))) ->
  Forall (fun f => exists p k v r, f = InLeft p k v r) (f :: c) ->
  root tree = Some z -> shape (nodes tree) None (GNode a z kz vz (plug (f :: c) (GNode Leaf y ky vy d))) ->
  let b' := plug (f :: c) d in
  exists st rz par,
    (tree ← replace tree (Some y) (ptr_of d);
     n ← get tree (Some z);
     tree ← set_right tree (Some y) (right n);
     yn ← get tree (Some y);
     set_parent tree (right yn) (Some y)) = Done (with_st tree (Some z) st) /\
    st !! z = Some (SNode (ptr_of a) rz None kz vz) /\ shape st (Some z) a /\
    shape st par (GNode Leaf y ky vy b') /\ dom st = dom (nodes tree) /\
    NoDup (locs (GNode a z kz vz (GNode Leaf y ky vy b'))).
Proof.
  intros Hnd Hleft Hrt Hs b'.
  set (ctxt := (f :: c) ++ [InRight a z kz vz]).
  assert (Hplug : forall t, plug ctxt t = GNode a z kz vz (plug (f :: c) t)).
  { intros t. unfold ctxt. generalize (f :: c). clear. intros c. revert t.
    induction c as [|g c IH]; intros t; simpl; auto. }
  assert (Hpos : at_pos (nodes tree) (root tree) ctxt (GNode Leaf y ky vy d)).
  { unfold ctxt. apply at_pos_plug. apply (at_pos_up _ _ (InRight a z kz vz)). simpl.
    split; [exact Hs|exact Hrt]. }
  rewrite <- Hplug in Hnd. destruct (nodup_pos _ _ Hnd) as (Hny & Hnc & Hyc).
  destruct (nodup_node _ _ _ _ _ Hny) as (_ & Hndd & _ & Hyd & _).
  destruct Hpos as [(Hy & _ & Hd) Hc].
  assert (Hyc' : y ∉ clocs ctxt) by (apply Hyc; rewrite elem_of_locs; auto).
  destruct (replace_ok tree y _ ctxt d (Some y) Hy eq_refl Hyc' Hyd) as (st1 & Hrep & Hpos1 & Hd1 & Hf1);
    [done|done|done|done|intros q Hq; apply Hyc; rewrite elem_of_locs; auto|].
  rewrite Hrep. cbn [mbind outcome_bind].
  assert (redirect_root (root tree) (ptr_of d) ctxt = Some z) as Hrr by (simpl; exact Hrt).
  rewrite Hrr in *. unfold ctxt in Hpos1. apply at_pos_plug, at_pos_up in Hpos1. fold b' in Hpos1.
  destruct Hpos1 as [(H1z & H1a & H1b) _].
  rewrite (get_ok (with_st tree (Some z) st1) z _ H1z). cbn [mbind outcome_bind right].
  assert (H1y : st1 !! y = nodes tree !! y) by (by apply Hf1).
  unfold set_right. rewrite (update_ok (with_st tree (Some z) st1) y _ _ (eq_trans H1y Hy)).
  cbn [mbind outcome_bind root with_st nodes]. set (st2 := alter _ y st1).
  assert (H2y : st2 !! y = Some (SNode None (ptr_of b') (parent_of ctxt) ky vy)).
  { unfold st2. by rewrite lookup_alter_eq, H1y, Hy. }
  rewrite with_st_with_st, (get_ok (with_st tree (Some z) st2) y _ H2y). cbn [mbind outcome_bind right].
  destruct (elems_left_path _ (GNode Leaf y ky vy d) d Hleft) as (es & E1 & E2).
  assert (Hsame : elems (GNode a z kz vz (GNode Leaf y ky vy b')) =
                  elems (plug ctxt (GNode Leaf y ky vy d))).
  { rewrite Hplug. cbn [elems]. rewrite E1. unfold b'. rewrite E2. done. }
  assert (Hnd' : NoDup (locs (GNode a z kz vz (GNode Leaf y ky vy b')))).
  { unfold locs. by rewrite Hsame. }
  destruct (nodup_node _ _ _ _ _ Hnd') as (Hna & Hnt & Hza & Hzt & Hat).
  destruct (nodup_node _ _ _ _ _ Hnt) as (_ & Hnb & _ & Hyb & _).
  rewrite elem_of_locs in Hzt.
  assert (Hb2 : shape st2 (Some z) b').
  { eapply shape_frame; [|exact H1b]. intros q Hq. apply lookup_alter_ne. intros ->. done. }
  pose proof (set_parent_ok (with_st tree (Some z) st2) (Some y) b' (Some z) Hb2) as Hset.
  destruct (ptr_of_plug f c d) as [w Hw]. fold b' in Hw. rewrite Hw in Hset |- *. rewrite Hset.
  cbn [root with_st nodes]. eexists _, _, _. split; [done|].
  assert (Hy2 : forall q, q ∉ locs b' -> q <> y -> reparent st2 (Some y) b' !! q = st1 !! q).
  { intros q Hq Hne. rewrite reparent_ne by done. apply lookup_alter_ne. congruence. }
  split; [rewrite Hy2; [exact H1z|tauto|intros ->; tauto]|].
  split; [|split; [|split; [|exact Hnd']]].
  - eapply shape_frame; [|exact H1a]. intros q Hq. specialize (Hat q Hq).
    rewrite elem_of_locs in Hat. apply Hy2; tauto.
  - split; [rewrite reparent_ne by done; exact H2y|]. split; [done|]. by eapply shape_reparent.
  - rewrite dom_reparent. unfold st2. by rewrite dom_alter_L.
Qed.

Lemma unlink_root_ok tree a z kz vz b :
  nodes_of (nodes tree) (GNode a z kz vz b) ->
  at_pos (nodes tree) (root tree) [] (GNode a z kz vz b) ->
  exists st t', unlink_root tree (Some z) = Done (with_st tree (ptr_of t') st) /\
    shape st None t' /\ elems t' = elems a ++ elems b /\ dom st = dom (nodes tree) /\
    exists n, st !! z = Some n /\ record n = vz.
Proof.
  intros Hn [Hs Hrt]. pose proof Hs as (Hz & Ha & Hb). simpl in Hrt. pose proof (proj1 Hn) as Hnd.
  destruct (nodup_node _ _ _ _ _ Hnd) as (Hna & Hnb & Hza & Hzb & Hab).
  assert (Hnil : forall q, q ∉ clocs (V := V) []) by (intros q; apply not_elem_of_nil).
  assert (Hone : forall t, z ∉ locs t -> NoDup (locs t) -> shape (nodes tree) (Some z) t ->
    exists st, replace tree (Some z) (ptr_of t) = Done (with_st tree (ptr_of t) st) /\
      shape st None t /\ dom st = dom (nodes tree) /\ exists n, st !! z = Some n /\ record n = vz).
  { intros t Hzt Hnt Ht.
    destruct (replace_ok tree z _ [] t (Some z) Hz eq_refl (Hnil z) Hzt) as (st & Hr & [Ht' _] & Hd & Hf);
      [done|done|done|constructor|intros; apply Hnil|].
    exists st. split_done. eexists. rewrite Hf, Hz by done. done. }
  unfold unlink_root. rewrite (get_ok _ _ _ Hz). cbn [mbind outcome_bind left right parent].
  destruct a as [|la pa ka va ra].
  { destruct (Hone b Hzb Hnb Hb) as (st & -> & Hb' & Hd & Hrec). exists st, b. split_done. }
  destruct b as [|lb pb kb vb rb].
  { destruct (Hone _ Hza Hna Ha) as (st & Hr & Ha' & Hd & Hrec). cbn [ptr_of] in *.
    exists st, (GNode la pa ka va ra). split_done. by rewrite app_nil_r. }
  cbn [ptr_of].
  set (a := GNode la pa ka va ra) in *. set (b := GNode lb pb kb vb rb) in *.
  destruct (subtree_minimum_ok (S (size (nodes tree))) tree [InRight a z kz vz] lb pb kb vb rb)
    as (c & y & ky & vy & d & Hmin & Hplug & Hleft).
  { apply at_pos_up. by split. }
  { rewrite (nodes_of_size _ _ Hn). simpl. rewrite (length_app (elems a)). simpl. lia. }
  fold b in Hplug. rewrite Hmin. cbn [mbind outcome_bind].
  assert (Hy : nodes tree !! y = Some (SNode None (ptr_of d) (parent_of (c ++ [InRight a z kz vz])) ky vy)).
  { assert (at_pos (nodes tree) (root tree) (c ++ [InRight a z kz vz]) (GNode Leaf y ky vy d))
      as [(Hy & _) _]; [|done].
    apply at_pos_plug. rewrite Hplug. apply at_pos_up. by split. }
  rewrite (get_ok _ _ _ Hy). cbn [mbind outcome_bind parent right].
  assert (Hfin : forall tree1 rz par d', root tree1 = Some z -> dom (nodes tree1) = dom (nodes tree) ->
    nodes tree1 !! z = Some (SNode (ptr_of a) rz None kz vz) -> shape (nodes tree1) (Some z) a ->
    shape (nodes tree1) par (GNode Leaf y ky vy d') -> NoDup (locs (GNode a z kz vz (GNode Leaf y ky vy d'))) ->
    elems (GNode Leaf y ky vy d') = elems b ->
    exists st t', take_place tree1 (Some z) (Some y) = Done (with_st tree1 (ptr_of t') st) /\
      shape st None t' /\ elems t' = elems a ++ elems b /\ dom st = dom (nodes tree) /\
      exists n, st !! z = Some n /\ record n = vz).
  { intros tree1 rz par d' Hr1 Hd1 Hz1 Ha1 Hy1 Hnd1 He.
    destruct (take_place_ok tree1 a z kz vz y ky vy d' rz par Hnd1) as (st & -> & Ht' & Hd' & Hz'); try done.
    exists st, (GNode a y ky vy d'). split_done; [simpl in *; by rewrite He|by rewrite Hd'|].
    eexists. by rewrite Hz', Hz1. }
  destruct c as [|f c].
  - rewrite decide_False by (simpl; tauto). cbn [mbind outcome_bind]. simpl in Hplug.
    apply (Hfin tree (Some pb) (Some z) d); [done|done|done|done|by rewrite Hplug| |by rewrite Hplug].
    by rewrite Hplug.
  - assert (Hne : frame_loc f <> z).
    { intros <-. apply Hzb. rewrite <- Hplug. apply (locs_plug c (plug1 f _)).
      destruct f; cbn [plug1 frame_loc]; rewrite elem_of_locs; tauto. }
    rewrite decide_True by (simpl; congruence).
    rewrite <- Hplug in Hs, Hnd.
    destruct (cut_minimum_ok tree f c a z kz vz y ky vy d Hnd Hleft (eq_sym (eq_sym Hrt)) Hs)
      as (st1 & rz & par & Hcut & Hz1 & Ha1 & Hy1 & Hd1 & Hnd1).
    cbn [ptr_of] in Hcut |- *. rewrite Hcut. cbn [mbind outcome_bind].
    apply (Hfin (with_st tree (Some z) st1) rz par (plug (f :: c) d)); try done.
    destruct (elems_left_path _ (GNode Leaf y ky vy d) d Hleft) as (es & E1 & E2).
    rewrite <- Hplug, E1. simpl. simpl in E2. by rewrite E2.
Qed.
End splay.
