(* ===== verification/STreeMap.v ===== *)
(** * The splay tree refines a finite map

    The interface of [stree.c] against a map from keys to records: [rep] relates
    a tree in memory and a map, every operation takes related states to related
    states with the results the map gives, and [tree_free] frees every node. *)

From Stdlib Require Import ZArith Lia.
From stdpp Require Import gmap list sorting.
From S2P Require Import Prelude STree STreeShape STreeOps.

(** ** The abstract map *)

Section spec.
Context {V : Type}.

Inductive op := Insert (k : Z) (v : V) | Find (k : Z) | Nearest (k : Z) | Remove (k : Z).
Inductive result := RBool (b : bool) | RRecord (r : option V).

(** The record of the largest key that is at most [k]. *)
Definition is_nearest (m : gmap Z V) (k : Z) (r : option V) : Prop :=
  match r with
  | None => forall j, is_Some (m !! j) -> k < j
  | Some v => exists j, m !! j = Some v /\ j <= k /\ forall i, is_Some (m !! i) -> i <= k -> i <= j
  end.

Inductive spec_op (m : gmap Z V) : op -> result -> gmap Z V -> Prop :=
  | spec_insert_new k v : m !! k = None -> spec_op m (Insert k v) (RBool true) (<[k := v]> m)
  | spec_insert_old k v : is_Some (m !! k) -> spec_op m (Insert k v) (RBool false) m
  | spec_find k : spec_op m (Find k) (RRecord (m !! k)) m
  | spec_nearest k r : is_nearest m k r -> spec_op m (Nearest k) (RRecord r) m
  | spec_remove k : spec_op m (Remove k) (RRecord (m !! k)) (delete k m).

Inductive spec_ops : gmap Z V -> list op -> list result -> gmap Z V -> Prop :=
  | spec_nil m : spec_ops m [] [] m
  | spec_cons m o r m' os rs m'' :
      spec_op m o r m' -> spec_ops m' os rs m'' -> spec_ops m (o :: os) (r :: rs) m''.
End spec.
Arguments op V : clear implicits.
Arguments result V : clear implicits.

(** ** Running operations on the tree *)

Section runs.
Context `{Malloc} {V : Type}.

Definition run_op (tree : tree_t V) (o : op V) : outcome (result V * tree_t V) :=
  match o with
  | Insert k v => '(b, tree) ← tree_insert tree k v; Done (RBool b, tree)
  | Find k => '(r, tree) ← tree_find tree k; Done (RRecord r, tree)
  | Nearest k => '(r, tree) ← tree_find_nearest tree k; Done (RRecord r, tree)
  | Remove k => '(r, tree) ← tree_remove tree k; Done (RRecord r, tree)
  end.

Fixpoint run_ops (tree : tree_t V) (os : list (op V)) : outcome (list (result V) * tree_t V) :=
  match os with
  | [] => Done ([], tree)
  | o :: os => '(r, tree) ← run_op tree o; '(rs, tree) ← run_ops tree os; Done (r :: rs, tree)
  end.
End runs.

(** ** The representation *)

Section rep.
Context `{Malloc} {V : Type}.
Implicit Types (tree : tree_t V) (t : gtree V) (c : ctx V) (es : list (entry (V := V))).

Definition as_map es : gmap Z V := list_to_map es.*2.

Record stree_ok tree t : Prop := {
  so_nodes : nodes_of (nodes tree) t;
  so_pos : at_pos (nodes tree) (root tree) [] t;
  so_bst : bst t;
  so_count : node_count tree = Z.of_nat (length (elems t));
  so_room : u64 (node_count tree)
}.
Definition rep tree (m : gmap Z V) : Prop := exists t, stree_ok tree t /\ m = as_map (elems t).

Lemma sorted_nodup es : StronglySorted key_lt es -> NoDup es.*2.*1.
Proof.
  induction es as [|e es IH]; [constructor|]. rewrite StronglySorted_cons. intros [Hf Hs].
  simpl. constructor; [|auto]. rewrite <- list_fmap_compose. intros (e' & He & Hin)%list_elem_of_fmap.
  rewrite Forall_forall in Hf. specialize (Hf _ Hin). unfold key_lt in Hf. simpl in He. lia.
Qed.

Lemma as_map_lookup es k v :
  StronglySorted key_lt es -> as_map es !! k = Some v <-> exists p, (p, (k, v)) ∈ es.
Proof.
  intros Hs. unfold as_map. rewrite <- elem_of_list_to_map by (by apply sorted_nodup).
  rewrite list_elem_of_fmap. split.
  - intros ([p kv] & -> & Hin). by exists p.
  - intros (p & Hin). exists (p, (k, v)). done.
Qed.

Lemma as_map_none es k :
  StronglySorted key_lt es -> as_map es !! k = None <-> forall e, e ∈ es -> e.2.1 <> k.
Proof.
  intros Hs. rewrite eq_None_not_Some. split.
  - intros Hn [p [k' v]] Hin Hk. simpl in Hk. subst k'. apply Hn. exists v.
    apply as_map_lookup; [done|]. by exists p.
  - intros Hn [v Hv]. apply as_map_lookup in Hv as [p Hin]; [|done]. by apply (Hn _ Hin).
Qed.

Lemma as_map_middle es es' p k v :
  StronglySorted key_lt (es ++ (p, (k, v)) :: es') ->
  as_map (es ++ (p, (k, v)) :: es') = <[k := v]> (as_map (es ++ es')).
Proof.
  intros Hs. unfold as_map.
  change (<[k := v]> (list_to_map (es ++ es').*2)) with
    (list_to_map ((k, v) :: (es ++ es').*2) : gmap Z V).
  apply list_to_map_proper; [by apply sorted_nodup|].
  rewrite !fmap_app, fmap_cons. simpl. by rewrite Permutation_middle.
Qed.

Lemma as_map_size es : StronglySorted key_lt es -> size (as_map es) = length es.
Proof.
  intros Hs. unfold as_map. rewrite map_size_list_to_map by (by apply sorted_nodup).
  by rewrite length_fmap.
Qed.

(** The keys around the position where a search ends. *)
Lemma search_end k t :
  bst t -> let '(c, t') := descend k [] t in
  around k c /\ elems t = before c ++ elems t' ++ after c /\
  match t' with
  | Leaf => as_map (elems t) !! k = None
  | GNode _ _ k' v _ => k' = k /\ as_map (elems t) !! k = Some v
  end.
Proof.
  intros Hb. assert (around k ([] : ctx V)) as Hnil by (by split).
  destruct (descend_around k [] t Hb Hnil) as [Ha Ht]. pose proof (descend_plug k [] t) as Hp.
  destruct (descend k [] t) as [c t']. simpl in *. subst t. rewrite elems_plug. split_done.
  unfold bst in Hb. rewrite elems_plug in Hb. destruct t' as [|l p k' v r]; simpl in *.
  - apply as_map_none; [done|]. destruct Ha as [H1 H2]. rewrite Forall_forall in H1, H2.
    intros e [He|He]%elem_of_app; [specialize (H1 _ He)|specialize (H2 _ He)]; simpl in *; lia.
  - split; [done|]. subst k'. apply as_map_lookup; [done|]. exists p. set_solver.
Qed.

(** A change of the comparison count is invisible. *)
Lemma stree_ok_counted tree t n : stree_ok tree t -> stree_ok (counted tree n) t.
Proof. intros []. split; done. Qed.

Lemma fuel_ok tree t : stree_ok tree t -> (length (elems t) < S (size (nodes tree)))%nat.
Proof. intros Hok. rewrite (nodes_of_size _ _ (so_nodes _ _ Hok)). lia. Qed.

Lemma root_ptr tree t : stree_ok tree t -> root tree = ptr_of t.
Proof. intros Hok. apply (so_pos _ _ Hok). Qed.

Lemma tree_find_ok tree m k :
  rep tree m -> exists tree', tree_find tree k = Done (m !! k, tree') /\ rep tree' m.
Proof.
  intros (t & Hok & ->). unfold tree_find. rewrite (root_ptr _ _ Hok).
  destruct (find_walk_ok (S (size (nodes tree))) tree k [] t _ (so_pos _ _ Hok) eq_refl (fuel_ok _ _ Hok))
    as (n & ->).
  pose proof (search_end k t (so_bst _ _ Hok)) as Hend. destruct (descend k [] t) as [c t'].
  destruct Hend as (_ & _ & Hk). exists (counted tree n). split.
  - destruct t'; simpl; [by rewrite Hk|by rewrite (proj2 Hk)].
  - exists t. split; [by apply stree_ok_counted|done].
Qed.

Lemma tree_find_nearest_ok tree m k :
  rep tree m -> exists r tree', tree_find_nearest tree k = Done (r, tree') /\ is_nearest m k r /\
    rep tree' m.
Proof.
  intros (t & Hok & ->). unfold tree_find_nearest. rewrite (root_ptr _ _ Hok).
  destruct (nearest_walk_ok (S (size (nodes tree))) tree k [] t _ (so_pos _ _ Hok) eq_refl
    (so_bst _ _ Hok) ltac:(done) (fuel_ok _ _ Hok)) as (n & Hw).
  cbn [before last fmap option_fmap option_map] in Hw. rewrite Hw. clear Hw.
  pose proof (search_end k t (so_bst _ _ Hok)) as Hend. destruct (descend k [] t) as [c t'].
  destruct Hend as ((Hbf & Haf) & He & Hk). pose proof (so_bst _ _ Hok) as Hb. unfold bst in Hb.
  eexists _, (counted tree n). split; [done|]. split; [|exists t; split; [by apply stree_ok_counted|done]].
  simpl. destruct t' as [|l p k' v r]; simpl.
  2:{ destruct Hk as [-> Hk]. exists k. split_done. }
  rewrite Forall_forall in Hbf, Haf.
  assert (Hwhere : forall j, is_Some (as_map (elems t) !! j) -> j <= k -> exists e, e ∈ before c /\ e.2.1 = j).
  { intros j [w Hj] Hjk. apply as_map_lookup in Hj as [p Hin]; [|done]. rewrite He in Hin. simpl in Hin.
    apply elem_of_app in Hin as [Hin|Hin]; [by exists (p, (j, w))|].
    specialize (Haf _ Hin). simpl in Haf. lia. }
  destruct (last (before c)) as [[p [j w]]|] eqn:Hl; simpl.
  - apply last_Some in Hl as [es Hes]. exists j. split_done.
    + apply as_map_lookup; [done|]. exists p. rewrite He, Hes. set_solver.
    + specialize (Hbf (p, (j, w))). simpl in Hbf. rewrite Hes in Hbf.
      specialize (Hbf ltac:(set_solver)). lia.
    + intros i Hi Hik. destruct (Hwhere i Hi Hik) as (e & Hin & <-). rewrite Hes in Hin.
      apply elem_of_app in Hin as [Hin| ->%list_elem_of_singleton]; [|simpl; lia].
      rewrite He, Hes, <- app_assoc in Hb. simpl in Hb.
      apply (StronglySorted_app_1_elem_of _ _ _ e (p, (j, w))) in Hb; [|done|set_solver].
      unfold key_lt in Hb. simpl in Hb. lia.
  - apply last_None in Hl. intros j Hj. destruct (decide (j <= k)) as [Hle|]; [|lia].
    destruct (Hwhere j Hj Hle) as (e & Hin & _). rewrite Hl in Hin. by apply not_elem_of_nil in Hin.
Qed.

Lemma nodes_of_fresh st t l : nodes_of st t -> l ∉ dom st -> l ∉ locs t.
Proof. intros [_ Hd] Hl. by rewrite Hd, elem_of_list_to_set in Hl. Qed.

(** The new node in its place, before the splay. *)
Lemma attach_ok tree c l k v :
  nodes_of (nodes tree) (plug c Leaf) -> at_pos (nodes tree) (root tree) c Leaf -> around k c ->
  l ∉ dom (nodes tree) ->
  exists tree', (let tree := with_st tree (root tree) (<[l := SNode None None (parent_of c) k v]> (nodes tree)) in
      match parent_of c with
      | None => Done (set_root tree (Some l))
      | Some _ =>
          pn ← get tree (parent_of c);
          if decide (key pn < k) then set_right tree (parent_of c) (Some l)
          else set_left tree (parent_of c) (Some l)
      end) = Done tree' /\
    node_count tree' = node_count tree /\
    nodes_of (nodes tree') (plug c (GNode Leaf l k v Leaf)) /\
    at_pos (nodes tree') (root tree') c (GNode Leaf l k v Leaf).
Proof.
  intros Hn [_ Hc] Hk Hl. pose proof (nodes_of_fresh _ _ _ Hn Hl) as Hlt.
  assert (Hlc : l ∉ clocs c).
  { unfold locs in Hlt. rewrite elems_plug in Hlt. unfold clocs. simpl in Hlt. by rewrite fmap_app in Hlt. }
  destruct Hn as [Hnd Hdom].
  assert (Hnc : ctx_nodup c) by apply (nodup_pos _ _ Hnd).
  set (st1 := <[l := SNode None None (parent_of c) k v]> (nodes tree)).
  assert (Hc1 : cshape st1 (root tree) None c).
  { eapply cshape_frame; [|exact Hc]. intros q Hq. unfold st1. rewrite lookup_insert_ne; [done|].
    intros ->. done. }
  assert (Hd1 : dom st1 = {[l]} ∪ dom (nodes tree)) by (unfold st1; by rewrite dom_insert_L).
  exists (with_st tree (redirect_root (root tree) (Some l) c) (redirect st1 (Some l) c)). split_done.
  - destruct c as [|[p k' v' r|a p k' v'] c]; cbn [parent_of frame_loc].
    + done.
    + destruct Hc1 as (Hp & _). cbn zeta.
      rewrite (get_ok (with_st tree (root tree) st1) p _ Hp). cbn [mbind outcome_bind key].
      destruct Hk as [_ Hk%Forall_inv]. simpl in Hk. rewrite decide_False by lia.
      unfold set_left. by rewrite (update_ok (with_st tree (root tree) st1) p _ _ Hp).
    + destruct Hc1 as (Hp & _). cbn zeta.
      rewrite (get_ok (with_st tree (root tree) st1) p _ Hp). cbn [mbind outcome_bind key].
      destruct Hk as [Hk _]. simpl in Hk. rewrite !Forall_app in Hk.
      destruct Hk as (_ & _ & Hk%Forall_inv). simpl in Hk. rewrite decide_True by lia.
      unfold set_right. by rewrite (update_ok (with_st tree (root tree) st1) p _ _ Hp).
  - assert (E : locs (plug c (GNode Leaf l k v Leaf)) ≡ₚ l :: locs (plug c Leaf)).
    { unfold locs. rewrite !elems_plug, !fmap_app. simpl. by rewrite Permutation_middle. }
    split; [rewrite E; by constructor|]. simpl. rewrite dom_redirect, Hd1, Hdom.
    apply set_eq. intros q. rewrite elem_of_union, elem_of_singleton, !elem_of_list_to_set, E.
    by rewrite elem_of_cons.
  - split; simpl.
    + rewrite redirect_ne by done. unfold st1. by rewrite lookup_insert_eq.
    + by eapply cshape_redirect.
Qed.

Lemma at_pos_nil st t : shape st None t -> at_pos st (ptr_of t) [] t.
Proof. by split. Qed.

Lemma tree_insert_ok tree m k v :
  rep tree m ->
  (is_Some (m !! k) /\ exists tree', tree_insert tree k v = Done (false, tree') /\ rep tree' m) \/
  (m !! k = None /\ malloc (dom (nodes tree)) = None /\ tree_insert tree k v = Fault (Exited 1)) \/
  (m !! k = None /\ exists tree', tree_insert tree k v = Done (true, tree') /\ rep tree' (<[k := v]> m)).
Proof.
  intros (t & Hok & ->). unfold tree_insert. rewrite (root_ptr _ _ Hok).
  destruct (insert_walk_ok (S (size (nodes tree))) tree k [] t _ (so_pos _ _ Hok) eq_refl (fuel_ok _ _ Hok))
    as (n & Hw). cbn [parent_of] in Hw. rewrite Hw. clear Hw.
  pose proof (search_end k t (so_bst _ _ Hok)) as Hend. pose proof (descend_plug k [] t) as Hp.
  destruct (descend k [] t) as [c t']. destruct Hend as (Ha & He & Hk). cbn [fst snd] in *.
  destruct t' as [|l p k' w r].
  2:{ left. split; [rewrite (proj2 Hk); by eexists|]. exists (counted tree n).
      split; [done|]. exists t. split; [by apply stree_ok_counted|done]. }
  right. cbn [mbind outcome_bind]. cbn [nodes counted].
  destruct (malloc (dom (nodes tree))) as [l|] eqn:Hm; [right|by left]. split; [done|].
  simpl in Hp. destruct Hok as [Hn Hpos Hb Hcount Hroom].
  assert (Hposc : at_pos (nodes tree) (root tree) c Leaf).
  { rewrite <- (app_nil_r c). apply at_pos_plug. by rewrite Hp. }
  destruct (attach_ok (counted tree n) c l k v) as (tree1 & Hatt & Hc1 & Hn1 & Hpos1);
    [by rewrite Hp|exact Hposc|done|by apply malloc_fresh|].
  cbn zeta in Hatt. cbn [nodes counted root] in Hatt. unfold with_st in Hatt.
  cbn [node_count comparison_count counted] in Hatt.
  cbn [root node_count comparison_count counted]. rewrite Hatt. cbn [mbind outcome_bind].
  destruct (splay_ok tree1 c Leaf l k v Leaf Hn1 Hpos1) as (st & a & b & -> & Hpos2 & Hn2 & Helems & Hd2).
  cbn [mbind outcome_bind with_st root node_count comparison_count nodes].
  eexists. split; [done|]. exists (GNode a l k v b).
  assert (Hel : elems (GNode a l k v b) = before c ++ (l, (k, v)) :: after c).
  { rewrite Helems, elems_plug. done. }
  simpl in He.
  assert (Hb' : StronglySorted key_lt (before c ++ (l, (k, v)) :: after c)).
  { unfold bst in Hb. rewrite He, StronglySorted_app in Hb. destruct Hb as (Hba & Hbb & Haa).
    destruct Ha as [H1 H2]. rewrite Forall_forall in H1, H2.
    rewrite StronglySorted_app, StronglySorted_cons. split_done.
    - intros e e' Hin [->|Hin']%elem_of_cons; [by apply H1|by apply Hba].
    - apply Forall_forall. intros e Hin. by apply H2. }
  pose proof (malloc_room _ _ Hm) as Hr. rewrite size_dom, (nodes_of_size _ _ Hn) in Hr.
  assert (Hlen : length (elems (GNode a l k v b)) = S (length (elems t))).
  { rewrite Hel, He, !length_app. simpl. lia. }
  split; [split|].
  - done.
  - done.
  - unfold bst. by rewrite Hel.
  - rewrite Hlen. cbn [node_count]. rewrite Hc1. cbn [node_count counted]. rewrite Hcount.
    rewrite add64_small by u64_lia. lia.
  - cbn [node_count]. apply wrap64_range.
  - rewrite Hel, as_map_middle by done. by rewrite He.
Qed.

Lemma tree_remove_ok tree m k :
  rep tree m ->
  exists tree', tree_remove tree k = Done (m !! k, tree') /\ rep tree' (delete k m).
Proof.
  intros (t & Hok & ->). unfold tree_remove. rewrite (root_ptr _ _ Hok).
  destruct (remove_walk_ok (S (size (nodes tree))) tree k [] t _ (so_pos _ _ Hok) eq_refl (fuel_ok _ _ Hok))
    as (n & ->).
  pose proof (search_end k t (so_bst _ _ Hok)) as Hend. pose proof (descend_plug k [] t) as Hp.
  destruct (descend k [] t) as [c t']. destruct Hend as (Ha & He & Hk). cbn [fst snd] in *.
  cbn [mbind outcome_bind]. destruct t' as [|l p k' w r]; cbn [ptr_of].
  { exists (counted tree n). rewrite Hk. split; [done|]. exists t. split; [by apply stree_ok_counted|].
    by rewrite delete_id by done. }
  destruct Hk as [-> Hk]. rewrite Hk. destruct Hok as [Hn Hpos Hb Hcount Hroom].
  simpl in Hp.
  assert (Hposc : at_pos (nodes tree) (root tree) c (GNode l p k w r)).
  { rewrite <- (app_nil_r c). apply at_pos_plug. by rewrite Hp. }
  destruct (splay_ok (counted tree n) c l p k w r) as (st1 & a & b & -> & Hpos1 & Hn1 & Hel1 & _);
    [by rewrite Hp|exact Hposc|].
  cbn [mbind outcome_bind].
  destruct (unlink_root_ok (with_st (counted tree n) (Some p) st1) a p k w b Hn1 Hpos1)
    as (st2 & t2 & -> & Hs2 & Hel2 & Hd2 & nd & Hp2 & Hrec).
  cbn [mbind outcome_bind].
  rewrite (get_ok (with_st (with_st (counted tree n) (Some p) st1) (ptr_of t2) st2) p _ Hp2).
  cbn [mbind outcome_bind]. rewrite Hrec. eexists. split; [done|]. exists t2.
  rewrite Hp in Hel1. unfold bst in Hb. rewrite <- Hel1 in Hb.
  assert (Hperm : locs (GNode a p k w b) ≡ₚ p :: locs t2).
  { unfold locs. rewrite Hel2. simpl. rewrite !fmap_app. simpl. by rewrite Permutation_middle. }
  destruct Hn1 as [Hnd1 Hdom1]. rewrite Hperm in Hnd1. apply NoDup_cons in Hnd1 as [Hpt Hnd2].
  assert (Hlen : length (elems t) = S (length (elems t2))).
  { rewrite <- Hel1, Hel2. simpl. rewrite !length_app. simpl. lia. }
  split; [split|].
  - split; [done|]. cbn [nodes with_st]. rewrite dom_delete_L, Hd2. cbn [nodes with_st]. rewrite Hdom1.
    apply set_eq. intros q. rewrite elem_of_difference, elem_of_singleton, !elem_of_list_to_set, Hperm.
    rewrite elem_of_cons. split; [tauto|]. intros Hq. split; [tauto|]. intros ->. done.
  - apply at_pos_nil. cbn [nodes with_st]. eapply shape_frame; [|exact Hs2]. intros q Hq.
    rewrite lookup_delete_ne; [done|]. intros ->. done.
  - unfold bst. rewrite Hel2. simpl in Hb. rewrite StronglySorted_app, StronglySorted_cons in Hb.
    rewrite StronglySorted_app. destruct Hb as (Hab & H1 & _ & H2). split_done.
    intros e e' Hin Hin'. apply Hab; [done|]. by apply elem_of_cons; right.
  - cbn [node_count with_st counted]. rewrite Hcount, sub64_small by u64_lia. lia.
  - cbn [node_count with_st counted]. apply wrap64_range.
  - rewrite <- Hel1, Hel2. simpl in Hb. simpl elems. rewrite as_map_middle by done.
    rewrite delete_insert_id; [done|]. apply as_map_none.
    { rewrite StronglySorted_app, StronglySorted_cons in Hb.
      rewrite StronglySorted_app. destruct Hb as (Hab & H1 & _ & H2). split_done.
      intros e e' Hin Hin'. apply Hab; [done|]. by apply elem_of_cons; right. }
    apply sorted_nodup in Hb. rewrite !fmap_app in Hb. simpl in Hb. 
    intros e Hin Heq. apply NoDup_app in Hb as (_ & Hd & [Hk' _]%NoDup_cons).
    assert (Hin' : e.2.1 ∈ (fun x : entry (V := V) => x.2.1) <$> (elems a ++ elems b)) by (apply list_elem_of_fmap; eauto).
    rewrite fmap_app, elem_of_app, Heq in Hin'. rewrite <- !list_fmap_compose in *.
    destruct Hin' as [Hin'|Hin']; [|done]. apply (Hd _ Hin'). by left.
Qed.

(** ** Freeing the tree *)

Fixpoint postorder t : list V :=
  match t with Leaf => [] | GNode l _ _ v r => postorder l ++ postorder r ++ [v] end.

Lemma postorder_elems t : postorder t ≡ₚ (elems t).*2.*2.
Proof.
  induction t as [|l IHl p k v r IHr]; simpl; [done|].
  rewrite !fmap_app, !fmap_cons. simpl. rewrite IHl, IHr. f_equiv. symmetry. apply Permutation_cons_append.
Qed.

Lemma get_node_ok (st : gmap loc (node_t V)) p n : st !! p = Some n -> get_node st (Some p) = Done n.
Proof. intros Hp. simpl. by rewrite Hp. Qed.

Lemma free_subtree_ok fuel st par t :
  shape st par t -> NoDup (locs t) -> (length (elems t) < fuel)%nat ->
  exists st', free_subtree fuel st (ptr_of t) = Done (postorder t, st') /\
    (forall q, q ∈ locs t -> st' !! q = None) /\ (forall q, q ∉ locs t -> st' !! q = st !! q).
Proof.
  revert fuel st par. induction t as [|l IHl p k v r IHr]; intros fuel st par Hs Hnd Hlen;
    (destruct fuel as [|fuel]; [lia|]); cbn [free_subtree ptr_of].
  { exists st. split_done. intros q Hq. by apply not_elem_of_nil in Hq. }
  destruct (nodup_node _ _ _ _ _ Hnd) as (Hnl & Hnr & Hpl & Hpr & Hlr).
  destruct Hs as (Hp & Hl & Hr). cbn [elems] in Hlen. rewrite length_app in Hlen. simpl in Hlen.
  rewrite (get_node_ok _ _ _ Hp). cbn [mbind outcome_bind left].
  destruct (IHl fuel st _ Hl Hnl) as (st1 & -> & Hin1 & Hout1); [lia|]. cbn [mbind outcome_bind right].
  destruct (IHr fuel st1 (Some p)) as (st2 & -> & Hin2 & Hout2); [|done|lia|].
  { eapply shape_frame; [|exact Hr]. intros q Hq. apply Hout1. intros Hq'. by apply (Hlr q). }
  cbn [mbind outcome_bind]. rewrite (get_node_ok st2 p (SNode (ptr_of l) (ptr_of r) par k v)).
  2:{ by rewrite Hout2, Hout1. }
  cbn [mbind outcome_bind record].
  eexists. split; [done|]. split; intros q; rewrite elem_of_locs.
  - intros Hq. destruct (decide (q = p)) as [->|]; [by rewrite lookup_delete_eq|].
    rewrite lookup_delete_ne by done. destruct (decide (q ∈ locs r)) as [Hqr|Hqr]; [by apply Hin2|].
    rewrite Hout2 by done. apply Hin1. tauto.
  - intros Hq. rewrite lookup_delete_ne by (intros ->; tauto). rewrite Hout2, Hout1; [done|tauto|tauto].
Qed.

Lemma tree_free_ok tree m :
  rep tree m -> exists rs, tree_free tree = Done (rs, ∅) /\ rs ≡ₚ (map_to_list m).*2.
Proof.
  intros (t & Hok & ->). unfold tree_free. rewrite (root_ptr _ _ Hok).
  pose proof Hok as [[Hnd Hdom] [Hs _] Hb _ _].
  destruct (free_subtree_ok (S (size (nodes tree))) _ _ _ Hs Hnd (fuel_ok _ _ Hok)) as (st & -> & Hin & Hout).
  exists (postorder t). split.
  - do 2 f_equal. apply map_eq. intros q. rewrite lookup_empty. destruct (decide (q ∈ locs t)); [auto|].
    rewrite Hout by done. apply not_elem_of_dom. by rewrite Hdom, elem_of_list_to_set.
  - rewrite postorder_elems. unfold as_map. rewrite map_to_list_to_map; [done|]. apply sorted_nodup, Hb.
Qed.

(** ** Theorems *)

Lemma tree_new_ok live tree : tree_new live = Done tree -> rep tree ∅.
Proof.
  unfold tree_new. case_match; [intros [= <-]|done]. exists Leaf. split; [|done].
  split; simpl; try done; [split; [constructor|done]|constructor].
Qed.

Lemma run_op_ok tree m o :
  rep tree m ->
  ((exists X, malloc X = None) /\ run_op tree o = Fault (Exited 1)) \/
  exists r tree' m', run_op tree o = Done (r, tree') /\ spec_op m o r m' /\ rep tree' m'.
Proof.
  intros Hr. destruct o as [k v|k|k|k]; simpl.
  - destruct (tree_insert_ok tree m k v Hr) as [(Hk & tree' & -> & Hr')|[(Hk & Hm & ->)|(Hk & tree' & -> & Hr')]].
    + right. eexists _, _, _. split; [done|]. split; [by constructor|done].
    + left. split; [by eexists|done].
    + right. eexists _, _, _. split; [done|]. split; [by constructor|done].
  - right. destruct (tree_find_ok tree m k Hr) as (tree' & -> & Hr').
    eexists _, _, _. split; [done|]. split; [by constructor|done].
  - right. destruct (tree_find_nearest_ok tree m k Hr) as (r & tree' & -> & Hn & Hr').
    eexists _, _, _. split; [done|]. split; [by constructor|done].
  - right. destruct (tree_remove_ok tree m k Hr) as (tree' & -> & Hr').
    eexists _, _, _. split; [done|]. split; [by constructor|done].
Qed.

Lemma run_ops_ok tree m os :
  rep tree m ->
  ((exists X, malloc X = None) /\ run_ops tree os = Fault (Exited 1)) \/
  exists rs tree' m', run_ops tree os = Done (rs, tree') /\ spec_ops m os rs m' /\ rep tree' m'.
Proof.
  revert tree m. induction os as [|o os IH]; intros tree m Hr; simpl.
  { right. eexists _, _, _. split; [done|]. split; [constructor|done]. }
  destruct (run_op_ok tree m o Hr) as [(Hm & ->)|(r & tree1 & m1 & -> & Hs1 & Hr1)]; [by left|].
  cbn [mbind outcome_bind]. destruct (IH tree1 m1 Hr1) as [(Hm & ->)|(rs & tree2 & m2 & -> & Hs2 & Hr2)];
    [by left|]. right. eexists _, _, _. split; [done|]. split; [by econstructor|done].
Qed.

(** C10: the splay tree is a finite map.  Any sequence of [tree_insert],
    [tree_find], [tree_find_nearest] and [tree_remove] on a new tree terminates
    without a fault, unless [malloc] fails and the program exits; its results are
    those of a map from keys to records (an insertion refuses a key that is there;
    the nearest record is that of the largest key not above the one asked for),
    [node_count] is the size of the map, and [tree_free] then frees every node and
    gives every record to [free_fun] once. *)
Theorem stree_refines_map (live : gset loc) (tree : tree_t V) (os : list (op V)) :
  tree_new live = Done tree ->
  ((exists X, malloc X = None) /\ run_ops tree os = Fault (Exited 1)) \/
  exists rs tree' m', run_ops tree os = Done (rs, tree') /\ spec_ops ∅ os rs m' /\
    node_count tree' = Z.of_nat (size m') /\
    exists freed, tree_free tree' = Done (freed, ∅) /\ freed ≡ₚ (map_to_list m').*2.
Proof.
  intros Hnew%tree_new_ok. destruct (run_ops_ok _ _ os Hnew) as [?|(rs & tree' & m' & Hrun & Hs & Hr)];
    [by left|right]. exists rs, tree', m'. split_done.
  - destruct Hr as (t & Hok & ->). rewrite as_map_size by apply (so_bst _ _ Hok). apply (so_count _ _ Hok).
  - by apply tree_free_ok.
Qed.

(** [splay] terminates from any node of any well-formed tree, whatever its
    depth: every round of its loop brings the node closer to the root, where it
    ends; the keys keep their order and every node its key and record. *)
Theorem splay_brings_to_root tree c a x kx vx b :
  nodes_of (nodes tree) (plug c (GNode a x kx vx b)) ->
  at_pos (nodes tree) (root tree) c (GNode a x kx vx b) ->
  exists tree' a' b', splay tree (Some x) = Done tree' /\ root tree' = Some x /\
    at_pos (nodes tree') (root tree') [] (GNode a' x kx vx b') /\
    elems (GNode a' x kx vx b') = elems (plug c (GNode a x kx vx b)) /\
    dom (nodes tree') = dom (nodes tree).
Proof.
  intros Hn Hp. destruct (splay_ok tree c a x kx vx b Hn Hp) as (st & a' & b' & -> & Hp' & _ & He & Hd).
  eexists _, a', b'. split_done.
Qed.
End rep.

(** ** Witnesses *)

Definition demo_tree : tree_t Z := Tree None 0 0 ∅.
Definition demo_ops : list (op Z) :=
  [Insert 5 50; Insert 2 20; Insert 8 80; Insert 2 21; Find 8; Nearest 7; Remove 5; Nearest 7; Find 5].

Lemma stree_refines_map_witness :
  exists tree' m', @run_ops malloc_first Z demo_tree demo_ops =
    Done ([RBool true; RBool true; RBool true; RBool false; RRecord (Some 80); RRecord (Some 50);
           RRecord (Some 50); RRecord (Some 20); RRecord None], tree') /\
    node_count tree' = Z.of_nat (size (m' : gmap Z Z)).
Proof.
  destruct (@stree_refines_map malloc_first Z ∅ demo_tree demo_ops) as [[_ E]|(rs & tree' & m' & E & _ & Hn & _)].
  - reflexivity.
  - exfalso. vm_compute in E. discriminate.
  - exists tree', m'. split; [|exact Hn]. rewrite E. f_equal. f_equal. vm_compute in E. 
    injection E as <- _. reflexivity.
Defined.

Definition demo_node (k : Z) (l r p : ptr) : node_t Z := SNode l r p k (10 * k).
(** A chain of three nodes: 3 above 2 above 1. *)
Definition demo_chain : tree_t Z :=
  Tree (Some 3%positive) 3 0
    {[3%positive := demo_node 3 (Some 2%positive) None None;
      2%positive := demo_node 2 (Some 1%positive) None (Some 3%positive);
      1%positive := demo_node 1 None None (Some 2%positive)]}.

Lemma splay_brings_to_root_witness :
  exists tree', splay demo_chain (Some 1%positive) = Done tree' /\ root tree' = Some 1%positive.
Proof.
  destruct (splay_brings_to_root demo_chain [InLeft 2 2 20 Leaf; InLeft 3 3 30 Leaf] Leaf 1 1 10 Leaf)
    as (tree' & a' & b' & E & Hr & _).
  - split; [|reflexivity]. repeat constructor; set_solver.
  - repeat split.
  - exists tree'. split; [exact E|exact Hr].
Defined.
