(* ===== verification/RangeSet.v ===== *)
(** * The range sets of the malloc lab's driver

    [assignment-2-malloclab-FreezeKickerz/mdriver.c:690-815].  The driver records
    the payload of every block the allocator gave out: a list of range records
    and a splay tree of them keyed by the lowest address.  [add_range] checks a
    new payload against the heap and its neighbours. *)

From Stdlib Require Import ZArith Lia.
From stdpp Require Import gmap list.
From S2P Require Import Prelude STree STreeShape STreeOps STreeMap MemLib.

(** ** Data and operations *)

Record range_t := Range { lo : Z; hi : Z; index : Z; next : ptr; prev : ptr }.

(** The set, and the range records that are malloc'ed. *)
Record range_set_t := RangeSet { rlist : ptr; lo_tree : tree_t loc; ranges : gmap loc range_t }.

Inductive debug_mode_t := DBG_NONE | DBG_CHEAP | DBG_EXPENSIVE.
#[export] Instance debug_mode_eq_dec : EqDecision debug_mode_t.
Proof. solve_decision. Defined.

(** What [add_range] reports through [malloc_error], or that it returns [true]. *)
Inductive verdict := Accepted | Misaligned | OutsideHeap | Overlaps (p : loc).

Definition ALIGNMENT : Z := 16.
Definition IS_ALIGNED (p : Z) : bool := p mod ALIGNMENT =? 0.

Section code.
Context `{Malloc}.
Implicit Types (rs : range_set_t).

Definition get_range rs (p : ptr) : outcome range_t :=
  match p with
  | None => Fault NullDeref
  | Some l => match ranges rs !! l with Some r => Done r | None => Fault Dangling end
  end.
Definition set_range rs (p : ptr) (f : range_t -> range_t) : outcome range_set_t :=
  r ← get_range rs p; l ← deref p; Done (RangeSet (rlist rs) (lo_tree rs) (<[l := f r]> (ranges rs))).
Definition set_list rs (p : ptr) : range_set_t := RangeSet p (lo_tree rs) (ranges rs).
Definition set_next (q : ptr) (r : range_t) : range_t := Range (lo r) (hi r) (index r) q (prev r).
Definition set_prev (q : ptr) (r : range_t) : range_t := Range (lo r) (hi r) (index r) (next r) q.

(** [if (p) p->next = q; else ranges->list = q;] and [if (p) p->prev = q;]. *)
Definition link_next rs (p q : ptr) : outcome range_set_t :=
  match p with None => Done (set_list rs q) | Some _ => set_range rs p (set_next q) end.
Definition link_prev rs (p q : ptr) : outcome range_set_t :=
  match p with None => Done rs | Some _ => set_range rs p (set_prev q) end.

Definition new_range_set (live : gset loc) : outcome range_set_t :=
  match malloc live with
  | None => Fault NullDeref
  | Some l => t ← tree_new ({[l]} ∪ live); Done (RangeSet None t ∅)
  end.

Definition add_range (mode : debug_mode_t) rs (m : mem) (a size idx : Z) : outcome (verdict * range_set_t) :=
  let top := sub64 (add64 a size) 1 in
  _ ← c_assert (0 <? size);
  if negb (IS_ALIGNED a) then Done (Misaligned, rs)
  else if (a <? mem_heap_lo m) || (mem_heap_hi m <? a) || (top <? mem_heap_lo m) || (mem_heap_hi m <? top)
  then Done (OutsideHeap, rs)
  else
    match mode with
    | DBG_NONE => Done (Accepted, rs)
    | _ =>
        '(pv, t) ← tree_find_nearest (lo_tree rs) a;
        let rs := RangeSet (rlist rs) t (ranges rs) in
        nx ← (match pv with None => Done None | Some _ => r ← get_range rs pv; Done (next r) end);
        over_prev ← (match pv with None => Done false | Some _ => r ← get_range rs pv; Done (a <=? hi r) end);
        over_next ← (match nx with None => Done false | Some _ => r ← get_range rs nx; Done (lo r <=? top) end);
        if (over_prev : bool) then p ← deref pv; Done (Overlaps p, rs)
        else if (over_next : bool) then p ← deref nx; Done (Overlaps p, rs)
        else
          match malloc (dom (ranges rs)) with
          | None => Fault (Exited 1)
          | Some l =>
              let rs := RangeSet (rlist rs) (lo_tree rs) (<[l := Range a top idx nx pv]> (ranges rs)) in
              rs ← link_next rs pv (Some l);
              rs ← link_prev rs nx (Some l);
              '(_, t) ← tree_insert (lo_tree rs) a l;
              Done (Accepted, RangeSet (rlist rs) t (ranges rs))
          end
    end.

(** [free(p)] for a range record. *)
Definition free_range rs (p : loc) : outcome range_set_t :=
  match ranges rs !! p with
  | Some _ => Done (RangeSet (rlist rs) (lo_tree rs) (delete p (ranges rs)))
  | None => Fault Dangling
  end.

Definition remove_range rs (a : Z) : outcome range_set_t :=
  '(p, t) ← tree_remove (lo_tree rs) a;
  let rs := RangeSet (rlist rs) t (ranges rs) in
  match p with
  | None => Done rs
  | Some l =>
      r ← get_range rs p;
      rs ← link_next rs (prev r) (next r);
      rs ← link_prev rs (next r) (prev r);
      free_range rs l
  end.

(** [free] on each record of the tree. *)
Fixpoint free_ranges rs (ps : list loc) : outcome range_set_t :=
  match ps with [] => Done rs | p :: ps => rs ← free_range rs p; free_ranges rs ps end.

Definition reset_range_set rs (live : gset loc) : outcome range_set_t :=
  '(ps, st) ← tree_free (lo_tree rs);
  rs ← free_ranges rs ps;
  t ← tree_new live;
  Done (RangeSet None t (ranges rs)).

(** The range records and tree nodes left. *)
Definition free_range_set rs : outcome (gmap loc range_t * gmap loc (node_t loc)) :=
  '(ps, st) ← tree_free (lo_tree rs);
  rs ← free_ranges rs ps;
  Done (ranges rs, st).
End code.
