(* ===== verification/RangeSetProps.v ===== *)
(** * Range sets: what [add_range] and [remove_range] keep and check

    The splay tree is exact: it maps the lowest address of every recorded range
    to its record ([rs_ok]).  The list is a set of chains whose links always lead
    to the next range by address; a range added below all others starts a new
    chain.  [add_range] never rejects a payload that overlaps nothing; it misses
    an overlap with the range above when no link leads there. *)

From Stdlib Require Import ZArith Lia.
From stdpp Require Import gmap list.
From S2P Require Import Prelude STree STreeShape STreeOps STreeMap MemLib RangeSet.

(** ** The invariant *)

Record links_ok (R : gmap loc range_t) : Prop := {
  lk_next p r q : R !! p = Some r -> next r = Some q -> exists rq, R !! q = Some rq /\
    prev rq = Some p /\ lo r < lo rq /\ forall s r', R !! s = Some r' -> ~ (lo r < lo r' < lo rq);
  lk_prev p r q : R !! p = Some r -> prev r = Some q -> exists rq, R !! q = Some rq /\ next rq = Some p
}.

Record rs_ok (rs : range_set_t) (m : gmap Z loc) : Prop := {
  ro_tree : rep (lo_tree rs) m;
  ro_map a p : m !! a = Some p <-> exists r, ranges rs !! p = Some r /\ lo r = a;
  ro_span p r : ranges rs !! p = Some r -> lo r <= hi r;
  ro_links : links_ok (ranges rs);
  ro_list p : rlist rs = Some p -> exists r, ranges rs !! p = Some r /\ prev r = None
}.

(** The extents, without the links. *)
Definition spans (R : gmap loc range_t) : gmap loc (Z * Z * Z) := (fun r => (lo r, hi r, index r)) <$> R.

Section links.
Implicit Types (R : gmap loc range_t) (pv nx : ptr).

(** The records after the new one, [l], was linked between [pv] and [nx]. *)
Definition linked R (l : loc) (r : range_t) pv nx : gmap loc range_t :=
  let R := <[l := r]> R in
  let R := match pv with None => R | Some p => alter (set_next (Some l)) p R end in
  match nx with None => R | Some q => alter (set_prev (Some l)) q R end.

(** ... and after [l] was unlinked. *)
Definition unlinked R (l : loc) pv nx : gmap loc range_t :=
  let R := match pv with None => R | Some p => alter (set_next nx) p R end in
  let R := match nx with None => R | Some q => alter (set_prev pv) q R end in
  delete l R.

Definition relinked (fn fp : ptr) (pv nx : ptr) (x : loc) (r : range_t) : range_t :=
  (if decide (nx = Some x) then set_prev fp else id) ((if decide (pv = Some x) then set_next fn else id) r).

Lemma linked_lookup R l r pv nx x :
  R !! l = None -> pv <> Some l -> nx <> Some l ->
  linked R l r pv nx !! x = if decide (x = l) then Some r else relinked (Some l) (Some l) pv nx x <$> R !! x.
Proof.
  intros Hl Hpv Hnx. unfold linked, relinked. destruct (decide (x = l)) as [->|Hx].
  - destruct pv as [p|], nx as [q|]; rewrite ?lookup_alter_ne, ?lookup_insert_eq by congruence; done.
  - destruct pv as [p|], nx as [q|]; rewrite ?lookup_alter, ?lookup_insert_ne by congruence;
      repeat case_decide; simplify_eq; rewrite ?lookup_insert_ne by congruence;
      first [done | destruct (R !! x); done].
Qed.

Lemma unlinked_lookup R l pv nx x :
  unlinked R l pv nx !! x = if decide (x = l) then None else relinked nx pv pv nx x <$> R !! x.
Proof.
  unfold unlinked, relinked. destruct (decide (x = l)) as [->|Hx]; [by rewrite lookup_delete_eq|].
  rewrite lookup_delete_ne by done.
  destruct pv as [p|], nx as [q|]; rewrite ?lookup_alter; repeat case_decide; simplify_eq;
    first [done | destruct (R !! x); done].
Qed.

(** Relinking changes only links. *)
Lemma relinked_span fn fp pv nx x r :
  lo (relinked fn fp pv nx x r) = lo r /\ hi (relinked fn fp pv nx x r) = hi r /\
  index (relinked fn fp pv nx x r) = index r.
Proof. unfold relinked. by repeat case_decide. Qed.

Lemma relinked_next fn fp pv nx x r :
  next (relinked fn fp pv nx x r) = if decide (pv = Some x) then fn else next r.
Proof. unfold relinked. by repeat case_decide. Qed.

Lemma relinked_prev fn fp pv nx x r :
  prev (relinked fn fp pv nx x r) = if decide (nx = Some x) then fp else prev r.
Proof. unfold relinked. by repeat case_decide. Qed.

Lemma linked_spans R l r pv nx :
  R !! l = None -> pv <> Some l -> nx <> Some l ->
  spans (linked R l r pv nx) = <[l := (lo r, hi r, index r)]> (spans R).
Proof.
  intros Hl Hpv Hnx. apply map_eq. intros x. unfold spans.
  rewrite lookup_fmap, linked_lookup by done. case_decide as Hx; [subst; by rewrite lookup_insert_eq|].
  rewrite lookup_insert_ne, lookup_fmap by done. destruct (R !! x) as [rx|]; [|done]. simpl.
  by destruct (relinked_span (Some l) (Some l) pv nx x rx) as (-> & -> & ->).
Qed.

Lemma unlinked_spans R l pv nx : spans (unlinked R l pv nx) = delete l (spans R).
Proof.
  apply map_eq. intros x. unfold spans.
  rewrite lookup_fmap, unlinked_lookup. case_decide as Hx; [subst; by rewrite lookup_delete_eq|].
  rewrite lookup_delete_ne, lookup_fmap by done. destruct (R !! x) as [rx|]; [|done]. simpl.
  by destruct (relinked_span nx pv pv nx x rx) as (-> & -> & ->).
Qed.

(** The new range goes between its predecessor and what the predecessor links
    to. *)
Lemma linked_ok R l r pv nx :
  links_ok R -> R !! l = None -> pv <> Some l -> nx <> Some l -> lo r <= hi r ->
  (forall p q s t, R !! p = Some s -> R !! q = Some t -> lo s = lo t -> p = q) ->
  next r = nx -> prev r = pv ->
  match pv with
  | None => nx = None /\ forall s t, R !! s = Some t -> lo r < lo t
  | Some p => exists rp, R !! p = Some rp /\ lo rp < lo r /\ next rp = nx /\
      forall s t, R !! s = Some t -> lo t <= lo r -> lo t <= lo rp
  end ->
  (forall q rq, nx = Some q -> R !! q = Some rq -> hi r < lo rq) ->
  links_ok (linked R l r pv nx).
Proof.
  intros HR Hl Hpv Hnx Hr Hinj Hn Hp Hpred Hsucc.
  assert (Hget : forall x rx, linked R l r pv nx !! x = Some rx ->
    (x = l /\ rx = r) \/ (x <> l /\ exists r0, R !! x = Some r0 /\ rx = relinked (Some l) (Some l) pv nx x r0)).
  { intros x rx. rewrite linked_lookup by done. case_decide; [intros [= <-]; by left|].
    intros (r0 & E & ->)%fmap_Some. right. split; [done|]. by exists r0. }
  assert (Hput : forall x r0, R !! x = Some r0 ->
    linked R l r pv nx !! x = Some (relinked (Some l) (Some l) pv nx x r0)).
  { intros x r0 Hx. rewrite linked_lookup, decide_False by congruence. by rewrite Hx. }
  assert (Hput' : linked R l r pv nx !! l = Some r) by (by rewrite linked_lookup, decide_True).
  split.
  - intros x rx q Hx Hq. destruct (Hget _ _ Hx) as [(-> & ->)|(Hxl & r0 & Hx0 & ->)].
    + rewrite Hn in Hq. destruct pv as [p|]; [|by destruct Hpred as [-> _]].
      destruct Hpred as (rp & Hrp & Hlo & Hnp & Hnear). rewrite <- Hnp in Hq.
      destruct (lk_next _ HR _ _ _ Hrp Hq) as (rq & Hrq & Hprq & Hlt & Himm).
      rewrite Hnp in Hq. pose proof (Hsucc _ _ Hq Hrq) as Hs.
      eexists. split; [by apply Hput|]. rewrite relinked_prev, decide_True by done.
      destruct (relinked_span (Some l) (Some l) (Some p) nx q rq) as (-> & _ & _).
      split_done; [lia|]. intros s r' Hs' Hbt.
      destruct (Hget _ _ Hs') as [(-> & ->)|(_ & r1 & Hr1 & ->)]; [lia|].
      destruct (relinked_span (Some l) (Some l) (Some p) nx s r1) as (E & _ & _). rewrite E in Hbt.
      apply (Himm s r1 Hr1). lia.
    + rewrite relinked_next in Hq. destruct (relinked_span (Some l) (Some l) pv nx x r0) as (E & _ & _).
      rewrite E. clear E. case_decide as Hpx.
      * injection Hq as <-. rewrite Hpx in Hpred. destruct Hpred as (rp & Hrp & Hlo & Hnp & Hnear). simplify_eq.
        exists r. split_done. intros s r' Hs' Hbt.
        destruct (Hget _ _ Hs') as [(-> & ->)|(_ & r1 & Hr1 & ->)]; [lia|].
        destruct (relinked_span (Some l) (Some l) (prev r) (next r) s r1) as (E & _ & _). rewrite E in Hbt.
        specialize (Hnear s r1 Hr1). lia.
      * destruct (lk_next _ HR _ _ _ Hx0 Hq) as (rq & Hrq & Hprq & Hlt & Himm).
        eexists. split; [by apply Hput|]. rewrite relinked_prev.
        destruct (relinked_span (Some l) (Some l) pv nx q rq) as (-> & _ & _).
        split; [|split; [done|]].
        -- rewrite decide_False; [done|]. intros Hnq. destruct pv as [p|]; [|by destruct Hpred; congruence].
           destruct Hpred as (rp & Hrp & _ & Hnp & _). rewrite <- Hnp in Hnq.
           destruct (lk_next _ HR _ _ _ Hrp Hnq) as (rq' & Hrq' & Hp' & _). simplify_eq.
        -- intros s r' Hs' Hbt. destruct (Hget _ _ Hs') as [(-> & ->)|(_ & r1 & Hr1 & ->)].
           ++ destruct pv as [p|]; [|destruct Hpred as [_ Hall]; specialize (Hall _ _ Hx0); lia].
              destruct Hpred as (rp & Hrp & Hlo & Hnp & Hnear). specialize (Hnear _ _ Hx0 ltac:(lia)).
              destruct (decide (lo r0 = lo rp)) as [Heq|Hne].
              ** apply Hpx. f_equal. by eapply Hinj.
              ** apply (Himm _ _ Hrp). lia.
           ++ destruct (relinked_span (Some l) (Some l) pv nx s r1) as (E & _ & _). rewrite E in Hbt.
              by apply (Himm s r1 Hr1).
  - intros x rx q Hx Hq. destruct (Hget _ _ Hx) as [(-> & ->)|(Hxl & r0 & Hx0 & ->)].
    + rewrite Hp in Hq. rewrite Hq in Hpred. destruct Hpred as (rp & Hrp & _). eexists. split; [by apply Hput|].
      by rewrite relinked_next, decide_True.
    + rewrite relinked_prev in Hq. case_decide as Hnx'.
      * injection Hq as <-. exists r. split; [done|]. congruence.
      * destruct (lk_prev _ HR _ _ _ Hx0 Hq) as (rq & Hrq & Hnq). eexists. split; [by apply Hput|].
        rewrite relinked_next. rewrite decide_False; [done|]. intros Hpq. rewrite Hpq in Hpred.
        destruct Hpred as (rp & Hrp & _ & Hnp & _). congruence.
Qed.

Lemma unlinked_ok R l r :
  links_ok R -> R !! l = Some r ->
  (forall p q s t, R !! p = Some s -> R !! q = Some t -> lo s = lo t -> p = q) ->
  links_ok (unlinked R l (prev r) (next r)).
Proof.
  intros HR Hl Hinj.
  assert (Hget : forall x rx, unlinked R l (prev r) (next r) !! x = Some rx ->
    x <> l /\ exists r0, R !! x = Some r0 /\ rx = relinked (next r) (prev r) (prev r) (next r) x r0).
  { intros x rx. rewrite unlinked_lookup. case_decide; [done|].
    intros (r0 & E & ->)%fmap_Some. split; [done|]. by exists r0. }
  assert (Hput : forall x r0, R !! x = Some r0 -> x <> l ->
    unlinked R l (prev r) (next r) !! x = Some (relinked (next r) (prev r) (prev r) (next r) x r0)).
  { intros x r0 Hx Hne. rewrite unlinked_lookup, decide_False by congruence. by rewrite Hx. }
  split.
  - intros x rx q Hx Hq. destruct (Hget _ _ Hx) as (Hxl & r0 & Hx0 & ->).
    rewrite relinked_next in Hq. destruct (relinked_span (next r) (prev r) (prev r) (next r) x r0) as (E & _ & _).
    rewrite E. clear E.
    assert (Hspan : forall s r', unlinked R l (prev r) (next r) !! s = Some r' ->
      s <> l /\ exists r1, R !! s = Some r1 /\ lo r' = lo r1).
    { intros s r' Hs. destruct (Hget _ _ Hs) as (Hsl & r1 & Hr1 & ->). split; [done|]. exists r1. split; [done|].
      by destruct (relinked_span (next r) (prev r) (prev r) (next r) s r1) as (-> & _ & _). }
    case_decide as Hpx.
    + destruct (lk_next _ HR _ _ _ Hl Hq) as (rq & Hrq & Hprq & Hlt & Himm).
      destruct (lk_prev _ HR _ _ _ Hl Hpx) as (rx & Hrx & Hnx). simplify_eq.
      destruct (lk_next _ HR _ _ _ Hx0 Hnx) as (rl & Hrl & _ & Hlt2 & Himm2). simplify_eq.
      assert (q <> l) by (intros ->; simplify_eq; lia).
      eexists. split; [by apply Hput|]. rewrite relinked_prev, decide_True by done.
      destruct (relinked_span (next r) (prev r) (prev r) (next r) q rq) as (-> & _ & _).
      split_done; [lia|]. intros s r' Hs' Hbt. destruct (Hspan _ _ Hs') as (Hsl & r1 & Hr1 & E1).
      rewrite E1 in Hbt. specialize (Himm _ _ Hr1). specialize (Himm2 _ _ Hr1).
      apply Hsl. eapply Hinj; [done|done|]. lia.
    + destruct (lk_next _ HR _ _ _ Hx0 Hq) as (rq & Hrq & Hprq & Hlt & Himm).
      assert (q <> l) by (intros ->; simplify_eq).
      eexists. split; [by apply Hput|]. rewrite relinked_prev.
      destruct (relinked_span (next r) (prev r) (prev r) (next r) q rq) as (-> & _ & _).
      split; [|split; [done|]].
      * rewrite decide_False; [done|]. intros Hnq.
        destruct (lk_next _ HR _ _ _ Hl Hnq) as (rq' & Hrq' & Hp' & _). simplify_eq.
      * intros s r' Hs' Hbt. destruct (Hspan _ _ Hs') as (Hsl & r1 & Hr1 & E1). rewrite E1 in Hbt.
        by apply (Himm _ _ Hr1).
  - intros x rx q Hx Hq. destruct (Hget _ _ Hx) as (Hxl & r0 & Hx0 & ->).
    rewrite relinked_prev in Hq. case_decide as Hnx.
    + destruct (lk_prev _ HR _ _ _ Hl Hq) as (rq & Hrq & Hnq).
      assert (q <> l) by (intros ->; simplify_eq).
      eexists. split; [by apply Hput|]. by rewrite relinked_next, decide_True.
    + destruct (lk_prev _ HR _ _ _ Hx0 Hq) as (rq & Hrq & Hnq).
      assert (q <> l) by (intros ->; simplify_eq).
      eexists. split; [by apply Hput|]. rewrite relinked_next, decide_False; [done|].
      intros Hpq. destruct (lk_prev _ HR _ _ _ Hl Hpq) as (? & ? & ?). simplify_eq.
Qed.
End links.

(** ** When the checks are complete *)

Definition overlaps (r : range_t) (a top : Z) : Prop := lo r <= top /\ a <= hi r.

(** No two recorded payloads overlap and the chain reaches every range above the
    lowest one. *)
Record complete (R : gmap loc range_t) : Prop := {
  co_disjoint p q r s : R !! p = Some r -> R !! q = Some s -> p <> q -> ~ overlaps r (lo s) (hi s);
  co_chain p q r s : R !! p = Some r -> R !! q = Some s -> lo r < lo s -> next r <> None
}.

Section checks.
Implicit Types (R : gmap loc range_t).

(** What the two comparisons of [add_range] establish when there is a
    predecessor. *)
Lemma no_overlap R p rp a top :
  links_ok R -> complete R -> (forall q s, R !! q = Some s -> lo s <= hi s) ->
  R !! p = Some rp -> (forall s t, R !! s = Some t -> lo t <= a -> lo t <= lo rp) ->
  hi rp < a -> (forall q rq, next rp = Some q -> R !! q = Some rq -> top < lo rq) ->
  forall q s, R !! q = Some s -> ~ overlaps s a top.
Proof.
  intros HR [Hd Hc] Hspan Hp Hnear Hhi Hnx q s Hq [H1 H2].
  pose proof (Hspan _ _ Hp). destruct (decide (q = p)) as [->|Hne]; [simplify_eq; lia|].
  destruct (decide (lo s <= a)) as [Hle|Hgt].
  - specialize (Hnear _ _ Hq Hle). apply (Hd _ _ _ _ Hq Hp Hne). unfold overlaps. lia.
  - destruct (next rp) as [x|] eqn:Hx; [|by eapply (Hc _ _ _ _ Hp Hq); [lia|]].
    destruct (lk_next _ HR _ _ _ Hp Hx) as (rx & Hrx & _ & _ & Himm).
    specialize (Hnx _ _ eq_refl Hrx). apply (Himm _ _ Hq). lia.
Qed.

Lemma linked_complete R l r pv nx :
  complete R -> R !! l = None -> pv <> Some l -> nx <> Some l -> lo r <= hi r -> next r = nx ->
  (forall q s, R !! q = Some s -> lo s <= hi s) ->
  (forall p q s t, R !! p = Some s -> R !! q = Some t -> lo s = lo t -> p = q) ->
  match pv with
  | None => R = ∅
  | Some p => exists rp, R !! p = Some rp /\ lo rp < lo r /\ next rp = nx /\
      forall s t, R !! s = Some t -> lo t <= lo r -> lo t <= lo rp
  end ->
  (forall q s, R !! q = Some s -> ~ overlaps s (lo r) (hi r)) ->
  complete (linked R l r pv nx).
Proof.
  intros [Hd Hc] Hl Hpv Hnx Hr Hn Hspan Hinj Hpred Hno.
  assert (Hget : forall x rx, linked R l r pv nx !! x = Some rx ->
    (x = l /\ rx = r) \/ (x <> l /\ exists r0, R !! x = Some r0 /\ lo rx = lo r0 /\ hi rx = hi r0 /\
      next rx = if decide (pv = Some x) then Some l else next r0)).
  { intros x rx. rewrite linked_lookup by done. case_decide; [intros [= <-]; by left|].
    intros (r0 & E & ->)%fmap_Some. right. split; [done|]. exists r0.
    destruct (relinked_span (Some l) (Some l) pv nx x r0) as (-> & -> & _). by rewrite relinked_next. }
  split; intros x y rx ry Hx Hy; destruct (Hget _ _ Hx) as [(-> & ->)|(Hxl & r0 & Hx0 & E1 & E2 & E3)];
    destruct (Hget _ _ Hy) as [(-> & ->)|(Hyl & s0 & Hy0 & F1 & F2 & _)].
  - done.
  - intros _ [H1 H2]. apply (Hno _ _ Hy0). unfold overlaps. lia.
  - intros _ [H1 H2]. apply (Hno _ _ Hx0). unfold overlaps. lia.
  - intros Hne [H1 H2]. apply (Hd _ _ _ _ Hx0 Hy0 Hne). unfold overlaps. lia.
  - lia.
  - intros Hlt. destruct pv as [p|]; [|subst R; done]. destruct Hpred as (rp & Hp & Hlo & <- & _).
    rewrite Hn. apply (Hc _ _ _ _ Hp Hy0). lia.
  - intros Hlt. rewrite E3. case_decide as Hpx; [done|]. destruct pv as [p|]; [|subst R; done].
    destruct Hpred as (rp & Hp & Hlo & _ & Hnear). specialize (Hnear _ _ Hx0 ltac:(lia)).
    apply (Hc _ _ _ _ Hx0 Hp). destruct (decide (lo r0 = lo rp)) as [E|]; [|lia].
    destruct Hpx. f_equal. by eapply Hinj.
  - intros Hlt. rewrite E3. case_decide as Hpx; [done|]. apply (Hc _ _ _ _ Hx0 Hy0). lia.
Qed.

Lemma unlinked_complete R l r :
  links_ok R -> complete R -> R !! l = Some r ->
  (forall p q s t, R !! p = Some s -> R !! q = Some t -> lo s = lo t -> p = q) ->
  complete (unlinked R l (prev r) (next r)).
Proof.
  intros HR [Hd Hc] Hl Hinj.
  assert (Hget : forall x rx, unlinked R l (prev r) (next r) !! x = Some rx ->
    x <> l /\ exists r0, R !! x = Some r0 /\ lo rx = lo r0 /\ hi rx = hi r0 /\
      next rx = if decide (prev r = Some x) then next r else next r0).
  { intros x rx. rewrite unlinked_lookup. case_decide; [done|].
    intros (r0 & E & ->)%fmap_Some. split; [done|]. exists r0.
    destruct (relinked_span (next r) (prev r) (prev r) (next r) x r0) as (-> & -> & _). by rewrite relinked_next. }
  split; intros x y rx ry Hx Hy; destruct (Hget _ _ Hx) as (Hxl & r0 & Hx0 & E1 & E2 & E3);
    destruct (Hget _ _ Hy) as (Hyl & s0 & Hy0 & F1 & F2 & _).
  - intros Hne [H1 H2]. apply (Hd _ _ _ _ Hx0 Hy0 Hne). unfold overlaps. lia.
  - intros Hlt. rewrite E3. case_decide as Hpx; [|apply (Hc _ _ _ _ Hx0 Hy0); lia].
    destruct (lk_prev _ HR _ _ _ Hl Hpx) as (rq & Hrq & Hnq). simplify_eq.
    destruct (lk_next _ HR _ _ _ Hx0 Hnq) as (? & ? & _ & Hlt2 & Himm). simplify_eq.
    apply (Hc _ _ _ _ Hl Hy0). specialize (Himm _ _ Hy0).
    destruct (decide (lo r = lo s0)) as [E|]; [|lia]. destruct Hyl. symmetry. by eapply Hinj.
Qed.
End checks.
