(* ===== verification/RangeSetOps.v ===== *)
(** * Range sets: the operations

    [add_range] and [remove_range] keep the tree, the records and the links
    consistent and never fault; what [add_range] reports is true, and while the
    chain is unbroken it is all there is to report. *)

From Stdlib Require Import ZArith Lia.
From stdpp Require Import gmap list.
From S2P Require Import Prelude STree STreeShape STreeOps STreeMap MemLib RangeSet RangeSetProps.

(** ** The operations *)

Section ops.
Context `{Malloc}.
Implicit Types (rs : range_set_t) (m : gmap Z loc).

Lemma rs_ok_inj rs m p q s t :
  rs_ok rs m -> ranges rs !! p = Some s -> ranges rs !! q = Some t -> lo s = lo t -> p = q.
Proof.
  intros Hok Hp Hq E. assert (m !! lo s = Some p) by (apply (ro_map _ _ Hok); eauto).
  assert (m !! lo t = Some q) by (apply (ro_map _ _ Hok); eauto). congruence.
Qed.

Lemma link_next_ok rs p q :
  (forall x, p = Some x -> is_Some (ranges rs !! x)) ->
  link_next rs p q = Done (RangeSet (if p then rlist rs else q) (lo_tree rs)
    (match p with None => ranges rs | Some x => alter (set_next q) x (ranges rs) end)).
Proof.
  intros Hp. destruct p as [x|]; [|done]. destruct (Hp x eq_refl) as [r Hr]. simpl.
  unfold set_range, get_range. rewrite Hr. simpl. do 2 f_equal. apply map_eq. intros i.
  rewrite lookup_alter, lookup_insert. case_decide; [subst; by rewrite Hr|done].
Qed.

Lemma link_prev_ok rs p q :
  (forall x, p = Some x -> is_Some (ranges rs !! x)) ->
  link_prev rs p q = Done (RangeSet (rlist rs) (lo_tree rs)
    (match p with None => ranges rs | Some x => alter (set_prev q) x (ranges rs) end)).
Proof.
  intros Hp. destruct p as [x|]; [|by destruct rs]. destruct (Hp x eq_refl) as [r Hr]. simpl.
  unfold set_range, get_range. rewrite Hr. simpl. do 2 f_equal. apply map_eq. intros i.
  rewrite lookup_alter, lookup_insert. case_decide; [subst; by rewrite Hr|done].
Qed.

(** Another tree for the same map. *)
Lemma rs_ok_tree rs m t : rs_ok rs m -> rep t m -> rs_ok (RangeSet (rlist rs) t (ranges rs)) m.
Proof. intros [] Ht. by split. Qed.

Lemma new_range_set_ok live rs : new_range_set live = Done rs -> rs_ok rs ∅ /\ complete (ranges rs).
Proof.
  unfold new_range_set. case_match; [|done]. intros Hn. apply bind_Done in Hn as (t & Ht & [= <-]).
  apply tree_new_ok in Ht. split; split; simpl; try done. intros a x. rewrite lookup_empty.
  split; [done|]. by intros (r & ? & _).
Qed.

(** The predecessor found in the tree, and the link that leads up from it. *)
Lemma pred_ok rs m a pv :
  rs_ok rs m -> is_nearest m a pv ->
  match pv with
  | None => forall s t, ranges rs !! s = Some t -> a < lo t
  | Some p => exists rp, ranges rs !! p = Some rp /\ lo rp <= a /\
      (forall s t, ranges rs !! s = Some t -> lo t <= a -> lo t <= lo rp) /\
      forall q, next rp = Some q -> exists rq, ranges rs !! q = Some rq /\ lo rp < lo rq /\ a < lo rq
  end.
Proof.
  intros Hok. destruct pv as [p|]; simpl.
  - intros (j & Hj & Hle & Hmax). apply (ro_map _ _ Hok) in Hj as (rp & Hp & <-).
    assert (Hnear : forall s t, ranges rs !! s = Some t -> lo t <= a -> lo t <= lo rp).
    { intros s t Hs. apply Hmax. exists s. apply (ro_map _ _ Hok). eauto. }
    exists rp. split_done. intros q Hq. destruct (lk_next _ (ro_links _ _ Hok) _ _ _ Hp Hq) as (rq & Hrq & _ & Hlt & _).
    exists rq. split_done. specialize (Hnear _ _ Hrq). lia.
  - intros Hn s t Hs. apply Hn. exists s. apply (ro_map _ _ Hok). eauto.
Qed.

(** A checked payload: what the verdict says of it, and of the set afterwards.
    [m] holds the addresses of the recorded payloads.  An overlap is noticed only
    if one of them is not above the new payload: [add_range] looks at the nearest
    one at or below it and at the [next] of that one, and at nothing if there is
    none (see [add_range_misses_overlap]). *)
Definition verdict_ok (mode : debug_mode_t) rs m (hm : mem) (a top idx : Z) (v : verdict) rs' : Prop :=
  match v with
  | Misaligned => a mod ALIGNMENT <> 0 /\ rs' = rs
  | OutsideHeap => ~ (mem_heap_lo hm <= a /\ top <= mem_heap_hi hm) /\ rs' = rs
  | Overlaps q => mode <> DBG_NONE /\ (exists r, ranges rs !! q = Some r /\ overlaps r a top) /\
      rs_ok rs' m /\ ranges rs' = ranges rs /\ (exists j, is_Some (m !! j) /\ j <= a)
  | Accepted => a mod ALIGNMENT = 0 /\ mem_heap_lo hm <= a /\ top <= mem_heap_hi hm /\
      match mode with
      | DBG_NONE => rs' = rs
      | _ => exists l, ranges rs !! l = None /\ rs_ok rs' (<[a := l]> m) /\
          spans (ranges rs') = <[l := (a, top, idx)]> (spans (ranges rs)) /\
          (complete (ranges rs) -> (m = ∅ \/ exists j, is_Some (m !! j) /\ j <= a) ->
           (forall q r, ranges rs !! q = Some r -> ~ overlaps r a top) /\ complete (ranges rs'))
      end
  end.

(** The part of [add_range] after the checks. *)
Definition record_range rs (l : loc) (r : range_t) : outcome (verdict * range_set_t) :=
  let rs := RangeSet (rlist rs) (lo_tree rs) (<[l := r]> (ranges rs)) in
  rs ← link_next rs (prev r) (Some l);
  rs ← link_prev rs (next r) (Some l);
  '(_, t) ← tree_insert (lo_tree rs) (lo r) l;
  Done (Accepted, RangeSet (rlist rs) t (ranges rs)).

Section record.
Context (rs : range_set_t) (m : gmap Z loc) (l : loc) (r : range_t).
Hypothesis Hok : rs_ok rs m.
Hypothesis Hl : ranges rs !! l = None.
Hypothesis Hm : m !! lo r = None.
Hypothesis Hr : lo r <= hi r.
Hypothesis Hnear : is_nearest m (lo r) (prev r).
Hypothesis Hnx : next r =
  match prev r with None => None | Some p => match ranges rs !! p with Some rp => next rp | None => None end end.
Hypothesis Hsucc : forall q rq, next r = Some q -> ranges rs !! q = Some rq -> hi r < lo rq.

Lemma record_prev x : prev r = Some x -> x <> l /\ is_Some (ranges rs !! x).
Proof using Hok Hl Hnear.
  pose proof (pred_ok _ _ _ _ Hok Hnear) as Hpred. intros E. rewrite E in Hpred.
  destruct Hpred as (rp & Hp & _). split; [congruence|]. rewrite Hp. by eexists.
Qed.

Lemma record_next x : next r = Some x -> x <> l /\ is_Some (ranges rs !! x).
Proof using Hok Hl Hnear Hnx.
  pose proof (pred_ok _ _ _ _ Hok Hnear) as Hpred. intros E.
  destruct (prev r) as [p|]; [|congruence]. destruct Hpred as (rp & Hrp & _ & _ & Hq).
  rewrite Hrp in Hnx. rewrite Hnx in E. destruct (Hq _ E) as (rq & Hrq & _). split; [congruence|]. by rewrite Hrq.
Qed.

(** The predecessor in the form the lemmas on links use. *)
Lemma record_pred :
  match prev r with
  | None => next r = None /\ forall s t, ranges rs !! s = Some t -> lo r < lo t
  | Some p => exists rp, ranges rs !! p = Some rp /\ lo rp < lo r /\ next rp = next r /\
      forall s t, ranges rs !! s = Some t -> lo t <= lo r -> lo t <= lo rp
  end.
Proof using Hok Hm Hnear Hnx.
  pose proof (pred_ok _ _ _ _ Hok Hnear) as Hpred. destruct (prev r) as [p|] eqn:Epv; [|done].
  destruct Hpred as (rp & Hrp & Hle & Hmax & _). exists rp. rewrite Hrp in Hnx. split_done.
  assert (lo rp <> lo r); [|lia]. intros E'. rewrite <- E' in Hm.
  assert (m !! lo rp = Some p) by (apply (ro_map _ _ Hok); eauto). congruence.
Qed.

Lemma recorded_map b x :
  <[lo r := l]> m !! b = Some x <->
  exists rx, linked (ranges rs) l r (prev r) (next r) !! x = Some rx /\ lo rx = b.
Proof using Hok Hl Hm Hnear Hnx.
  rewrite linked_lookup by (try done; intros E; by destruct (record_prev _ E) || by destruct (record_next _ E)).
  split.
  - intros Hb. destruct (decide (b = lo r)) as [->|Hbl].
    { rewrite lookup_insert_eq in Hb. injection Hb as <-. exists r. by rewrite decide_True. }
    rewrite lookup_insert_ne in Hb by done. apply (ro_map _ _ Hok) in Hb as (rx & Hx & <-).
    rewrite decide_False, Hx by congruence. eexists. split; [done|]. by apply relinked_span.
  - intros (rx & Hx & <-). case_decide as Hxl.
    { injection Hx as <-. subst x. by rewrite lookup_insert_eq. }
    apply fmap_Some in Hx as (r0 & Hx & ->).
    destruct (relinked_span (Some l) (Some l) (prev r) (next r) x r0) as (-> & _).
    assert (m !! lo r0 = Some x) by (apply (ro_map _ _ Hok); eauto).
    rewrite lookup_insert_ne; [done|]. intros E. congruence.
Qed.

Lemma recorded_ok t :
  rep t (<[lo r := l]> m) ->
  rs_ok (RangeSet (if prev r then rlist rs else Some l) t (linked (ranges rs) l r (prev r) (next r)))
    (<[lo r := l]> m).
Proof using All.
  intros Ht. pose proof record_pred as Hpred.
  assert (Hpv : prev r <> Some l) by (intros E; by destruct (record_prev _ E)).
  assert (Hnl : next r <> Some l) by (intros E; by destruct (record_next _ E)).
  split; cbn [lo_tree ranges rlist]; [done|apply recorded_map|..].
  - intros x rx. rewrite linked_lookup by done. case_decide; [intros [= <-]; done|].
    intros (r0 & Hx & ->)%fmap_Some.
    destruct (relinked_span (Some l) (Some l) (prev r) (next r) x r0) as (-> & -> & _).
    by apply (ro_span _ _ Hok x).
  - apply linked_ok; try done; [apply (ro_links _ _ Hok)|intros *; by apply (rs_ok_inj _ _ _ _ _ _ Hok)].
  - intros x. destruct (prev r) as [p|] eqn:Epv.
    + intros Hx. destruct (ro_list _ _ Hok _ Hx) as (r0 & Hr0 & Hpr). rewrite linked_lookup by done.
      rewrite decide_False, Hr0 by congruence. eexists. split; [done|]. rewrite relinked_prev.
      rewrite decide_False; [done|]. intros E. destruct Hpred as (rp & Hrp & _ & Hn & _).
      rewrite <- Hn in E. destruct (lk_next _ (ro_links _ _ Hok) _ _ _ Hrp E) as (? & ? & ? & _). congruence.
    + intros [= <-]. exists r. rewrite linked_lookup, decide_True by done. done.
Qed.

Lemma record_range_ok :
  (record_range rs l r = Fault (Exited 1) /\ exists X, malloc X = None) \/
  exists rs', record_range rs l r = Done (Accepted, rs') /\ rs_ok rs' (<[lo r := l]> m) /\
    ranges rs' = linked (ranges rs) l r (prev r) (next r).
Proof using All.
  unfold record_range. rewrite link_next_ok.
  2:{ intros x E. destruct (record_prev _ E). simpl. by rewrite lookup_insert_ne by done. }
  cbn [mbind outcome_bind ranges rlist lo_tree]. rewrite link_prev_ok.
  2:{ intros x E. destruct (record_next _ E). simpl. destruct (prev r) as [p|];
      rewrite ?lookup_alter; repeat case_decide; subst; rewrite ?lookup_insert_ne by done; [|done..].
      by rewrite fmap_is_Some. }
  cbn [mbind outcome_bind ranges rlist lo_tree].
  destruct (tree_insert_ok (lo_tree rs) m (lo r) l (ro_tree _ _ Hok)) as [(Hs & _)|[(_ & Hf & ->)|(_ & t & -> & Ht)]];
    [rewrite Hm in Hs; by destruct Hs|left; split; [done|by eexists]|right].
  eexists. split; [done|]. split; [|done]. by apply recorded_ok.
Qed.
End record.

Lemma range_top a size : 0 < size -> 0 <= a -> a + size <= w64 -> sub64 (add64 a size) 1 = a + size - 1.
Proof.
  intros. unfold sub64, add64, wrap64. rewrite Zminus_mod_idemp_l. apply Z.mod_small. u64_lia.
Qed.

(** The checks against the neighbours and what follows them. *)
Definition checked_range rs (a top idx : Z) : outcome (verdict * range_set_t) :=
  '(pv, t) ← tree_find_nearest (lo_tree rs) a;
  let rs := RangeSet (rlist rs) t (ranges rs) in
  nx ← (match pv with None => Done None | Some _ => r ← get_range rs pv; Done (next r) end);
  over_prev ← (match pv with None => Done false | Some _ => r ← get_range rs pv; Done (a <=? hi r) end);
  over_next ← (match nx with None => Done false | Some _ => r ← get_range rs nx; Done (lo r <=? top) end);
  if (over_prev : bool) then p ← deref pv; Done (Overlaps p, rs)
  else if (over_next : bool) then p ← deref nx; Done (Overlaps p, rs)
  else
    match malloc (dom (ranges rs)) with
    | None => Fault (Exited 1)
    | Some l => record_range rs l (Range a top idx nx pv)
    end.

Lemma above_check rs nx top :
  (forall q, nx = Some q -> is_Some (ranges rs !! q)) ->
  exists b : bool, match nx with None => Done false | Some _ => r ← get_range rs nx; Done (lo r <=? top) end = Done b /\
    if b then exists q rq, nx = Some q /\ ranges rs !! q = Some rq /\ lo rq <= top
    else forall q rq, nx = Some q -> ranges rs !! q = Some rq -> top < lo rq.
Proof.
  intros Hq. destruct nx as [q|]; [|by exists false]. destruct (Hq q eq_refl) as [rq Hrq].
  unfold get_range. rewrite Hrq. cbn [mbind outcome_bind]. exists (lo rq <=? top). split; [done|].
  destruct (lo rq <=? top) eqn:E; [apply Z.leb_le in E; eauto 10|apply Z.leb_gt in E].
  intros q' rq' [= <-] ?. by simplify_eq.
Qed.

(** What is known of a new record, [l], when the checks passed. *)
Definition accepted_ok rs m (a top idx : Z) rs' : Prop :=
  exists l pv nx, ranges rs !! l = None /\ rs_ok rs' (<[a := l]> m) /\
    ranges rs' = linked (ranges rs) l (Range a top idx nx pv) pv nx /\ pv <> Some l /\ nx <> Some l /\
    match pv with
    | None => nx = None /\ forall j, is_Some (m !! j) -> a < j
    | Some p => exists rp, ranges rs !! p = Some rp /\ hi rp < a /\ next rp = nx /\
        (forall s t, ranges rs !! s = Some t -> lo t <= a -> lo t <= lo rp) /\
        forall q rq, nx = Some q -> ranges rs !! q = Some rq -> top < lo rq
    end.

Lemma allocated_ok rs m a top idx pv nx :
  rs_ok rs m -> a <= top -> is_nearest m a pv ->
  match pv with None => nx = None | Some p => exists rp, ranges rs !! p = Some rp /\ next rp = nx /\ hi rp < a end ->
  (forall q rq, nx = Some q -> ranges rs !! q = Some rq -> top < lo rq) ->
  let alloc := match malloc (dom (ranges rs)) with
    | None => Fault (Exited 1) | Some l => record_range rs l (Range a top idx nx pv) end in
  (alloc = Fault (Exited 1) /\ exists X, malloc X = None) \/
  exists rs', alloc = Done (Accepted, rs') /\ accepted_ok rs m a top idx rs'.
Proof.
  intros Hok Htop Hnear Hpv Hnx alloc. subst alloc.
  destruct (malloc (dom (ranges rs))) as [l|] eqn:Hmal; [|left; split; [done|by eexists]].
  assert (Hl : ranges rs !! l = None) by (apply not_elem_of_dom; by eapply malloc_fresh).
  pose proof (pred_ok _ _ _ _ Hok Hnear) as Hpred.
  assert (Hm : m !! a = None).
  { apply eq_None_not_Some. intros [x Hx]. apply (ro_map _ _ Hok) in Hx as (rx & Hrx & Ex).
    destruct pv as [p|]; [|specialize (Hpred _ _ Hrx); lia].
    destruct Hpred as (rp & Hp & Hle & Hmax & _). destruct Hpv as (rp' & Hp' & _ & Hhi).
    rewrite Hp in Hp'. injection Hp' as <-.
    specialize (Hmax _ _ Hrx ltac:(lia)). pose proof (ro_span _ _ Hok _ _ Hp). lia. }
  assert (Hlinks : nx = match pv with None => None | Some p =>
    match ranges rs !! p with Some rp => next rp | None => None end end).
  { destruct pv as [p|]; [|done]. destruct Hpv as (rp & -> & <- & _). done. }
  destruct (record_range_ok rs m l (Range a top idx nx pv) Hok Hl Hm Htop Hnear Hlinks Hnx)
    as [[-> Hf]|(rs' & -> & Hok' & Hr)]; [by left|right]. exists rs'. split; [done|].
  exists l, pv, nx. cbn [lo hi next prev] in *. split_done.
  - intros E. by destruct (record_prev rs m l (Range a top idx nx pv) Hok Hl Hnear l E).
  - intros E. by destruct (record_next rs m l (Range a top idx nx pv) Hok Hl Hnear Hlinks l E).
  - destruct pv as [p|]; [|done]. destruct Hpv as (rp & Hp & <- & Hhi).
    destruct Hpred as (rp' & Hp' & Hle & Hmax & _).
    rewrite Hp in Hp'. injection Hp' as <-. by exists rp.
Qed.

Lemma checked_range_ok rs m a top idx :
  rs_ok rs m -> a <= top ->
  (checked_range rs a top idx = Fault (Exited 1) /\ exists X, malloc X = None) \/
  exists v rs', checked_range rs a top idx = Done (v, rs') /\
    match v with
    | Overlaps q => (exists r, ranges rs !! q = Some r /\ overlaps r a top) /\
        rs_ok rs' m /\ ranges rs' = ranges rs /\ (exists j, is_Some (m !! j) /\ j <= a)
    | Accepted => accepted_ok rs m a top idx rs'
    | _ => False
    end.
Proof.
  intros Hok Htop. unfold checked_range.
  destruct (tree_find_nearest_ok _ m a (ro_tree _ _ Hok)) as (pv & t & -> & Hnear & Ht).
  cbn [mbind outcome_bind]. pose proof (pred_ok _ _ _ _ Hok Hnear) as Hpred.
  pose proof (rs_ok_tree _ _ _ Hok Ht) as Hok'. set (rs0 := RangeSet (rlist rs) t (ranges rs)) in *.
  change (ranges rs) with (ranges rs0). change (ranges rs) with (ranges rs0) in Hpred.
  destruct pv as [p|].
  2:{ cbn [mbind outcome_bind].
      destruct (allocated_ok rs0 m a top idx None None Hok' Htop Hnear eq_refl ltac:(done))
        as [?|(rs' & -> & Hacc)]; [by left|right; by exists Accepted, rs']. }
  destruct Hpred as (rp & Hp & Hle & Hmax & Hq).
  assert (get_range rs0 (Some p) = Done rp) as -> by (unfold get_range; by rewrite Hp).
  cbn [mbind outcome_bind].
  destruct (above_check rs0 (next rp) top) as (b & -> & Hb).
  { intros q E. destruct (Hq _ E) as (rq & -> & _). by eexists. }
  assert (Hbelow : exists j, is_Some (m !! j) /\ j <= a).
  { exists (lo rp). split; [|done]. exists p. apply (ro_map _ _ Hok'). by exists rp. }
  cbn [mbind outcome_bind]. destruct (a <=? hi rp) eqn:Eo.
  { right. apply Z.leb_le in Eo. exists (Overlaps p), rs0. split_done. exists rp. split; [done|].
    unfold overlaps. lia. }
  apply Z.leb_gt in Eo. destruct b.
  - right. destruct Hb as (q & rq & E & Hrq & Hov). rewrite E. cbn [deref mbind outcome_bind].
    exists (Overlaps q), rs0. split_done. exists rq. split; [done|].
    destruct (Hq _ E) as (rq' & Hrq' & _ & Hlt).
    rewrite Hrq in Hrq'. injection Hrq' as <-. pose proof (ro_span _ _ Hok' _ _ Hrq).
    unfold overlaps. lia.
  - destruct (allocated_ok rs0 m a top idx (Some p) (next rp) Hok' Htop Hnear ltac:(by exists rp) Hb)
      as [?|(rs' & -> & Hacc)]; [by left|right; by exists Accepted, rs'].
Qed.

Lemma complete_empty : complete ∅.
Proof. by split. Qed.

Lemma accepted_complete rs m a top idx rs' :
  rs_ok rs m -> a <= top -> accepted_ok rs m a top idx rs' ->
  (exists l, ranges rs !! l = None /\ rs_ok rs' (<[a := l]> m) /\
    spans (ranges rs') = <[l := (a, top, idx)]> (spans (ranges rs)) /\
    (complete (ranges rs) -> (m = ∅ \/ exists j, is_Some (m !! j) /\ j <= a) ->
      (forall q r, ranges rs !! q = Some r -> ~ overlaps r a top) /\ complete (ranges rs'))).
Proof.
  intros Hok Htop (l & pv & nx & Hl & Hok' & -> & Hpv & Hnx & Hpred). exists l. split_done.
  { by apply linked_spans. }
  intros Hc Hsome.
  assert (Hno : forall q r, ranges rs !! q = Some r -> ~ overlaps r a top).
  { destruct pv as [p|].
    - destruct Hpred as (rp & Hp & Hhi & <- & Hmax & Hab).
      by apply (no_overlap _ p rp _ _ (ro_links _ _ Hok) Hc (ro_span _ _ Hok)).
    - destruct Hpred as [_ Hlow]. intros q r Hq. assert (Hm : m !! lo r = Some q) by (apply (ro_map _ _ Hok); eauto).
      destruct Hsome as [->|(j & Hj & Hja)]; [done|]. specialize (Hlow _ Hj). lia. }
  split; [done|]. apply linked_complete; cbn [lo hi next]; try done; [apply (ro_span _ _ Hok)|..].
  - intros *. by apply (rs_ok_inj _ _ _ _ _ _ Hok).
  - destruct pv as [p|].
    + destruct Hpred as (rp & Hp & Hhi & Hn & Hmax & _). pose proof (ro_span _ _ Hok _ _ Hp).
      exists rp. split_done. lia.
    + destruct Hpred as [_ Hlow]. apply map_eq. intros q. rewrite lookup_empty. apply eq_None_not_Some.
      intros [r Hq]. assert (Hm : m !! lo r = Some q) by (apply (ro_map _ _ Hok); eauto).
      destruct Hsome as [->|(j & Hj & Hja)]; [done|]. specialize (Hlow _ Hj). lia.
Qed.

Lemma add_range_checked mode rs hm a size idx :
  mode <> DBG_NONE -> 0 < size -> 0 <= a -> a + size <= w64 -> a mod ALIGNMENT = 0 ->
  mem_heap_lo hm <= a -> a + size - 1 <= mem_heap_hi hm ->
  add_range mode rs hm a size idx = checked_range rs a (a + size - 1) idx.
Proof.
  intros Hmode Hsz Ha Hw Hal Hlo Hhi. unfold add_range. rewrite range_top by done.
  unfold c_assert, IS_ALIGNED. rewrite (proj2 (Z.ltb_lt _ _) Hsz), (proj2 (Z.eqb_eq _ _) Hal).
  cbn [mbind outcome_bind negb].
  destruct (_ || _) eqn:E; [exfalso; rewrite !orb_true_iff, !Z.ltb_lt in E; lia|].
  by destruct mode.
Qed.

Lemma add_range_checks mode rs m hm a size idx :
  rs_ok rs m -> mode <> DBG_NONE -> 0 < size -> 0 <= a -> a + size <= w64 -> a mod ALIGNMENT = 0 ->
  mem_heap_lo hm <= a -> a + size - 1 <= mem_heap_hi hm ->
  (add_range mode rs hm a size idx = Fault (Exited 1) /\ exists X, malloc X = None) \/
  exists v rs', add_range mode rs hm a size idx = Done (v, rs') /\
    verdict_ok mode rs m hm a (a + size - 1) idx v rs'.
Proof.
  intros Hok Hmode Hsz Ha Hw Hal Hlo Hhi. rewrite add_range_checked by done.
  destruct (checked_range_ok rs m a (a + size - 1) idx Hok ltac:(lia)) as [?|([] & rs' & -> & Hv)]; try done;
    [by left|right|right]; eexists _, _; (split; [done|]).
  - refine (conj Hal (conj Hlo (conj Hhi _))).
    destruct mode; [done|apply accepted_complete; [done|lia|done]..].
  - exact (conj Hmode Hv).
Qed.

Lemma add_range_ok mode rs m hm a size idx :
  rs_ok rs m -> 0 < size -> 0 <= a -> a + size <= w64 ->
  (add_range mode rs hm a size idx = Fault (Exited 1) /\ exists X, malloc X = None) \/
  exists v rs', add_range mode rs hm a size idx = Done (v, rs') /\
    verdict_ok mode rs m hm a (a + size - 1) idx v rs'.
Proof.
  intros Hok Hsz Ha Hw.
  destruct (decide (a mod ALIGNMENT = 0)) as [Hal|Hal]; [destruct (decide (mem_heap_lo hm <= a /\
    a + size - 1 <= mem_heap_hi hm)) as [[Hlo Hhi]|Hin]; [destruct mode|]|].
  4,5: right; unfold add_range; rewrite range_top by done; unfold c_assert, IS_ALIGNED;
    rewrite (proj2 (Z.ltb_lt _ _) Hsz).
  - right. exists Accepted, rs. split_done. unfold add_range. rewrite range_top by done.
    unfold c_assert, IS_ALIGNED. rewrite (proj2 (Z.ltb_lt _ _) Hsz), (proj2 (Z.eqb_eq _ _) Hal).
    cbn [mbind outcome_bind negb].
    destruct (_ || _) eqn:E; [exfalso; rewrite !orb_true_iff, !Z.ltb_lt in E; lia|done].
  - apply add_range_checks; done.
  - apply add_range_checks; done.
  - rewrite (proj2 (Z.eqb_eq _ _) Hal). cbn [mbind outcome_bind negb].
    destruct (_ || _) eqn:E; [|exfalso; rewrite !orb_false_iff, !Z.ltb_ge in E; lia].
    by exists OutsideHeap, rs.
  - rewrite (proj2 (Z.eqb_neq _ _) Hal). by exists Misaligned, rs.
Qed.

Lemma unlinked_rs_ok rs m a l r t :
  rs_ok rs m -> ranges rs !! l = Some r -> lo r = a -> rep t (delete a m) ->
  rs_ok (RangeSet (if prev r then rlist rs else next r) t (unlinked (ranges rs) l (prev r) (next r))) (delete a m).
Proof.
  intros Hok Hl Ha Ht. assert (Hinj := fun p q s t' => rs_ok_inj rs m p q s t' Hok).
  split; cbn [lo_tree ranges rlist]; [done|..].
  - intros b x. rewrite unlinked_lookup. split.
    + intros [Hb Hm]%lookup_delete_Some. apply (ro_map _ _ Hok) in Hm as (rx & Hx & <-).
      rewrite decide_False, Hx by congruence. eexists. split; [done|]. by apply relinked_span.
    + intros (rx & Hx & <-). case_decide as Hxl; [done|]. apply fmap_Some in Hx as (r0 & Hx & ->).
      destruct (relinked_span (next r) (prev r) (prev r) (next r) x r0) as (-> & _).
      apply lookup_delete_Some. split; [|apply (ro_map _ _ Hok); eauto].
      intros E. apply Hxl. eapply Hinj; [done..|congruence].
  - intros x rx. rewrite unlinked_lookup. case_decide; [done|]. intros (r0 & Hx & ->)%fmap_Some.
    destruct (relinked_span (next r) (prev r) (prev r) (next r) x r0) as (-> & -> & _).
    by apply (ro_span _ _ Hok x).
  - by apply unlinked_ok; [apply (ro_links _ _ Hok)|..].
  - intros x Hx. rewrite unlinked_lookup. destruct (prev r) as [p|] eqn:Ep.
    + destruct (ro_list _ _ Hok _ Hx) as (r0 & Hr0 & Hpr). rewrite decide_False, Hr0 by congruence.
      eexists. split; [done|]. rewrite relinked_prev, decide_False; [done|]. intros E.
      destruct (lk_next _ (ro_links _ _ Hok) _ _ _ Hl E) as (? & ? & ? & _). congruence.
    + destruct (lk_next _ (ro_links _ _ Hok) _ _ _ Hl Hx) as (rq & Hrq & _ & Hlt & _).
      rewrite decide_False, Hrq by (intros ->; simplify_eq; lia). eexists. split; [done|].
      by rewrite relinked_prev, decide_True.
Qed.

Lemma remove_range_ok rs m a :
  rs_ok rs m ->
  exists rs', remove_range rs a = Done rs' /\ rs_ok rs' (delete a m) /\
    spans (ranges rs') = (match m !! a with None => id | Some l => delete l end) (spans (ranges rs)) /\
    (complete (ranges rs) -> complete (ranges rs')).
Proof.
  intros Hok. unfold remove_range.
  destruct (tree_remove_ok _ m a (ro_tree _ _ Hok)) as (t & -> & Ht). cbn [mbind outcome_bind].
  destruct (m !! a) as [l|] eqn:Hl.
  2:{ eexists. split; [done|]. split_done. rewrite delete_id in Ht by done. rewrite delete_id by done.
      by apply rs_ok_tree. }
  apply (ro_map _ _ Hok) in Hl as (r & Hr & Ha).
  assert (get_range (RangeSet (rlist rs) t (ranges rs)) (Some l) = Done r) as ->
    by (unfold get_range; simpl; by rewrite Hr).
  cbn [mbind outcome_bind]. rewrite link_next_ok.
  2:{ intros x E. destruct (lk_prev _ (ro_links _ _ Hok) _ _ _ Hr E) as (? & E' & _). simpl. rewrite E'. by eexists. }
  cbn [mbind outcome_bind ranges rlist lo_tree]. rewrite link_prev_ok.
  2:{ intros x E. destruct (lk_next _ (ro_links _ _ Hok) _ _ _ Hr E) as (? & E' & _). simpl.
      destruct (prev r); rewrite ?lookup_alter; [case_decide; [subst|]|]; rewrite ?fmap_is_Some, E'; by eexists. }
  cbn [mbind outcome_bind ranges rlist lo_tree]. unfold free_range. cbn [ranges rlist lo_tree].
  match goal with |- context [match ?R !! l with _ => _ end] => destruct (R !! l) eqn:El end.
  2:{ exfalso. revert El. destruct (prev r), (next r); rewrite ?lookup_alter; repeat case_decide; subst; by rewrite Hr. }
  eexists. split; [done|]. cbn [ranges rlist lo_tree]. fold (unlinked (ranges rs) l (prev r) (next r)).
  assert (Hinj := fun p q s t' => rs_ok_inj rs m p q s t' Hok). split_done.
  - by apply unlinked_rs_ok.
  - apply unlinked_spans.
  - intros Hc. by apply unlinked_complete; [apply (ro_links _ _ Hok)|..].
Qed.

(** *** Freeing *)

Lemma free_ranges_ok rs ps :
  NoDup ps -> (forall p, p ∈ ps <-> is_Some (ranges rs !! p)) ->
  free_ranges rs ps = Done (RangeSet (rlist rs) (lo_tree rs) ∅).
Proof.
  revert rs. induction ps as [|p ps IH]; intros rs Hnd Hin; simpl.
  - destruct rs as [li t R]. do 2 f_equal. simpl in *. apply map_eq. intros x. rewrite lookup_empty.
    apply eq_None_not_Some. intros Hx%Hin. by apply elem_of_nil in Hx.
  - apply NoDup_cons in Hnd as [Hp Hnd]. destruct (proj1 (Hin p) ltac:(left)) as [r Hr].
    unfold free_range. rewrite Hr. cbn [mbind outcome_bind]. rewrite IH; [done|done|].
    intros x. simpl. rewrite lookup_delete_is_Some, <- Hin, elem_of_cons. naive_solver.
Qed.

Lemma tree_records rs m freed :
  rs_ok rs m -> freed ≡ₚ (map_to_list m).*2 ->
  NoDup freed /\ forall p, p ∈ freed <-> is_Some (ranges rs !! p).
Proof.
  intros Hok Hf. split.
  - rewrite Hf. apply NoDup_fmap_2_strong; [|apply NoDup_map_to_list].
    intros [a p] [b q] Ha Hb E. simpl in E. subst q. apply elem_of_map_to_list in Ha, Hb.
    apply (ro_map _ _ Hok) in Ha as (r & Hr & <-), Hb as (r' & Hr' & <-). by simplify_eq.
  - intros p. rewrite Hf, list_elem_of_fmap. split.
    + intros ([a q] & -> & Ha%elem_of_map_to_list). apply (ro_map _ _ Hok) in Ha as (r & Hr & _). by exists r.
    + intros [r Hr]. exists (lo r, p). split; [done|]. apply elem_of_map_to_list, (ro_map _ _ Hok). eauto.
Qed.

Lemma reset_range_set_ok rs m live :
  rs_ok rs m ->
  (reset_range_set rs live = Fault (Exited 1) /\ exists X, malloc X = None) \/
  exists rs', reset_range_set rs live = Done rs' /\ rs_ok rs' ∅ /\ ranges rs' = ∅.
Proof.
  intros Hok. unfold reset_range_set. destruct (tree_free_ok _ _ (ro_tree _ _ Hok)) as (freed & -> & Hf).
  cbn [mbind outcome_bind]. destruct (tree_records _ _ _ Hok Hf) as [Hnd Hin].
  rewrite free_ranges_ok by done. cbn [mbind outcome_bind ranges].
  destruct (tree_new live) as [t|f] eqn:Ht.
  - right. eexists. split; [done|]. apply tree_new_ok in Ht. split; [|done]. split; simpl; try done.
    intros a p. rewrite lookup_empty. split; [done|]. by intros (r & ? & _).
  - left. unfold tree_new in Ht. case_match; [done|]. injection Ht as <-. split; [done|by eexists].
Qed.

Lemma free_range_set_ok rs m : rs_ok rs m -> free_range_set rs = Done (∅, ∅).
Proof.
  intros Hok. unfold free_range_set. destruct (tree_free_ok _ _ (ro_tree _ _ Hok)) as (freed & -> & Hf).
  cbn [mbind outcome_bind]. destruct (tree_records _ _ _ Hok Hf) as [Hnd Hin].
  by rewrite free_ranges_ok.
Qed.

(** ** Runs *)

Inductive range_op := AddRange (a size idx : Z) | RemoveRange (a : Z) | ResetRanges (live : gset loc).

Definition run_range_op (mode : debug_mode_t) (hm : mem) rs (o : range_op) : outcome range_set_t :=
  match o with
  | AddRange a size idx => '(_, rs) ← add_range mode rs hm a size idx; Done rs
  | RemoveRange a => remove_range rs a
  | ResetRanges live => reset_range_set rs live
  end.

Fixpoint run_range_ops (mode : debug_mode_t) (hm : mem) rs (os : list range_op) : outcome range_set_t :=
  match os with
  | [] => Done rs
  | o :: os => rs ← run_range_op mode hm rs o; run_range_ops mode hm rs os
  end.

(** A size is positive and the payload does not wrap around the address space. *)
Definition range_op_ok (o : range_op) : Prop :=
  match o with AddRange a size _ => 0 < size /\ 0 <= a /\ a + size <= w64 | _ => True end.

Lemma run_range_ops_ok mode hm rs m os :
  rs_ok rs m -> Forall range_op_ok os ->
  (exists X f, malloc X = None /\ run_range_ops mode hm rs os = Fault f) \/
  exists rs' m', run_range_ops mode hm rs os = Done rs' /\ rs_ok rs' m'.
Proof.
  revert rs m. induction os as [|o os IH]; intros rs m Hok Hall; simpl; [right; by exists rs, m|].
  apply Forall_cons in Hall as [Ho Hall].
  assert ((exists X f, malloc X = None /\ run_range_op mode hm rs o = Fault f) \/
    exists rs' m', run_range_op mode hm rs o = Done rs' /\ rs_ok rs' m') as [(X & f & HX & ->)|(rs1 & m1 & -> & H1)].
  { destruct o as [a size idx|a|live]; simpl in *.
    - destruct Ho as (? & ? & ?). destruct (add_range_ok mode rs m hm a size idx) as [[-> [X HX]]|(v & rs' & -> & Hv)];
        [done..|left; by exists X, (Exited 1)|right]. cbn [mbind outcome_bind].
      assert (exists m', rs_ok rs' m') as [m' Hm']; [|by exists rs', m'].
      destruct v; cbn [verdict_ok] in Hv.
      + destruct Hv as (_ & _ & _ & Hv). destruct mode; [subst; by exists m|..];
          destruct Hv as (l & _ & Hok' & _); by eexists.
      + destruct Hv as [_ ->]. by exists m.
      + destruct Hv as [_ ->]. by exists m.
      + destruct Hv as (_ & _ & Hok' & _). by exists m.
    - destruct (remove_range_ok rs m a Hok) as (rs' & -> & Hok' & _). right. by eexists _, _.
    - destruct (reset_range_set_ok rs m live Hok) as [[-> [X HX]]|(rs' & -> & Hok' & _)];
        [left; by exists X, (Exited 1)|right; by exists rs', ∅]. }
  - left. by exists X, f.
  - cbn [mbind outcome_bind]. by apply (IH rs1 m1).
Qed.

(** ** Theorems *)

(** C24: what [add_range] reports is true.  On a well-formed set it never faults,
    unless [malloc] fails; a payload is rejected as misaligned exactly when it
    is, as outside the heap exactly when it sticks out, and as overlapping only
    if it overlaps the recorded payload that the message names and some recorded
    payload is not above it.  An accepted one is recorded under its address with
    its extent (nothing is recorded or compared in the mode without checks).  An
    accepted payload is known to overlap no recorded one only if no recorded
    payloads overlap, the chain is unbroken, and the set is empty or holds a
    payload that is not above the new one: then the check is exact and the chain
    stays unbroken.  Below all recorded payloads nothing is compared and an
    overlap is accepted. *)
Theorem add_range_verdict mode rs m hm a size idx :
  rs_ok rs m -> 0 < size -> 0 <= a -> a + size <= w64 ->
  (add_range mode rs hm a size idx = Fault (Exited 1) /\ exists X, malloc X = None) \/
  exists v rs', add_range mode rs hm a size idx = Done (v, rs') /\
    verdict_ok mode rs m hm a (a + size - 1) idx v rs'.
Proof. apply add_range_ok. Qed.

(** The records are never corrupted or leaked.  Any sequence of [add_range],
    [remove_range] and [reset_range_set] on a new set runs without a fault unless
    [malloc] fails, and [free_range_set] then frees every range record and every
    tree node, each once. *)
Theorem range_records_all_freed mode hm live rs os :
  new_range_set live = Done rs -> Forall range_op_ok os ->
  (exists X f, malloc X = None /\ run_range_ops mode hm rs os = Fault f) \/
  exists rs', run_range_ops mode hm rs os = Done rs' /\ free_range_set rs' = Done (∅, ∅).
Proof.
  intros [Hok _]%new_range_set_ok Hall.
  destruct (run_range_ops_ok mode hm rs ∅ os Hok Hall) as [?|(rs' & m' & -> & Hok')]; [by left|right].
  exists rs'. split; [done|]. by eapply free_range_set_ok.
Qed.
End ops.

(** ** The programs run *)

Definition demo_heap : mem := Mem 0 4096 8192 ∅.
Definition demo_set : range_set_t := RangeSet None (Tree None 0 0 ∅) ∅.

Lemma demo_set_ok : @new_range_set malloc_first ∅ = Done demo_set.
Proof. reflexivity. Qed.

Lemma add_range_verdict_witness :
  exists v rs', @add_range malloc_first DBG_EXPENSIVE demo_set demo_heap 64 16 0 = Done (v, rs') /\
    verdict_ok DBG_EXPENSIVE demo_set ∅ demo_heap 64 79 0 v rs'.
Proof.
  destruct (@add_range_verdict malloc_first DBG_EXPENSIVE demo_set ∅ demo_heap 64 16 0) as [[E _]|Hv].
  - by apply (@new_range_set_ok malloc_first ∅).
  - lia.
  - lia.
  - unfold w64. lia.
  - exfalso. vm_compute in E. discriminate.
  - exact Hv.
Defined.

Definition demo_range_ops : list range_op :=
  [AddRange 64 16 0; AddRange 0 16 1; AddRange 32 16 2; AddRange 70 8 3; RemoveRange 0; AddRange 16 8 4].

Lemma range_records_all_freed_witness :
  exists rs', @run_range_ops malloc_first DBG_EXPENSIVE demo_heap demo_set demo_range_ops = Done rs' /\
    size (ranges rs') = 3%nat /\ free_range_set rs' = Done (∅, ∅).
Proof.
  destruct (@range_records_all_freed malloc_first DBG_EXPENSIVE demo_heap ∅ demo_set demo_range_ops)
    as [(X & f & _ & E)|(rs' & E & Hf)].
  - reflexivity.
  - repeat constructor; simpl; unfold w64; lia.
  - exfalso. vm_compute in E. discriminate.
  - exists rs'. split; [exact E|]. split; [|exact Hf]. vm_compute in E. injection E as <-. reflexivity.
Defined.

(** [add_range] can accept a payload that overlaps a recorded one.  A range
    added below all the others gets no [next] link (and becomes the whole list),
    so a later payload just above it is not compared with the range that follows:
    after payloads at 64..79 and 0..15, the payload 32..95 is accepted. *)
Theorem add_range_misses_overlap :
  exists rs, @run_range_ops malloc_first DBG_EXPENSIVE demo_heap demo_set [AddRange 64 16 0; AddRange 0 16 1] = Done rs /\
    (exists p r, ranges rs !! p = Some r /\ overlaps r 32 95) /\
    exists rs', @add_range malloc_first DBG_EXPENSIVE rs demo_heap 32 64 2 = Done (Accepted, rs').
Proof.
  eexists. split; [vm_compute; reflexivity|]. split.
  - exists 1%positive. eexists. split; [vm_compute; reflexivity|]. split; simpl; lia.
  - eexists. vm_compute. reflexivity.
Qed.

(** So does one below all the others itself: with only 64..79 recorded, the payload
    32..95 around it is accepted. *)
Theorem add_range_misses_overlap_below :
  exists rs, @run_range_ops malloc_first DBG_EXPENSIVE demo_heap demo_set [AddRange 64 16 0] = Done rs /\
    (exists p r, ranges rs !! p = Some r /\ overlaps r 32 95) /\
    exists rs', @add_range malloc_first DBG_EXPENSIVE rs demo_heap 32 64 1 = Done (Accepted, rs').
Proof.
  eexists. split; [vm_compute; reflexivity|]. split.
  - exists 1%positive. eexists. split; [vm_compute; reflexivity|]. split; simpl; lia.
  - eexists. vm_compute. reflexivity.
Qed.
