(* ===== verification/TraceFile.v ===== *)
(** * The trace files of the malloc lab's driver

    [assignment-2-malloclab-FreezeKickerz/mdriver.c]: [traceop_t], [trace_t],
    [read_trace] and [reinit_trace].  A trace file is a list of tokens, integer
    literals and words, as [fscanf] takes them; a field that [malloc] left
    uninitialised is [None]. *)

From Stdlib Require Import ZArith Lia String Ascii.
From stdpp Require Import gmap list strings.
From S2P Require Import Prelude.

(** ** Data *)

Inductive op_type := ALLOC | FREE | REALLOC.
Record traceop_t := TraceOp { type : op_type; op_index : Z; op_size : option Z }.

Inductive weight_t := WNONE | WALL | WUTIL | WPERF.

Record trace_t := Trace {
  weight : weight_t;
  data_bytes : option Z;
  num_ids : Z;
  num_ops : Z;
  ops : list traceop_t;
  blocks : list Z;
  block_sizes : list Z;
  block_rand_base : list Z
}.

Definition set_blocks (t : trace_t) (i p : Z) : outcome trace_t :=
  if i <? 0 then Fault OutOfRange
  else l ← array_set (blocks t) (Z.to_nat i) p;
       Done (Trace (weight t) (data_bytes t) (num_ids t) (num_ops t) (ops t) l (block_sizes t) (block_rand_base t)).
Definition set_block_sizes (t : trace_t) (i n : Z) : outcome trace_t :=
  if i <? 0 then Fault OutOfRange
  else l ← array_set (block_sizes t) (Z.to_nat i) n;
       Done (Trace (weight t) (data_bytes t) (num_ids t) (num_ops t) (ops t) (blocks t) l (block_rand_base t)).
Definition set_rand_base (t : trace_t) (i b : Z) : outcome trace_t :=
  if i <? 0 then Fault OutOfRange
  else l ← array_set (block_rand_base t) (Z.to_nat i) b;
       Done (Trace (weight t) (data_bytes t) (num_ids t) (num_ops t) (ops t) (blocks t) (block_sizes t) l).

(** [a[i]] for an [int] index. *)
Definition at_index {A} (l : list A) (i : Z) : outcome A :=
  if i <? 0 then Fault OutOfRange else array_get l (Z.to_nat i).

Definition reinit_trace (t : trace_t) : trace_t :=
  Trace (weight t) (data_bytes t) (num_ids t) (num_ops t) (ops t)
    (replicate (Z.to_nat (num_ids t)) 0) (replicate (Z.to_nat (num_ids t)) 0) (block_rand_base t).

(** ** Reading a trace *)

Inductive token := Num (z : Z) | Word (w : string).

Definition wrap_int (z : Z) : Z :=
  let u := z mod 4294967296 in if u <? 2147483648 then u else u - 4294967296.

(** [fscanf] with one conversion into a variable that holds [v].  A word does not
    match and stays; a literal that the object cannot hold is undefined. *)
Definition scan (ok : Z -> bool) (conv : Z -> Z) (v : option Z) (f : list token) : outcome (option Z * list token) :=
  match f with
  | Num z :: f => if ok z then Done (Some (conv z), f) else Fault SignedOverflow
  | _ => Done (v, f)
  end.
Definition scan_d := scan (fun z => (int_min <=? z) && (z <=? int_max)) id.
Definition scan_u := scan (fun z => (-4294967296 <? z) && (z <? 4294967296)) wrap_int.
Definition scan_lu := scan (fun z => (- w64 <? z) && (z <? w64)) wrap64.
Definition scan_zd := scan (fun z => (-9223372036854775808 <=? z) && (z <=? 9223372036854775807)) wrap64.

Definition initialised {A} (v : option A) : outcome A :=
  match v with Some a => Done a | None => Fault Uninitialised end.

(** The array of [n] elements that [malloc(n * sizeof)] or [calloc(n, sizeof)]
    returns; for a negative [n] the size is beyond any allocation. *)
Definition new_array {A} (n : Z) (a : A) : outcome (list A) :=
  if n <? 0 then Fault (Exited 1) else Done (replicate (Z.to_nat n) a).

Definition to_weight (w : Z) : outcome weight_t :=
  match w with 0 => Done WNONE | 1 => Done WALL | 2 => Done WUTIL | 3 => Done WPERF | _ => Fault (Exited 1) end.

(** The loop over the request lines: the variables [index], [size], [max_index]
    and [op_index], and the array filled so far. *)
Record reader := Reader {
  r_index : option Z; r_size : option Z; r_max_index : Z; r_op_index : nat; r_ops : list (option traceop_t)
}.

Definition store_op (r : reader) (o : traceop_t) (m : Z) : outcome reader :=
  l ← array_set (r_ops r) (r_op_index r) (Some o);
  Done (Reader (r_index r) (r_size r) m (S (r_op_index r)) l).

Definition read_request (c : ascii) (r : reader) (f0 : list token) : outcome (reader * list token) :=
  if (c =? "a")%char || (c =? "r")%char then
    '(i, f) ← scan_u (r_index r) f0;
    '(n, f) ← (match f0 with Num _ :: _ => scan_lu (r_size r) f | _ => Done (r_size r, f) end);
    i' ← initialised i;
    n' ← initialised n;
    let ty := if (c =? "a")%char then ALLOC else REALLOC in
    r ← store_op (Reader i n (r_max_index r) (r_op_index r) (r_ops r)) (TraceOp ty i' (Some n'))
          (if r_max_index r <? i' then i' else r_max_index r);
    Done (r, f)
  else if (c =? "f")%char then
    '(i, f) ← scan_u (r_index r) f0;
    i' ← initialised i;
    r ← store_op (Reader i (r_size r) (r_max_index r) (r_op_index r) (r_ops r)) (TraceOp FREE i' None) (r_max_index r);
    Done (r, f)
  else Fault (Exited 1).

Fixpoint read_requests (fuel : nat) (n : Z) (r : reader) (f : list token) : outcome reader :=
  match fuel with
  | O => Fault Diverges
  | S fuel =>
      match f with
      | [] => Done r
      | Num _ :: _ => Fault (Exited 1)
      | Word "" :: _ => Fault (Exited 1)
      | Word (String c _) :: f =>
          '(r, f) ← read_request c r f;
          if Z.of_nat (r_op_index r) =? n then Done r else read_requests fuel n r f
      end
  end.

Definition read_trace (f : list token) : outcome trace_t :=
  '(w, f) ← scan_d None f;
  '(ids, f) ← scan_d None f;
  '(n, f) ← scan_d None f;
  '(bytes, f) ← scan_zd None f;
  w ← initialised w;
  w ← to_weight w;
  n ← initialised n;
  ids ← initialised ids;
  l ← new_array n None;
  bl ← new_array ids 0;
  r ← read_requests (S (length f)) n (Reader (Some 0) None 0 0 l) f;
  _ ← c_assert (r_max_index r =? ids - 1);
  _ ← c_assert (n =? Z.of_nat (r_op_index r));
  l ← initialised (mapM id (r_ops r));
  Done (Trace w bytes ids n l bl bl bl).

(** ** Writing one *)

Definition weight_num (w : weight_t) : Z := match w with WNONE => 0 | WALL => 1 | WUTIL => 2 | WPERF => 3 end.

Definition print_op (o : traceop_t) : list token :=
  match type o with
  | ALLOC => [Word "a"; Num (op_index o); Num (default 0 (op_size o))]
  | REALLOC => [Word "r"; Num (op_index o); Num (default 0 (op_size o))]
  | FREE => [Word "f"; Num (op_index o)]
  end.

Definition print_trace (t : trace_t) : list token :=
  [Num (weight_num (weight t)); Num (num_ids t); Num (num_ops t); Num (default 0 (data_bytes t))] ++
  concat (print_op <$> ops t).

(** An operation that a trace file can hold. *)
Definition op_ok (o : traceop_t) : Prop :=
  int_ok (op_index o) /\
  match type o, op_size o with FREE, None => True | ALLOC, Some n | REALLOC, Some n => u64 n | _, _ => False end.

Definition max_id (l : list traceop_t) (m : Z) : Z :=
  fold_left (fun m o => match type o with FREE => m | _ => if m <? op_index o then op_index o else m end) l m.

Record fresh_trace (t : trace_t) : Prop := {
  ft_ops : Forall op_ok (ops t);
  ft_num_ops : num_ops t = Z.of_nat (length (ops t)) /\ 0 < num_ops t <= int_max;
  ft_num_ids : num_ids t = max_id (ops t) 0 + 1 /\ num_ids t <= int_max;
  ft_bytes : exists b, data_bytes t = Some b /\ 0 <= b <= 9223372036854775807;
  ft_arrays : let z := replicate (Z.to_nat (num_ids t)) 0 in
    blocks t = z /\ block_sizes t = z /\ block_rand_base t = z
}.

(** ** Reading back what was written *)

Lemma wrap_int_ok z : int_ok z -> wrap_int z = z.
Proof.
  unfold int_ok, int_min, int_max, wrap_int. intros Hz. destruct (decide (0 <= z)).
  - rewrite Z.mod_small by lia. destruct (z <? 2147483648) eqn:E; lia.
  - replace (z mod 4294967296) with (z + 4294967296).
    + destruct (z + 4294967296 <? 2147483648) eqn:E; lia.
    + rewrite <- (Z.mod_add z 1) by lia. rewrite Z.mod_small; lia.
Qed.

Lemma scan_u_ok v z f : int_ok z -> scan_u v (Num z :: f) = Done (Some z, f).
Proof.
  intros Hz. unfold scan_u, scan. rewrite wrap_int_ok by done.
  unfold int_ok, int_min, int_max in Hz. destruct (_ && _) eqn:E; [done|]. lia.
Qed.

Lemma scan_d_ok v z f : int_ok z -> scan_d v (Num z :: f) = Done (Some z, f).
Proof.
  intros Hz. unfold scan_d, scan, int_ok, int_min, int_max in *. destruct (_ && _) eqn:E; [done|]. lia.
Qed.

Lemma scan_lu_ok v z f : u64 z -> scan_lu v (Num z :: f) = Done (Some z, f).
Proof.
  intros Hz. unfold scan_lu, scan. rewrite wrap64_small by done.
  destruct (_ && _) eqn:E; [done|]. unfold u64, w64 in *. lia.
Qed.

Lemma scan_zd_ok v z f : 0 <= z <= 9223372036854775807 -> scan_zd v (Num z :: f) = Done (Some z, f).
Proof.
  intros Hz. unfold scan_zd, scan. rewrite wrap64_small by u64_lia.
  destruct (_ && _) eqn:E; [done|]. lia.
Qed.

(** One request line: the operation is stored in the next element. *)
Definition after_op (r : reader) (o : traceop_t) : reader :=
  Reader (Some (op_index o)) (match type o with FREE => r_size r | _ => op_size o end)
    (max_id [o] (r_max_index r)) (S (r_op_index r)) (<[r_op_index r := Some o]> (r_ops r)).

Lemma read_request_ok c w o r f :
  op_ok o -> print_op o = Word (String c "") :: w -> (r_op_index r < length (r_ops r))%nat ->
  read_request c r (w ++ f) = Done (after_op r o, f).
Proof.
  intros [Hi Ho] Hp Hlen. destruct o as [ty i n]. simpl in *.
  destruct ty; destruct n as [n|]; try done; injection Hp as <- <-; unfold read_request;
    cbn [app Ascii.eqb Bool.eqb orb default]; rewrite scan_u_ok by done; cbn [mbind outcome_bind];
    rewrite ?scan_lu_ok by done; cbn [mbind outcome_bind initialised];
    unfold store_op, array_set; cbn [r_ops r_op_index]; by rewrite decide_True by done.
Qed.

Lemma read_requests_ok os fuel n r f :
  Forall op_ok os -> os <> [] -> (length os < fuel)%nat ->
  n = Z.of_nat (r_op_index r + length os) -> (r_op_index r + length os <= length (r_ops r))%nat ->
  read_requests fuel n r (concat (print_op <$> os) ++ f) = Done (fold_left after_op os r).
Proof.
  revert fuel r. induction os as [|o os IH]; intros fuel r Hall Hne Hf Hn Hlen; [done|].
  apply Forall_cons in Hall as [Ho Hall]. destruct fuel as [|fuel]; simpl in Hf; [lia|].
  assert (exists c w, print_op o = Word (String c "") :: w) as (c & w & Hp).
  { unfold print_op. destruct (type o); eauto. }
  simpl in Hlen. rewrite fmap_cons, concat_cons, Hp, <- app_assoc.
  cbn [app read_requests].
  rewrite (read_request_ok c w o r _ Ho Hp) by lia. cbn [mbind outcome_bind fold_left].
  destruct os as [|o' os].
  - replace (Z.of_nat (r_op_index (after_op r o)) =? n) with true by (symmetry; apply Z.eqb_eq; simpl in *; lia).
    done.
  - replace (Z.of_nat (r_op_index (after_op r o)) =? n) with false by (symmetry; apply Z.eqb_neq; simpl in *; lia).
    apply IH; [done|done|simpl in *; lia|simpl in *; lia|].
    unfold after_op. simpl. rewrite length_insert. simpl in Hlen. lia.
Qed.

Lemma fold_after_op os r :
  r_max_index (fold_left after_op os r) = max_id os (r_max_index r) /\
  r_op_index (fold_left after_op os r) = (r_op_index r + length os)%nat.
Proof.
  revert r. induction os as [|o os IH]; intros r; simpl; [by rewrite Nat.add_0_r|].
  destruct (IH (after_op r o)) as [-> ->]. simpl. split; [done|]. lia.
Qed.

Lemma fold_after_op_ops os r k :
  r_op_index r = length k -> (exists rest, r_ops r = k ++ rest /\ length rest = length os) ->
  r_ops (fold_left after_op os r) = k ++ (Some <$> os).
Proof.
  revert r k. induction os as [|o os IH]; intros r k Hk (rest & Hr & Hlen); simpl in *.
  - destruct rest; [|done]. by rewrite Hr.
  - destruct rest as [|x rest]; [done|]. rewrite (IH _ (k ++ [Some o])).
    + by rewrite <- app_assoc.
    + simpl. rewrite length_app. simpl. lia.
    + exists rest. simpl. split; [|simpl in Hlen; lia]. rewrite Hr, Hk.
      rewrite insert_app_r_alt, Nat.sub_diag by done. simpl. by rewrite <- app_assoc.
Qed.

Lemma mapM_Some_id {A} (l : list A) : mapM id (Some <$> l) = Some l.
Proof. by apply mapM_fmap_Some. Qed.

Lemma print_length os : (length os <= length (concat (print_op <$> os)))%nat.
Proof.
  induction os as [|o os IH]; [done|]. rewrite fmap_cons, concat_cons, length_app.
  assert (0 < length (print_op o))%nat by (unfold print_op; destruct (type o); simpl; lia). simpl. lia.
Qed.

(** C39: the reader and the file format agree.  [read_trace], applied to the file
    of any trace whose header is right and whose numbers are in range, returns
    that trace, with its block arrays cleared. *)
Theorem read_print_trace (t : trace_t) : fresh_trace t -> read_trace (print_trace t) = Done t.
Proof.
  destruct t as [w b ids n os bl bs rb]. intros [Hops [Hn1 Hn2] [Hid1 Hid2] (b' & Hb & Hb') Ha].
  simpl in *. destruct Ha as (-> & -> & ->). subst b. unfold read_trace, print_trace. cbn [app weight num_ids num_ops data_bytes ops default].
  assert (Hmax : forall l m, m <= max_id l m).
  { induction l as [|o l IH]; intros m; simpl; [lia|]. etrans; [|apply IH].
    destruct (type o); [|lia|]; destruct (m <? op_index o) eqn:E; lia. }
  pose proof (Hmax os 0).
  rewrite scan_d_ok by (destruct w; by unfold int_ok, int_min, int_max; simpl; lia). cbn [mbind outcome_bind].
  rewrite scan_d_ok by (unfold int_ok, int_min in *; lia). cbn [mbind outcome_bind].
  rewrite scan_d_ok by (unfold int_ok, int_min in *; lia). cbn [mbind outcome_bind].
  rewrite scan_zd_ok by done. cbn [mbind outcome_bind initialised].
  assert (to_weight (weight_num w) = Done w) as -> by by destruct w. cbn [mbind outcome_bind].
  unfold new_array. rewrite !(proj2 (Z.ltb_ge _ _)) by lia. cbn [mbind outcome_bind].
  rewrite <- (app_nil_r (concat _)).
  rewrite read_requests_ok; simpl; rewrite ?length_replicate, ?length_app; try done; try lia.
  2:{ intros ->. simpl in *. lia. }
  2:{ pose proof (print_length os). simpl. lia. }
  cbn [mbind outcome_bind].
  destruct (fold_after_op os (Reader (Some 0) None 0 0 (replicate (Z.to_nat n) None))) as [-> ->].
  rewrite (fold_after_op_ops _ _ []); [|done|].
  2:{ eexists. split; [done|]. simpl. rewrite length_replicate. lia. }
  simpl. rewrite !(proj2 (Z.eqb_eq _ _)) by lia. cbn [mbind outcome_bind c_assert].
  by rewrite mapM_Some_id.
Qed.

Definition demo_trace : trace_t :=
  Trace WALL (Some 48) 3 6
    [TraceOp ALLOC 0 (Some 16); TraceOp ALLOC 1 (Some 32); TraceOp FREE 0 None; TraceOp REALLOC 1 (Some 40);
     TraceOp ALLOC 2 (Some 25); TraceOp FREE (-1) None] [0; 0; 0] [0; 0; 0] [0; 0; 0].

Lemma demo_trace_fresh : fresh_trace demo_trace.
Proof. split; repeat (done || constructor || eexists); unfold u64, w64, int_max; simpl; lia. Qed.

Lemma read_print_trace_witness :
  print_trace demo_trace = [Num 1; Num 3; Num 6; Num 48; Word "a"; Num 0; Num 16; Word "a"; Num 1; Num 32;
    Word "f"; Num 0; Word "r"; Num 1; Num 40; Word "a"; Num 2; Num 25; Word "f"; Num (-1)] /\
  read_trace (print_trace demo_trace) = Done demo_trace.
Proof. split; [reflexivity|]. apply (read_print_trace demo_trace). exact demo_trace_fresh. Defined.

(** A header that announces no requests: the first request line is stored past
    the end of the array, because the count is compared only afterwards. *)
Example zero_ops_overflows :
  read_trace [Num 0; Num 1; Num 0; Num 0; Word "a"; Num 0; Num 16] = Fault OutOfRange.
Proof. reflexivity. Qed.
