(* ===== verification/Driver.v ===== *)
(** * The malloc lab's driver: the evaluation of an allocator on a trace

    [assignment-2-malloclab-FreezeKickerz/mdriver.c:800-1478].  The allocator is
    an interface, which [mm.c] implements; the memory it manages is the simulated
    one of [memlib.c], through which the driver reads and writes the payloads. *)

From Stdlib Require Import ZArith Lia.
From stdpp Require Import gmap list.
From S2P Require Import Prelude MemLib Mm STree RangeSet TraceFile.

(** ** What the driver calls *)

(** The package under test: its own variables and the simulated memory. *)
Class Allocator (H : Type) := {
  a_mem : H -> mem;
  a_with_mem : H -> mem -> H;
  a_init : H -> outcome (bool * H);
  a_malloc : H -> Z -> outcome (Z * H);
  a_realloc : H -> Z -> Z -> outcome (Z * H);
  a_free : H -> Z -> outcome H;
  a_checkheap : H -> outcome bool
}.

#[export] Instance mm_allocator : Allocator mm := {
  a_mem := memory;
  a_with_mem := set_memory;
  a_init := mm_init;
  a_malloc := Mm.malloc;
  a_realloc := Mm.realloc;
  a_free := Mm.free;
  a_checkheap s := Done (mm_checkheap s 0)
}.

(** The library's [random], whose values are those its manual gives. *)
Class Random := {
  random : Z -> Z * Z;
  random_range s : 0 <= fst (random s) <= 2147483647
}.

(** ** Messages and state *)

(** What [malloc_error] prints. *)
Inductive report :=
  | InitFailed
  | CheckheapFailed
  | MallocFailed
  | BadPayload (v : verdict)
  | ReallocFailed
  | ReallocZero
  | GarbledBlock (index ngarbled firstgarbled : Z).

Definition RANDOM_DATA_LEN : Z := 65536.
Definition maxfill : Z := 1024.

(** The table of random bytes, by index, and the loop that fills it. *)
Fixpoint fill_random `{Random} (n : nat) (len : Z) (tbl : gmap Z Z) (s : Z) : gmap Z Z * Z :=
  match n with
  | O => (tbl, s)
  | S n => let '(r, s) := random s in fill_random n (len + 1) (<[len := r mod 256]> tbl) s
  end.

Definition init_random_data `{Random} (debug_mode : debug_mode_t) (tbl : gmap Z Z) (s : Z) : gmap Z Z * Z :=
  match debug_mode with
  | DBG_NONE => (tbl, s)
  | _ => fill_random (Z.to_nat RANDOM_DATA_LEN) 0 tbl s
  end.

Section code.
Context `{MA : Malloc} `{RA : Random} {H : Type} `{AA : Allocator H}.
(** The debug mode, and the table that [init_random_data] filled. *)
Context (debug_mode : debug_mode_t) (random_data : gmap Z Z).

Record driver := Driver {
  package : H;
  trace : trace_t;
  range_set : range_set_t;
  seed : Z;
  messages : list (Z * report)
}.

Implicit Types (d : driver).

Definition set_package d (h : H) : driver := Driver h (trace d) (range_set d) (seed d) (messages d).
Definition set_trace d (t : trace_t) : driver := Driver (package d) t (range_set d) (seed d) (messages d).
Definition set_ranges d (rs : range_set_t) : driver := Driver (package d) (trace d) rs (seed d) (messages d).

(** [errors++] and the message, for the request [opnum]. *)
Definition malloc_error d (opnum : Z) (r : report) : driver :=
  Driver (package d) (trace d) (range_set d) (seed d) (messages d ++ [(opnum, r)]).
Definition errors d : Z := Z.of_nat (length (messages d)).

(** ** Filling and checking payloads *)

(** The bytes that are filled: so many at the start, then so many at an offset. *)
Definition fill_extent (size : Z) : Z * Z * Z :=
  if maxfill <? size then
    if mul64 2 maxfill <? size then (maxfill, size - maxfill, maxfill) else (maxfill, maxfill, size - maxfill)
  else (size, 0, 0).

Definition random_byte (base i : Z) : outcome Z :=
  match random_data !! (add64 (wrap64 base) i mod RANDOM_DATA_LEN) with Some v => Done v | None => Fault OutOfRange end.

Fixpoint fill (n : nat) (m : mem) (block base i : Z) : outcome mem :=
  match n with
  | O => Done m
  | S n => v ← random_byte base i; m ← mem_write m (block + i) v 1; fill n m block base (i + 1)
  end.

Definition randomize_block d (index : Z) : outcome driver :=
  match debug_mode with
  | DBG_NONE => Done d
  | _ =>
      let '(r, s) := random (seed d) in
      t ← set_rand_base (trace d) index r;
      let d := Driver (package d) t (range_set d) s (messages d) in
      block ← at_index (blocks t) index;
      size ← at_index (block_sizes t) index;
      if size =? 0 then Done d
      else
        let '(fsize, off_end, fsize_end) := fill_extent size in
        base ← at_index (block_rand_base t) index;
        m ← fill (Z.to_nat fsize) (a_mem (package d)) block base 0;
        m ← fill (Z.to_nat fsize_end) m (block + off_end) base 0;
        Done (set_package d (a_with_mem (package d) m))
  end.

(** The loop that compares, with [ngarbled] and [firstgarbled]. *)
Fixpoint compare (n : nat) (m : mem) (block base i : Z) (g : Z * Z) : outcome (Z * Z) :=
  match n with
  | O => Done g
  | S n =>
      b ← mem_read m (block + i) 1;
      v ← random_byte base i;
      let '(ngarbled, firstgarbled) := g in
      let g := if b =? v then g else (ngarbled + 1, if firstgarbled =? -1 then i else firstgarbled) in
      compare n m block base (i + 1) g
  end.

Definition check_index d (opnum index : Z) (realloc : bool) : outcome (bool * driver) :=
  if index <? 0 then Done (true, d)
  else
    match debug_mode with
    | DBG_NONE => Done (true, d)
    | _ =>
        block ← at_index (blocks (trace d)) index;
        size ← at_index (block_sizes (trace d)) index;
        if size =? 0 then Done (true, d)
        else
          let '(fsize, off_end, fsize_end) := fill_extent size in
          let fsize_end := if realloc then 0 else fsize_end in
          base ← at_index (block_rand_base (trace d)) index;
          g ← compare (Z.to_nat fsize) (a_mem (package d)) block base 0 (0, -1);
          g ← compare (Z.to_nat fsize_end) (a_mem (package d)) (block + off_end) base 0 g;
          let '(ngarbled, firstgarbled) := g in
          if ngarbled =? 0 then Done (true, d)
          else Done (false, malloc_error d opnum (GarbledBlock index ngarbled firstgarbled))
    end.

(** ** Correctness *)

(** [add_range] with its message. *)
Definition record_payload d (p size opnum index : Z) : outcome (bool * driver) :=
  '(v, rs) ← add_range debug_mode (range_set d) (a_mem (package d)) p size index;
  let d := set_ranges d rs in
  Done (match v with Accepted => (true, d) | _ => (false, malloc_error d opnum (BadPayload v)) end).

Definition forget_payload d (p : Z) : outcome driver :=
  rs ← remove_range (range_set d) p; Done (set_ranges d rs).

(** [while (r) ...]: the walk over the list of ranges. *)
Fixpoint check_ranges (fuel : nat) d (opnum : Z) (r : ptr) : outcome (bool * driver) :=
  match fuel with
  | O => Fault Diverges
  | S fuel =>
      match r with
      | None => Done (true, d)
      | Some _ =>
          x ← get_range (range_set d) r;
          '(ok, d) ← check_index d opnum (index x) false;
          if (ok : bool) then check_ranges fuel d opnum (next x) else Done (false, d)
      end
  end.

Definition check_all d (opnum : Z) : outcome (bool * driver) :=
  match debug_mode with
  | DBG_EXPENSIVE =>
      ok ← a_checkheap (package d);
      if (ok : bool) then check_ranges (S (size (ranges (range_set d)))) d opnum (rlist (range_set d))
      else Done (false, malloc_error d opnum CheckheapFailed)
  | _ => Done (true, d)
  end.

Definition valid_alloc d (opnum index size : Z) : outcome (bool * driver) :=
  '(p, h) ← a_malloc (package d) size;
  let d := set_package d h in
  if p =? 0 then Done (false, malloc_error d opnum MallocFailed)
  else
    '(ok, d) ← record_payload d p size opnum index;
    if (ok : bool) then
      t ← set_blocks (trace d) index p;
      t ← set_block_sizes t index size;
      d ← randomize_block (set_trace d t) index;
      Done (true, d)
    else Done (false, d).

(** The part of a [REALLOC] request after the call. *)
Definition valid_moved d (opnum index oldp newp size : Z) : outcome (bool * driver) :=
  d ← forget_payload d oldp;
  '(ok, d) ← (if 0 <? size then record_payload d newp size opnum index else Done (true, d));
  if (ok : bool) then
    t ← set_blocks (trace d) index newp;
    old_size ← at_index (block_sizes t) index;
    t ← (if size <? old_size then set_block_sizes t index size else Done t);
    '(ok, d) ← check_index (set_trace d t) opnum index true;
    if (ok : bool) then
      t ← set_block_sizes (trace d) index size;
      d ← randomize_block (set_trace d t) index;
      Done (true, d)
    else Done (false, d)
  else Done (false, d).

Definition valid_realloc d (opnum index size : Z) : outcome (bool * driver) :=
  '(ok, d) ← check_index d opnum index false;
  if (ok : bool) then
    oldp ← at_index (blocks (trace d)) index;
    '(newp, h) ← a_realloc (package d) oldp size;
    let d := set_package d h in
    if (newp =? 0) && negb (size =? 0) then Done (false, malloc_error d opnum ReallocFailed)
    else if negb (newp =? 0) && (size =? 0) then Done (false, malloc_error d opnum ReallocZero)
    else valid_moved d opnum index oldp newp size
  else Done (false, d).

Definition valid_free d (opnum index : Z) : outcome (bool * driver) :=
  '(ok, d) ← check_index d opnum index false;
  if (ok : bool) then
    '(p, d) ← (if index =? -1 then Done (0, d)
               else p ← at_index (blocks (trace d)) index; d ← forget_payload d p; Done (p, d));
    h ← a_free (package d) p;
    Done (true, set_package d h)
  else Done (false, d).

(** One request. *)
Definition valid_op d (opnum : Z) (o : traceop_t) : outcome (bool * driver) :=
  '(ok, d) ← check_all d opnum;
  if (ok : bool) then
    match type o with
    | ALLOC => n ← initialised (op_size o); valid_alloc d opnum (op_index o) n
    | REALLOC => n ← initialised (op_size o); valid_realloc d opnum (op_index o) n
    | FREE => valid_free d opnum (op_index o)
    end
  else Done (false, d).

Fixpoint valid_ops d (opnum : Z) (os : list traceop_t) : outcome (bool * driver) :=
  match os with
  | [] => Done (true, d)
  | o :: os =>
      '(ok, d) ← valid_op d opnum o;
      if (ok : bool) then valid_ops d (opnum + 1) os else Done (false, d)
  end.

Definition eval_mm_valid d (live : gset loc) : outcome (bool * driver) :=
  let d := set_package d (a_with_mem (package d) (mem_reset_brk (a_mem (package d)))) in
  let d := set_trace d (reinit_trace (trace d)) in
  rs ← reset_range_set (range_set d) live;
  let d := set_ranges d rs in
  '(ok, h) ← a_init (package d);
  let d := set_package d h in
  if (ok : bool) then valid_ops d 0 (ops (trace d))
  else Done (false, malloc_error d 0 InitFailed).
End code.
Arguments driver H : clear implicits.
