(* ===== verification/DriverFill.v ===== *)
(** * The driver's random data: what [check_index] notices

    [randomize_block] fills the first and the last [maxfill] bytes of a payload
    from the table of random bytes, and [check_index] compares those bytes. *)

From Stdlib Require Import ZArith Lia.
From stdpp Require Import gmap list.
From S2P Require Import Prelude MemLib STree RangeSet TraceFile Driver.

(** ** The table *)

Definition table_ok (tbl : gmap Z Z) : Prop :=
  forall i, 0 <= i < RANDOM_DATA_LEN -> exists v, tbl !! i = Some v /\ byte v.

(** The byte that position [i] of a block with this base gets. *)
Definition table_byte (tbl : gmap Z Z) (base i : Z) : Z :=
  default 0 (tbl !! (add64 (wrap64 base) i mod RANDOM_DATA_LEN)).

Lemma fill_random_ok `{Random} n len tbl s i :
  0 <= len -> (len <= i < len + Z.of_nat n \/ exists v, tbl !! i = Some v /\ byte v) ->
  exists v, (fill_random n len tbl s).1 !! i = Some v /\ byte v.
Proof.
  revert len tbl s. induction n as [|n IH]; intros len tbl s Hlen Hi; simpl.
  { destruct Hi as [Hi|Hi]; [lia|done]. }
  destruct (random s) as [r s']. apply IH; [lia|].
  destruct (decide (len = i)) as [->|Hne].
  - right. exists (r mod 256). rewrite lookup_insert_eq. split; [done|]. apply Z.mod_pos_bound. lia.
  - rewrite lookup_insert_ne by done. destruct Hi as [Hi|Hi]; [left; lia|by right].
Qed.

Lemma init_random_data_ok `{Random} mode tbl s :
  mode <> DBG_NONE -> table_ok (init_random_data mode tbl s).1.
Proof.
  intros Hm i Hi. unfold init_random_data. destruct mode; [done|..];
    apply fill_random_ok; try lia; left; rewrite Z2Nat.id; unfold RANDOM_DATA_LEN in *; lia.
Qed.

Lemma random_byte_ok tbl base i : table_ok tbl -> random_byte tbl base i = Done (table_byte tbl base i).
Proof.
  intros Ht. unfold random_byte, table_byte.
  destruct (Ht (add64 (wrap64 base) i mod RANDOM_DATA_LEN)) as (v & -> & _); [|done].
  apply Z.mod_pos_bound. unfold RANDOM_DATA_LEN. lia.
Qed.

Lemma table_byte_ok tbl base i : table_ok tbl -> byte (table_byte tbl base i).
Proof.
  intros Ht. unfold table_byte.
  destruct (Ht (add64 (wrap64 base) i mod RANDOM_DATA_LEN)) as (v & -> & Hv); [|done].
  apply Z.mod_pos_bound. unfold RANDOM_DATA_LEN. lia.
Qed.

(** ** The two loops *)

Lemma mem_read_byte m a : mem_ok m -> inside m a 8 -> mem_read m a 1 = Done (byte_at m a).
Proof.
  intros Hm Hi. rewrite mem_read_part by (done || lia). f_equal.
  rewrite <- (Z.add_0_r a) at 2. rewrite <- (byte_of_read 8 m a 0 Hm) by lia.
  by rewrite Z.div_1_r.
Qed.

Section loops.
Context (tbl : gmap Z Z) (Htbl : table_ok tbl).

Lemma fill_ok n m block base i :
  mem_ok m -> inside m (block + i) (Z.of_nat n) ->
  exists m', fill tbl n m block base i = Done m' /\ mem_ok m' /\ same_region m m' /\
    forall x, byte_at m' x =
      if decide (block + i <= x < block + i + Z.of_nat n) then table_byte tbl base (x - block) else byte_at m x.
Proof using Htbl.
  revert m i. induction n as [|n IH]; intros m i Hm [Hlo Hhi].
  { exists m. split_done. intros x. rewrite decide_False by lia. done. }
  simpl. rewrite random_byte_ok by done. cbn [mbind outcome_bind].
  assert (Hin : inside m (block + i) 1) by (split; lia).
  rewrite (mem_write_part _ _ _ 1 ltac:(lia) Hin). cbn [mbind outcome_bind].
  set (m1 := write_bytes _ _ _ _).
  destruct (write_bytes_frame (Z.to_nat 1) m (block + i) (table_byte tbl base i)) as (E1 & E2 & E3).
  destruct (IH m1 (i + 1)) as (m' & -> & Hm' & (F1 & F2 & F3) & Hb).
  - by apply write_bytes_ok.
  - split; unfold m1; rewrite ?E1, ?E3; lia.
  - exists m'. split_done. intros x. rewrite Hb. unfold m1. rewrite byte_at_write.
    repeat case_decide; try lia; try done.
    replace x with (block + i) by lia. rewrite Z.sub_diag, Z.div_1_r.
    rewrite Z.mod_small by apply (table_byte_ok tbl base i Htbl). f_equal. lia.
Qed.

(** The positions that [compare] reports. *)
Definition garbled (m : mem) (block base i n : Z) : list Z :=
  filter (fun j => byte_at m (block + j) <> table_byte tbl base j) (seqZ i n).

Lemma compare_ok n m block base i ng fg :
  mem_ok m -> inside m (block + i) (Z.of_nat n + 7) ->
  exists fg', compare tbl n m block base i (ng, fg) =
    Done (ng + Z.of_nat (length (garbled m block base i (Z.of_nat n))), fg').
Proof using Htbl.
  intros Hm. revert i ng fg. induction n as [|n IH]; intros i ng fg Hin.
  { exists fg. simpl. by rewrite Z.add_0_r. }
  simpl. destruct Hin as [Hlo Hhi]. rewrite mem_read_byte by (done || split; lia).
  cbn [mbind outcome_bind]. rewrite random_byte_ok by done. cbn [mbind outcome_bind].
  unfold garbled. rewrite seqZ_cons by lia. rewrite filter_cons.
  replace (Z.pred (Z.of_nat (S n))) with (Z.of_nat n) by lia. replace (Z.succ i) with (i + 1) by lia.
  destruct (byte_at m (block + i) =? table_byte tbl base i) eqn:E.
  - apply Z.eqb_eq in E. rewrite decide_False by auto.
    destruct (IH (i + 1) ng fg) as [fg' ->]; [split; lia|]. by exists fg'.
  - apply Z.eqb_neq in E. rewrite decide_True by auto.
    destruct (IH (i + 1) (ng + 1) (if fg =? -1 then i else fg)) as [fg' ->]; [split; lia|].
    exists fg'. do 2 f_equal. simpl. fold (garbled m block base (i + 1) (Z.of_nat n)). lia.
Qed.

Lemma garbled_nil m block base i n :
  garbled m block base i n = [] <-> forall j, i <= j < i + n -> byte_at m (block + j) = table_byte tbl base j.
Proof using Type.
  unfold garbled. split.
  - intros Hf j Hj. destruct (decide (byte_at m (block + j) = table_byte tbl base j)) as [|Hne]; [done|].
    assert (Hin : j ∈ filter (fun j => byte_at m (block + j) <> table_byte tbl base j) (seqZ i n)).
    { apply list_elem_of_filter. split; [done|]. by apply elem_of_seqZ. }
    rewrite Hf in Hin. by apply elem_of_nil in Hin.
  - intros Hj. destruct (filter _ _) as [|j l] eqn:E; [done|].
    assert (Hin : j ∈ filter (fun j => byte_at m (block + j) <> table_byte tbl base j) (seqZ i n)) by (rewrite E; left).
    apply list_elem_of_filter in Hin as [Hne Hin]. apply elem_of_seqZ in Hin. destruct Hne. by apply Hj.
Qed.
End loops.

(** ** The bytes that are filled and compared *)

(** Position [j] of a payload of [size] bytes is covered. *)
Definition covered (size j : Z) : Prop := 0 <= j < size /\ (j < maxfill \/ size - maxfill <= j).

(** What a covered byte holds. *)
Definition expected (tbl : gmap Z Z) (size base j : Z) : Z :=
  let '(fsize, off_end, _) := fill_extent size in
  table_byte tbl base (if j <? fsize then j else j - off_end).

Definition intact (tbl : gmap Z Z) (m : mem) (p size base : Z) : Prop :=
  forall j, covered size j -> byte_at m (p + j) = expected tbl size base j.

(** Only the start is compared after a [realloc]. *)
Definition intact_start (tbl : gmap Z Z) (m : mem) (p size base : Z) : Prop :=
  forall j, 0 <= j < size -> j < maxfill -> byte_at m (p + j) = table_byte tbl base j.

Lemma fill_extent_cases size :
  0 <= size < w64 ->
  (size <= 1024 /\ fill_extent size = (size, 0, 0)) \/
  (1024 < size <= 2048 /\ fill_extent size = (1024, 1024, size - 1024)) \/
  (2048 < size /\ fill_extent size = (1024, size - 1024, 1024)).
Proof.
  intros Hs. unfold fill_extent, maxfill. rewrite mul64_small by u64_lia.
  destruct (1024 <? size) eqn:E1; [destruct (2 * 1024 <? size) eqn:E2|];
    [right; right|right; left|left]; split; try done; lia.
Qed.

(** Both segments are as in the table exactly if the payload is intact. *)
Lemma intact_segments tbl m p size base :
  0 <= size < w64 ->
  let '(fsize, off_end, fsize_end) := fill_extent size in
  intact tbl m p size base <->
  (forall j, 0 <= j < 0 + fsize -> byte_at m (p + j) = table_byte tbl base j) /\
  (forall j, 0 <= j < 0 + fsize_end -> byte_at m (p + off_end + j) = table_byte tbl base j).
Proof.
  intros Hs. unfold intact, covered, expected, maxfill.
  destruct (fill_extent_cases size Hs) as [[Hc ->]|[[Hc ->]|[Hc ->]]]; split.
  all: try (intros Hi; split; intros j Hj).
  all: try (intros [H1 H2] j Hj; destruct (j <? _) eqn:E; [apply H1; lia|]).
  all: try lia.
  - rewrite Hi by lia. by rewrite (proj2 (Z.ltb_lt _ _)) by lia.
  - rewrite Hi by lia. by rewrite (proj2 (Z.ltb_lt _ _)) by lia.
  - rewrite <- Z.add_assoc, Hi by lia. rewrite (proj2 (Z.ltb_ge _ _)) by lia. f_equal. lia.
  - rewrite <- H2 by lia. f_equal. lia.
  - rewrite Hi by lia. by rewrite (proj2 (Z.ltb_lt _ _)) by lia.
  - rewrite <- Z.add_assoc, Hi by lia. rewrite (proj2 (Z.ltb_ge _ _)) by lia. f_equal. lia.
  - rewrite <- H2 by lia. f_equal. lia.
Qed.

Lemma intact_begins tbl m p size base : size < w64 -> intact tbl m p size base -> intact_start tbl m p size base.
Proof.
  intros Hs Hi j Hj Hj'. rewrite (Hi j) by (by split; [|left]).
  unfold expected. destruct (fill_extent_cases size) as [[? ->]|[[? ->]|[? ->]]]; [lia|..];
    rewrite (proj2 (Z.ltb_lt _ _)); try done; unfold maxfill in *; lia.
Qed.

(** ** The two operations *)

(** The memory that is put into a package is the one it then has. *)
Class AllocatorLaws (H : Type) `{Allocator H} := {
  mem_get_set (h : H) (m : mem) : a_mem (a_with_mem h m) = m
}.
#[export] Instance mm_allocator_laws : AllocatorLaws Mm.mm.
Proof. by split. Qed.

(** The entries of the trace's arrays for an id. *)
Record slot (t : trace_t) (i p size base : Z) : Prop := {
  sl_index : 0 <= i;
  sl_block : blocks t !! Z.to_nat i = Some p;
  sl_size : block_sizes t !! Z.to_nat i = Some size;
  sl_base : block_rand_base t !! Z.to_nat i = Some base
}.

Lemma at_index_ok {A} (l : list A) i a : 0 <= i -> l !! Z.to_nat i = Some a -> at_index l i = Done a.
Proof. intros Hi Ha. unfold at_index, array_get. by rewrite (proj2 (Z.ltb_ge _ _)), Ha by lia. Qed.

Lemma slot_block t i p n b : slot t i p n b -> at_index (blocks t) i = Done p.
Proof. intros []. by apply at_index_ok. Qed.
Lemma slot_size t i p n b : slot t i p n b -> at_index (block_sizes t) i = Done n.
Proof. intros []. by apply at_index_ok. Qed.

Lemma array_set_lookup {A} (l : list A) (i : nat) (a b : A) : l !! i = Some a -> array_set l i b = Done (<[i := b]> l).
Proof. intros Ha%lookup_lt_Some. unfold array_set. by rewrite decide_True. Qed.

Section ops.
Context `{MA : Malloc} `{RA : Random} {H : Type} `{AL : AllocatorLaws H}.
Context (mode : debug_mode_t) (tbl : gmap Z Z) (Hmode : mode <> DBG_NONE) (Htbl : table_ok tbl).
Implicit Types (d : driver H).

Definition intact_for (realloc : bool) (m : mem) (p size base : Z) : Prop :=
  if realloc then intact_start tbl m p size base else intact tbl m p size base.

Lemma check_index_ok d op i p size base realloc :
  slot (trace d) i p size base -> 0 < size < w64 ->
  mem_ok (a_mem (package d)) -> inside (a_mem (package d)) p (size + 7) ->
  exists bad fg, 0 <= bad /\ (bad = 0 <-> intact_for realloc (a_mem (package d)) p size base) /\
    check_index mode tbl d op i realloc =
      Done (if bad =? 0 then (true, d) else (false, malloc_error d op (GarbledBlock i bad fg))).
Proof using Hmode Htbl.
  intros [Hi Hb Hs Hr] Hsz Hm [Hlo Hhi]. unfold check_index. rewrite (proj2 (Z.ltb_ge _ _)) by done.
  rewrite (at_index_ok _ _ _ Hi Hb), (at_index_ok _ _ _ Hi Hs), (at_index_ok _ _ _ Hi Hr).
  cbn [mbind outcome_bind]. rewrite (proj2 (Z.eqb_neq _ _)) by lia.
  pose proof (intact_segments tbl (a_mem (package d)) p size base ltac:(lia)) as Hseg.
  pose proof (fill_extent_cases size ltac:(lia)) as Hc.
  destruct (fill_extent size) as [[fsize off] fend]. 
  assert (Hf : 0 <= fsize <= size /\ 0 <= fend /\ off + fend <= size /\ 0 <= off /\ fsize = Z.min size maxfill)
    by (unfold maxfill; destruct Hc as [[? [= -> -> ->]]|[[? [= -> -> ->]]|[? [= -> -> ->]]]]; lia).
  clear Hc. set (m := a_mem (package d)) in *. set (fend' := if realloc then 0 else fend).
  destruct (compare_ok tbl Htbl (Z.to_nat fsize) m p base 0 0 (-1) Hm) as [fg1 E1]; [split; lia|].
  destruct (compare_ok tbl Htbl (Z.to_nat fend') m (p + off) base 0
    (0 + Z.of_nat (length (garbled tbl m p base 0 (Z.of_nat (Z.to_nat fsize))))) fg1 Hm) as [fg2 E2];
    [unfold fend'; split; destruct realloc; lia|].
  eexists (0 + Z.of_nat (length (garbled tbl m p base 0 (Z.of_nat (Z.to_nat fsize)))) +
    Z.of_nat (length (garbled tbl m (p + off) base 0 (Z.of_nat (Z.to_nat fend'))))), fg2.
  split; [|split]; cycle 2.
  - destruct mode; [done|..]; rewrite E1; cbn [mbind outcome_bind]; rewrite E2; cbn [mbind outcome_bind];
      by case_match.
  - lia.
  - rewrite !Z2Nat.id by (unfold fend'; destruct realloc; lia).
    trans (garbled tbl m p base 0 fsize = [] /\ garbled tbl m (p + off) base 0 fend' = []).
    { split; [intros E; split; apply length_zero_iff_nil; lia|intros [-> ->]; done]. }
    rewrite !garbled_nil. unfold fend', intact_for. destruct realloc; [|by rewrite Hseg].
    unfold intact_start. split; [intros [H1 _] j Hj Hj'; apply H1; lia|intros H1; split; intros j Hj; [apply H1; lia|lia]].
Qed.

(** [randomize_block] makes the payload intact and touches no other byte. *)
Lemma randomize_block_ok d i p size base0 :
  slot (trace d) i p size base0 -> 0 < size < w64 ->
  mem_ok (a_mem (package d)) -> inside (a_mem (package d)) p size ->
  exists d' t' base, randomize_block mode tbl d i = Done d' /\
    set_rand_base (trace d) i base = Done t' /\ trace d' = t' /\ slot t' i p size base /\
    (exists m', package d' = a_with_mem (package d) m') /\
    range_set d' = range_set d /\ messages d' = messages d /\
    same_region (a_mem (package d)) (a_mem (package d')) /\ mem_ok (a_mem (package d')) /\
    intact tbl (a_mem (package d')) p size base /\
    forall x, ~ (p <= x < p + size) -> byte_at (a_mem (package d')) x = byte_at (a_mem (package d)) x.
Proof using Hmode Htbl AL.
  intros [Hi Hb Hs Hr] Hsz Hm [Hlo Hhi]. unfold randomize_block. destruct (random (seed d)) as [base s'] eqn:Er.
  assert (Et : set_rand_base (trace d) i base = Done (Trace (weight (trace d)) (data_bytes (trace d))
    (num_ids (trace d)) (num_ops (trace d)) (ops (trace d)) (blocks (trace d)) (block_sizes (trace d))
    (<[Z.to_nat i := base]> (block_rand_base (trace d))))).
  { unfold set_rand_base. by rewrite (proj2 (Z.ltb_ge _ _)), (array_set_lookup _ _ _ _ Hr) by done. }
  rewrite Et. cbn [mbind outcome_bind blocks block_sizes block_rand_base trace package range_set messages].
  assert (Hr' : <[Z.to_nat i := base]> (block_rand_base (trace d)) !! Z.to_nat i = Some base).
  { apply list_lookup_insert_eq. by eapply lookup_lt_Some. }
  rewrite (at_index_ok _ _ _ Hi Hb), (at_index_ok _ _ _ Hi Hs), (at_index_ok _ _ _ Hi Hr').
  cbn [mbind outcome_bind]. rewrite (proj2 (Z.eqb_neq _ _)) by lia.
  pose proof (fun m => intact_segments tbl m p size base ltac:(lia)) as Hseg.
  pose proof (fill_extent_cases size ltac:(lia)) as Hc.
  destruct (fill_extent size) as [[fsize off] fend].
  assert (Hf : 0 <= fsize <= size /\ 0 <= fend /\ off + fend <= size /\ 0 <= off /\ (fend = 0 \/ fsize <= off))
    by (destruct Hc as [[? [= -> -> ->]]|[[? [= -> -> ->]]|[? [= -> -> ->]]]]; lia).
  clear Hc. set (m := a_mem (package d)) in *.
  destruct (fill_ok tbl Htbl (Z.to_nat fsize) m p base 0 Hm) as (m1 & E1 & Hm1 & (F1 & F2 & F3) & Hb1); [split; lia|].
  destruct (fill_ok tbl Htbl (Z.to_nat fend) m1 (p + off) base 0 Hm1) as (m2 & E2 & Hm2 & (G1 & G2 & G3) & Hb2); [split; lia|].
  rewrite !Z2Nat.id in Hb1, Hb2 by lia. eexists _, _, base. split.
  { transitivity (Done (set_package (Driver (package d) (Trace (weight (trace d)) (data_bytes (trace d))
      (num_ids (trace d)) (num_ops (trace d)) (ops (trace d)) (blocks (trace d)) (block_sizes (trace d))
      (<[Z.to_nat i := base]> (block_rand_base (trace d)))) (range_set d) s' (messages d)) (a_with_mem (package d) m2))).
    - destruct mode; [done|..]; rewrite E1; cbn [mbind outcome_bind]; rewrite E2; done.
    - reflexivity. }
  cbn [trace set_package package range_set messages]. rewrite mem_get_set. split_done.
  - by exists m2.
  - unfold same_region. by rewrite G1, G2, G3.
  - apply Hseg. split; intros j Hj.
    + rewrite Hb2, decide_False, Hb1, decide_True by lia. f_equal. lia.
    + rewrite Hb2, decide_True by lia. f_equal. lia.
  - intros x Hx. by rewrite Hb2, decide_False, Hb1, decide_False by lia.
Qed.

(** ** Theorem *)

(** C27: the driver notices any change of a byte it covers, and nothing else.  Once
    [randomize_block] has filled a payload, and whatever the memory becomes
    afterwards, [check_index] accepts the block exactly when its first and last
    [maxfill] bytes (all of them, up to twice that size) are those that were
    written; it then changes nothing, and otherwise it logs one error. *)
Theorem check_notices_damage d i p size base0 d' (m' : mem) op :
  slot (trace d) i p size base0 -> 0 < size < w64 ->
  mem_ok (a_mem (package d)) -> inside (a_mem (package d)) p size ->
  randomize_block mode tbl d i = Done d' ->
  mem_ok m' -> inside m' p (size + 7) ->
  let later := set_package d' (a_with_mem (package d') m') in
  exists ok d'', check_index mode tbl later op i false = Done (ok, d'') /\
    (ok = true <-> forall j, covered size j -> byte_at m' (p + j) = byte_at (a_mem (package d')) (p + j)) /\
    (if ok then d'' = later else errors d'' = errors later + 1).
Proof using Hmode Htbl AL.
  intros Hs Hsz Hm Hin Hr Hm' Hin' later.
  destruct (randomize_block_ok d i p size base0 Hs Hsz Hm Hin) as (d1 & t1 & base & E & _ & Et & Hs1 & _ & _ & _ & _ & _ & Hi1 & _).
  rewrite Hr in E. injection E as <-. subst t1.
  destruct (check_index_ok later op i p size base false) as (bad & fg & Hb & Hiff & ->); try done.
  { unfold later. cbn [package set_package]. by rewrite mem_get_set. }
  { unfold later. cbn [package set_package]. by rewrite mem_get_set. }
  assert (Hcmp : intact_for false (a_mem (package later)) p size base <->
    forall j, covered size j -> byte_at m' (p + j) = byte_at (a_mem (package d')) (p + j)).
  { unfold later, intact_for. cbn [package set_package]. rewrite mem_get_set.
    split; intros Hj j Hc; rewrite ?(Hi1 j Hc); [by apply Hj|by rewrite Hj, (Hi1 j Hc)]. }
  destruct (bad =? 0) eqn:E0.
  - apply Z.eqb_eq in E0. exists true, later. split_done. by rewrite <- Hcmp, <- Hiff.
  - apply Z.eqb_neq in E0. eexists false, _. split; [done|]. split; [by rewrite <- Hcmp, <- Hiff|].
    unfold errors, malloc_error. cbn [messages]. rewrite length_app. simpl. lia.
Qed.
End ops.

(** ** A concrete run *)

Program Definition constant_random : Random := {| random s := (77, s + 1) |}.
Next Obligation. simpl. lia. Qed.

Definition demo_table : gmap Z Z := (@init_random_data constant_random DBG_CHEAP ∅ 0).1.

(** A package that keeps only the memory. *)
#[export] Instance memory_only : Allocator mem := {
  a_mem m := m; a_with_mem _ m := m; a_init m := Done (true, m); a_malloc m _ := Done (0, m);
  a_realloc m _ _ := Done (0, m); a_free m _ := Done m; a_checkheap _ := Done true
}.
#[export] Instance memory_only_laws : AllocatorLaws mem.
Proof. by split. Qed.

Definition demo_block : trace_t := Trace WALL None 1 0 [] [64] [16] [0].
Definition demo_filled : driver mem :=
  Driver (Mem 0 4096 8192 ∅) demo_block (RangeSet None (Tree None 0 0 ∅) ∅) 5 [].

Lemma demo_filled_ok : mem_ok (a_mem (package demo_filled)).
Proof. split; simpl; [done|lia|lia]. Qed.

Lemma demo_table_ok : table_ok demo_table.
Proof. unfold demo_table. by apply init_random_data_ok. Qed.

Lemma demo_slot : slot (trace demo_filled) 0 64 16 0.
Proof. by split. Qed.

Lemma demo_inside n : n <= 1024 -> inside (a_mem (package demo_filled)) 64 n.
Proof. intros ?. split; simpl; lia. Qed.

Lemma check_notices_damage_witness :
  exists d', @randomize_block constant_random mem memory_only DBG_CHEAP demo_table demo_filled 0 = Done d' /\
    (exists d'', @check_index mem memory_only DBG_CHEAP demo_table
       (set_package d' (set_byte (package d') 100 1)) 3 0 false = Done (true, d'')) /\
    (exists d'', @check_index mem memory_only DBG_CHEAP demo_table
       (set_package d' (set_byte (package d') 79 (byte_at (package d') 79 + 1))) 3 0 false = Done (false, d'')).
Proof.
  pose proof demo_table_ok as Ht. pose proof demo_slot as Hs. revert Ht. generalize demo_table. intros tbl Ht.
  destruct (@randomize_block_ok constant_random mem memory_only memory_only_laws DBG_CHEAP tbl ltac:(discriminate) Ht
    demo_filled 0 64 16 0 Hs ltac:(u64_lia) demo_filled_ok (demo_inside 16 ltac:(lia))) as
    (d' & t' & base & E & _ & _ & _ & _ & _ & _ & (R1 & R2 & R3) & Hm' & Hi & _).
  exists d'. split; [exact E|].
  pose proof (@check_notices_damage constant_random mem memory_only memory_only_laws DBG_CHEAP tbl ltac:(discriminate) Ht
    demo_filled 0 64 16 0 d') as Hthm.
  assert (Hset : forall a v, mem_ok (set_byte (package d') a v)).
  { intros a v. exact (write_bytes_ok 1 _ a v Hm'). }
  split.
  - destruct (Hthm (set_byte (package d') 100 1) 3 Hs ltac:(u64_lia) demo_filled_ok (demo_inside 16 ltac:(lia)) E (Hset 100 1)
      ltac:(split; simpl in *; lia)) as (ok & d'' & Hc & Hok & _). exists d''. etransitivity; [exact Hc|]. do 2 f_equal.
    apply Hok. intros j [Hj _]. rewrite byte_at_set, decide_False by lia. done.
  - destruct (Hthm (set_byte (package d') 79 (byte_at (package d') 79 + 1)) 3 Hs ltac:(u64_lia) demo_filled_ok
      (demo_inside 16 ltac:(lia)) E (Hset 79 _) ltac:(split; simpl in *; lia)) as (ok & d'' & Hc & Hok & _).
    exists d''. etransitivity; [exact Hc|]. do 2 f_equal. destruct ok; [|done]. exfalso.
    assert (Hj : covered 16 15) by (unfold covered, maxfill; lia).
    pose proof (proj1 Hok eq_refl 15 Hj) as Hbad. rewrite byte_at_set, decide_True in Hbad by done.
    pose proof (byte_at_range _ 79 Hm') as Hb. unfold byte in Hb. cbn [a_mem memory_only] in *.
    change (64 + 15) with 79 in Hbad. rewrite Z.mod_eq in Hbad by lia.
    assert ((byte_at (package d') 79 + 1) / 256 = 0 \/ (byte_at (package d') 79 + 1) / 256 = 1) by
      (pose proof (Z.div_mod (byte_at (package d') 79 + 1) 256); pose proof (Z.mod_pos_bound (byte_at (package d') 79 + 1) 256); lia).
    lia.
Defined.
