(* ===== verification/DriverSpec.v ===== *)
(** * What an allocator promises, and what a run of the driver keeps

    [CorrectAllocator] is the contract of a package: every payload it hands out
    is aligned, inside the heap and disjoint from the live ones, and it leaves
    their bytes alone.  [driver_inv] ties the driver's arrays, its range set and
    the bytes in memory to the live payloads. *)

From Stdlib Require Import ZArith Lia.
From stdpp Require Import gmap list.
From S2P Require Import Prelude MemLib STree STreeMap RangeSet RangeSetProps RangeSetOps TraceFile Driver DriverFill.

(** ** The contract *)

Record payload_ok (m : mem) (p n : Z) : Prop := {
  pl_addr : 0 < p /\ p + n < w64;
  pl_size : 0 < n;
  pl_aligned : p mod ALIGNMENT = 0;
  pl_heap : mem_heap_lo m <= p /\ p + n - 1 <= mem_heap_hi m;
  (** The driver reads a byte as the low end of a word. *)
  pl_room : inside m p (n + 7)
}.

(** The bytes of the payloads [L] are the same in both memories. *)
Definition keeps (L : gmap Z Z) (m m' : mem) : Prop :=
  forall p n x, L !! p = Some n -> p <= x < p + n -> byte_at m' x = byte_at m x.

Class CorrectAllocator (H : Type) `{AllocatorLaws H} := {
  a_inv : H -> gmap Z Z -> Prop;
  a_mem_ok h L : a_inv h L -> mem_ok (a_mem h);
  a_payload h L p n : a_inv h L -> L !! p = Some n -> payload_ok (a_mem h) p n;
  a_disjoint h L p n q k :
    a_inv h L -> L !! p = Some n -> L !! q = Some k -> p <> q -> p + n <= q \/ q + k <= p;
  (** A client may write its payloads. *)
  a_write h L m p n :
    a_inv h L -> L !! p = Some n -> mem_ok m -> same_region (a_mem h) m ->
    (forall x, ~ (p <= x < p + n) -> byte_at m x = byte_at (a_mem h) x) -> a_inv (a_with_mem h m) L;
  a_init_ok h :
    mem_ok (a_mem h) -> mem_brk (a_mem h) = heap (a_mem h) ->
    exists ok h', a_init h = Done (ok, h') /\ (ok = true -> a_inv h' ∅);
  a_malloc_ok h L n :
    a_inv h L -> u64 n -> 0 < n ->
    exists p h', a_malloc h n = Done (p, h') /\
      (p = 0 \/ L !! p = None /\ a_inv h' (<[p := n]> L) /\ keeps L (a_mem h) (a_mem h'));
  a_realloc_ok h L p n :
    a_inv h L -> u64 n -> p = 0 \/ is_Some (L !! p) ->
    exists q h', a_realloc h p n = Done (q, h') /\
      if decide (n = 0) then q = 0 /\ a_inv h' (delete p L) /\ keeps (delete p L) (a_mem h) (a_mem h')
      else q = 0 \/ delete p L !! q = None /\ a_inv h' (<[q := n]> (delete p L)) /\
        keeps (delete p L) (a_mem h) (a_mem h') /\
        forall k j, L !! p = Some k -> 0 <= j < k -> j < n ->
          byte_at (a_mem h') (q + j) = byte_at (a_mem h) (p + j);
  a_free_ok h L p :
    a_inv h L -> p = 0 \/ is_Some (L !! p) ->
    exists h', a_free h p = Done h' /\ a_inv h' (delete p L) /\ keeps (delete p L) (a_mem h) (a_mem h');
  a_checkheap_ok h L : a_inv h L -> a_checkheap h = Done true
}.

(** ** Traces *)

(** What is known of an id: it has no block, a live one, or a freed one whose
    pointer and size stay in the arrays. *)
Inductive id_state := Cleared | Live | Freed.
#[export] Instance id_state_eq_dec : EqDecision id_state.
Proof. solve_decision. Defined.

Definition state (st : gmap Z id_state) (i : Z) : id_state := default Cleared (st !! i).

Lemma state_insert st i s j : state (<[i := s]> st) j = if decide (j = i) then s else state st j.
Proof.
  unfold state. case_decide as E; [subst; by rewrite lookup_insert_eq|]. by rewrite lookup_insert_ne by congruence.
Qed.

(** A request that the ids allow, and the states afterwards. *)
Definition next_state (n : Z) (st : gmap Z id_state) (o : traceop_t) : option (gmap Z id_state) :=
  let i := op_index o in
  let known := (0 <=? i) && (i <? n) in
  match type o, op_size o with
  | ALLOC, Some k =>
      if known && (0 <? k) && (k <? w64) && negb (bool_decide (state st i = Live)) then Some (<[i := Live]> st) else None
  | REALLOC, Some k =>
      if known && (0 <=? k) && (k <? w64) && negb (bool_decide (state st i = Freed))
      then Some (<[i := if k =? 0 then Cleared else Live]> st) else None
  | FREE, _ =>
      if i =? -1 then Some st
      else if known && negb (bool_decide (state st i = Freed))
      then Some (<[i := match state st i with Live => Freed | s => s end]> st) else None
  | _, None => None
  end.

Fixpoint sensible_ops (n : Z) (st : gmap Z id_state) (os : list traceop_t) : bool :=
  match os with
  | [] => true
  | o :: os => match next_state n st o with Some st => sensible_ops n st os | None => false end
  end.

(** ** The invariant *)

Definition recorded (rs : range_set_t) (L : gmap Z Z) : Prop :=
  forall l r, ranges rs !! l = Some r -> L !! lo r = Some (hi r - lo r + 1).

Section inv.
Context `{MA : Malloc} `{RA : Random} {H : Type} `{CA : CorrectAllocator H}.
Context (mode : debug_mode_t) (tbl : gmap Z Z).
Implicit Types (d : driver H) (st : gmap Z id_state) (L : gmap Z Z) (t : trace_t).

Definition content (m : mem) (p n base : Z) : Prop := mode <> DBG_NONE -> intact tbl m p n base.

Definition id_ok t (m : mem) L (i : Z) (s : id_state) : Prop :=
  match s with
  | Live => exists p n base, slot t i p n base /\ L !! p = Some n /\ content m p n base
  | Cleared => exists base, slot t i 0 0 base
  | Freed => exists p n base, slot t i p n base
  end.

Definition ids_ok t (m : mem) L st : Prop := forall i, 0 <= i < num_ids t -> id_ok t m L i (state st i).

(** Two ids never share a live block. *)
Definition ids_inj t st : Prop :=
  forall i j p, state st i = Live -> state st j = Live -> 0 <= i -> 0 <= j ->
    blocks t !! Z.to_nat i = Some p -> blocks t !! Z.to_nat j = Some p -> i = j.

Definition ranges_ids (rs : range_set_t) t st : Prop :=
  forall l r, ranges rs !! l = Some r -> mode <> DBG_NONE /\ state st (index r) = Live /\
    0 <= index r < num_ids t /\ blocks t !! Z.to_nat (index r) = Some (lo r).

Record driver_inv d st L : Prop := {
  di_package : a_inv (package d) L;
  di_ids : ids_ok (trace d) (a_mem (package d)) L st;
  di_inj : ids_inj (trace d) st;
  di_set : exists m, rs_ok (range_set d) m;
  di_recorded : recorded (range_set d) L;
  di_ranges : ranges_ids (range_set d) (trace d) st;
  di_states i : is_Some (st !! i) -> 0 <= i < num_ids (trace d)
}.

(** How a step of a run may end: the library's [malloc] failed; the request was
    served without a message; or the package refused it. *)
Definition refused (r : report) : Prop := r = InitFailed \/ r = MallocFailed \/ r = ReallocFailed.

Definition served d (out : outcome (bool * driver H)) (post : driver H -> Prop) : Prop :=
  (out = Fault (Exited 1) /\ exists X, malloc X = None) \/
  (exists d', out = Done (true, d') /\ post d' /\ messages d' = messages d) \/
  (exists d' op r, out = Done (false, d') /\ refused r /\ messages d' = messages d ++ [(op, r)] /\
     exists m, rs_ok (range_set d') m).

Lemma served_bind d out post (k : bool * driver H -> outcome (bool * driver H)) post' :
  served d out post ->
  (forall d', post d' -> messages d' = messages d -> served d' (k (true, d')) post') ->
  (forall d', k (false, d') = Done (false, d')) ->
  served d (out ≫= k) post'.
Proof.
  intros [[-> Hf]|[(d' & -> & Hp & Hm)|(d' & op & r & -> & Hr & Hm & Hset)]] Hk Hb.
  - by left.
  - cbn [mbind outcome_bind]. destruct (Hk d' Hp Hm) as [[-> Hf]|[(d2 & -> & Hp2 & Hm2)|(d2 & op & r & -> & Hr & Hm2 & Hset)]].
    + by left.
    + right; left. exists d2. split_done. congruence.
    + right; right. exists d2, op, r. split_done. congruence.
  - cbn [mbind outcome_bind]. rewrite Hb. right; right. by exists d', op, r.
Qed.

Lemma served_done d d' (post : driver H -> Prop) :
  post d' -> messages d' = messages d -> served d (Done (true, d')) post.
Proof. intros ??. right; left. by exists d'. Qed.

Lemma served_refused d d' op r post :
  refused r -> messages d' = messages d ++ [(op, r)] -> (exists m, rs_ok (range_set d') m) -> served d (Done (false, d')) post.
Proof. intros ???. right; right. by exists d', op, r. Qed.

Lemma served_weaken d out (post post' : driver H -> Prop) :
  (forall d', out = Done (true, d') -> post d' -> post' d') -> served d out post -> served d out post'.
Proof. intros Hw [?|[(d' & E & Hp & Hm)|?]]; [by left|right; left; exists d'; auto|by right; right]. Qed.

Lemma served_same d d1 out post : messages d1 = messages d -> served d1 out post -> served d out post.
Proof. unfold served. by intros ->. Qed.

(** ** Checking a block *)

Lemma slot_fun t i p n b p' n' b' : slot t i p n b -> slot t i p' n' b' -> p' = p /\ n' = n /\ b' = b.
Proof. intros [_ ???] [_ ???]. by simplify_eq. Qed.

Lemma check_id d st L i op realloc :
  table_ok tbl -> a_inv (package d) L -> state st i <> Freed ->
  id_ok (trace d) (a_mem (package d)) L i (state st i) -> 
  check_index mode tbl d op i realloc = Done (true, d).
Proof.
  intros Ht Hinv Hs Hid. unfold check_index. destruct (i <? 0); [done|].
  destruct (state st i); [|clear Hs|done].
  - destruct Hid as (base & [Hi Hb Hn Hr]). rewrite (at_index_ok _ _ _ Hi Hb), (at_index_ok _ _ _ Hi Hn).
    by destruct mode.
  - destruct Hid as (p & n & base & Hsl & HL & Hc).
    destruct (decide (mode = DBG_NONE)) as [Hm|Hm]; [by rewrite Hm|].
    pose proof (a_payload _ _ _ _ Hinv HL) as Hp.
    destruct (check_index_ok mode tbl Hm Ht d op i p n base realloc Hsl) as (bad & fg & Hb & Hiff & E).
    + destruct Hp as [? ? _ _ _]. lia.
    + by eapply a_mem_ok.
    + apply Hp.
    + unfold check_index in E. destruct (i <? 0) eqn:Ei; [destruct Hsl; lia|]. rewrite E.
      replace (bad =? 0) with true; [done|]. symmetry. apply Z.eqb_eq, Hiff. specialize (Hc Hm).
      pose proof (pl_addr _ _ _ Hp). unfold intact_for. destruct realloc; [|done]. by apply intact_begins; [u64_lia|].
Qed.
End inv.
