(* ===== verification/DriverSteps.v ===== *)
(** * The driver on a correct allocator: the pieces of a request

    Lemmas on the parts that the three kinds of request share: recording and
    forgetting a payload, the updates of the trace's arrays, and the ids that a
    request does not name. *)

From Stdlib Require Import ZArith Lia.
From stdpp Require Import gmap list.
From S2P Require Import Prelude MemLib STree STreeMap RangeSet RangeSetProps RangeSetOps TraceFile.
From S2P Require Import Driver DriverFill DriverSpec.

(** ** Records *)

Lemma spans_insert_inv R R' l a b i k r' :
  spans R' = <[l := (a, b, i)]> (spans R) -> R' !! k = Some r' ->
  (k = l /\ lo r' = a /\ hi r' = b /\ index r' = i) \/
  exists r, R !! k = Some r /\ lo r' = lo r /\ hi r' = hi r /\ index r' = index r.
Proof.
  intros E Hk. assert (Hs : spans R' !! k = Some (lo r', hi r', index r')) by (unfold spans; by rewrite lookup_fmap, Hk).
  rewrite E in Hs. apply lookup_insert_Some in Hs as [[-> [= -> -> ->]]|[_ Hs]]; [by left|right].
  unfold spans in Hs. rewrite lookup_fmap in Hs. apply fmap_Some in Hs as (r & Hr & [= -> -> ->]). by exists r.
Qed.

Lemma spans_sub_inv (R R' : gmap loc range_t) k r' :
  spans R' ⊆ spans R -> R' !! k = Some r' ->
  exists r, R !! k = Some r /\ lo r' = lo r /\ hi r' = hi r /\ index r' = index r.
Proof.
  intros E Hk. assert (Hs : spans R' !! k = Some (lo r', hi r', index r')) by (unfold spans; by rewrite lookup_fmap, Hk).
  eapply lookup_weaken in Hs; [|exact E]. unfold spans in Hs. rewrite lookup_fmap in Hs.
  apply fmap_Some in Hs as (r & Hr & [= -> -> ->]). by exists r.
Qed.

Section steps.
Context `{MA : Malloc} `{RA : Random} {H : Type} `{CA : CorrectAllocator H}.
Context (mode : debug_mode_t) (tbl : gmap Z Z).
Implicit Types (d : driver H) (st : gmap Z id_state) (L : gmap Z Z) (t : trace_t).

(** A live payload is at a positive address. *)
Lemma live_positive (h : H) L p n : a_inv h L -> L !! p = Some n -> 0 < p /\ 0 < n.
Proof. intros Hi Hp. pose proof (a_payload _ _ _ _ Hi Hp) as []. lia. Qed.

Lemma live_null (h : H) L : a_inv h L -> L !! 0 = None.
Proof. intros Hi. apply eq_None_not_Some. intros [n Hn]. pose proof (live_positive _ _ _ _ Hi Hn). lia. Qed.

Definition set_ok (rs : range_set_t) : Prop := exists m, rs_ok rs m.

(** *** Recording and forgetting *)

Lemma record_payload_ok d op i p n L :
  set_ok (range_set d) -> recorded (range_set d) L -> a_inv (package d) (<[p := n]> L) -> L !! p = None ->
  (record_payload mode d p n op i = Fault (Exited 1) /\ exists X, malloc X = None) \/
  exists rs', record_payload mode d p n op i = Done (true, set_ranges d rs') /\ set_ok rs' /\
    recorded rs' (<[p := n]> L) /\
    forall l r', ranges rs' !! l = Some r' ->
      (mode <> DBG_NONE /\ lo r' = p /\ index r' = i) \/
      exists r, ranges (range_set d) !! l = Some r /\ lo r' = lo r /\ index r' = index r.
Proof.
  intros [m Hok] Hrec Hinv Hp. unfold record_payload.
  assert (Hpl : payload_ok (a_mem (package d)) p n) by (eapply a_payload; [done|by apply lookup_insert_eq]).
  destruct Hpl as [Haddr Hsz Hal [Hlo Hhi] _].
  destruct (add_range_ok mode (range_set d) m (a_mem (package d)) p n i Hok) as [[-> ?]|(v & rs' & -> & Hv)];
    [lia..|by left|right]. cbn [mbind outcome_bind].
  assert (Hne : forall l r, ranges (range_set d) !! l = Some r -> lo r <> p).
  { intros l r Hr E. apply Hrec in Hr. congruence. }
  destruct v; cbn [verdict_ok] in Hv.
  - destruct Hv as (_ & _ & _ & Hv). exists rs'. split; [done|]. destruct mode eqn:Em.
    { subst rs'. split; [by exists m|]. split; [|intros l r' Hr; right; by exists r'].
      intros l r Hr. rewrite lookup_insert_ne by (apply not_eq_sym; by eapply Hne). by apply (Hrec l). }
    all: destruct Hv as (l0 & Hl0 & Hok' & Hsp & _); split; [by eexists|]; split.
    all: intros l r' Hr; destruct (spans_insert_inv _ _ _ _ _ _ _ _ Hsp Hr)
      as [(-> & E1 & E2 & E3)|(r & Hr0 & E1 & E2 & E3)].
    all: try (rewrite E1, E2; rewrite lookup_insert_eq; f_equal; lia).
    all: try (rewrite E1, E2, lookup_insert_ne by (apply not_eq_sym; by eapply Hne); by apply (Hrec l)).
    all: first [left; by split_done|right; by exists r].
  - destruct Hv as [Hv _]. by destruct Hv.
  - destruct Hv as [Hv _]. destruct Hv. lia.
  - destruct Hv as (_ & (r & Hr & Hov) & _). exfalso. pose proof (Hne _ _ Hr) as Hx. apply Hrec in Hr.
    destruct (a_disjoint _ _ p n (lo r) (hi r - lo r + 1) Hinv) as [|]; [by apply lookup_insert_eq| |done|..];
      [by rewrite lookup_insert_ne|..]; unfold overlaps in Hov; lia.
Qed.

Lemma forget_payload_ok d p L :
  set_ok (range_set d) -> recorded (range_set d) L ->
  exists rs', forget_payload d p = Done (set_ranges d rs') /\ set_ok rs' /\ recorded rs' (delete p L) /\
    forall l r', ranges rs' !! l = Some r' -> lo r' <> p /\
      exists r, ranges (range_set d) !! l = Some r /\ lo r' = lo r /\ index r' = index r.
Proof.
  intros [m Hok] Hrec. unfold forget_payload.
  destruct (remove_range_ok (range_set d) m p Hok) as (rs' & -> & Hok' & Hsp & _). cbn [mbind outcome_bind].
  exists rs'. split; [done|]. split; [by eexists|].
  assert (Hsub : spans (ranges rs') ⊆ spans (ranges (range_set d))).
  { rewrite Hsp. destruct (m !! p); [apply delete_subseteq|done]. }
  assert (Hne : forall l r', ranges rs' !! l = Some r' -> lo r' <> p).
  { intros l r' Hr E. assert (Hd : delete p m !! lo r' = Some l) by (apply (ro_map _ _ Hok'); eauto).
    rewrite E, lookup_delete_eq in Hd. done. }
  split; intros l r' Hr; destruct (spans_sub_inv _ _ _ _ Hsub Hr) as (r & Hr0 & E1 & E2 & E3).
  - rewrite lookup_delete_ne by (apply not_eq_sym; by eapply Hne). rewrite E1, E2. by apply (Hrec l).
  - split; [by eapply Hne|]. by exists r.
Qed.

(** *** The arrays of the trace *)

(** [t'] is [t] but for the entries of [i]. *)
Record elsewhere t t' (i : Z) : Prop := {
  el_ids : num_ids t' = num_ids t;
  el_ops : ops t' = ops t;
  el_blocks j : 0 <= j -> j <> i -> blocks t' !! Z.to_nat j = blocks t !! Z.to_nat j;
  el_sizes j : 0 <= j -> j <> i -> block_sizes t' !! Z.to_nat j = block_sizes t !! Z.to_nat j;
  el_bases j : 0 <= j -> j <> i -> block_rand_base t' !! Z.to_nat j = block_rand_base t !! Z.to_nat j
}.

Lemma elsewhere_refl t i : elsewhere t t i.
Proof. by split. Qed.

Lemma elsewhere_trans t1 t2 t3 i : elsewhere t1 t2 i -> elsewhere t2 t3 i -> elsewhere t1 t3 i.
Proof.
  intros [A1 A2 A3 A4 A5] [B1 B2 B3 B4 B5]. split; [congruence|congruence|..]; intros j ??;
    [rewrite B3, A3|rewrite B4, A4|rewrite B5, A5]; done.
Qed.

Lemma slot_elsewhere t t' i j p n b : elsewhere t t' i -> j <> i -> slot t j p n b -> slot t' j p n b.
Proof.
  intros [_ _ E3 E4 E5] Hj [Hi Hb Hs Hr]. split; [done|..]; [rewrite E3|rewrite E4|rewrite E5]; done.
Qed.

Lemma set_blocks_ok t i p n b q :
  slot t i p n b -> exists t', set_blocks t i q = Done t' /\ slot t' i q n b /\ elsewhere t t' i.
Proof.
  intros [Hi Hb Hs Hr]. unfold set_blocks. rewrite (proj2 (Z.ltb_ge _ _)) by done.
  rewrite (array_set_lookup _ _ _ _ Hb). eexists. split; [done|]. split; split; simpl; try done.
  - apply list_lookup_insert_eq. by eapply lookup_lt_Some.
  - intros j ??. apply list_lookup_insert_ne. lia.
Qed.

Lemma set_block_sizes_ok t i p n b k :
  slot t i p n b -> exists t', set_block_sizes t i k = Done t' /\ slot t' i p k b /\ elsewhere t t' i.
Proof.
  intros [Hi Hb Hs Hr]. unfold set_block_sizes. rewrite (proj2 (Z.ltb_ge _ _)) by done.
  rewrite (array_set_lookup _ _ _ _ Hs). eexists. split; [done|]. split; split; simpl; try done.
  - apply list_lookup_insert_eq. by eapply lookup_lt_Some.
  - intros j ??. apply list_lookup_insert_ne. lia.
Qed.

Lemma set_rand_base_ok t i p n b b' t' :
  slot t i p n b -> set_rand_base t i b' = Done t' -> slot t' i p n b' /\ elsewhere t t' i.
Proof.
  intros [Hi Hb Hs Hr]. unfold set_rand_base. rewrite (proj2 (Z.ltb_ge _ _)) by done.
  rewrite (array_set_lookup _ _ _ _ Hr). intros [= <-]. split; split; simpl; try done.
  - apply list_lookup_insert_eq. by eapply lookup_lt_Some.
  - intros j ??. apply list_lookup_insert_ne. lia.
Qed.

(** *** The other ids *)

Record others_ok t (m : mem) L st (i : Z) : Prop := {
  ot_ids j : 0 <= j < num_ids t -> j <> i -> id_ok mode tbl t m L j (state st j);
  ot_inj j k p : state st j = Live -> state st k = Live -> 0 <= j -> 0 <= k -> j <> i -> k <> i ->
    blocks t !! Z.to_nat j = Some p -> blocks t !! Z.to_nat k = Some p -> j = k
}.

Lemma intact_keeps m m' p n b :
  (forall x, p <= x < p + n -> byte_at m' x = byte_at m x) -> intact tbl m p n b -> intact tbl m' p n b.
Proof. intros Hk Hi j Hj. rewrite Hk; [by apply Hi|]. destruct Hj. lia. Qed.

Lemma id_ok_keeps t t' m m' L L' i j s :
  elsewhere t t' i -> j <> i ->
  (forall p n b, slot t j p n b -> L !! p = Some n -> s = Live -> L' !! p = Some n) ->
  keeps L' m m' -> id_ok mode tbl t m L j s -> id_ok mode tbl t' m' L' j s.
Proof.
  intros He Hj HL Hk. destruct s; simpl.
  - intros (b & Hs). exists b. by eapply slot_elsewhere.
  - intros (p & n & b & Hs & Hp & Hc). exists p, n, b. pose proof (HL _ _ _ Hs Hp eq_refl) as Hp'.
    split; [by eapply slot_elsewhere|]. split; [done|]. intros Hm. eapply intact_keeps; [|by apply Hc].
    intros x Hx. by apply (Hk p n).
  - intros (p & n & b & Hs). exists p, n, b. by eapply slot_elsewhere.
Qed.

(** The payload of [i], if it has one, leaves the live ones. *)
Lemma others_step d st L i old m' t' :
  driver_inv mode tbl d st L ->
  (state st i = Live /\ blocks (trace d) !! Z.to_nat i = Some old /\ 0 <= i) \/ old = 0 ->
  keeps (delete old L) (a_mem (package d)) m' -> elsewhere (trace d) t' i ->
  others_ok t' m' (delete old L) st i.
Proof.
  intros [Hpkg Hids Hinj _ _ _] Hold Hk He. split.
  - intros j Hj Hne. rewrite (el_ids _ _ _ He) in Hj. eapply id_ok_keeps; [done..| |done|by apply Hids].
    intros p n b Hs Hp Hlive. rewrite lookup_delete_ne; [done|]. intros ->. destruct Hold as [(Hl & Hb & Hi)|Ho].
    + apply Hne. apply (Hinj j i p); try done; [lia|apply Hs].
    + subst p. by rewrite (live_null _ _ Hpkg) in Hp.
  - intros j k p Hj Hk' Hj0 Hk0 Hji Hki Hbj Hbk. rewrite (el_blocks _ _ _ He) in Hbj by done.
    rewrite (el_blocks _ _ _ He) in Hbk by done. by apply (Hinj j k p).
Qed.

Lemma others_elsewhere t t' m L st i : others_ok t m L st i -> elsewhere t t' i -> others_ok t' m L st i.
Proof.
  intros [Ho Hi] He. split.
  - intros j Hj Hne. rewrite (el_ids _ _ _ He) in Hj. eapply id_ok_keeps; [done..| |done|by apply Ho]; done.
  - intros j k p Hj Hk' Hj0 Hk0 Hji Hki Hbj Hbk. rewrite (el_blocks _ _ _ He) in Hbj by done.
    rewrite (el_blocks _ _ _ He) in Hbk by done. by apply (Hi j k p).
Qed.
End steps.
