(* ===== verification/DriverValid.v ===== *)
(** * The driver accepts every correct allocator

    [eval_mm_valid] on a package that keeps its contract, for any sensible trace
    and in every debug mode: the only messages are that the package ran out of
    memory. *)

From Stdlib Require Import ZArith Lia.
From stdpp Require Import gmap list.
From S2P Require Import Prelude MemLib STree STreeMap RangeSet RangeSetProps RangeSetOps TraceFile.
From S2P Require Import Driver DriverFill DriverSpec DriverSteps.

Section valid.
Context `{MA : Malloc} `{RA : Random} {H : Type} `{CA : CorrectAllocator H}.
Context (mode : debug_mode_t) (tbl : gmap Z Z) (Htbl : table_ok tbl).
Implicit Types (d : driver H) (st : gmap Z id_state) (L : gmap Z Z) (t : trace_t).

Lemma states_insert st i s n :
  0 <= i < n -> (forall j, is_Some (st !! j) -> 0 <= j < n) -> forall j, is_Some (<[i := s]> st !! j) -> 0 <= j < n.
Proof. intros Hi Hst j [<-|[_ Hj]]%lookup_insert_is_Some; [done|by apply Hst]. Qed.

(** The ranges before the new payload of [i] is published in the arrays. *)
Definition ranges_but (rs : range_set_t) t st (i p : Z) : Prop :=
  forall l r, ranges rs !! l = Some r -> mode <> DBG_NONE /\
    ((index r = i /\ lo r = p) \/
     (index r <> i /\ state st (index r) = Live /\ 0 <= index r < num_ids t /\
      blocks t !! Z.to_nat (index r) = Some (lo r))).

(** [randomize_block] on a new block, or nothing when the debug mode is off. *)
Lemma randomize_live d L i p n b :
  a_inv (package d) L -> L !! p = Some n -> slot (trace d) i p n b ->
  exists d' b', randomize_block mode tbl d i = Done d' /\ messages d' = messages d /\ range_set d' = range_set d /\
    slot (trace d') i p n b' /\ elsewhere (trace d) (trace d') i /\ a_inv (package d') L /\
    content mode tbl (a_mem (package d')) p n b' /\
    (forall x, ~ (p <= x < p + n) -> byte_at (a_mem (package d')) x = byte_at (a_mem (package d)) x).
Proof using Htbl.
  intros Hinv Hp Hs. destruct (decide (mode = DBG_NONE)) as [Hm|Hm].
  { exists d, b. unfold randomize_block, content. rewrite Hm. split_done. }
  pose proof (a_payload _ _ _ _ Hinv Hp) as Hpl.
  destruct (randomize_block_ok mode tbl Hm Htbl d i p n b Hs) as
    (d' & t' & b' & E & Et & Ett & Hs' & [m' Ep] & Er & Emsg & Hreg & Hok & Hi & Hb).
  - destruct Hpl. lia.
  - by eapply a_mem_ok.
  - destruct Hpl as [_ _ _ _ []]. split; lia.
  - exists d', b'. destruct (set_rand_base_ok _ _ _ _ _ _ _ Hs Et) as [_ He]. rewrite Ett.
    rewrite Ep in *. rewrite mem_get_set in *. split_done; [by eapply a_write|by intros _].
Qed.

Lemma publish d st L i p n b :
  a_inv (package d) (<[p := n]> L) -> L !! p = None -> slot (trace d) i p n b -> 0 <= i < num_ids (trace d) ->
  others_ok mode tbl (trace d) (a_mem (package d)) L st i ->
  set_ok (range_set d) -> recorded (range_set d) (<[p := n]> L) -> ranges_but (range_set d) (trace d) st i p ->
  (forall j, is_Some (st !! j) -> 0 <= j < num_ids (trace d)) ->
  exists d', randomize_block mode tbl d i = Done d' /\ messages d' = messages d /\
    num_ids (trace d') = num_ids (trace d) /\ driver_inv mode tbl d' (<[i := Live]> st) (<[p := n]> L).
Proof using Htbl.
  intros Hinv Hp Hs Hi Ho Hset Hrec Hr Hst.
  destruct (randomize_live d (<[p := n]> L) i p n b Hinv (lookup_insert_eq _ _ _) Hs) as
    (d' & b' & -> & Em & Er & Hs' & He & Hinv' & Hc & Hb).
  exists d'. split_done; [by apply He|].
  assert (Hkeep : keeps L (a_mem (package d)) (a_mem (package d'))).
  { intros q k x Hq Hx. apply Hb. intros Hx'. assert (q <> p) by congruence.
    destruct (a_disjoint _ _ p n q k Hinv) as [|]; [apply lookup_insert_eq|by rewrite lookup_insert_ne|done|lia|lia]. }
  assert (Ho' : others_ok mode tbl (trace d') (a_mem (package d')) L st i).
  { split.
    - intros j Hj Hne. rewrite (el_ids _ _ _ He) in Hj.
      eapply id_ok_keeps; [done..| |done|by apply (ot_ids _ _ _ _ _ _ _ Ho)]. done.
    - apply (others_elsewhere mode tbl _ _ _ _ _ _ Ho He). }
  assert (Hfresh : forall j q, 0 <= j < num_ids (trace d') -> j <> i -> state st j = Live ->
    blocks (trace d') !! Z.to_nat j = Some q -> q <> p).
  { intros j q Hj Hne Hl Hq. pose proof (ot_ids _ _ _ _ _ _ _ Ho' j Hj Hne) as Hid. rewrite Hl in Hid.
    destruct Hid as (q' & k & b0 & Hsl & HL & _). pose proof (sl_block _ _ _ _ _ Hsl). congruence. }
  rewrite <- (el_ids _ _ _ He) in Hst, Hi.
  split.
  - done.
  - intros j Hj. rewrite state_insert. case_decide as E.
    + subst j. exists p, n, b'. split_done. apply lookup_insert_eq.
    + eapply id_ok_keeps; [apply elsewhere_refl|exact E| | |by apply (ot_ids _ _ _ _ _ _ _ Ho')].
      * intros q k b0 _ Hq _. rewrite lookup_insert_ne; congruence.
      * by intros q k x _ _.
  - intros j k q Hj Hk Hj0 Hk0 Hbj Hbk. rewrite state_insert in Hj, Hk. pose proof (sl_block _ _ _ _ _ Hs') as Hsb.
    assert (Hin : forall j, state st j = Live -> 0 <= j < num_ids (trace d')).
    { intros j' Hl. apply Hst. unfold state in Hl. destruct (st !! j'); [by eexists|done]. }
    destruct (decide (j = i)) as [Ej|Ej], (decide (k = i)) as [Ek|Ek]; [congruence|..].
    + exfalso. apply (Hfresh k q); try done; [by apply Hin|]. congruence.
    + exfalso. apply (Hfresh j q); try done; [by apply Hin|]. congruence.
    + by apply (ot_inj _ _ _ _ _ _ _ Ho' j k q).
  - by rewrite Er.
  - by rewrite Er.
  - intros l r Hlr. rewrite Er in Hlr. destruct (Hr l r Hlr) as [Hm [[-> ->]|(Hne & Hl & Hin & Hbl)]].
    + rewrite state_insert, decide_True by done. split_done; try lia; apply Hs'.
    + rewrite state_insert, decide_False by done. rewrite (el_ids _ _ _ He). split_done; try lia.
      rewrite (el_blocks _ _ _ He); [done|lia|done].
  - by apply states_insert.
Qed.

(** The request loop's post-condition. *)
Definition step_ok (n : Z) st d' : Prop := num_ids (trace d') = n /\ exists L, driver_inv mode tbl d' st L.

Lemma valid_alloc_ok d st L op i n :
  driver_inv mode tbl d st L -> 0 <= i < num_ids (trace d) -> 0 < n < w64 -> state st i <> Live ->
  served d (valid_alloc mode tbl d op i n) (step_ok (num_ids (trace d)) (<[i := Live]> st)).
Proof using Htbl.
  intros Hd Hi Hn Hst. pose proof Hd as [Hinv Hids Hinj Hset Hrec Hr Hdom]. unfold valid_alloc.
  destruct (a_malloc_ok _ L n Hinv) as (p & h' & -> & Hp); [u64_lia|lia|]. cbn [mbind outcome_bind].
  destruct (p =? 0) eqn:E0.
  { by apply (served_refused _ _ op MallocFailed); [right; left| |]. }
  apply Z.eqb_neq in E0. destruct Hp as [|(Hp & Hinv' & Hk)]; [done|].
  destruct (record_payload_ok mode (set_package d h') op i p n L Hset Hrec Hinv' Hp) as
    [[-> ?]|(rs' & -> & Hset' & Hrec' & Hr')]; [by left|]. cbn [mbind outcome_bind].
  assert (exists p0 n0 b0, slot (trace d) i p0 n0 b0) as (p0 & n0 & b0 & Hs0).
  { specialize (Hids i Hi). destruct (state st i); simpl in Hids; naive_solver. }
  cbn [trace set_ranges set_package].
  destruct (set_blocks_ok _ _ _ _ _ p Hs0) as (t1 & -> & Hs1 & He1). cbn [mbind outcome_bind].
  destruct (set_block_sizes_ok _ _ _ _ _ n Hs1) as (t2 & -> & Hs2 & He2). cbn [mbind outcome_bind].
  pose proof (elsewhere_trans _ _ _ _ He1 He2) as He.
  destruct (publish (set_trace (set_ranges (set_package d h') rs') t2) st L i p n b0) as (d' & -> & Em & En & Hd');
    try done.
  - cbn [trace set_trace]. by rewrite (el_ids _ _ _ He).
  - cbn [trace set_trace package set_ranges set_package].
    rewrite <- (delete_id L 0) by by eapply live_null.
    eapply others_step; [done|by right| |done]. by rewrite delete_id by (by eapply live_null).
  - intros l r Hlr. destruct (Hr' l r Hlr) as [(Hm & E1 & E2)|(r0 & Hr0 & E1 & E2)]; [by split; [|left]|].
    destruct (Hr l r0 Hr0) as (Hm & Hl & Hin & Hb). rewrite E1, E2. split; [done|right].
    cbn [trace set_trace]. rewrite (el_ids _ _ _ He). split; [congruence|]. split_done; try lia.
    rewrite (el_blocks _ _ _ He); [done|lia|congruence].
  - cbn [trace set_trace]. by rewrite (el_ids _ _ _ He).
  - cbn [mbind outcome_bind]. apply served_done; [|done]. split; [|by eexists].
    rewrite En. apply He.
Qed.

(** *** The check before every request *)

Definition above (R : gmap loc range_t) (a : Z) : gmap loc range_t := filter (fun kr => a <= lo kr.2) R.

Lemma above_next R p r q rq :
  R !! p = Some r -> R !! q = Some rq -> lo r < lo rq -> (size (above R (lo rq)) < size (above R (lo r)))%nat.
Proof.
  intros Hp Hq Hlt. apply map_subset_size. split.
  - apply map_subseteq_spec. intros x y [Hx Hy]%map_lookup_filter_Some. apply map_lookup_filter_Some.
    simpl in *. split; [done|lia].
  - intros Hsub. assert (Hx : above R (lo r) !! p = Some r) by (apply map_lookup_filter_Some; simpl; split; [done|lia]).
    eapply lookup_weaken in Hx; [|exact Hsub]. apply map_lookup_filter_Some in Hx as [_ Hx]. simpl in Hx. lia.
Qed.

Lemma check_ranges_ok d st L op fuel p :
  driver_inv mode tbl d st L ->
  match p with
  | None => (0 < fuel)%nat
  | Some l => exists r, ranges (range_set d) !! l = Some r /\ (size (above (ranges (range_set d)) (lo r)) < fuel)%nat
  end ->
  check_ranges mode tbl fuel d op p = Done (true, d).
Proof using Htbl.
  intros Hd. pose proof Hd as [Hinv Hids Hinj [m Hok] Hrec Hr Hdom]. revert p.
  induction fuel as [|fuel IH]; intros p Hp; [destruct p as [l|]; [destruct Hp as (? & _ & ?)|]; lia|].
  destruct p as [l|]; [|done]. destruct Hp as (r & Hl & Hf). simpl. unfold get_range. rewrite Hl.
  cbn [mbind outcome_bind]. destruct (Hr l r Hl) as (Hm & Hlive & Hin & Hb).
  rewrite (check_id mode tbl d st L (index r) op false Htbl Hinv); [|congruence|by apply Hids].
  cbn [mbind outcome_bind]. apply IH. destruct (next r) as [q|] eqn:Hq.
  - destruct (lk_next _ (ro_links _ _ Hok) _ _ _ Hl Hq) as (rq & Hrq & _ & Hlt & _). exists rq. split; [done|].
    pose proof (above_next _ _ _ _ _ Hl Hrq Hlt). lia.
  - assert (size (above (ranges (range_set d)) (lo r)) <> 0)%nat; [|lia].
    intros E%map_size_empty_iff. assert (Hx : above (ranges (range_set d)) (lo r) !! l = Some r)
      by (apply map_lookup_filter_Some; simpl; split; [done|lia]). by rewrite E in Hx.
Qed.

Lemma check_all_ok d st L op : driver_inv mode tbl d st L -> check_all mode tbl d op = Done (true, d).
Proof using Htbl.
  intros Hd. unfold check_all. destruct mode eqn:Em; [done..|]. rewrite <- Em in *.
  rewrite (a_checkheap_ok _ L) by apply Hd. cbn [mbind outcome_bind].
  apply (check_ranges_ok d st L); [done|]. destruct (rlist (range_set d)) as [l|] eqn:El; [|lia].
  destruct (di_set _ _ _ _ _ Hd) as [m Hok]. destruct (ro_list _ _ Hok _ El) as (r & Hr & _). exists r. split; [done|].
  unfold above. pose proof (map_subseteq_size _ _ (map_filter_subseteq (fun kr => lo r <= lo kr.2) (ranges (range_set d)))).
  lia.
Qed.

(** *** [REALLOC] and [FREE] *)

(** The old block of an id that is not freed. *)
Definition old_block t st L i (p n b : Z) : Prop :=
  slot t i p n b /\
  (state st i = Live /\ L !! p = Some n \/ state st i = Cleared /\ p = 0 /\ n = 0).

Lemma old_block_ok d st L i :
  driver_inv mode tbl d st L -> 0 <= i < num_ids (trace d) -> state st i <> Freed ->
  exists p n b, old_block (trace d) st L i p n b /\ (state st i = Live -> content mode tbl (a_mem (package d)) p n b).
Proof.
  intros Hd Hi Hs. pose proof (di_ids _ _ _ _ _ Hd i Hi) as Hid. unfold old_block.
  destruct (state st i) eqn:E; simpl in Hid; [|destruct Hid as (p & n & b & ? & ? & ?)|done].
  - destruct Hid as [b Hb]. exists 0, 0, b. split; [|done]. split; [done|by right].
  - exists p, n, b. split; [|done]. split; [done|by left].
Qed.

(** What is left of the invariant when the old block of [i] is gone. *)
Lemma old_block_gone d st L i p n b h' rs' :
  driver_inv mode tbl d st L -> 0 <= i < num_ids (trace d) -> old_block (trace d) st L i p n b ->
  keeps (delete p L) (a_mem (package d)) (a_mem h') ->
  (forall l r', ranges rs' !! l = Some r' -> lo r' <> p /\
    exists r, ranges (range_set d) !! l = Some r /\ lo r' = lo r /\ index r' = index r) ->
  others_ok mode tbl (trace d) (a_mem h') (delete p L) st i /\
  forall l r', ranges rs' !! l = Some r' -> mode <> DBG_NONE /\ index r' <> i /\ state st (index r') = Live /\
    0 <= index r' < num_ids (trace d) /\ blocks (trace d) !! Z.to_nat (index r') = Some (lo r').
Proof.
  intros Hd Hi [Hs Hst] Hk Hr. split.
  - eapply others_step; [done| |done|apply elsewhere_refl].
    destruct Hst as [[Hl _]|(_ & -> & _)]; [left|by right]. split_done; [apply Hs|lia].
  - intros l r' Hlr. destruct (Hr l r' Hlr) as (Hne & r & Hl & E1 & E2).
    destruct (di_ranges _ _ _ _ _ Hd l r Hl) as (Hm & Hlive & Hin & Hb). rewrite E1 in *. rewrite E2.
    split; [done|]. split; [|done]. intros E. rewrite E in Hb, Hlive.
    destruct Hst as [[_ HL]|[Hc _]]; [|congruence]. pose proof (sl_block _ _ _ _ _ Hs). congruence.
Qed.

(** The id [i] has no live block afterwards. *)
Lemma retire d st L i s :
  s <> Live -> a_inv (package d) L -> 0 <= i < num_ids (trace d) -> id_ok mode tbl (trace d) (a_mem (package d)) L i s ->
  others_ok mode tbl (trace d) (a_mem (package d)) L st i ->
  set_ok (range_set d) -> recorded (range_set d) L ->
  (forall l r, ranges (range_set d) !! l = Some r -> mode <> DBG_NONE /\ index r <> i /\ state st (index r) = Live /\
    0 <= index r < num_ids (trace d) /\ blocks (trace d) !! Z.to_nat (index r) = Some (lo r)) ->
  (forall j, is_Some (st !! j) -> 0 <= j < num_ids (trace d)) ->
  driver_inv mode tbl d (<[i := s]> st) L.
Proof.
  intros Hs Hinv Hi Hid Ho Hset Hrec Hr Hst. split; try done.
  - intros j Hj. rewrite state_insert. case_decide; [by subst|by apply Ho].
  - intros j k q Hj Hk Hj0 Hk0 Hbj Hbk. rewrite state_insert in Hj, Hk.
    destruct (decide (j = i)), (decide (k = i)); try done. by apply (ot_inj _ _ _ _ _ _ _ Ho j k q).
  - intros l r Hlr. destruct (Hr l r Hlr) as (Hm & Hne & Hl & Hin & Hb). by rewrite state_insert, decide_False.
  - by apply states_insert.
Qed.

Definition after_realloc (n : Z) : id_state := if n =? 0 then Cleared else Live.

Lemma randomize_null d i b :
  slot (trace d) i 0 0 b ->
  exists d', randomize_block mode tbl d i = Done d' /\ messages d' = messages d /\ package d' = package d /\
    range_set d' = range_set d /\ elsewhere (trace d) (trace d') i /\ exists b', slot (trace d') i 0 0 b'.
Proof.
  intros Hs. unfold randomize_block. destruct (decide (mode = DBG_NONE)) as [->|Hm].
  { exists d. split_done. by exists b. }
  destruct (random (seed d)) as [r s'].
  assert (exists t', set_rand_base (trace d) i r = Done t') as [t' E'].
  { unfold set_rand_base. rewrite (proj2 (Z.ltb_ge _ _)) by apply Hs.
    rewrite (array_set_lookup _ _ _ _ (sl_base _ _ _ _ _ Hs)). by eexists. }
  destruct (set_rand_base_ok _ _ _ _ _ _ _ Hs E') as [Hs' He].
  exists (Driver (package d) t' (range_set d) s' (messages d)). split; [|split_done; by exists r].
  rewrite E'. cbn [mbind outcome_bind blocks trace].
  rewrite (slot_block _ _ _ _ _ Hs'), (slot_size _ _ _ _ _ Hs'). by destruct mode.
Qed.

Lemma check_null d op i p b realloc : slot (trace d) i p 0 b -> check_index mode tbl d op i realloc = Done (true, d).
Proof.
  intros Hs. unfold check_index. destruct (i <? 0); [done|].
  rewrite (slot_block _ _ _ _ _ Hs), (slot_size _ _ _ _ _ Hs). by destruct mode.
Qed.

(** [REALLOC] to size 0. *)
Lemma moved_to_null d st L op i p n b h' :
  driver_inv mode tbl d st L -> 0 <= i < num_ids (trace d) -> old_block (trace d) st L i p n b ->
  a_inv h' (delete p L) -> keeps (delete p L) (a_mem (package d)) (a_mem h') ->
  served d (valid_moved mode tbl (set_package d h') op i p 0 0) (step_ok (num_ids (trace d)) (<[i := Cleared]> st)).
Proof using Htbl.
  intros Hd Hi Hold Hinv' Hk. unfold valid_moved.
  destruct (forget_payload_ok (set_package d h') p L) as (rs' & -> & Hset & Hrec & Hr);
    [apply Hd|apply Hd|]. cbn [mbind outcome_bind].
  destruct (old_block_gone d st L i p n b h' rs' Hd Hi Hold Hk Hr) as [Ho Hr']. destruct Hold as [Hs Hst].
  change (0 <? 0) with false. cbn [mbind outcome_bind trace set_ranges set_package].
  destruct (set_blocks_ok _ _ _ _ _ 0 Hs) as (t1 & -> & Hs1 & He1). cbn [mbind outcome_bind].
  rewrite (slot_size _ _ _ _ _ Hs1). cbn [mbind outcome_bind].
  assert (exists t2, (if 0 <? n then set_block_sizes t1 i 0 else Done t1) = Done t2 /\ slot t2 i 0 0 b /\ elsewhere t1 t2 i)
    as (t2 & -> & Hs2 & He2).
  { destruct (0 <? n) eqn:E; [by apply (set_block_sizes_ok t1 i 0 n b 0)|]. exists t1. split_done.
    apply Z.ltb_ge in E. assert (n = 0) as ->; [|done]. destruct Hst as [[_ HL]|(_ & _ & ->)]; [|done].
    pose proof (live_positive _ _ _ _ (di_package _ _ _ _ _ Hd) HL). lia. }
  cbn [mbind outcome_bind].
  rewrite (check_null _ _ _ 0 b) by done. cbn [mbind outcome_bind trace set_trace].
  destruct (set_block_sizes_ok _ _ _ _ _ 0 Hs2) as (t3 & -> & Hs3 & He3). cbn [mbind outcome_bind].
  pose proof (elsewhere_trans _ _ _ _ (elsewhere_trans _ _ _ _ He1 He2) He3) as He.
  set (d3 := set_trace _ t3).
  destruct (randomize_null d3 i b Hs3) as (d' & -> & Em & Ep & Er & Het & b' & Hs').
  cbn [mbind outcome_bind]. apply served_done; [|done].
  pose proof (elsewhere_trans _ _ _ _ He Het) as He'.
  split; [apply He'|]. exists (delete p L). apply retire; rewrite ?Ep, ?Er, ?(el_ids _ _ _ He'); try done.
  - by exists b'.
  - by eapply others_elsewhere.
  - intros l r Hlr. destruct (Hr' l r Hlr) as (Hm & Hne & Hl & Hin & Hb). split_done; try lia.
    rewrite (el_blocks _ _ _ He'); [done|lia|done].
  - apply Hd.
Qed.

(** The copied start of a block passes the check after a [realloc]. *)
Lemma check_moved d (m0 : mem) L op i p q n k b :
  a_inv (package d) L -> L !! q = Some k -> slot (trace d) i q (Z.min k n) b ->
  0 < n < w64 -> content mode tbl m0 p n b ->
  (forall j, 0 <= j < n -> j < k -> byte_at (a_mem (package d)) (q + j) = byte_at m0 (p + j)) ->
  check_index mode tbl d op i true = Done (true, d).
Proof using Htbl.
  intros Hinv Hq Hs Hn Hc Hcopy. pose proof (a_payload _ _ _ _ Hinv Hq) as Hpl.
  destruct (decide (mode = DBG_NONE)) as [Em|Em].
  { unfold check_index. destruct (i <? 0); [done|]. by rewrite Em. }
  destruct (check_index_ok mode tbl Em Htbl d op i q (Z.min k n) b true Hs) as (bad & fg & _ & Hiff & ->).
  - destruct Hpl. lia.
  - by eapply a_mem_ok.
  - destruct Hpl as [_ _ _ _ []]. split; lia.
  - replace (bad =? 0) with true; [done|]. symmetry. apply Z.eqb_eq, Hiff. intros j Hj Hj'.
    rewrite Hcopy by lia. apply (intact_begins tbl m0 p n b); [lia|by apply Hc|lia|done].
Qed.

Lemma moved_to_block d st L op i p n b q k h' :
  driver_inv mode tbl d st L -> 0 <= i < num_ids (trace d) -> old_block (trace d) st L i p n b ->
  (state st i = Live -> content mode tbl (a_mem (package d)) p n b) ->
  0 < k < w64 -> delete p L !! q = None -> a_inv h' (<[q := k]> (delete p L)) ->
  keeps (delete p L) (a_mem (package d)) (a_mem h') ->
  (forall k0 j, L !! p = Some k0 -> 0 <= j < k0 -> j < k -> byte_at (a_mem h') (q + j) = byte_at (a_mem (package d)) (p + j)) ->
  served d (valid_moved mode tbl (set_package d h') op i p q k) (step_ok (num_ids (trace d)) (<[i := Live]> st)).
Proof using Htbl.
  intros Hd Hi Hold Hcont Hk Hq Hinv' Hkeep Hcopy. unfold valid_moved.
  destruct (forget_payload_ok (set_package d h') p L) as (rs' & -> & Hset & Hrec & Hr);
    [apply Hd|apply Hd|]. cbn [mbind outcome_bind].
  destruct (old_block_gone d st L i p n b h' rs' Hd Hi Hold Hkeep Hr) as [Ho Hr'].
  rewrite (proj2 (Z.ltb_lt _ _)) by lia.
  destruct (record_payload_ok mode (set_ranges (set_package d h') rs') op i q k (delete p L) Hset Hrec Hinv' Hq)
    as [[-> ?]|(rs2 & -> & Hset2 & Hrec2 & Hr2)]; [by left|].
  destruct Hold as [Hs Hst]. cbn [mbind outcome_bind trace set_ranges set_package].
  destruct (set_blocks_ok _ _ _ _ _ q Hs) as (t1 & -> & Hs1 & He1). cbn [mbind outcome_bind].
  rewrite (slot_size _ _ _ _ _ Hs1). cbn [mbind outcome_bind].
  assert (exists t2, (if k <? n then set_block_sizes t1 i k else Done t1) = Done t2 /\ slot t2 i q (Z.min k n) b /\
    elsewhere t1 t2 i) as (t2 & -> & Hs2 & He2).
  { destruct (k <? n) eqn:E; [rewrite Z.min_l by lia; by apply (set_block_sizes_ok t1 i q n b k)|].
    exists t1. rewrite Z.min_r by lia. split_done. }
  cbn [mbind outcome_bind].
  assert (forall d2, trace d2 = t2 -> package d2 = h' -> check_index mode tbl d2 op i true = Done (true, d2)) as Hchk.
  { intros d2 E2 Ep. destruct Hst as [[Hl HL]|(_ & _ & ->)].
    - pose proof (a_payload _ _ _ _ (di_package _ _ _ _ _ Hd) HL) as [].
      apply (check_moved d2 (a_mem (package d)) (<[q := k]> (delete p L)) op i p q n k b); rewrite ?E2, ?Ep; try done;
        [apply lookup_insert_eq|lia|by apply Hcont|intros j ? ?; by apply (Hcopy n)].
    - apply (check_null _ _ _ q b). rewrite E2. by rewrite Z.min_r in Hs2 by lia. }
  rewrite Hchk by done. clear Hchk. cbn [mbind outcome_bind trace set_trace].
  destruct (set_block_sizes_ok _ _ _ _ _ k Hs2) as (t3 & -> & Hs3 & He3). cbn [mbind outcome_bind].
  pose proof (elsewhere_trans _ _ _ _ (elsewhere_trans _ _ _ _ He1 He2) He3) as He.
  set (d3 := set_trace _ t3).
  destruct (publish d3 st (delete p L) i q k b) as (d' & -> & Em & En & Hd'); try done.
  - cbn [d3 trace set_trace]. by rewrite (el_ids _ _ _ He).
  - by eapply others_elsewhere.
  - intros l r Hlr. destruct (Hr2 l r Hlr) as [(Hm & E1 & E2)|(r0 & Hr0 & E1 & E2)]; [by split; [|left]|].
    destruct (Hr' l r0 Hr0) as (Hm & Hne & Hl & Hin & Hb). rewrite E1, E2. split; [done|right].
    cbn [d3 trace set_trace]. rewrite (el_ids _ _ _ He). split_done; try lia.
    rewrite (el_blocks _ _ _ He); [done|lia|done].
  - cbn [d3 trace set_trace]. rewrite (el_ids _ _ _ He). apply Hd.
  - cbn [mbind outcome_bind]. apply served_done; [|done]. split; [|by eexists]. rewrite En. apply He.
Qed.

Lemma valid_realloc_ok d st L op i k :
  driver_inv mode tbl d st L -> 0 <= i < num_ids (trace d) -> u64 k -> state st i <> Freed ->
  served d (valid_realloc mode tbl d op i k) (step_ok (num_ids (trace d)) (<[i := if k =? 0 then Cleared else Live]> st)).
Proof using Htbl.
  intros Hd Hi Hk Hst. unfold valid_realloc.
  rewrite (check_id mode tbl d st L i op false Htbl) by (done || by apply Hd). cbn [mbind outcome_bind].
  destruct (old_block_ok d st L i Hd Hi Hst) as (p & n & b & Hold & Hc).
  rewrite (slot_block _ _ _ _ _ (proj1 Hold)). cbn [mbind outcome_bind].
  destruct (a_realloc_ok _ L p k (di_package _ _ _ _ _ Hd) Hk) as (q & h' & -> & Hq).
  { destruct Hold as [_ [[_ ->]|(_ & -> & _)]]; [right; by eexists|by left]. }
  cbn [mbind outcome_bind]. case_decide as E0.
  - subst k. destruct Hq as (-> & Hinv' & Hkeep). simpl. by eapply moved_to_null.
  - rewrite !(proj2 (Z.eqb_neq _ _) E0). destruct (q =? 0) eqn:Eq.
    { apply (served_refused _ _ op ReallocFailed); [by right; right|done|apply Hd]. }
    apply Z.eqb_neq in Eq. destruct Hq as [|(Hq & Hinv' & Hkeep & Hcopy)]; [done|]. cbn [negb andb].
    apply (moved_to_block d st L op i p n b); try done. u64_lia.
Qed.

(** A free of the null pointer. *)
Lemma keep_all d st L h' :
  driver_inv mode tbl d st L -> a_inv h' L -> keeps L (a_mem (package d)) (a_mem h') ->
  driver_inv mode tbl (set_package d h') st L.
Proof.
  intros [Hinv Hids Hinj Hset Hrec Hr Hdom] Hinv' Hk. split; try done.
  intros i Hi. specialize (Hids i Hi). destruct (state st i); simpl in *; [done| |done].
  destruct Hids as (p & n & b & Hs & Hp & Hc). exists p, n, b. split_done. intros Hm.
  eapply intact_keeps; [|by apply Hc]. intros x Hx. by apply (Hk p n).
Qed.

Lemma valid_free_ok d st L op i st' :
  driver_inv mode tbl d st L -> (i = -1 /\ st' = st \/ 0 <= i < num_ids (trace d) /\ state st i <> Freed /\
    st' = <[i := match state st i with Live => Freed | s => s end]> st) ->
  served d (valid_free mode tbl d op i) (step_ok (num_ids (trace d)) st').
Proof using Htbl.
  intros Hd [[-> ->]|(Hi & Hst & ->)]; unfold valid_free.
  - change (check_index mode tbl d op (-1) false) with (Done (true, d)). cbn [mbind outcome_bind].
    change (-1 =? -1) with true. cbn [mbind outcome_bind]. pose proof (live_null _ _ (di_package _ _ _ _ _ Hd)) as H0'.
    destruct (a_free_ok _ L 0 (di_package _ _ _ _ _ Hd)) as (h' & -> & Hinv' & Hkeep); [by left|].
    rewrite delete_id in Hinv', Hkeep by done. cbn [mbind outcome_bind]. apply served_done; [|done].
    split; [done|]. exists L. by apply keep_all.
  - rewrite (check_id mode tbl d st L i op false Htbl) by (done || by apply Hd). cbn [mbind outcome_bind].
    rewrite (proj2 (Z.eqb_neq i (-1))) by lia. destruct (old_block_ok d st L i Hd Hi Hst) as (p & n & b & Hold & _).
    rewrite (slot_block _ _ _ _ _ (proj1 Hold)). cbn [mbind outcome_bind].
    destruct (forget_payload_ok d p L) as (rs' & -> & Hset & Hrec & Hr); [apply Hd|apply Hd|]. cbn [mbind outcome_bind].
    destruct (a_free_ok _ L p (di_package _ _ _ _ _ Hd)) as (h' & Ef & Hinv' & Hkeep).
    { destruct Hold as [_ [[_ ->]|(_ & -> & _)]]; [right; by eexists|by left]. }
    cbn [package set_ranges]. rewrite Ef. cbn [mbind outcome_bind]. apply served_done; [|done]. split; [done|].
    destruct (old_block_gone d st L i p n b h' rs' Hd Hi Hold Hkeep Hr) as [Ho Hr'].
    exists (delete p L). apply retire; try done; [| |apply Hd].
    + by destruct (state st i).
    + destruct Hold as [Hs [[Hl HL]|(Hl & -> & ->)]]; rewrite Hl; [by exists p, n, b|by exists b].
Qed.

Lemma next_state_ok d st L op o st' :
  driver_inv mode tbl d st L -> next_state (num_ids (trace d)) st o = Some st' ->
  served d (valid_op mode tbl d op o) (step_ok (num_ids (trace d)) st').
Proof using Htbl.
  intros Hd Hn. unfold valid_op. rewrite (check_all_ok d st L op Hd). cbn [mbind outcome_bind].
  unfold next_state in Hn. destruct (type o).
  - destruct (op_size o) as [k|]; [|done]. cbn [initialised mbind outcome_bind].
    destruct (_ && _) eqn:E in Hn; [injection Hn as <-|done].
    rewrite !andb_true_iff, negb_true_iff, bool_decide_eq_false in E. destruct E as [[[[E1 E2] E3] E4] E5].
    eapply valid_alloc_ok; [done|lia|lia|done].
  - eapply valid_free_ok; [done|]. destruct (op_index o =? -1) eqn:E1; [left|right].
    + apply Z.eqb_eq in E1. by injection Hn as <-.
    + destruct (_ && _) eqn:E in Hn; [injection Hn as <-|done].
      rewrite !andb_true_iff, negb_true_iff, bool_decide_eq_false in E. destruct E as [[E2 E3] E4]. split_done; lia.
  - destruct (op_size o) as [k|]; [|done]. cbn [initialised mbind outcome_bind].
    destruct (_ && _) eqn:E in Hn; [injection Hn as <-|done].
    rewrite !andb_true_iff, negb_true_iff, bool_decide_eq_false in E. destruct E as [[[[E1 E2] E3] E4] E5].
    eapply valid_realloc_ok; [done|lia|u64_lia|done].
Qed.

Lemma valid_ops_ok os d st L op :
  driver_inv mode tbl d st L -> sensible_ops (num_ids (trace d)) st os = true ->
  served d (valid_ops mode tbl d op os) (fun d' => exists st' L', driver_inv mode tbl d' st' L').
Proof using Htbl.
  revert d st L op. induction os as [|o os IH]; intros d st L op Hd Hs; simpl; [apply served_done; [by exists st, L|done]|].
  simpl in Hs. destruct (next_state _ st o) as [st'|] eqn:En; [|done].
  eapply served_bind; [by apply (next_state_ok d st L op o st')| |done].
  intros d' [Hids [L' Hd']] _. apply (IH d' st' L'); [done|]. by rewrite Hids.
Qed.

(** ** Theorem *)

Definition well_formed (t : trace_t) : Prop :=
  0 <= num_ids t /\ length (block_rand_base t) = Z.to_nat (num_ids t) /\ sensible_ops (num_ids t) ∅ (ops t) = true.

Lemma reinit_slot t i :
  length (block_rand_base t) = Z.to_nat (num_ids t) -> 0 <= i < num_ids t -> exists b, slot (reinit_trace t) i 0 0 b.
Proof.
  intros Hlen Hi. destruct (lookup_lt_is_Some_2 (block_rand_base t) (Z.to_nat i)) as [b Hb]; [lia|]. exists b.
  split; simpl; [lia|apply lookup_replicate_2; lia..|done].
Qed.

(** *** What a run leaves of the trace *)

Definition same_trace t t' : Prop :=
  ops t' = ops t /\ num_ids t' = num_ids t /\ length (block_rand_base t') = length (block_rand_base t).

Lemma same_refl t : same_trace t t.
Proof. done. Qed.
Lemma same_trans t1 t2 t3 : same_trace t1 t2 -> same_trace t2 t3 -> same_trace t1 t3.
Proof. unfold same_trace. intros (?&?&?) (?&?&?). split_done; congruence. Qed.

Lemma set_blocks_same t i p t' : set_blocks t i p = Done t' -> same_trace t t'.
Proof. unfold set_blocks. destruct (i <? 0); [done|]. by intros (l & _ & [= <-])%bind_Done. Qed.
Lemma set_block_sizes_same t i p t' : set_block_sizes t i p = Done t' -> same_trace t t'.
Proof. unfold set_block_sizes. destruct (i <? 0); [done|]. by intros (l & _ & [= <-])%bind_Done. Qed.
Lemma set_rand_base_same t i b t' : set_rand_base t i b = Done t' -> same_trace t t'.
Proof.
  unfold set_rand_base. destruct (i <? 0); [done|]. intros (l & Hl & [= <-])%bind_Done. split; [done|split; [done|]]. simpl.
  unfold array_set in Hl. case_decide; [|done]. injection Hl as Hl. by rewrite <- Hl, length_insert.
Qed.

(** The trace of the driver after code that returned. *)
Definition keeps_trace d (out : outcome (bool * driver H)) : Prop :=
  forall b d', out = Done (b, d') -> same_trace (trace d) (trace d').

Lemma keeps_done d d' b : same_trace (trace d) (trace d') -> keeps_trace d (Done (b, d')).
Proof. by intros Hs b' d2 [= <- <-]. Qed.
Lemma keeps_fault d f : keeps_trace d (Fault f).
Proof. done. Qed.
Lemma keeps_step d {A} (out : outcome A) k : (forall a, out = Done a -> keeps_trace d (k a)) -> keeps_trace d (out ≫= k).
Proof. intros Hk b d' (a & Ha & E)%bind_Done. exact (Hk a Ha b d' E). Qed.
Lemma keeps_from d d1 out : same_trace (trace d) (trace d1) -> keeps_trace d1 out -> keeps_trace d out.
Proof. intros Hs Hk b d' E. eapply same_trans; [exact Hs|by apply (Hk b)]. Qed.
Lemma keeps_bind d out k : keeps_trace d out ->
  (forall b d1, out = Done (b, d1) -> keeps_trace d1 (k (b, d1))) -> keeps_trace d (out ≫= k).
Proof. intros Ho Hk. apply keeps_step. intros [b d1] E. eapply keeps_from; [by apply (Ho b)|by apply Hk]. Qed.

Lemma randomize_same d i d' : randomize_block mode tbl d i = Done d' -> same_trace (trace d) (trace d').
Proof.
  unfold randomize_block. destruct mode; [by intros [= <-]|..]; destruct (random (seed d)) as [r s];
    intros (t & Ht%set_rand_base_same & E)%bind_Done; (eapply same_trans; [exact Ht|]);
    apply bind_Done in E as (p & _ & E); apply bind_Done in E as (n & _ & E); simpl in E;
    (destruct (n =? 0); [by injection E as <-|]); destruct (fill_extent n) as [[??]?];
    apply bind_Done in E as (base & _ & E); apply bind_Done in E as (m1 & _ & E); apply bind_Done in E as (m2 & _ & E);
    by injection E as <-.
Qed.

Lemma check_index_keeps d op i r : keeps_trace d (check_index mode tbl d op i r).
Proof.
  unfold check_index. destruct (i <? 0); [by apply keeps_done|]. destruct mode; [by apply keeps_done|..];
    apply keeps_step; intros p _; apply keeps_step; intros n _; (destruct (n =? 0); [by apply keeps_done|]);
    destruct (fill_extent n) as [[??]?]; apply keeps_step; intros base _; apply keeps_step; intros g _;
    apply keeps_step; intros [ng fg] _; by destruct (ng =? 0); apply keeps_done.
Qed.

Lemma record_payload_keeps d p n op i : keeps_trace d (record_payload mode d p n op i).
Proof. apply keeps_step. intros [v rs] _. by destruct v; apply keeps_done. Qed.

Lemma forget_payload_same d p d' : forget_payload d p = Done d' -> trace d' = trace d.
Proof. unfold forget_payload. by intros (rs & _ & [= <-])%bind_Done. Qed.

Lemma check_ranges_keeps fuel d op r : keeps_trace d (check_ranges mode tbl fuel d op r).
Proof.
  revert d r. induction fuel as [|fuel IH]; intros d r; simpl; [done|]. destruct r as [l|]; [|by apply keeps_done].
  apply keeps_step. intros x _. apply keeps_bind; [apply check_index_keeps|]. intros [|] d1 _; [apply IH|by apply keeps_done].
Qed.

Lemma check_all_keeps d op : keeps_trace d (check_all mode tbl d op).
Proof.
  unfold check_all. destruct mode eqn:Em; [by apply keeps_done..|]. rewrite <- Em. apply keeps_step. intros [|] _; [apply check_ranges_keeps|by apply keeps_done].
Qed.

Lemma valid_alloc_keeps d op i n : keeps_trace d (valid_alloc mode tbl d op i n).
Proof.
  apply keeps_step. intros [p h] _. destruct (p =? 0); [by apply keeps_done|].
  eapply keeps_from; [|apply keeps_bind; [apply record_payload_keeps|]]; [done|]. intros [|] d1 _; [|by apply keeps_done].
  apply keeps_step. intros t1 H1'%set_blocks_same. apply keeps_step. intros t2 H2'%set_block_sizes_same.
  apply keeps_step. intros d2 H3'%randomize_same. apply keeps_done. eapply same_trans; [exact H1'|]. by eapply same_trans.
Qed.

Lemma valid_moved_keeps d op i oldp newp n : keeps_trace d (valid_moved mode tbl d op i oldp newp n).
Proof.
  apply keeps_step. intros d1 H1'%forget_payload_same. eapply keeps_from; [by rewrite <- H1'|]. apply keeps_bind.
  { destruct (0 <? n); [apply record_payload_keeps|by apply keeps_done]. }
  intros [|] d2 _; [|by apply keeps_done].
  apply keeps_step. intros t1 H2'%set_blocks_same. apply keeps_step. intros old _. apply keeps_step. intros t2 H3'.
  apply (keeps_from d2 (set_trace d2 t2)).
  { eapply same_trans; [exact H2'|]. destruct (n <? old); [by eapply set_block_sizes_same|by injection H3' as ->]. }
  apply keeps_bind; [apply check_index_keeps|]. intros [|] d3 _; [|by apply keeps_done].
  apply keeps_step. intros t3 H4'%set_block_sizes_same. apply keeps_step. intros d4 H5'%randomize_same.
  apply keeps_done. by eapply same_trans.
Qed.

Lemma valid_op_keeps d op o : keeps_trace d (valid_op mode tbl d op o).
Proof.
  apply keeps_bind; [apply check_all_keeps|]. intros [|] d1 _; [|by apply keeps_done]. destruct (type o).
  - apply keeps_step. intros n _. apply valid_alloc_keeps.
  - apply keeps_bind; [apply check_index_keeps|]. intros [|] d2 _; [|by apply keeps_done].
    apply keeps_step. intros [p d3] H3'. apply keeps_step. intros h _. apply keeps_done. simpl.
    destruct (op_index o =? -1); [by injection H3' as <- <-|]. apply bind_Done in H3' as (q & _ & H3').
    apply bind_Done in H3' as (d4 & H4'%forget_payload_same & [= <- <-]). by rewrite H4'.
  - apply keeps_step. intros n _. apply keeps_bind; [apply check_index_keeps|]. intros [|] d2 _; [|by apply keeps_done].
    apply keeps_step. intros oldp _. apply keeps_step. intros [newp h] _. destruct (_ && _); [by apply keeps_done|].
    destruct (_ && _); [by apply keeps_done|]. eapply keeps_from; [|apply valid_moved_keeps]. done.
Qed.

Lemma valid_ops_keeps os d op : keeps_trace d (valid_ops mode tbl d op os).
Proof.
  revert d op. induction os as [|o os IH]; intros d op; simpl; [by apply keeps_done|].
  apply keeps_bind; [apply valid_op_keeps|]. intros [|] d1 _; [apply IH|by apply keeps_done].
Qed.

Lemma same_well_formed t t' : same_trace t t' -> well_formed t -> well_formed t'.
Proof. intros (E1 & E2 & E3) (Hn & Hl & Hs). unfold well_formed. rewrite E1, E2, E3. done. Qed.

(** A run that accepted leaves what another run starts from. *)
Definition after_run d : Prop :=
  well_formed (trace d) /\ mem_ok (a_mem (package d)) /\ exists m, rs_ok (range_set d) m.

Lemma eval_valid_served d live :
  after_run d -> served d (eval_mm_valid mode tbl d live) (fun d' => after_run d' /\ same_trace (trace d) (trace d')).
Proof using Htbl CA.
  intros ((Hn & Hlen & Hs) & Hm & m & Hrs). unfold eval_mm_valid. cbn [range_set set_trace set_package].
  destruct (reset_range_set_ok _ _ live Hrs) as [[-> ?]|(rs' & -> & Hrs' & He)]; [by left|]. cbn [mbind outcome_bind].
  cbn [package set_ranges set_trace set_package].
  destruct (a_init_ok (a_with_mem (package d) (mem_reset_brk (a_mem (package d))))) as (ok & h' & -> & Hinit).
  { rewrite mem_get_set. destruct Hm as [A B C]. split; simpl; [done|lia|lia]. }
  { by rewrite mem_get_set. }
  cbn [mbind outcome_bind]. destruct ok.
  2:{ apply (served_refused _ _ 0 InitFailed); [by left|done|by exists ∅]. }
  set (d1 := set_package _ h'). eapply served_same, served_weaken; [done| |apply (valid_ops_ok (ops (trace d1)) d1 ∅ ∅); [|exact Hs]].
  - intros d' E (st' & L' & Hd'). pose proof (valid_ops_keeps _ _ _ _ _ E) as Hk.
    split; [|done]. split; [|split; [eapply a_mem_ok, Hd'|apply Hd']]. by apply (same_well_formed (trace d1)).
  - split; cbn; try done.
    + by apply Hinit.
    + intros i Hi. unfold state. rewrite lookup_empty. by apply reinit_slot.
    + by eexists.
    + intros l r Hr. by rewrite He in Hr.
    + intros l r Hr. by rewrite He in Hr.
    + intros i [s Hs0]. by rewrite lookup_empty in Hs0.
Qed.

(** C5: the driver raises no false alarm.  For any package that keeps its
    contract, any trace in which requests name ids sensibly, any table of random
    bytes and each debug mode, [eval_mm_valid] runs without a fault, unless the
    driver's own [malloc] fails and it exits; it returns true without a message,
    or false with one message, that the package's initialisation, allocation or
    reallocation ran out of memory.  Overlaps, misalignment, garbled bytes and
    payloads outside the heap are never reported. *)
Theorem driver_no_false_alarm d live :
  well_formed (trace d) -> mem_ok (a_mem (package d)) -> (exists m, rs_ok (range_set d) m) ->
  served d (eval_mm_valid mode tbl d live) (fun _ => True).
Proof using Htbl CA. intros Ht Hm Hrs. eapply served_weaken; [done|]. by apply eval_valid_served. Qed.
End valid.
