(* ===== verification/DriverDemo.v ===== *)
(** * A package that keeps the driver's contract

    A bump allocator in the simulated memory: it takes one piece of the heap,
    hands out consecutive aligned payloads, and never reuses one.  It shows that
    the contract of [DriverSpec] can be kept, and is the concrete package of the
    runs below. *)

From Stdlib Require Import ZArith Lia.
From stdpp Require Import gmap list.
From S2P Require Import Prelude MemLib STree STreeMap RangeSet RangeSetProps RangeSetOps TraceFile.
From S2P Require Import Driver DriverFill DriverSpec DriverSteps DriverValid.

(** ** The package *)

Record bump := Bump { b_mem : mem; b_next : Z }.

Definition round_up (x : Z) : Z := ALIGNMENT * ((x + 15) / ALIGNMENT).
Definition pool : Z := 4096.

Definition bump_init (h : bump) : bool * bump :=
  let '(p, m) := mem_sbrk (b_mem h) pool in
  if p =? failed_sbrk then (false, h)
  else if (0 <=? p) && (mem_brk m + 8 <=? mem_max_addr m) && (mem_brk m <? w64)
       then (true, Bump m (round_up (p + 16))) else (false, h).

Definition bump_malloc (h : bump) (n : Z) : Z * bump :=
  if b_next h + n <=? mem_brk (b_mem h) then (b_next h, Bump (b_mem h) (round_up (b_next h + n))) else (0, h).

Fixpoint copy_bytes (n : nat) (m0 : mem) (q p : Z) : mem :=
  match n with
  | O => m0
  | S n => set_byte (copy_bytes n m0 q p) (q + Z.of_nat n) (byte_at m0 (p + Z.of_nat n))
  end.

Definition bump_realloc (h : bump) (p n : Z) : Z * bump :=
  if n =? 0 then (0, h)
  else
    let '(q, h) := bump_malloc h n in
    if (q =? 0) || (p =? 0) then (q, h)
    else (q, Bump (copy_bytes (Z.to_nat n) (b_mem h) q p) (b_next h)).

#[export] Instance bump_allocator : Allocator bump := {
  a_mem := b_mem;
  a_with_mem h m := Bump m (b_next h);
  a_init h := Done (bump_init h);
  a_malloc h n := Done (bump_malloc h n);
  a_realloc h p n := Done (bump_realloc h p n);
  a_free h _ := Done h;
  a_checkheap _ := Done true
}.

#[export] Instance bump_laws : AllocatorLaws bump.
Proof. by split. Qed.

(** ** The contract *)

Record bump_inv (h : bump) (L : gmap Z Z) : Prop := {
  bi_mem : mem_ok (b_mem h);
  bi_region : 0 <= heap (b_mem h) /\ mem_brk (b_mem h) + 8 <= mem_max_addr (b_mem h) /\ mem_brk (b_mem h) < w64;
  bi_next : b_next h mod ALIGNMENT = 0 /\ heap (b_mem h) < b_next h;
  bi_live p n : L !! p = Some n -> 0 < n /\ p mod ALIGNMENT = 0 /\ heap (b_mem h) <= p /\ 0 < p /\
    p + n <= b_next h /\ p + n <= mem_brk (b_mem h);
  bi_disjoint p n q k : L !! p = Some n -> L !! q = Some k -> p <> q -> p + n <= q \/ q + k <= p
}.

Lemma round_up_ok x : x <= round_up x /\ round_up x mod ALIGNMENT = 0.
Proof.
  unfold round_up, ALIGNMENT. split.
  - pose proof (Z.div_mod (x + 15) 16). pose proof (Z.mod_pos_bound (x + 15) 16). lia.
  - rewrite Z.mul_comm. apply Z.mod_mul. lia.
Qed.

Lemma bump_sub h L L' : bump_inv h L -> L' ⊆ L -> bump_inv h L'.
Proof.
  intros [] Hs. split; try done.
  - intros p n Hp. apply bi_live0. by eapply lookup_weaken.
  - intros p n q k Hp Hq. apply bi_disjoint0; by eapply lookup_weaken.
Qed.

Lemma bump_write h L m : bump_inv h L -> mem_ok m -> same_region (b_mem h) m -> bump_inv (Bump m (b_next h)) L.
Proof. intros [] Hm (E1 & E2 & E3). split; simpl; rewrite ?E1, ?E2, ?E3; try done. Qed.

Lemma bump_malloc_ok h L n :
  bump_inv h L -> 0 < n -> let '(p, h') := bump_malloc h n in
  p = 0 \/ L !! p = None /\ bump_inv h' (<[p := n]> L) /\ b_mem h' = b_mem h /\ b_next h = p /\ p + n <= mem_brk (b_mem h).
Proof.
  intros Hi Hn. unfold bump_malloc. destruct (_ <=? _) eqn:E; [right|by left]. apply Z.leb_le in E.
  pose proof Hi as [Hm Hr [Ha Hh] Hl Hd]. destruct (round_up_ok (b_next h + n)) as [Hu Hu'].
  assert (Hnone : L !! b_next h = None).
  { apply eq_None_not_Some. intros [k Hk]. apply Hl in Hk. lia. }
  split_done. split; simpl; try done; [split; [done|lia]|..].
  - intros p k [[<- <-]|[_ Hp]]%lookup_insert_Some; [split_done; lia|]. specialize (Hl _ _ Hp). lia.
  - intros p k q k' [[<- <-]|[_ Hp]]%lookup_insert_Some [[<- <-]|[_ Hq]]%lookup_insert_Some Hne; [done|..].
    + specialize (Hl _ _ Hq). lia.
    + specialize (Hl _ _ Hp). lia.
    + by apply (Hd p k q k').
Qed.

Lemma copy_bytes_ok n m q p :
  mem_ok m -> mem_ok (copy_bytes n m q p) /\ same_region m (copy_bytes n m q p) /\
  forall x, byte_at (copy_bytes n m q p) x = if decide (q <= x < q + Z.of_nat n) then byte_at m (x - q + p) else byte_at m x.
Proof.
  intros Hm. induction n as [|n (IH1 & (F1 & F2 & F3) & IH3)]; simpl.
  - split_done. intros x. by rewrite decide_False by lia.
  - split; [exact (write_bytes_ok 1 _ _ _ IH1)|]. split; [done|]. intros x. rewrite byte_at_set, IH3.
    pose proof (byte_at_range m (p + Z.of_nat n) Hm) as Hb. unfold byte in Hb.
    repeat case_decide; try lia; try done. subst x. rewrite Z.mod_small by lia. f_equal. lia.
Qed.

Lemma bump_realloc_ok h L p n :
  bump_inv h L -> u64 n -> p = 0 \/ is_Some (L !! p) -> n <> 0 -> let '(q, h') := bump_realloc h p n in
  q = 0 \/ delete p L !! q = None /\ bump_inv h' (<[q := n]> (delete p L)) /\
    keeps (delete p L) (b_mem h) (b_mem h') /\
    forall k j, L !! p = Some k -> 0 <= j < k -> j < n -> byte_at (b_mem h') (q + j) = byte_at (b_mem h) (p + j).
Proof.
  intros Hi Hn Hp Hn0. unfold bump_realloc. rewrite (proj2 (Z.eqb_neq _ _) Hn0).
  pose proof (bump_malloc_ok h L n Hi ltac:(u64_lia)) as Hm. destruct (bump_malloc h n) as [q h'].
  destruct Hm as [->|(Hq & Hi' & Em & Eq & Hfit)]; [by left|].
  assert (Hsub : <[q := n]> (delete p L) ⊆ <[q := n]> L) by (apply insert_mono, delete_subseteq).
  assert (Hdel : delete p L !! q = None) by (by apply lookup_delete_None; right).
  destruct (q =? 0) eqn:Eq0; [left; by apply Z.eqb_eq|]. simpl. destruct (p =? 0) eqn:Ep0.
  - right. apply Z.eqb_eq in Ep0. subst p. split_done; [by eapply bump_sub|rewrite Em; by intros ???|].
    intros k j Hk. exfalso. pose proof (bi_live _ _ Hi 0 k Hk). lia.
  - right. destruct (copy_bytes_ok (Z.to_nat n) (b_mem h') q p) as (Hok & Hreg & Hb); [apply Hi'|].
    rewrite Z2Nat.id in Hb by u64_lia. split_done.
    + apply bump_write; [by eapply bump_sub|done|done].
    + intros x k y Hx Hy. simpl. rewrite Hb, Em, decide_False; [done|].
      apply lookup_delete_Some in Hx as [_ Hx]. pose proof (bi_live _ _ Hi x k Hx). lia.
    + intros k j Hk Hj Hjn. simpl. rewrite Hb, Em, decide_True by lia. f_equal. lia.
Qed.

#[export] Program Instance bump_correct : CorrectAllocator bump := { a_inv := bump_inv }.
Next Obligation. by intros h L []. Qed.
Next Obligation.
  intros h L p n [Hm Hr Hn Hl Hd] Hp. destruct (Hl p n Hp) as (?&?&?&?&?&?). destruct Hm.
  split; try done; unfold mem_heap_lo, mem_heap_hi, mm_heap_lo, mm_heap_hi, inside; simpl; lia.
Qed.
Next Obligation. intros h L p n q k []. by eauto. Qed.
Next Obligation. intros h L m p n Hi _ Hm Hr _. by apply bump_write. Qed.
Next Obligation.
  intros h Hm Hb. unfold a_init, bump_allocator, bump_init. destruct (mem_sbrk _ _) as [p m] eqn:E.
  destruct (p =? failed_sbrk) eqn:E0; [by eexists _, _|].
  destruct (_ && _) eqn:E1; [|by eexists _, _]. eexists _, _. split; [done|]. intros _.
  rewrite !andb_true_iff, Z.leb_le, Z.leb_le, Z.ltb_lt in E1. destruct E1 as [[E1 E2] E3].
  unfold mem_sbrk, mm_sbrk, pool in E. simpl in *. destruct Hm as [Hm1 Hm2 Hm3].
  destruct (_ <? _) eqn:E4 in E; [injection E as <- <-; by rewrite Z.eqb_refl in E0|]. injection E as <- <-. simpl in *.
  apply Z.ltb_ge in E4. destruct (round_up_ok (mem_brk (b_mem h) + 16)).
  split; simpl; try done; [by split; simpl; [|lia|lia]|lia|split; [done|lia]].
Qed.
Next Obligation.
  intros h L n Hi Hn Hpos. exists (bump_malloc h n).1, (bump_malloc h n).2. simpl.
  pose proof (bump_malloc_ok h L n Hi Hpos) as Hm. destruct (bump_malloc h n) as [p h']. split; [done|].
  destruct Hm as [?|(? & ? & Em & _)]; [by left|right]. split_done. simpl. rewrite Em. by intros ???.
Qed.
Next Obligation.
  intros h L p n Hi Hn Hp. exists (bump_realloc h p n).1, (bump_realloc h p n).2. simpl.
  split; [by destruct (bump_realloc h p n)|]. case_decide as E.
  - subst n. unfold bump_realloc. simpl. split_done. by eapply bump_sub, delete_subseteq.
  - pose proof (bump_realloc_ok h L p n Hi Hn Hp E) as Hr. by destruct (bump_realloc h p n).
Qed.
Next Obligation. intros h L p Hi _. exists h. split_done. by eapply bump_sub, delete_subseteq. Qed.
Next Obligation. done. Qed.

(** ** Runs *)

Definition fresh_driver {H : Type} (h : H) (t : trace_t) : driver H :=
  Driver h t (RangeSet None (Tree None 0 0 ∅) ∅) 1 [].

Definition verdict_of {H : Type} (out : outcome (bool * driver H)) : option (bool * list (Z * report)) :=
  match out with Done (ok, d) => Some (ok, messages d) | Fault _ => None end.

Definition run_driver {H : Type} `{Allocator H} (mode : debug_mode_t) (h : H) (t : trace_t) : outcome (bool * driver H) :=
  @eval_mm_valid malloc_first constant_random H _ mode demo_table (fresh_driver h t) ∅.

Definition demo_bump : bump := Bump (Mem 4096 4096 65536 ∅) 0.

Lemma driver_no_false_alarm_witness :
  exists d', run_driver DBG_EXPENSIVE demo_bump demo_trace = Done (true, d') /\ messages d' = [].
Proof.
  destruct (@driver_no_false_alarm malloc_first constant_random bump _ _ _ DBG_EXPENSIVE demo_table demo_table_ok
    (fresh_driver demo_bump demo_trace) ∅) as [[E _]|[(d' & E & _ & Em)|(d' & op & r & E & _ & Em)]].
  - by split_done.
  - split; simpl; [done|lia|lia].
  - exists ∅. apply (@new_range_set_ok malloc_first ∅). reflexivity.
  - exfalso. assert (Hv : verdict_of (run_driver DBG_EXPENSIVE demo_bump demo_trace) = Some (true, [])) by (vm_compute; reflexivity).
    unfold run_driver in Hv. rewrite E in Hv. discriminate.
  - exists d'. split; [exact E|exact Em].
  - exfalso. assert (Hv : verdict_of (run_driver DBG_EXPENSIVE demo_bump demo_trace) = Some (true, [])) by (vm_compute; reflexivity).
    unfold run_driver in Hv. rewrite E in Hv. discriminate.
Defined.

(** The repository's allocator, on a region of its own, passes the same trace. *)
Example mm_passes_demo_trace :
  verdict_of (run_driver DBG_EXPENSIVE (Mm.MM (Mem 4096 4096 69632 ∅) 0) demo_trace) = Some (true, []).
Proof. vm_compute. reflexivity. Qed.
