(* ===== verification/DriverEval.v ===== *)
(** * The driver's other evaluations: utilisation, speed, and the C library

    [eval_mm_util], [eval_mm_speed], [eval_libc_valid] and [eval_libc_speed] of
    [assignment-2-malloclab-FreezeKickerz/mdriver.c].  The utilisation is the
    quotient of two sizes, which the model returns. *)

From Stdlib Require Import ZArith Lia.
From stdpp Require Import gmap list.
From S2P Require Import Prelude MemLib Mm STree RangeSet TraceFile Driver DriverFill DriverSpec.

(** ** The evaluations of the package *)

Section package.
Context {H : Type} `{AA : Allocator H}.

Definition app_error {A} : outcome A := Fault (Exited 1).

(** The heap reset and initialised again. *)
Definition restart (h : H) : outcome H :=
  '(ok, h) ← a_init (a_with_mem h (mem_reset_brk (a_mem h)));
  if (ok : bool) then Done h else app_error.

Record usage := Usage { total_size : Z; max_total_size : Z; max_heap_size : Z }.

(** [(a > b) ? a : b] *)
Definition larger (a b : Z) : Z := if b <? a then a else b.

(** [total_size] changed to [total], and the high-water marks. *)
Definition update_marks (u : usage) (total : Z) (h : H) : usage :=
  Usage total (larger total (max_total_size u)) (larger (mem_heapsize (a_mem h)) (max_heap_size u)).

(** The pointer and the size of a [FREE] request. *)
Definition freed_block (t : trace_t) (i : Z) : outcome Z := if i <? 0 then Done 0 else at_index (blocks t) i.
Definition freed_size (t : trace_t) (i : Z) : outcome Z := if i <? 0 then Done 0 else at_index (block_sizes t) i.

Definition util_op (h : H) (t : trace_t) (u : usage) (o : traceop_t) : outcome (H * trace_t * usage) :=
  let i := op_index o in
  match type o with
  | ALLOC =>
      n ← initialised (op_size o);
      '(p, h) ← a_malloc h n;
      if p =? 0 then app_error
      else
        t ← set_blocks t i p;
        t ← set_block_sizes t i n;
        Done (h, t, update_marks u (add64 (total_size u) n) h)
  | REALLOC =>
      n ← initialised (op_size o);
      old_size ← at_index (block_sizes t) i;
      oldp ← at_index (blocks t) i;
      '(newp, h) ← a_realloc h oldp n;
      if (newp =? 0) && negb (n =? 0) then app_error
      else
        t ← set_blocks t i newp;
        t ← set_block_sizes t i n;
        Done (h, t, update_marks u (add64 (total_size u) (sub64 n old_size)) h)
  | FREE =>
      n ← freed_size t i;
      p ← freed_block t i;
      h ← a_free h p;
      Done (h, t, update_marks u (sub64 (total_size u) n) h)
  end.

Fixpoint util_ops (h : H) (t : trace_t) (u : usage) (os : list traceop_t) : outcome (H * trace_t * usage) :=
  match os with
  | [] => Done (h, t, u)
  | o :: os => '(h, t, u) ← util_op h t u o; util_ops h t u os
  end.

Definition eval_mm_util (h : H) (t : trace_t) : outcome (H * trace_t * usage) :=
  let t := reinit_trace t in
  h ← restart h;
  util_ops h t (Usage 0 0 0) (ops t).

Definition speed_op (h : H) (t : trace_t) (o : traceop_t) : outcome (H * trace_t) :=
  let i := op_index o in
  match type o with
  | ALLOC =>
      n ← initialised (op_size o);
      '(p, h) ← a_malloc h n;
      if p =? 0 then app_error else t ← set_blocks t i p; Done (h, t)
  | REALLOC =>
      n ← initialised (op_size o);
      oldp ← at_index (blocks t) i;
      '(newp, h) ← a_realloc h oldp n;
      if (newp =? 0) && negb (n =? 0) then app_error else t ← set_blocks t i newp; Done (h, t)
  | FREE =>
      p ← freed_block t i;
      h ← a_free h p;
      Done (h, t)
  end.

Fixpoint speed_ops (h : H) (t : trace_t) (os : list traceop_t) : outcome (H * trace_t) :=
  match os with [] => Done (h, t) | o :: os => '(h, t) ← speed_op h t o; speed_ops h t os end.

Definition eval_mm_speed (h : H) (t : trace_t) : outcome (H * trace_t) :=
  let t := reinit_trace t in
  h ← restart h;
  speed_ops h t (ops t).
End package.

(** ** The evaluations of the C library's allocator *)

(** The library's heap: its calls may fail, and a wrong [free] is undefined. *)
Class LibcHeap (C : Type) := {
  libc_malloc : C -> Z -> outcome (Z * C);
  libc_realloc : C -> Z -> Z -> outcome (Z * C);
  libc_free : C -> Z -> outcome C
}.

Section libc.
Context {C : Type} `{LibcHeap C}.

Definition libc_op (c : C) (t : trace_t) (o : traceop_t) : outcome (C * trace_t) :=
  let i := op_index o in
  match type o with
  | ALLOC =>
      n ← initialised (op_size o);
      '(p, c) ← libc_malloc c n;
      if p =? 0 then app_error else t ← set_blocks t i p; Done (c, t)
  | REALLOC =>
      n ← initialised (op_size o);
      oldp ← at_index (blocks t) i;
      '(newp, c) ← libc_realloc c oldp n;
      if (newp =? 0) && negb (n =? 0) then app_error else t ← set_blocks t i newp; Done (c, t)
  | FREE =>
      if 0 <=? i then p ← at_index (blocks t) i; c ← libc_free c p; Done (c, t)
      else c ← libc_free c 0; Done (c, t)
  end.

Fixpoint libc_ops (c : C) (t : trace_t) (os : list traceop_t) : outcome (C * trace_t) :=
  match os with [] => Done (c, t) | o :: os => '(c, t) ← libc_op c t o; libc_ops c t os end.

Definition eval_libc_valid (c : C) (t : trace_t) : outcome (bool * C * trace_t) :=
  let t := reinit_trace t in
  '(c, t) ← libc_ops c t (ops t);
  Done (true, c, t).

Definition eval_libc_speed (c : C) (t : trace_t) : outcome (C * trace_t) :=
  let t := reinit_trace t in
  libc_ops c t (ops t).
End libc.

(** ** The reference: what the trace alone says *)

(** The sizes of the live blocks by id after a request, and their sum. *)
Definition live_after (L : gmap Z Z) (o : traceop_t) : gmap Z Z :=
  match type o, op_size o with
  | ALLOC, Some n | REALLOC, Some n => <[op_index o := n]> L
  | FREE, _ => if op_index o <? 0 then L else delete (op_index o) L
  | _, None => L
  end.

Definition total_live (L : gmap Z Z) : Z := Z.of_nat (msum Z.to_nat L).

(** The largest sum over the prefixes of the trace. *)
Fixpoint peak (L : gmap Z Z) (os : list traceop_t) : Z :=
  match os with [] => 0 | o :: os => Z.max (total_live (live_after L o)) (peak (live_after L o) os) end.

Section theorems.
Context {H : Type} `{AA : Allocator H}.
Implicit Types (t : trace_t).

(** The array of sizes agrees with the live blocks, for the ids not freed. *)
Definition sizes_ok t (st : gmap Z id_state) (L : gmap Z Z) : Prop :=
  (forall i n, L !! i = Some n -> 0 <= n) /\
  (forall i, state st i <> Live -> default 0 (L !! i) = 0) /\
  forall i, 0 <= i < num_ids t -> state st i <> Freed -> block_sizes t !! Z.to_nat i = Some (default 0 (L !! i)).

Lemma total_insert L i n :
  0 <= n -> (forall k, L !! i = Some k -> 0 <= k) -> total_live (<[i := n]> L) = total_live L - default 0 (L !! i) + n.
Proof.
  intros Hn Hk. unfold total_live. destruct (L !! i) as [k|] eqn:E; simpl.
  - pose proof (msum_insert Z.to_nat L i k n E). specialize (Hk k eq_refl). lia.
  - rewrite msum_insert_new by done. lia.
Qed.

Lemma total_delete L i : (forall k, L !! i = Some k -> 0 <= k) -> total_live (delete i L) = total_live L - default 0 (L !! i).
Proof.
  intros Hk. unfold total_live. destruct (L !! i) as [k|] eqn:E; simpl.
  - rewrite (msum_delete Z.to_nat L i k E). specialize (Hk k eq_refl). lia.
  - rewrite delete_id by done. lia.
Qed.

Lemma total_live_nonneg L : 0 <= total_live L.
Proof. unfold total_live. lia. Qed.

Lemma set_blocks_fields t i p t' :
  set_blocks t i p = Done t' -> block_sizes t' = block_sizes t /\ num_ids t' = num_ids t /\ ops t' = ops t.
Proof. unfold set_blocks. destruct (i <? 0); [done|]. intros (l & _ & [= <-])%bind_Done. done. Qed.

Lemma set_block_sizes_fields t i n t' :
  set_block_sizes t i n = Done t' -> 0 <= i /\ (Z.to_nat i < length (block_sizes t))%nat /\
  block_sizes t' = <[Z.to_nat i := n]> (block_sizes t) /\ blocks t' = blocks t /\ num_ids t' = num_ids t /\ ops t' = ops t.
Proof.
  unfold set_block_sizes. destruct (i <? 0) eqn:E; [done|]. intros (l & Hl & [= <-])%bind_Done.
  unfold array_set in Hl. case_decide; [|done]. injection Hl as <-. split_done. lia.
Qed.

Lemma sizes_set t t' st L i n s :
  sizes_ok t st L -> 0 <= i -> (Z.to_nat i < length (block_sizes t))%nat ->
  block_sizes t' = <[Z.to_nat i := n]> (block_sizes t) -> num_ids t' = num_ids t -> 0 <= n ->
  (s = Live \/ n = 0) -> sizes_ok t' (<[i := s]> st) (<[i := n]> L).
Proof.
  intros (H1 & H2 & H3) Hi Hlen E En Hn Hs. split; [|split].
  - intros j k [[_ <-]|[_ Hj]]%lookup_insert_Some; [done|by apply (H1 j)].
  - intros j. rewrite state_insert. case_decide as Ej; intros Hj.
    + subst j. rewrite lookup_insert_eq. simpl. destruct Hs as [->|]; done.
    + rewrite lookup_insert_ne by congruence. by apply H2.
  - intros j Hj. rewrite state_insert, E. case_decide as Ej; intros Hst.
    + subst j. by rewrite lookup_insert_eq, list_lookup_insert_eq.
    + rewrite lookup_insert_ne, list_lookup_insert_ne by lia. apply H3; [by rewrite <- En|done].
Qed.

Lemma sizes_freed t st L i s :
  sizes_ok t st L -> (s = Freed \/ s = Cleared /\ state st i = Cleared) ->
  sizes_ok t (<[i := s]> st) (delete i L).
Proof.
  intros (H1 & H2 & H3) Hs. split; [|split].
  - intros j k [_ Hj]%lookup_delete_Some. by apply (H1 j).
  - intros j. rewrite state_insert. case_decide as Ej; intros Hj.
    + subst j. by rewrite lookup_delete_eq.
    + rewrite lookup_delete_ne by congruence. by apply H2.
  - intros j Hj. rewrite state_insert. case_decide as Ej; intros Hst.
    + subst j. rewrite lookup_delete_eq. destruct Hs as [->|[-> Hc]]; [done|]. rewrite H3 by (done || by rewrite Hc).
      by rewrite H2 by (by rewrite Hc).
    + rewrite lookup_delete_ne by congruence. by apply H3.
Qed.

(** The sum after a request, as [size_t] arithmetic computes it. *)
Lemma util_op_ok h t u o st st' L h' t' u' :
  next_state (num_ids t) st o = Some st' -> sizes_ok t st L ->
  total_size u = total_live L -> total_live (live_after L o) < w64 -> 
  util_op h t u o = Done (h', t', u') ->
  sizes_ok t' st' (live_after L o) /\ num_ids t' = num_ids t /\ total_size u' = total_live (live_after L o) /\
  max_total_size u' = larger (total_live (live_after L o)) (max_total_size u).
Proof.
  intros Hn Hok Hu Hw Hop. pose proof Hok as (H1 & H2 & H3).
  unfold next_state in Hn. unfold util_op in Hop. unfold live_after in *.
  assert (HL : forall i k, L !! i = Some k -> 0 <= k) by eauto.
  destruct (type o).
  - destruct (op_size o) as [n|]; [|done]. destruct (_ && _) eqn:E in Hn; [injection Hn as <-|done].
    rewrite !andb_true_iff, negb_true_iff, bool_decide_eq_false in E. destruct E as [[[[E1 E2] E3] E4] E5].
    cbn [initialised mbind outcome_bind] in Hop.
    apply bind_Done in Hop as ([p h1] & _ & Hop). destruct (p =? 0); [done|].
    apply bind_Done in Hop as (t1 & [F1 [F2 F3]]%set_blocks_fields & Hop).
    apply bind_Done in Hop as (t2 & (G0 & G1 & G2 & _ & G3 & _)%set_block_sizes_fields & [= <- <- <-]).
    rewrite F1 in *. rewrite total_insert in Hw by (lia || by eauto).
    rewrite (H2 _ E5) in Hw. pose proof (total_live_nonneg L).
    assert (Et : add64 (total_size u) n = total_live (<[op_index o := n]> L)).
    { rewrite total_insert, (H2 _ E5), Hu by (lia || by eauto). rewrite add64_small by u64_lia. lia. }
    split; [|split; [congruence|unfold update_marks; simpl; by rewrite Et]].
    eapply (sizes_set t); try done; [congruence|lia|by left].
  - destruct (op_index o =? -1) eqn:E1; [injection Hn as <-|].
    + apply Z.eqb_eq in E1. rewrite E1 in *. simpl in *.
      apply bind_Done in Hop as (h1 & _ & [= <- <- <-]). split_done; unfold update_marks; simpl; rewrite Hu;
      pose proof (total_live_nonneg L); unfold sub64; rewrite Z.sub_0_r, wrap64_small by u64_lia; done.
    + destruct (_ && _) eqn:E in Hn; [injection Hn as <-|done].
      rewrite !andb_true_iff, negb_true_iff, bool_decide_eq_false in E. destruct E as [[E2 E3] E4].
      unfold freed_size, freed_block in Hop. destruct (op_index o <? 0) eqn:E0; [lia|].
      apply bind_Done in Hop as (n & Hsz & Hop). apply bind_Done in Hop as (p & _ & Hop).
      apply bind_Done in Hop as (h1 & _ & [= <- <- <-]).
      rewrite (at_index_ok _ _ (default 0 (L !! op_index o))) in Hsz; [|lia|apply H3; [lia|done]].
      injection Hsz as <-.
      assert (Et : sub64 (total_size u) (default 0 (L !! op_index o)) = total_live (delete (op_index o) L)).
      { rewrite total_delete in * by eauto. rewrite Hu. pose proof (total_live_nonneg (delete (op_index o) L)) as Hp.
        rewrite total_delete in Hp by eauto. apply sub64_small. u64_lia. }
      split; [|split; [done|unfold update_marks; simpl; by rewrite Et]].
      destruct (state st (op_index o)) eqn:Es; [apply sizes_freed; [done|by right]|apply sizes_freed; [done|by left]|done].
  - destruct (op_size o) as [n|]; [|done]. destruct (_ && _) eqn:E in Hn; [injection Hn as <-|done].
    rewrite !andb_true_iff, negb_true_iff, bool_decide_eq_false in E. destruct E as [[[[E1 E2] E3] E4] E5].
    cbn [initialised mbind outcome_bind] in Hop.
    apply bind_Done in Hop as (old & Hsz & Hop). apply bind_Done in Hop as (oldp & _ & Hop).
    apply bind_Done in Hop as ([p h1] & _ & Hop). destruct (_ && _) in Hop; [done|].
    rewrite (at_index_ok _ _ (default 0 (L !! op_index o))) in Hsz; [|lia|apply H3; [lia|done]]. injection Hsz as <-.
    apply bind_Done in Hop as (t1 & [F1 [F2 F3]]%set_blocks_fields & Hop).
    apply bind_Done in Hop as (t2 & (G0 & G1 & G2 & _ & G3 & _)%set_block_sizes_fields & [= <- <- <-]).
    rewrite F1 in *.
    assert (Et : add64 (total_size u) (sub64 n (default 0 (L !! op_index o))) = total_live (<[op_index o := n]> L)).
    { pose proof (total_live_nonneg (<[op_index o := n]> L)) as Hp. rewrite total_insert in * by (lia || by eauto).
      rewrite Hu. unfold add64, sub64, wrap64. rewrite Zplus_mod_idemp_r.
      rewrite Z.mod_small by u64_lia. lia. }
    split; [|split; [congruence|unfold update_marks; simpl; by rewrite Et]].
    eapply (sizes_set t); try done; [congruence|lia|]. destruct (n =? 0) eqn:En; [right; lia|by left].
Qed.

Lemma util_ops_ok os h t u st L h' t' u' :
  sensible_ops (num_ids t) st os = true -> sizes_ok t st L -> total_size u = total_live L -> peak L os < w64 ->
  0 <= max_total_size u ->
  util_ops h t u os = Done (h', t', u') -> max_total_size u' = Z.max (max_total_size u) (peak L os).
Proof.
  revert h t u st L. induction os as [|o os IH]; intros h t u st L Hs Hok Hu Hp Hm Hops; simpl in *.
  - injection Hops as <- <- <-. lia.
  - destruct (next_state _ st o) as [st'|] eqn:En; [|done]. apply bind_Done in Hops as ([[h1 t1] u1] & Hop & Hops).
    destruct (util_op_ok h t u o st st' L h1 t1 u1 En Hok Hu ltac:(lia) Hop) as (Hok' & Ei & Et & Em).
    rewrite <- Ei in Hs. pose proof (total_live_nonneg (live_after L o)). unfold larger in Em.
    rewrite (IH h1 t1 u1 st' _ Hs Hok' Et ltac:(lia)); [|destruct (_ <? _) eqn:E in Em; lia|done].
    rewrite Em. destruct (_ <? _) eqn:E; lia.
Qed.

(** The utilisation is what the trace says.  Whatever the allocator does, if
    [eval_mm_util] reaches its end on a sensible trace, the high-water mark it
    divides by the heap size is the largest total size of live blocks over all
    prefixes of the trace, computed from the trace alone: the wrap-around
    [size_t] updates at [realloc] and [free] never lose or double a byte. *)
Theorem util_mark_is_peak (h h' : H) t t' u :
  sensible_ops (num_ids t) ∅ (ops t) = true -> 0 <= num_ids t -> peak ∅ (ops t) < w64 ->
  eval_mm_util h t = Done (h', t', u) -> max_total_size u = peak ∅ (ops t).
Proof.
  intros Hs Hn Hp Hev. unfold eval_mm_util in Hev. apply bind_Done in Hev as (h1 & _ & Hev).
  assert (E0 : total_live ∅ = 0) by done.
  rewrite (util_ops_ok (ops t) h1 (reinit_trace t) (Usage 0 0 0) ∅ ∅ h' t' u); try done.
  - assert (0 <= peak ∅ (ops t)); [|simpl; lia]. generalize (∅ : gmap Z Z). induction (ops t) as [|o os IH]; intros L; simpl; [done|].
    pose proof (total_live_nonneg (live_after L o)). lia.
  - split; [done|]. split; [done|]. intros i Hi _. simpl in *. rewrite lookup_empty. apply lookup_replicate_2. lia.
Qed.

(** *** The timed loop makes the same calls *)

Lemma speed_op_same h t1 t2 u o h' t1' u' :
  blocks t1 = blocks t2 -> util_op h t1 u o = Done (h', t1', u') ->
  exists t2', speed_op h t2 o = Done (h', t2') /\ blocks t1' = blocks t2'.
Proof.
  assert (Hset : forall a b i p a', blocks a = blocks b -> set_blocks a i p = Done a' ->
    exists b', set_blocks b i p = Done b' /\ blocks a' = blocks b').
  { intros a b i p a' E. unfold set_blocks. rewrite E. destruct (i <? 0); [done|].
    intros (l & -> & [= <-])%bind_Done. by eexists. }
  intros E Hop. unfold util_op, speed_op, freed_block in *. rewrite <- E. destruct (type o).
  - apply bind_Done in Hop as (n & -> & Hop). cbn [mbind outcome_bind].
    apply bind_Done in Hop as ([p h1] & -> & Hop). cbn [mbind outcome_bind]. destruct (p =? 0); [done|].
    apply bind_Done in Hop as (t3 & Hb & Hop). destruct (Hset _ _ _ _ _ E Hb) as (b' & -> & Eb).
    apply bind_Done in Hop as (t4 & Hf%set_block_sizes_fields & [= <- <- <-]). exists b'. split; [done|].
    rewrite <- Eb. by apply Hf.
  - apply bind_Done in Hop as (n & _ & Hop). apply bind_Done in Hop as (p & -> & Hop). cbn [mbind outcome_bind].
    apply bind_Done in Hop as (h1 & -> & [= <- <- <-]). by exists t2.
  - apply bind_Done in Hop as (n & -> & Hop). cbn [mbind outcome_bind].
    apply bind_Done in Hop as (old & _ & Hop). apply bind_Done in Hop as (oldp & -> & Hop). cbn [mbind outcome_bind].
    apply bind_Done in Hop as ([p h1] & -> & Hop). cbn [mbind outcome_bind]. destruct (_ && _); [done|].
    apply bind_Done in Hop as (t3 & Hb & Hop). destruct (Hset _ _ _ _ _ E Hb) as (b' & -> & Eb).
    apply bind_Done in Hop as (t4 & Hf%set_block_sizes_fields & [= <- <- <-]). exists b'. split; [done|].
    rewrite <- Eb. by apply Hf.
Qed.

(** What is timed is what was measured.  When [eval_mm_util] completes,
    [eval_mm_speed] from the same state completes too and leaves the package in
    the same state with the same block pointers: both make the same calls. *)
Theorem speed_makes_same_calls (h h' : H) t t' u :
  eval_mm_util h t = Done (h', t', u) ->
  exists t'', eval_mm_speed h t = Done (h', t'') /\ blocks t'' = blocks t'.
Proof.
  unfold eval_mm_util, eval_mm_speed. intros (h1 & -> & Hev)%bind_Done. cbn [mbind outcome_bind].
  assert (Hgen : forall os h t1 t2 u h' t1' u', blocks t1 = blocks t2 -> util_ops h t1 u os = Done (h', t1', u') ->
    exists t2', speed_ops h t2 os = Done (h', t2') /\ blocks t2' = blocks t1').
  { clear. intros os. induction os as [|o os IH]; intros h t1 t2 u h' t1' u' E Hops; simpl in *.
    - injection Hops as <- <- <-. by exists t2.
    - apply bind_Done in Hops as ([[h2 t3] u2] & Hop & Hops).
      destruct (speed_op_same h t1 t2 u o h2 t3 u2 E Hop) as (t4 & -> & E4). cbn [mbind outcome_bind].
      by apply (IH h2 t3 t4 u2 h' t1' u'). }
  by apply (Hgen _ _ _ _ _ _ _ _ eq_refl Hev).
Qed.
End theorems.

(** The correctness run of the C library and its timed run make the same calls,
    and the first returns true whenever it returns. *)
Lemma libc_runs_agree `{LibcHeap C} (c : C) (t : trace_t) :
  eval_libc_valid c t = '(c, t) ← eval_libc_speed c t; Done (true, c, t).
Proof. done. Qed.

(** ** A concrete run, with the repository's allocator *)

Definition demo_mm : mm := MM (Mem 4096 4096 69632 ∅) 0.

Lemma util_mark_is_peak_witness :
  exists h' t' u, eval_mm_util demo_mm demo_trace = Done (h', t', u) /\ max_total_size u = 65.
Proof.
  destruct (eval_mm_util demo_mm demo_trace) as [[[h' t'] u]|f] eqn:E.
  - exists h', t', u. split; [reflexivity|]. change 65 with (peak ∅ (ops demo_trace)).
    apply (util_mark_is_peak demo_mm h' demo_trace t' u); [reflexivity|simpl; lia|reflexivity|exact E].
  - exfalso. assert (Hv : match eval_mm_util demo_mm demo_trace with Done _ => true | Fault _ => false end = true)
      by (vm_compute; reflexivity).
    rewrite E in Hv. discriminate.
Defined.

Lemma speed_makes_same_calls_witness :
  exists h' t'', eval_mm_speed demo_mm demo_trace = Done (h', t'').
Proof.
  destruct (eval_mm_util demo_mm demo_trace) as [[[h' t'] u]|f] eqn:E.
  - destruct (speed_makes_same_calls demo_mm h' demo_trace t' u E) as (t'' & Et & _). exists h', t''. exact Et.
  - exfalso. assert (Hv : match eval_mm_util demo_mm demo_trace with Done _ => true | Fault _ => false end = true)
      by (vm_compute; reflexivity).
    rewrite E in Hv. discriminate.
Defined.
