(* ===== verification/Fcyc.v ===== *)
(** * Timing by the K best of several measurements

    [assignment-2-malloclab-FreezeKickerz/fcyc.c].  Times are [double]s that are
    only compared; the model takes them from any type with a strict total order,
    the readings of the timer from an oracle, and the effect of the timed function
    from a parameter.  The cache is not cleared ([clear_cache] is 0 by default). *)

From Stdlib Require Import ZArith Lia.
From stdpp Require Import list sorting.
From S2P Require Import Prelude.

(** ** Times *)

Class Times (A : Type) := {
  time_lt : A -> A -> bool;
  time_zero : A;
  time_irrefl a : time_lt a a = false;
  time_trans a b c : time_lt a b = true -> time_lt b c = true -> time_lt a c = true;
  time_total a b : time_lt a b = false -> time_lt b a = false -> a = b
}.

Definition long_max : Z := 9223372036854775807.
Definition double_long (a : Z) : outcome Z := if a + a <=? long_max then Done (a + a) else Fault SignedOverflow.

(** ** The sampler *)

Section sampler.
Context {A : Type} `{Times A}.

Record sampler := Sampler { values : list A; samplecount : Z }.

Definition init_sampler (kbest : Z) : sampler := Sampler (replicate (Z.to_nat kbest) time_zero) 0.

(** The insertion sort from position [pos] down. *)
Fixpoint sift (pos : nat) (vs : list A) : outcome (list A) :=
  match pos with
  | O => Done vs
  | S p =>
      a ← array_get vs p;
      b ← array_get vs (S p);
      if time_lt b a then
        vs ← array_set vs p b;
        vs ← array_set vs (S p) a;
        sift p vs
      else Done vs
  end.

Definition add_sample (kbest : Z) (s : sampler) (val : A) : outcome sampler :=
  '(pos, vs) ← (if samplecount s <? kbest then
                  vs ← array_set (values s) (Z.to_nat (samplecount s)) val; Done (samplecount s, vs)
                else
                  last ← (if kbest <=? 0 then Fault OutOfRange else array_get (values s) (Z.to_nat (kbest - 1)));
                  if time_lt val last then
                    vs ← array_set (values s) (Z.to_nat (kbest - 1)) val; Done (kbest - 1, vs)
                  else Done (0, values s));
  vs ← sift (Z.to_nat pos) vs;
  Done (Sampler vs (samplecount s + 1)).

(** [close a b]: [(1 + epsilon) * a >= b]. *)
Definition has_converged (close : A -> A -> bool) (kbest : Z) (s : sampler) : outcome bool :=
  if samplecount s <? kbest then Done false
  else
    first ← array_get (values s) 0;
    last ← (if kbest <=? 0 then Fault OutOfRange else array_get (values s) (Z.to_nat (kbest - 1)));
    Done (close first last).
End sampler.
Arguments sampler A : clear implicits.

(** ** [fcyc] and [fsec] *)

Section measure.
Context {A S : Type} `{Times A}.
(** The timed function on the state it changes; the reading of the [i]-th
    measurement, over so many repetitions; that reading divided by them. *)
Context (f : S -> outcome S) (timer : nat -> Z -> A) (per_rep : A -> Z -> A).
Context (close : A -> A -> bool) (kbest maxsamples : Z) (min_time : A).

Fixpoint run_reps (reps : nat) (s : S) : outcome S :=
  match reps with O => Done s | Datatypes.S r => s ← f s; run_reps r s end.

(** Doubling the repetitions until the time is meaningful. *)
Fixpoint calibrate (fuel i : nat) (reps : Z) (s : S) : outcome (nat * Z * S) :=
  match fuel with
  | O => Fault Diverges
  | Datatypes.S fuel =>
      s ← run_reps (Z.to_nat reps) s;
      if time_lt (timer i reps) min_time then
        reps ← double_long reps;
        calibrate fuel (Datatypes.S i) reps s
      else Done (Datatypes.S i, reps, s)
  end.

(** The [do] loop: at least one measurement. *)
Fixpoint sample_loop (fuel i : nat) (reps : Z) (sm : sampler A) (s : S) : outcome (sampler A * S) :=
  match fuel with
  | O => Fault Diverges
  | Datatypes.S fuel =>
      s ← run_reps (Z.to_nat reps) s;
      let t := per_rep (timer i reps) reps in
      sm ← (if time_lt time_zero t then add_sample kbest sm t else Done sm);
      stop ← has_converged close kbest sm;
      if negb stop && (samplecount sm <? maxsamples) then sample_loop fuel (Datatypes.S i) reps sm s
      else Done (sm, s)
  end.

Definition fsec (fuel : nat) (min_reps : Z) (s : S) : outcome (A * S) :=
  '(i, reps, s) ← (if time_lt time_zero min_time then calibrate fuel 0 min_reps s else Done (0%nat, min_reps, s));
  '(sm, s) ← sample_loop fuel i reps (init_sampler kbest) s;
  r ← array_get (values sm) 0;
  Done (r, s).
End measure.

(** [fcyc]: the repetitions are found with the timer, the samples are readings of
    the cycle counter. *)
Definition fcyc {A S : Type} `{Times A} (f : S -> outcome S) (timer counter : nat -> Z -> A) (per_rep : A -> Z -> A)
    (close : A -> A -> bool) (kbest maxsamples : Z) (min_time : A) (fuel : nat) (min_reps : Z) (s : S) : outcome (A * S) :=
  '(_, reps, s) ← (if time_lt time_zero min_time then calibrate f timer min_time fuel 0 min_reps s else Done (0%nat, min_reps, s));
  '(sm, s) ← sample_loop f counter per_rep close kbest maxsamples fuel 0 reps (init_sampler kbest) s;
  r ← array_get (values sm) 0;
  Done (r, s).

(** ** The reference: a sorted list of the samples *)

Section kbest.
Context {A : Type} `{Times A}.
Implicit Types (l vs : list A) (v : A).

Fixpoint insert_sorted v l : list A :=
  match l with [] => [v] | x :: l => if time_lt v x then v :: x :: l else x :: insert_sorted v l end.

Definition sort_samples l : list A := fold_left (fun acc v => insert_sorted v acc) l [].

Definition time_le (a b : A) : Prop := time_lt b a = false.

Lemma time_le_trans a b c : time_le a b -> time_le b c -> time_le a c.
Proof.
  unfold time_le. intros H1 H2. destruct (time_lt c a) eqn:E; [|done].
  destruct (time_lt b c) eqn:E2; [by rewrite (time_trans _ _ _ E2 E) in H1|].
  by rewrite (time_total b c E2 H2) in H1; rewrite H1 in E.
Qed.

Lemma lt_le a b : time_lt a b = true -> time_le a b.
Proof.
  unfold time_le. intros E. destruct (time_lt b a) eqn:E2; [|done].
  pose proof (time_trans _ _ _ E E2) as E3. by rewrite time_irrefl in E3.
Qed.

Lemma insert_sorted_perm v l : insert_sorted v l ≡ₚ v :: l.
Proof. induction l as [|x l IH]; simpl; [done|]. case_match; [done|]. rewrite IH. constructor. Qed.

Lemma insert_sorted_sorted v l : StronglySorted time_le l -> StronglySorted time_le (insert_sorted v l).
Proof.
  induction l as [|x l IH]; simpl; intros Hs; [by repeat constructor|].
  apply StronglySorted_cons in Hs as [Hx Hs]. destruct (time_lt v x) eqn:E.
  - apply StronglySorted_cons. split; [|by apply StronglySorted_cons]. constructor; [by apply lt_le|].
    eapply Forall_impl; [exact Hx|]. intros y Hy. by eapply time_le_trans; [apply lt_le|].
  - apply StronglySorted_cons. split; [|by apply IH]. rewrite insert_sorted_perm. by constructor.
Qed.

Lemma sort_samples_snoc l v : sort_samples (l ++ [v]) = insert_sorted v (sort_samples l).
Proof. unfold sort_samples. by rewrite fold_left_app. Qed.

Lemma sort_samples_ok l : sort_samples l ≡ₚ l /\ StronglySorted time_le (sort_samples l).
Proof.
  induction l as [|v l [IH1 IH2]] using rev_ind; [split; [done|constructor]|]. rewrite sort_samples_snoc.
  split; [|by apply insert_sorted_sorted]. rewrite insert_sorted_perm, IH1. by rewrite Permutation_app_comm.
Qed.

Lemma insert_snoc_lt v l x : time_lt v x = true -> insert_sorted v (l ++ [x]) = insert_sorted v l ++ [x].
Proof. intros E. induction l as [|y l IH]; simpl; [by rewrite E|]. case_match; [done|]. by rewrite IH. Qed.

Lemma insert_snoc_ge v l : (forall x, x ∈ l -> time_le x v) -> insert_sorted v l = l ++ [v].
Proof.
  induction l as [|y l IH]; intros Hl; simpl; [done|]. rewrite (Hl y) by left. rewrite IH; [done|].
  intros x Hx. apply Hl. by right.
Qed.

Lemma insert_take v l k : take k (insert_sorted v l) = take k (insert_sorted v (take k l)).
Proof.
  revert k. induction l as [|x l IH]; intros [|k]; simpl; [done..|]. case_match; simpl.
  - f_equal. destruct k; [done|]. simpl. by rewrite take_take, Nat.min_l by lia.
  - by rewrite IH.
Qed.

(** [sift] inserts the element at its position into the sorted part before it. *)
Lemma sift_ok l v rest :
  StronglySorted time_le l -> sift (length l) (l ++ v :: rest) = Done (insert_sorted v l ++ rest).
Proof.
  revert rest. induction l as [|x l IH] using rev_ind; intros rest Hs; [done|].
  rewrite length_app, Nat.add_1_r. simpl. unfold array_get, array_set.
  rewrite <- (app_assoc l [x]). simpl.
  rewrite (list_lookup_middle l (v :: rest) x (length l) eq_refl).
  assert (Hv : (l ++ x :: v :: rest) !! S (length l) = Some v).
  { rewrite lookup_app_r, Nat.sub_succ_l, Nat.sub_diag by lia. done. }
  rewrite Hv. cbn [mbind outcome_bind].
  apply StronglySorted_app in Hs as (Hlx & Hl & _).
  destruct (time_lt v x) eqn:E.
  - rewrite decide_True by (rewrite length_app; simpl; lia). cbn [mbind outcome_bind].
    rewrite insert_app_r_alt, Nat.sub_diag by lia. simpl.
    rewrite decide_True by (rewrite length_app; simpl; lia). cbn [mbind outcome_bind].
    rewrite insert_app_r_alt, Nat.sub_succ_l, Nat.sub_diag by lia. simpl.
    rewrite IH by done. by rewrite insert_snoc_lt, <- app_assoc by done.
  - rewrite insert_snoc_ge; [by rewrite <- !app_assoc|].
    intros y [Hy|Hy]%elem_of_app; [|apply list_elem_of_singleton in Hy as ->; done].
    eapply time_le_trans; [|exact E]. apply Hlx; [done|left].
Qed.

(** ** The sampler keeps the smallest samples *)

Definition kbest_ok (k : nat) l (sm : sampler A) : Prop :=
  values sm = take k (sort_samples l) ++ replicate (k - length l) time_zero /\ samplecount sm = Z.of_nat (length l).

Lemma sort_samples_length l : length (sort_samples l) = length l.
Proof. by rewrite (proj1 (sort_samples_ok l)). Qed.

Lemma init_sampler_ok k : kbest_ok k [] (init_sampler (Z.of_nat k)).
Proof. split; [|done]. simpl. rewrite Nat2Z.id, Nat.sub_0_r. by destruct k. Qed.

(** The array is not full yet. *)
Lemma add_sample_room k l sm v :
  kbest_ok k l sm -> (length l < k)%nat ->
  exists sm', add_sample (Z.of_nat k) sm v = Done sm' /\ kbest_ok k (l ++ [v]) sm'.
Proof.
  intros [Hv Hc] Hk. unfold add_sample. rewrite Hc, (proj2 (Z.ltb_lt _ _)) by lia. rewrite Nat2Z.id.
  rewrite take_ge in Hv by (rewrite sort_samples_length; lia). rewrite Hv.
  replace (k - length l)%nat with (S (k - S (length l))) by lia. simpl replicate.
  unfold array_set. rewrite decide_True by (rewrite length_app, sort_samples_length; simpl; lia).
  cbn [mbind outcome_bind]. rewrite Nat2Z.id. rewrite insert_app_r_alt by (rewrite sort_samples_length; lia).
  rewrite sort_samples_length, Nat.sub_diag. cbn [insert list_insert].
  pose proof (sift_ok (sort_samples l) v (replicate (k - S (length l)) time_zero) (proj2 (sort_samples_ok l))) as E.
  rewrite sort_samples_length in E. rewrite E. cbn [mbind outcome_bind].
  eexists. split; [done|]. split; simpl; rewrite length_app; simpl; [|lia]. rewrite sort_samples_snoc, take_ge.
  - do 2 f_equal. lia.
  - rewrite insert_sorted_perm. simpl. rewrite sort_samples_length. lia.
Qed.

(** The array is full: a smaller sample takes the place of the largest. *)
Lemma add_sample_full k l sm v :
  kbest_ok (S k) l sm -> (S k <= length l)%nat ->
  exists sm', add_sample (Z.of_nat (S k)) sm v = Done sm' /\ kbest_ok (S k) (l ++ [v]) sm'.
Proof.
  intros [Hv Hc] Hk. unfold add_sample. rewrite Hc, (proj2 (Z.ltb_ge _ _)), (proj2 (Z.leb_gt _ _)) by lia.
  replace (Z.to_nat (Z.of_nat (S k) - 1)) with k by lia.
  replace (S k - length l)%nat with 0%nat in Hv by lia. rewrite app_nil_r in Hv.
  destruct (sort_samples_ok l) as [_ Hs].
  destruct (lookup_lt_is_Some_2 (sort_samples l) k) as [z Hz]; [rewrite sort_samples_length; lia|].
  rewrite (take_S_r _ _ _ Hz) in Hv. set (pre := take k (sort_samples l)) in *.
  assert (Hlen : length pre = k) by (unfold pre; rewrite length_take, sort_samples_length; lia).
  assert (Hsp : StronglySorted time_le (pre ++ [z])).
  { unfold pre. rewrite <- (take_S_r _ _ _ Hz). apply StronglySorted_app_1_l with (drop (S k) (sort_samples l)).
    by rewrite take_drop. }
  assert (Htake : take (S k) (sort_samples (l ++ [v])) = take (S k) (insert_sorted v (pre ++ [z]))).
  { rewrite sort_samples_snoc, insert_take. by rewrite (take_S_r _ _ _ Hz). }
  rewrite Hv. unfold array_get. rewrite (list_lookup_middle pre [] z k) by done. cbn [mbind outcome_bind].
  assert (Hp : forall x, x ∈ pre -> time_le x z).
  { apply StronglySorted_app in Hsp as (Hx & _ & _). intros x Hin. apply Hx; [done|left]. }
  destruct (time_lt v z) eqn:E.
  - unfold array_set. rewrite decide_True by (rewrite length_app; simpl; lia). cbn [mbind outcome_bind].
    replace (Z.to_nat (Z.of_nat (S k) - 1)) with (length pre) by lia.
    rewrite insert_app_r_alt by lia. replace (k - length pre)%nat with 0%nat by lia. cbn [insert list_insert].
    rewrite sift_ok by (apply StronglySorted_app in Hsp; apply Hsp). cbn [mbind outcome_bind].
    eexists. split; [done|]. split; simpl values; simpl samplecount; rewrite length_app; simpl length; [|lia].
    rewrite Htake, insert_snoc_lt by done. rewrite take_app_length'.
    + f_equal. by replace (S k - (length l + 1))%nat with 0%nat by lia.
    + rewrite insert_sorted_perm. simpl. lia.
  - cbn [mbind outcome_bind Z.to_nat sift]. eexists. split; [done|].
    split; simpl values; simpl samplecount; rewrite length_app; simpl length; [|lia].
    rewrite Htake, insert_snoc_ge.
    + rewrite take_app_length' by (rewrite length_app; simpl; lia).
      replace (S k - (length l + 1))%nat with 0%nat by lia. by rewrite app_nil_r.
    + intros x [Hx|Hx]%elem_of_app; [eapply time_le_trans; [by apply Hp|done]|].
      apply list_elem_of_singleton in Hx as ->. done.
Qed.

Lemma add_sample_ok k l sm v :
  (0 < k)%nat -> kbest_ok k l sm ->
  exists sm', add_sample (Z.of_nat k) sm v = Done sm' /\ kbest_ok k (l ++ [v]) sm'.
Proof.
  intros Hk Hok. destruct (decide (length l < k)%nat) as [Hl|Hl]; [by apply add_sample_room|].
  destruct k as [|k]; [lia|]. apply add_sample_full; [done|lia].
Qed.

Fixpoint add_samples (kbest : Z) (sm : sampler A) l : outcome (sampler A) :=
  match l with [] => Done sm | v :: l => sm ← add_sample kbest sm v; add_samples kbest sm l end.

(** The sampler keeps the [k] smallest measurements in order.  After any
    sequence of [add_sample] on a new sampler, nothing was accessed out of
    bounds, and the array is the first [k] elements of the sorted sequence,
    followed by zeros while there are fewer. *)
Theorem sampler_keeps_smallest (k : nat) l :
  (0 < k)%nat ->
  exists sm sorted, add_samples (Z.of_nat k) (init_sampler (Z.of_nat k)) l = Done sm /\
    sorted ≡ₚ l /\ StronglySorted time_le sorted /\
    values sm = take k sorted ++ replicate (k - length l) time_zero /\ samplecount sm = Z.of_nat (length l).
Proof.
  intros Hk.
  assert (Hgen : forall l0 sm, kbest_ok k l0 sm -> exists sm', add_samples (Z.of_nat k) sm l = Done sm' /\ kbest_ok k (l0 ++ l) sm').
  { induction l as [|v l IH]; intros l0 sm Hok; simpl; [rewrite app_nil_r; by exists sm|].
    destruct (add_sample_ok k l0 sm v Hk Hok) as (sm1 & -> & Hok1). cbn [mbind outcome_bind].
    destruct (IH _ _ Hok1) as (sm2 & -> & Hok2). exists sm2. by rewrite <- app_assoc in Hok2. }
  destruct (Hgen [] _ (init_sampler_ok k)) as (sm & E & [Hv Hc]). destruct (sort_samples_ok l) as [Hp Hs].
  by exists sm, (sort_samples l).
Qed.
End kbest.

(** ** The measurement ends with the smallest sample *)

Section ends.
Context {A S : Type} `{Times A}.
Context (f : S -> outcome S) (timer : nat -> Z -> A) (per_rep : A -> Z -> A).
Context (close : A -> A -> bool) (k : nat) (maxsamples : Z) (min_time : A).
(** The timed function keeps [I], or stops the program in a way that [stops]
    allows. *)
Context (I : S -> Prop) (stops : fault -> Prop).

Hypothesis Hf : forall s, I s -> ends stops (f s) I.
Hypothesis Hk : (0 < k)%nat.

Lemma run_reps_ends n s : I s -> ends stops (run_reps f n s) I.
Proof using Hf.
  revert s. induction n as [|n IH]; intros s Hs; simpl; [done|]. eapply ends_bind; [by apply Hf|]. apply IH.
Qed.

Lemma calibrate_ends n fuel i reps s :
  0 <= reps -> reps * 2 ^ Z.of_nat n <= long_max -> time_lt (timer (i + n) (reps * 2 ^ Z.of_nat n)) min_time = false ->
  (n < fuel)%nat -> I s ->
  ends stops (calibrate f timer min_time fuel i reps s)
    (fun '(_, reps', s') => I s' /\ exists m, (m <= n)%nat /\ reps' = reps * 2 ^ Z.of_nat m).
Proof using Hf Hk.
  revert fuel i reps s. induction n as [|n IH]; intros fuel i reps s Hr Hmax Ht Hfuel Hs;
    (destruct fuel as [|fuel]; [lia|]); simpl; (eapply ends_bind; [by apply run_reps_ends|]); intros s1 Hs1.
  - rewrite Nat.add_0_r, Z.mul_1_r in Ht. rewrite Ht. simpl. split; [done|]. exists 0%nat. split; [done|]. simpl. lia.
  - destruct (time_lt (timer i reps) min_time); [|simpl; split; [done|]; exists 0%nat; split; [lia|simpl; lia]].
    rewrite Nat2Z.inj_succ, Z.pow_succ_r in Hmax, Ht by lia.
    assert (0 < 2 ^ Z.of_nat n) by (by apply Z.pow_pos_nonneg; lia).
    unfold double_long. rewrite (proj2 (Z.leb_le _ _)) by nia. cbn [mbind outcome_bind].
    assert (He : ends stops (calibrate f timer min_time fuel (Datatypes.S i) (reps + reps) s1)
      (fun '(_, reps', s') => I s' /\ exists m, (m <= n)%nat /\ reps' = (reps + reps) * 2 ^ Z.of_nat m)).
    { apply IH; [lia|nia| |lia|done].
      replace (Datatypes.S i + n)%nat with (i + Datatypes.S n)%nat by lia.
      by replace ((reps + reps) * 2 ^ Z.of_nat n) with (reps * (2 * 2 ^ Z.of_nat n)) by lia. }
    destruct (calibrate _ _ _ _ _ _ _) as [[[i' reps'] s']|e]; [|done]. destruct He as (Hs' & m & Hm & ->).
    split; [done|]. exists (Datatypes.S m). split; [lia|]. rewrite Nat2Z.inj_succ, Z.pow_succ_r by lia. lia.
Qed.

Lemma has_converged_ok l sm : kbest_ok k l sm -> exists b, has_converged close (Z.of_nat k) sm = Done b.
Proof using Hk.
  intros [Hv Hc]. unfold has_converged. destruct (_ <? _) eqn:E; [by eexists|]. apply Z.ltb_ge in E.
  rewrite (proj2 (Z.leb_gt _ _)) by lia. unfold array_get.
  assert (Hlen : length (values sm) = k).
  { rewrite Hv, length_app, length_take, length_replicate, sort_samples_length. lia. }
  destruct (lookup_lt_is_Some_2 (values sm) 0) as [a ->]; [lia|].
  destruct (lookup_lt_is_Some_2 (values sm) (Z.to_nat (Z.of_nat k - 1))) as [b ->]; [lia|].
  cbn [mbind outcome_bind]. by eexists.
Qed.

(** The samples that the loop takes. *)
Definition sampled (reps : Z) (l : list A) : Prop := forall t, t ∈ l -> exists j, t = per_rep (timer j reps) reps.

Lemma sample_loop_ends fuel i reps l sm s :
  (forall i, time_lt time_zero (per_rep (timer i reps) reps) = true) ->
  kbest_ok k l sm -> (Z.to_nat maxsamples - length l < fuel)%nat -> I s ->
  ends stops (sample_loop f timer per_rep close (Z.of_nat k) maxsamples fuel i reps sm s) (fun '(sm', s') =>
    I s' /\ exists l', kbest_ok k (l ++ l') sm' /\ l' <> [] /\
      (length l' <= Nat.max 1 (Z.to_nat maxsamples - length l))%nat /\ sampled reps l').
Proof using Hf Hk.
  intros Hpos. revert i l sm s. induction fuel as [|fuel IH]; intros i l sm s Hok Hfuel Hs; [lia|]. simpl.
  eapply ends_bind; [by apply run_reps_ends|]. intros s1 Hs1. rewrite Hpos.
  set (t := per_rep (timer i reps) reps). destruct (add_sample_ok k l sm t Hk Hok) as (sm1 & -> & Hok1).
  cbn [mbind outcome_bind]. destruct (has_converged_ok _ _ Hok1) as [b ->]. cbn [mbind outcome_bind].
  destruct (negb b && _) eqn:E.
  - apply andb_true_iff in E as [_ E%Z.ltb_lt]. rewrite (proj2 Hok1), length_app in E. simpl in E.
    pose proof (IH (Datatypes.S i) (l ++ [t]) sm1 s1 Hok1 ltac:(rewrite length_app; simpl; lia) Hs1) as He.
    destruct (sample_loop _ _ _ _ _ _ _ _ _ _ _) as [[sm' s']|e]; [|done]. destruct He as (Hs' & l' & Hok' & _ & Hlen & Hin).
    split; [done|]. exists (t :: l'). rewrite <- app_assoc in Hok'. rewrite length_app in Hlen. simpl in *. split_done; [lia|].
    intros x [->|Hx]%elem_of_cons; [by exists i|by apply Hin].
  - split; [done|]. exists [t]. split_done; [simpl; lia|]. intros x Hx%list_elem_of_singleton. subst x. by exists i.
Qed.

(** The conditions on the clock: some doubling of the repetitions takes long
    enough, and up to it measurements are positive. *)
Record clock_ok (n : nat) (min_reps : Z) : Prop := {
  ck_reps : 0 <= min_reps;
  ck_long : min_reps * 2 ^ Z.of_nat n <= long_max;
  ck_enough : time_lt (timer n (min_reps * 2 ^ Z.of_nat n)) min_time = false;
  ck_positive i m : (m <= n)%nat ->
    time_lt time_zero (per_rep (timer i (min_reps * 2 ^ Z.of_nat m)) (min_reps * 2 ^ Z.of_nat m)) = true
}.

Lemma fsec_ends n fuel min_reps s :
  clock_ok n min_reps -> (n < fuel)%nat -> (Z.to_nat maxsamples < fuel)%nat -> I s ->
  ends stops (fsec f timer per_rep close (Z.of_nat k) maxsamples min_time fuel min_reps s) (fun '(r, s') =>
    I s' /\ time_lt time_zero r = true /\ exists reps samples, r ∈ samples /\ (forall t, t ∈ samples -> time_lt t r = false) /\ sampled reps samples /\
      (length samples <= Nat.max 1 (Z.to_nat maxsamples))%nat).
Proof using Hf Hk.
  intros [Hreps Hmax Ht Hpos] Hn Hfuel Hs. unfold fsec.
  assert (He : ends stops (if time_lt time_zero min_time then calibrate f timer min_time fuel 0 min_reps s else Done (0%nat, min_reps, s))
    (fun '(_, reps', s') => I s' /\ exists m, (m <= n)%nat /\ reps' = min_reps * 2 ^ Z.of_nat m)).
  { destruct (time_lt time_zero min_time); [by apply calibrate_ends|]. split; [done|]. exists 0%nat. split; [lia|simpl; lia]. }
  destruct (if time_lt time_zero min_time then _ else _) as [[[i reps] s1]|e]; [|done].
  destruct He as (Hs1 & m & Hm & ->). cbn [mbind outcome_bind].
  pose proof (sample_loop_ends fuel i _ [] _ s1 (fun i => Hpos i m Hm) (init_sampler_ok k) ltac:(simpl; lia) Hs1) as He.
  destruct (sample_loop _ _ _ _ _ _ _ _ _ _ _) as [[sm s']|e]; [|done].
  destruct He as (Hs' & l & [Hv _] & Hne & Hlen & Hin). simpl in *. cbn [mbind outcome_bind].
  destruct (sort_samples_ok l) as [Hp Hsort].
  destruct (sort_samples l) as [|r rest] eqn:E; [by apply Permutation_nil_l in Hp|].
  destruct k as [|k']; [lia|]. simpl in Hv. unfold array_get. rewrite Hv. simpl.
  split; [done|]. assert (Hr : r ∈ l) by (rewrite <- Hp; left). split; [by destruct (Hin r Hr) as [j ->]; apply Hpos|].
  eexists _, l. split; [done|]. split; [|split; [exact Hin|lia]].
  intros t Hl. rewrite <- Hp in Hl. apply elem_of_cons in Hl as [->|Hl]; [apply time_irrefl|].
  apply StronglySorted_cons in Hsort as [Hall _]. rewrite Forall_forall in Hall. by apply Hall.
Qed.
End ends.

(** [fcyc] gives the smallest of its counter readings, per repetition. *)
Lemma fcyc_ends {A S : Type} `{Times A} (f : S -> outcome S) (timer counter : nat -> Z -> A) (per_rep : A -> Z -> A)
    (close : A -> A -> bool) (k : nat) (maxsamples : Z) (min_time : A) (I : S -> Prop) (stops : fault -> Prop) n fuel min_reps s :
  (forall s, I s -> ends stops (f s) I) -> (0 < k)%nat -> clock_ok timer per_rep min_time n min_reps ->
  (forall i m, (m <= n)%nat -> time_lt time_zero (per_rep (counter i (min_reps * 2 ^ Z.of_nat m)) (min_reps * 2 ^ Z.of_nat m)) = true) ->
  (n < fuel)%nat -> (Z.to_nat maxsamples < fuel)%nat -> I s ->
  ends stops (fcyc f timer counter per_rep close (Z.of_nat k) maxsamples min_time fuel min_reps s) (fun '(r, s') =>
    I s' /\ time_lt time_zero r = true /\ exists reps l, sampled counter per_rep reps l /\ l <> [] /\ (length l <= Nat.max 1 (Z.to_nat maxsamples))%nat /\
      head (sort_samples l) = Some r).
Proof.
  intros Hf Hk [Hreps Hmax Ht _] Hpos Hn Hfuel Hs. unfold fcyc.
  assert (He : ends stops (if time_lt time_zero min_time then calibrate f timer min_time fuel 0 min_reps s else Done (0%nat, min_reps, s))
    (fun '(_, reps', s') => I s' /\ exists m, (m <= n)%nat /\ reps' = min_reps * 2 ^ Z.of_nat m)).
  { destruct (time_lt time_zero min_time); [by apply (calibrate_ends f timer k min_time I stops Hf Hk n)|].
    split; [done|]. exists 0%nat. split; [lia|simpl; lia]. }
  destruct (if time_lt time_zero min_time then _ else _) as [[[i reps] s1]|e]; [|done].
  destruct He as (Hs1 & m & Hm & ->). cbn [mbind outcome_bind].
  pose proof (sample_loop_ends f counter per_rep close k maxsamples I stops Hf Hk fuel 0 _ [] _ s1 (fun i => Hpos i m Hm)
    (init_sampler_ok k) ltac:(simpl; lia) Hs1) as He.
  destruct (sample_loop _ _ _ _ _ _ _ _ _ _ _) as [[sm s']|e]; [|done].
  destruct He as (Hs' & l & [Hv _] & Hne & Hlen & Hin). simpl in *. cbn [mbind outcome_bind].
  destruct (sort_samples_ok l) as [Hp _]. destruct (sort_samples l) as [|r rest] eqn:E; [by apply Permutation_nil_l in Hp|].
  destruct k as [|k']; [lia|]. simpl in Hv. unfold array_get. rewrite Hv. simpl.
  split; [done|]. assert (Hr : r ∈ l) by (rewrite <- Hp; left). split; [by destruct (Hin r Hr) as [j ->]; apply Hpos|].
  eexists _, l. split; [exact Hin|]. split; [done|]. split; [lia|]. by rewrite E.
Qed.

(** Timing ends and returns the best sample.  If the timed function always
    returns, some doubling of the repetitions that a [long] can hold takes long
    enough, and measurements are positive up to it, then [fsec] returns the
    smallest of the samples it took, a positive time, of which there is at least one and at most
    [maxsamples] (or one); enough fuel is one more than the doublings and one
    more than [maxsamples]. *)
Theorem fsec_returns_minimum {A S : Type} `{Times A} (f : S -> outcome S) (timer : nat -> Z -> A) (per_rep : A -> Z -> A)
    (close : A -> A -> bool) (k : nat) (maxsamples : Z) (min_time : A) (n fuel : nat) (min_reps : Z) (s : S) :
  (forall s, exists s', f s = Done s') -> (0 < k)%nat -> clock_ok timer per_rep min_time n min_reps ->
  (n < fuel)%nat -> (Z.to_nat maxsamples < fuel)%nat ->
  exists r s' reps samples,
    fsec f timer per_rep close (Z.of_nat k) maxsamples min_time fuel min_reps s = Done (r, s') /\
    time_lt time_zero r = true /\ r ∈ samples /\ (forall t, t ∈ samples -> time_lt t r = false) /\
    sampled timer per_rep reps samples /\ (length samples <= Nat.max 1 (Z.to_nat maxsamples))%nat.
Proof.
  intros Hf Hk Hc Hn Hfuel.
  pose proof (fsec_ends f timer per_rep close k maxsamples min_time (fun _ => True) (fun _ => False)
    ltac:(intros s0 _; by destruct (Hf s0) as [s1 ->]) Hk n fuel min_reps s Hc Hn Hfuel Logic.I) as He.
  destruct (fsec _ _ _ _ _ _ _ _ _ _) as [[r s']|e]; [|done]. destruct He as (_ & ? & reps & l & ?). by exists r, s', reps, l.
Qed.

(** ** Concrete runs *)

#[export] Program Instance integer_times : Times Z := {| time_lt := Z.ltb; time_zero := 0 |}.
Next Obligation. intros a. apply Z.ltb_irrefl. Qed.
Next Obligation. intros a b c. simpl. lia. Qed.
Next Obligation. intros a b. simpl. lia. Qed.

Lemma sampler_keeps_smallest_witness :
  exists sm, add_samples 3 (init_sampler 3) [50; 20; 70; 10; 60; 20] = Done sm /\ values sm = [10; 20; 20].
Proof.
  destruct (sampler_keeps_smallest 3 [50; 20; 70; 10; 60; 20]) as (sm & sorted & E & _ & _ & _ & _); [lia|].
  exists sm. split; [exact E|]. vm_compute in E. injection E as <-. reflexivity.
Defined.

(** The timer of the example: a repetition takes 40 units, the third reading is
    disturbed less than the others. *)
Definition demo_timer (i : nat) (reps : Z) : Z := reps * (if (i =? 4)%nat then 40 else 50).

Definition demo_per_rep (t reps : Z) : Z := if reps <=? 0 then 1 else t / reps.
Definition demo_fsec : outcome (Z * Z) :=
  fsec (fun n => Done (n + 1)) demo_timer demo_per_rep (fun _ _ => false) 3 20 1000 30 8 0.

Lemma demo_clock : clock_ok demo_timer demo_per_rep 1000 2 8.
Proof.
  split; [lia|unfold long_max; simpl; lia|reflexivity|]. intros i m Hm. unfold demo_per_rep, demo_timer. simpl. apply Z.ltb_lt.
  assert (0 < 8 * 2 ^ Z.of_nat m) by (apply Z.mul_pos_pos; [lia|apply Z.pow_pos_nonneg; lia]).
  destruct (_ <=? 0) eqn:Er; [lia|]. rewrite Z.mul_comm, Z.div_mul by lia. destruct (i =? 4)%nat; lia.
Qed.

Lemma fsec_returns_minimum_witness : exists r s', demo_fsec = Done (r, s') /\ r = 40.
Proof.
  destruct (fsec_returns_minimum (fun n : Z => Done (n + 1)) demo_timer demo_per_rep (fun _ _ => false) 3 20 1000 2 30 8 0)
    as (r & s' & reps & l & E & _).
  - intros s. exists (s + 1). reflexivity.
  - lia.
  - apply demo_clock.
  - lia.
  - simpl. lia.
  - exists r, s'. split; [exact E|]. vm_compute in E. injection E as <- _. reflexivity.
Defined.
