(* ===== verification/Doubles.v ===== *)
(** * The type [double]

    IEEE 754 binary64 as the Standard Library specifies it ([SpecFloat]): the
    operations of the scores and of the timing routines, exact to the bit, with
    rounding to nearest.  [Fcyc] asks of a type of times only a strict total order,
    which the doubles that a clock can give have. *)

From Stdlib Require Import ZArith Lia SpecFloat.
From stdpp Require Import list.
From S2P Require Import Prelude Fcyc.
Open Scope Z_scope.

(** ** Operations *)

Abbreviation double := spec_float (only parsing).

Definition dadd (x y : double) : double := SFadd 53 1024 x y.
Definition dsub (x y : double) : double := SFsub 53 1024 x y.
Definition dmul (x y : double) : double := SFmul 53 1024 x y.
Definition ddiv (x y : double) : double := SFdiv 53 1024 x y.
Definition dlt (x y : double) : bool := SFltb x y.
Definition dle (x y : double) : bool := SFleb x y.
Definition deq (x y : double) : bool := SFeqb x y.

Declare Scope double_scope.
Delimit Scope double_scope with dbl.
Infix "+" := dadd : double_scope.
Infix "-" := dsub : double_scope.
Infix "*" := dmul : double_scope.
Infix "/" := ddiv : double_scope.
Infix "<?" := dlt : double_scope.
Infix "<=?" := dle : double_scope.
Infix "=?" := deq : double_scope.

(** The conversion of an integer, and a decimal literal as a quotient of two
    integers that a [double] holds exactly: both are rounded once. *)
Definition of_int (z : Z) : double := binary_normalize 53 1024 z 0 false.
Definition literal (n d : Z) : double := (of_int n / of_int d)%dbl.

Definition dzero : double := S754_zero false.

Example tenth : literal 1 10 = S754_finite false 7205759403792794 (-56).
Proof. reflexivity. Qed.

(** [ceil] of a finite number, as an integer. *)
Definition ceil_Z (x : double) : option Z :=
  match x with
  | S754_zero _ => Some 0
  | S754_finite s m e =>
      let z := if s then Z.neg m else Z.pos m in
      Some (if 0 <=? e then Z.shiftl z e else - (- z / Z.shiftl 1 (- e)))
  | _ => None
  end.

(** [(int)ceil(x)]: undefined for what an [int] cannot hold. *)
Definition ceil_int (x : double) : outcome Z :=
  match ceil_Z x with
  | Some z => if (int_min <=? z) && (z <=? int_max) then Done z else Fault OutOfRange
  | None => Fault OutOfRange
  end.

Example ceil_some : ceil_int (literal 123 10) = Done 13 /\ ceil_int (literal (-123) 10) = Done (-12) /\ ceil_int (of_int 7) = Done 7.
Proof. repeat split. Qed.

(** ** Times *)

(** A number that is not negative, or infinity; neither [-0] nor NaN. *)
Definition is_time (x : double) : bool :=
  match x with S754_zero s | S754_infinity s | S754_finite s _ _ => negb s | S754_nan => false end.

Definition time : Type := { x : double | is_time x = true }.
Definition seconds (t : time) : double := proj1_sig t.

Lemma time_eq (a b : time) : seconds a = seconds b -> a = b.
Proof.
  destruct a as [x Hx], b as [y Hy]. simpl. intros ->. f_equal. apply Eqdep_dec.UIP_dec, Bool.bool_dec.
Qed.

Lemma cont_compare p q : Pos.compare_cont Eq p q = Pos.compare p q.
Proof. reflexivity. Qed.

(** Two finite positive numbers are compared by exponent, then by mantissa. *)
Lemma finite_lt m1 e1 m2 e2 :
  dlt (S754_finite false m1 e1) (S754_finite false m2 e2) = true <-> e1 < e2 \/ e1 = e2 /\ (m1 < m2)%positive.
Proof.
  unfold dlt, SFltb, SFcompare. rewrite cont_compare. destruct (Z.compare_spec e1 e2) as [->|Hlt|Hgt].
  - destruct (Pos.compare_spec m1 m2); split; intros H'; try done; try lia; auto.
  - split; [by left|done].
  - split; [done|lia].
Qed.

Ltac times_cases :=
  unfold seconds; intros; repeat match goal with t : time |- _ => destruct t as [[[|]|[|]| |[|] ? ?] ?] end; simpl in *; try done.

Definition before (a b : time) : bool := dlt (seconds a) (seconds b).

Lemma before_irrefl a : before a a = false.
Proof. unfold before. times_cases. apply not_true_is_false. rewrite finite_lt. lia. Qed.

Lemma before_trans a b c : before a b = true -> before b c = true -> before a c = true.
Proof. unfold before. times_cases. rewrite finite_lt in *. lia. Qed.

Lemma before_total a b : before a b = false -> before b a = false -> a = b.
Proof.
  intros H1 H2. apply time_eq. revert H1 H2. unfold before. times_cases.
  match goal with H1 : dlt (S754_finite _ ?m ?e) (S754_finite _ ?m' ?e') = false, H2 : _ = false |- _ =>
    apply not_true_iff_false in H1, H2; rewrite finite_lt in H1, H2; assert (e = e' /\ m = m') as [-> ->] by lia end.
  done.
Qed.

#[export] Instance double_times : Times time := {
  time_lt := before;
  time_zero := exist _ dzero eq_refl;
  time_irrefl := before_irrefl;
  time_trans := before_trans;
  time_total := before_total
}.

(** *** Rounding keeps the sign *)

Definition not_negative (r : shr_record) : Prop := 0 <= shr_m r.

Lemma shr_1_nonneg r : not_negative r -> not_negative (shr_1 r).
Proof. destruct r as [[|[m|m|]|m] b s]; unfold not_negative; simpl; lia. Qed.

Lemma iter_nonneg n r : not_negative r -> not_negative (SpecFloat.iter_pos shr_1 n r).
Proof. revert r. induction n as [n IH|n IH|]; intros r Hr; simpl; auto using shr_1_nonneg. Qed.

Lemma shr_fexp_nonneg m e l : 0 <= m -> not_negative (shr_fexp 53 1024 m e l).1.
Proof.
  intros Hm. unfold shr_fexp, shr. assert (H : not_negative (shr_record_of_loc m l)) by (by destruct l as [|[]]).
  destruct (_ - e) as [|p|p]; simpl; auto using iter_nonneg.
Qed.

Lemma round_nonneg m l : 0 <= m -> 0 <= round_nearest_even m l.
Proof. intros Hm. destruct l as [|[]]; simpl; try lia. destruct (Z.even m); lia. Qed.

Lemma rounded_time m e l : 0 <= m -> is_time (binary_round_aux 53 1024 false m e l) = true.
Proof.
  intros Hm. unfold binary_round_aux. pose proof (shr_fexp_nonneg m e l Hm) as H1.
  destruct (shr_fexp 53 1024 m e l) as [r1 e1]. simpl in H1.
  pose proof (shr_fexp_nonneg _ e1 loc_Exact (round_nonneg _ (loc_of_shr_record r1) H1)) as H2.
  destruct (shr_fexp _ _ _ e1 _) as [r2 e2]. unfold not_negative in H2. simpl in H2.
  destruct (shr_m r2) as [|p|p]; [done| |lia]. by destruct (e2 <=? _).
Qed.

Lemma digits_double p k : digits2_pos (Pos.iter xO p k) = (digits2_pos p + k)%positive.
Proof.
  revert p. induction k as [|k IH] using Pos.peano_ind; intros p; simpl; [lia|].
  rewrite Pos.iter_succ. simpl. rewrite IH. lia.
Qed.

(** Integers of at most 53 bits are exact. *)
Lemma of_int_small p : Z.pos (digits2_pos p) <= 53 -> exists m e, of_int (Z.pos p) = S754_finite false m e.
Proof.
  intros Hd. unfold of_int, binary_normalize, binary_round. rewrite Z.add_0_r. unfold shl_align.
  assert (Hf : fexp 53 1024 (Z.pos (digits2_pos p)) = Z.pos (digits2_pos p) - 53) by (unfold fexp, emin; lia).
  rewrite Hf, Z.sub_0_r.
  assert (Haux : forall q e, Z.pos (digits2_pos q) = 53 -> -1000 <= e <= 900 ->
            exists m' e', binary_round_aux 53 1024 false (Z.pos q) e loc_Exact = S754_finite false m' e').
  { intros q e Hq He. assert (E : forall l, shr_fexp 53 1024 (Z.pos q) e l = (shr_record_of_loc (Z.pos q) l, e)).
    { intros l. unfold shr_fexp. simpl Zdigits2. rewrite Hq. unfold fexp, emin. by replace (Z.max (53 + e - 53) (3 - 1024 - 53) - e) with 0 by lia. }
    unfold binary_round_aux. rewrite E. cbn -[shr_fexp Z.leb Z.sub]. rewrite E. cbn -[Z.leb Z.sub].
    rewrite (proj2 (Z.leb_le _ _)) by lia. by eexists _, _. }
  destruct (Z.pos (digits2_pos p) - 53) as [|k|k] eqn:E; [|lia|].
  - apply Haux; lia.
  - apply Haux; [|lia]. rewrite digits_double. lia.
Qed.

Lemma digits_bound p : 2 ^ (Z.pos (digits2_pos p) - 1) <= Z.pos p.
Proof.
  induction p as [p IH|p IH|]; simpl digits2_pos; [..|done];
    (rewrite Pos2Z.inj_succ; replace (Z.succ (Z.pos (digits2_pos p)) - 1) with (1 + (Z.pos (digits2_pos p) - 1)) by lia;
     rewrite Z.pow_add_r by lia; lia).
Qed.

Lemma of_int_finite n : 0 < n < 2 ^ 53 -> exists m e, of_int n = S754_finite false m e.
Proof.
  intros Hn. destruct n as [|p|p]; [lia| |lia]. apply of_int_small.
  destruct (Z.le_gt_cases (Z.pos (digits2_pos p)) 53) as [?|Hgt]; [done|].
  pose proof (digits_bound p). pose proof (Z.pow_le_mono_r 2 53 (Z.pos (digits2_pos p) - 1)). lia.
Qed.

(** A time divided by a count is a time. *)
Lemma div_time x n : is_time x = true -> 0 < n < 2 ^ 53 -> is_time (x / of_int n)%dbl = true.
Proof.
  intros Hx Hn. destruct (of_int_finite n Hn) as (m & e & ->). unfold ddiv, SFdiv.
  destruct x as [[|]|[|]| |[|] mx ex]; try done.
  unfold SFdiv_core_binary. set (k := match _ with Z0 => _ | _ => _ end).
  assert (Hk : 0 <= k) by (unfold k; destruct (_ - _ - _); [lia|rewrite Z.shiftl_nonneg; lia|lia]).
  pose proof (Z.div_eucl_eq k (Z.pos m)) as Hdiv. fold (Z.div k (Z.pos m)) in *.
  assert (Hq : (Z.div_eucl k (Z.pos m)).1 = k / Z.pos m) by (unfold Z.div; by destruct (Z.div_eucl _ _)).
  destruct (Z.div_eucl k (Z.pos m)) as [q r]. simpl in Hq. apply rounded_time. subst q. apply Z.div_pos; lia.
Qed.

(** [get_timer() / reps] *)
Definition to_time (x : double) : time :=
  match decide (is_time x = true) with left H => exist _ x H | right _ => time_zero end.
Definition per_rep (t : time) (reps : Z) : time := to_time (seconds t / of_int reps)%dbl.

Lemma per_rep_ok t reps : 0 < reps < 2 ^ 53 -> seconds (per_rep t reps) = (seconds t / of_int reps)%dbl.
Proof.
  intros Hr. unfold per_rep, to_time. case_decide as E; [done|]. destruct E. apply div_time; [|done]. by destruct t.
Qed.

(** [(1 + epsilon) * first >= last], with [epsilon] 0.01. *)
Definition close_times (a b : time) : bool := (seconds b <=? (of_int 1 + literal 1 100) * seconds a)%dbl.
