(* ===== verification/FcycConfig.v ===== *)
(** * The parameters of the timing routines

    The static variables of [assignment-2-malloclab-FreezeKickerz/fcyc.c], the
    functions that set them, the threshold computed from them once, and the
    routine that reads through a buffer to push the caches out. *)

From Stdlib Require Import ZArith Lia SpecFloat.
From stdpp Require Import list.
From S2P Require Import Prelude Fcyc Doubles.

(** ** Variables *)

(** [cache_buf] is the buffer's words, [None] before the first [clear]. *)
Record fcyc_t := FcycVars {
  kbest : Z; clear_cache : Z; maxsamples : Z; epsilon : double; cache_bytes : Z; cache_block : Z;
  min_reps : Z; min_ticks : Z; min_time : double; cache_buf : option (list Z); sink : Z
}.

Definition fcyc_defaults : fcyc_t := FcycVars 3 0 20 (literal 1 100) 524288 32 8 1000 dzero None 0.

Definition set_fcyc_min_ticks (v : fcyc_t) (t : Z) : fcyc_t :=
  FcycVars (kbest v) (clear_cache v) (maxsamples v) (epsilon v) (cache_bytes v) (cache_block v) (min_reps v) t (min_time v) (cache_buf v) (sink v).
Definition set_fcyc_min_reps (v : fcyc_t) (r : Z) : fcyc_t :=
  FcycVars (kbest v) (clear_cache v) (maxsamples v) (epsilon v) (cache_bytes v) (cache_block v) r (min_ticks v) (min_time v) (cache_buf v) (sink v).
Definition set_fcyc_clear_cache (v : fcyc_t) (c : Z) : fcyc_t :=
  FcycVars (kbest v) c (maxsamples v) (epsilon v) (cache_bytes v) (cache_block v) (min_reps v) (min_ticks v) (min_time v) (cache_buf v) (sink v).
(** A buffer of another size is given back. *)
Definition set_fcyc_cache_size (v : fcyc_t) (bytes : Z) : fcyc_t :=
  if bytes =? cache_bytes v then v
  else FcycVars (kbest v) (clear_cache v) (maxsamples v) (epsilon v) bytes (cache_block v) (min_reps v) (min_ticks v) (min_time v) None (sink v).
Definition set_fcyc_cache_block (v : fcyc_t) (bytes : Z) : fcyc_t :=
  FcycVars (kbest v) (clear_cache v) (maxsamples v) (epsilon v) (cache_bytes v) bytes (min_reps v) (min_ticks v) (min_time v) (cache_buf v) (sink v).
Definition set_fcyc_k (v : fcyc_t) (k : Z) : fcyc_t :=
  FcycVars k (clear_cache v) (maxsamples v) (epsilon v) (cache_bytes v) (cache_block v) (min_reps v) (min_ticks v) (min_time v) (cache_buf v) (sink v).
Definition set_fcyc_maxsamples (v : fcyc_t) (m : Z) : fcyc_t :=
  FcycVars (kbest v) (clear_cache v) m (epsilon v) (cache_bytes v) (cache_block v) (min_reps v) (min_ticks v) (min_time v) (cache_buf v) (sink v).
Definition set_fcyc_epsilon (v : fcyc_t) (e : double) : fcyc_t :=
  FcycVars (kbest v) (clear_cache v) (maxsamples v) e (cache_bytes v) (cache_block v) (min_reps v) (min_ticks v) (min_time v) (cache_buf v) (sink v).

Definition init_min_time (timer_resolution : double) (v : fcyc_t) : fcyc_t :=
  if (min_time v =? dzero)%dbl then
    FcycVars (kbest v) (clear_cache v) (maxsamples v) (epsilon v) (cache_bytes v) (cache_block v) (min_reps v) (min_ticks v)
      (of_int (min_ticks v) * timer_resolution)%dbl (cache_buf v) (sink v)
  else v.

(** ** [clear] *)

Definition add_long (a b : Z) : outcome Z :=
  if (- 9223372036854775808 <=? a + b) && (a + b <=? long_max) then Done (a + b) else Fault SignedOverflow.

(** The loop, in words from the start of the buffer. *)
Fixpoint clear_loop (fuel : nat) (buf : list Z) (cptr cend incr x : Z) : outcome Z :=
  if cptr <? cend then
    match fuel with
    | O => Fault Diverges
    | S fuel =>
        c ← (if cptr <? 0 then Fault OutOfRange else array_get buf (Z.to_nat cptr));
        x ← add_long x c;
        clear_loop fuel buf (cptr + incr) cend incr x
    end
  else Done x.

(** [fresh] is what [malloc] returned, with the words that happen to be in it. *)
Definition clear (fuel : nat) (fresh : option (list Z)) (v : fcyc_t) : outcome fcyc_t :=
  let incr := cache_block v / 8 in
  buf ← (match cache_buf v with
         | Some buf => Done buf
         | None => match fresh with Some buf => Done buf | None => Fault (Exited 1) end
         end);
  x ← clear_loop fuel buf 0 (cache_bytes v / 8) incr (sink v);
  Done (FcycVars (kbest v) (clear_cache v) (maxsamples v) (epsilon v) (cache_bytes v) (cache_block v) (min_reps v) (min_ticks v)
          (min_time v) (Some buf) x).

(** ** What they do *)

Lemma clear_loop_ends fuel buf cptr cend incr x :
  0 < incr -> 0 <= cptr -> cend <= Z.of_nat (length buf) -> cend - cptr <= Z.of_nat fuel ->
  match clear_loop fuel buf cptr cend incr x with Fault e => e = SignedOverflow | Done _ => True end.
Proof.
  intros Hi. revert cptr x. induction fuel as [|fuel IH]; intros cptr x Hc Hend Hf; simpl; (destruct (cptr <? cend) eqn:E; [|done]); [lia|].
  rewrite (proj2 (Z.ltb_ge _ _)) by lia. destruct (lookup_lt_is_Some_2 buf (Z.to_nat cptr)) as [c Hg]; [lia|].
  rewrite (proj2 (array_get_Done _ _ _) Hg). cbn [mbind outcome_bind]. unfold add_long. destruct (_ && _); [|done]. cbn [mbind outcome_bind].
  apply IH; lia.
Qed.

(** Clearing the cache stays in the buffer and ends, if a block is at least one
    word; the sum of what happens to be there may overflow. *)
Lemma clear_in_bounds v buf : cache_buf v = Some buf -> 8 <= cache_block v -> cache_bytes v / 8 <= Z.of_nat (length buf) ->
  match clear (S (length buf)) None v with Fault e => e = SignedOverflow | Done v' => cache_buf v' = Some buf end.
Proof.
  intros Hb Hblk Hlen. unfold clear. rewrite Hb. cbn [mbind outcome_bind].
  pose proof (clear_loop_ends (S (length buf)) buf 0 (cache_bytes v / 8) (cache_block v / 8) (sink v)) as He.
  destruct (clear_loop _ _ _ _ _ _) as [x|e]; [done|]. apply He; [|lia..]. apply Z.div_str_pos. lia.
Qed.

(** With a smaller block the pointer does not move. *)
Lemma clear_stuck fuel buf x : buf !! 0%nat = Some 0 -> - 9223372036854775808 <= x <= long_max -> clear_loop fuel buf 0 1 0 x = Fault Diverges.
Proof.
  intros Hb Hx. induction fuel as [|fuel IH]; [done|]. cbn [clear_loop]. change (0 <? 1) with true. change (0 <? 0) with false.
  cbv iota. change (Z.to_nat 0) with 0%nat. rewrite (proj2 (array_get_Done _ _ _) Hb). cbn [mbind outcome_bind].
  unfold add_long. rewrite !Z.add_0_r, (proj2 (andb_true_iff _ _)) by lia. cbn [mbind outcome_bind]. exact IH.
Qed.

(** The threshold is computed once: setting the ticks after a measurement has no
    effect on the next one. *)
Lemma min_ticks_frozen res v t :
  (min_time (init_min_time res v) =? dzero)%dbl = false ->
  min_time (init_min_time res (set_fcyc_min_ticks (init_min_time res v) t)) = min_time (init_min_time res v).
Proof. intros H. unfold init_min_time at 1. simpl. by rewrite H. Qed.

Example min_ticks_frozen_run :
  let v := init_min_time (literal 1 1000000) fcyc_defaults in
  min_time (init_min_time (literal 1 1000000) (set_fcyc_min_ticks v 5)) = min_time v /\ SFeqb (min_time v) (literal 1 1000) = true.
Proof. vm_compute. done. Qed.
