(* ===== verification/DoublesRound.v ===== *)
(** * Rounding of doubles

    Bounds on the results of the operations of [Doubles]: how far rounding moves a
    number, the magnitude of products, quotients and sums of positive numbers, and
    that integers of 53 bits are exact. *)

From Stdlib Require Import ZArith Lia SpecFloat.
From stdpp Require Import list.
From S2P Require Import Prelude Fcyc Doubles.
Open Scope Z_scope.

(** ** Shifting and rounding *)

Lemma digits_log2 p : Z.pos (digits2_pos p) = Z.log2 (Z.pos p) + 1.
Proof.
  induction p as [p IH|p IH|]; simpl digits2_pos; [..|done]; rewrite Pos2Z.inj_succ, IH.
  - rewrite Pos2Z.inj_xI, Z.log2_succ_double by lia. lia.
  - rewrite Pos2Z.inj_xO, Z.log2_double by lia. lia.
Qed.

Lemma shr_1_half r : 0 <= shr_m r -> shr_m (shr_1 r) = shr_m r / 2.
Proof.
  destruct r as [[|[p|p|]|p] b c]; simpl; intros H; try lia; try done.
  - rewrite Pos2Z.inj_xI. apply (Z.div_unique_pos _ 2 _ 1); lia.
  - rewrite Pos2Z.inj_xO. apply (Z.div_unique_pos _ 2 _ 0); lia.
Qed.

Lemma iter_shr n r : 0 <= shr_m r -> shr_m (SpecFloat.iter_pos shr_1 n r) = shr_m r / 2 ^ Z.pos n.
Proof.
  revert r. induction n as [n IH|n IH|]; intros r Hr; simpl; [..|by apply shr_1_half].
  - assert (H1 : 0 <= shr_m (shr_1 r)) by (rewrite shr_1_half by done; apply Z.div_pos; lia).
    rewrite IH by (rewrite IH by done; apply Z.div_pos; lia). rewrite IH, shr_1_half by done.
    rewrite !Z.div_div by lia. f_equal. rewrite Pos2Z.inj_xI, <- Z.pow_add_r, <- Z.pow_succ_r by lia. f_equal. lia.
  - rewrite IH by (rewrite IH by done; apply Z.div_pos; lia). rewrite IH by done. rewrite Z.div_div by lia.
    f_equal. rewrite Pos2Z.inj_xO, <- Z.pow_add_r by lia. f_equal. lia.
Qed.

(** The bits of [m] beyond the 53 that a double has. *)
Definition excess (m : Z) : Z := Z.max 0 (Z.log2 m - 52).

Lemma shr_fexp_spec m e l : 0 < m -> -1000 <= Z.log2 m + e ->
  shr_m (shr_fexp 53 1024 m e l).1 = m / 2 ^ excess m /\ (shr_fexp 53 1024 m e l).2 = e + excess m /\
  (excess m = 0 -> shr_fexp 53 1024 m e l = (shr_record_of_loc m l, e)).
Proof.
  intros Hm Hn. unfold shr_fexp. destruct m as [|p|p]; try lia. simpl Zdigits2.
  assert (Hrec : shr_m (shr_record_of_loc (Z.pos p) l) = Z.pos p) by (by destruct l as [|[]]).
  assert (Hs : fexp 53 1024 (Z.pos (digits2_pos p) + e) - e = Z.log2 (Z.pos p) - 52) by (rewrite digits_log2; unfold fexp, emin; lia).
  rewrite Hs. unfold excess, shr. destruct (Z.log2 (Z.pos p) - 52) as [|k|k] eqn:E; simpl.
  - rewrite Z.div_1_r, Z.add_0_r. by split_done.
  - rewrite iter_shr by (rewrite Hrec; lia). rewrite Hrec. by split_done.
  - rewrite Z.div_1_r, Z.add_0_r. by split_done.
Qed.

Lemma log2_excess m : 0 < m -> Z.log2 (m / 2 ^ excess m) = Z.log2 m - excess m /\ 0 < m / 2 ^ excess m.
Proof.
  intros Hm. unfold excess. pose proof (Z.log2_nonneg m). rewrite <- Z.shiftr_div_pow2 by lia.
  rewrite Z.log2_shiftr by done. split; [lia|]. rewrite Z.shiftr_div_pow2 by lia. apply Z.div_str_pos. split; [apply Z.pow_pos_nonneg; lia|].
  etransitivity; [|apply (Z.log2_spec m Hm)]. apply Z.pow_le_mono_r; lia.
Qed.

(** A number of more than 53 bits loses its last bits, and the unit of the last
    place may be added; the magnitude grows by one at most. *)
Lemma round_spec s m e l : 0 < m -> -1000 <= Z.log2 m + e <= 900 -> e <= 900 ->
  exists m' e', binary_round_aux 53 1024 s m e l = S754_finite s m' e' /\ e <= e' /\ Z.log2 (Z.pos m') <= 52 /\
    (let c := m / 2 ^ excess m * 2 ^ excess m in c <= Z.pos m' * 2 ^ (e' - e) <= c + 2 ^ excess m) /\
    Z.log2 m + e <= e' + Z.log2 (Z.pos m') <= Z.log2 m + e + 1.
Proof.
  intros Hm Hn He. destruct (shr_fexp_spec m e l Hm) as (H1 & H2 & _); [lia|]. destruct (log2_excess m Hm) as [Hlog Hpos].
  unfold binary_round_aux. destruct (shr_fexp 53 1024 m e l) as [r1 e1]. simpl in H1, H2. subst e1.
  set (k := excess m) in *. set (c := m / 2 ^ k) in *. rewrite H1.
  assert (Hk : 0 <= k /\ Z.log2 m - k <= 52 /\ (k = 0 \/ Z.log2 m - k = 52)) by (unfold k, excess; lia).
  assert (Hr : exists c', round_nearest_even c (loc_of_shr_record r1) = c' /\ (c' = c \/ c' = c + 1)).
  { eexists. split; [reflexivity|]. destruct (loc_of_shr_record r1) as [|[]]; simpl; auto. destruct (Z.even c); auto. }
  destruct Hr as (c' & -> & Hc').
  pose proof (Z.log2_spec c Hpos) as [Hlo Hhi].
  assert (Hlog' : c' = 2 ^ 53 /\ Z.log2 c = 52 \/ (Z.log2 c' <= 52 /\ Z.log2 c <= Z.log2 c' <= Z.log2 c + 1)).
  { destruct Hc' as [->| ->]; [right; lia|]. pose proof (Z.log2_spec (c + 1) ltac:(lia)) as [Hl _].
    assert (Ho : Z.log2 (c + 1) = Z.log2 c + 1 \/ Z.log2 (c + 1) = Z.log2 c) by exact (Z.log2_succ_or c).
    destruct (Z.eq_dec (Z.log2 c) 52) as [E|E]; [|right; lia]. destruct Ho as [Ho|Ho]; [|right; lia]. left. split; [|done].
    rewrite Ho, E in Hl. rewrite E in Hhi. change (2 ^ Z.succ 52) with (2 ^ 53) in Hhi. change (2 ^ (52 + 1)) with (2 ^ 53) in Hl. lia. }
  assert (Hp2 : 0 < 2 ^ k) by (apply Z.pow_pos_nonneg; lia).
  destruct Hlog' as [[-> E52]|Hlog'].
  - destruct (shr_fexp_spec (2 ^ 53) (e + k) loc_Exact) as (H3 & H4 & _); [done|change (Z.log2 (2 ^ 53)) with 53; lia|].
    destruct (shr_fexp 53 1024 (2 ^ 53) (e + k) loc_Exact) as [r2 e2]. simpl in H3, H4. subst e2. change (excess (2 ^ 53)) with 1 in *.
    rewrite H3. change (2 ^ 53 / 2 ^ 1) with (Z.pos (2 ^ 52)%positive). cbn match. rewrite (proj2 (Z.leb_le _ _)) by lia.
    eexists _, _. split; [reflexivity|]. change (Z.log2 (Z.pos (2 ^ 52)%positive)) with 52. split_done; [lia|..|lia|lia].
    + destruct Hc' as [Hc'|Hc']; (replace (e + k + 1 - e) with (k + 1) by lia; rewrite Z.pow_add_r by lia; change (Z.pos (2 ^ 52)) with (2 ^ 52); nia).
    + destruct Hc' as [Hc'|Hc']; (replace (e + k + 1 - e) with (k + 1) by lia; rewrite Z.pow_add_r by lia; change (Z.pos (2 ^ 52)) with (2 ^ 52); nia).
  - assert (Hc0 : 0 < c') by lia. destruct (shr_fexp_spec c' (e + k) loc_Exact) as (_ & _ & H5); [done|lia|].
    rewrite H5 by (unfold excess; lia). cbn [shr_record_of_loc shr_m]. destruct c' as [|p|p]; try lia.
    rewrite (proj2 (Z.leb_le _ _)) by lia. eexists _, _. split; [reflexivity|]. replace (e + k - e) with k by lia.
    split_done; [lia|lia| | |lia|lia]; destruct Hc' as [Hc'|Hc']; rewrite Hc'; nia.
Qed.

Lemma round_exact s p e : Z.log2 (Z.pos p) <= 52 -> -1000 <= Z.log2 (Z.pos p) + e -> e <= 900 ->
  binary_round_aux 53 1024 s (Z.pos p) e loc_Exact = S754_finite s p e.
Proof.
  intros Hl Hn He. destruct (shr_fexp_spec (Z.pos p) e loc_Exact) as (_ & _ & E); [done|lia|].
  unfold binary_round_aux. rewrite E by (unfold excess; lia). cbn [shr_record_of_loc loc_of_shr_record round_nearest_even shr_m].
  rewrite E by (unfold excess; lia). cbn [shr_record_of_loc shr_m]. by rewrite (proj2 (Z.leb_le _ _)) by lia.
Qed.

(** ** Magnitudes *)

(** A finite number between two powers of two, with its sign. *)
Definition within (lo hi : Z) (s : bool) (x : double) : Prop :=
  exists m e, x = S754_finite s m e /\ Z.log2 (Z.pos m) <= 52 /\ lo <= e + Z.log2 (Z.pos m) <= hi.

Lemma within_weaken lo hi lo' hi' s x : within lo hi s x -> lo' <= lo -> hi <= hi' -> within lo' hi' s x.
Proof. intros (m & e & -> & ? & ?) ? ?. exists m, e. split_done; lia. Qed.

Lemma within_time lo hi x : within lo hi false x -> is_time x = true /\ dlt dzero x = true.
Proof. by intros (m & e & -> & _). Qed.

Lemma round_within s m e l : 0 < m -> -1000 <= Z.log2 m + e <= 900 -> e <= 900 ->
  within (Z.log2 m + e) (Z.log2 m + e + 1) s (binary_round_aux 53 1024 s m e l).
Proof. intros Hm Hn He. destruct (round_spec s m e l Hm Hn He) as (m' & e' & -> & _ & ? & _ & ?). by exists m', e'. Qed.

Lemma iter_double p k : Z.pos (Pos.iter xO p k) = Z.pos p * 2 ^ Z.pos k.
Proof.
  revert p. induction k as [|k IH] using Pos.peano_ind; intros p; simpl; [lia|].
  rewrite Pos.iter_succ, Pos2Z.inj_xO, IH, Pos2Z.inj_succ, Z.pow_succ_r by lia. lia.
Qed.

Lemma shl_align_spec m e e' :
  exists m', shl_align m e e' = (m', Z.min e e') /\ Z.pos m' = Z.pos m * 2 ^ (e - Z.min e e').
Proof.
  unfold shl_align. destruct (e' - e) as [|d|d] eqn:E.
  - exists m. replace (Z.min e e') with e by lia. split; [done|]. replace (e - e) with 0 by lia. lia.
  - exists m. replace (Z.min e e') with e by lia. split; [done|]. replace (e - e) with 0 by lia. lia.
  - exists (Pos.iter xO m d). replace (Z.min e e') with e' by lia. split; [done|]. rewrite iter_double. do 2 f_equal. lia.
Qed.

Lemma binary_round_spec s p e : -1000 <= Z.log2 (Z.pos p) + e -> exists q e1,
  binary_round 53 1024 s p e = binary_round_aux 53 1024 s (Z.pos q) e1 loc_Exact /\
  Z.pos q = Z.pos p * 2 ^ (e - e1) /\ e1 = Z.min e (Z.log2 (Z.pos p) + e - 52) /\
  Z.log2 (Z.pos q) + e1 = Z.log2 (Z.pos p) + e.
Proof.
  intros Hn. unfold binary_round. rewrite digits_log2.
  destruct (shl_align_spec p e (fexp 53 1024 (Z.log2 (Z.pos p) + 1 + e))) as (q & -> & Hq).
  replace (Z.min e (fexp 53 1024 (Z.log2 (Z.pos p) + 1 + e))) with (Z.min e (Z.log2 (Z.pos p) + e - 52)) in * by (unfold fexp, emin; lia).
  exists q, (Z.min e (Z.log2 (Z.pos p) + e - 52)). split_done. rewrite Hq, Z.log2_mul_pow2 by lia. lia.
Qed.

Lemma normalize_within m e z : 0 < m -> -1000 <= Z.log2 m + e <= 900 -> 
  within (Z.log2 m + e) (Z.log2 m + e + 1) false (binary_normalize 53 1024 m e z).
Proof.
  intros Hm Hn. destruct m as [|p|p]; try lia. cbn [binary_normalize]. destruct (binary_round_spec false p e) as (q & e1 & -> & Hq & He & Hl); [lia|].
  rewrite <- Hl. pose proof (Z.log2_nonneg (Z.pos p)). apply round_within; lia.
Qed.

(** Integers of 53 bits are exact. *)
Lemma of_int_exact p : Z.log2 (Z.pos p) <= 52 -> exists m,
  (forall s, binary_round 53 1024 s p 0 = S754_finite s m (Z.log2 (Z.pos p) - 52)) /\
  Z.pos m = Z.pos p * 2 ^ (52 - Z.log2 (Z.pos p)) /\ Z.log2 (Z.pos m) = 52.
Proof.
  intros Hp. pose proof (Z.log2_nonneg (Z.pos p)).
  destruct (binary_round_spec false p 0) as (m & e1 & _ & Hm & He & Hl); [lia|]. exists m.
  replace e1 with (Z.log2 (Z.pos p) - 52) in * by lia. rewrite Hm. replace (0 - (Z.log2 (Z.pos p) - 52)) with (52 - Z.log2 (Z.pos p)) in * by lia.
  split_done; [|rewrite <- Hm; lia]. intros s. destruct (binary_round_spec s p 0) as (q & e2 & -> & Hq & He2 & _); [lia|].
  replace e2 with (Z.log2 (Z.pos p) - 52) in * by lia. assert (q = m) as ->.
  { apply Pos2Z.inj. rewrite Hq, Hm. do 2 f_equal. lia. }
  apply round_exact; lia.
Qed.

(** ** Operations *)

Lemma mul_within a b c d s1 s2 x y :
  within a b s1 x -> within c d s2 y -> -1000 <= a + c -> b + d <= 800 -> d <= 400 -> b <= 400 -> within (a + c) (b + d + 2) (xorb s1 s2) (x * y)%dbl.
Proof.
  intros (m1 & e1 & -> & H1 & Hx) (m2 & e2 & -> & H2 & Hy) Hlo Hhi Hd Hb. unfold dmul, SFmul.
  pose proof (Z.log2_mul_below (Z.pos m1) (Z.pos m2) ltac:(lia) ltac:(lia)) as Hl1.
  pose proof (Z.log2_mul_above (Z.pos m1) (Z.pos m2) ltac:(lia) ltac:(lia)) as Hl2. rewrite <- Pos2Z.inj_mul in *.
  pose proof (Z.log2_nonneg (Z.pos m1)). pose proof (Z.log2_nonneg (Z.pos m2)).
  eapply within_weaken; [apply round_within; lia|lia..].
Qed.

Lemma div_within a b c d s1 s2 x y :
  within a b s1 x -> within c d s2 y -> -900 <= a - d -> b - c <= 800 -> within (a - d - 1) (b - c + 2) (xorb s1 s2) (x / y)%dbl.
Proof.
  intros (m1 & e1 & -> & H1 & Hx) (m2 & e2 & -> & H2 & Hy) Hlo Hhi. unfold ddiv, SFdiv, SFdiv_core_binary. simpl Zdigits2.
  rewrite !digits_log2. set (l1 := Z.log2 (Z.pos m1)) in *. set (l2 := Z.log2 (Z.pos m2)) in *.
  pose proof (Z.log2_nonneg (Z.pos m1)) as Hn1. pose proof (Z.log2_nonneg (Z.pos m2)) as Hn2. fold l1 in Hn1. fold l2 in Hn2.
  replace (Z.min _ _) with (l1 + e1 - (l2 + e2) - 53) by (unfold fexp, emin; lia).
  replace (e1 - e2 - (l1 + e1 - (l2 + e2) - 53)) with (l2 - l1 + 53) by lia.
  assert (Hk : match l2 - l1 + 53 with Z0 => Z.pos m1 | Z.pos _ => Z.shiftl (Z.pos m1) (l2 - l1 + 53) | Z.neg _ => 0 end
               = Z.pos m1 * 2 ^ (l2 - l1 + 53)).
  { destruct (l2 - l1 + 53) as [|k|k] eqn:E; [lia| |lia]. by rewrite Z.shiftl_mul_pow2 by lia. }
  rewrite Hk. set (n := Z.pos m1 * 2 ^ (l2 - l1 + 53)).
  assert (Hn : 2 ^ (l2 + 53) <= n < 2 ^ (l2 + 54)).
  { pose proof (Z.log2_spec (Z.pos m1) ltac:(lia)) as Hs. fold l1 in Hs. unfold n.
    replace (l2 + 53) with (l1 + (l2 - l1 + 53)) by lia. replace (l2 + 54) with (Z.succ l1 + (l2 - l1 + 53)) by lia.
    rewrite (Z.pow_add_r 2 l1), (Z.pow_add_r 2 (Z.succ l1)) by lia. pose proof (Z.pow_pos_nonneg 2 (l2 - l1 + 53) ltac:(lia) ltac:(lia)). nia. }
  assert (Hq : 2 ^ 52 <= n / Z.pos m2 < 2 ^ 54).
  { pose proof (Z.log2_spec (Z.pos m2) ltac:(lia)) as Hs. fold l2 in Hs. rewrite !Z.pow_add_r in Hn by lia. rewrite Z.pow_succ_r in Hs by lia. split.
    - apply Z.div_le_lower_bound; [lia|]. change (2 ^ 53) with (2 * 2 ^ 52) in Hn. nia.
    - apply Z.div_lt_upper_bound; [lia|]. nia. }
  pose proof (Z.log2_le_mono _ _ (proj1 Hq)) as Hl1. rewrite Z.log2_pow2 in Hl1 by lia.
  pose proof (proj1 (Z.log2_lt_pow2 (n / Z.pos m2) 54 ltac:(lia)) (proj2 Hq)) as Hl2.
  assert (E : (Z.div_eucl n (Z.pos m2)).1 = n / Z.pos m2) by (unfold Z.div; by destruct (Z.div_eucl _ _)).
  destruct (Z.div_eucl n (Z.pos m2)) as [q r]. simpl in E. subst q. eapply within_weaken; [apply round_within; lia|lia..].
Qed.

Lemma shl_align_min m e1 e2 : exists m', shl_align m e1 (Z.min e1 e2) = (m', Z.min e1 e2) /\ Z.pos m' = Z.pos m * 2 ^ (e1 - Z.min e1 e2).
Proof.
  destruct (shl_align_spec m e1 (Z.min e1 e2)) as (m' & E & Hm). replace (Z.min e1 (Z.min e1 e2)) with (Z.min e1 e2) in * by lia.
  by exists m'.
Qed.

Lemma pow2_pos k : 0 <= k -> 0 < 2 ^ k.
Proof. intros. apply Z.pow_pos_nonneg; lia. Qed.

(** The sum of two numbers as one integer at the smaller exponent. *)
Lemma dadd_finite m1 e1 (s2 : bool) m2 e2 :
  let ez := Z.min e1 e2 in
  let d := Z.pos m1 * 2 ^ (e1 - ez) + (if s2 then -1 else 1) * (Z.pos m2 * 2 ^ (e2 - ez)) in
  (S754_finite false m1 e1 + S754_finite s2 m2 e2)%dbl = binary_normalize 53 1024 d ez false.
Proof.
  intros ez d. unfold dadd, SFadd. destruct (shl_align_min m1 e1 e2) as (p1 & E1 & H1).
  destruct (shl_align_min m2 e2 e1) as (p2 & E2 & H2). rewrite (Z.min_comm e2 e1) in E2, H2. rewrite E1, E2. cbn [fst].
  unfold d, ez. rewrite <- H1, <- H2. by destruct s2; unfold cond_Zopp; f_equal; lia.
Qed.

Lemma add_within a b c d x y :
  within a b false x -> within c d false y -> -1000 <= a -> b <= 800 -> d <= 800 ->
  within a (Z.max b d + 2) false (x + y)%dbl.
Proof.
  intros (m1 & e1 & -> & H1 & Hx) (m2 & e2 & -> & H2 & Hy) Ha Hb Hd. rewrite dadd_finite. cbv zeta. set (ez := Z.min e1 e2).
  pose proof (Z.log2_nonneg (Z.pos m1)). pose proof (Z.log2_nonneg (Z.pos m2)).
  pose proof (pow2_pos (e1 - ez) ltac:(lia)) as P1. pose proof (pow2_pos (e2 - ez) ltac:(lia)) as P2.
  rewrite Z.mul_1_l. set (v := Z.pos m1 * 2 ^ (e1 - ez) + Z.pos m2 * 2 ^ (e2 - ez)).
  assert (Hlo : e1 - ez + Z.log2 (Z.pos m1) <= Z.log2 v).
  { rewrite <- Z.log2_mul_pow2 by lia. apply Z.log2_le_mono. unfold v. nia. }
  assert (Hup : forall m e t, ez <= e -> e + Z.log2 (Z.pos m) <= t -> Z.pos m * 2 ^ (e - ez) < 2 ^ (t + 1 - ez)).
  { intros m e t He Ht. pose proof (Z.log2_nonneg (Z.pos m)). apply Z.log2_lt_cancel. rewrite Z.log2_mul_pow2, Z.log2_pow2 by lia. lia. }
  pose proof (Hup m1 e1 (Z.max b d) ltac:(lia) ltac:(lia)) as U1. pose proof (Hup m2 e2 (Z.max b d) ltac:(lia) ltac:(lia)) as U2.
  assert (Hhi : Z.log2 v < Z.max b d + 2 - ez).
  { apply Z.log2_lt_pow2; [unfold v; nia|]. replace (Z.max b d + 2 - ez) with (1 + (Z.max b d + 1 - ez)) by lia.
    rewrite Z.pow_add_r by lia. unfold v. lia. }
  eapply within_weaken; [apply normalize_within; [unfold v; nia|lia]|lia..].
Qed.

(** A number of at least one, and one below one. *)
Definition at_least_one (m : positive) (e : Z) : Prop := 0 <= e \/ e < 0 /\ 2 ^ (- e) <= Z.pos m.
Definition below_one (m : positive) (e : Z) : Prop := e < 0 /\ Z.pos m < 2 ^ (- e).

Lemma sub_within m1 e1 m2 e2 b c :
  at_least_one m1 e1 -> below_one m2 e2 -> e1 + Z.log2 (Z.pos m1) <= b -> b <= 800 -> c <= e1 -> c <= e2 -> -1000 <= c ->
  within c (b + 1) false (S754_finite false m1 e1 + S754_finite true m2 e2)%dbl.
Proof.
  intros H1 [He2 H2] Hb Hb' Hc1 Hc2 Hc. rewrite dadd_finite. cbv zeta. set (ez := Z.min e1 e2).
  pose proof (pow2_pos (e1 - ez) ltac:(lia)) as P1. pose proof (pow2_pos (e2 - ez) ltac:(lia)) as P2.
  pose proof (Z.log2_nonneg (Z.pos m1)). set (v := Z.pos m1 * 2 ^ (e1 - ez) + -1 * (Z.pos m2 * 2 ^ (e2 - ez))).
  assert (Hlo : 2 ^ (- ez) <= Z.pos m1 * 2 ^ (e1 - ez)).
  { destruct H1 as [He|[He Hm]].
    - transitivity (2 ^ (e1 - ez)); [apply Z.pow_le_mono_r; lia|nia].
    - replace (- ez) with (- e1 + (e1 - ez)) by lia. rewrite Z.pow_add_r by lia. nia. }
  assert (Hhi : Z.pos m2 * 2 ^ (e2 - ez) < 2 ^ (- ez)).
  { replace (- ez) with (- e2 + (e2 - ez)) by lia. rewrite Z.pow_add_r by lia. nia. }
  assert (Hv : 0 < v <= Z.pos m1 * 2 ^ (e1 - ez)) by (unfold v; nia).
  pose proof (Z.log2_nonneg v). pose proof (Z.log2_le_mono v _ (proj2 Hv)) as Hl. rewrite Z.log2_mul_pow2 in Hl by lia.
  eapply within_weaken; [apply normalize_within; lia|lia..].
Qed.
