(* ===== verification/Clock.v ===== *)
(** * The clock of the malloc lab

    [assignment-2-malloclab-FreezeKickerz/clock.c], built without [USE_TOD]: the
    frequency of the processor, the timer in seconds over the thread's
    [clock_gettime], and the counter in cycles.  [/proc/cpuinfo], [sscanf]'s number
    of a line and the answers of [clock_gettime] are arguments.  The last section
    puts the clock under the measurements of [Fcyc]. *)

From Stdlib Require Import ZArith Lia Ascii SpecFloat.
From stdpp Require Import list strings.
From S2P Require Import Prelude CString Fcyc Doubles DoublesRound FcycConfig.
Open Scope Z_scope.

(** ** State *)

Record timespec := Timespec { tv_sec : Z; tv_nsec : Z }.
Record clock_t := Clock { last_time : timespec; new_time : timespec; cpu_mhz : double }.

Definition initial_clock : clock_t := Clock (Timespec 0 0) (Timespec 0 0) dzero.
Definition set_mhz (c : clock_t) (x : double) : clock_t := Clock (last_time c) (new_time c) x.

Definition timer_resolution : double := literal 1 1000000000.
Definition MAXBUF : nat := 512.

(** ** The frequency *)


Fixpoint starts_with (needle l : list ascii) : bool :=
  match needle, l with
  | [], _ => true
  | c :: needle, d :: l => bool_decide (c = d) && starts_with needle l
  | _, [] => false
  end.

(** [strstr(l, needle) != NULL] *)
Fixpoint strstr (l needle : list ascii) : bool :=
  starts_with needle l || match l with [] => false | _ :: l => strstr l needle end.

Section frequency.
(** What [sscanf] stores of a line, if it finds a number. *)
Context (sscanf : list ascii -> option double).

(** The loop over the lines.  The variable it stores the number in is declared
    in the body of its [if]; its value is returned to show that it is read. *)
Fixpoint read_cpuinfo (fuel : nat) (fp : list ascii) : outcome (option double) :=
  match fgets (MAXBUF - 1) fp with
  | ([], _) => Done None
  | (buf, fp) =>
      match fuel with
      | O => Fault Diverges
      | S fuel =>
          if strstr (c_str buf) (chars "cpu MHz") then
            let cpu_mhz := dzero in
            Done (Some (default cpu_mhz (sscanf (c_str buf))))
          else read_cpuinfo fuel fp
      end
  end.

Definition core_mhz (fp : option (list ascii)) (c : clock_t) : outcome (clock_t * double) :=
  let c := set_mhz c dzero in
  match fp with
  | None => let c := set_mhz c (of_int 1000) in Done (c, cpu_mhz c)
  | Some fp =>
      _ ← read_cpuinfo (length fp) fp;
      if (cpu_mhz c =? dzero)%dbl then let c := set_mhz c (of_int 1000) in Done (c, cpu_mhz c)
      else Done (c, cpu_mhz c)
  end.

Definition mhz (fp : option (list ascii)) (c : clock_t) : outcome (clock_t * double) :=
  '(c, val) ← core_mhz fp c; Done (c, val).

(** ** Timer and counter *)

(** [None] is an error of [clock_gettime]. *)
Definition start_timer (now : option timespec) (c : clock_t) : outcome clock_t :=
  match now with
  | None => Fault (Exited 1)
  | Some t => Done (Clock t (new_time c) (cpu_mhz c))
  end.

Definition sub_long (a b : Z) : outcome Z :=
  if (- 9223372036854775808 <=? a - b) && (a - b <=? long_max) then Done (a - b) else Fault SignedOverflow.

Definition get_timer (now : option timespec) (c : clock_t) : outcome (clock_t * double) :=
  match now with
  | None => Fault (Exited 1)
  | Some t =>
      let c := Clock (last_time c) t (cpu_mhz c) in
      s ← sub_long (tv_sec (new_time c)) (tv_sec (last_time c));
      n ← sub_long (tv_nsec (new_time c)) (tv_nsec (last_time c));
      Done (c, (of_int 1 * of_int s + literal 1 1000000000 * of_int n)%dbl)
  end.

Definition start_counter (fp : option (list ascii)) (now : option timespec) (c : clock_t) : outcome clock_t :=
  c ← (if (cpu_mhz c =? dzero)%dbl then '(c, _) ← mhz fp c; Done c else Done c);
  start_timer now c.

Definition get_counter (now : option timespec) (c : clock_t) : outcome (clock_t * double) :=
  '(c, delta_secs) ← get_timer now c;
  Done (c, (delta_secs * cpu_mhz c * of_int 1000000)%dbl).
End frequency.

Definition demo_cpuinfo : list ascii := chars "model name : x" ++ LF :: chars "cpu MHz : 2400.000" ++ [LF].
Definition demo_sscanf (_ : list ascii) : option double := Some (of_int 2400).

(** The line is found and its number read, and the frequency is 1000 all the same. *)
Example demo_mhz :
  read_cpuinfo demo_sscanf 40 demo_cpuinfo = Done (Some (of_int 2400)) /\
  (r ← mhz demo_sscanf (Some demo_cpuinfo) initial_clock; Done (r.2 =? of_int 1000)%dbl) = Done true.
Proof. vm_compute. done. Qed.

(** ** The frequency is always the default *)

Lemma fgets_progress n c l : exists d buf rest, fgets (S n) (c :: l) = (d :: buf, rest) /\ (length rest <= length l)%nat.
Proof.
  cbn [fgets]. case_decide; [by eexists _, _, _|]. destruct (fgets n l) as [chunk rest] eqn:E. eexists _, _, _. split; [done|].
  clear -E. revert chunk rest l E. induction n as [|n IH]; intros chunk rest l E.
  - destruct l; by simplify_eq/=.
  - destruct l as [|d l]; [by simplify_eq/=|]. cbn [fgets] in E. case_decide; simplify_eq/=; [lia|].
    destruct (fgets n l) as [k r] eqn:E2. simplify_eq/=. specialize (IH _ _ _ E2). lia.
Qed.

Lemma read_cpuinfo_ends sscanf fuel fp : (length fp <= fuel)%nat -> exists r, read_cpuinfo sscanf fuel fp = Done r.
Proof.
  revert fp. induction fuel as [|fuel IH]; intros [|c fp] Hf; simpl in Hf; try lia; [by exists None..|].
  destruct (fgets_progress 510 c fp) as (d & buf & rest & E & Hl). cbn [read_cpuinfo]. change (MAXBUF - 1)%nat with 511%nat.
  rewrite E. case_match; [by eexists|]. apply IH. lia.
Qed.

Lemma core_mhz_default sscanf fp c : core_mhz sscanf fp c = Done (set_mhz c (of_int 1000), of_int 1000).
Proof.
  unfold core_mhz. destruct fp as [fp|]; [|done]. destruct (read_cpuinfo_ends sscanf (length fp) fp) as [r ->]; [lia|]. done.
Qed.

Lemma start_counter_ok sscanf fp t c : cpu_mhz c = dzero ->
  start_counter sscanf fp (Some t) c = Done (Clock t (new_time c) (of_int 1000)).
Proof. intros Hc. unfold start_counter, mhz. rewrite Hc, core_mhz_default. done. Qed.

(** ** The timer on a clock that moves forward *)

Definition timespec_ok (t : timespec) : Prop := 0 <= tv_sec t < 2 ^ 52 /\ 0 <= tv_nsec t < 1000000000.

Definition earlier (a b : timespec) : Prop := tv_sec a < tv_sec b \/ tv_sec a = tv_sec b /\ tv_nsec a < tv_nsec b.

Lemma tick_value : timer_resolution = S754_finite false 4835703278458517 (-82).
Proof. reflexivity. Qed.

(** Whole seconds. *)
Lemma times_seconds p : Z.log2 (Z.pos p) <= 52 -> exists m e,
  (of_int 1 * of_int (Z.pos p))%dbl = S754_finite false m e /\ at_least_one m e /\ Z.log2 (Z.pos m) <= 52 /\ -52 <= e /\
  0 <= e + Z.log2 (Z.pos m) <= 53.
Proof.
  intros Hp. pose proof (Z.log2_nonneg (Z.pos p)). destruct (of_int_exact p Hp) as (q & Hq & Hv & Hlq).
  change (of_int (Z.pos p)) with (binary_round 53 1024 false p 0). rewrite (Hq false). change (of_int 1) with (S754_finite false (2 ^ 52) (-52)).
  unfold dmul, SFmul. set (v := Z.pos (2 ^ 52 * q)). assert (Ev : v = Z.pos q * 2 ^ 52) by (unfold v; rewrite Pos2Z.inj_mul; lia).
  assert (Hlv : Z.log2 v = 104) by (rewrite Ev, Z.log2_mul_pow2; lia).
  destruct (round_spec false v (-52 + (Z.log2 (Z.pos p) - 52)) loc_Exact) as (m & e & E & He & Hm & Hb & Hw); [lia..|].
  cbn [xorb]. rewrite E. exists m, e. unfold excess in Hb. rewrite Hlv in Hb, Hw. cbv zeta in Hb.
  change (Z.max 0 (104 - 52)) with 52 in Hb. rewrite Ev, Z.div_mul in Hb by lia. split_done; [|lia..].
  destruct (Z.le_gt_cases 0 e) as [?|Hneg]; [by left|right]. split; [done|].
  assert (Hpow : Z.pos q * 2 ^ 52 = Z.pos p * 2 ^ (104 - Z.log2 (Z.pos p))).
  { rewrite Hv, <- Z.mul_assoc, <- Z.pow_add_r by lia. do 2 f_equal. lia. }
  set (k := e - (-52 + (Z.log2 (Z.pos p) - 52))) in *. assert (Hk : 104 - Z.log2 (Z.pos p) = - e + k) by (unfold k; lia).
  assert (Hk0 : 0 <= k) by (unfold k; lia). clearbody k. rewrite Hpow, Hk, (Z.pow_add_r 2 (- e) k) in Hb by lia. pose proof (pow2_pos k Hk0).
  pose proof (pow2_pos (- e) ltac:(lia)). apply (Z.mul_le_mono_pos_r _ _ (2 ^ k)); [done|]. etransitivity; [|apply Hb].
  rewrite <- (Z.mul_1_l (_ * _)) at 1. apply Z.mul_le_mono_nonneg_r; nia.
Qed.

(** Nanoseconds below a second. *)
Lemma times_tick s p : Z.pos p < 1000000000 -> exists m e,
  (literal 1 1000000000 * binary_round 53 1024 s p 0)%dbl = S754_finite s m e /\ below_one m e /\ Z.log2 (Z.pos m) <= 52 /\ -134 <= e /\
  -30 <= e + Z.log2 (Z.pos m) <= 53.
Proof.
  intros Hp. pose proof (Z.log2_nonneg (Z.pos p)) as Hn.
  assert (Hl : Z.log2 (Z.pos p) <= 29) by (pose proof (Z.log2_le_mono (Z.pos p) 1000000000 ltac:(lia)); change (Z.log2 1000000000) with 29 in *; lia).
  destruct (of_int_exact p ltac:(lia)) as (q & Hq & Hv & Hlq). rewrite (Hq s).
  change (literal 1 1000000000) with (S754_finite false 4835703278458517 (-82)). unfold dmul, SFmul.
  set (v := Z.pos (4835703278458517 * q)). assert (Ev : v = 4835703278458517 * Z.pos q) by (unfold v; by rewrite Pos2Z.inj_mul).
  pose proof (Z.log2_mul_below 4835703278458517 (Z.pos q) ltac:(lia) ltac:(lia)) as L1.
  pose proof (Z.log2_mul_above 4835703278458517 (Z.pos q) ltac:(lia) ltac:(lia)) as L2.
  change (Z.log2 4835703278458517) with 52 in L1, L2. rewrite Hlq, <- Ev in L1, L2.
  set (f := -82 + (Z.log2 (Z.pos p) - 52)).
  destruct (round_spec s v f loc_Exact) as (m & e & E & He & Hm & Hb & Hw); [unfold f; lia..|].
  cbn [xorb]. rewrite E. exists m, e. split; [done|]. split; [|unfold f in *; lia].
  pose proof (Z.log2_spec v ltac:(lia)) as [Hlo _]. cbv zeta in Hb. set (k := excess v) in *.
  assert (Hk : k = Z.log2 v - 52) by (unfold k, excess; lia). clearbody k. subst k. set (k := Z.log2 v - 52) in *.
  assert (H2k : 2 ^ k * 2 ^ 52 <= v) by (rewrite <- Z.pow_add_r by lia; by replace (k + 52) with (Z.log2 v) by (unfold k; lia)).
  pose proof (Z.mul_div_le v (2 ^ k) (pow2_pos k ltac:(lia))) as Hdiv.
  assert (Hup : Z.pos m * 2 ^ (e - f) < 2 ^ (- f)).
  { assert (Hf : 2 ^ (- f) = 2 ^ 82 * 2 ^ (52 - Z.log2 (Z.pos p))) by (rewrite <- Z.pow_add_r by lia; f_equal; unfold f; lia).
    pose proof (pow2_pos (52 - Z.log2 (Z.pos p)) ltac:(lia)). rewrite Hf. rewrite Hv in Ev. nia. }
  assert (Hneg : e < 0).
  { destruct (Z.le_gt_cases 0 e) as [Hge|?]; [|done]. exfalso.
    pose proof (Z.pow_le_mono_r 2 (- f) (e - f) ltac:(lia) ltac:(lia)). nia. }
  split; [done|]. replace (- f) with (- e + (e - f)) in Hup by lia. rewrite Z.pow_add_r in Hup by (unfold f in *; lia).
  pose proof (pow2_pos (e - f) ltac:(lia)). nia.
Qed.

Definition elapsed (t0 t1 : timespec) : double :=
  (of_int 1 * of_int (tv_sec t1 - tv_sec t0) + literal 1 1000000000 * of_int (tv_nsec t1 - tv_nsec t0))%dbl.

Lemma elapsed_within t0 t1 : timespec_ok t0 -> timespec_ok t1 -> earlier t0 t1 -> within (-134) 60 false (elapsed t0 t1).
Proof.
  intros [Hs0 Hn0] [Hs1 Hn1] Hlt. unfold elapsed. set (ds := tv_sec t1 - tv_sec t0). set (dn := tv_nsec t1 - tv_nsec t0).
  assert (Hds : 0 <= ds < 2 ^ 52) by (unfold ds; destruct Hlt; lia).
  assert (Hdn : -1000000000 < dn < 1000000000 /\ (ds = 0 -> 0 < dn)) by (unfold ds, dn; destruct Hlt; lia). clearbody ds dn.
  destruct ds as [|p|p]; [|..|lia].
  - destruct dn as [|q|q]; try lia. change (of_int (Z.pos q)) with (binary_round 53 1024 false q 0).
    destruct (times_tick false q ltac:(lia)) as (m & e & -> & _ & ? & ? & ?). exists m, e. split; [done|lia].
  - assert (Hp : Z.log2 (Z.pos p) <= 52) by (pose proof (Z.log2_le_mono (Z.pos p) (2 ^ 52) ltac:(lia)); rewrite Z.log2_pow2 in *; lia).
    destruct (times_seconds p Hp) as (m & e & -> & H1 & Hm & He & Hw). destruct dn as [|q|q].
    + exists m, e. split; [done|lia].
    + change (of_int (Z.pos q)) with (binary_round 53 1024 false q 0). destruct (times_tick false q ltac:(lia)) as (m' & e' & -> & _ & ? & ? & ?).
      eapply within_weaken; [apply (add_within (-30) 53 (-30) 53); [by exists m, e; split_done; lia|by exists m', e'; split_done; lia|lia..]|lia..].
    + change (of_int (Z.neg q)) with (binary_round 53 1024 true q 0). destruct (times_tick true q ltac:(lia)) as (m' & e' & -> & Hb & ? & ? & ?).
      eapply within_weaken; [apply (sub_within m e m' e' 53 (-134)); try done; lia|lia..].
Qed.

Lemma get_timer_elapsed t0 t1 c : timespec_ok t0 -> timespec_ok t1 -> last_time c = t0 ->
  get_timer (Some t1) c = Done (Clock t0 t1 (cpu_mhz c), elapsed t0 t1).
Proof.
  intros [Hs0 Hn0] [Hs1 Hn1] <-. unfold get_timer, sub_long. simpl.
  assert (Hb : forall a b, 0 <= a < 2 ^ 52 -> 0 <= b < 2 ^ 52 -> (- 9223372036854775808 <=? a - b) && (a - b <=? long_max) = true).
  { intros a b Ha Hb. change (2 ^ 52) with 4503599627370496 in *. unfold long_max. apply andb_true_intro. split; lia. }
  rewrite !Hb by lia. done.
Qed.

(** A reading of the counter: the frequency is the default. *)
Definition cycles (t0 t1 : timespec) : double := (elapsed t0 t1 * of_int 1000 * of_int 1000000)%dbl.

Lemma of_int_within n : 0 < n < 2 ^ 53 -> within 0 52 false (of_int n).
Proof.
  intros Hn. destruct n as [|p|p]; try lia. assert (Hp : Z.log2 (Z.pos p) < 53) by (apply Z.log2_lt_pow2; lia).
  pose proof (Z.log2_nonneg (Z.pos p)). destruct (of_int_exact p ltac:(lia)) as (m & E & _ & Hl).
  change (of_int (Z.pos p)) with (binary_round 53 1024 false p 0). rewrite (E false). eexists _, _. split; [done|lia].
Qed.

Lemma cycles_within t0 t1 : timespec_ok t0 -> timespec_ok t1 -> earlier t0 t1 -> within (-134) 200 false (cycles t0 t1).
Proof.
  intros H0 H1 Hlt. unfold cycles. pose proof (elapsed_within t0 t1 H0 H1 Hlt) as He.
  pose proof (mul_within _ _ _ _ _ _ _ _ He (of_int_within 1000 ltac:(lia)) ltac:(lia) ltac:(lia) ltac:(lia) ltac:(lia)) as H2.
  pose proof (mul_within _ _ _ _ _ _ _ _ H2 (of_int_within 1000000 ltac:(lia)) ltac:(lia) ltac:(lia) ltac:(lia) ltac:(lia)) as H3.
  eapply within_weaken; [exact H3|lia..].
Qed.

(** ** The clock under the measurements *)

Lemma per_rep_positive lo hi x reps : within lo hi false x -> -800 <= lo -> hi <= 800 -> 0 < reps < 2 ^ 53 ->
  time_lt time_zero (per_rep (to_time x) reps) = true.
Proof.
  intros Hx Hlo Hhi Hr. pose proof (div_within _ _ _ _ _ _ _ _ Hx (of_int_within reps Hr) ltac:(lia) ltac:(lia)) as Hd.
  destruct (within_time _ _ _ Hd) as [_ Hp]. cbn [time_lt time_zero double_times]. unfold before. rewrite per_rep_ok by done.
  unfold to_time. case_decide as E; [done|]. destruct E. by apply within_time in Hx as [? _].
Qed.

(** The [i]-th measurement of a function over so many repetitions: the times at
    which the timer is started and read. *)
Definition readings : Type := nat -> Z -> timespec * timespec.

Definition forward (clock : readings) : Prop :=
  forall i reps, timespec_ok (clock i reps).1 /\ timespec_ok (clock i reps).2 /\ earlier (clock i reps).1 (clock i reps).2.

(** What [get_timer] returns after [start_timer], as a reading for [Fcyc]. *)
Definition timer_of (clock : readings) (i : nat) (reps : Z) : time :=
  match (c ← start_timer (Some (clock i reps).1) initial_clock; get_timer (Some (clock i reps).2) c) with
  | Done (_, x) => to_time x
  | Fault _ => time_zero
  end.

(** What [get_counter] returns after [start_counter]. *)
Definition counter_of (sscanf : list ascii -> option double) (fp : option (list ascii)) (clock : readings) (i : nat) (reps : Z) : time :=
  match (c ← start_counter sscanf fp (Some (clock i reps).1) initial_clock; get_counter (Some (clock i reps).2) c) with
  | Done (_, x) => to_time x
  | Fault _ => time_zero
  end.

Lemma timer_of_elapsed clock i reps : forward clock -> timer_of clock i reps = to_time (elapsed (clock i reps).1 (clock i reps).2).
Proof.
  intros Hf. destruct (Hf i reps) as (H0 & H1 & _). unfold timer_of, start_timer. cbn [mbind outcome_bind].
  rewrite (get_timer_elapsed (clock i reps).1) by done. done.
Qed.

Lemma counter_of_cycles sscanf fp clock i reps : forward clock ->
  counter_of sscanf fp clock i reps = to_time (cycles (clock i reps).1 (clock i reps).2).
Proof.
  intros Hf. destruct (Hf i reps) as (H0 & H1 & _). unfold counter_of. rewrite start_counter_ok by done. cbn [mbind outcome_bind].
  unfold get_counter. rewrite (get_timer_elapsed (clock i reps).1) by done. done.
Qed.

(** The clock keeps the conditions of [Fcyc]. *)
Lemma forward_clock_ok clock min_time n min_reps :
  forward clock -> 0 < min_reps -> min_reps * 2 ^ Z.of_nat n < 2 ^ 53 ->
  time_lt (timer_of clock n (min_reps * 2 ^ Z.of_nat n)) min_time = false ->
  clock_ok (timer_of clock) per_rep min_time n min_reps.
Proof.
  intros Hf Hpos Hmax Hen. split; [lia| |done|].
  - change (2 ^ 53) with 9007199254740992 in Hmax. unfold long_max. lia.
  - intros i m Hm. rewrite timer_of_elapsed by done. destruct (Hf i (min_reps * 2 ^ Z.of_nat m)) as (H0 & H1 & H2).
    eapply per_rep_positive; [by apply elapsed_within|lia..|].
    pose proof (Z.pow_le_mono_r 2 (Z.of_nat m) (Z.of_nat n) ltac:(lia) ltac:(lia)). pose proof (pow2_pos (Z.of_nat m) ltac:(lia)). nia.
Qed.

(** C36: timing works on a clock that moves forward.  If every measurement ends
    later than it starts, some doubling of the repetitions below 2^53 takes long
    enough and the timed function always returns, then [fsec] and [fcyc] end with a
    positive number of seconds and of cycles, in doubles, whatever the file about
    the processor says; and the cycles are those of a processor of 1000 MHz, even
    if the file names another frequency. *)
Theorem measures_forward_clock {S : Type} (f : S -> outcome S) (clock : readings) (sscanf : list ascii -> option double)
    (cpuinfo : option (list ascii)) (k : nat) (maxsamples : Z) (min_time : time) (n fuel : nat) (min_reps : Z) (s : S) :
  (forall s, exists s', f s = Done s') -> (0 < k)%nat -> forward clock -> 0 < min_reps -> min_reps * 2 ^ Z.of_nat n < 2 ^ 53 ->
  time_lt (timer_of clock n (min_reps * 2 ^ Z.of_nat n)) min_time = false -> (n < fuel)%nat -> (Z.to_nat maxsamples < fuel)%nat ->
  (exists r s', fsec f (timer_of clock) per_rep close_times (Z.of_nat k) maxsamples min_time fuel min_reps s = Done (r, s') /\
     time_lt time_zero r = true) /\
  (exists r s', fcyc f (timer_of clock) (counter_of sscanf cpuinfo clock) per_rep close_times (Z.of_nat k) maxsamples min_time fuel
       min_reps s = Done (r, s') /\ time_lt time_zero r = true) /\
  (forall i reps, seconds (counter_of sscanf cpuinfo clock i reps)
     = (elapsed (clock i reps).1 (clock i reps).2 * of_int 1000 * of_int 1000000)%dbl).
Proof.
  intros Hf Hk Hfwd Hpos Hmax Hen Hn Hs. pose proof (forward_clock_ok clock min_time n min_reps Hfwd Hpos Hmax Hen) as Hc.
  assert (Hf' : forall s0 : S, True -> ends (fun _ => False) (f s0) (fun _ => True)) by (intros s0 _; by destruct (Hf s0) as [s1 ->]).
  split; [|split].
  - pose proof (fsec_ends f (timer_of clock) per_rep close_times k maxsamples min_time _ _ Hf' Hk n fuel min_reps s Hc Hn Hs Logic.I) as He.
    destruct (fsec _ _ _ _ _ _ _ _ _ _) as [[r s']|e]; [|done]. exists r, s'. split; [done|]. apply He.
  - assert (Hcp : forall i m, (m <= n)%nat -> time_lt time_zero (per_rep (counter_of sscanf cpuinfo clock i (min_reps * 2 ^ Z.of_nat m))
      (min_reps * 2 ^ Z.of_nat m)) = true).
    { intros i m Hm. rewrite counter_of_cycles by done. destruct (Hfwd i (min_reps * 2 ^ Z.of_nat m)) as (H0 & H1 & H2).
      eapply per_rep_positive; [by apply cycles_within|lia..|].
      pose proof (Z.pow_le_mono_r 2 (Z.of_nat m) (Z.of_nat n) ltac:(lia) ltac:(lia)). pose proof (pow2_pos (Z.of_nat m) ltac:(lia)). nia. }
    pose proof (fcyc_ends f (timer_of clock) (counter_of sscanf cpuinfo clock) per_rep close_times k maxsamples min_time _ _ n fuel
      min_reps s Hf' Hk Hc Hcp Hn Hs Logic.I) as He.
    destruct (fcyc _ _ _ _ _ _ _ _ _ _ _) as [[r s']|e]; [|done]. exists r, s'. split; [done|]. apply He.
  - intros i reps. rewrite counter_of_cycles by done. destruct (Hfwd i reps) as (H0 & H1 & H2).
    pose proof (within_time _ _ _ (cycles_within _ _ H0 H1 H2)) as [Ht _]. unfold to_time. case_decide; [done|]. by destruct Ht.
Qed.

Lemma measures_forward_clock_witness :
  exists r s', fcyc (fun n => Done (n + 1)) (timer_of (fun _ _ => (Timespec 5 900000000, Timespec 6 650000000)))
    (counter_of demo_sscanf (Some demo_cpuinfo) (fun _ _ => (Timespec 5 900000000, Timespec 6 650000000)))
    per_rep close_times 3 20 (to_time (literal 1 1000000)) 30 1 0 = Done (r, s') /\ (seconds r =? of_int 750000000)%dbl = true.
Proof.
  destruct (measures_forward_clock (fun n : Z => Done (n + 1)) (fun _ _ => (Timespec 5 900000000, Timespec 6 650000000)) demo_sscanf
    (Some demo_cpuinfo) 3 20 (to_time (literal 1 1000000)) 0 30 1 0) as (_ & (r & s' & E & _) & _).
  - intros s. by exists (s + 1).
  - lia.
  - intros i reps. simpl. unfold timespec_ok, earlier. simpl. lia.
  - lia.
  - simpl. lia.
  - vm_compute. reflexivity.
  - lia.
  - lia.
  - exists r, s'. split; [exact E|]. vm_compute in E. injection E as <- _. vm_compute. reflexivity.
Defined.
