(* ===== verification/Throughput.v ===== *)
(** * The reference throughput of the malloc lab's driver

    [assignment-2-malloclab-FreezeKickerz/mdriver.c]: [cparse], which takes a line
    apart in its own buffer, [lookup_ref_throughput], which looks for the processor
    in two files, and the fallback that runs the reference driver.  A file is its
    characters, [None] if it cannot be opened; [strtod]'s value of a string is the
    parameter [atof]. *)

From Stdlib Require Import ZArith Lia Ascii SpecFloat.
From Stdlib Require String.
From stdpp Require Import list strings.
From S2P Require Import Prelude CString Fcyc Doubles.
Open Scope Z_scope.

(** ** [cparse] *)

Definition PLIMIT : nat := 10.
Definition MAXLINE : nat := 1024.

Definition colon : ascii := ":".
Definition TAB : ascii := ascii_of_nat 9.
Definition skipped (c : ascii) : bool := bool_decide (c = " "%char \/ c = TAB \/ c = LF \/ c = CR).

(** The loop; [index] is the part of the array that is filled, its entries are
    places in the buffer, and the length of it is [found]. *)
Fixpoint cparse_loop (fuel : nat) (s : list ascii) (rpos wpos last_start : nat) (index : list nat) :
    outcome (list ascii * list nat) :=
  if (PLIMIT <=? length index)%nat then Done (s, index)
  else
    match fuel with
    | O => Fault Diverges
    | S fuel =>
        c ← array_get s rpos;
        let rpos := S rpos in
        if skipped c then cparse_loop fuel s rpos wpos last_start index
        else if decide (c = colon) then
          s ← array_set s wpos zero;
          cparse_loop fuel s rpos (S wpos) (S wpos) (index ++ [last_start])
        else if decide (c = zero) then
          s ← array_set s wpos zero;
          Done (s, index ++ [last_start])
        else
          s ← array_set s wpos c;
          cparse_loop fuel s rpos (S wpos) last_start index
    end.

(** Every round reads one more character. *)
Definition cparse (s : list ascii) : outcome (list ascii * list nat) := cparse_loop (S (length s)) s 0 0 0 [].

(** The strings that the entries of [index] point to. *)
Definition tokens (r : list ascii * list nat) : list (list ascii) := (fun i => c_str (drop i r.1)) <$> r.2.

(** ** [lookup_ref_throughput] *)

(** The loops over the lines of a file: the first line for which [pick] gives
    something.  The buffer holds a line and its zero. *)
Fixpoint first_line {A} (fuel : nat) (pick : list (list ascii) -> option A) (file : list ascii) : outcome (option A) :=
  match fuel, file with
  | _, [] => Done None
  | O, _ => Fault Diverges
  | S fuel, _ =>
      let '(line, file) := fgets (MAXLINE - 1) file in
      r ← cparse (line ++ [zero]);
      match pick (tokens r) with Some a => Done (Some a) | None => first_line fuel pick file end
  end.

Definition CPU_KEY : list ascii := chars "modelname".
Definition BENCH_KEY : list ascii := chars "regular".

Definition pick_cpu (ts : list (list ascii)) : option (list ascii) :=
  match ts with key :: cpu :: _ => if decide (key = CPU_KEY) then Some cpu else None | _ => None end.

Section throughput.
Context (atof : list ascii -> double).

Definition pick_throughput (cpu : list ascii) (ts : list (list ascii)) : option double :=
  match ts with
  | name :: bench :: tput :: _ => if decide (name = cpu /\ bench = BENCH_KEY) then Some (atof tput) else None
  | _ => None
  end.

Definition lookup_ref_throughput (cpu_file throughput_file : option (list ascii)) : outcome double :=
  match cpu_file with
  | None => Done dzero
  | Some f =>
      cpu_type ← first_line (length f) pick_cpu f;
      match cpu_type, throughput_file with
      | None, _ | _, None => Done dzero
      | Some cpu, Some f =>
          tput ← first_line (length f) (pick_throughput cpu) f;
          Done (default dzero tput)
      end
  end.

(** ** [gen_file_name] and [measure_ref_throughput] *)

(** The name of the [i]-th attempt, from a random number, and whether there is a
    file of that name. *)
Context (name : nat -> string) (file_exists : string -> bool).

Fixpoint gen_file_name_loop (lim i : nat) : option string :=
  match lim with
  | O => None
  | S lim =>
      if (0 <? lim)%nat && file_exists (name i) then gen_file_name_loop lim (S i)
      else if (0 <? lim)%nat then Some (name i) else None
  end.

Definition gen_file_name : option string := gen_file_name_loop 100 0.

(** What running the reference driver gives: whether the command succeeded, and
    the number it wrote to the file, if the file has one.  A null file name in the
    command and for [fopen] is undefined. *)
Definition measure_ref_throughput (cpu_file throughput_file : option (list ascii))
    (run_reference : string -> bool * option double) : outcome double :=
  ltput ← lookup_ref_throughput cpu_file throughput_file;
  if (dzero <? ltput)%dbl then Done ltput
  else
    match gen_file_name with
    | None => Fault NullDeref
    | Some fname =>
        match run_reference fname with
        | (true, Some t) => Done t
        | _ => Fault (Exited 1)
        end
    end.
End throughput.

(** ** What [cparse] computes *)

(** The fields of a line, between colons. *)
Fixpoint fields (l : list ascii) : list (list ascii) :=
  match l with
  | [] => [[]]
  | c :: l =>
      if decide (c = colon) then [] :: fields l
      else match fields l with f :: fs => (c :: f) :: fs | [] => [[c]] end
  end.

Definition squeeze (l : list ascii) : list ascii := filter (fun c => skipped c = false) l.
Definition line_fields (l : list ascii) : list (list ascii) := take PLIMIT (fields (squeeze l)).

(** Finished tokens as the buffer holds them, and where they start. *)
Definition flat (ts : list (list ascii)) : list ascii := concat ((fun t => t ++ [zero]) <$> ts).
Fixpoint offsets (from : nat) (ts : list (list ascii)) : list nat :=
  match ts with [] => [] | t :: ts => from :: offsets (from + S (length t)) ts end.

Definition with_current (cur : list ascii) (fs : list (list ascii)) : list (list ascii) :=
  match fs with f :: fs => (cur ++ f) :: fs | [] => [cur] end.

Lemma flat_snoc ts t : flat (ts ++ [t]) = flat ts ++ t ++ [zero].
Proof. unfold flat. rewrite fmap_app, concat_app. simpl. by rewrite app_nil_r. Qed.

Lemma flat_cons_length t ts : length (flat (t :: ts)) = (S (length t) + length (flat ts))%nat.
Proof. unfold flat. rewrite fmap_cons. cbn [concat]. rewrite !length_app. simpl. lia. Qed.

Lemma offsets_snoc k ts t : offsets k (ts ++ [t]) = offsets k ts ++ [(k + length (flat ts))%nat].
Proof.
  revert k. induction ts as [|t0 ts IH]; intros k; simpl; [by rewrite Nat.add_0_r|].
  by rewrite IH, flat_cons_length, Nat.add_assoc.
Qed.

Lemma offsets_length k ts : length (offsets k ts) = length ts.
Proof. revert k. induction ts as [|t ts IH]; intros k; simpl; [done|]. by rewrite IH. Qed.

Lemma c_str_token t rest : zero ∉ t -> c_str (t ++ zero :: rest) = t.
Proof.
  induction t as [|c t IH]; [done|]. intros [Hc Ht]%not_elem_of_cons. simpl. rewrite decide_False by congruence. by rewrite IH.
Qed.

(** The tokens are read back from the places where they start. *)
Lemma tokens_flat pre ts rest : Forall (fun t => zero ∉ t) ts ->
  tokens (pre ++ flat ts ++ rest, offsets (length pre) ts) = ts.
Proof.
  unfold tokens. simpl. revert pre. induction ts as [|t ts IH]; intros pre Hts; [done|]. apply Forall_cons in Hts as [Ht Hts].
  simpl. rewrite drop_app_length. unfold flat. simpl. rewrite <- !(assoc_L (++)). simpl. rewrite c_str_token by done. f_equal.
  specialize (IH (pre ++ t ++ [zero]) Hts). rewrite !length_app in IH. simpl in IH.
  rewrite <- !(assoc_L (++)) in IH. simpl in IH. replace (length pre + S (length t))%nat with (length pre + (length t + 1))%nat by lia. exact IH.
Qed.

Lemma insert_behind {A} (l k : list A) x y : <[length l := x]> (l ++ y :: k) = l ++ x :: k.
Proof. induction l as [|z l IH]; simpl; [done|]. by rewrite IH. Qed.

(** Writing where the next character goes: what was read and not yet written over
    shrinks by one. *)
Lemma write_behind pre gap c (x : ascii) rest :
  exists gap', array_set (pre ++ gap ++ c :: rest) (length pre) x = Done ((pre ++ [x]) ++ gap' ++ rest) /\
    (length gap' = length gap)%nat.
Proof.
  rewrite array_set_ok by (rewrite !length_app; simpl; lia). destruct gap as [|y gap].
  - exists []. simpl. rewrite insert_behind, <- (assoc_L (++)). done.
  - exists (gap ++ [c]). simpl. rewrite insert_behind, <- !(assoc_L (++)), length_app. split; [done|simpl; lia].
Qed.

Lemma read_next {A} (pre gap : list A) c rest : array_get (pre ++ gap ++ c :: rest) (length (pre ++ gap)) = Done c.
Proof. apply array_get_Done. rewrite (assoc_L (++)). apply list_lookup_middle. done. Qed.

Lemma with_current_fields cur c l : c <> colon -> with_current (cur ++ [c]) (fields l) = with_current cur (fields (c :: l)).
Proof.
  intros Hc. simpl. rewrite decide_False by done. destruct (fields l); simpl; by rewrite <- ?(assoc_L (++)).
Qed.

Lemma fields_cons l : exists f fs, fields l = f :: fs.
Proof. destruct l as [|c l]; simpl; [by eexists _, _|]. case_decide; [by eexists _, _|]. destruct (fields l); by eexists _, _. Qed.

Lemma with_current_nil l : with_current [] (fields l) = fields l.
Proof. by destruct (fields_cons l) as (f & fs & ->). Qed.

Lemma squeeze_skip c l : skipped c = true -> squeeze (c :: l) = squeeze l.
Proof. intros Hc. unfold squeeze. rewrite filter_cons. by rewrite Hc. Qed.
Lemma squeeze_keep c l : skipped c = false -> squeeze (c :: l) = c :: squeeze l.
Proof. intros Hc. unfold squeeze. rewrite filter_cons. by rewrite Hc. Qed.

Lemma cparse_loop_ok l fuel closed cur gap junk :
  zero ∉ l -> zero ∉ cur -> Forall (fun t => zero ∉ t) closed -> (length closed <= PLIMIT)%nat -> (length l < fuel)%nat ->
  let pre := flat closed ++ cur in
  exists rest, let ts := take PLIMIT (closed ++ with_current cur (fields (squeeze l))) in
    cparse_loop fuel (pre ++ gap ++ l ++ zero :: junk) (length (pre ++ gap)) (length pre) (length (flat closed)) (offsets 0 closed) =
      Done (flat ts ++ rest, offsets 0 ts) /\ Forall (fun t => zero ∉ t) ts.
Proof.
  revert fuel closed cur gap. induction l as [|c l IH]; intros [|fuel] closed cur gap Hl Hcur Hcl Hlen Hf pre; [lia| |lia|];
    cbn [cparse_loop]; rewrite offsets_length; destruct (decide (length closed = PLIMIT)) as [Hfull|Hroom];
    try (rewrite (proj2 (Nat.leb_le _ _)) by lia; eexists; simpl;
         rewrite take_app_le, take_ge by lia; unfold pre; rewrite <- !(assoc_L (++)); done);
    rewrite (proj2 (Nat.leb_gt _ _)) by lia.
  - simpl app. rewrite read_next. cbn [mbind outcome_bind]. replace (skipped zero) with false by done.
    rewrite decide_False by done. rewrite decide_True by done.
    destruct (write_behind pre gap zero zero junk) as (gap' & -> & _). cbn [mbind outcome_bind].
    exists (gap' ++ junk). simpl. rewrite app_nil_r. rewrite take_ge by (rewrite length_app; simpl; lia).
    split; [|apply Forall_app; by split; [|repeat constructor]].
    rewrite flat_snoc, offsets_snoc. unfold pre. rewrite <- !(assoc_L (++)). done.
  - apply not_elem_of_cons in Hl as [Hc Hl]. simpl app. rewrite read_next. cbn [mbind outcome_bind].
    replace (S (length (pre ++ gap))) with (length (pre ++ gap ++ [c])) by (rewrite !length_app; simpl; lia).
    destruct (skipped c) eqn:Esk.
    + rewrite squeeze_skip by done. specialize (IH fuel closed cur (gap ++ [c]) Hl Hcur Hcl Hlen ltac:(simpl in Hf; lia)).
      simpl in IH. rewrite <- (assoc_L (++) gap) in IH. exact IH.
    + rewrite squeeze_keep by done. destruct (decide (c = colon)) as [->|Hcol].
      * destruct (write_behind pre gap colon zero (l ++ zero :: junk)) as (gap' & -> & Hg). cbn [mbind outcome_bind].
        specialize (IH fuel (closed ++ [cur]) [] gap' Hl ltac:(apply not_elem_of_nil)).
        destruct IH as (rest & E & Hts); [apply Forall_app; by split; [|repeat constructor]|rewrite length_app; simpl; lia|simpl in Hf; lia|].
        exists rest. simpl. rewrite with_current_nil, <- (assoc_L (++) closed [cur]) in E, Hts. simpl in E, Hts.
        rewrite app_nil_r. split; [|exact Hts]. rewrite <- E. clear E. rewrite flat_snoc, offsets_snoc, app_nil_r.
        unfold pre. rewrite !length_app, Hg. simpl. f_equal; try lia; rewrite <- ?(assoc_L (++)); try done; lia.
      * rewrite decide_False by congruence.
        destruct (write_behind pre gap c c (l ++ zero :: junk)) as (gap' & -> & Hg). cbn [mbind outcome_bind].
        specialize (IH fuel closed (cur ++ [c]) gap' Hl).
        destruct IH as (rest & E & Hts); try done; [rewrite elem_of_app, list_elem_of_singleton; intros [|]; congruence|simpl in Hf; lia|].
        exists rest. rewrite with_current_fields in E, Hts by done. split; [|exact Hts]. rewrite <- E. clear E.
        unfold pre. rewrite !length_app, Hg. simpl. f_equal; try lia; rewrite <- ?(assoc_L (++)); done.
Qed.

Lemma cparse_fields text junk : zero ∉ text ->
  exists r, cparse (text ++ zero :: junk) = Done r /\ tokens r = line_fields text.
Proof.
  intros Ht. destruct (cparse_loop_ok text (S (length (text ++ zero :: junk))) [] [] [] junk) as (rest & E & Hts); simpl; try lia;
    [done|apply not_elem_of_nil|constructor|rewrite length_app; simpl; lia|].
  simpl in E, Hts. rewrite with_current_nil in E, Hts. eexists. split; [exact E|]. by apply (tokens_flat []).
Qed.

(** ** What the lookup finds *)

Lemma squeeze_newline l : squeeze (typed l) = squeeze l.
Proof. unfold squeeze, typed. rewrite filter_app. simpl. by rewrite app_nil_r. Qed.

(** The first line whose fields are what is looked for. *)
Definition first_match {A} (pick : list (list ascii) -> option A) (ls : list (list ascii)) : option A :=
  head (omap (fun l => pick (line_fields l)) ls).

Definition short_line (l : list ascii) : Prop := unbroken l /\ (length l < MAXLINE - 1)%nat.

Lemma first_line_ok {A} (pick : list (list ascii) -> option A) ls fuel :
  Forall short_line ls -> (length (concat (typed <$> ls)) <= fuel)%nat ->
  first_line fuel pick (concat (typed <$> ls)) = Done (first_match pick ls).
Proof.
  intros Hls. revert fuel. induction Hls as [|l ls [Hl Hlen] Hls IH]; intros fuel Hf; [by destruct fuel|].
  rewrite fmap_cons in Hf |- *. cbn [concat] in *. unfold typed at 1 in Hf. rewrite !length_app in Hf. simpl length in Hf.
  destruct fuel as [|fuel]; [lia|]. unfold typed at 1. rewrite <- (assoc_L (++)). simpl app.
  cbn [first_line]. destruct (l ++ LF :: concat (typed <$> ls)) eqn:E; [by destruct l|]. rewrite <- E. clear E.
  rewrite fgets_short by done. assert (Hz : zero ∉ typed l) by (unfold typed; rewrite elem_of_app, list_elem_of_singleton; destruct Hl; by intros [|]).
  destruct (cparse_fields (typed l) [] Hz) as (r & Er & Ht). unfold typed in Er at 1. rewrite Er. cbn [mbind outcome_bind]. rewrite Ht.
  assert (Ef : line_fields (typed l) = line_fields l) by (unfold line_fields; by rewrite squeeze_newline). rewrite Ef.
  unfold first_match. simpl. destruct (pick (line_fields l)) as [x|]; [done|]. apply IH. lia.
Qed.

Lemma length_le {A} (l : list A) : (length l <= length l)%nat.
Proof. done. Qed.

(** Lines taken apart in place.  [cparse] never reads or writes outside its
    buffer, and the pointers it returns lead to the first ten fields of the line
    between colons, without blanks. *)
Theorem cparse_splits (text junk : list ascii) : zero ∉ text ->
  exists r, cparse (text ++ zero :: junk) = Done r /\ tokens r = line_fields text.
Proof. apply cparse_fields. Qed.

(** The throughput that is looked up.  On files of lines that fit the buffer,
    [lookup_ref_throughput] ends, and gives the number in the first line of the
    throughput file for the processor that the first matching line of the processor
    file names, and 0 when either has no such line. *)
Theorem lookup_is_first_match (atof : list ascii -> double) (cpus tputs : list (list ascii)) :
  Forall short_line cpus -> Forall short_line tputs ->
  lookup_ref_throughput atof (Some (concat (typed <$> cpus))) (Some (concat (typed <$> tputs))) =
  Done (default dzero (cpu ← first_match pick_cpu cpus; first_match (pick_throughput atof cpu) tputs)).
Proof.
  intros Hc Ht. unfold lookup_ref_throughput. rewrite first_line_ok by done. cbn [mbind outcome_bind].
  destruct (first_match pick_cpu cpus) as [cpu|]; [|done]. by rewrite first_line_ok.
Qed.

(** ** File names *)

Lemma gen_file_name_loop_ok name ex lim i n :
  gen_file_name_loop name ex lim i = Some n -> ex n = false /\ exists j, n = name j.
Proof.
  revert i. induction lim as [|lim IH]; intros i; simpl; [done|]. destruct lim as [|lim]; [done|].
  simpl (0 <? _)%nat. simpl. destruct (ex (name i)) eqn:E; [apply IH|]. intros [= <-]. by split; [|exists i].
Qed.

Lemma gen_file_name_loop_none name ex lim i :
  gen_file_name_loop name ex (S lim) i = None <-> forall j, (j < lim)%nat -> ex (name (i + j)%nat) = true.
Proof.
  revert i. induction lim as [|lim IH]; intros i; simpl; [split; [lia|done]|].
  change (gen_file_name_loop name ex (S lim)) with (gen_file_name_loop name ex (S lim)) in IH. simpl in IH.
  destruct (ex (name i)) eqn:E.
  - rewrite (IH (S i)). split; intros H j Hj.
    + destruct j as [|j]; [by rewrite Nat.add_0_r|]. rewrite Nat.add_succ_r. apply (H j). lia.
    + specialize (H (S j)). rewrite Nat.add_succ_r in H. apply H. lia.
  - split; [done|]. intros H. specialize (H 0%nat). rewrite Nat.add_0_r, E in H. by discriminate H; lia.
Qed.

(** The name that is returned is free; but the hundredth attempt is thrown away,
    free or not. *)
Lemma gen_file_name_spec name ex :
  (forall n, gen_file_name name ex = Some n -> ex n = false) /\
  (gen_file_name name ex = None <-> forall j, (j < 99)%nat -> ex (name j) = true).
Proof.
  split; [intros n Hn; by apply gen_file_name_loop_ok in Hn as [? _]|]. apply (gen_file_name_loop_none name ex 99 0).
Qed.

(** ** A run *)

Definition demo_cpus : list (list ascii) := chars <$> ["processor : 0"; "model name : Intel(R) Xeon(R): E5"; "model name : other"]%string.
Definition demo_tputs : list (list ascii) :=
  chars <$> ["# cpu:bench:tput"; "other:regular:1"; "Intel(R)Xeon(R):check:7"; "Intel(R) Xeon(R): regular : 9 "]%string.
Definition demo_atof (l : list ascii) : double := match l with [c] => of_int (Z.of_nat (nat_of_ascii c) - 48) | _ => dzero end.

Lemma short_lines ls : forallb (fun l => forallb (fun c => negb (Ascii.eqb c LF || Ascii.eqb c zero)) l && (length l <? MAXLINE - 1)%nat) ls = true -> Forall short_line ls.
Proof.
  rewrite forallb_forall. intros H. apply Forall_forall. intros l Hl%list_elem_of_In. specialize (H l Hl).
  apply andb_true_iff in H as [H1 H2%Nat.ltb_lt]. split; [|done]. rewrite forallb_forall in H1.
  split; intros Hin%list_elem_of_In; by specialize (H1 _ Hin).
Qed.

Lemma lookup_is_first_match_witness :
  lookup_ref_throughput demo_atof (Some (concat (typed <$> demo_cpus))) (Some (concat (typed <$> demo_tputs))) = Done (of_int 9).
Proof. rewrite lookup_is_first_match; [vm_compute; reflexivity|apply short_lines; vm_compute; reflexivity|apply short_lines; vm_compute; reflexivity]. Defined.

Lemma cparse_splits_witness : exists r, cparse (chars " a b:c::d" ++ zero :: [colon]) = Done r /\ tokens r = chars <$> ["ab"; "c"; ""; "d"]%string.
Proof.
  destruct (cparse_splits (chars " a b:c::d") [colon]) as (r & E & Ht); [apply (bool_decide_unpack _); vm_compute; exact I|].
  exists r. split; [exact E|]. rewrite Ht. vm_compute. reflexivity.
Defined.
