(* ===== verification/DriverMain.v ===== *)
(** * The malloc lab's driver: command line, test loop and scores

    [assignment-2-malloclab-FreezeKickerz/mdriver.c] and [config.h]: [main] from
    its options to the three scores, with [run_tests], the loop over the C
    library's allocator, [score_component] and the summary of [printresults].
    Numbers are the doubles of [Doubles].  The text of the tables and scores is in
    [DriverReport]; the alarm of the option [-s], off by default, is left out. *)

From Stdlib Require Import ZArith Lia Ascii SpecFloat.
From Stdlib Require String.
From stdpp Require Import gmap list strings.
From S2P Require Import Prelude MemLib Mm STree RangeSet TraceFile Driver DriverFill DriverSpec DriverEval Fcyc Doubles FcycConfig.

(** ** config.h *)

Definition TRACEDIR : string := "./traces/".
Definition DEFAULT_TRACEFILES : list string :=
  ["syn-example-short.rep"; "syn-array-short.rep"; "syn-struct-short.rep"; "syn-string-short.rep"; "syn-mix-short.rep";
   "syn-largemem-short.rep"; "ngram-fox1.rep"; "syn-mix-realloc.rep"; "bdd-aa4.rep"; "bdd-aa32.rep"; "bdd-ma4.rep";
   "bdd-nq7.rep"; "cbit-abs.rep"; "cbit-parity.rep"; "cbit-satadd.rep"; "cbit-xyz.rep"; "ngram-gulliver1.rep";
   "ngram-gulliver2.rep"; "ngram-moby1.rep"; "ngram-shake1.rep"; "syn-array.rep"; "syn-mix.rep"; "syn-string.rep";
   "syn-struct.rep"]%string.

Definition POINTS_CHECKPOINT1 : double := of_int 100.
Definition POINTS_CHECKPOINT2 : double := of_int 100.
Definition POINTS_FINAL : double := of_int 100.

Definition REQ_SPEED_RATIO_CHECKPOINT : double := dzero.
Definition MIN_SPEED_RATIO_CHECKPOINT : double := dzero.
Definition REQ_SPEED_RATIO : double := literal 1 100.
Definition MIN_SPEED_RATIO : double := literal 30 100.
Definition REQ_SPACE_CHECKPOINT : double := literal 30 100.
Definition MIN_SPACE_CHECKPOINT : double := literal 40 100.
Definition REQ_SPACE : double := literal 40 100.
Definition MIN_SPACE : double := literal 50 100.
Definition MAX_SPEED_RATIO_CHECKPOINT : double := literal 5 100.
Definition MAX_SPEED_RATIO : double := literal 90 100.
Definition MAX_SPACE_CHECKPOINT : double := literal 42 100.
Definition MAX_SPACE : double := literal 50 100.
Definition UTIL_WEIGHT : double := literal 60 100.

(** ** Options *)

Definition MAXLINE : nat := 1024.

(** The variables that options set; a file name or the directory is a string of
    less than [MAXLINE] characters. *)
Record config := Config {
  global_tracefiles : list string; tracedir : string; onetime_flag : bool; run_libc : bool;
  verbose : Z; debug_mode : Z; set_timeout : Z; tab_mode : bool
}.

Definition default_config : config := Config [] TRACEDIR false false 1 1 0 false.

Definition add_tracefile (c : config) (f : string) : config :=
  Config (global_tracefiles c ++ [f]) (tracedir c) (onetime_flag c) (run_libc c) (verbose c) (debug_mode c) (set_timeout c) (tab_mode c).
Definition set_tracedir (c : config) (d : string) : config :=
  Config (global_tracefiles c) d (onetime_flag c) (run_libc c) (verbose c) (debug_mode c) (set_timeout c) (tab_mode c).
Definition set_onetime (c : config) : config :=
  Config (global_tracefiles c) (tracedir c) true (run_libc c) (verbose c) (debug_mode c) (set_timeout c) (tab_mode c).
Definition set_libc (c : config) : config :=
  Config (global_tracefiles c) (tracedir c) (onetime_flag c) true (verbose c) (debug_mode c) (set_timeout c) (tab_mode c).
Definition set_verbose (c : config) (v : Z) : config :=
  Config (global_tracefiles c) (tracedir c) (onetime_flag c) (run_libc c) v (debug_mode c) (set_timeout c) (tab_mode c).
Definition set_debug (c : config) (m : Z) : config :=
  Config (global_tracefiles c) (tracedir c) (onetime_flag c) (run_libc c) (verbose c) m (set_timeout c) (tab_mode c).
Definition set_alarm (c : config) (s : Z) : config :=
  Config (global_tracefiles c) (tracedir c) (onetime_flag c) (run_libc c) (verbose c) (debug_mode c) s (tab_mode c).
Definition set_tabs (c : config) : config :=
  Config (global_tracefiles c) (tracedir c) (onetime_flag c) (run_libc c) (verbose c) (debug_mode c) (set_timeout c) true.

(** [strcpy] into an array of [MAXLINE] characters. *)
Definition fits (s : string) : outcome string :=
  if (String.length s <? MAXLINE)%nat then Done s else Fault OutOfRange.

(** The directory of [-t], with a slash at its end; of an empty one the code reads
    the byte before the array. *)
Definition trace_directory (d : string) : outcome string :=
  d ← fits d;
  match reverse (String.list_ascii_of_string d) with
  | [] => Fault OutOfRange
  | c :: _ => if decide (c = "/"%char) then Done d else fits (d +:+ "/")
  end.

(** What [getopt] returned, with [optarg]. *)
Definition process_option (atoi : string -> Z) (c : config) (o : ascii * string) : outcome config :=
  let '(opt, optarg) := o in
  if decide (opt = "f"%char) then Done (set_tracedir (add_tracefile c optarg) "./")
  else if decide (opt = "c"%char) then Done (set_tracedir (set_onetime (add_tracefile c optarg)) "./")
  else if decide (opt = "t"%char) then
    if decide (length (global_tracefiles c) = 1%nat) then Done c else d ← trace_directory optarg; Done (set_tracedir c d)
  else if decide (opt = "l"%char) then Done (set_libc c)
  else if decide (opt = "V"%char) then Done (set_verbose c (verbose c + 1))
  else if decide (opt = "v"%char) then Done (set_verbose c (atoi optarg))
  else if decide (opt = "d"%char) then Done (set_debug c (atoi optarg))
  else if decide (opt = "D"%char) then Done (set_debug c 2)
  else if decide (opt = "s"%char) then Done (set_alarm c (atoi optarg))
  else if decide (opt = "T"%char) then Done (set_tabs c)
  else if decide (opt = "h"%char) then Fault (Exited 0)
  else Fault (Exited 1).

Fixpoint process_options (atoi : string -> Z) (c : config) (os : list (ascii * string)) : outcome config :=
  match os with [] => Done c | o :: os => c ← process_option atoi c o; process_options atoi c os end.

(** The options, then the default trace files if none was named. *)
Definition configure (atoi : string -> Z) (os : list (ascii * string)) : outcome config :=
  c ← process_options atoi default_config os;
  Done (match global_tracefiles c with [] => foldl add_tracefile c DEFAULT_TRACEFILES | _ => c end).

Definition mode_of (m : Z) : debug_mode_t := if m =? 0 then DBG_NONE else if m =? 2 then DBG_EXPENSIVE else DBG_CHEAP.

(** ** Results of traces *)

Record stats_t := Stats { s_weight : weight_t; s_ops : double; s_valid : bool; s_secs : double; s_util : double }.

(** An element of the array that [calloc] returned, after [read_trace]. *)
Definition stats_of (t : trace_t) : stats_t := Stats (weight t) (of_int (num_ops t)) false dzero dzero.
Definition set_valid (s : stats_t) (b : bool) : stats_t := Stats (s_weight s) (s_ops s) b (s_secs s) (s_util s).
Definition set_secs (s : stats_t) (x : double) : stats_t := Stats (s_weight s) (s_ops s) (s_valid s) x (s_util s).
Definition set_util (s : stats_t) (x : double) : stats_t := Stats (s_weight s) (s_ops s) (s_valid s) (s_secs s) x.

(** The sums over the traces: seconds, requests and utilisation, with the numbers
    of traces that count for each. *)
Record sums := Sums { secs : double; num_reqs : double; perf_weight : Z; util : double; util_weight : Z; numcorrect : Z }.

Definition counts_perf (w : weight_t) : bool := match w with WALL | WPERF => true | _ => false end.
Definition counts_util (w : weight_t) : bool := match w with WALL | WUTIL => true | _ => false end.

Definition add_stats (a : sums) (s : stats_t) : sums :=
  let p := counts_perf (s_weight s) in
  let u := counts_util (s_weight s) in
  Sums (if p then (secs a + s_secs s)%dbl else secs a)
       (if p then (num_reqs a + s_ops s)%dbl else num_reqs a)
       (if p then perf_weight a + 1 else perf_weight a)
       (if u then (util a + s_util s)%dbl else util a)
       (if u then util_weight a + 1 else util_weight a)
       (if s_valid s then numcorrect a + 1 else numcorrect a).

Definition accumulate (l : list stats_t) : sums := foldl add_stats (Sums dzero dzero 0 dzero 0 0) l.

(** *** [printresults]: the summary it returns *)

Record sum_stats_t := SumStats { sum_util : double; sum_ops : double; sum_secs : double; sum_tput : double }.

(** Only valid traces are summed here. *)
Definition printresults (l : list stats_t) (errors : Z) : sum_stats_t :=
  let a := accumulate (filter (fun s => s_valid s = true) l) in
  if errors =? 0 then
    let uw := if util_weight a =? 0 then 1 else util_weight a in
    SumStats ((util a / of_int uw) * of_int 100)%dbl (num_reqs a) (secs a)
      (if (secs a =? dzero)%dbl then dzero else (num_reqs a / of_int 1000 / secs a)%dbl)
  else SumStats dzero dzero dzero dzero.

(** ** Scores *)

Definition score_component (perf min_perf max_perf : double) : double :=
  if (perf <? min_perf)%dbl then dzero
  else if (max_perf <? perf)%dbl then of_int 1
  else ((perf - min_perf) / (max_perf - min_perf))%dbl.

Record score := Score {
  avg_mm_util : double; avg_mm_throughput : double; points_checkpoint1 : double;
  points_checkpoint2_util : double; points_checkpoint2_throughput : double; points_checkpoint2 : double;
  points_final_util : double; points_final_throughput : double; points_final : double
}.

Definition average_util (a : sums) : double :=
  if util_weight a =? 0 then dzero else (util a / of_int (util_weight a))%dbl.
Definition average_throughput (a : sums) : double :=
  if perf_weight a =? 0 then dzero
  else if (secs a =? dzero)%dbl then dzero else (num_reqs a / secs a * literal 1 1000)%dbl.

(** The utilisation and throughput parts of a grade and the grade: nothing unless
    both thresholds are reached. *)
Definition grade (util tput req_util req_tput min_util max_util min_tput max_tput points : double) : double * double * double :=
  if (req_util <=? util)%dbl && (req_tput <=? tput)%dbl then
    let u := score_component util min_util max_util in
    let t := score_component tput min_tput max_tput in
    (u, t, ((u * UTIL_WEIGHT + t * (of_int 1 - UTIL_WEIGHT)) * points)%dbl)
  else (dzero, dzero, dzero).

(** [main] from the sums on: [n] is the number of trace files and [ref] the
    reference throughput. *)
Definition scores (a : sums) (n errors : Z) (ref : double) : score :=
  let correct := (of_int 3 * of_int (numcorrect a))%dbl in
  if errors =? 0 then
    let u := average_util a in
    let t := average_throughput a in
    let req_cp := (ref * REQ_SPEED_RATIO_CHECKPOINT)%dbl in
    let cp1 := if (REQ_SPACE_CHECKPOINT <=? u)%dbl && (req_cp <=? t)%dbl
               then (correct + (POINTS_CHECKPOINT1 - of_int 3 * of_int n))%dbl else correct in
    let '(u2, t2, p2) := grade u t REQ_SPACE_CHECKPOINT req_cp MIN_SPACE_CHECKPOINT MAX_SPACE_CHECKPOINT
                           (ref * MIN_SPEED_RATIO_CHECKPOINT)%dbl (ref * MAX_SPEED_RATIO_CHECKPOINT)%dbl POINTS_CHECKPOINT2 in
    let '(u3, t3, p3) := grade u t REQ_SPACE (ref * REQ_SPEED_RATIO)%dbl MIN_SPACE MAX_SPACE
                           (ref * MIN_SPEED_RATIO)%dbl (ref * MAX_SPEED_RATIO)%dbl POINTS_FINAL in
    Score u t cp1 u2 t2 p2 u3 t3 p3
  else Score dzero dzero correct dzero dzero dzero dzero dzero dzero.

(** The last line: the three scores as integers. *)
Definition score_line (s : score) : outcome (Z * Z * Z) :=
  a ← ceil_int (points_checkpoint1 s);
  b ← ceil_int (points_checkpoint2 s);
  c ← ceil_int (points_final s);
  Done (a, b, c).

(** ** The tests *)

(** The parameters of [fcyc.c], as they are when the driver starts. *)
Definition fcyc_kbest : Z := FcycConfig.kbest fcyc_defaults.
Definition fcyc_maxsamples : Z := FcycConfig.maxsamples fcyc_defaults.
Definition fcyc_min_reps : Z := FcycConfig.min_reps fcyc_defaults.

Section tests.
Context `{MA : Malloc} `{RA : Random} {H : Type} `{AA : Allocator H}.
(** The files; what [mmap] and [munmap] do for each test; the readings of the
    timer in each measurement, the shortest meaningful time, and the fuel of the
    loops of [fsec]. *)
Context (open_file : string -> option (list token)) (mapped : nat -> option Z) (unmapped : nat -> bool).
Context (timer : nat -> nat -> Z -> time) (min_time : time) (fuel : nat).
(** The mode and the table of random bytes, the directory, [onetime_flag], and the
    addresses that the library has in use. *)
Context (mode : debug_mode_t) (tbl : gmap Z Z) (dir : string) (onetime : bool) (live : gset loc).

Definition open_trace (name : string) : outcome trace_t :=
  path ← fits (dir +:+ name);
  match open_file path with Some f => read_trace f | None => Fault (Exited 1) end.

Definition measure {S} (i : nat) (f : S -> outcome S) (s : S) : outcome (double * S) :=
  '(t, s) ← fsec f (timer i) per_rep close_times fcyc_kbest fcyc_maxsamples min_time fuel fcyc_min_reps s;
  Done (seconds t, s).

(** The quotient of [eval_mm_util]. *)
Definition utilisation (u : usage) : double := (of_int (max_total_size u) / of_int (max_heap_size u))%dbl.

(** One round of [run_tests], with the errors so far; it ends the loop after the
    first trace when [onetime_flag] is set. *)
Definition run_test (i : nat) (d : driver H) (name : string) : outcome (stats_t * driver H) :=
  m ← mem_init (mapped i);
  rs ← new_range_set live;
  t ← open_trace name;
  let d := Driver (a_with_mem (package d) m) t rs (seed d) (messages d) in
  '(ok, d) ← eval_mm_valid mode tbl d live;
  '(ok, d) ← (if (ok : bool) then eval_mm_valid mode tbl d live else Done (false, d));
  let st := set_valid (stats_of t) ok in
  if onetime then Done (st, d)
  else
    '(st, d) ← (if (ok : bool) then
                  '(h, t, u) ← eval_mm_util (package d) (trace d);
                  '(s, (h, t)) ← measure i (fun '(h, t) => eval_mm_speed h t) (h, t);
                  Done (set_secs (set_util st (utilisation u)) s, set_trace (set_package d h) t)
                else Done (st, d));
    _ ← free_range_set (range_set d);
    _ ← mem_deinit (a_mem (package d)) (unmapped i);
    Done (st, d).

(** The results of the traces after a [return] stay as [calloc] left them. *)
Definition no_stats : stats_t := Stats WNONE dzero false dzero dzero.

Fixpoint run_tests (i : nat) (d : driver H) (files : list string) : outcome (list stats_t * driver H) :=
  match files with
  | [] => Done ([], d)
  | f :: files =>
      '(st, d) ← run_test i d f;
      if onetime then Done (st :: (const no_stats <$> files), d)
      else '(l, d) ← run_tests (S i) d files; Done (st :: l, d)
  end.

(** The loop over the C library's allocator. *)
Fixpoint run_libc_tests {C} `{LibcHeap C} (i : nat) (c : C) (files : list string) : outcome (list stats_t * C) :=
  match files with
  | [] => Done ([], c)
  | f :: files =>
      t ← open_trace f;
      '(ok, c, t') ← eval_libc_valid c t;
      '(s, c) ← (if (ok : bool) then '(s, (c, _)) ← measure i (fun '(c, t) => eval_libc_speed c t) (c, t'); Done (s, c)
                 else Done (dzero, c));
      '(l, c) ← run_libc_tests (S i) c files;
      Done (set_secs (set_valid (stats_of t) ok) s :: l, c)
  end.

(** [main] after the options and the table, without the runs of the C library:
    the tests, the sums and the scores. *)
Definition main_tests (h : H) (s : Z) (ref : double) (files : list string) : outcome (list stats_t * Z * score) :=
  '(l, d) ← run_tests 0 (Driver h (Trace WNONE None 0 0 [] [] [] []) (RangeSet None (Tree None 0 0 ∅) ∅) s []) files;
  Done (l, errors d, scores (accumulate l) (Z.of_nat (length files)) (errors d) ref).
End tests.

(** [main]: the options, the table of random bytes, the C library's allocator if
    asked for, the reference throughput, the tests, the scores and the last line. *)
Definition main `{MA : Malloc} `{RA : Random} {H C : Type} `{AA : Allocator H} `{LC : LibcHeap C}
    (atoi : string -> Z) (open_file : string -> option (list token)) (mapped : nat -> option Z) (unmapped : nat -> bool)
    (timer libc_timer : nat -> nat -> Z -> time) (min_time : time) (fuel : nat) (live : gset loc)
    (ref : outcome double) (options : list (ascii * string)) (h : H) (c : C) (s : Z) :
    outcome (list stats_t * Z * score * (Z * Z * Z)) :=
  cfg ← configure atoi options;
  let files := global_tracefiles cfg in
  let mode := mode_of (debug_mode cfg) in
  let '(tbl, s) := init_random_data mode ∅ s in
  _ ← (if run_libc cfg then _ ← run_libc_tests open_file libc_timer min_time fuel (tracedir cfg) 0 c files; Done tt else Done tt);
  ref ← ref;
  '(l, n, sc) ← main_tests open_file mapped unmapped timer min_time fuel mode tbl (tracedir cfg) (onetime_flag cfg) live h s ref files;
  line ← score_line sc;
  Done (l, n, sc, line).
