(* ===== verification/DriverScores.v ===== *)
(** * The scores of the malloc lab's driver

    What the arithmetic of [DriverMain.scores] comes to, in doubles: full marks,
    no marks, and the average utilisation for which there is no score at all,
    because the least and the best utilisation of the final grade are the same. *)

From Stdlib Require Import ZArith Lia Ascii SpecFloat.
From stdpp Require Import gmap list strings.
From S2P Require Import Prelude TraceFile Driver DriverEval Fcyc Doubles DriverMain.

Definition half : double := S754_finite false 4503599627370496 (-53).
Definition not_a_number : double := S754_nan.

(** A number that is not below a positive one is a time, or not a number. *)
Lemma not_below x y : is_time y = true -> (x <? y)%dbl = false -> is_time x = true \/ x = not_a_number \/ x = S754_zero true.
Proof.
  intros Hy. destruct x as [[|]|[|]| |[|] m e], y as [[|]|[|]| |[|] m' e']; try done; auto.
Qed.

Lemma lt_both_ways x y : is_time x = true -> is_time y = true -> (x <? y)%dbl = true -> (y <? x)%dbl = true -> False.
Proof.
  intros Hx Hy H1 H2. pose proof (before_trans (exist _ x Hx) (exist _ y Hy) (exist _ x Hx) H1 H2) as H3.
  by rewrite before_irrefl in H3.
Qed.

Lemma equal_or_nan x y : is_time y = true -> y <> dzero -> (x <? y)%dbl = false -> (y <? x)%dbl = false -> x = y \/ x = not_a_number.
Proof.
  intros Hy Hne H1 H2. destruct (not_below x y Hy H1) as [Hx|[->| ->]]; [left|by right|by destruct y as [[|]|[|]| |[|] ? ?]].
  apply (f_equal seconds (before_total (exist _ x Hx) (exist _ y Hy) H1 H2)).
Qed.

(** The utilisation part of the final grade. *)
Lemma final_util_part u :
  score_component u MIN_SPACE MAX_SPACE =
  if (u <? half)%dbl then dzero else if (half <? u)%dbl then of_int 1 else not_a_number.
Proof.
  unfold score_component. change MIN_SPACE with half. change MAX_SPACE with half.
  destruct (u <? half)%dbl eqn:E1; [done|]. destruct (half <? u)%dbl eqn:E2; [done|].
  by destruct (equal_or_nan u half eq_refl ltac:(discriminate) E1 E2) as [->| ->].
Qed.

Lemma nan_mul x : (not_a_number * x)%dbl = not_a_number.
Proof. by destruct x. Qed.
Lemma nan_add x : (not_a_number + x)%dbl = not_a_number.
Proof. by destruct x. Qed.

(** [3.0 * n + (100.0 - 3.0 * n)] *)
Definition full_checkpoint1 (n : Z) : double := (of_int 3 * of_int n + (POINTS_CHECKPOINT1 - of_int 3 * of_int n))%dbl.

#[local] Instance double_eq_dec : EqDecision double.
Proof. solve_decision. Defined.

Lemma full_checkpoint1_ok n : 0 <= n <= 1000 -> full_checkpoint1 n = of_int 100.
Proof.
  intros Hn. assert (Hall : forallb (fun k => bool_decide (full_checkpoint1 (Z.of_nat k) = of_int 100)) (seq 0 1001) = true)
    by (vm_compute; reflexivity).
  rewrite forallb_forall in Hall. specialize (Hall (Z.to_nat n)). rewrite Z2Nat.id in Hall by lia.
  apply (bool_decide_eq_true_1 (full_checkpoint1 n = of_int 100)), Hall, in_seq. lia.
Qed.

Definition reaches (u t req_u req_t : double) : bool := (req_u <=? u)%dbl && (req_t <=? t)%dbl.

Section grades.
Context (a : sums) (n : Z) (ref : double).
Let s := scores a n 0 ref.
Let u := average_util a.
Let t := average_throughput a.

Lemma checkpoint1_full :
  numcorrect a = n -> 0 <= n <= 1000 -> reaches u t REQ_SPACE_CHECKPOINT (ref * REQ_SPEED_RATIO_CHECKPOINT)%dbl = true ->
  points_checkpoint1 s = of_int 100.
Proof.
  intros Hc Hn Hr. rewrite <- (full_checkpoint1_ok n Hn). unfold s, scores, reaches in *. fold u t. rewrite Hr, Hc. simpl.
  by destruct (grade _ _ _ _ _ _ _ _ _) as [[??]?], (grade _ _ _ _ _ _ _ _ _) as [[??]?].
Qed.

(** The final grade, when both thresholds are reached. *)
Lemma final_parts :
  reaches u t REQ_SPACE (ref * REQ_SPEED_RATIO)%dbl = true ->
  points_final_util s = (if (u <? half)%dbl then dzero else if (half <? u)%dbl then of_int 1 else not_a_number) /\
  points_final_throughput s = score_component t (ref * MIN_SPEED_RATIO)%dbl (ref * MAX_SPEED_RATIO)%dbl /\
  points_final s = ((points_final_util s * UTIL_WEIGHT + points_final_throughput s * (of_int 1 - UTIL_WEIGHT)) * POINTS_FINAL)%dbl.
Proof.
  intros Hr. unfold s, scores. fold u t. destruct (grade u t REQ_SPACE_CHECKPOINT _ _ _ _ _ _) as [[??]?].
  unfold grade at 1 2 3 4 5. unfold reaches in Hr. rewrite Hr. simpl. by rewrite final_util_part.
Qed.

Lemma no_final_score :
  reaches u t REQ_SPACE (ref * REQ_SPEED_RATIO)%dbl = true -> u = half ->
  points_final s = not_a_number /\ forall x y z, score_line s <> Done (x, y, z).
Proof.
  intros Hr Hu. destruct (final_parts Hr) as (E1 & _ & E3). rewrite Hu in E1. change (half <? half)%dbl with false in E1. cbv iota in E1.
  rewrite E1, (nan_mul UTIL_WEIGHT), nan_add, (nan_mul POINTS_FINAL) in E3. split; [done|]. intros x y z. unfold score_line. rewrite E3.
  destruct (ceil_int (points_checkpoint1 s)); [|done]. by destruct (ceil_int (points_checkpoint2 s)).
Qed.

Lemma full_final_score :
  reaches u t REQ_SPACE (ref * REQ_SPEED_RATIO)%dbl = true -> (half <? u)%dbl = true ->
  (t <? ref * MIN_SPEED_RATIO)%dbl = false -> (ref * MAX_SPEED_RATIO <? t)%dbl = true -> points_final s = of_int 100.
Proof.
  intros Hr Hu H1 H2. destruct (final_parts Hr) as (E1 & E2 & ->). rewrite E1, E2, Hu. unfold score_component. rewrite H1, H2.
  destruct (u <? half)%dbl eqn:E; [|vm_compute; reflexivity]. exfalso.
  assert (is_time u = true) by (clear -Hu; by destruct u as [[|]|[|]| |[|] m e]). by apply (lt_both_ways u half).
Qed.
End grades.

(** C40: the scores.  In the arithmetic of doubles and whatever the sums over the
    traces are: with errors there are no points beyond 3 for each correct trace;
    without errors, when all of up to 1000 traces are correct and the thresholds
    of the checkpoint are reached, checkpoint 1 is exactly 100; above half
    utilisation and the best throughput the final score is exactly 100; and when
    the average utilisation is exactly one half and the thresholds are reached, the
    final score is not a number and the line of scores has no defined value. *)
Theorem scores_of_a_run (a : sums) (n errors : Z) (ref : double) :
  let u := average_util a in
  let t := average_throughput a in
  let s := scores a n errors ref in
  if errors =? 0 then
    (numcorrect a = n -> 0 <= n <= 1000 -> reaches u t REQ_SPACE_CHECKPOINT (ref * REQ_SPEED_RATIO_CHECKPOINT)%dbl = true ->
     points_checkpoint1 s = of_int 100) /\
    (reaches u t REQ_SPACE (ref * REQ_SPEED_RATIO)%dbl = true ->
     ((half <? u)%dbl = true -> (t <? ref * MIN_SPEED_RATIO)%dbl = false -> (ref * MAX_SPEED_RATIO <? t)%dbl = true ->
      points_final s = of_int 100) /\
     (u = half -> points_final s = not_a_number /\ forall x y z, score_line s <> Done (x, y, z)))
  else points_checkpoint1 s = (of_int 3 * of_int (numcorrect a))%dbl /\ points_checkpoint2 s = dzero /\ points_final s = dzero.
Proof.
  intros u t s. destruct (errors =? 0) eqn:E.
  - apply Z.eqb_eq in E. subst errors. split; [apply checkpoint1_full|]. intros Hr. split; [by apply full_final_score|by apply no_final_score].
  - unfold s, scores. by rewrite E.
Qed.

(** Two traces: the peak of the live bytes is half of the heap in both. *)
Definition demo_stats : list stats_t :=
  [Stats WALL (of_int 4000) true (literal 1 1000) half; Stats WUTIL (of_int 100) true (literal 1 1000) half].

Lemma scores_of_a_run_witness :
  points_checkpoint1 (scores (accumulate demo_stats) 2 0 (of_int 1000)) = of_int 100 /\
  points_final (scores (accumulate demo_stats) 2 0 (of_int 1000)) = not_a_number.
Proof.
  destruct (scores_of_a_run (accumulate demo_stats) 2 0 (of_int 1000)) as [H1 H2]. split.
  - apply H1; [reflexivity|lia|vm_compute; reflexivity].
  - apply H2; vm_compute; reflexivity.
Defined.
