(* ===== verification/DriverReport.v ===== *)
(** * The report of the malloc lab's driver

    The text that [mdriver.c] writes about its results: [printresults] with its two
    forms of the table, and the end of [main].  [printf] is modelled as far as the
    driver uses it: [%d], [%s] and [%c] with a width, and [%f] with a width and a
    precision, which rounds the exact value of a [double] to the nearest decimal and
    to the even one of two.  [DriverMain] has the numbers. *)

From Stdlib Require Import ZArith Lia Ascii SpecFloat.
From Stdlib Require String.
From stdpp Require Import gmap list strings.
From S2P Require Import Prelude CString MemLib Mm STree RangeSet TraceFile Driver DriverEval Fcyc Doubles DriverMain Throughput.
Open Scope Z_scope.

(** ** printf *)

(** [%ws] *)
Definition pad (w : nat) (l : list ascii) : list ascii := replicate (w - length l) " "%char ++ l.

Definition digit (d : Z) : ascii := ascii_of_nat (48 + Z.to_nat d).

Fixpoint digits (fuel : nat) (n : Z) (acc : list ascii) : list ascii :=
  match fuel with
  | O => acc
  | S fuel => let acc := digit (n mod 10) :: acc in if n <? 10 then acc else digits fuel (n / 10) acc
  end.

(** A number that is not negative. *)
Definition decimal (n : Z) : list ascii := digits (S (Z.to_nat (Z.log2 n))) n [].

(** [%d] *)
Definition print_int (n : Z) : list ascii := if n <? 0 then "-"%char :: decimal (- n) else decimal n.

(** [m * 2 ^ e * 10 ^ p] as an integer. *)
Definition scaled (p : nat) (m e : Z) : Z :=
  let n := m * 10 ^ Z.of_nat p in
  if 0 <=? e then n * 2 ^ e
  else
    let d := 2 ^ (- e) in
    let q := n / d in
    match 2 * (n mod d) ?= d with Lt => q | Gt => q + 1 | Eq => if Z.even q then q else q + 1 end.

Definition with_point (p : nat) (q : Z) : list ascii :=
  decimal (q / 10 ^ Z.of_nat p) ++
  match p with
  | O => []
  | S _ => let l := decimal (q mod 10 ^ Z.of_nat p) in "."%char :: replicate (p - length l) "0"%char ++ l
  end.

(** [%.pf]; the sign bit of a NaN is not part of [spec_float]. *)
Definition fixed (nan_sign : bool) (p : nat) (x : double) : list ascii :=
  let signed (s : bool) l := if s then "-"%char :: l else l in
  match x with
  | S754_zero s => signed s (with_point p 0)
  | S754_infinity s => signed s (chars "inf")
  | S754_nan => signed nan_sign (chars "nan")
  | S754_finite s m e => signed s (with_point p (scaled p (Zpos m) e))
  end.

Example fixed_tenth : fixed true 1 (literal 1 10) = chars "0.1" /\ fixed true 3 (literal 2 3) = chars "0.667" /\
  fixed true 0 (literal 5 2) = chars "2" /\ fixed true 0 (literal 7 2) = chars "4" /\ fixed true 2 (of_int (-12)) = chars "-12.00" /\
  fixed true 1 (of_int 0 / of_int 0)%dbl = chars "-nan" /\ fixed true 3 (of_int 10 / of_int 10000)%dbl = chars "0.001".
Proof. vm_compute. repeat split. Qed.

(** ** printresults *)

(** The element of the statistics of a trace, with its [filename]. *)
Abbreviation result := (stats_t * list ascii)%type (only parsing).

Definition tabs (l : list string) : list ascii := concat ((fun s => chars s ++ [TAB]) <$> l).

Definition header (tab : bool) : list ascii :=
  if tab then tabs ["valid"; "thru?"; "util?"; "util"; "ops"; "msecs"; "Kops"]%string
  else chars "  " ++ pad 5 (chars "valid") ++ chars "  " ++ pad 6 (chars "util") ++ chars " " ++ pad 7 (chars "ops") ++
       pad 8 (chars "msecs") ++ pad 8 (chars "Kops") ++ chars "  ".

Definition wstr (w : weight_t) : ascii :=
  match w with WNONE => " " | WALL => "*" | WUTIL => "u" | WPERF => "p" end.
Definition tabstr (w : weight_t) : list ascii :=
  match w with
  | WNONE => tabs ["0"; "0"]%string | WALL => tabs ["1"; "1"]%string
  | WUTIL => tabs ["0"; "1"]%string | WPERF => tabs ["1"; "0"]%string
  end.

Definition shows_util (w : weight_t) : bool := match w with WNONE | WALL | WUTIL => true | WPERF => false end.
Definition shows_perf (w : weight_t) : bool := match w with WNONE | WALL | WPERF => true | WUTIL => false end.

Definition msecs (s : stats_t) : double := (s_secs s * of_int 1000)%dbl.
Definition kops (s : stats_t) : double := (s_ops s * literal 1 1000 / s_secs s)%dbl.
Definition percent (s : stats_t) : double := (s_util s * of_int 100)%dbl.

Section report.
Context (nan_sign : bool).
Let f := fixed nan_sign.

(** The line of a trace before its file name. *)
Definition figures (tab : bool) (s : stats_t) : list ascii :=
  let w := s_weight s in
  if s_valid s then
    (if tab then tabs ["1"]%string ++ tabstr w else pad 2 [wstr w] ++ pad 4 (chars "yes")) ++
    (if tab then f 1 (percent s) ++ [TAB]
     else if shows_util w then chars " " ++ pad 7 (f 1 (percent s)) ++ chars "%"
     else chars " " ++ pad 8 (chars "--")) ++
    (if tab then f 0 (s_ops s) ++ [TAB] ++ f 3 (msecs s) ++ [TAB] ++ f 0 (kops s) ++ [TAB]
     else if shows_perf w then pad 8 (f 0 (s_ops s)) ++ pad 10 (f 3 (msecs s)) ++ pad 7 (f 0 (kops s)) ++ chars " "
     else pad 8 (chars "--") ++ pad 10 (chars "--") ++ pad 7 (chars "--") ++ chars " ")
  else if tab then chars "no" ++ replicate 7 TAB
  else pad 2 (match w with WNONE => [] | _ => chars "*" end) ++ pad 4 (chars "no") ++ pad 7 (chars "-") ++ pad 10 (chars "-") ++
       pad 7 (chars "-") ++ pad 10 (chars "-") ++ chars " ".

Definition trace_line (tab : bool) (r : result) : list ascii := figures tab r.1 ++ r.2 ++ [LF].

(** The last lines; [a] sums up the valid traces. *)
Definition summary (tab : bool) (errors : Z) (a : sums) : list ascii :=
  if errors =? 0 then
    let pw := if perf_weight a =? 0 then 1 else perf_weight a in
    let uw := if util_weight a =? 0 then 1 else util_weight a in
    let u := ((util a / of_int uw) * of_int 100)%dbl in
    let t := if (secs a =? dzero)%dbl then dzero else (num_reqs a / of_int 1000 / secs a)%dbl in
    if tab then
      tabs ["Sum"]%string ++ print_int pw ++ [TAB] ++ print_int uw ++ [TAB] ++ f 1 (util a * of_int 100)%dbl ++ [TAB] ++
      f 0 (num_reqs a) ++ [TAB] ++ f 2 (secs a * of_int 1000)%dbl ++ [LF] ++
      chars "Avg" ++ replicate 3 TAB ++ f 1 u ++ replicate 3 TAB ++ f 0 t ++ [LF]
    else
      pad 2 (print_int uw) ++ chars " " ++ pad 2 (print_int pw) ++ chars "  " ++ pad 7 (f 1 u) ++ chars "%" ++
      pad 8 (f 0 (num_reqs a)) ++ pad 10 (f 3 (secs a * of_int 1000)%dbl) ++ pad 7 (f 0 t) ++ [LF]
  else if tab then [] else chars "     " ++ pad 8 (chars "-") ++ pad 10 (chars "-") ++ pad 7 (chars "-") ++ [LF].

Definition valid_sums (l : list result) : sums := accumulate (filter (fun s => s_valid s = true) l.*1).

Definition table (tab : bool) (errors : Z) (l : list result) : list ascii :=
  header tab ++ chars "trace" ++ [LF] ++ concat (trace_line tab <$> l) ++ summary tab errors (valid_sums l).

(** ** The end of [main] *)

Definition mark : list ascii := [ascii_of_nat 34].

(** After [run_tests]: the results, or the verdict of the option [-c] on the last
    trace file. *)
Definition mm_report (c : config) (errors : Z) (l : list result) : list ascii :=
  if verbose c =? 0 then []
  else if onetime_flag c then
    let '(s, name) := default (no_stats, []) (last l) in
    [LF; LF] ++ chars "correctness check finished, by running tracefile " ++ mark ++ name ++ mark ++ chars "." ++ [LF] ++
    (if s_valid s then chars " => correct." else chars " => incorrect.") ++ [LF; LF]
  else [LF] ++ chars "Results for mm malloc:" ++ [LF] ++ table (tab_mode c) errors l ++ [LF].

(** The results of the C library's allocator, before the tests. *)
Definition libc_report (c : config) (errors : Z) (libc : list result) : list ascii :=
  if run_libc c then if verbose c =? 0 then [] else [LF] ++ chars "Results for libc malloc:" ++ [LF] ++ table (tab_mode c) errors libc
  else [].

(** The conversion to [float], printed as the [double] of the same value. *)
Definition to_float (x : double) : double :=
  match x with S754_finite s m e => binary_normalize 24 128 (cond_Zopp s (Zpos m)) e s | _ => x end.

Definition comparison (mm libc : double) : list ascii :=
  chars "Comparison with libc malloc: mm/libc = " ++ f 0 (to_float mm) ++ chars " Kops / " ++ f 0 (to_float libc) ++
  chars " Kops = " ++ f 2 (to_float (mm / libc)%dbl) ++ [LF].

(** The throughput that [printresults] leaves in the global sums, which are zero
    before. *)
Definition kept_tput (printed : bool) (errors : Z) (l : list result) : double :=
  if printed then sum_tput (printresults l.*1 errors) else dzero.

Definition line (l : list ascii) : list ascii := l ++ [LF].

Definition averages (s : score) : list ascii :=
  line (chars "Average utilization = " ++ f 1 (avg_mm_util s * of_int 100)%dbl ++ chars "%. Average throughput = " ++
        f 0 (avg_mm_throughput s) ++ chars " Kops/sec").

Definition early_line (tab : bool) (errors : Z) (s : score) : list ascii :=
  if errors =? 0 then if tab then [] else averages s
  else line (chars "Terminated with " ++ print_int errors ++ chars " errors").

(** One grade: its parts, the average values and the targets. *)
Definition grade_lines (title : string) (u t p points : double) (s : score) (min_u max_u min_t max_t ref : double) : list ascii :=
  line (chars "***" ++ chars title ++ chars " perf index = " ++ f 1 (u * UTIL_WEIGHT * points)%dbl ++ chars " (util) + " ++
        f 1 (t * (of_int 1 - UTIL_WEIGHT) * points)%dbl ++ chars " (thru) = " ++ f 1 p ++ chars "/" ++ f 1 points ++ chars "***") ++
  averages s ++
  line (chars "Utilization targets: min=" ++ f 1 (min_u * of_int 100)%dbl ++ chars "%, max=" ++ f 1 (max_u * of_int 100)%dbl ++ chars "%") ++
  line (chars "Throughput targets: min=" ++ f 0 min_t ++ chars ", max=" ++ f 0 max_t ++ chars ", benchmark=" ++ f 0 ref).

Definition score_report (verbose : Z) (s : score) (ref : double) : outcome (list ascii) :=
  '(a, b, c) ← score_line s;
  let of_points a p := print_int a ++ chars " / " ++ print_int p in
  Done ((if 0 <? verbose then
           [LF] ++ line (chars "***Checkpoint 1 correctness index = " ++ f 1 (points_checkpoint1 s) ++ chars "/" ++ f 1 POINTS_CHECKPOINT1 ++ chars "***") ++
           [LF] ++ grade_lines "Checkpoint 2" (points_checkpoint2_util s) (points_checkpoint2_throughput s) (points_checkpoint2 s)
             POINTS_CHECKPOINT2 s MIN_SPACE_CHECKPOINT MAX_SPACE_CHECKPOINT (ref * MIN_SPEED_RATIO_CHECKPOINT)%dbl
             (ref * MAX_SPEED_RATIO_CHECKPOINT)%dbl ref ++
           [LF] ++ grade_lines "Final" (points_final_util s) (points_final_throughput s) (points_final s) POINTS_FINAL s MIN_SPACE MAX_SPACE
             (ref * MIN_SPEED_RATIO)%dbl (ref * MAX_SPEED_RATIO)%dbl ref ++ [LF]
         else []) ++
        line (chars "Score: Checkpoint 1: " ++ of_points a 100 ++ chars ", Checkpoint 2: " ++ of_points b 100 ++ chars ", Final: " ++ of_points c 100)).

(** The standard output of [main] from the results on. *)
Definition report (c : config) (errors : Z) (l libc : list result) (s : score) (ref : double) : outcome (list ascii) :=
  r ← score_report (verbose c) s ref;
  let printed := negb (verbose c =? 0) in
  Done (mm_report c errors l ++
        (if run_libc c then comparison (kept_tput (printed && negb (onetime_flag c)) errors l) (kept_tput printed errors libc) else []) ++
        early_line (tab_mode c) errors s ++ r).
End report.

(** ** Numbers *)

(** The decimal is the nearest one, and the even one of two. *)
Lemma scaled_nearest p m e : e < 0 -> let d := 2 ^ (- e) in
  2 * Z.abs (scaled p m e * d - m * 10 ^ Z.of_nat p) <= d /\
  (2 * Z.abs (scaled p m e * d - m * 10 ^ Z.of_nat p) = d -> Z.even (scaled p m e) = true).
Proof.
  intros He. unfold scaled. destruct (Z.leb_spec 0 e); [lia|]. set (d := 2 ^ (- e)). set (n := m * 10 ^ Z.of_nat p).
  assert (Hd : 0 < d) by (apply Z.pow_pos_nonneg; lia).
  pose proof (Z.div_mod n d) as En. pose proof (Z.mod_pos_bound n d Hd) as Hr. specialize (En ltac:(lia)).
  assert (Ea : n / d * d - n = - (n mod d)) by lia. assert (Eb : (n / d + 1) * d - n = d - n mod d) by lia.
  destruct (Z.compare_spec (2 * (n mod d)) d); [destruct (Z.even (n / d)) eqn:Ev|..]; rewrite ?Ea, ?Eb; (split; [lia|]); try lia; try done.
  intros _. rewrite Z.even_add, Ev. done.
Qed.

Lemma scaled_exact p m e : 0 <= e -> scaled p m e = m * 10 ^ Z.of_nat p * 2 ^ e.
Proof. intros He. unfold scaled. by destruct (Z.leb_spec 0 e); [|lia]. Qed.

Definition digit_of (c : ascii) : Z := Z.of_nat (nat_of_ascii c) - 48.
Definition value_from (v : Z) (l : list ascii) : Z := foldl (fun v c => v * 10 + digit_of c) v l.

Lemma digit_of_digit d : 0 <= d < 10 -> digit_of (digit d) = d.
Proof. intros Hd. unfold digit_of, digit. rewrite nat_ascii_embedding; lia. Qed.

Lemma digits_value fuel n acc : 0 <= n < 10 ^ Z.of_nat fuel -> (0 < fuel)%nat -> value_from 0 (digits fuel n acc) = value_from n acc.
Proof.
  revert n acc. induction fuel as [|fuel IH]; intros n acc Hn Hf; [lia|]. cbn [digits].
  pose proof (Z.mod_pos_bound n 10 ltac:(lia)) as Hm. pose proof (Z.div_mod n 10 ltac:(lia)) as En.
  rewrite Nat2Z.inj_succ, Z.pow_succ_r in Hn by lia. destruct (Z.ltb_spec n 10).
  - simpl. rewrite digit_of_digit by done. f_equal. rewrite Z.mod_small; lia.
  - destruct fuel as [|fuel]; [simpl in Hn; lia|]. rewrite IH; [|split; [apply Z.div_pos; lia|apply Z.div_lt_upper_bound; lia]|lia].
    simpl. rewrite digit_of_digit by done. f_equal. lia.
Qed.

Lemma log_fuel n : 0 <= n -> n < 10 ^ Z.of_nat (S (Z.to_nat (Z.log2 n))).
Proof.
  intros Hn. pose proof (Z.log2_nonneg n). destruct (Z.eq_dec n 0) as [->|]; [done|].
  pose proof (Z.log2_spec n ltac:(lia)) as [_ Hlt]. rewrite Nat2Z.inj_succ, Z2Nat.id by done.
  eapply Z.lt_le_trans; [exact Hlt|]. apply Z.pow_le_mono_l. lia.
Qed.

(** The decimal of a number reads as that number. *)
Lemma decimal_value n : 0 <= n -> value_from 0 (decimal n) = n.
Proof. intros Hn. unfold decimal. rewrite digits_value; [done|split; [done|by apply log_fuel]|lia]. Qed.

(** Texts of numbers hold no tabulator. *)
Definition untabbed (l : list ascii) : Prop := TAB ∉ l.

Lemma untabbed_app l k : untabbed l -> untabbed k -> untabbed (l ++ k).
Proof. unfold untabbed. rewrite elem_of_app. tauto. Qed.

Lemma untabbed_cons c l : c <> TAB -> untabbed l -> untabbed (c :: l).
Proof. unfold untabbed. rewrite elem_of_cons. intros Hc Hl [E|H]; [congruence|done]. Qed.

Lemma digit_not_tab d : 0 <= d < 10 -> digit d <> TAB.
Proof. intros Hd E. apply (f_equal digit_of) in E. rewrite digit_of_digit in E by done. vm_compute in E. subst d. lia. Qed.

Lemma digits_untabbed fuel n acc : untabbed acc -> untabbed (digits fuel n acc).
Proof.
  revert n acc. induction fuel as [|fuel IH]; intros n acc Ha; [done|]. cbn [digits].
  assert (untabbed (digit (n mod 10) :: acc)) by (apply untabbed_cons; [apply digit_not_tab, Z.mod_pos_bound; lia|done]).
  destruct (n <? 10); [done|by apply IH].
Qed.

Lemma decimal_untabbed n : untabbed (decimal n).
Proof. apply digits_untabbed, not_elem_of_nil. Qed.

Lemma replicate_untabbed n c : c <> TAB -> untabbed (replicate n c).
Proof. intros Hc [E _]%elem_of_replicate. congruence. Qed.

Lemma untabbed_nil : untabbed [].
Proof. apply not_elem_of_nil. Qed.

Create HintDb untabbed.
#[export] Hint Resolve untabbed_nil untabbed_app untabbed_cons decimal_untabbed replicate_untabbed : untabbed.
#[export] Hint Extern 1 (_ <> TAB) => discriminate : untabbed.

Lemma fixed_untabbed b p x : untabbed (fixed b p x).
Proof.
  assert (H : forall q, untabbed (with_point p q)) by (intros q; unfold with_point; destruct p; auto with untabbed).
  destruct x as [s|s| |s m e]; simpl; destruct s || destruct b; auto 20 with untabbed.
Qed.

(** ** The tables *)

(** The columns of a line in tab mode end at tabulators. *)
Definition columns (l : list ascii) : nat := length (filter (fun c => c = TAB) l).

Lemma columns_app l k : columns (l ++ k) = (columns l + columns k)%nat.
Proof. unfold columns. by rewrite filter_app, length_app. Qed.

Lemma columns_untabbed l : untabbed l -> columns l = 0%nat.
Proof.
  unfold columns. induction l as [|c l IH]; intros Hl; [done|]. apply not_elem_of_cons in Hl as [Hc Hl].
  rewrite filter_cons_False by congruence. by apply IH.
Qed.

Lemma columns_fixed b p x l : columns (fixed b p x ++ [TAB] ++ l) = S (columns l).
Proof. by rewrite columns_app, columns_untabbed by apply fixed_untabbed. Qed.

Lemma length_pad w l : (length l <= w)%nat -> length (pad w l) = w.
Proof. intros Hl. unfold pad. rewrite length_app, length_replicate. lia. Qed.

(** The figures of a trace that are printed are not wider than their columns. *)
Definition fits_table (b : bool) (s : stats_t) : Prop :=
  s_valid s = true ->
  (shows_util (s_weight s) = true -> length (fixed b 1 (percent s)) <= 7)%nat /\
  (shows_perf (s_weight s) = true -> length (fixed b 0 (s_ops s)) <= 8 /\ length (fixed b 3 (msecs s)) <= 10 /\
     length (fixed b 0 (kops s)) <= 7)%nat.

Lemma header_width : length (header false) = 41%nat.
Proof. reflexivity. Qed.

Lemma figures_width b s : fits_table b s -> length (figures b false s) = 41%nat.
Proof.
  unfold fits_table, figures. destruct (s_valid s); [|by destruct (s_weight s)]. intros Hf. destruct (Hf eq_refl) as [Hu Hp]. clear Hf.
  rewrite !length_app. destruct (s_weight s); cbn [shows_util shows_perf] in *;
    repeat match goal with H : true = true -> _ |- _ => specialize (H eq_refl) end; rewrite ?length_app, ?length_pad by (simpl; lia); done.
Qed.

Lemma figures_columns b s : columns (figures b true s) = columns (header true).
Proof.
  unfold figures. destruct (s_valid s); [|done]. rewrite !columns_app, !(columns_untabbed (fixed _ _ _)) by apply fixed_untabbed.
  by destruct (s_weight s).
Qed.

(** The tables line up.  With tabulators, the line of every trace, valid or not and
    of any weight, has the columns of the heading; without them, the file name
    stands where the heading has it as long as the figures of the trace are not
    wider than their columns.  In both the text before the file name is all that
    the weight lets be seen. *)
Theorem tables_line_up (b : bool) (s : stats_t) (name : list ascii) :
  (untabbed name -> columns (trace_line b true (s, name)) = columns (header true)) /\
  (fits_table b s -> exists l, trace_line b false (s, name) = l ++ name ++ [LF] /\ length l = length (header false)).
Proof.
  split.
  - intros Hn. unfold trace_line. cbn [fst snd]. rewrite !columns_app, (columns_untabbed name) by done. rewrite figures_columns. done.
  - intros Hf. exists (figures b false s). split; [done|]. rewrite header_width. by apply figures_width.
Qed.

Definition demo_results : list result :=
  [(Stats WALL (of_int 4000) true (literal 1 1000) (literal 3 4), chars "./traces/a.rep");
   (Stats WUTIL (of_int 100) true (literal 1 1000) (literal 7 8), chars "./traces/b.rep");
   (Stats WPERF (of_int 100) false dzero dzero, chars "./traces/c.rep")].

Example demo_table : table true false 0 demo_results = concat (line <$> (chars <$>
  ["  valid    util     ops   msecs    Kops  trace"; " * yes    75.0%    4000     1.000   4000 ./traces/a.rep";
   " u yes    87.5%      --        --     -- ./traces/b.rep"; " *  no      -         -      -         - ./traces/c.rep";
   " 2  1     81.2%    4000     1.000   4000"]%string)).
Proof. vm_compute. reflexivity. Qed.

(** ** The option [-c] *)

(** With another trace file before it, the file of [-c] is reported and the other one
    was tested. *)
Lemma onetime_reports_untested `{MA : Malloc} `{RA : Random} {H : Type} `{AA : Allocator H} files mapped unmapped timer mt fuel mode tbl dir live
    i d f g fs l d' : run_tests files mapped unmapped timer mt fuel mode tbl dir true live i d (f :: g :: fs) = Done (l, d') -> last l = Some no_stats.
Proof.
  cbn [run_tests]. intros E. apply bind_Done in E as ([st d1] & _ & E). injection E as <- <-.
  clear. induction fs as [|h fs IH]; [done|]. exact IH.
Qed.
