(* ===== verification/DriverRuns.v ===== *)
(** * The malloc lab's driver on a correct allocator

    The whole test loop of [DriverMain] on a package that keeps the contract of
    [DriverSpec]: the runs for utilisation and speed end or report that memory ran
    out, and [run_tests] counts one error for each trace it marks as wrong, so a
    package without errors gets the full correctness score. *)

From Stdlib Require Import ZArith Lia Ascii SpecFloat.
From stdpp Require Import gmap list strings.
From S2P Require Import Prelude MemLib STree STreeMap RangeSet RangeSetProps RangeSetOps TraceFile.
From S2P Require Import Driver DriverFill DriverSpec DriverSteps DriverValid DriverEval Fcyc Doubles DriverMain DriverScores DriverDemo.

Section runs.
Context {H : Type} `{CA : CorrectAllocator H}.
Implicit Types (t : trace_t) (st : gmap Z id_state) (L : gmap Z Z) (bl : list Z).

(** ** The array of pointers *)

(** What the pointers [bl] of [n] ids are, in terms of the live payloads. *)
Record pointers_ok (h : H) (n : Z) bl st L : Prop := {
  po_inv : a_inv h L;
  po_length : length bl = Z.to_nat n;
  po_live i : 0 <= i < n -> state st i = Live -> exists p k, bl !! Z.to_nat i = Some p /\ L !! p = Some k;
  po_clear i : 0 <= i < n -> state st i = Cleared -> bl !! Z.to_nat i = Some 0;
  po_inj i j p : 0 <= i < n -> 0 <= j < n -> state st i = Live -> state st j = Live ->
    bl !! Z.to_nat i = Some p -> bl !! Z.to_nat j = Some p -> i = j
}.

(** The pointer of an id that is not freed. *)
Lemma pointer_of h n bl st L i : pointers_ok h n bl st L -> 0 <= i < n -> state st i <> Freed ->
  exists p, bl !! Z.to_nat i = Some p /\ (p = 0 \/ is_Some (L !! p)) /\
    (p = 0 -> state st i = Cleared) /\ (state st i = Cleared -> p = 0).
Proof.
  intros Hp Hi Hst. destruct (state st i) eqn:E; [|clear Hst|done].
  - exists 0. split_done; [by eapply po_clear|by left].
  - destruct (po_live _ _ _ _ _ Hp i Hi E) as (p & k & Hb & HL). exists p. split_done; [right; by eexists|].
    intros ->. pose proof (live_null _ _ (po_inv _ _ _ _ _ Hp)). congruence.
Qed.

(** Another id's pointer is not the one of [i]. *)
Lemma pointer_ne h n bl st L i j p q : pointers_ok h n bl st L -> 0 <= i < n -> 0 <= j < n -> j <> i -> state st i <> Freed ->
  bl !! Z.to_nat i = Some p -> state st j = Live -> bl !! Z.to_nat j = Some q -> q <> p.
Proof.
  intros Hp Hi Hj Hne Hst Hb Hl Hq ->. destruct (state st i) eqn:E; [|by apply Hne, (po_inj _ _ _ _ _ Hp j i p)|done].
  rewrite (po_clear _ _ _ _ _ Hp i Hi E) in Hb. injection Hb as <-.
  destruct (po_live _ _ _ _ _ Hp j Hj Hl) as (p & k & Hp' & HL). assert (p = 0) as -> by congruence.
  by rewrite (live_null _ _ (po_inv _ _ _ _ _ Hp)) in HL.
Qed.

(** [i] gets the pointer [q] and the state [s]; the others keep theirs. *)
Lemma pointers_step h h' n bl st L L' i q s :
  pointers_ok h n bl st L -> 0 <= i < n -> a_inv h' L' ->
  (forall j p k, j <> i -> 0 <= j < n -> state st j = Live -> bl !! Z.to_nat j = Some p -> L !! p = Some k ->
     L' !! p = Some k /\ (s = Live -> p <> q)) ->
  (s = Live -> is_Some (L' !! q)) -> (s = Cleared -> q = 0) ->
  pointers_ok h' n (<[Z.to_nat i := q]> bl) (<[i := s]> st) L'.
Proof.
  intros Hp Hi Hinv Ho Hq H0'. assert (Hlt : (Z.to_nat i < length bl)%nat) by (rewrite (po_length _ _ _ _ _ Hp); lia).
  assert (Hother : forall j, j <> i -> 0 <= j < n -> <[Z.to_nat i:=q]> bl !! Z.to_nat j = bl !! Z.to_nat j)
    by (intros j Hne Hj; apply list_lookup_insert_ne; lia).
  split; [done|by rewrite length_insert, (po_length _ _ _ _ _ Hp)|..].
  - intros j Hj. rewrite state_insert. case_decide as E; intros Hl.
    + subst j. destruct (Hq Hl) as [k Hk]. exists q, k. by rewrite list_lookup_insert_eq.
    + destruct (po_live _ _ _ _ _ Hp j Hj Hl) as (p & k & Hb & HL). exists p, k. rewrite Hother by done. split; [done|].
      by apply (Ho j p k).
  - intros j Hj. rewrite state_insert. case_decide as E; intros Hl.
    + subst j. rewrite list_lookup_insert_eq by done. by rewrite H0'.
    + rewrite Hother by done. by apply (po_clear _ _ _ _ _ Hp).
  - assert (Hnew : forall j p, j <> i -> 0 <= j < n -> state st j = Live -> s = Live -> bl !! Z.to_nat j = Some p -> p <> q).
    { intros j p Hne Hj Hl Hs Hb. destruct (po_live _ _ _ _ _ Hp j Hj Hl) as (p' & k & Hb' & HL).
      assert (p' = p) as -> by congruence. by apply (Ho j p k). }
    intros j k p Hj Hk. rewrite !state_insert. case_decide as Ej; case_decide as Ek; intros Hsj Hsk Hbj Hbk; try congruence.
    + subst j. rewrite list_lookup_insert_eq in Hbj by done. rewrite Hother in Hbk by done. injection Hbj as <-.
      by destruct (Hnew k q Ek Hk Hsk Hsj Hbk).
    + subst k. rewrite list_lookup_insert_eq in Hbk by done. rewrite Hother in Hbj by done. injection Hbk as <-.
      by destruct (Hnew j q Ej Hj Hsj Hsk Hbj).
    + rewrite Hother in Hbj, Hbk by done. by apply (po_inj _ _ _ _ _ Hp j k p).
Qed.

(** ** The calls *)

Lemma alloc_call h n bl st L i k :
  pointers_ok h n bl st L -> 0 <= i < n -> 0 < k < w64 ->
  exists p h', a_malloc h k = Done (p, h') /\
    (p = 0 \/ exists L', pointers_ok h' n (<[Z.to_nat i := p]> bl) (<[i := Live]> st) L').
Proof.
  intros Hp Hi Hk. destruct (a_malloc_ok _ L k (po_inv _ _ _ _ _ Hp)) as (p & h' & E & Hm); [u64_lia|lia|].
  exists p, h'. split; [done|]. destruct Hm as [?|(Hp0 & Hinv & _)]; [by left|right]. exists (<[p := k]> L).
  eapply pointers_step; try done; [|intros _; rewrite lookup_insert_eq; by eexists].
  intros j q k' Hne Hj Hl Hb HL. assert (q <> p) by congruence. split; [by rewrite lookup_insert_ne|done].
Qed.

Lemma realloc_call h n bl st L i k :
  pointers_ok h n bl st L -> 0 <= i < n -> u64 k -> state st i <> Freed ->
  exists oldp q h', bl !! Z.to_nat i = Some oldp /\ a_realloc h oldp k = Done (q, h') /\
    (q = 0 /\ k <> 0 \/ (q = 0 -> k = 0) /\
     exists L', pointers_ok h' n (<[Z.to_nat i := q]> bl) (<[i := if k =? 0 then Cleared else Live]> st) L').
Proof.
  intros Hp Hi Hk Hst. destruct (pointer_of _ _ _ _ _ i Hp Hi Hst) as (p & Hb & Hlive & _ & _).
  assert (Hpn : forall j q k', j <> i -> 0 <= j < n -> state st j = Live -> bl !! Z.to_nat j = Some q -> L !! q = Some k' ->
    delete p L !! q = Some k').
  { intros j q k' Hne Hj Hl Hq HL. rewrite lookup_delete_ne; [done|]. symmetry. by apply (pointer_ne _ _ _ _ _ i j p q Hp). }
  destruct (a_realloc_ok _ L p k (po_inv _ _ _ _ _ Hp) Hk Hlive) as (q & h' & E & Hm). exists p, q, h'. split_done.
  case_decide as E0.
  - subst k. destruct Hm as (-> & Hinv & _). right. split; [done|]. exists (delete p L). simpl. eapply pointers_step; try done.
    intros j q k' Hne Hj Hl Hq HL. split; [by apply (Hpn j)|done].
  - rewrite (proj2 (Z.eqb_neq _ _)) by done. destruct Hm as [->|(Hq0 & Hinv & _)]; [by left|].
    destruct (decide (q = 0)) as [->|Hne0]; [by left|right]. split; [done|]. exists (<[q := k]> (delete p L)).
    eapply pointers_step; try done; [|intros _; rewrite lookup_insert_eq; by eexists].
    intros j q' k' Hne Hj Hl Hb' HL. specialize (Hpn j q' k' Hne Hj Hl Hb' HL). assert (q' <> q) by congruence.
    split; [by rewrite lookup_insert_ne|done].
Qed.

Lemma free_call h n bl st L i st' :
  pointers_ok h n bl st L ->
  i = -1 /\ st' = st \/ 0 <= i < n /\ state st i <> Freed /\ st' = <[i := match state st i with Live => Freed | s => s end]> st ->
  exists p h', (if i <? 0 then p = 0 else bl !! Z.to_nat i = Some p) /\ a_free h p = Done h' /\
    exists L', pointers_ok h' n bl st' L'.
Proof.
  intros Hp [[-> ->]|(Hi & Hst & ->)].
  - destruct (a_free_ok _ L 0 (po_inv _ _ _ _ _ Hp)) as (h' & E & Hinv & _); [by left|]. exists 0, h'. split_done.
    exists L. rewrite delete_id in Hinv by (by eapply live_null, po_inv). by destruct Hp; split.
  - destruct (pointer_of _ _ _ _ _ i Hp Hi Hst) as (p & Hb & Hlive & _ & Hz).
    destruct (a_free_ok _ L p (po_inv _ _ _ _ _ Hp) Hlive) as (h' & E & Hinv & _). exists p, h'.
    rewrite (proj2 (Z.ltb_ge _ _)) by lia. split_done. exists (delete p L).
    rewrite <- (list_insert_id bl (Z.to_nat i) p) by done. eapply pointers_step; try done.
    + intros j q k Hne Hj Hl Hq HL. split; [|by destruct (state st i)].
      rewrite lookup_delete_ne; [done|]. symmetry. by apply (pointer_ne _ _ _ _ _ i j p q Hp).
    + by destruct (state st i).
    + destruct (state st i) eqn:Es; [intros _; by apply Hz|done|done].
Qed.

(** ** Utilisation and speed *)

Definition run_ok (h : H) t st : Prop :=
  (exists L, pointers_ok h (num_ids t) (blocks t) st L) /\ length (block_sizes t) = Z.to_nat (num_ids t).

Lemma set_blocks_run t i p : 0 <= i < num_ids t -> length (blocks t) = Z.to_nat (num_ids t) ->
  exists t', set_blocks t i p = Done t' /\ same_trace t t' /\ blocks t' = <[Z.to_nat i := p]> (blocks t) /\ block_sizes t' = block_sizes t.
Proof.
  intros Hi Hl. unfold set_blocks. rewrite (proj2 (Z.ltb_ge _ _)) by lia. rewrite array_set_ok by lia. cbn [mbind outcome_bind]. by eexists.
Qed.

Lemma set_sizes_run t i n : 0 <= i < num_ids t -> length (block_sizes t) = Z.to_nat (num_ids t) ->
  exists t', set_block_sizes t i n = Done t' /\ same_trace t t' /\ blocks t' = blocks t /\ length (block_sizes t') = length (block_sizes t).
Proof.
  intros Hi Hl. unfold set_block_sizes. rewrite (proj2 (Z.ltb_ge _ _)) by lia. rewrite array_set_ok by lia. cbn [mbind outcome_bind].
  eexists. split_done. simpl. by rewrite length_insert.
Qed.

Lemma at_index_some {A} (l : list A) i : 0 <= i < Z.of_nat (length l) -> exists a, at_index l i = Done a.
Proof.
  intros Hi. destruct (lookup_lt_is_Some_2 l (Z.to_nat i)) as [a Ha]; [lia|]. exists a. apply at_index_ok; [lia|done].
Qed.

(** What the cases of [next_state] say. *)
Lemma next_state_cases n st o st' : next_state n st o = Some st' ->
  let i := op_index o in
  match type o with
  | ALLOC => exists k, op_size o = Some k /\ 0 <= i < n /\ 0 < k < w64 /\ st' = <[i := Live]> st
  | REALLOC => exists k, op_size o = Some k /\ 0 <= i < n /\ u64 k /\ state st i <> Freed /\ st' = <[i := if k =? 0 then Cleared else Live]> st
  | FREE => i = -1 /\ st' = st \/
      0 <= i < n /\ state st i <> Freed /\ st' = <[i := match state st i with Live => Freed | s => s end]> st
  end.
Proof.
  unfold next_state. destruct (type o).
  - destruct (op_size o) as [k|]; [|done]. destruct (_ && _) eqn:E; [intros [= <-]|done].
    rewrite !andb_true_iff in E. destruct E as [[[[E1 E2] E3] E4] E5]. exists k. split_done; lia.
  - destruct (op_index o =? -1) eqn:E1; [intros [= <-]; left; split; [lia|done]|]. destruct (_ && _) eqn:E; [intros [= <-]|done].
    rewrite !andb_true_iff, negb_true_iff, bool_decide_eq_false in E. destruct E as [[E2 E3] E4]. right. split_done; lia.
  - destruct (op_size o) as [k|]; [|done]. destruct (_ && _) eqn:E; [intros [= <-]|done].
    rewrite !andb_true_iff, negb_true_iff, bool_decide_eq_false in E. destruct E as [[[[E1 E2] E3] E4] E5]. exists k.
    split_done; try lia. u64_lia.
Qed.

Lemma util_op_ends h t u o st st' : run_ok h t st -> next_state (num_ids t) st o = Some st' ->
  ends exits (util_op h t u o) (fun '(h', t', u') => run_ok h' t' st' /\ same_trace t t').
Proof.
  intros [[L Hp] Hlen] Hn%next_state_cases. unfold util_op. pose proof (po_length _ _ _ _ _ Hp) as Hbl. destruct (type o).
  - destruct Hn as (k & -> & Hi & Hk & ->). cbn [initialised mbind outcome_bind].
    destruct (alloc_call _ _ _ _ _ (op_index o) k Hp Hi Hk) as (p & h' & -> & Hc). cbn [mbind outcome_bind].
    destruct (p =? 0) eqn:E0; [done|]. destruct Hc as [->|[L' Hp']]; [done|].
    destruct (set_blocks_run t (op_index o) p Hi Hbl) as (t1 & -> & S1 & B1 & Z1). cbn [mbind outcome_bind].
    destruct (set_sizes_run t1 (op_index o) k) as (t2 & -> & S2 & B2 & Z2); [by rewrite (proj1 (proj2 S1))|rewrite Z1; by rewrite (proj1 (proj2 S1))|].
    pose proof (same_trans _ _ _ S1 S2) as S. cbn [mbind outcome_bind]. split; [|done]. split; [|by rewrite Z2, Z1, (proj1 (proj2 S))].
    exists L'. by rewrite (proj1 (proj2 S)), B2, B1.
  - destruct (free_call _ _ _ _ _ (op_index o) st' Hp Hn) as (p & h' & Hb & Hf & L' & Hp').
    assert (exists k, freed_size t (op_index o) = Done k) as [k ->].
    { unfold freed_size. destruct (op_index o <? 0) eqn:E; [by eexists|]. apply at_index_some. lia. }
    cbn [mbind outcome_bind]. assert (freed_block t (op_index o) = Done p) as ->.
    { unfold freed_block. destruct (op_index o <? 0) eqn:E; [by rewrite Hb|]. apply at_index_ok; [lia|done]. }
    cbn [mbind outcome_bind]. rewrite Hf. cbn [mbind outcome_bind]. split; [|done]. by split; [exists L'|].
  - destruct Hn as (k & -> & Hi & Hk & Hst & ->). cbn [initialised mbind outcome_bind].
    destruct (at_index_some (block_sizes t) (op_index o)) as [old ->]; [lia|]. cbn [mbind outcome_bind].
    destruct (realloc_call _ _ _ _ _ (op_index o) k Hp Hi Hk Hst) as (oldp & q & h' & Hb & Hc & Hq).
    rewrite (at_index_ok _ _ oldp) by (done || lia). cbn [mbind outcome_bind]. rewrite Hc. cbn [mbind outcome_bind].
    destruct ((q =? 0) && negb (k =? 0)) eqn:E; [done|]. destruct Hq as [[-> Hk0]|[_ [L' Hp']]]; [lia|].
    destruct (set_blocks_run t (op_index o) q Hi Hbl) as (t1 & -> & S1 & B1 & Z1). cbn [mbind outcome_bind].
    destruct (set_sizes_run t1 (op_index o) k) as (t2 & -> & S2 & B2 & Z2); [by rewrite (proj1 (proj2 S1))|rewrite Z1; by rewrite (proj1 (proj2 S1))|].
    pose proof (same_trans _ _ _ S1 S2) as S. cbn [mbind outcome_bind]. split; [|done]. split; [|by rewrite Z2, Z1, (proj1 (proj2 S))].
    exists L'. by rewrite (proj1 (proj2 S)), B2, B1.
Qed.

Lemma speed_op_ends h t o st st' : run_ok h t st -> next_state (num_ids t) st o = Some st' ->
  ends exits (speed_op h t o) (fun '(h', t') => run_ok h' t' st' /\ same_trace t t').
Proof.
  intros [[L Hp] Hlen] Hn%next_state_cases. unfold speed_op. pose proof (po_length _ _ _ _ _ Hp) as Hbl. destruct (type o).
  - destruct Hn as (k & -> & Hi & Hk & ->). cbn [initialised mbind outcome_bind].
    destruct (alloc_call _ _ _ _ _ (op_index o) k Hp Hi Hk) as (p & h' & -> & Hc). cbn [mbind outcome_bind].
    destruct (p =? 0) eqn:E0; [done|]. destruct Hc as [->|[L' Hp']]; [done|].
    destruct (set_blocks_run t (op_index o) p Hi Hbl) as (t1 & -> & S1 & B1 & Z1). cbn [mbind outcome_bind].
    split; [|done]. split; [|by rewrite Z1, (proj1 (proj2 S1))]. exists L'. by rewrite (proj1 (proj2 S1)), B1.
  - destruct (free_call _ _ _ _ _ (op_index o) st' Hp Hn) as (p & h' & Hb & Hf & L' & Hp').
    assert (freed_block t (op_index o) = Done p) as ->.
    { unfold freed_block. destruct (op_index o <? 0) eqn:E; [by rewrite Hb|]. apply at_index_ok; [lia|done]. }
    cbn [mbind outcome_bind]. rewrite Hf. cbn [mbind outcome_bind]. split; [|done]. by split; [exists L'|].
  - destruct Hn as (k & -> & Hi & Hk & Hst & ->). cbn [initialised mbind outcome_bind].
    destruct (realloc_call _ _ _ _ _ (op_index o) k Hp Hi Hk Hst) as (oldp & q & h' & Hb & Hc & Hq).
    rewrite (at_index_ok _ _ oldp) by (done || lia). cbn [mbind outcome_bind]. rewrite Hc. cbn [mbind outcome_bind].
    destruct ((q =? 0) && negb (k =? 0)) eqn:E; [done|]. destruct Hq as [[-> Hk0]|[_ [L' Hp']]]; [lia|].
    destruct (set_blocks_run t (op_index o) q Hi Hbl) as (t1 & -> & S1 & B1 & Z1). cbn [mbind outcome_bind].
    split; [|done]. split; [|by rewrite Z1, (proj1 (proj2 S1))]. exists L'. by rewrite (proj1 (proj2 S1)), B1.
Qed.

(** What a run for utilisation or speed starts from and leaves. *)
Definition restartable (h : H) t : Prop := well_formed t /\ mem_ok (a_mem h).

Lemma restart_ends h t : restartable h t -> ends exits (restart h) (fun h' => run_ok h' (reinit_trace t) ∅).
Proof.
  intros [(Hn & Hlen & _) Hm]. unfold restart.
  destruct (a_init_ok (a_with_mem h (mem_reset_brk (a_mem h)))) as (ok & h' & -> & Hinit).
  { rewrite mem_get_set. destruct Hm as [A B C]. split; simpl; [done|lia|lia]. }
  { by rewrite mem_get_set. }
  cbn [mbind outcome_bind]. destruct ok; [|done]. split; [|simpl; by rewrite length_replicate].
  exists ∅. split; simpl; [by apply Hinit|by rewrite length_replicate|..].
  - intros i Hi. by unfold state; rewrite lookup_empty.
  - intros i Hi _. apply lookup_replicate_2. lia.
  - intros i j p Hi Hj. by unfold state at 1; rewrite lookup_empty.
Qed.

Lemma run_restartable h t t' st : run_ok h t' st -> same_trace t t' -> well_formed t -> restartable h t'.
Proof. intros [[L Hp] _] Hs Ht. split; [by eapply same_well_formed|]. by eapply a_mem_ok, po_inv. Qed.

Lemma util_ends h t : restartable h t ->
  ends exits (eval_mm_util h t) (fun '(h', t', _) => restartable h' t' /\ same_trace t t').
Proof.
  intros Hr. pose proof Hr as [Ht _]. unfold eval_mm_util. eapply ends_bind; [by apply (restart_ends h t)|]. intros h1 Hrun.
  assert (Hgen : forall os h t1 u st, run_ok h t1 st -> same_trace t t1 -> sensible_ops (num_ids t) st os = true ->
    ends exits (util_ops h t1 u os) (fun '(h', t', _) => restartable h' t' /\ same_trace t t')).
  { clear h1 Hrun. induction os as [|o os IH]; intros h1 t1 u st Hrun Hs Hos; simpl; [by split; [eapply run_restartable|]|].
    simpl in Hos. destruct (next_state (num_ids t) st o) as [st'|] eqn:En; [|done].
    eapply ends_bind; [apply (util_op_ends h1 t1 u o st st' Hrun); by rewrite (proj1 (proj2 Hs))|].
    intros [[h2 t2] u2] [Hrun' Hs']. apply (IH h2 t2 u2 st'); [done|by eapply same_trans|done]. }
  apply (Hgen _ _ _ _ ∅); [done|done|apply Ht].
Qed.

Lemma speed_ends h t : restartable h t ->
  ends exits (eval_mm_speed h t) (fun '(h', t') => restartable h' t' /\ same_trace t t').
Proof.
  intros Hr. pose proof Hr as [Ht _]. unfold eval_mm_speed. eapply ends_bind; [by apply (restart_ends h t)|]. intros h1 Hrun.
  assert (Hgen : forall os h t1 st, run_ok h t1 st -> same_trace t t1 -> sensible_ops (num_ids t) st os = true ->
    ends exits (speed_ops h t1 os) (fun '(h', t') => restartable h' t' /\ same_trace t t')).
  { clear h1 Hrun. induction os as [|o os IH]; intros h1 t1 st Hrun Hs Hos; simpl; [by split; [eapply run_restartable|]|].
    simpl in Hos. destruct (next_state (num_ids t) st o) as [st'|] eqn:En; [|done].
    eapply ends_bind; [apply (speed_op_ends h1 t1 o st st' Hrun); by rewrite (proj1 (proj2 Hs))|].
    intros [h2 t2] [Hrun' Hs']. apply (IH h2 t2 st'); [done|by eapply same_trans|done]. }
  apply (Hgen _ _ _ ∅); [done|done|apply Ht].
Qed.
End runs.

(** ** The test loop *)

Section tests.
Context `{MA : Malloc} `{RA : Random} {H : Type} `{CA : CorrectAllocator H}.
Context (open_file : string -> option (list token)) (mapped : nat -> option Z) (unmapped : nat -> bool).
Context (timer : nat -> nat -> Z -> time) (min_time : time) (fuel : nat).
Context (mode : debug_mode_t) (tbl : gmap Z Z) (dir : string) (live : gset loc).
Hypothesis Htbl : table_ok tbl.
(** In every measurement the clock becomes meaningful after at most [n]
    doublings, and [fsec] has the fuel for them. *)
Context (n : nat).
Hypothesis Hclock : forall i, clock_ok (timer i) per_rep min_time n fcyc_min_reps.
Hypothesis Hfuel : (n < fuel)%nat /\ (Z.to_nat fcyc_maxsamples < fuel)%nat.

(** The library gives the driver a range set. *)
Hypothesis Hlive : is_Some (malloc live).

Definition good_file (name : string) : Prop :=
  exists t, open_trace open_file dir name = Done t /\ well_formed t.

Lemma mem_init_ok i m : mem_init (mapped i) = Done m -> mem_ok m.
Proof. unfold mem_init. destruct (mapped i) as [a|]; [|done]. intros [= <-]. split; simpl; [done|lia|unfold MAX_HEAP_SIZE; lia]. Qed.

Lemma speed_measure i h t : restartable h t ->
  ends exits (measure timer min_time fuel i (fun '(h, t) => eval_mm_speed h t) (h, t)) (fun '(_, (h', t')) => restartable h' t').
Proof using Hclock Hfuel CA.
  intros Hr. unfold measure. eapply ends_bind.
  - change fcyc_kbest with (Z.of_nat 3).
    apply (fsec_ends (fun '(h, t) => eval_mm_speed h t) (timer i) per_rep close_times 3 fcyc_maxsamples min_time
             (fun '(h, t) => restartable h t) exits) with (n := n); [|lia|by apply Hclock|apply Hfuel|apply Hfuel|done].
    intros [h1 t1] Hr1. pose proof (speed_ends h1 t1 Hr1) as He. destruct (eval_mm_speed h1 t1) as [[h2 t2]|e]; [|done]. by destruct He.
  - intros [r [h1 t1]] [Hr1 _]. done.
Qed.

(** The messages of a test: one if the trace counts as wrong, none otherwise. *)
Definition errors_of (l : list stats_t) : nat := length (filter (fun s => s_valid s = false) l).

Lemma served_cases d (out : outcome (bool * driver H)) (post : driver H -> Prop) : served d out post ->
  ends exits out (fun '(ok, d') => if (ok : bool) then post d' /\ length (messages d') = length (messages d)
    else length (messages d') = S (length (messages d)) /\ exists m, rs_ok (range_set d') m).
Proof.
  intros [[-> _]|[(d' & -> & Hp & Hm)|(d' & op & r & -> & _ & Hm & Hrs)]]; simpl; [done|by rewrite Hm|].
  rewrite Hm, length_app. simpl. split; [lia|done].
Qed.

Lemma served_twice d : after_run d -> 
  ends exits ('(ok, d1) ← eval_mm_valid mode tbl d live; if (ok : bool) then eval_mm_valid mode tbl d1 live else Done (false, d1))
    (fun '(ok, d') => (exists m, rs_ok (range_set d') m) /\ 
       if (ok : bool) then restartable (package d') (trace d') /\ length (messages d') = length (messages d)
       else length (messages d') = S (length (messages d))).
Proof using Hfuel Htbl CA.
  intros Hd. eapply ends_bind; [apply served_cases, (eval_valid_served mode tbl Htbl d live Hd)|]. intros [[|] d1] H1'; [|by destruct H1'].
  destruct H1' as [[Hd1 _] Em]. pose proof (served_cases d1 _ _ (eval_valid_served mode tbl Htbl d1 live Hd1)) as H2'.
  destruct (eval_mm_valid mode tbl d1 live) as [[[|] d2]|e]; [| |done]; rewrite <- Em.
  - destruct H2' as [[(Ht & Hm & Hrs) _] Em2]. by split; [|split; [split|]].
  - by destruct H2'.
Qed.

Lemma run_test_ends i d name : good_file name ->
  ends exits (run_test open_file mapped unmapped timer min_time fuel mode tbl dir false live i d name)
    (fun '(st, d') => length (messages d') = (length (messages d) + errors_of [st])%nat).
Proof using Hclock Hfuel Htbl Hlive CA.
  intros (t & Ht & Hwf). unfold run_test. destruct (mem_init (mapped i)) as [m|e] eqn:Em.
  2:{ unfold mem_init in Em. destruct (mapped i) as [a|]; [done|]. by injection Em as <-. }
  cbn [mbind outcome_bind]. destruct (new_range_set live) as [rs|e] eqn:Ers.
  2:{ unfold new_range_set in Ers. destruct Hlive as [l El]. rewrite El in Ers. unfold tree_new in Ers.
      destruct (malloc ({[l]} ∪ live)); simpl in Ers; [done|]. by injection Ers as <-. }
  cbn [mbind outcome_bind]. rewrite Ht. cbn [mbind outcome_bind].
  pose proof (served_twice (Driver (a_with_mem (package d) m) t rs (seed d) (messages d))) as Htw. simpl in Htw.
  assert (Hd : after_run (Driver (a_with_mem (package d) m) t rs (seed d) (messages d))).
  { split; [done|]. split; [simpl; rewrite mem_get_set; by eapply mem_init_ok|]. exists ∅. by apply (new_range_set_ok live rs). }
  specialize (Htw Hd).
  destruct (eval_mm_valid _ _ _ live) as [[ok1 d1]|e]; [|done]. cbn [mbind outcome_bind] in Htw |- *.
  destruct (if ok1 then _ else _) as [[ok d2]|e]; [|done]. cbn [mbind outcome_bind]. destruct Htw as [[m2 Hrs] Hm].
  assert (Hend : forall st d', length (messages d') = (length (messages d) + errors_of [st])%nat -> range_set d' = range_set d2 ->
    ends exits (_ ← free_range_set (range_set d'); _ ← mem_deinit (a_mem (package d')) (unmapped i); Done (st, d'))
      (fun '(st, d') => length (messages d') = (length (messages d) + errors_of [st])%nat)).
  { intros st d' Hl ->. rewrite (free_range_set_ok _ _ Hrs). cbn [mbind outcome_bind]. unfold mem_deinit. by destruct (unmapped i). }
  destruct ok.
  - destruct Hm as [Hr Hm]. pose proof (util_ends _ _ Hr) as Hu. destruct (eval_mm_util _ _) as [[[h t2] u]|e]; [|done].
    cbn [mbind outcome_bind]. pose proof (speed_measure i h t2 (proj1 Hu)) as Hs.
    destruct (measure _ _ _ _ _ _) as [[s [h3 t3]]|e]; [|done]. cbn [mbind outcome_bind]. apply Hend; [|done]. simpl. rewrite Hm. unfold errors_of. simpl. lia.
  - cbn [mbind outcome_bind]. apply Hend; [|done]. rewrite Hm. unfold errors_of. simpl. lia.
Qed.

Lemma run_tests_ends i d files : Forall good_file files ->
  ends exits (run_tests open_file mapped unmapped timer min_time fuel mode tbl dir false live i d files)
    (fun '(l, d') => length l = length files /\ length (messages d') = (length (messages d) + errors_of l)%nat).
Proof using Hclock Hfuel Htbl Hlive CA.
  intros Hf. revert i d. induction Hf as [|f files Hf Hfs IH]; intros i d; simpl; [split; [done|unfold errors_of; simpl; lia]|].
  eapply ends_bind; [by apply run_test_ends|]. intros [st d1] H1'. eapply ends_bind; [apply IH|]. intros [l d2] [Hl H2'].
  simpl. split; [by rewrite Hl|]. rewrite H2', H1'. unfold errors_of. rewrite !filter_cons, filter_nil. case_decide; simpl; lia.
Qed.
End tests.

Lemma numcorrect_count l : numcorrect (accumulate l) + Z.of_nat (errors_of l) = Z.of_nat (length l).
Proof.
  unfold accumulate. assert (Hgen : forall a, numcorrect (foldl add_stats a l) + Z.of_nat (errors_of l) = numcorrect a + Z.of_nat (length l)).
  { induction l as [|s l IH]; intros a; simpl; [unfold errors_of; simpl; lia|]. unfold errors_of in *. rewrite filter_cons.
    specialize (IH (add_stats a s)). unfold add_stats in *. simpl in IH. case_decide as E; destruct (s_valid s); simpl in *; try done; lia. }
  rewrite Hgen. done.
Qed.

(** C6: the driver grades a correct package.  Whatever package keeps the contract,
    on any trace files that can be read and name ids sensibly, in each debug mode
    and with a clock that works: the tests end, or the program exits because memory
    or a mapping is not to be had; it counts exactly one error for each trace it
    marks as wrong; and when there is none, up to 1000 traces and the thresholds of
    the checkpoint give exactly 100 points for correctness. *)
Theorem driver_grades_correct_package `{MA : Malloc} `{RA : Random} {H : Type} `{CA : CorrectAllocator H}
    (open_file : string -> option (list token)) mapped unmapped timer min_time fuel n mode tbl dir live (h : H) s ref files :
  table_ok tbl -> (forall i, clock_ok (timer i) per_rep min_time n fcyc_min_reps) ->
  (n < fuel)%nat /\ (Z.to_nat fcyc_maxsamples < fuel)%nat ->
  is_Some (malloc live) -> Forall (good_file open_file dir) files -> (length files <= 1000)%nat ->
  match main_tests open_file mapped unmapped timer min_time fuel mode tbl dir false live h s ref files with
  | Fault e => e = Exited 1
  | Done (l, errors, sc) =>
      length l = length files /\ errors = Z.of_nat (errors_of l) /\
      (errors = 0 -> reaches (average_util (accumulate l)) (average_throughput (accumulate l)) REQ_SPACE_CHECKPOINT
                       (ref * REQ_SPEED_RATIO_CHECKPOINT)%dbl = true ->
       points_checkpoint1 sc = of_int 100)
  end.
Proof.
  intros Ht Hc Hf Hlive Hfiles Hlen. unfold main_tests. set (d0 := Driver h _ _ _ _).
  pose proof (run_tests_ends open_file mapped unmapped timer min_time fuel mode tbl dir live Ht n Hc Hf Hlive 0 d0 files Hfiles) as He.
  destruct (run_tests _ _ _ _ _ _ _ _ _ _ _ _ _ _) as [[l d]|e]; [|done]. destruct He as [Hl He]. cbn [mbind outcome_bind].
  unfold errors. rewrite He. simpl. split_done. intros H0' Hr. rewrite H0'. apply checkpoint1_full; [|lia|done].
  pose proof (numcorrect_count l). lia.
Qed.

(** ** A run *)

Definition demo_files (path : string) : option (list token) :=
  if String.eqb path "./traces/demo.rep" then Some (print_trace demo_trace) else None.
Definition ten_ms : time := exist _ (literal 1 100) eq_refl.
Definition demo_main : outcome (list stats_t * Z * score) :=
  @main_tests malloc_first constant_random bump _ demo_files (fun _ => Some 4096) (fun _ => true) (fun _ _ _ => ten_ms) ten_ms 30
    DBG_EXPENSIVE demo_table TRACEDIR false ∅ demo_bump 1 (of_int 1) ["demo.rep"]%string.

Lemma demo_clock_ok : clock_ok (fun _ _ => ten_ms) per_rep ten_ms 0 fcyc_min_reps.
Proof.
  split; [vm_compute; discriminate|vm_compute; discriminate|vm_compute; reflexivity|].
  intros i m Hm. assert (m = 0%nat) as -> by lia. vm_compute. reflexivity.
Qed.

Lemma driver_grades_correct_package_witness : exists l sc, demo_main = Done (l, 0, sc) /\ length l = 1%nat.
Proof.
  pose proof (@driver_grades_correct_package malloc_first constant_random bump _ _ _ demo_files (fun _ => Some 4096)
    (fun _ => true) (fun _ _ _ => ten_ms) ten_ms 30 0 DBG_EXPENSIVE demo_table TRACEDIR ∅ demo_bump 1 (of_int 1) ["demo.rep"%string]
    demo_table_ok (fun _ => demo_clock_ok) ltac:(vm_compute; lia) ltac:(by eexists)
    ltac:(apply Forall_cons; split; [exists demo_trace; split; [vm_compute; reflexivity|split_done; simpl; lia]|apply Forall_nil_2])
    ltac:(simpl; lia)) as Hg.
  fold demo_main in Hg.
  assert (Hv : match demo_main with Done (_, e, _) => e =? 0 | Fault _ => false end = true) by (vm_compute; reflexivity).
  destruct demo_main as [[[l e] sc]|e]; [|discriminate Hv]. apply Z.eqb_eq in Hv. subst e. exists l, sc. by destruct Hg.
Defined.
