(* ===== verification/HwList.v ===== *)
(** * The linked list of homework 1

    [homework-1-FreezeKickerz/linked_list.c]: a doubly linked list of [int]s
    reached through its head pointer only ([Node** head]); the functions take
    and return the head together with the store of nodes.  What the display
    functions print is the text of their [printf] calls. *)

From Stdlib Require Import ZArith Lia.
From Stdlib Require String DecimalString.
From stdpp Require Import gmap list strings.
From S2P Require Import Prelude Dll.

(** ** Data and operations *)

Record hw_list := HwL { hw_head : ptr; hw_nodes : gmap loc (node Z) }.

(** The decimal text of an [int], as [printf("%d")] writes it. *)
Definition show_int (z : Z) : string :=
  DecimalString.NilZero.string_of_int (Z.to_int z).

Section operations.
Context `{Malloc}.

(** [malloc]'s result is not checked: the write through [NULL] is a fault. *)
Definition createNode (st : gmap loc (node Z)) (d : Z) : outcome (loc * gmap loc (node Z)) :=
  match malloc (dom st) with
  | None => Fault NullDeref
  | Some k => Done (k, <[k := Node None None d]> st)
  end.

Definition insertAtBeginning (s : hw_list) (d : Z) : outcome hw_list :=
  '(k, st) ← createNode (hw_nodes s) d;
  match hw_head s with
  | None => Done (HwL (Some k) st)
  | Some _ =>
      st ← set_next st (Some k) (hw_head s);
      st ← set_prev st (hw_head s) (Some k);
      Done (HwL (Some k) st)
  end.

Definition insertAtEnd (s : hw_list) (d : Z) : outcome hw_list :=
  '(k, st) ← createNode (hw_nodes s) d;
  match hw_head s with
  | None => Done (HwL (Some k) st)
  | Some _ =>
      temp ← walk (S (size st)) st (fun n => bool_decide (next n = None)) (hw_head s);
      st ← set_next st temp (Some k);
      st ← set_prev st (Some k) temp;
      Done (HwL (hw_head s) st)
  end.

Definition deleteNode (s : hw_list) (value : Z) : outcome hw_list :=
  match hw_head s with
  | None => Done s
  | Some _ =>
      temp ← walk (S (size (hw_nodes s))) (hw_nodes s) (fun n => bool_decide (data n = value))
                  (hw_head s);
      match temp with
      | None => Done s
      | Some _ =>
          n ← get_node (hw_nodes s) temp;
          if decide (temp = hw_head s) then
            st ← set_prev_if (hw_nodes s) (next n) None;
            st ← free_node st temp;
            Done (HwL (next n) st)
          else
            st ← set_next_if (hw_nodes s) (prev n) (next n);
            n ← get_node st temp;
            st ← set_prev_if st (next n) (prev n);
            st ← free_node st temp;
            Done (HwL (hw_head s) st)
      end
  end.

(** The text of the numbers met by following [next] (or [prev]). *)
Fixpoint print_forward (fuel : nat) (st : gmap loc (node Z)) (temp : ptr) : outcome string :=
  match fuel with
  | O => Fault Diverges
  | S fuel =>
      match temp with
      | None => Done ""%string
      | Some _ =>
          n ← get_node st temp; out ← print_forward fuel st (next n);
          Done (show_int (data n) +:+ " " +:+ out)%string
      end
  end.

Fixpoint print_backward (fuel : nat) (st : gmap loc (node Z)) (temp : ptr) : outcome string :=
  match fuel with
  | O => Fault Diverges
  | S fuel =>
      match temp with
      | None => Done ""%string
      | Some _ =>
          n ← get_node st temp; out ← print_backward fuel st (prev n);
          Done (show_int (data n) +:+ " " +:+ out)%string
      end
  end.

Definition newline : string := String (Ascii.ascii_of_nat 10) EmptyString.

Definition displayForward (s : hw_list) : outcome string :=
  out ← print_forward (S (size (hw_nodes s))) (hw_nodes s) (hw_head s);
  Done ("List (Forward): " +:+ out +:+ newline)%string.

Definition displayBackward (s : hw_list) : outcome string :=
  match hw_head s with
  | None => Done ""%string
  | Some _ =>
      temp ← walk (S (size (hw_nodes s))) (hw_nodes s)
                  (fun n => bool_decide (next n = None)) (hw_head s);
      out ← print_backward (S (size (hw_nodes s))) (hw_nodes s) temp;
      Done ("List (Backward): " +:+ out +:+ newline)%string
  end.
End operations.

(** ** The list a structure represents *)

Record hw_ok (s : hw_list) (ns : list (loc * Z)) : Prop := {
  hw_rep : rep (hw_nodes s) ns;
  hw_hd : hw_head s = head_of ns None
}.

(** The numbers of a list as the display functions write them. *)
Definition show_ints (ds : list Z) : string :=
  foldr (fun d out => show_int d +:+ " " +:+ out)%string ""%string ds.

Section proofs.
Context `{Malloc}.
Implicit Types (s : hw_list) (xs ys ns : list (loc * Z)) (st : gmap loc (node Z)).

Lemma hw_empty_ok : hw_ok (HwL None ∅) [].
Proof. by split. Qed.

Lemma createNode_Done st d k st' :
  createNode st d = Done (k, st') -> k ∉ dom st /\ st' = <[k := Node None None d]> st.
Proof.
  unfold createNode. case_match eqn:Hm; [|done]. intros [= <- <-].
  split; [by eapply malloc_fresh|done].
Qed.

Lemma link_prev_own st k n q :
  link_prev (<[k := n]> st) (Some k) q = <[k := Node (next n) q (data n)]> st.
Proof. simpl. by rewrite alter_insert_eq. Qed.
Lemma link_next_own st k n q :
  link_next (<[k := n]> st) (Some k) q = <[k := Node q (prev n) (data n)]> st.
Proof. simpl. by rewrite alter_insert_eq. Qed.

Lemma insertAtBeginning_ok s ns d k :
  hw_ok s ns -> malloc (dom (hw_nodes s)) = Some k ->
  exists s', insertAtBeginning s d = Done s' /\ hw_ok s' ((k, d) :: ns).
Proof.
  intros [Hr Hh] Hm. pose proof (malloc_fresh _ _ Hm) as Hk.
  unfold insertAtBeginning, createNode. rewrite Hm. cbn [mbind outcome_bind].
  pose proof (rep_insert _ [] ns k d Hr Hk) as Hr'. simpl in Hr'.
  destruct ns as [|[h dh] ns]; rewrite Hh; cbn [head_of]; [by eexists|].
  assert (Hhd : h ∈ dom (hw_nodes s)) by (apply (rep_elem_dom _ _ _ Hr); set_solver).
  rewrite set_next_Done by set_solver. cbn [mbind outcome_bind].
  rewrite link_next_own, set_prev_Done by set_solver.
  cbn [mbind outcome_bind]. eexists. split; [done|]. split; [|done].
  rewrite link_prev_insert by set_solver. done.
Qed.

Lemma insertAtEnd_ok s ns d k :
  hw_ok s ns -> malloc (dom (hw_nodes s)) = Some k ->
  exists s', insertAtEnd s d = Done s' /\ hw_ok s' (ns ++ [(k, d)]).
Proof.
  intros [Hr Hh] Hm. pose proof (malloc_fresh _ _ Hm) as Hk.
  unfold insertAtEnd, createNode. rewrite Hm. cbn [mbind outcome_bind].
  pose proof (rep_insert (hw_nodes s) ns [] k d) as Hr'. rewrite app_nil_r in Hr'.
  specialize (Hr' Hr Hk). simpl in Hr'.
  destruct ns as [|[h dh] ns]; rewrite Hh; cbn [head_of]; [by eexists|].
  set (st := <[k := Node None None d]> (hw_nodes s)).
  assert (Hkn : k ∉ ((h, dh) :: ns).*1) by by rewrite <- (rep_elem_dom _ _ _ Hr).
  assert (Hs : dseg st None ((h, dh) :: ns) None).
  { eapply dseg_frame; [|by apply rep_seg]. intros. apply lookup_insert_ne. set_solver. }
  rewrite (walk_last _ _ None h dh ns) by
    (done || (unfold st; rewrite map_size_insert_None, (rep_size _ _ Hr) by
                (by apply not_elem_of_dom); simpl; lia)).
  cbn [mbind outcome_bind].
  destruct (last_of (Some h) ns) as [t|] eqn:Ht; [|by apply last_of_None in Ht as [? _]].
  assert (Htd : t ∈ dom (hw_nodes s)).
  { eapply (rep_last_dom _ ((h, dh) :: ns) []); [by rewrite app_nil_r|done]. }
  unfold st. rewrite set_next_Done by set_solver. cbn [mbind outcome_bind].
  rewrite link_next_insert by set_solver. rewrite set_prev_Done by set_solver.
  cbn [mbind outcome_bind]. eexists. split; [done|]. split; [|done].
  rewrite link_prev_own. simpl in Hr'. by rewrite Ht in Hr'.
Qed.

Lemma deleteNode_absent s ns v :
  hw_ok s ns -> v ∉ ns.*2 -> deleteNode s v = Done s.
Proof.
  intros [Hr Hh] Hv. unfold deleteNode. rewrite Hh.
  destruct ns as [|[h dh] ns]; [done|]. cbn [head_of].
  destruct (walk_data (S (size (hw_nodes s))) (hw_nodes s) None ((h, dh) :: ns)
              (fun d => bool_decide (d = v))) as [(ys & c & dc & zs & Hxs & _ & Hdc & Hw)|[_ Hw]];
    [by apply rep_seg|by apply rep_fuel| |].
  - apply bool_decide_eq_true in Hdc as ->. rewrite Hxs, fmap_app in Hv. set_solver.
  - cbn [head_of] in Hw. by rewrite Hw.
Qed.

Lemma deleteNode_present s xs k v ys :
  hw_ok s (xs ++ (k, v) :: ys) -> v ∉ xs.*2 ->
  exists s', deleteNode s v = Done s' /\ hw_ok s' (xs ++ ys).
Proof.
  intros [Hr Hh] Hv. unfold deleteNode.
  assert (Hw : walk (S (size (hw_nodes s))) (hw_nodes s)
                 (fun n => bool_decide (data n = v)) (hw_head s) = Done (Some k)).
  { rewrite Hh. destruct (walk_data (S (size (hw_nodes s))) (hw_nodes s) None
      (xs ++ (k, v) :: ys) (fun d => bool_decide (d = v)))
      as [(ys' & c & dc & zs & Hxs & Hys & Hdc & Hw)|[Hall Hw]];
      [by apply rep_seg|by apply rep_fuel| |].
    - rewrite Hw. apply bool_decide_eq_true in Hdc as ->.
      eapply (first_split_eq (fun x => bool_decide (x.2 = v))) in Hxs as (-> & [= ->] & ->);
        try done; [|by apply bool_decide_eq_true..].
      apply Forall_forall. intros [x dx] Hx. apply bool_decide_eq_false. simpl. intros ->.
      apply Hv. by apply (list_elem_of_fmap_2 snd) in Hx.
    - rewrite Forall_forall in Hall. specialize (Hall (k, v)).
      rewrite bool_decide_eq_false in Hall. exfalso. apply Hall; [set_solver|done]. }
  rewrite Hw. destruct (hw_head s) eqn:Hhd; [|by destruct xs as [|[]]].
  cbn [mbind outcome_bind]. rewrite (get_node_rep _ _ _ _ _ Hr). cbn [mbind outcome_bind next prev].
  pose proof (rep_nodup _ _ Hr) as Hnd.
  destruct (unlink_steps _ _ _ _ _ Hr) as (E1 & E2 & E3 & E4 & E5).
  destruct (rep_split_nodup _ _ _ _ Hnd) as (_ & _ & Hkx & _).
  case_decide as Hd.
  - destruct xs as [|[x dx] xs]; [|simpl in *; set_solver]. cbn [last_of app link_next] in *.
    rewrite E3. cbn [mbind outcome_bind]. rewrite (free_node_Done _ _ E4).
    cbn [mbind outcome_bind]. by eexists.
  - rewrite E1. cbn [mbind outcome_bind]. rewrite E2. cbn [mbind outcome_bind prev next].
    rewrite E3. cbn [mbind outcome_bind]. rewrite (free_node_Done _ _ E4).
    cbn [mbind outcome_bind]. eexists. split; [done|]. split; [done|].
    simpl. rewrite Hh. destruct xs as [|[x dx] xs]; simpl in *; congruence.
Qed.

Lemma print_forward_ok fuel st pv ns :
  dseg st pv ns None -> (length ns < fuel)%nat ->
  print_forward fuel st (head_of ns None) = Done (show_ints ns.*2).
Proof.
  revert fuel pv. induction ns as [|[l d] ns IH]; intros [|fuel] pv Hs Hlen;
    simpl in *; try lia; [done|].
  destruct Hs as [Hl Hs]. rewrite Hl. simpl. by rewrite (IH fuel _ Hs) by lia.
Qed.

Lemma print_backward_ok fuel st ns nx :
  dseg st None ns nx -> (length ns < fuel)%nat ->
  print_backward fuel st (last_of None ns) = Done (show_ints (reverse ns.*2)).
Proof.
  revert fuel nx. induction ns as [|[l d] ns IH] using rev_ind; intros [|fuel] nx Hs Hlen;
    simpl in *; try lia; [done|].
  rewrite length_app in Hlen. simpl in Hlen.
  apply dseg_app in Hs as [Hs [Hl _]]. rewrite last_of_app. simpl in *.
  rewrite Hl. simpl. rewrite (IH fuel _ Hs) by lia. simpl.
  by rewrite fmap_app, reverse_app.
Qed.
End proofs.

(** ** Properties *)

(** [deleteNode] on a well-formed list of homework 1 never faults, removes
    exactly the first node that holds the value (none when the value is absent),
    and leaves a well-formed doubly linked list of the other nodes, in order. *)
Theorem hw_delete_first s ns v :
  hw_ok s ns ->
  exists s' ns', deleteNode s v = Done s' /\ hw_ok s' ns' /\
    ns' `sublist_of` ns /\ ns'.*2 = delete_first v ns.*2.
Proof.
  intros Hok. destruct (find_split v ns) as [Hv|(xs & k & ys & -> & Hv)].
  - exists s, ns. rewrite (deleteNode_absent _ _ _ Hok Hv), delete_first_notin by done.
    split_done.
  - destruct (deleteNode_present _ _ _ _ _ Hok Hv) as (s' & -> & Hok').
    exists s', (xs ++ ys). split_done.
    + apply sublist_app; [done|]. by apply sublist_cons.
    + by rewrite !fmap_app, fmap_cons, delete_first_app.
Qed.

Definition hw_example : hw_list :=
  HwL (Some 1%positive)
    {[1%positive := Node (Some 2%positive) None 7; 2%positive := Node (Some 3%positive) (Some 1%positive) (-4);
      3%positive := Node None (Some 2%positive) 7]}.

Lemma hw_example_ok : hw_ok hw_example [(1%positive, 7); (2%positive, -4); (3%positive, 7)].
Proof. split; [prove_rep|reflexivity]. Qed.

Lemma hw_delete_first_witness :
  exists s' ns', deleteNode hw_example (-4) = Done s' /\ hw_ok s' ns' /\
    ns' `sublist_of` [(1%positive, 7); (2%positive, -4); (3%positive, 7)] /\
    ns'.*2 = delete_first (-4) [7; -4; 7].
Proof. exact (hw_delete_first hw_example _ (-4) hw_example_ok). Defined.

(** The two display functions of homework 1 print the same numbers in
    opposite orders: the [next] chain and the [prev] chain of a well-formed
    non-empty list agree. *)
Theorem hw_display_reverse s ns :
  hw_ok s ns -> ns <> [] ->
  displayForward s = Done ("List (Forward): " +:+ show_ints ns.*2 +:+ newline)%string /\
  displayBackward s = Done ("List (Backward): " +:+ show_ints (reverse ns.*2) +:+ newline)%string.
Proof.
  intros [Hr Hh] Hne. unfold displayForward, displayBackward. rewrite Hh.
  pose proof (rep_seg _ _ Hr) as Hs. pose proof (rep_fuel _ _ Hr) as Hf.
  rewrite (print_forward_ok _ _ None) by done. split; [done|].
  destruct ns as [|[h d] ns]; [done|]. cbn [head_of].
  rewrite (walk_last _ _ None h d ns) by (done || simpl in Hf; lia). cbn [mbind outcome_bind].
  by rewrite (print_backward_ok _ _ ((h, d) :: ns) None).
Qed.

Lemma hw_display_reverse_witness :
  displayForward hw_example = Done ("List (Forward): " +:+ show_ints [7; -4; 7] +:+ newline)%string /\
  displayBackward hw_example = Done ("List (Backward): " +:+ show_ints [7; -4; 7] +:+ newline)%string.
Proof. apply (hw_display_reverse hw_example _ hw_example_ok). discriminate. Defined.
