(* ===== verification/Homework.v ===== *)
(** * The smaller programs of homework 1

    Tagged unions ([homework-1-FreezeKickerz/polymorphic_ints.c]), arrays with a
    flexible member ([zla.c]) and kernel objects with reference counts
    ([kobject.c]), a Module each. *)

From Stdlib Require Import ZArith Lia Ascii.
From Stdlib Require String.
From stdpp Require Import gmap list strings.
From S2P Require Import Prelude Dll HwList.
Open Scope Z_scope.

(** ** polymorphic_ints.c *)

Module PolyInts.

(** The values of the enumeration, and the tagged union over its four bytes. *)
Definition INT : Z := 0.
Definition CHAR4 : Z := 1.

Record TaggedUnion := Tagged { tag : Z; byte0 : Z; byte1 : Z; byte2 : Z; byte3 : Z }.

(** [data.asInt] reads the bytes as a little-endian signed word. *)
Definition asInt (u : TaggedUnion) : Z :=
  let w := byte0 u + 256 * byte1 u + 65536 * byte2 u + 16777216 * byte3 u in
  if w <? 2147483648 then w else w - 4294967296.

(** Storing an [int] in [data.asInt]. *)
Definition of_int (z : Z) : TaggedUnion :=
  let w := z mod 4294967296 in
  Tagged INT (w mod 256) (w / 256 mod 256) (w / 65536 mod 256) (w / 16777216 mod 256).

Definition of_chars (a b c d : Z) : TaggedUnion := Tagged CHAR4 a b c d.

Fixpoint add_loop (unions : list TaggedUnion) (i : nat) (count : nat) (sum : Z) : outcome Z :=
  match count with
  | O => Done sum
  | S count =>
      u ← array_get unions i;
      sum ← (if tag u =? INT then add_int sum (asInt u)
             else if tag u =? CHAR4 then add_int sum (byte0 u + byte1 u + byte2 u + byte3 u)
             else Done sum);
      add_loop unions (S i) count sum
  end.

Definition addTaggedUnions (unions : list TaggedUnion) (count : nat) : outcome Z :=
  add_loop unions 0 count 0.

(** What a union stands for. *)
Definition value (u : TaggedUnion) : Z :=
  if tag u =? INT then asInt u
  else if tag u =? CHAR4 then byte0 u + byte1 u + byte2 u + byte3 u
  else 0.

Definition total (us : list TaggedUnion) : Z := foldr (fun u n => value u + n) 0 us.

(** Every partial sum from [sum] on fits an [int]. *)
Fixpoint sums_fit (sum : Z) (us : list TaggedUnion) : Prop :=
  match us with [] => True | u :: us => int_ok (sum + value u) /\ sums_fit (sum + value u) us end.

Lemma add_loop_ok us vs sum :
  int_ok sum -> forall r,
  add_loop (us ++ vs) (length us) (length vs) sum = Done r <-> sums_fit sum vs /\ r = sum + total vs.
Proof.
  revert us sum. induction vs as [|u vs IH]; intros us sum Hs r; simpl.
  { rewrite Z.add_0_r. split; [intros [= ->]; done|by intros [_ ->]]. }
  unfold array_get. rewrite list_lookup_middle by done. cbn [mbind outcome_bind].
  replace (us ++ u :: vs) with ((us ++ [u]) ++ vs) by by rewrite <- app_assoc.
  replace (S (length us)) with (length (us ++ [u])) by (rewrite length_app; simpl; lia).
  assert (Hstep : (if tag u =? INT then add_int sum (asInt u)
      else if tag u =? CHAR4 then add_int sum (byte0 u + byte1 u + byte2 u + byte3 u) else Done sum)
    = if decide (int_ok (sum + value u)) then Done (sum + value u) else Fault SignedOverflow).
  { unfold add_int, value. destruct (tag u =? INT); [done|]. destruct (tag u =? CHAR4); [done|].
    rewrite Z.add_0_r. by rewrite decide_True. }
  rewrite Hstep. case_decide as Hok; cbn [mbind outcome_bind].
  - rewrite IH by done. rewrite Z.add_assoc. tauto.
  - split; [done|tauto].
Qed.

(** [addTaggedUnions] computes the sum of the values of the unions, and does
    so exactly when every partial sum fits an [int]; otherwise the addition
    overflows. *)
Theorem add_is_total us r :
  addTaggedUnions us (length us) = Done r <-> sums_fit 0 us /\ r = total us.
Proof. apply (add_loop_ok [] us 0). done. Qed.

Lemma asInt_of_int z : int_ok z -> value (of_int z) = z.
Proof.
  intros [Hlo Hhi]. unfold int_min, int_max in *. unfold value, asInt, of_int. simpl.
  set (w := z mod 4294967296). assert (Hw : 0 <= w < 4294967296) by (apply Z.mod_pos_bound; lia).
  assert (Hsum : w mod 256 + 256 * (w / 256 mod 256) + 65536 * (w / 65536 mod 256) + 16777216 * (w / 16777216 mod 256) = w).
  { pose proof (Z.div_mod w 256 ltac:(lia)). pose proof (Z.div_mod (w / 256) 256 ltac:(lia)).
    pose proof (Z.div_mod (w / 65536) 256 ltac:(lia)).
    assert (w / 256 / 256 = w / 65536) by (rewrite Z.div_div by lia; done).
    assert (w / 65536 / 256 = w / 16777216) by (rewrite Z.div_div by lia; done).
    rewrite (Z.mod_small (w / 16777216)); [lia|]. split; [apply Z.div_pos; lia|apply Z.div_lt_upper_bound; lia]. }
  rewrite Hsum. destruct (Z.lt_ge_cases z 0).
  - assert (w = z + 4294967296) as -> by (unfold w; symmetry; apply Z.mod_unique with (-1); lia).
    rewrite (proj2 (Z.ltb_ge _ _)) by lia. lia.
  - assert (w = z) as -> by (unfold w; apply Z.mod_small; lia). by rewrite (proj2 (Z.ltb_lt _ _)) by lia.
Qed.

Example add_sample : addTaggedUnions [of_int 42; of_chars 10 20 30 40; of_int (-100)] 3 = Done 42.
Proof. reflexivity. Qed.

End PolyInts.

(** ** zla.c *)

Module Zla.

(** [data] is what fits in the allocated block; cells not written yet are
    [None]. *)
Record ZeroLengthArray := Zla { asize : Z; adata : list (option Z) }.

(** The bytes [malloc] is asked for: [num_elements] becomes a [size_t]. *)
Definition zla_bytes (num_elements : Z) : Z := add64 4 (mul64 (wrap64 num_elements) 4).

(** [granted n]: whether [malloc] returns a block of [n] bytes. *)
Definition create_zero_length_array (granted : Z -> bool) (num_elements : Z) : outcome ZeroLengthArray :=
  let n := zla_bytes num_elements in
  if granted n then
    if 4 <=? n then Done (Zla num_elements (replicate (Z.to_nat ((n - 4) / 4)) None))
    else Fault OutOfRange
  else Fault NullDeref.

Fixpoint print_loop (arr : ZeroLengthArray) (j : nat) (n : nat) : outcome string :=
  match n with
  | O => Done ""%string
  | S n =>
      cell ← array_get (adata arr) j;
      match cell with
      | None => Fault Uninitialised
      | Some v => rest ← print_loop arr (S j) n; Done (show_int v +:+ " " +:+ rest)
      end
  end.

Definition newline : string := String (ascii_of_nat 10) EmptyString.

Definition print_zero_length_array (arr : ZeroLengthArray) : outcome string :=
  cells ← print_loop arr 0 (Z.to_nat (asize arr));
  Done ("List elements (size = " +:+ show_int (asize arr) +:+ "):" +:+ newline +:+ cells +:+ newline).

Fixpoint set_loop (arr : ZeroLengthArray) (values : list Z) (j : nat) (n : nat) : outcome ZeroLengthArray :=
  match n with
  | O => Done arr
  | S n =>
      v ← array_get values j;
      d ← array_set (adata arr) j (Some v);
      set_loop (Zla (asize arr) d) values (S j) n
  end.

Definition set_values (arr : ZeroLengthArray) (values : list Z) : outcome ZeroLengthArray :=
  set_loop arr values 0 (Z.to_nat (asize arr)).

(** The text of a list of numbers. *)
Definition numbers (vs : list Z) : string := foldr (fun v s => show_int v +:+ " " +:+ s) ""%string vs.

Lemma set_loop_ok sz vs ws d :
  length d = length ws ->
  set_loop (Zla sz ((Some <$> vs) ++ d)) (vs ++ ws) (length vs) (length ws) = Done (Zla sz (Some <$> vs ++ ws)).
Proof.
  revert vs d. induction ws as [|w ws IH]; intros vs [|c d] Hd; simpl in Hd; try lia; [by rewrite !app_nil_r|].
  cbn [set_loop length]. unfold array_get. rewrite list_lookup_middle by done. cbn [mbind outcome_bind].
  rewrite array_set_ok by (simpl; rewrite length_app, length_fmap; simpl; lia). cbn [mbind outcome_bind adata asize].
  rewrite insert_app_r_alt by (rewrite length_fmap; lia). rewrite length_fmap, Nat.sub_diag. simpl.
  specialize (IH (vs ++ [w]) d ltac:(lia)). rewrite length_app, fmap_app, <- !app_assoc in IH. simpl in IH.
  by rewrite Nat.add_1_r in IH.
Qed.

Lemma print_loop_ok sz us vs :
  print_loop (Zla sz (Some <$> us ++ vs)) (length us) (length vs) = Done (numbers vs).
Proof.
  revert us. induction vs as [|v vs IH]; intros us; [done|]. cbn [print_loop length]. unfold array_get. simpl.
  rewrite fmap_app. simpl. rewrite list_lookup_middle by by rewrite length_fmap. cbn [mbind outcome_bind].
  specialize (IH (us ++ [v])). rewrite <- app_assoc, length_app, Nat.add_1_r, fmap_app in IH. simpl in IH. by rewrite IH.
Qed.

(** Create, set, print.  When [malloc] grants the block for [n] elements,
    [set_values] from an array of at least [n] numbers succeeds and the printed
    text shows the size and exactly the first [n] numbers; a denied block is a
    write through null. *)
Theorem zla_prints_values (granted : Z -> bool) n (vs ws : list Z) :
  0 <= n <= int_max -> Z.of_nat (length vs) = n ->
  if granted (4 + 4 * n) then
    exists arr arr',
      create_zero_length_array granted n = Done arr /\ set_values arr (vs ++ ws) = Done arr' /\
      print_zero_length_array arr' =
        Done ("List elements (size = " +:+ show_int n +:+ "):" +:+ newline +:+ numbers vs +:+ newline)
  else create_zero_length_array granted n = Fault NullDeref.
Proof.
  intros Hn Hvs. unfold int_max in Hn.
  assert (Hb : zla_bytes n = 4 + 4 * n).
  { unfold zla_bytes, add64, mul64, wrap64, w64. rewrite (Z.mod_small n), (Z.mod_small (n * 4)), Z.mod_small by lia. lia. }
  unfold create_zero_length_array. rewrite Hb. destruct (granted (4 + 4 * n)); [|done].
  rewrite (proj2 (Z.leb_le _ _)) by lia.
  replace ((4 + 4 * n - 4) / 4) with n by (rewrite Z.add_simpl_l, Z.mul_comm; symmetry; apply Z.div_mul; lia).
  eexists _, _. split; [done|]. unfold set_values. simpl.
  assert (Hlen : Z.to_nat n = length vs) by lia. rewrite Hlen.
  assert (Hset : set_loop (Zla n (replicate (length vs) None)) (vs ++ ws) 0 (length vs) = Done (Zla n (Some <$> vs))).
  { clear -vs. pose proof (set_loop_ok n [] vs (replicate (length vs) None) ltac:(by rewrite length_replicate)) as Hs.
    simpl in Hs. rewrite <- Hs. clear Hs. generalize (Zla n (replicate (length vs) None)) as arr.
    assert (Hg : forall k j arr, (j + k <= length vs)%nat -> set_loop arr (vs ++ ws) j k = set_loop arr vs j k).
    { induction k as [|k IH]; intros j arr Hj; [done|]. cbn [set_loop]. unfold array_get.
      rewrite lookup_app_l by lia. destruct (vs !! j); [|done]. cbn [mbind outcome_bind].
      destruct (array_set (adata arr) j (Some z)); [|done]. cbn [mbind outcome_bind]. apply IH. lia. }
    intros arr. apply Hg. lia. }
  split; [exact Hset|]. unfold print_zero_length_array. simpl. rewrite Hlen.
  pose proof (print_loop_ok n [] vs) as Hp. simpl in Hp. by rewrite Hp.
Qed.

(** A negative count: the block has no room for the size. *)
Example zla_negative : create_zero_length_array (fun _ => true) (-1) = Fault OutOfRange.
Proof. reflexivity. Qed.

End Zla.

(** ** kobject.c *)

Module Kobj.

Definition name_size : nat := 50.

(** Objects live at locations; a name is the 50 bytes of its array. *)
Record kobject := Kobject { kname : list ascii; parent : ptr; refcount : Z; release : ptr }.
Record kset := Kset {
  kset_name : list ascii; kset_kobj : loc; members : list loc; member_count : Z
}.
Record Bus := BusOf { bus_kset : kset; bridge : ptr }.

Abbreviation store := (gmap loc kobject) (only parsing).

(** [strncpy(dst, src, 50)] *)
Definition strncpy (src : string) : list ascii :=
  take name_size (String.list_ascii_of_string src ++ replicate name_size zero).

(** [printf("%s")] of such an array: reads until a zero byte. *)
Fixpoint c_string (buf : list ascii) : outcome string :=
  match buf with
  | [] => Fault OutOfRange
  | c :: buf => if decide (c = zero) then Done ""%string else s ← c_string buf; Done (String c s)
  end.

Definition get_kobj (st : store) (k : loc) : outcome kobject :=
  match st !! k with Some o => Done o | None => Fault Dangling end.

Definition kobject_init (st : store) (kobj : loc) (name : string) (par : ptr) : outcome store :=
  o ← get_kobj st kobj;
  let st := <[kobj := Kobject (strncpy name) par 1 None]> st in
  match par with
  | None => Done st
  | Some p =>
      o ← get_kobj st p;
      n ← add_int (refcount o) 1;
      Done (<[p := Kobject (kname o) (parent o) n (release o)]> st)
  end.

Definition kset_init (st : store) (kobj : loc) (name : string) (par : ptr) : outcome (kset * store) :=
  st ← kobject_init st kobj name par;
  Done (Kset (strncpy name) kobj [] 0, st).

(** [room]: whether [realloc] succeeds. *)
Definition kset_add (room : bool) (st : store) (ks : kset) (kobj : loc) : outcome (kset * string) :=
  if room then
    let ks := Kset (kset_name ks) (kset_kobj ks) (members ks ++ [kobj]) (add64 (member_count ks) 1) in
    o ← get_kobj st kobj;
    n ← c_string (kname o);
    m ← c_string (kset_name ks);
    Done (ks, "Added kobject '" +:+ n +:+ "' to kset '" +:+ m +:+ "'." +:+ Zla.newline)
  else Fault NullDeref.

(** A device and a bridge are their embedded kobject. *)
Definition device_init (st : store) (kobj : loc) (name : string) (par : ptr) : outcome (store * string) :=
  st ← kobject_init st kobj name par;
  Done (st, "Initialized Device '" +:+ name +:+ "'." +:+ Zla.newline).

Definition bus_init (st : store) (kobj : loc) (name : string) : outcome (Bus * store * string) :=
  '(ks, st) ← kset_init st kobj name None;
  Done (BusOf ks None, st, "Initialized Bus '" +:+ name +:+ "'." +:+ Zla.newline).

Definition bus_add_device (room : bool) (st : store) (bus : Bus) (device : loc) : outcome (Bus * string) :=
  '(ks, out) ← kset_add room st (bus_kset bus) device;
  Done (BusOf ks (bridge bus), out).

Definition bridge_init (st : store) (kobj : loc) (name : string) (parent_bus : Bus) : outcome (store * string) :=
  st ← kobject_init st kobj name (Some (kset_kobj (bus_kset parent_bus)));
  Done (st, "Initialized Device '" +:+ name +:+ "'." +:+ Zla.newline).

Fixpoint indent (level : nat) : string :=
  match level with O => ""%string | S level => "  " +:+ indent level end.

Definition print_hierarchy (st : store) (kobj : loc) (level : nat) : outcome string :=
  o ← get_kobj st kobj;
  n ← c_string (kname o);
  Done (indent level +:+ "kobject: " +:+ n +:+ Zla.newline).

Definition print_parent (st : store) (kobj : loc) (level : nat) : outcome string :=
  o ← get_kobj st kobj;
  match parent o with None => Done ""%string | Some p => print_hierarchy st p level end.

Fixpoint print_members (st : store) (bus : Bus) (ms : list loc) : outcome string :=
  match ms with
  | [] => Done ""%string
  | child :: ms =>
      here ← print_hierarchy st child 1;
      up ← print_parent st child 2;
      o ← get_kobj st child;
      through ← match bridge bus with
                | Some b =>
                    if decide (parent o = Some (kset_kobj (bus_kset bus))) then
                      x ← print_hierarchy st b 3; y ← print_parent st b 4; Done (x +:+ y)
                    else Done ""%string
                | None => Done ""%string
                end;
      rest ← print_members st bus ms;
      Done (here +:+ up +:+ through +:+ rest)
  end.

Definition bus_print_hierarchy (st : store) (bus : Bus) : outcome string :=
  n ← c_string (kset_name (bus_kset bus));
  let head := "Hierarchy of Bus '" +:+ n +:+ "':" +:+ Zla.newline in
  top ← print_hierarchy st (kset_kobj (bus_kset bus)) 0;
  over ← match bridge bus with
         | Some b => x ← print_hierarchy st b 1; y ← print_parent st b 2; Done (x +:+ y)
         | None => Done ""%string
         end;
  ms ← print_members st bus (members (bus_kset bus));
  Done (head +:+ head +:+ top +:+ over +:+ ms).

(** *** Names *)

Lemma c_string_of (s : string) pad :
  zero ∉ String.list_ascii_of_string s -> c_string (String.list_ascii_of_string s ++ zero :: pad) = Done s.
Proof.
  induction s as [|c s IH]; simpl; [by intros _|]. intros Hz%not_elem_of_cons. destruct Hz as [Hc Hs].
  rewrite decide_False by congruence. by rewrite IH.
Qed.

Lemma c_string_open l : zero ∉ l -> c_string l = Fault OutOfRange.
Proof.
  induction l as [|c l IH]; [done|]. intros Hz%not_elem_of_cons. destruct Hz as [Hc Hs]. simpl.
  rewrite decide_False by congruence. by rewrite IH.
Qed.

Lemma name_kept (s : string) :
  zero ∉ String.list_ascii_of_string s ->
  c_string (strncpy s) = if decide (length (String.list_ascii_of_string s) < name_size)%nat then Done s else Fault OutOfRange.
Proof.
  intros Hz. unfold strncpy. case_decide as Hl.
  - rewrite take_app_ge, take_replicate, Nat.min_l by lia.
    destruct (name_size - length (String.list_ascii_of_string s))%nat as [|k] eqn:E; [lia|]. by apply c_string_of.
  - rewrite take_app_le by lia. apply c_string_open. intros Hin. apply Hz.
    rewrite <- (take_drop name_size (String.list_ascii_of_string s)). apply elem_of_app. by left.
Qed.

(** *** Reference counts *)

(** The initialised objects whose parent is [k]. *)
Definition children (st : store) (inited : list loc) (k : loc) : list loc :=
  filter (fun c => (st !! c) ≫= (fun o => parent o) = Some k) inited.

(** Every initialised object counts itself and its children. *)
Definition counted (st : store) (inited : list loc) : Prop :=
  NoDup inited /\
  forall k, k ∈ inited -> exists o, st !! k = Some o /\
    refcount o = 1 + Z.of_nat (length (children st inited k)) /\
    (forall p, parent o = Some p -> p ∈ inited).

(** A sequence of calls, each for an object not initialised yet and with a
    parent that is. *)
Definition init_call := (loc * string * ptr)%type.

Fixpoint init_all (st : store) (calls : list init_call) : outcome store :=
  match calls with
  | [] => Done st
  | (k, name, par) :: calls => st ← kobject_init st k name par; init_all st calls
  end.

Fixpoint sensible (mem : gset loc) (inited : list loc) (calls : list init_call) : bool :=
  match calls with
  | [] => true
  | (k, _, par) :: calls =>
      bool_decide (k ∈ mem) && bool_decide (k ∉ inited) &&
      (match par with None => true | Some p => bool_decide (p ∈ inited) end) &&
      sensible mem (k :: inited) calls
  end.

Lemma children_ext st st' inited k :
  (forall c, c ∈ inited -> (st' !! c) ≫= (fun o => parent o) = (st !! c) ≫= (fun o => parent o)) ->
  children st' inited k = children st inited k.
Proof.
  unfold children. induction inited as [|c inited IH]; intros Hc; [done|]. rewrite !filter_cons.
  assert (E := Hc c ltac:(by left)). rewrite IH by (intros c' ?; apply Hc; by right).
  case_decide as H1; case_decide as H2; congruence.
Qed.

Lemma children_length st inited k : (length (children st inited k) <= length inited)%nat.
Proof. apply length_filter. Qed.

Lemma kobject_init_ok st inited k name par :
  counted st inited -> k ∈ dom st -> k ∉ inited -> (forall p, par = Some p -> p ∈ inited) ->
  Z.of_nat (length inited) + 1 < int_max ->
  exists st', kobject_init st k name par = Done st' /\ counted st' (k :: inited) /\ dom st' = dom st.
Proof.
  intros [Hnd Hc] Hdom Hk Hpar Hlen. apply elem_of_dom in Hdom as [o0 Ho0].
  unfold kobject_init, get_kobj. rewrite Ho0. cbn [mbind outcome_bind].
  set (st1 := <[k := Kobject (strncpy name) par 1 None]> st).
  assert (Hnochild : children st inited k = []).
  { destruct (children st inited k) as [|c l] eqn:E; [done|]. exfalso. apply Hk.
    assert (Hin : c ∈ children st inited k) by (rewrite E; by left).
    apply list_elem_of_filter in Hin as [Hpc Hci]. destruct (Hc c Hci) as (o & Ho & _ & Hcl).
    rewrite Ho in Hpc. simpl in Hpc. by apply Hcl. }
  assert (Hsame1 : forall c, c ∈ inited -> st1 !! c = st !! c).
  { intros c Hci. unfold st1. rewrite lookup_insert_ne; [done|]. by intros ->. }
  assert (Hown : st1 !! k = Some (Kobject (strncpy name) par 1 None)) by apply lookup_insert_eq.
  assert (Hself : forall p, par = Some p -> p <> k) by (intros p Hp ->; by apply Hk, Hpar).
  destruct par as [p|].
  - destruct (Hc p (Hpar p eq_refl)) as (o & Ho & Hr & Hcl). rewrite Hsame1, Ho by by apply Hpar.
    cbn [mbind outcome_bind]. pose proof (children_length st inited p). unfold add_int.
    rewrite decide_True by (unfold int_ok, int_min, int_max in *; lia). cbn [mbind outcome_bind].
    set (st2 := <[p := Kobject (kname o) (parent o) (refcount o + 1) (release o)]> st1).
    exists st2. split; [done|]. specialize (Hself p eq_refl).
    assert (Hk2 : st2 !! k = Some (Kobject (strncpy name) (Some p) 1 None)).
    { unfold st2. by rewrite lookup_insert_ne. }
    assert (Hp2 : forall c, c ∈ inited -> (st2 !! c) ≫= (fun o => parent o) = (st !! c) ≫= (fun o => parent o)).
    { intros c Hci. unfold st2. destruct (decide (c = p)) as [->|Hne]; [by rewrite lookup_insert_eq, Ho|].
      by rewrite lookup_insert_ne, Hsame1 by done. }
    assert (Hch : forall q, children st2 (k :: inited) q =
              if decide (q = p) then k :: children st inited q else children st inited q).
    { intros q. rewrite <- (children_ext st st2 inited q Hp2). unfold children at 1. rewrite filter_cons, Hk2. simpl.
      fold (children st2 inited q). case_decide as H1; case_decide as H2; try done; congruence. }
    split; [split|].
    + by constructor.
    + intros c Hci. rewrite Hch. apply elem_of_cons in Hci as [->|Hci].
      * exists (Kobject (strncpy name) (Some p) 1 None). rewrite decide_False by done. rewrite Hnochild. split_done.
        intros q [= <-]. right. by apply Hpar.
      * destruct (Hc c Hci) as (oc & Hoc & Hrc & Hclc). unfold st2. destruct (decide (c = p)) as [->|Hne].
        -- rewrite lookup_insert_eq. eexists. split; [done|]. simpl. rewrite Ho in Hoc. simplify_eq.
           split; [lia|]. intros q Hq. right. by apply Hcl.
        -- rewrite lookup_insert_ne, Hsame1 by done. exists oc. split_done. intros q Hq. right. by apply Hclc.
    + unfold st2, st1. rewrite !dom_insert_L. apply elem_of_dom_2 in Ho, Ho0. set_solver.
  - exists st1. split; [done|].
    assert (Hp1 : forall c, c ∈ inited -> (st1 !! c) ≫= (fun o => parent o) = (st !! c) ≫= (fun o => parent o)).
    { intros c Hci. by rewrite Hsame1. }
    assert (Hch : forall q, children st1 (k :: inited) q = children st inited q).
    { intros q. rewrite <- (children_ext st st1 inited q Hp1). unfold children at 1. rewrite filter_cons, Hown. done. }
    split; [split|].
    + by constructor.
    + intros c Hci. rewrite Hch. apply elem_of_cons in Hci as [->|Hci].
      * eexists. split; [exact Hown|]. rewrite Hnochild. split_done.
      * destruct (Hc c Hci) as (oc & Hoc & Hrc & Hclc). rewrite Hsame1 by done. exists oc. split_done.
        intros q Hq. right. by apply Hclc.
    + unfold st1. rewrite dom_insert_L. apply elem_of_dom_2 in Ho0. set_solver.
Qed.

Lemma init_all_ok st inited calls :
  counted st inited -> sensible (dom st) inited calls = true ->
  Z.of_nat (length inited + length calls) < int_max ->
  exists st', init_all st calls = Done st' /\ counted st' (reverse (calls.*1.*1) ++ inited).
Proof.
  revert st inited. induction calls as [|[[k name] par] calls IH]; intros st inited Hc Hs Hl; [by exists st|].
  cbn [sensible] in Hs. rewrite !andb_true_iff in Hs. destruct Hs as (((Hd & Hk) & Hp) & Hs).
  apply bool_decide_eq_true in Hd, Hk. simpl length in Hl.
  destruct (kobject_init_ok st inited k name par Hc Hd Hk) as (st1 & E & Hc1 & Hdom); [|lia|].
  { intros p ->. by apply bool_decide_eq_true in Hp. }
  cbn [init_all]. rewrite E. cbn [mbind outcome_bind]. rewrite <- Hdom in Hs.
  destruct (IH st1 (k :: inited) Hc1 Hs ltac:(simpl; lia)) as (st' & Es & Hc').
  exists st'. split; [done|]. rewrite !fmap_cons, reverse_cons, <- app_assoc. exact Hc'.
Qed.

(** Reference counts count.  After any sequence of initialisations of
    distinct objects, each under an object initialised before or under none, the
    count of every object is one more than the number of its children. *)
Theorem refcount_counts_children st calls :
  sensible (dom st) [] calls = true -> Z.of_nat (length calls) < int_max ->
  exists st', init_all st calls = Done st' /\
    forall k, k ∈ calls.*1.*1 -> exists o, st' !! k = Some o /\
      refcount o = 1 + Z.of_nat (length (children st' (reverse (calls.*1.*1)) k)).
Proof.
  intros Hs Hl. destruct (init_all_ok st [] calls) as (st' & E & _ & Hc); [|done|done|].
  { split; [constructor|]. by intros k ?%not_elem_of_nil. }
  rewrite app_nil_r in Hc. exists st'. split; [done|]. intros k Hk.
  destruct (Hc k) as (o & Ho & Hr & _); [by apply elem_of_reverse|]. by exists o.
Qed.

(** Names.  A name without zero bytes prints as it is when it is shorter than
    its array of 50 bytes; from 50 bytes on [strncpy] leaves the array without a
    terminator and printing it reads past its end. *)
Theorem long_names_unterminated (s : string) :
  zero ∉ String.list_ascii_of_string s ->
  c_string (strncpy s) =
    if decide (length (String.list_ascii_of_string s) < name_size)%nat then Done s else Fault OutOfRange.
Proof. apply name_kept. Qed.

Definition garbage : kobject := Kobject [] None 0 None.

Lemma refcount_counts_children_witness :
  exists st', init_all {[1%positive := garbage; 2%positive := garbage; 3%positive := garbage]}
                [(1%positive, "bus"%string, None); (2%positive, "a"%string, Some 1%positive);
                 (3%positive, "b"%string, Some 1%positive)] = Done st' /\
    forall k, k ∈ [1; 2; 3]%positive -> exists o, st' !! k = Some o /\
      refcount o = 1 + Z.of_nat (length (children st' [3; 2; 1]%positive k)).
Proof. apply refcount_counts_children; [by vm_compute|vm_compute; reflexivity]. Defined.

Lemma long_names_unterminated_witness :
  c_string (strncpy "BusA"%string) = Done "BusA"%string.
Proof. rewrite (long_names_unterminated "BusA"%string); [reflexivity|]. vm_compute. set_solver. Defined.

End Kobj.

Lemma zla_prints_values_witness :
  exists arr arr',
    Zla.create_zero_length_array (fun n => n <? 100) 2 = Done arr /\ Zla.set_values arr [7; -3; 9] = Done arr' /\
    Zla.print_zero_length_array arr' =
      Done ("List elements (size = " +:+ show_int 2 +:+ "):" +:+ Zla.newline +:+ Zla.numbers [7; -3] +:+ Zla.newline).
Proof. apply (Zla.zla_prints_values (fun n => n <? 100) 2 [7; -3] [9]); [vm_compute; split; discriminate|reflexivity]. Defined.
