(* ===== verification/Buffer.v ===== *)
(** * The ring buffer of the concurrency project

    [concurrency-project-FreezeKickerz/buffer.c] and [buffer.h]: a fixed array of
    [void*] with the index of the oldest element and the number of elements.  A
    cell that was never written is [None]; the array is [None] when its
    [malloc] returned [NULL]. *)

From Stdlib Require Import ZArith Lia.
From stdpp Require Import gmap list.
From S2P Require Import Prelude.

(** ** Data and operations *)

Record buffer_t (V : Type) := Buf {
  size : Z;
  next : Z;
  capacity : Z;
  data : option (list (option V))
}.
Arguments Buf {V} size next capacity data.
Arguments size {V} _.
Arguments next {V} _.
Arguments capacity {V} _.
Arguments data {V} _.

Inductive buffer_status := BUFFER_SUCCESS | BUFFER_ERROR.

Definition sizeof_pointer : Z := 8.

Section operations.
Context `{Malloc} {V : Type}.
Implicit Types (b : buffer_t V).

(** Neither [malloc] is checked: the first write to a [NULL] buffer is a
    fault; a [NULL] array is only seen when an element is stored. *)
Definition buffer_create (live : gset loc) (cap : Z) : outcome (buffer_t V) :=
  l ← deref (malloc live);
  let d := match malloc ({[l]} ∪ live) with
           | None => None
           | Some _ => Some (replicate (Z.to_nat (mul64 cap sizeof_pointer / sizeof_pointer)) None)
           end in
  Done (Buf 0 0 cap d).

Definition buffer_add b (d : V) : outcome (buffer_status * buffer_t V) :=
  if capacity b <=? size b then Done (BUFFER_ERROR, b)
  else
    let pos := add64 (next b) (size b) in
    let pos := if capacity b <=? pos then sub64 pos (capacity b) else pos in
    cells ← deref (data b);
    cells ← array_set cells (Z.to_nat pos) (Some d);
    Done (BUFFER_SUCCESS, Buf (add64 (size b) 1) (next b) (capacity b) (Some cells)).

(** The value stored through the out parameter, if any, is returned too. *)
Definition buffer_remove b : outcome (buffer_status * option V * buffer_t V) :=
  if 0 <? size b then
    cells ← deref (data b);
    v ← array_get cells (Z.to_nat (next b));
    let nxt := add64 (next b) 1 in
    let nxt := if capacity b <=? nxt then sub64 nxt (capacity b) else nxt in
    Done (BUFFER_SUCCESS, v, Buf (sub64 (size b) 1) nxt (capacity b) (data b))
  else Done (BUFFER_ERROR, None, b).

Definition buffer_capacity b : Z := capacity b.

Definition buffer_current_size b : Z := size b.

Definition peek_buffer b (index : Z) : outcome (option V) :=
  cells ← deref (data b); array_get cells (Z.to_nat index).

(** Operation sequences, with the results a caller sees. *)
Inductive buffer_op := Add (v : V) | Remove.

Fixpoint run_buffer b (ops : list buffer_op)
    : outcome (list (buffer_status * option V) * buffer_t V) :=
  match ops with
  | [] => Done ([], b)
  | Add v :: ops =>
      '(r, b) ← buffer_add b v; '(rs, b) ← run_buffer b ops; Done ((r, None) :: rs, b)
  | Remove :: ops =>
      '(r, b) ← buffer_remove b; '(rs, b) ← run_buffer b ops; Done (r :: rs, b)
  end.

(** The specification: a FIFO queue of at most [cap] elements. *)
Fixpoint run_queue (cap : nat) (q : list V) (ops : list buffer_op)
    : list (buffer_status * option V) * list V :=
  match ops with
  | [] => ([], q)
  | Add v :: ops =>
      if decide (length q < cap)%nat
      then let '(rs, q) := run_queue cap (q ++ [v]) ops in ((BUFFER_SUCCESS, None) :: rs, q)
      else let '(rs, q) := run_queue cap q ops in ((BUFFER_ERROR, None) :: rs, q)
  | Remove :: ops =>
      match q with
      | v :: q => let '(rs, q) := run_queue cap q ops in ((BUFFER_SUCCESS, Some v) :: rs, q)
      | [] => let '(rs, q) := run_queue cap [] ops in ((BUFFER_ERROR, None) :: rs, q)
      end
  end.
End operations.
Arguments Add {V} v.
Arguments Remove {V}.

(** ** The queue a buffer represents *)

(** Index of the [i]-th oldest element. *)
Definition slot {V} (b : buffer_t V) (i : Z) : Z := (next b + i) mod capacity b.

Record buffer_ok {V} (b : buffer_t V) (q : list V) : Prop := {
  bok_cap : 0 <= capacity b /\ capacity b * sizeof_pointer < w64;
  bok_size : size b = Z.of_nat (length q);
  bok_full : Z.of_nat (length q) <= capacity b;
  bok_next : 0 <= next b /\ (next b < capacity b \/ capacity b = 0);
  bok_data : exists cells, data b = Some cells /\ Z.of_nat (length cells) = capacity b /\
    forall i v, q !! i = Some v -> cells !! Z.to_nat (slot b (Z.of_nat i)) = Some (Some v)
}.

Section proofs.
Context `{Malloc} {V : Type}.
Implicit Types (b : buffer_t V) (q : list V).

Lemma slot_wrap b i :
  0 <= next b < capacity b -> 0 <= i < capacity b ->
  slot b i = if capacity b <=? next b + i then next b + i - capacity b else next b + i.
Proof.
  intros Hn Hi. unfold slot. case_match eqn:E; [apply Z.leb_le in E|apply Z.leb_gt in E].
  - symmetry. apply Z.mod_unique with 1; lia.
  - apply Z.mod_small. lia.
Qed.

Lemma buffer_create_ok live cap l1 l2 :
  0 <= cap -> cap * sizeof_pointer < w64 ->
  malloc live = Some l1 -> malloc ({[l1]} ∪ live) = Some l2 ->
  exists b : buffer_t V, buffer_create live cap = Done b /\ buffer_ok b [] /\ capacity b = cap.
Proof.
  intros Hc Hw E1 E2. unfold buffer_create. rewrite E1. simpl. rewrite E2.
  eexists. split_done. unfold sizeof_pointer in *.
  split; simpl; try done; [|].
  - lia.
  - rewrite mul64_small by u64_lia. rewrite Z.div_mul by lia.
    eexists. rewrite length_replicate. split_done. lia.
Qed.

Lemma buffer_add_full b q v :
  buffer_ok b q -> capacity b <= Z.of_nat (length q) -> buffer_add b v = Done (BUFFER_ERROR, b).
Proof.
  intros [Hc Hs _ _ _] Hf. unfold buffer_add. rewrite Hs.
  rewrite (proj2 (Z.leb_le _ _)) by lia. done.
Qed.

Lemma buffer_add_ok b q v :
  buffer_ok b q -> Z.of_nat (length q) < capacity b ->
  exists b', buffer_add b v = Done (BUFFER_SUCCESS, b') /\ buffer_ok b' (q ++ [v]) /\
    capacity b' = capacity b.
Proof.
  intros [Hc Hs Hf Hn (cells & Hd & Hlen & Hq)] Hlt. unfold buffer_add, sizeof_pointer in *.
  rewrite Hs, (proj2 (Z.leb_gt _ _)) by lia.
  rewrite (add64_small (next b) (Z.of_nat (length q))) by u64_lia.
  assert (Hpos : (if capacity b <=? next b + Z.of_nat (length q)
                  then sub64 (next b + Z.of_nat (length q)) (capacity b)
                  else next b + Z.of_nat (length q)) = slot b (Z.of_nat (length q))).
  { rewrite slot_wrap by lia. case_match eqn:E; [|done]. apply Z.leb_le in E.
    rewrite sub64_small by u64_lia. done. }
  cbv zeta. rewrite Hpos, Hd. cbn [deref mbind outcome_bind].
  assert (Hr : forall i, 0 <= slot b i < capacity b) by (intros; apply Z.mod_pos_bound; lia).
  pose proof (Hr (Z.of_nat (length q))).
  rewrite array_set_ok by lia. cbn [mbind outcome_bind]. eexists. split_done.
  split; simpl; rewrite ?length_app; simpl; try (unfold sizeof_pointer; rewrite ?add64_small by u64_lia; lia).
  { eexists. split_done; [by rewrite length_insert|].
    intros i w Hi. match goal with |- context [slot (Buf ?s ?n ?c ?d) ?x] =>
      change (slot (Buf s n c d) x) with (slot b x) end.
    apply lookup_snoc_Some in Hi as [[Hi Hw]|[-> ->]].
    + rewrite list_lookup_insert_ne; [auto|]. rewrite !slot_wrap by lia.
      repeat case_match; lia.
    + apply list_lookup_insert_eq. lia. }
Qed.

Lemma buffer_remove_empty b : buffer_ok b [] -> buffer_remove b = Done (BUFFER_ERROR, None, b).
Proof. intros [_ Hs _ _ _]. unfold buffer_remove. by rewrite Hs. Qed.

Lemma buffer_remove_ok b v q :
  buffer_ok b (v :: q) ->
  exists b', buffer_remove b = Done (BUFFER_SUCCESS, Some v, b') /\ buffer_ok b' q /\
    capacity b' = capacity b.
Proof.
  intros [Hc Hs Hf Hn (cells & Hd & Hlen & Hq)]. unfold buffer_remove, sizeof_pointer in *.
  simpl in Hs, Hf. rewrite Hs, (proj2 (Z.ltb_lt _ _)) by lia.
  rewrite Hd. cbn [deref mbind outcome_bind].
  pose proof (Hq 0%nat v eq_refl) as H0. simpl in H0. rewrite slot_wrap in H0 by lia.
  rewrite Z.add_0_r, (proj2 (Z.leb_gt _ _)) in H0 by lia.
  rewrite (proj2 (array_get_Done _ _ _) H0). cbn [mbind outcome_bind]. eexists. split_done.
  rewrite (add64_small (next b) 1) by u64_lia.
  assert (Hnx : (if capacity b <=? next b + 1 then sub64 (next b + 1) (capacity b) else next b + 1)
                = (next b + 1) mod capacity b).
  { case_match eqn:E; [apply Z.leb_le in E|apply Z.leb_gt in E].
    - rewrite sub64_small by u64_lia. apply Z.mod_unique with 1; lia.
    - symmetry. apply Z.mod_small. lia. }
  cbv zeta. rewrite Hnx. pose proof (Z.mod_pos_bound (next b + 1) (capacity b)).
  split; simpl; try (unfold sizeof_pointer; rewrite ?sub64_small by u64_lia; lia).
  { exists cells. split_done. intros i w Hi. specialize (Hq (S i) w Hi).
    unfold slot in *. simpl. rewrite Zplus_mod_idemp_l.
    by replace (next b + 1 + Z.of_nat i) with (next b + Z.of_nat (S i)) by lia. }
Qed.

Lemma run_buffer_ok b q ops :
  buffer_ok b q ->
  exists b', run_buffer b ops = Done ((run_queue (Z.to_nat (capacity b)) q ops).1, b') /\
    buffer_ok b' (run_queue (Z.to_nat (capacity b)) q ops).2.
Proof.
  revert b q. induction ops as [|[v|] ops IH]; intros b q Hok; simpl; [by exists b| |].
  - pose proof (bok_cap _ _ Hok). case_decide as Hlt.
    + destruct (buffer_add_ok b q v Hok) as (b' & -> & Hok' & Hcap); [lia|].
      destruct (IH _ _ Hok') as (b'' & E & Hok''). rewrite Hcap in *.
      cbn [mbind outcome_bind]. rewrite E. destruct (run_queue _ _ _). by exists b''.
    + rewrite (buffer_add_full b q v Hok) by lia.
      destruct (IH _ _ Hok) as (b'' & E & Hok''). cbn [mbind outcome_bind]. rewrite E.
      destruct (run_queue _ _ _). by exists b''.
  - destruct q as [|v q].
    + rewrite (buffer_remove_empty b Hok). destruct (IH _ _ Hok) as (b'' & E & Hok'').
      cbn [mbind outcome_bind]. rewrite E. destruct (run_queue _ _ _). by exists b''.
    + destruct (buffer_remove_ok b v q Hok) as (b' & -> & Hok' & Hcap).
      destruct (IH _ _ Hok') as (b'' & E & Hok''). rewrite Hcap in *.
      cbn [mbind outcome_bind]. rewrite E. destruct (run_queue _ _ _). by exists b''.
Qed.
End proofs.

(** ** Properties *)

(** C18: the ring buffer is a bounded FIFO queue.  Starting from [buffer_create],
    every sequence of [buffer_add] and [buffer_remove] runs without a fault and
    returns exactly the statuses and values of a queue of the given capacity:
    nothing is lost, duplicated or reordered, across every wrap-around of the
    indices, full and empty buffers included. *)
Theorem buffer_refines_queue `{Malloc} {V} live cap l1 l2 (ops : list (buffer_op (V := V))) :
  0 <= cap -> cap * sizeof_pointer < w64 ->
  malloc live = Some l1 -> malloc ({[l1]} ∪ live) = Some l2 ->
  exists b b', buffer_create live cap = Done b /\
    run_buffer b ops = Done ((run_queue (Z.to_nat cap) [] ops).1, b') /\
    buffer_ok b' (run_queue (Z.to_nat cap) [] ops).2.
Proof.
  intros Hc Hw E1 E2. destruct (buffer_create_ok (V := V) live cap l1 l2 Hc Hw E1 E2)
    as (b & -> & Hok & <-).
  destruct (run_buffer_ok b [] ops Hok) as (b' & ? & ?). by exists b, b'.
Qed.

Lemma buffer_refines_queue_witness :
  exists b b', @buffer_create malloc_first Z ∅ 2 = Done b /\
    run_buffer b [Add 1; Add 2; Add 3; Remove; Add 4; Remove; Remove; Remove] =
      Done ([(BUFFER_SUCCESS, None); (BUFFER_SUCCESS, None); (BUFFER_ERROR, None);
             (BUFFER_SUCCESS, Some 1); (BUFFER_SUCCESS, None); (BUFFER_SUCCESS, Some 2);
             (BUFFER_SUCCESS, Some 4); (BUFFER_ERROR, None)], b') /\
    buffer_ok b' [].
Proof.
  exact (@buffer_refines_queue malloc_first Z ∅ 2 1%positive 2%positive
    [Add 1; Add 2; Add 3; Remove; Add 4; Remove; Remove; Remove]
    ltac:(done) ltac:(done) eq_refl eq_refl).
Defined.
