(* ===== verification/Channel.v ===== *)
(** * Channels of the concurrency project: the code

    [concurrency-project-FreezeKickerz/channel.c] and [channel.h].  A channel
    function runs under [chan_mutex] from its lock to its unlock or to a
    [pthread_cond_wait]; such a stretch of code is a _region_ here, a function of
    the channel and of the [void*] variables the callers point to.  A region
    returns the new state, the wake-ups and semaphore posts it made while it held
    the mutex, and how it ended: waiting on a condition variable with the point
    where the thread resumes, or returning a status after the wake-ups it still
    has to make without the mutex.  [System] runs regions of many threads. *)

From Stdlib Require Import ZArith Lia.
From stdpp Require Import gmap list.
From S2P Require Import Prelude Dll ConcList Buffer.

(** ** Constants and data *)

(** [enum channel_status]; [CHANNEL_EMPTY] and [CHANNEL_FULL] are both 0. *)
Definition CHANNEL_EMPTY : Z := 0.
Definition CHANNEL_FULL : Z := 0.
Definition SUCCESS : Z := 1.
Definition GENERIC_ERROR : Z := -1.
Definition CLOSED_ERROR : Z := -2.
Definition DESTROY_ERROR : Z := -3.

Definition unbuf_op_send : Z := 0.
Definition unbuf_op_receive : Z := 1.
Definition unbuf_op_none : Z := -1.

(** Semaphores and [void*] variables are named by locations, messages are [Z]. *)
Record channel_t := Chan {
  buffer : option (buffer_t Z);
  closed_flag : bool;
  send_selectors : option (list_t loc);
  recv_selectors : option (list_t loc);
  is_unbuffered : bool;
  active_unbuf_op : Z;
  unbuf_stage : Z;
  unbuf_data : ptr;
  waiting_senders : Z;
  waiting_receivers : Z
}.

Inductive direction := SEND | RECV.

(** The condition variables of a channel. *)
Inductive condvar := cond_not_full | cond_not_empty | rendezvous_wait_cv | rendezvous_complete_cv.

#[export] Instance condvar_eq_dec : EqDecision condvar.
Proof. solve_decision. Defined.

(** Wake-ups a thread performs. *)
Inductive action :=
  | Signal (cv : condvar)
  | Broadcast (cv : condvar)
  | NotifySenders
  | NotifyReceivers.

(** Where a thread resumes: the entry of a function, or after a wait.  [dp] is
    the address of the [void*] variable the call works on: the parameter [data]
    of a send, the caller's variable of a receive. *)
Inductive point :=
  | SendEnter (dp : loc) | SendLoop (dp : loc)
  | RecvEnter (dp : loc) | RecvLoop (dp : loc)
  | NbSendEnter (dp : loc) | NbSendLoop (dp : loc)
  | NbRecvEnter (dp : loc) | NbRecvLoop (dp : loc)
  | SyncComplete (op : Z) (dp : loc) | SyncRetry (op : Z) (dp : loc)
  | CloseEnter.

Inductive ending :=
  | EWait (cv : condvar) (k : point)
  | ERet (status : Z) (after : list action).

Record region := Region {
  r_chan : channel_t;
  r_cells : gmap loc Z;
  r_acts : list action;   (* wake-ups made while holding the mutex *)
  r_end : ending
}.

(** Field updates. *)
Definition set_buffer (ch : channel_t) (b : buffer_t Z) : channel_t :=
  Chan (Some b) (closed_flag ch) (send_selectors ch) (recv_selectors ch) (is_unbuffered ch)
    (active_unbuf_op ch) (unbuf_stage ch) (unbuf_data ch) (waiting_senders ch) (waiting_receivers ch).
Definition set_closed (ch : channel_t) : channel_t :=
  Chan (buffer ch) true (send_selectors ch) (recv_selectors ch) (is_unbuffered ch)
    (active_unbuf_op ch) (unbuf_stage ch) (unbuf_data ch) (waiting_senders ch) (waiting_receivers ch).
Definition set_selectors (ch : channel_t) (ss rs : option (list_t loc)) : channel_t :=
  Chan (buffer ch) (closed_flag ch) ss rs (is_unbuffered ch)
    (active_unbuf_op ch) (unbuf_stage ch) (unbuf_data ch) (waiting_senders ch) (waiting_receivers ch).
Definition set_stage (ch : channel_t) (stage : Z) : channel_t :=
  Chan (buffer ch) (closed_flag ch) (send_selectors ch) (recv_selectors ch) (is_unbuffered ch)
    (active_unbuf_op ch) stage (unbuf_data ch) (waiting_senders ch) (waiting_receivers ch).
Definition set_active (ch : channel_t) (op : Z) (dp : loc) : channel_t :=
  Chan (buffer ch) (closed_flag ch) (send_selectors ch) (recv_selectors ch) (is_unbuffered ch)
    op (unbuf_stage ch) (Some dp) (waiting_senders ch) (waiting_receivers ch).
Definition add_waiting (ch : channel_t) (op n : Z) : channel_t :=
  Chan (buffer ch) (closed_flag ch) (send_selectors ch) (recv_selectors ch) (is_unbuffered ch)
    (active_unbuf_op ch) (unbuf_stage ch) (unbuf_data ch)
    (if op =? unbuf_op_send then waiting_senders ch + n else waiting_senders ch)
    (if op =? unbuf_op_send then waiting_receivers ch else waiting_receivers ch + n).

(** [*p] and [*p = v] for a [void**]. *)
Definition get_cell (cells : gmap loc Z) (p : ptr) : outcome Z :=
  match p with
  | None => Fault NullDeref
  | Some l => match cells !! l with Some v => Done v | None => Fault Dangling end
  end.
Definition set_cell (cells : gmap loc Z) (p : ptr) (v : Z) : outcome (gmap loc Z) :=
  _ ← get_cell cells p; l ← deref p; Done (<[l := v]> cells).

(** ** The functions of channel.c *)

Section code.
Context `{Malloc}.

Definition channel_create (live : gset loc) (size : Z) : outcome (option channel_t) :=
  match malloc live with
  | None => Done None
  | Some l =>
      let live := {[l]} ∪ live in
      let ss := list_create live in
      let rs := list_create live in
      if size =? 0 then Done (Some (Chan None false ss rs true unbuf_op_none 0 None 0 0))
      else
        b ← buffer_create live size;
        Done (Some (Chan (Some b) false ss rs false unbuf_op_none 0 None 0 0))
  end.

(** The semaphores posted by the two notification loops. *)
Definition notify_select_senders (ch : channel_t) : outcome (list loc) :=
  list_visit (send_selectors ch).
Definition notify_select_receivers (ch : channel_t) : outcome (list loc) :=
  list_visit (recv_selectors ch).

Definition add_select_sender (ch : channel_t) (sem : loc) : outcome channel_t :=
  '(_, ss) ← list_insert (send_selectors ch) sem;
  Done (set_selectors ch ss (recv_selectors ch)).
Definition remove_select_sender (ch : channel_t) (sem : loc) : outcome channel_t :=
  p ← list_find (send_selectors ch) sem;
  ss ← list_remove (send_selectors ch) p;
  Done (set_selectors ch ss (recv_selectors ch)).
Definition add_select_receiver (ch : channel_t) (sem : loc) : outcome channel_t :=
  '(_, rs) ← list_insert (recv_selectors ch) sem;
  Done (set_selectors ch (send_selectors ch) rs).
Definition remove_select_receiver (ch : channel_t) (sem : loc) : outcome channel_t :=
  p ← list_find (recv_selectors ch) sem;
  rs ← list_remove (recv_selectors ch) p;
  Done (set_selectors ch (send_selectors ch) rs).

(** From the label [stage0]. *)
Definition unbuffered_sync (ch : channel_t) (cells : gmap loc Z) (op : Z) (dp : loc)
    : outcome region :=
  if unbuf_stage ch =? 0 then
    let ch := set_active (set_stage ch 1) op dp in
    let acts := if op =? unbuf_op_send then [NotifyReceivers; Broadcast cond_not_empty]
                else [NotifySenders; Broadcast cond_not_full] in
    Done (Region ch cells acts (EWait rendezvous_complete_cv (SyncComplete op dp)))
  else if unbuf_stage ch =? 1 then
    if active_unbuf_op ch =? op then
      Done (Region (add_waiting ch op 1) cells [] (EWait rendezvous_wait_cv (SyncRetry op dp)))
    else
      cells ← (if op =? unbuf_op_receive
               then v ← get_cell cells (unbuf_data ch); set_cell cells (Some dp) v
               else v ← get_cell cells (Some dp); set_cell cells (unbuf_data ch) v);
      Done (Region (set_stage ch 2) cells [Signal rendezvous_complete_cv] (ERet SUCCESS []))
  else
    Done (Region (add_waiting ch op 1) cells [] (EWait rendezvous_wait_cv (SyncRetry op dp))).

(** After [pthread_cond_wait] on [rendezvous_complete_cv]. *)
Definition unbuffered_sync_complete (ch : channel_t) (cells : gmap loc Z) : outcome region :=
  Done (Region (set_stage ch 0) cells [Broadcast rendezvous_wait_cv] (ERet SUCCESS [])).

(** After [pthread_cond_wait] on [rendezvous_wait_cv], then [goto stage0]. *)
Definition unbuffered_sync_retry (ch : channel_t) (cells : gmap loc Z) (op : Z) (dp : loc)
    : outcome region :=
  unbuffered_sync (add_waiting ch op (-1)) cells op dp.

(** The loop [while (buffer_add(...) == BUFFER_ERROR)] of [channel_send] and
    what follows it. *)
Definition send_loop (ch : channel_t) (cells : gmap loc Z) (dp : loc) : outcome region :=
  v ← get_cell cells (Some dp);
  b ← deref (buffer ch);
  '(st, b) ← buffer_add b v;
  match st with
  | BUFFER_ERROR =>
      if closed_flag ch then Done (Region (set_buffer ch b) cells [] (ERet CLOSED_ERROR []))
      else Done (Region (set_buffer ch b) cells [] (EWait cond_not_full (SendLoop dp)))
  | BUFFER_SUCCESS =>
      Done (Region (set_buffer ch b) cells []
              (ERet SUCCESS [NotifyReceivers; Signal cond_not_empty]))
  end.

(** [lock_rc] is what [pthread_mutex_lock] returned. *)
Definition channel_send (lock_rc : Z) (ch : channel_t) (cells : gmap loc Z) (dp : loc)
    : outcome region :=
  if negb (lock_rc =? 0) then Done (Region ch cells [] (ERet GENERIC_ERROR []))
  else if closed_flag ch then Done (Region ch cells [] (ERet CLOSED_ERROR []))
  else if is_unbuffered ch then unbuffered_sync ch cells unbuf_op_send dp
  else send_loop ch cells dp.

Definition receive_loop (ch : channel_t) (cells : gmap loc Z) (dp : loc) : outcome region :=
  b ← deref (buffer ch);
  '(st, v, b) ← buffer_remove b;
  match st with
  | BUFFER_ERROR =>
      if closed_flag ch then Done (Region (set_buffer ch b) cells [] (ERet CLOSED_ERROR []))
      else Done (Region (set_buffer ch b) cells [] (EWait cond_not_empty (RecvLoop dp)))
  | BUFFER_SUCCESS =>
      v ← deref v;
      cells ← set_cell cells (Some dp) v;
      Done (Region (set_buffer ch b) cells []
              (ERet SUCCESS [NotifySenders; Signal cond_not_full]))
  end.

Definition channel_receive (lock_rc : Z) (ch : channel_t) (cells : gmap loc Z) (dp : loc)
    : outcome region :=
  if negb (lock_rc =? 0) then Done (Region ch cells [] (ERet GENERIC_ERROR []))
  else if closed_flag ch then Done (Region ch cells [] (ERet CLOSED_ERROR []))
  else if is_unbuffered ch then unbuffered_sync ch cells unbuf_op_receive dp
  else receive_loop ch cells dp.

(** The unbuffered branch of [channel_non_blocking_send], from the test of its
    [while] loop. *)
Definition nb_send_loop (ch : channel_t) (cells : gmap loc Z) (dp : loc) : outcome region :=
  if (0 <? waiting_receivers ch) && (unbuf_stage ch =? 0) && (list_count (recv_selectors ch) =? 0)
  then Done (Region ch cells [] (EWait cond_not_empty (NbSendLoop dp)))
  else if ((unbuf_stage ch =? 1) && (active_unbuf_op ch =? unbuf_op_receive))
          || negb (list_count (recv_selectors ch) =? 0)
  then unbuffered_sync ch cells unbuf_op_send dp
  else Done (Region ch cells [] (ERet CHANNEL_FULL [])).

Definition channel_non_blocking_send (lock_rc : Z) (ch : channel_t) (cells : gmap loc Z)
    (dp : loc) : outcome region :=
  if negb (lock_rc =? 0) then Done (Region ch cells [] (ERet GENERIC_ERROR []))
  else if closed_flag ch then Done (Region ch cells [] (ERet CLOSED_ERROR []))
  else if is_unbuffered ch then nb_send_loop ch cells dp
  else
    v ← get_cell cells (Some dp);
    b ← deref (buffer ch);
    '(st, b) ← buffer_add b v;
    match st with
    | BUFFER_ERROR => Done (Region (set_buffer ch b) cells [] (ERet CHANNEL_FULL []))
    | BUFFER_SUCCESS =>
        Done (Region (set_buffer ch b) cells []
                (ERet SUCCESS [NotifyReceivers; Signal cond_not_empty]))
    end.

Definition nb_receive_loop (ch : channel_t) (cells : gmap loc Z) (dp : loc) : outcome region :=
  if (0 <? waiting_senders ch) && (unbuf_stage ch =? 0) && (list_count (send_selectors ch) =? 0)
  then Done (Region ch cells [] (EWait cond_not_full (NbRecvLoop dp)))
  else if ((unbuf_stage ch =? 1) && (active_unbuf_op ch =? unbuf_op_send))
          || negb (list_count (send_selectors ch) =? 0)
  then unbuffered_sync ch cells unbuf_op_receive dp
  else Done (Region ch cells [] (ERet CHANNEL_EMPTY [])).

Definition channel_non_blocking_receive (lock_rc : Z) (ch : channel_t) (cells : gmap loc Z)
    (dp : loc) : outcome region :=
  if negb (lock_rc =? 0) then Done (Region ch cells [] (ERet GENERIC_ERROR []))
  else if closed_flag ch then Done (Region ch cells [] (ERet CLOSED_ERROR []))
  else if is_unbuffered ch then nb_receive_loop ch cells dp
  else
    b ← deref (buffer ch);
    '(st, v, b) ← buffer_remove b;
    match st with
    | BUFFER_ERROR => Done (Region (set_buffer ch b) cells [] (ERet CHANNEL_EMPTY []))
    | BUFFER_SUCCESS =>
        v ← deref v;
        cells ← set_cell cells (Some dp) v;
        Done (Region (set_buffer ch b) cells []
                (ERet SUCCESS [NotifySenders; Signal cond_not_full]))
    end.

Definition channel_close (lock_rc : Z) (ch : channel_t) (cells : gmap loc Z) : outcome region :=
  if negb (lock_rc =? 0) then Done (Region ch cells [] (ERet GENERIC_ERROR []))
  else if closed_flag ch then Done (Region ch cells [] (ERet CLOSED_ERROR []))
  else Done (Region (set_closed ch) cells []
               (ERet SUCCESS [NotifyReceivers; NotifySenders;
                              Broadcast cond_not_empty; Broadcast cond_not_full;
                              Broadcast rendezvous_wait_cv; Broadcast rendezvous_complete_cv])).

(** The status, and the list nodes left allocated ([None]: not destroyed). *)
Definition channel_destroy (ch : channel_t)
    : outcome (Z * option (gmap loc (node loc) * gmap loc (node loc))) :=
  if negb (closed_flag ch) then Done (DESTROY_ERROR, None)
  else
    _ ← (if is_unbuffered ch then Done tt else b ← deref (buffer ch); Done tt);
    ss ← list_destroy (send_selectors ch);
    rs ← list_destroy (recv_selectors ch);
    Done (SUCCESS, Some (ss, rs)).

(** The code that runs from a point, once the mutex is held. *)
Definition run_point (k : point) (lock_rc : Z) (ch : channel_t) (cells : gmap loc Z)
    : outcome region :=
  match k with
  | SendEnter dp => channel_send lock_rc ch cells dp
  | SendLoop dp => send_loop ch cells dp
  | RecvEnter dp => channel_receive lock_rc ch cells dp
  | RecvLoop dp => receive_loop ch cells dp
  | NbSendEnter dp => channel_non_blocking_send lock_rc ch cells dp
  | NbSendLoop dp => nb_send_loop ch cells dp
  | NbRecvEnter dp => channel_non_blocking_receive lock_rc ch cells dp
  | NbRecvLoop dp => nb_receive_loop ch cells dp
  | SyncComplete _ _ => unbuffered_sync_complete ch cells
  | SyncRetry op dp => unbuffered_sync_retry ch cells op dp
  | CloseEnter => channel_close lock_rc ch cells
  end.
End code.

(** ** The error paths *)

Definition entry_point (k : point) : Prop :=
  match k with
  | SendEnter _ | RecvEnter _ | NbSendEnter _ | NbRecvEnter _ | CloseEnter => True
  | _ => False
  end.

Lemma list_destroy_ok {D} (l : list_t D) ns : list_ok l ns -> list_destroy (Some l) = Done ∅.
Proof.
  intros [Hr Hh _ _ _]. unfold list_destroy. rewrite Hh.
  eapply free_chain_rep; [done|]. by apply rep_fuel.
Qed.

(** C38: the errors of the channel functions.  A call that cannot take the mutex
    returns [GENERIC_ERROR] and a call on a closed channel [CLOSED_ERROR], both
    without touching the channel or the caller's variable and without waking
    anybody; [channel_destroy] refuses an open channel with [DESTROY_ERROR], and
    frees every node of a closed one. *)
Theorem channel_error_paths (k : point) (rc : Z) (ch : channel_t) (cells : gmap loc Z) :
  entry_point k ->
  (rc <> 0 -> run_point k rc ch cells = Done (Region ch cells [] (ERet GENERIC_ERROR []))) /\
  (rc = 0 -> closed_flag ch = true ->
     run_point k rc ch cells = Done (Region ch cells [] (ERet CLOSED_ERROR []))) /\
  (closed_flag ch = false -> channel_destroy ch = Done (DESTROY_ERROR, None)) /\
  (forall ss rs ns ns', closed_flag ch = true -> send_selectors ch = Some ss ->
     recv_selectors ch = Some rs -> list_ok ss ns -> list_ok rs ns' ->
     is_unbuffered ch = true \/ is_Some (buffer ch) ->
     channel_destroy ch = Done (SUCCESS, Some (∅, ∅))).
Proof.
  intros Hk. split_done.
  - intros Hrc. apply Z.eqb_neq in Hrc. destruct k; try done; simpl;
      unfold channel_send, channel_receive, channel_non_blocking_send,
        channel_non_blocking_receive, channel_close; by rewrite Hrc.
  - intros -> Hc. destruct k; try done; simpl;
      unfold channel_send, channel_receive, channel_non_blocking_send,
        channel_non_blocking_receive, channel_close; by rewrite Hc.
  - intros Hc. unfold channel_destroy. by rewrite Hc.
  - intros ss rs ns ns' Hc Hs Hr Hss Hrs Hb. unfold channel_destroy. rewrite Hc.
    cbn [negb]. rewrite Hs, Hr, (list_destroy_ok _ _ Hss), (list_destroy_ok _ _ Hrs).
    destruct (is_unbuffered ch); [done|]. by destruct Hb as [|[b ->]].
Qed.

Lemma channel_error_paths_witness :
  channel_close 0 (Chan None true (Some (List None None 0 ∅)) (Some (List None None 0 ∅)) true
                     unbuf_op_none 0 None 0 0) ∅ =
    Done (Region (Chan None true (Some (List None None 0 ∅)) (Some (List None None 0 ∅)) true
                     unbuf_op_none 0 None 0 0) ∅ [] (ERet CLOSED_ERROR [])).
Proof. apply (channel_error_paths CloseEnter 0); [exact I|reflexivity|reflexivity]. Defined.
