(* ===== verification/System.v ===== *)
(** * Threads on a channel

    A step relation for any number of threads calling the functions of
    [channel.c] on one channel: a thread that is ready takes the mutex and runs a
    region ([Channel.run_point]) atomically, waits, is woken, makes its wake-ups
    after unlocking one at a time, and returns.  Between any two steps every
    other thread may step.  [allow_close] says whether threads may
    close the channel and [allow_spurious] on which condition variables
    [pthread_cond_wait] may return without a wake-up; POSIX permits it on all. *)

From Stdlib Require Import ZArith Lia.
From stdpp Require Import gmap list.
From S2P Require Import Prelude Dll ConcList Buffer Channel.

(** ** States and steps *)

Inductive tstate :=
  | Ready (k : point)
  | Blocked (cv : condvar) (k : point)
  | Finishing (status : Z) (acts : list action).

(** [sent] and [recvd] log, in order, the messages of the calls that returned
    [SUCCESS]. *)
Record sys := Sys {
  s_chan : channel_t;
  s_cells : gmap loc Z;
  s_threads : gmap loc tstate;
  s_sems : gmap loc Z;
  sent : list Z;
  recvd : list Z
}.

Record env := Env { allow_close : bool; allow_spurious : condvar -> bool }.

Definition initial (ch : channel_t) : sys := Sys ch ∅ ∅ ∅ [] [].

Definition set_threads (s : sys) (ts : gmap loc tstate) : sys :=
  Sys (s_chan s) (s_cells s) ts (s_sems s) (sent s) (recvd s).

(** The threads left waiting after a broadcast. *)
Definition wake (cv : condvar) (st : tstate) : tstate :=
  match st with Blocked cv' k => if decide (cv' = cv) then Ready k else st | _ => st end.

(** [sem_post] on each semaphore of a list. *)
Definition post (sems : list loc) (m : gmap loc Z) : gmap loc Z :=
  foldr (fun sem m => <[sem := default 0 (m !! sem) + 1]> m) m sems.

Inductive do_action : action -> sys -> sys -> Prop :=
  | act_signal_none cv s :
      (forall t k, s_threads s !! t <> Some (Blocked cv k)) ->
      do_action (Signal cv) s s
  | act_signal cv s t k :
      s_threads s !! t = Some (Blocked cv k) ->
      do_action (Signal cv) s (set_threads s (<[t := Ready k]> (s_threads s)))
  | act_broadcast cv s :
      do_action (Broadcast cv) s (set_threads s (wake cv <$> s_threads s))
  | act_notify_senders s sems :
      notify_select_senders (s_chan s) = Done sems ->
      do_action NotifySenders s
        (Sys (s_chan s) (s_cells s) (s_threads s) (post sems (s_sems s)) (sent s) (recvd s))
  | act_notify_receivers s sems :
      notify_select_receivers (s_chan s) = Done sems ->
      do_action NotifyReceivers s
        (Sys (s_chan s) (s_cells s) (s_threads s) (post sems (s_sems s)) (sent s) (recvd s)).

Inductive do_actions : list action -> sys -> sys -> Prop :=
  | acts_nil s : do_actions [] s s
  | acts_cons a acts s s' s'' :
      do_action a s s' -> do_actions acts s' s'' -> do_actions (a :: acts) s s''.

(** What a region adds to the logs: the message of a call that succeeds. *)
Inductive event := Sent (v : Z) | Received (v : Z).

Definition point_op (k : point) : option (Z * loc) :=
  match k with
  | SendEnter dp | SendLoop dp | NbSendEnter dp | NbSendLoop dp => Some (unbuf_op_send, dp)
  | RecvEnter dp | RecvLoop dp | NbRecvEnter dp | NbRecvLoop dp => Some (unbuf_op_receive, dp)
  | SyncComplete op dp | SyncRetry op dp => Some (op, dp)
  | CloseEnter => None
  end.

Definition event_of (k : point) (r : region) : option event :=
  match r_end r, point_op k with
  | ERet st _, Some (op, dp) =>
      if st =? SUCCESS
      then (v ← r_cells r !! dp; Some (if op =? unbuf_op_send then Sent v else Received v))
      else None
  | _, _ => None
  end.

Definition log_sent (e : option event) (l : list Z) : list Z :=
  match e with Some (Sent v) => l ++ [v] | _ => l end.
Definition log_recvd (e : option event) (l : list Z) : list Z :=
  match e with Some (Received v) => l ++ [v] | _ => l end.

Definition after_region (e : ending) : tstate :=
  match e with EWait cv k => Blocked cv k | ERet st acts => Finishing st acts end.

(** The state after a region, before the wake-ups it made. *)
Definition region_result (s : sys) (t : loc) (k : point) (r : region) : sys :=
  Sys (r_chan r) (r_cells r) (<[t := after_region (r_end r)]> (s_threads s)) (s_sems s)
    (log_sent (event_of k r) (sent s)) (log_recvd (event_of k r) (recvd s)).

(** The entry points a thread may call; thread [t] uses its own variable [t]. *)
Definition entry (e : env) (t : loc) (k : point) : Prop :=
  k = SendEnter t \/ k = RecvEnter t \/ k = NbSendEnter t \/ k = NbRecvEnter t \/
  (k = CloseEnter /\ allow_close e = true).

Section steps.
Context `{Malloc}.

Inductive step (e : env) : sys -> sys -> Prop :=
  | step_call s t k v :
      s_threads s !! t = None -> entry e t k ->
      step e s (Sys (s_chan s) (<[t := v]> (s_cells s)) (<[t := Ready k]> (s_threads s))
                  (s_sems s) (sent s) (recvd s))
  | step_region s t k rc r s' :
      s_threads s !! t = Some (Ready k) ->
      run_point k rc (s_chan s) (s_cells s) = Done r ->
      do_actions (r_acts r) (region_result s t k r) s' ->
      step e s s'
  | step_wakeup s t a acts st s' :
      s_threads s !! t = Some (Finishing st (a :: acts)) ->
      do_action a (set_threads s (<[t := Finishing st acts]> (s_threads s))) s' ->
      step e s s'
  | step_return s t st :
      s_threads s !! t = Some (Finishing st []) ->
      step e s (set_threads s (delete t (s_threads s)))
  | step_spurious s t cv k :
      allow_spurious e cv = true ->
      s_threads s !! t = Some (Blocked cv k) ->
      step e s (set_threads s (<[t := Ready k]> (s_threads s)))
  | step_select s ch sem :
      add_select_sender (s_chan s) sem = Done ch \/ add_select_receiver (s_chan s) sem = Done ch \/
      remove_select_sender (s_chan s) sem = Done ch \/
      remove_select_receiver (s_chan s) sem = Done ch ->
      step e s (Sys ch (s_cells s) (s_threads s) (s_sems s) (sent s) (recvd s)).

Inductive steps (e : env) : sys -> sys -> Prop :=
  | steps_refl s : steps e s s
  | steps_snoc s s' s'' : steps e s s' -> step e s' s'' -> steps e s s''.

Lemma steps_invariant (e : env) (I : sys -> Prop) :
  (forall s s', I s -> step e s s' -> I s') -> forall s s', I s -> steps e s s' -> I s'.
Proof. intros Hstep s s' Hs. induction 1; eauto. Qed.

Lemma steps_trans e s s' s'' : steps e s s' -> steps e s' s'' -> steps e s s''.
Proof. intros H1 H2. induction H2; eauto using steps. Qed.

Lemma steps_one e s s' : step e s s' -> steps e s s'.
Proof. eauto using steps. Qed.
End steps.

(** ** Wake-ups do not touch the channel, the variables or the logs *)

Lemma do_action_frame a s s' :
  do_action a s s' ->
  s_chan s' = s_chan s /\ s_cells s' = s_cells s /\ sent s' = sent s /\ recvd s' = recvd s.
Proof. by destruct 1. Qed.

Lemma do_actions_frame acts s s' :
  do_actions acts s s' ->
  s_chan s' = s_chan s /\ s_cells s' = s_cells s /\ sent s' = sent s /\ recvd s' = recvd s.
Proof.
  induction 1 as [|a acts s s' s'' Ha _ IH]; [done|]. apply do_action_frame in Ha.
  destruct Ha as (? & ? & ? & ?), IH as (? & ? & ? & ?). split_done; congruence.
Qed.

(** A thread's state changes under a wake-up only from blocked to ready. *)
Definition same_or_woken (st st' : tstate) : Prop :=
  st' = st \/ exists cv k, st = Blocked cv k /\ st' = Ready k.

Lemma do_action_threads a s s' :
  do_action a s s' ->
  forall t st', s_threads s' !! t = Some st' ->
  exists st, s_threads s !! t = Some st /\ same_or_woken st st'.
Proof.
  unfold same_or_woken.
  destruct 1 as [| cv s u k Hu| cv s | |]; simpl; intros t st' Ht; eauto.
  - destruct (decide (t = u)) as [->|].
    + rewrite lookup_insert_eq in Ht. simplify_eq. eexists. split; [done|]. right. eauto.
    + rewrite lookup_insert_ne in Ht by done. eauto.
  - rewrite lookup_fmap in Ht. apply fmap_Some in Ht as (st & Hst & ->). exists st. split; [done|].
    destruct st; simpl; auto. case_decide; eauto.
Qed.

Lemma do_actions_threads acts s s' :
  do_actions acts s s' ->
  forall t st', s_threads s' !! t = Some st' ->
  exists st, s_threads s !! t = Some st /\ same_or_woken st st'.
Proof.
  induction 1 as [|a acts s s' s'' Ha _ IH]; intros t st' Ht; [exists st'; by split; [|left]|].
  destruct (IH _ _ Ht) as (st1 & Ht1 & Hw1).
  destruct (do_action_threads _ _ _ Ha _ _ Ht1) as (st0 & Ht0 & Hw0).
  exists st0. split; [done|]. unfold same_or_woken in *. naive_solver.
Qed.

(** ** Building concrete executions *)

Ltac sys_call t k v :=
  eapply steps_trans;
  [apply steps_one; apply (step_call _ _ t k v);
   [vm_compute; reflexivity | unfold entry; simpl; tauto] | ].
Ltac sys_region t k :=
  eapply steps_trans;
  [apply steps_one; eapply (step_region _ _ t k 0);
   [vm_compute; reflexivity | vm_compute; reflexivity | sys_actions] | ]
with sys_actions :=
  simpl; repeat first
    [ apply acts_nil
    | eapply acts_cons; [sys_action | ] ]
with sys_action :=
  first
    [ apply act_broadcast
    | eapply act_notify_senders; vm_compute; reflexivity
    | eapply act_notify_receivers; vm_compute; reflexivity
    | apply act_signal_none; sys_no_blocked ]
with sys_no_blocked :=
  let t := fresh "t" in let k := fresh "k" in let E := fresh "E" in
  intros t k E; simpl in E;
  repeat (first [rewrite lookup_insert in E | rewrite lookup_delete in E];
          case_decide; simplify_eq); done.
Ltac sys_wakeup t :=
  eapply steps_trans;
  [apply steps_one; eapply (step_wakeup _ _ t); [vm_compute; reflexivity | sys_action] | ].
Ltac sys_return t :=
  eapply steps_trans;
  [apply steps_one; eapply (step_return _ _ t); vm_compute; reflexivity | ].
Ltac sys_signal t u :=
  eapply steps_trans;
  [apply steps_one; eapply (step_wakeup _ _ t);
   [vm_compute; reflexivity | eapply (act_signal _ _ u); vm_compute; reflexivity] | ].
