(* ===== verification/Buffered.v ===== *)
(** * Buffered channels under concurrency

    The invariants of a channel created with a non-zero size, over every
    interleaving of any number of threads ([System.steps]), with [channel_close]
    and spurious wake-ups allowed: messages come out in the order they went in,
    each exactly once, and no wake-up is lost. *)

From Stdlib Require Import ZArith Lia.
From stdpp Require Import gmap list.
From S2P Require Import Prelude Dll ConcList Buffer Channel System.

(** ** What a region does on a buffered channel *)

(** The channel holds the messages [q]; [c] is its [closed_flag]. *)
Definition buffered_chan (cap : Z) (ch : channel_t) (q : list Z) (c : bool) : Prop :=
  is_unbuffered ch = false /\ closed_flag ch = c /\
  exists b, buffer ch = Some b /\ buffer_ok b q /\ capacity b = cap.

(** Points a thread [t] reaches on a buffered channel, and those after a wait. *)
Definition loop_point (t : loc) (k : point) : Prop := k = SendLoop t \/ k = RecvLoop t.
Definition busy_point (t : loc) (k : point) : Prop :=
  k = SendEnter t \/ k = RecvEnter t \/ k = NbSendEnter t \/ k = NbRecvEnter t \/
  k = CloseEnter \/ loop_point t k.

(** The ways a region ends on a buffered channel, with the messages and the
    closed flag after it. *)
Inductive region_effect (cap : Z) (q : list Z) (c : bool) (t : loc) (v : Z)
    (cells : gmap loc Z) (k : point) : region -> list Z -> bool -> Prop :=
  | eff_refuse ch st :
      st <> SUCCESS -> (loop_point t k -> c = true) -> buffered_chan cap ch q c ->
      region_effect cap q c t v cells k (Region ch cells [] (ERet st [])) q c
  | eff_send ch :
      point_op k = Some (unbuf_op_send, t) -> Z.of_nat (length q) < cap ->
      buffered_chan cap ch (q ++ [v]) c ->
      region_effect cap q c t v cells k
        (Region ch cells [] (ERet SUCCESS [NotifyReceivers; Signal cond_not_empty])) (q ++ [v]) c
  | eff_receive ch w q' :
      point_op k = Some (unbuf_op_receive, t) -> q = w :: q' -> buffered_chan cap ch q' c ->
      region_effect cap q c t v cells k
        (Region ch (<[t := w]> cells) [] (ERet SUCCESS [NotifySenders; Signal cond_not_full])) q' c
  | eff_wait_full ch :
      point_op k = Some (unbuf_op_send, t) ->
      Z.of_nat (length q) = cap -> c = false -> buffered_chan cap ch q c ->
      region_effect cap q c t v cells k (Region ch cells [] (EWait cond_not_full (SendLoop t))) q c
  | eff_wait_empty ch :
      point_op k = Some (unbuf_op_receive, t) ->
      q = [] -> c = false -> buffered_chan cap ch q c ->
      region_effect cap q c t v cells k (Region ch cells [] (EWait cond_not_empty (RecvLoop t))) q c
  | eff_close ch :
      k = CloseEnter -> c = false -> buffered_chan cap ch q true ->
      region_effect cap q c t v cells k
        (Region ch cells []
           (ERet SUCCESS [NotifyReceivers; NotifySenders; Broadcast cond_not_empty;
                          Broadcast cond_not_full; Broadcast rendezvous_wait_cv;
                          Broadcast rendezvous_complete_cv])) q true.

Section regions.
Context `{Malloc}.
Implicit Types (ch : channel_t) (q : list Z) (cells : gmap loc Z).

Lemma set_buffer_chan cap ch q q' c b :
  buffered_chan cap ch q c -> buffer_ok b q' -> capacity b = cap ->
  buffered_chan cap (set_buffer ch b) q' c.
Proof. intros (? & ? & _) ? ?. unfold buffered_chan. split_done. by exists b. Qed.

(** The add of a send or a non-blocking send. *)
Lemma add_cases cap ch q c b v :
  buffered_chan cap ch q c -> buffer ch = Some b ->
  (Z.of_nat (length q) = cap /\ buffer_add b v = Done (BUFFER_ERROR, b) /\
     buffered_chan cap (set_buffer ch b) q c) \/
  (Z.of_nat (length q) < cap /\ exists b', buffer_add b v = Done (BUFFER_SUCCESS, b') /\
     buffered_chan cap (set_buffer ch b') (q ++ [v]) c).
Proof.
  intros Hch Hb. pose proof Hch as (Hu & Hc & b0 & Hb' & Hok & Hcap). simplify_eq.
  destruct (decide (Z.of_nat (length q) < capacity b)) as [Hlt|Hge].
  - right. split; [done|]. destruct (buffer_add_ok b q v Hok Hlt) as (b' & -> & Hok' & Hcap').
    exists b'. split; [done|]. by eapply set_buffer_chan.
  - left. pose proof (bok_full _ _ Hok). split_done; [lia|apply buffer_add_full with q; [done|lia]|].
    by eapply set_buffer_chan.
Qed.

Lemma remove_cases cap ch q c b :
  buffered_chan cap ch q c -> buffer ch = Some b ->
  (q = [] /\ buffer_remove b = Done (BUFFER_ERROR, None, b) /\
     buffered_chan cap (set_buffer ch b) q c) \/
  (exists w q' b', q = w :: q' /\ buffer_remove b = Done (BUFFER_SUCCESS, Some w, b') /\
     buffered_chan cap (set_buffer ch b') q' c).
Proof.
  intros Hch Hb. pose proof Hch as (Hu & Hc & b0 & Hb' & Hok & Hcap). simplify_eq.
  destruct q as [|w q'].
  - left. split_done; [by apply buffer_remove_empty|]. by eapply set_buffer_chan.
  - right. destruct (buffer_remove_ok b w q' Hok) as (b' & -> & Hok' & Hcap').
    exists w, q', b'. split_done. by eapply set_buffer_chan.
Qed.

Lemma send_loop_effect cap ch q c cells t v k :
  buffered_chan cap ch q c -> cells !! t = Some v ->
  point_op k = Some (unbuf_op_send, t) -> (k = SendLoop t \/ c = false) ->
  exists r q' c', send_loop ch cells t = Done r /\ region_effect cap q c t v cells k r q' c'.
Proof.
  intros Hch Hv Hop Hk. unfold send_loop. simpl. rewrite Hv. simpl.
  destruct (Hch) as (Hu & Hc & b & Hb & Hok & Hcap). rewrite Hb. simpl.
  destruct (add_cases _ _ _ _ _ v Hch Hb) as [(Hlen & -> & Hch')|(Hlen & b' & -> & Hch')]; simpl.
  - rewrite Hc. destruct c; do 3 eexists; (split; [done|]).
    + apply eff_refuse; done.
    + apply eff_wait_full; done.
  - do 3 eexists. split; [done|]. by apply eff_send.
Qed.

Lemma receive_loop_effect cap ch q c cells t v k :
  buffered_chan cap ch q c -> cells !! t = Some v ->
  point_op k = Some (unbuf_op_receive, t) -> (k = RecvLoop t \/ c = false) ->
  exists r q' c', receive_loop ch cells t = Done r /\ region_effect cap q c t v cells k r q' c'.
Proof.
  intros Hch Hv Hop Hk. unfold receive_loop.
  destruct (Hch) as (Hu & Hc & b & Hb & Hok & Hcap). rewrite Hb. simpl.
  destruct (remove_cases _ _ _ _ _ Hch Hb) as [(-> & -> & Hch')|(w & q' & b' & -> & -> & Hch')];
    simpl.
  - rewrite Hc. destruct c; do 3 eexists; (split; [done|]).
    + by apply eff_refuse.
    + by apply eff_wait_empty.
  - unfold set_cell. simpl. rewrite Hv. simpl. do 3 eexists. split; [done|].
    by eapply eff_receive.
Qed.

(** Every region of a buffered channel runs without a fault, to one of the
    five effects. *)
Lemma run_point_effect cap ch q c cells t v k rc :
  buffered_chan cap ch q c -> cells !! t = Some v -> busy_point t k ->
  exists r q' c', run_point k rc ch cells = Done r /\ region_effect cap q c t v cells k r q' c'.
Proof.
  intros Hch Hv Hk. pose proof Hch as (Hu & Hc & b & Hb & Hok & Hcap).
  assert (Hrefuse : forall st, st <> SUCCESS -> (loop_point t k -> c = true) ->
    exists r q' c', Done (Region ch cells [] (ERet st [])) = Done r /\
      region_effect cap q c t v cells k r q' c').
  { intros. do 3 eexists. split; [done|]. by apply eff_refuse. }
  unfold loop_point in *.
  destruct Hk as [->|[->|[->|[->|[->|[->| ->]]]]]]; simpl.
  - unfold channel_send. case_match; [by apply Hrefuse; naive_solver|]. rewrite Hc.
    destruct c; [by apply Hrefuse|]. rewrite Hu. apply send_loop_effect; auto.
  - unfold channel_receive. case_match; [by apply Hrefuse; naive_solver|]. rewrite Hc.
    destruct c; [by apply Hrefuse|]. rewrite Hu. apply receive_loop_effect; auto.
  - unfold channel_non_blocking_send. case_match; [by apply Hrefuse; naive_solver|]. rewrite Hc.
    destruct c; [by apply Hrefuse|]. rewrite Hu. simpl. rewrite Hv. simpl. rewrite Hb. simpl.
    destruct (add_cases _ _ _ _ _ v Hch Hb) as [(Hlen & -> & Hch')|(Hlen & b' & -> & Hch')]; simpl;
      do 3 eexists; (split; [done|]).
    + apply eff_refuse; [done|by unfold loop_point; naive_solver|done].
    + by apply eff_send.
  - unfold channel_non_blocking_receive. case_match; [by apply Hrefuse; naive_solver|]. rewrite Hc.
    destruct c; [by apply Hrefuse|]. rewrite Hu. simpl. rewrite Hb. simpl.
    destruct (remove_cases _ _ _ _ _ Hch Hb) as [(Hq & -> & Hch')|(w & q' & b' & Hq & -> & Hch')];
      simpl.
    + do 3 eexists. split; [done|]. apply eff_refuse; [done|by unfold loop_point; naive_solver|done].
    + unfold set_cell. simpl. rewrite Hv. simpl. do 3 eexists. split; [done|]. by eapply eff_receive.
  - unfold channel_close. case_match; [by apply Hrefuse; naive_solver|]. rewrite Hc.
    destruct c; [by apply Hrefuse|]. do 3 eexists. split; [done|]. apply eff_close; [done|done|].
    unfold buffered_chan. split_done. by exists b.
  - apply send_loop_effect; auto.
  - apply receive_loop_effect; auto.
Qed.
End regions.

(** ** The invariant of a system on a buffered channel *)

Definition thread_ok (cells : gmap loc Z) (t : loc) (st : tstate) : Prop :=
  match st with
  | Ready k => busy_point t k /\ is_Some (cells !! t)
  | Blocked cv k =>
      ((cv = cond_not_full /\ k = SendLoop t) \/ (cv = cond_not_empty /\ k = RecvLoop t)) /\
      is_Some (cells !! t)
  | Finishing _ _ => True
  end.

Definition threads_ok (s : sys) : Prop :=
  forall t st, s_threads s !! t = Some st -> thread_ok (s_cells s) t st.

(** What was received, followed by what the buffer holds, is what was sent. *)
Record fifo_inv (cap : Z) (q : list Z) (c : bool) (s : sys) : Prop := {
  fi_chan : buffered_chan cap (s_chan s) q c;
  fi_logs : sent s = recvd s ++ q;
  fi_threads : threads_ok s
}.

(** Wake-ups on [cv] that are still to come, and woken threads that have not
    run yet; the room (or messages) they are about. *)
Definition is_signal (cv : condvar) (a : action) : bool :=
  match a with Signal cv' => bool_decide (cv' = cv) | _ => false end.
Definition weight (cv : condvar) (st : tstate) : nat :=
  match st with
  | Finishing _ acts => length (filter (fun a => is_signal cv a = true) acts)
  | Ready (SendLoop _) => if decide (cv = cond_not_full) then 1%nat else 0%nat
  | Ready (RecvLoop _) => if decide (cv = cond_not_empty) then 1%nat else 0%nat
  | _ => 0%nat
  end.
Definition room (cv : condvar) (cap : Z) (q : list Z) : Z :=
  match cv with cond_not_full => cap - Z.of_nat (length q) | _ => Z.of_nat (length q) end.
Definition has_blocked (cv : condvar) (s : sys) : Prop :=
  exists t k, s_threads s !! t = Some (Blocked cv k).
Definition will_broadcast (cv : condvar) (s : sys) : Prop :=
  exists t st acts, s_threads s !! t = Some (Finishing st acts) /\ Broadcast cv ∈ acts.

(** If a thread waits on [cv], then a broadcast is on its way, or the channel
    is open and at least [n] wake-ups are on their way. *)
Definition owed (cv : condvar) (n : Z) (c : bool) (s : sys) : Prop :=
  has_blocked cv s ->
  (c = true /\ will_broadcast cv s) \/
  (c = false /\ n <= Z.of_nat (msum (weight cv) (s_threads s))).

(** No wake-up is lost: as many are on their way as there is room. *)
Definition wakeups_inv (cv : condvar) (cap : Z) (q : list Z) (c : bool) (s : sys) : Prop :=
  owed cv (room cv cap q) c s.

Definition buffered_inv (cap : Z) (s : sys) : Prop :=
  exists q c, fifo_inv cap q c s /\
    wakeups_inv cond_not_full cap q c s /\ wakeups_inv cond_not_empty cap q c s.

Section preservation.
Context `{Malloc}.
Implicit Types (s : sys) (q : list Z) (cells : gmap loc Z).

Lemma thread_ok_cells cells cells' t st :
  (is_Some (cells !! t) -> is_Some (cells' !! t)) -> thread_ok cells t st -> thread_ok cells' t st.
Proof. destruct st; simpl; naive_solver. Qed.

Lemma thread_ok_woken cells t st st' :
  same_or_woken st st' -> thread_ok cells t st -> thread_ok cells t st'.
Proof.
  intros [->|(cv & k & -> & ->)]; [done|]. simpl. unfold busy_point, loop_point. naive_solver.
Qed.

Lemma after_region_ok cap q c t v cells k r q' c' :
  cells !! t = Some v -> region_effect cap q c t v cells k r q' c' ->
  thread_ok (r_cells r) t (after_region (r_end r)).
Proof. intros Hv []; simpl; eauto. Qed.

Lemma region_cells cap q c t v cells k r q' c' :
  region_effect cap q c t v cells k r q' c' ->
  forall u, is_Some (cells !! u) -> is_Some (r_cells r !! u).
Proof.
  intros [] u Hu; simpl in *; auto. destruct (decide (u = t)) as [->|].
  - by rewrite lookup_insert_eq.
  - by rewrite lookup_insert_ne.
Qed.

(** A region changes the queue and the logs together. *)
Lemma region_fifo cap q c s t v k r q' c' :
  fifo_inv cap q c s -> s_threads s !! t = Some (Ready k) -> s_cells s !! t = Some v ->
  region_effect cap q c t v (s_cells s) k r q' c' ->
  fifo_inv cap q' c' (region_result s t k r).
Proof.
  intros [Hch Hlog Hth] Ht Hv Heff.
  assert (Hth' : threads_ok (region_result s t k r)).
  { intros u st Hu. simpl in *. destruct (decide (u = t)) as [->|].
    - rewrite lookup_insert_eq in Hu. simplify_eq. by eapply after_region_ok.
    - rewrite lookup_insert_ne in Hu by done. eapply thread_ok_cells; [|by apply Hth].
      by eapply region_cells. }
  destruct Heff as [ch st Hst Hlp Hb|ch Hop Hlt Hb|ch w q' Hop Hq Hb|ch Hop Hlen Hc Hb
                   |ch Hop Hq Hc Hb|ch Hk Hc Hb];
    split; try done; unfold region_result, event_of in *; simpl.
  - destruct (point_op k) as [[]|]; [|done]. by rewrite (proj2 (Z.eqb_neq _ _)).
  - rewrite Hop. simpl. rewrite Hv. simpl. by rewrite Hlog, app_assoc.
  - rewrite Hop. simpl. rewrite lookup_insert_eq. simpl. by rewrite Hlog, Hq, <- app_assoc.
  - by rewrite Hk.
Qed.
End preservation.

Section wakeups.
Context `{Malloc}.
Implicit Types (s : sys) (q : list Z).

Lemma blocked_after s t st' cv :
  (forall k, st' <> Blocked cv k) ->
  has_blocked cv (set_threads s (<[t := st']> (s_threads s))) -> has_blocked cv s.
Proof.
  intros Hst (u & k & Hu). simpl in Hu. destruct (decide (u = t)) as [->|].
  - rewrite lookup_insert_eq in Hu. naive_solver.
  - rewrite lookup_insert_ne in Hu by done. by exists u, k.
Qed.

(** Changing the state of one thread that makes no broadcast. *)
Lemma owed_update cv n n' c s s' t st st' :
  s_threads s' = <[t := st']> (s_threads s) ->
  owed cv n c s -> s_threads s !! t = Some st ->
  (forall k, st' <> Blocked cv k) ->
  (forall status acts, st = Finishing status acts -> Broadcast cv ∈ acts ->
     exists status' acts', st' = Finishing status' acts' /\ Broadcast cv ∈ acts') ->
  (c = false -> n' + Z.of_nat (weight cv st) <= n + Z.of_nat (weight cv st')) ->
  owed cv n' c s'.
Proof.
  intros Hs' Hinv Ht Hnb Hbc Hroom (u & k & Hu). rewrite Hs' in Hu.
  assert (has_blocked cv s) as Hb%Hinv.
  { eapply (blocked_after s t st'); [done|]. exists u, k. by simpl. }
  destruct Hb as [(-> & w & status & acts & Hw & Hin)|(-> & Hr)].
  - left. split; [done|]. destruct (decide (w = t)) as [->|].
    + simplify_eq. destruct (Hbc _ _ eq_refl Hin) as (status' & acts' & -> & ?).
      exists t, status', acts'. by rewrite Hs', lookup_insert_eq.
    + exists w, status, acts. by rewrite Hs', lookup_insert_ne.
  - right. split; [done|]. rewrite Hs'.
    pose proof (msum_insert (weight cv) _ _ _ st' Ht). specialize (Hroom eq_refl). lia.
Qed.

(** A thread that starts to wait does so when there is nothing to wait for. *)
Lemma owed_nothing cv n s' : n <= 0 -> owed cv n false s'.
Proof. intros Hr _. right. split; [done|]. lia. Qed.

Lemma owed_closing cv n s' t st acts :
  s_threads s' !! t = Some (Finishing st acts) -> Broadcast cv ∈ acts -> owed cv n true s'.
Proof. intros Ht Hin _. left. split; [done|]. by exists t, st, acts. Qed.

(** Only a thread past its wait counts, and only for its own condition. *)
Lemma weight_op cv k op t :
  point_op k = Some (op, t) ->
  (weight cv (Ready k) <= match cv with
                         | cond_not_full => if (op =? unbuf_op_send)%Z then 1 else 0
                         | cond_not_empty => if (op =? unbuf_op_receive)%Z then 1 else 0
                         | _ => 0
                         end)%nat.
Proof. destruct k, cv; simpl; intros; simplify_eq; simpl; lia. Qed.

Lemma weight_refused cv t k : busy_point t k -> ~ loop_point t k -> weight cv (Ready k) = 0%nat.
Proof. unfold busy_point, loop_point. destruct k; simpl; naive_solver. Qed.

Lemma region_wakeups cv cap q c s t v k r q' c' :
  (cv = cond_not_full \/ cv = cond_not_empty) ->
  wakeups_inv cv cap q c s -> s_threads s !! t = Some (Ready k) -> busy_point t k ->
  region_effect cap q c t v (s_cells s) k r q' c' ->
  wakeups_inv cv cap q' c' (region_result s t k r).
Proof.
  intros Hcv Hinv Ht Hk Heff.
  destruct Heff as [ch st Hst Hlp Hb|ch Hop Hlt Hb|ch w q' Hop Hq Hb|ch Hop Hlen Hc Hb
                   |ch Hop Hq Hc Hb|ch Hkc Hc Hb];
    try (pose proof (weight_op cv k _ t Hop) as Hw).
  - eapply (owed_update cv (room cv cap q)); [done..|]. intros ->.
    rewrite (weight_refused cv t k Hk); [simpl; lia|]. intros ?%Hlp. done.
  - eapply (owed_update cv (room cv cap q)); [done..|]. intros ->.
    destruct Hcv as [-> | ->]; simpl in Hw |- *; rewrite ?length_app; simpl; lia.
  - eapply (owed_update cv (room cv cap q)); [done..|]. intros ->.
    destruct Hcv as [-> | ->]; simpl in Hw |- *; rewrite Hq; simpl; lia.
  - subst c. destruct Hcv as [-> | ->]; [apply owed_nothing; simpl; lia|].
    eapply owed_update; [done..|]. intros _. simpl in Hw |- *. lia.
  - subst c. destruct Hcv as [-> | ->]; [|apply owed_nothing; simpl; subst; simpl; lia].
    eapply owed_update; [done..|]. intros _. simpl in Hw |- *. lia.
  - eapply (owed_closing _ _ _ t); [simpl; by rewrite lookup_insert_eq|].
    destruct Hcv as [-> | ->]; set_solver.
Qed.

(** A broadcast on another condition variable. *)
Lemma owed_wake cv cv0 n c s :
  cv0 <> cv -> (forall t st, s_threads s !! t = Some st -> thread_ok (s_cells s) t st) ->
  owed cv n c s -> owed cv n c (set_threads s (wake cv0 <$> s_threads s)).
Proof.
  intros Hne Hok Hinv (u & k & Hu). simpl in Hu.
  assert (has_blocked cv s) as Hb%Hinv.
  { rewrite lookup_fmap in Hu. destruct (_ !! u) as [[]|] eqn:Hst; simplify_eq/=.
    case_decide; simplify_eq. by eexists _, _. }
  destruct Hb as [(-> & w & st & acts & Hw & Hin)|(-> & Hr)].
  - left. split; [done|]. exists w, st, acts. simpl. by rewrite lookup_fmap, Hw.
  - right. split; [done|]. simpl. rewrite msum_fmap; [done|].
    intros t [k'|cv' k'|] Ht; simpl; try done. case_decide; [|done]. subst cv'.
    destruct (Hok _ _ Ht) as [[[-> ->]|[-> ->]] _]; simpl; by rewrite decide_False.
Qed.

(** Making the next wake-up of a thread that has left the mutex. *)
Lemma action_owed cv n c s t st a acts s' :
  owed cv n c s -> threads_ok s -> s_threads s !! t = Some (Finishing st (a :: acts)) ->
  do_action a (set_threads s (<[t := Finishing st acts]> (s_threads s))) s' -> owed cv n c s'.
Proof.
  intros Hinv Hok Ht Ha.
  set (st0 := Finishing st (a :: acts)) in Ht. set (st1 := Finishing st acts) in Ha.
  assert (Hpop : forall s'', s_threads s'' = <[t := st1]> (s_threads s) ->
    is_signal cv a = false -> a <> Broadcast cv -> owed cv n c s'').
  { intros s'' Hs'' Hsig Hbc. eapply (owed_update cv n); [done..| |].
    - intros ? ? [= <- <-] Hin. exists st, acts. set_solver.
    - intros _. simpl. rewrite filter_cons, Hsig. simpl. lia. }
  inversion Ha as [cv0 s0 Hno|cv0 s0 u k Hu|cv0 s0| |]; subst; try (by apply Hpop).
  - destruct (decide (cv0 = cv)) as [->|Hne]; [intros (u & k & Hu); by destruct (Hno u k)|].
    apply Hpop; [done| |congruence]. simpl. by rewrite bool_decide_eq_false.
  - simpl in Hu. destruct (decide (u = t)) as [->|Hut]; [by rewrite lookup_insert_eq in Hu|].
    rewrite lookup_insert_ne in Hu by done.
    pose proof (Hok _ _ Hu) as [Hk _].
    assert (Hu' : owed cv (n + Z.of_nat (weight cv (Ready k))) c
                    (set_threads s (<[u := Ready k]> (s_threads s)))).
    { eapply owed_update; [done..|]. simpl. lia. }
    eapply (owed_update cv _ n c (set_threads s (<[u := Ready k]> (s_threads s))) _ t
              (Finishing st (Signal cv0 :: acts)) st1);
      [simpl; by apply insert_insert_ne|exact Hu'| | | |].
    + simpl. by rewrite lookup_insert_ne.
    + done.
    + intros ? ? [= <- <-] Hin. exists st, acts. set_solver.
    + intros _. simpl. rewrite filter_cons. simpl. case_bool_decide; subst.
      * destruct Hk as [[-> ->]|[-> ->]]; simpl; lia.
      * simpl. lia.
  - destruct (decide (cv0 = cv)) as [->|Hne].
    + intros (u & k & Hu). simpl in Hu. rewrite lookup_fmap in Hu.
      destruct (_ !! u) as [[]|]; simpl in Hu; try done. case_decide; naive_solver.
    + assert (Hp : owed cv n c (set_threads s (<[t := st1]> (s_threads s)))).
      { apply Hpop; [done|done|congruence]. }
      eapply owed_wake; [done| |exact Hp].
      intros u st' Hu. destruct (decide (u = t)) as [->|].
      * simpl in Hu. rewrite lookup_insert_eq in Hu. by simplify_eq.
      * simpl in Hu. rewrite lookup_insert_ne in Hu by done. by apply Hok.
Qed.
End wakeups.

Section reachable.
Context `{Malloc}.
Implicit Types (s : sys) (q : list Z).

Lemma action_threads_ok s a s' : threads_ok s -> do_action a s s' -> threads_ok s'.
Proof.
  intros Hok Ha t st' Ht. destruct (do_action_frame _ _ _ Ha) as (_ & -> & _).
  destruct (do_action_threads _ _ _ Ha _ _ Ht) as (st & Hst & Hw).
  eapply thread_ok_woken; [done|]. by apply Hok.
Qed.

Lemma fifo_threads cap q c s ts :
  fifo_inv cap q c s ->
  (forall t st, ts !! t = Some st -> thread_ok (s_cells s) t st) ->
  fifo_inv cap q c (set_threads s ts).
Proof. intros [? ? ?] ?. by split. Qed.

Lemma fifo_action cap q c s a s' : fifo_inv cap q c s -> do_action a s s' -> fifo_inv cap q c s'.
Proof.
  intros [Hch Hlog Hth] Ha. pose proof (action_threads_ok _ _ _ Hth Ha) as Hth'.
  destruct (do_action_frame _ _ _ Ha) as (E1 & E2 & E3 & E4).
  split; [by rewrite E1|by rewrite E3, E4|done].
Qed.

Lemma selectors_buffered cap ch q c ch' sem :
  buffered_chan cap ch q c ->
  add_select_sender ch sem = Done ch' \/ add_select_receiver ch sem = Done ch' \/
  remove_select_sender ch sem = Done ch' \/ remove_select_receiver ch sem = Done ch' ->
  buffered_chan cap ch' q c.
Proof.
  intros (Hu & Hc & Hb). unfold add_select_sender, add_select_receiver, remove_select_sender,
    remove_select_receiver.
  intros [Hs|[Hs|[Hs|Hs]]]; inv_outcome; try (destruct x as [? ?]); simplify_eq; done.
Qed.

Lemma owed_same cv n c s s' t st' :
  s_threads s' = <[t := st']> (s_threads s) -> s_threads s !! t = None ->
  (forall k, st' <> Blocked cv k) -> owed cv n c s -> owed cv n c s'.
Proof.
  intros Hs' Hn Hnb Hinv (u & k & Hu). rewrite Hs' in Hu.
  assert (has_blocked cv s) as Hb%Hinv.
  { eapply (blocked_after s t st'); [done|]. exists u, k. by simpl. }
  destruct Hb as [(-> & w & st & acts & Hw & Hin)|(-> & Hr)].
  - left. split; [done|]. exists w, st, acts. rewrite Hs', lookup_insert_ne; [done|congruence].
  - right. split; [done|]. rewrite Hs', msum_insert_new by done. lia.
Qed.

Lemma owed_delete cv n c s t st :
  s_threads s !! t = Some (Finishing st []) -> owed cv n c s ->
  owed cv n c (set_threads s (delete t (s_threads s))).
Proof.
  intros Ht Hinv (u & k & Hu). simpl in Hu.
  assert (Hut : u <> t) by (intros ->; by rewrite lookup_delete_eq in Hu).
  rewrite lookup_delete_ne in Hu by done.
  destruct Hinv as [(-> & w & st' & acts & Hw & Hin)|(-> & Hr)]; [by eexists _, _| |].
  - left. split; [done|]. exists w, st', acts. simpl.
    rewrite lookup_delete_ne; [done|]. intros ->. simplify_eq. by apply not_elem_of_nil in Hin.
  - right. split; [done|]. simpl. rewrite (msum_delete _ _ _ _ Ht) in Hr. simpl in Hr. lia.
Qed.

Lemma fifo_call cap q c e s t k v :
  fifo_inv cap q c s -> entry e t k ->
  fifo_inv cap q c (Sys (s_chan s) (<[t := v]> (s_cells s)) (<[t := Ready k]> (s_threads s))
                     (s_sems s) (sent s) (recvd s)).
Proof.
  intros [? ? Hth] He. split; [done..|]. intros u st Hu. simpl in *.
  destruct (decide (u = t)) as [->|].
  - rewrite lookup_insert_eq in Hu. simplify_eq. simpl. rewrite lookup_insert_eq.
    split; [|done]. unfold entry, busy_point in *. naive_solver.
  - rewrite lookup_insert_ne in Hu by done. eapply thread_ok_cells; [|by apply Hth].
    by rewrite lookup_insert_ne.
Qed.

Lemma fifo_thread cap q c s t st :
  fifo_inv cap q c s -> thread_ok (s_cells s) t st ->
  fifo_inv cap q c (set_threads s (<[t := st]> (s_threads s))).
Proof.
  intros Hf Hst. apply fifo_threads; [done|]. intros u st' Hu.
  destruct (decide (u = t)) as [->|].
  - rewrite lookup_insert_eq in Hu. by simplify_eq.
  - rewrite lookup_insert_ne in Hu by done. by apply Hf.
Qed.

Lemma spurious_owed cv n c s t cv0 k :
  owed cv n c s -> s_threads s !! t = Some (Blocked cv0 k) ->
  owed cv n c (set_threads s (<[t := Ready k]> (s_threads s))).
Proof. intros Hinv Ht. eapply (owed_update cv n); [done..|]. simpl. lia. Qed.

Lemma buffered_inv_step cap e s s' : buffered_inv cap s -> step e s s' -> buffered_inv cap s'.
Proof.
  intros (q & c & Hf & Hwf & Hwe) Hstep. pose proof Hf as [Hch Hlog Hth].
  destruct Hstep as [s t k v Hnone He|s t k rc r s' Ht Hrun Hacts|s t a acts st s' Ht Ha
                    |s t st Ht|s t cv k _ Ht|s ch sem Hsel].
  - exists q, c. split_done; [by eapply fifo_call| |]; by eapply owed_same.
  - pose proof (Hth _ _ Ht) as [Hk [v Hv]].
    destruct (run_point_effect cap _ q c _ t v k rc Hch Hv Hk) as (r' & q' & c' & Hr' & Heff).
    rewrite Hrun in Hr'. apply Done_inj in Hr' as <-.
    assert (r_acts r = []) as Hna by by destruct Heff.
    rewrite Hna in Hacts. inversion Hacts; subst.
    exists q', c'. split_done; [by eapply region_fifo| |]; eapply region_wakeups; eauto.
  - exists q, c. split_done; [|by eapply action_owed..].
    eapply fifo_action; [|done]. by apply fifo_thread.
  - exists q, c. split_done; [|by eapply owed_delete..]. apply fifo_threads; [done|].
    intros u st' Hu. apply lookup_delete_Some in Hu as [_ Hu]. by apply Hth.
  - exists q, c. split_done; [|by eapply spurious_owed..]. apply fifo_thread; [done|].
    pose proof (Hth _ _ Ht) as Hok. eapply thread_ok_woken; [|exact Hok]. right. eauto.
  - exists q, c. split_done. split; [|done|done]. simpl. by eapply selectors_buffered.
Qed.

Lemma buffered_inv_initial live cap ch :
  0 < cap -> cap * sizeof_pointer < w64 ->
  channel_create live cap = Done (Some ch) ->
  (exists b, buffer ch = Some b /\ is_Some (data b)) -> buffered_inv cap (initial ch).
Proof.
  intros Hcap Hroom Hcr (b & Hb & cells & Hd). exists [], false. split_done.
  - split; [|done|by intros t st Ht; simpl in Ht; rewrite lookup_empty in Ht].
    unfold channel_create in Hcr. destruct (malloc live) as [l|]; [|by simplify_eq].
    rewrite (proj2 (Z.eqb_neq _ _)) in Hcr by lia. apply bind_Done in Hcr as (b' & Hb' & [= <-]).
    simpl in Hb. injection Hb as ->. unfold buffered_chan. simpl. split_done.
    exists b. split; [done|]. unfold buffer_create in Hb'.
    destruct (malloc _) as [l1|] eqn:E1; [|done]. simpl in Hb'.
    destruct (malloc ({[l1]} ∪ _)) as [l2|] eqn:E2; simplify_eq/=.
    destruct (buffer_create_ok (V := Z) _ cap _ _ (Z.lt_le_incl _ _ Hcap) Hroom E1 E2) as (b & Hb & ?).
    unfold buffer_create in Hb. rewrite E1 in Hb. simpl in Hb. rewrite E2 in Hb. by simplify_eq.
  - intros (t & k & Ht). simpl in Ht. by rewrite lookup_empty in Ht.
  - intros (t & k & Ht). simpl in Ht. by rewrite lookup_empty in Ht.
Qed.
End reachable.

(** ** Properties *)

(** C3: a buffered channel is a FIFO queue under every interleaving.  In every
    state reachable from [channel_create] by any number of threads that send,
    receive, poll, close and select, with spurious wake-ups, the messages of the
    sends that succeeded are, in order, those of the receives that succeeded
    followed by the at most [cap] messages the buffer holds: no message is lost,
    duplicated or reordered. *)
Theorem buffered_fifo `{Malloc} e live cap ch s :
  0 < cap -> cap * sizeof_pointer < w64 ->
  channel_create live cap = Done (Some ch) -> (exists b, buffer ch = Some b /\ is_Some (data b)) ->
  steps e (initial ch) s ->
  exists q b, buffer (s_chan s) = Some b /\ buffer_ok b q /\
    sent s = recvd s ++ q /\ Z.of_nat (length q) <= cap.
Proof.
  intros Hcap Hroom Hcr Hb Hs.
  destruct (steps_invariant e (buffered_inv cap) (buffered_inv_step cap e) _ _
              (buffered_inv_initial live cap ch Hcap Hroom Hcr Hb) Hs) as (q & c & Hf & _ & _).
  destruct Hf as [(_ & _ & b & Hbuf & Hok & <-) Hlog _].
  exists q, b. split_done. apply Hok.
Qed.

(** C16: no lost wake-up, no avoidable deadlock.  In every reachable state of a
    buffered channel where every thread left in a call is blocked in
    [pthread_cond_wait], the channel is open and either all of them are senders
    and the buffer is full, or all are receivers and it is empty.  In
    particular closing a channel leaves no thread blocked. *)
Theorem buffered_deadlock_only_full_or_empty `{Malloc} e live cap ch s :
  0 < cap -> cap * sizeof_pointer < w64 ->
  channel_create live cap = Done (Some ch) -> (exists b, buffer ch = Some b /\ is_Some (data b)) ->
  steps e (initial ch) s ->
  s_threads s <> ∅ ->
  (forall t st, s_threads s !! t = Some st -> exists cv k, st = Blocked cv k) ->
  closed_flag (s_chan s) = false /\
  exists q, sent s = recvd s ++ q /\
    ((Z.of_nat (length q) = cap /\
        forall t st, s_threads s !! t = Some st -> st = Blocked cond_not_full (SendLoop t)) \/
     (q = [] /\
        forall t st, s_threads s !! t = Some st -> st = Blocked cond_not_empty (RecvLoop t))).
Proof.
  intros Hcap Hroom Hcr Hb Hs Hne Hall.
  destruct (steps_invariant e (buffered_inv cap) (buffered_inv_step cap e) _ _
              (buffered_inv_initial live cap ch Hcap Hroom Hcr Hb) Hs) as (q & c & Hf & Hwf & Hwe).
  destruct Hf as [(_ & Hc & b & Hbuf & Hok & Hcp) Hlog Hth].
  pose proof (bok_full _ _ Hok) as Hfull. rewrite Hcp in Hfull.
  assert (Hquiet : forall cv, wakeups_inv cv cap q c s -> has_blocked cv s -> c = false /\ room cv cap q <= 0).
  { intros cv Hinv [(_ & t & st & acts & Ht & _)|(-> & Hr)]%Hinv.
    - destruct (Hall _ _ Ht) as (? & ? & ?). done.
    - split; [done|]. rewrite msum_zero in Hr; [done|].
      intros t st Ht. by destruct (Hall _ _ Ht) as (? & ? & ->). }
  assert (Hkind : forall t st, s_threads s !! t = Some st ->
    (st = Blocked cond_not_full (SendLoop t) /\ c = false /\ Z.of_nat (length q) = cap) \/
    (st = Blocked cond_not_empty (RecvLoop t) /\ c = false /\ q = [])).
  { intros t st Ht. destruct (Hall _ _ Ht) as (cv & k & ->).
    destruct (Hth _ _ Ht) as [[[-> ->]|[-> ->]] _]; [left|right].
    - destruct (Hquiet _ Hwf) as [-> Hr]; [by eexists _, _|]. simpl in Hr. split_done; lia.
    - destruct (Hquiet _ Hwe) as [-> Hr]; [by eexists _, _|]. simpl in Hr. split_done.
      destruct q; [done|simpl in Hr; lia]. }
  destruct (map_choose _ Hne) as (t0 & st0 & Ht0).
  destruct (Hkind _ _ Ht0) as [(_ & -> & Hq)|(_ & -> & ->)].
  - split; [done|]. exists q. split; [done|]. left. split; [done|]. intros t st Ht.
    destruct (Hkind _ _ Ht) as [(-> & _)|(-> & _ & ->)]; [done|simpl in Hq; lia].
  - split; [done|]. exists []. split; [done|]. right. split; [done|]. intros t st Ht.
    destruct (Hkind _ _ Ht) as [(-> & _ & Hq)|(-> & _)]; [simpl in Hq; lia|done].
Qed.

(** A channel of size 1, and two executions on it. *)
Definition demo_chan : channel_t :=
  Eval vm_compute in
    match @channel_create malloc_first ∅ 1 with
    | Done (Some ch) => ch
    | _ => Chan None false None None true unbuf_op_none 0 None 0 0
    end.

Lemma demo_run :
  exists s, @steps malloc_first (Env true (fun _ => true)) (initial demo_chan) s /\ sent s = [7; 8] /\ recvd s = [7].
Proof.
  eexists. split; [|split].
  - sys_call 1%positive (SendEnter 1) 7. sys_region 1%positive (SendEnter 1).
    sys_call 2%positive (SendEnter 2) 8. sys_region 2%positive (SendEnter 2).
    sys_wakeup 1%positive. sys_wakeup 1%positive. sys_return 1%positive.
    sys_call 3%positive (RecvEnter 3) 0. sys_region 3%positive (RecvEnter 3).
    sys_wakeup 3%positive. sys_signal 3%positive 2%positive.
    sys_region 2%positive (SendLoop 2). apply steps_refl.
  - vm_compute. reflexivity.
  - vm_compute. reflexivity.
Qed.

Lemma demo_blocked :
  exists s, @steps malloc_first (Env true (fun _ => true)) (initial demo_chan) s /\
    s_threads s = {[1%positive := Blocked cond_not_empty (RecvLoop 1)]}.
Proof.
  eexists. split.
  - sys_call 1%positive (RecvEnter 1) 0. sys_region 1%positive (RecvEnter 1). apply steps_refl.
  - vm_compute. reflexivity.
Qed.

Lemma buffered_fifo_witness :
  exists s, sent s = [7; 8] /\ recvd s = [7] /\
  exists q b, buffer (s_chan s) = Some b /\ buffer_ok b q /\
    sent s = recvd s ++ q /\ Z.of_nat (length q) <= 1.
Proof.
  destruct demo_run as (s & Hs & E1 & E2). exists s. split; [exact E1|]. split; [exact E2|].
  apply (@buffered_fifo malloc_first (Env true (fun _ => true)) ∅ 1 demo_chan s); try reflexivity; [|exact Hs].
  eexists. split; [reflexivity|]. eexists. reflexivity.
Defined.

Lemma buffered_deadlock_witness :
  exists s, closed_flag (s_chan s) = false /\
  exists q, sent s = recvd s ++ q /\
    ((Z.of_nat (length q) = 1 /\
        forall t st, s_threads s !! t = Some st -> st = Blocked cond_not_full (SendLoop t)) \/
     (q = [] /\
        forall t st, s_threads s !! t = Some st -> st = Blocked cond_not_empty (RecvLoop t))).
Proof.
  destruct demo_blocked as (s & Hs & E). exists s.
  apply (@buffered_deadlock_only_full_or_empty malloc_first (Env true (fun _ => true)) ∅ 1 demo_chan s);
    try reflexivity.
  - eexists. split; [reflexivity|]. eexists. reflexivity.
  - exact Hs.
  - rewrite E. discriminate.
  - intros t st Ht. rewrite E in Ht. apply lookup_singleton_Some in Ht as [_ <-]. eauto.
Defined.
