(* ===== verification/Unbuffered.v ===== *)
(** * Unbuffered channels under concurrency

    The rendezvous protocol of [unbuffered_sync] and the two non-blocking calls,
    over every interleaving of any number of threads ([System.steps]).  The
    channel is an abstract three-state machine ([rdv]): nobody is in the
    rendezvous, one thread offers an operation, or a second one took it and the
    first has yet to return.  Without [channel_close], and as long as a thread that
    waits for its partner is not woken spuriously (the other waits may be), the
    code implements that machine: messages are exchanged one at a time and a
    deadlock is one-sided.  The last section runs the code where it does not
    keep these promises: when the channel is closed during a rendezvous, when a
    non-blocking call waits, and when the wait for the partner ends spuriously. *)

From Stdlib Require Import ZArith Lia.
From stdpp Require Import gmap list.
From S2P Require Import Prelude Dll ConcList Buffer Channel System.

(** ** The rendezvous as a state machine *)

Inductive rdv :=
  | Idle
  | Offered (t : loc) (op : Z)
  | Taken (t : loc) (op : Z) (v : Z).

Definition is_op (op : Z) : Prop := op = unbuf_op_send \/ op = unbuf_op_receive.

Definition rdv_chan (ch : channel_t) (r : rdv) : Prop :=
  is_unbuffered ch = true /\ closed_flag ch = false /\
  match r with
  | Idle => unbuf_stage ch = 0
  | Offered t op => unbuf_stage ch = 1 /\ active_unbuf_op ch = op /\ unbuf_data ch = Some t
  | Taken _ _ _ => unbuf_stage ch = 2
  end.

(** The thread that holds the rendezvous. *)
Definition rdv_holder (ts : gmap loc tstate) (r : rdv) : Prop :=
  match r with
  | Idle => True
  | Offered t op =>
      is_op op /\ ts !! t = Some (Blocked rendezvous_complete_cv (SyncComplete op t))
  | Taken t op _ => is_op op /\ ts !! t = Some (Ready (SyncComplete op t))
  end.

(** The messages of the calls that returned: a call whose partner has not
    returned yet is the only difference. *)
Definition rdv_logs (sent recvd : list Z) (r : rdv) : Prop :=
  match r with
  | Taken _ op v => if op =? unbuf_op_send then recvd = sent ++ [v] else sent = recvd ++ [v]
  | _ => sent = recvd
  end.

(** Where threads are: a blocked retry has the direction on offer. *)
Definition enter_point (t : loc) (k : point) : Prop :=
  k = SendEnter t \/ k = RecvEnter t \/ k = NbSendEnter t \/ k = NbRecvEnter t \/
  k = NbSendLoop t \/ k = NbRecvLoop t \/ exists op, is_op op /\ k = SyncRetry op t.
Definition retry_ok (r : rdv) (op : Z) : Prop :=
  match r with Idle => False | Offered _ op' => op' = op | Taken _ _ _ => True end.
Definition uthread_ok (r : rdv) (cells : gmap loc Z) (t : loc) (st : tstate) : Prop :=
  match st with
  | Ready k =>
      (enter_point t k /\ is_Some (cells !! t)) \/
      (exists op v, k = SyncComplete op t /\ r = Taken t op v /\ cells !! t = Some v)
  | Blocked cv k =>
      is_Some (cells !! t) /\
      ((cv = rendezvous_complete_cv /\ exists op, k = SyncComplete op t /\ r = Offered t op) \/
       (cv = rendezvous_wait_cv /\ exists op, is_op op /\ k = SyncRetry op t /\ retry_ok r op) \/
       (cv = cond_not_empty /\ k = NbSendLoop t) \/ (cv = cond_not_full /\ k = NbRecvLoop t))
  | Finishing _ acts => acts = []
  end.

Record rdv_inv (r : rdv) (s : sys) : Prop := {
  ri_chan : rdv_chan (s_chan s) r;
  ri_holder : rdv_holder (s_threads s) r;
  ri_logs : rdv_logs (sent s) (recvd s) r;
  ri_threads : forall t st, s_threads s !! t = Some st -> uthread_ok r (s_cells s) t st
}.

(** ** What a region does to the rendezvous *)

(** The ways a region of thread [t] at [k] ends, with the rendezvous after it. *)
Inductive rdv_effect (t : loc) (cells : gmap loc Z) (k : point) : rdv -> region -> rdv -> Prop :=
  | re_refuse r ch st :
      enter_point t k -> st <> SUCCESS -> rdv_chan ch r ->
      rdv_effect t cells k r (Region ch cells [] (ERet st [])) r
  | re_nb_send r ch :
      enter_point t k -> rdv_chan ch r ->
      rdv_effect t cells k r (Region ch cells [] (EWait cond_not_empty (NbSendLoop t))) r
  | re_nb_receive r ch :
      enter_point t k -> rdv_chan ch r ->
      rdv_effect t cells k r (Region ch cells [] (EWait cond_not_full (NbRecvLoop t))) r
  | re_offer ch op acts :
      enter_point t k -> is_op op -> rdv_chan ch (Offered t op) ->
      acts = [NotifyReceivers; Broadcast cond_not_empty] \/
      acts = [NotifySenders; Broadcast cond_not_full] ->
      rdv_effect t cells k Idle
        (Region ch cells acts (EWait rendezvous_complete_cv (SyncComplete op t))) (Offered t op)
  | re_retry r ch op :
      enter_point t k -> is_op op -> retry_ok r op -> rdv_chan ch r ->
      rdv_effect t cells k r (Region ch cells [] (EWait rendezvous_wait_cv (SyncRetry op t))) r
  | re_take_receive u v ch :
      enter_point t k -> point_op k = Some (unbuf_op_receive, t) -> cells !! u = Some v ->
      rdv_chan ch (Taken u unbuf_op_send v) ->
      rdv_effect t cells k (Offered u unbuf_op_send)
        (Region ch (<[t := v]> cells) [Signal rendezvous_complete_cv] (ERet SUCCESS []))
        (Taken u unbuf_op_send v)
  | re_take_send u v ch :
      enter_point t k -> point_op k = Some (unbuf_op_send, t) -> cells !! t = Some v ->
      rdv_chan ch (Taken u unbuf_op_receive v) ->
      rdv_effect t cells k (Offered u unbuf_op_receive)
        (Region ch (<[u := v]> cells) [Signal rendezvous_complete_cv] (ERet SUCCESS []))
        (Taken u unbuf_op_receive v)
  | re_complete op v ch :
      k = SyncComplete op t -> rdv_chan ch Idle ->
      rdv_effect t cells k (Taken t op v)
        (Region ch cells [Broadcast rendezvous_wait_cv] (ERet SUCCESS [])) Idle.

Section regions.
Context `{Malloc}.
Implicit Types (ch : channel_t) (cells : gmap loc Z).

Lemma rdv_chan_waiting ch r op n : rdv_chan ch r -> rdv_chan (add_waiting ch op n) r.
Proof. by destruct r. Qed.

(** [unbuffered_sync] in each of the three stages. *)
Lemma unbuffered_sync_effect r ch cells k op t :
  enter_point t k -> is_op op -> rdv_chan ch r -> point_op k = Some (op, t) ->
  is_Some (cells !! t) ->
  (forall u op', r = Offered u op' -> u <> t /\ is_op op' /\ is_Some (cells !! u)) ->
  exists reg r', unbuffered_sync ch cells op t = Done reg /\ rdv_effect t cells k r reg r'.
Proof.
  intros Hent Hop (Hu & Hc & Hr) Hk [v Hv] Hoff. unfold unbuffered_sync. destruct r as [|u op'|u op' w].
  - rewrite Hr. simpl. do 2 eexists. split; [done|]. apply re_offer; [done|done| |].
    + unfold rdv_chan. split_done.
    + case_match; auto.
  - destruct Hr as (Hst & Hact & Hd). rewrite Hst, Hact, Hd. simpl.
    destruct (Hoff _ _ eq_refl) as (Hne & Hop' & [w Hw]).
    destruct (Z.eqb_spec op' op) as [->|Hneq].
    + do 2 eexists. split; [done|]. apply re_retry; [done|done|done|].
      apply rdv_chan_waiting. unfold rdv_chan. split_done.
    + destruct Hop as [-> | ->], Hop' as [-> | ->]; try done; simpl.
      * unfold set_cell. simpl. rewrite Hv. simpl. rewrite Hw. simpl.
        do 2 eexists. split; [done|]. by apply re_take_send.
      * unfold set_cell. simpl. rewrite Hw. simpl. rewrite Hv. simpl.
        do 2 eexists. split; [done|]. by apply re_take_receive.
  - rewrite Hr. simpl. do 2 eexists. split; [done|]. apply re_retry; [done|done|done|].
    by apply rdv_chan_waiting.
Qed.

(** Every region a thread can run on an open unbuffered channel ends in one of
    these ways, without a fault. *)
Lemma run_point_rdv r s t k rc :
  rdv_inv r s -> s_threads s !! t = Some (Ready k) ->
  exists reg r', run_point k rc (s_chan s) (s_cells s) = Done reg /\
    rdv_effect t (s_cells s) k r reg r'.
Proof.
  intros [Hch Hh Hl Hth] Ht. pose proof Hch as (Hu & Hc & _).
  pose proof (Hth _ _ Ht) as [[Hk Hcell]|(op & v & -> & -> & Hv)]; simpl.
  2:{ do 2 eexists. split; [done|]. eapply re_complete; [done|]. by destruct (s_chan s). }
  assert (Hoff : forall u op', r = Offered u op' ->
    u <> t /\ is_op op' /\ is_Some (s_cells s !! u)).
  { intros u op' ->. destruct Hh as [? Hh]. split_done; [congruence|].
    by destruct (Hth _ _ Hh). }
  assert (Hsync : forall op ch, is_op op -> rdv_chan ch r -> point_op k = Some (op, t) ->
    exists reg r', unbuffered_sync ch (s_cells s) op t = Done reg /\
      rdv_effect t (s_cells s) k r reg r') by eauto using unbuffered_sync_effect.
  assert (Hrefuse : forall st, st <> SUCCESS -> exists reg r',
    Done (Region (s_chan s) (s_cells s) [] (ERet st [])) = Done reg /\
    rdv_effect t (s_cells s) k r reg r').
  { intros. do 2 eexists. split; [done|]. by apply re_refuse. }
  assert (Hnbs : point_op k = Some (unbuf_op_send, t) -> exists reg r',
    nb_send_loop (s_chan s) (s_cells s) t = Done reg /\ rdv_effect t (s_cells s) k r reg r').
  { intros Hp. unfold nb_send_loop. case_match; [|case_match].
    - do 2 eexists. split; [done|]. by apply re_nb_send.
    - apply Hsync; [by left|done|done].
    - by apply Hrefuse. }
  assert (Hnbr : point_op k = Some (unbuf_op_receive, t) -> exists reg r',
    nb_receive_loop (s_chan s) (s_cells s) t = Done reg /\ rdv_effect t (s_cells s) k r reg r').
  { intros Hp. unfold nb_receive_loop. case_match; [|case_match].
    - do 2 eexists. split; [done|]. by apply re_nb_receive.
    - apply Hsync; [by right|done|done].
    - by apply Hrefuse. }
  destruct Hk as [->|[->|[->|[->|[->|[->|(op & Hop & ->)]]]]]]; simpl; auto.
  - unfold channel_send. case_match; [by apply Hrefuse|]. rewrite Hc, Hu. apply Hsync; [by left|done|done].
  - unfold channel_receive. case_match; [by apply Hrefuse|]. rewrite Hc, Hu. apply Hsync; [by right|done|done].
  - unfold channel_non_blocking_send. case_match; [by apply Hrefuse|]. rewrite Hc, Hu. auto.
  - unfold channel_non_blocking_receive. case_match; [by apply Hrefuse|]. rewrite Hc, Hu. auto.
  - apply Hsync; [done|by apply rdv_chan_waiting|done].
Qed.
End regions.

(** ** The invariant is preserved *)

Section preservation.
Context `{Malloc}.
Implicit Types (s : sys) (r : rdv).

(** The threads after the wake-ups of each kind of region. *)
Lemma do_actions_one a s s' : do_actions [a] s s' -> do_action a s s'.
Proof. intros Ha. inversion Ha as [|? ? ? ? ? H1 H2]; subst. inversion H2; by subst. Qed.

Lemma do_actions_offer acts s s' :
  do_actions acts s s' ->
  acts = [NotifyReceivers; Broadcast cond_not_empty] \/
  acts = [NotifySenders; Broadcast cond_not_full] ->
  exists cv, (cv = cond_not_empty \/ cv = cond_not_full) /\
    s_threads s' = wake cv <$> s_threads s.
Proof.
  intros Ha Hacts.
  destruct Hacts as [->| ->]; inversion Ha as [|? ? ? ? ? H1 H2]; subst;
    apply do_actions_one in H2; inversion H1; inversion H2; subst; eauto.
Qed.

Lemma do_action_signal cv s s' u k :
  do_action (Signal cv) s s' -> s_threads s !! u = Some (Blocked cv k) ->
  (forall t k', s_threads s !! t = Some (Blocked cv k') -> t = u) ->
  s_threads s' = <[u := Ready k]> (s_threads s).
Proof.
  intros Ha Hu Huniq. inversion Ha as [|? ? t k' Ht| | |]; subst; [naive_solver|].
  pose proof (Huniq _ _ Ht) as ->. simplify_eq. done.
Qed.

Lemma uthread_ok_cells r cells cells' t st :
  uthread_ok r cells t st -> (is_Some (cells !! t) -> is_Some (cells' !! t)) ->
  (forall op v, r = Taken t op v -> cells' !! t = cells !! t) -> uthread_ok r cells' t st.
Proof.
  destruct st; simpl; [|naive_solver|done].
  intros [?|(op & v & -> & -> & Hv)] Hs Hc; [naive_solver|]. right. exists op, v.
  by rewrite (Hc _ _ eq_refl).
Qed.

(** Threads that are in none of the waits of the rendezvous are indifferent to
    its state. *)
Lemma uthread_ok_idle r cells t st : uthread_ok Idle cells t st -> uthread_ok r cells t st.
Proof. destruct st; simpl; naive_solver. Qed.

Lemma uthread_ok_wake r cells t cv st :
  uthread_ok r cells t st -> cv <> rendezvous_complete_cv -> uthread_ok r cells t (wake cv st).
Proof.
  destruct st as [| cv' k|]; simpl; [done| |done]. intros (Hc & Hk) Hcv. case_decide; [|done].
  subst cv'. left. split; [|done]. unfold enter_point. naive_solver.
Qed.

Lemma uthread_ok_complete t op v cells u st :
  u <> t -> uthread_ok (Taken t op v) cells u st ->
  uthread_ok Idle cells u (wake rendezvous_wait_cv st).
Proof.
  intros Hu. destruct st as [| cv k|]; simpl; [naive_solver| |done]. intros (Hc & Hk).
  case_decide; simpl; unfold enter_point; naive_solver.
Qed.

Lemma uthread_ok_take u op v cells t st :
  t <> u -> uthread_ok (Offered u op) cells t st -> uthread_ok (Taken u op v) cells t st.
Proof. intros Ht. destruct st; simpl; naive_solver. Qed.

(** The state after a region, thread by thread. *)
Lemma rdv_inv_region r' s s0 s' t k reg (f : tstate -> tstate) :
  s0 = region_result s t k reg ->
  s_chan s' = s_chan s0 -> s_cells s' = s_cells s0 -> sent s' = sent s0 -> recvd s' = recvd s0 ->
  rdv_chan (r_chan reg) r' -> rdv_holder (s_threads s') r' ->
  rdv_logs (log_sent (event_of k reg) (sent s)) (log_recvd (event_of k reg) (recvd s)) r' ->
  (forall u st', s_threads s' !! u = Some st' ->
     uthread_ok r' (r_cells reg) u st') ->
  rdv_inv r' s'.
Proof. intros -> Hch Hce Hs Hr. split; rewrite ?Hch, ?Hce, ?Hs, ?Hr; done. Qed.

Lemma holder_ne r ts t k :
  rdv_holder ts r -> ts !! t = Some (Ready k) -> enter_point t k ->
  (forall u op, r = Offered u op -> u <> t) /\ (forall u op v, r = Taken u op v -> u <> t).
Proof.
  intros Hh Ht Hk. split.
  - intros u op -> ->. destruct Hh. congruence.
  - intros u op v -> ->. destruct Hh as [_ Hh]. simplify_eq. unfold enter_point in Hk. naive_solver.
Qed.

Lemma rdv_holder_insert r ts t st :
  rdv_holder ts r ->
  (forall u op, r = Offered u op -> u <> t) -> (forall u op v, r = Taken u op v -> u <> t) ->
  rdv_holder (<[t := st]> ts) r.
Proof.
  destruct r as [|u op|u op v]; simpl; [done| |]; intros [Hop Hu] H1 H2; split; try done.
  - rewrite lookup_insert_ne; [done|]. symmetry. eauto.
  - rewrite lookup_insert_ne; [done|]. symmetry. eauto.
Qed.

Lemma event_refuse k ch cells st acts :
  st <> SUCCESS -> event_of k (Region ch cells acts (ERet st [])) = None.
Proof.
  intros Hst. unfold event_of. simpl. destruct (point_op k) as [[]|]; [|done].
  by rewrite (proj2 (Z.eqb_neq _ _)).
Qed.

(** A region that only moves its own thread. *)
Lemma region_stay r s t k reg s' :
  rdv_inv r s -> s_threads s !! t = Some (Ready k) -> enter_point t k ->
  rdv_chan (r_chan reg) r -> r_cells reg = s_cells s -> r_acts reg = [] -> event_of k reg = None ->
  uthread_ok r (s_cells s) t (after_region (r_end reg)) ->
  do_actions (r_acts reg) (region_result s t k reg) s' -> rdv_inv r s'.
Proof.
  intros [Hch Hh Hl Hth] Ht Hk Hch' Hce Ha He Hst Hacts. rewrite Ha in Hacts.
  inversion Hacts; subst. destruct (holder_ne _ _ _ _ Hh Ht Hk) as [Hn1 Hn2].
  split; simpl; [done| | |].
  - by apply rdv_holder_insert.
  - by rewrite He.
  - intros u st Hu. rewrite Hce. destruct (decide (u = t)) as [->|].
    + rewrite lookup_insert_eq in Hu. by simplify_eq.
    + rewrite lookup_insert_ne in Hu by done. auto.
Qed.

Lemma region_offer s t k ch op acts s' :
  rdv_inv Idle s -> s_threads s !! t = Some (Ready k) -> enter_point t k ->
  is_op op -> rdv_chan ch (Offered t op) ->
  acts = [NotifyReceivers; Broadcast cond_not_empty] \/
  acts = [NotifySenders; Broadcast cond_not_full] ->
  do_actions acts
    (region_result s t k
       (Region ch (s_cells s) acts (EWait rendezvous_complete_cv (SyncComplete op t)))) s' ->
  rdv_inv (Offered t op) s'.
Proof.
  intros [Hch Hh Hl Hth] Ht Hk Hop Hch' Hacts Ha.
  pose proof (do_actions_frame _ _ _ Ha) as (Ec & El & Es & Er).
  destruct (do_actions_offer _ _ _ Ha Hacts) as (cv & Hcv & Hts). simpl in *.
  assert (Hcell : is_Some (s_cells s !! t)).
  { destruct (Hth _ _ Ht) as [[_ ?]|(? & ? & _ & ? & _)]; [done|done]. }
  split; rewrite ?Ec, ?El, ?Es, ?Er, ?Hts; simpl; [done| |done|].
  - split; [done|]. rewrite lookup_fmap, lookup_insert_eq. simpl.
    by destruct Hcv as [-> | ->].
  - intros u st Hu. rewrite lookup_fmap in Hu. apply fmap_Some in Hu as (st0 & Hu & ->).
    apply uthread_ok_wake; [|by destruct Hcv as [-> | ->]].
    destruct (decide (u = t)) as [->|].
    + rewrite lookup_insert_eq in Hu. simplify_eq. simpl. naive_solver.
    + rewrite lookup_insert_ne in Hu by done. apply uthread_ok_idle. auto.
Qed.

Lemma region_complete s t k ch op v s' :
  rdv_inv (Taken t op v) s -> s_threads s !! t = Some (Ready k) -> k = SyncComplete op t ->
  rdv_chan ch Idle ->
  do_actions [Broadcast rendezvous_wait_cv]
    (region_result s t k
       (Region ch (s_cells s) [Broadcast rendezvous_wait_cv] (ERet SUCCESS []))) s' ->
  rdv_inv Idle s'.
Proof.
  intros [Hch Hh Hl Hth] Ht -> Hch' Ha.
  apply do_actions_one in Ha. inversion Ha; subst. clear Ha.
  destruct (Hth _ _ Ht) as [[Hk _]|(op' & v' & ? & ? & Hv)].
  { unfold enter_point in Hk. naive_solver. }
  simplify_eq. split; simpl; [done|done| |].
  - unfold event_of. simpl. rewrite Hv. simpl.
    simpl in Hl. case_match; simpl; by rewrite Hl.
  - intros u st Hu. rewrite lookup_fmap in Hu. apply fmap_Some in Hu as (st0 & Hu & ->).
    destruct (decide (u = t)) as [->|].
    + rewrite lookup_insert_eq in Hu. by simplify_eq.
    + rewrite lookup_insert_ne in Hu by done. eapply uthread_ok_complete; [done|]. eauto.
Qed.

Lemma region_take s t k ch cells u op v s' :
  rdv_inv (Offered u op) s -> s_threads s !! t = Some (Ready k) -> enter_point t k ->
  (forall w, is_Some (s_cells s !! w) -> is_Some (cells !! w)) -> cells !! u = Some v ->
  event_of k (Region ch cells [Signal rendezvous_complete_cv] (ERet SUCCESS [])) =
    Some (if op =? unbuf_op_send then Received v else Sent v) ->
  rdv_chan ch (Taken u op v) ->
  do_actions [Signal rendezvous_complete_cv]
    (region_result s t k
       (Region ch cells [Signal rendezvous_complete_cv] (ERet SUCCESS []))) s' ->
  rdv_inv (Taken u op v) s'.
Proof.
  intros [Hch Hh Hl Hth] Ht Hk Hcells Hv He Hch' Ha. apply do_actions_one in Ha.
  destruct (holder_ne _ _ _ _ Hh Ht Hk) as [Hne _]. specialize (Hne _ _ eq_refl).
  destruct Hh as [Hop Hu].
  pose proof (do_action_frame _ _ _ Ha) as (Ec & El & Es & Er).
  apply (do_action_signal _ _ _ u (SyncComplete op u)) in Ha.
  2:{ simpl. by rewrite lookup_insert_ne by congruence. }
  2:{ intros w k' Hw. simpl in Hw. destruct (decide (w = t)) as [->|].
      - by rewrite lookup_insert_eq in Hw.
      - rewrite lookup_insert_ne in Hw by done. pose proof (Hth _ _ Hw) as Hw'.
        simpl in Hw'. naive_solver. }
  split; rewrite ?Ec, ?El, ?Es, ?Er, ?Ha; simpl; [done| | |].
  - by rewrite lookup_insert_eq.
  - rewrite He. simpl in Hl. destruct Hop as [-> | ->]; simpl; by rewrite Hl.
  - intros w st Hw. destruct (decide (w = u)) as [->|].
    + rewrite lookup_insert_eq in Hw. simplify_eq. simpl. right. eauto.
    + rewrite lookup_insert_ne in Hw by done. destruct (decide (w = t)) as [->|].
      * rewrite lookup_insert_eq in Hw. by simplify_eq.
      * rewrite lookup_insert_ne in Hw by done. eapply uthread_ok_cells.
        -- apply uthread_ok_take; [done|]. by apply Hth.
        -- auto.
        -- intros. simplify_eq.
Qed.

Lemma region_rdv r s t k reg r' s' :
  rdv_inv r s -> s_threads s !! t = Some (Ready k) -> rdv_effect t (s_cells s) k r reg r' ->
  do_actions (r_acts reg) (region_result s t k reg) s' -> rdv_inv r' s'.
Proof.
  intros Hinv Ht Heff Ha.
  assert (Hcell : is_Some (s_cells s !! t)).
  { destruct (ri_threads _ _ Hinv _ _ Ht) as [[_ ?]|(? & ? & _ & _ & ->)]; done. }
  destruct Heff as [r ch st Hk Hst Hch|r ch Hk Hch|r ch Hk Hch|ch op acts Hk Hop Hch Hacts
                   |r ch op Hk Hop Hr Hch|u v ch Hk Hp Hv Hch|u v ch Hk Hp Hv Hch|op v ch Hk Hch].
  - eapply region_stay; eauto; simpl; try done. by apply event_refuse.
  - eapply region_stay; eauto; simpl; try done. naive_solver.
  - eapply region_stay; eauto; simpl; try done. naive_solver.
  - by eapply region_offer.
  - eapply region_stay; eauto; simpl; try done. split; [done|]. right. left. eauto.
  - destruct (holder_ne _ _ _ _ (ri_holder _ _ Hinv) Ht Hk) as [Hne _].
    specialize (Hne _ _ eq_refl).
    eapply region_take; [exact Hinv|exact Ht|exact Hk| | | |exact Hch|exact Ha].
    + intros w Hw. destruct (decide (w = t)) as [->|]; [by rewrite lookup_insert_eq|].
      by rewrite lookup_insert_ne.
    + by rewrite lookup_insert_ne.
    + unfold event_of. simpl. rewrite Hp. simpl. by rewrite lookup_insert_eq.
  - destruct (holder_ne _ _ _ _ (ri_holder _ _ Hinv) Ht Hk) as [Hne _].
    specialize (Hne _ _ eq_refl).
    eapply region_take; [exact Hinv|exact Ht|exact Hk| | | |exact Hch|exact Ha].
    + intros w Hw. destruct (decide (w = u)) as [->|]; [by rewrite lookup_insert_eq|].
      by rewrite lookup_insert_ne.
    + by rewrite lookup_insert_eq.
    + unfold event_of. simpl. rewrite Hp. simpl. rewrite lookup_insert_ne by done. by rewrite Hv.
  - by eapply region_complete.
Qed.

(** No thread closes the channel, and [pthread_cond_wait] may return without a
    wake-up wherever the code waits again: at [rendezvous_wait_cv] (followed by
    [goto stage0]) and in the [while] loops of the non-blocking calls.  The wait
    for the partner, on [rendezvous_complete_cv] (line 112 of channel.c), stands in
    no loop; what a wake-up without a partner does there is
    [spurious_wakeup_loses_message] below. *)
Definition sync_env : env := Env false (fun cv => negb (bool_decide (cv = rendezvous_complete_cv))).

(** The abstract channel moves only between the states of the machine. *)
Definition unbuffered_inv (s : sys) : Prop := exists r, rdv_inv r s.

Lemma rdv_chan_selectors ch r ss rs : rdv_chan ch r -> rdv_chan (set_selectors ch ss rs) r.
Proof. by destruct r. Qed.

Lemma selectors_rdv ch sem ch' r :
  add_select_sender ch sem = Done ch' \/ add_select_receiver ch sem = Done ch' \/
  remove_select_sender ch sem = Done ch' \/ remove_select_receiver ch sem = Done ch' ->
  rdv_chan ch r -> rdv_chan ch' r.
Proof.
  unfold add_select_sender, add_select_receiver, remove_select_sender, remove_select_receiver.
  intros [E|[E|[E|E]]] Hr.
  - apply bind_Done in E as ([? ?] & _ & [= <-]). by apply rdv_chan_selectors.
  - apply bind_Done in E as ([? ?] & _ & [= <-]). by apply rdv_chan_selectors.
  - apply bind_Done in E as (? & _ & E). apply bind_Done in E as (? & _ & [= <-]).
    by apply rdv_chan_selectors.
  - apply bind_Done in E as (? & _ & E). apply bind_Done in E as (? & _ & [= <-]).
    by apply rdv_chan_selectors.
Qed.

Lemma step_unbuffered s s' : unbuffered_inv s -> step sync_env s s' -> unbuffered_inv s'.
Proof.
  intros [r Hinv] Hstep. pose proof Hinv as [Hch Hh Hl Hth].
  destruct Hstep as [s t k v Ht Hk|s t k rc reg s' Ht Hrun Ha|s t a acts st s' Ht _
                    |s t st Ht|s t cv k Hsp Ht|s ch sem Hsel].
  - exists r. split; simpl; [done| |done|].
    + apply rdv_holder_insert; [done| |]; intros u; intros; subst; intros ->; simpl in Hh; naive_solver.
    + intros u st Hu. destruct (decide (u = t)) as [->|].
      * rewrite lookup_insert_eq in Hu. simplify_eq. simpl. left. rewrite lookup_insert_eq.
        split; [|done]. unfold entry, enter_point in *. naive_solver.
      * rewrite lookup_insert_ne in Hu by done.
        eapply uthread_ok_cells; [by apply Hth| |]; by rewrite lookup_insert_ne.
  - destruct (run_point_rdv _ _ _ _ rc Hinv Ht) as (reg' & r' & Hrun' & Heff).
    rewrite Hrun in Hrun'. simplify_eq. exists r'. by eapply region_rdv.
  - by specialize (Hth _ _ Ht).
  - exists r. split; simpl; [done| |done|].
    + destruct r; simpl in *; [done| |]; destruct Hh; split; try done;
        rewrite lookup_delete_ne; congruence.
    + intros u st' [Hne Hu]%lookup_delete_Some. auto.
  - pose proof (Hth _ _ Ht) as [Hcell Hk]. unfold sync_env in Hsp. simpl in Hsp.
    assert (Hne : cv <> rendezvous_complete_cv) by (intros ->; by rewrite bool_decide_eq_true_2 in Hsp).
    assert (Hent : enter_point t k) by (unfold enter_point; naive_solver).
    exists r. split; simpl; [done| |done|].
    + apply rdv_holder_insert; [done| |]; intros u; intros; subst; intros ->; simpl in Hh; naive_solver.
    + intros u st [[<- <-]|[_ Hu]]%lookup_insert_Some; [by left|by apply Hth].
  - exists r. split; simpl; [|done..]. by eapply selectors_rdv.
Qed.

Lemma unbuffered_created live ch :
  channel_create live 0 = Done (Some ch) -> unbuffered_inv (initial ch).
Proof.
  unfold channel_create. case_match; simpl; [|done]. intros [= <-].
  exists Idle. split; simpl; done.
Qed.

Lemma unbuffered_reachable live ch s :
  channel_create live 0 = Done (Some ch) -> steps sync_env (initial ch) s -> unbuffered_inv s.
Proof.
  intros Hc. apply (steps_invariant _ unbuffered_inv); [apply step_unbuffered|].
  by eapply unbuffered_created.
Qed.
End preservation.

(** ** Theorems *)

Section theorems.
Context `{Malloc}.

(** C13: on an unbuffered channel that is not closed, over any interleaving of
    sends, receives and their non-blocking variants, with spurious wake-ups at
    every wait but the one for the partner (line 112 of channel.c, which is in no
    loop and needs that [pthread_cond_wait] returns only when it is woken: see
    [spurious_wakeup_loses_message]), a message counts as sent exactly when it was
    received: the logs of both sides agree message by message, except that while
    the rendezvous is taken the call that took it has returned before its
    partner, which is then ready to run; when no thread is in a call the logs are
    equal.  No code path faults. *)
Theorem unbuffered_rendezvous (live : gset loc) (ch : channel_t) (s : sys) :
  channel_create live 0 = Done (Some ch) -> steps sync_env (initial ch) s ->
  (sent s = recvd s \/
   exists t op v, s_threads s !! t = Some (Ready (SyncComplete op t)) /\ s_cells s !! t = Some v /\
     ((op = unbuf_op_send /\ recvd s = sent s ++ [v]) \/
      (op = unbuf_op_receive /\ sent s = recvd s ++ [v]))) /\
  (s_threads s = ∅ -> sent s = recvd s) /\
  (forall t k rc, s_threads s !! t = Some (Ready k) ->
     exists reg, run_point k rc (s_chan s) (s_cells s) = Done reg).
Proof.
  intros Hc Hs. destruct (unbuffered_reachable _ _ _ Hc Hs) as [r Hinv].
  pose proof Hinv as [Hch Hh Hl Hth]. split_done.
  - destruct r as [|t op|t op v]; simpl in *; [by left|by left|].
    right. destruct Hh as [Hop Ht]. exists t, op, v. split_done.
    + destruct (Hth _ _ Ht) as [[Hk _]|(op' & v' & ? & ? & ?)]; [|by simplify_eq].
      unfold enter_point in Hk. naive_solver.
    + destruct Hop as [-> | ->]; simpl in Hl; auto.
  - intros Hempty. destruct r as [|t op|t op v]; simpl in *; [done|done|].
    rewrite Hempty in Hh. by destruct Hh.
  - intros t k rc Ht. destruct (run_point_rdv _ _ _ _ rc Hinv Ht) as (reg & r' & ? & _). eauto.
Qed.

(** C37: threads on an unbuffered channel that is not closed get stuck only when
    they all want the same thing.  As for the exchange of messages, wake-ups may be
    spurious at every wait but the one for the partner.  In a reachable state where
    every thread waits, and none of them in a non-blocking call, either there is no
    thread or all of them are senders or all of them are receivers. *)
Theorem unbuffered_deadlock_one_sided (live : gset loc) (ch : channel_t) (s : sys) :
  channel_create live 0 = Done (Some ch) -> steps sync_env (initial ch) s ->
  (forall t st, s_threads s !! t = Some st -> exists cv k, st = Blocked cv k /\
     k <> NbSendLoop t /\ k <> NbRecvLoop t) ->
  exists op, is_op op /\
    forall t cv k, s_threads s !! t = Some (Blocked cv k) -> point_op k = Some (op, t).
Proof.
  intros Hc Hs Hall. destruct (unbuffered_reachable _ _ _ Hc Hs) as [r [Hch Hh Hl Hth]].
  destruct r as [|u op|u op v]; simpl in *.
  - exists unbuf_op_send. split; [by left|]. intros t cv k Ht.
    pose proof (Hth _ _ Ht). simpl in *. specialize (Hall _ _ Ht). naive_solver.
  - destruct Hh as [Hop Hu]. exists op. split; [done|]. intros t cv k Ht.
    pose proof (Hth _ _ Ht). simpl in *. specialize (Hall _ _ Ht). naive_solver.
  - destruct Hh as [Hop Hu]. destruct (Hall _ _ Hu) as (? & ? & [=] & _).
Qed.
End theorems.

(** ** Concrete executions *)

Definition rdv_demo : channel_t :=
  Eval vm_compute in
    match @channel_create malloc_first ∅ 0 with
    | Done (Some ch) => ch
    | _ => Chan None false None None false unbuf_op_none 0 None 0 0
    end.

(** A region whose only wake-up is a signal that thread [u] receives. *)
Ltac sys_region_signal t k u :=
  eapply steps_trans;
  [apply steps_one; eapply (step_region _ _ t k 0);
   [vm_compute; reflexivity | vm_compute; reflexivity
   | eapply acts_cons; [eapply (act_signal _ _ u); vm_compute; reflexivity | apply acts_nil]] | ].

(** Puts the state an execution has reached in normal form. *)
Ltac sys_norm :=
  match goal with
  | |- @steps ?M ?e ?s ?t => let s' := eval vm_compute in s in change (@steps M e s' t)
  end.

(** A send and a receive meet; the receiver returned, the sender did not. *)
Lemma rdv_run :
  exists s, @steps malloc_first sync_env (initial rdv_demo) s /\ sent s = [] /\ recvd s = [5].
Proof.
  eexists. split; [|split].
  - sys_call 1%positive (SendEnter 1) 5. sys_region 1%positive (SendEnter 1).
    sys_call 2%positive (RecvEnter 2) 0. sys_region_signal 2%positive (RecvEnter 2) 1%positive.
    apply steps_refl.
  - vm_compute. reflexivity.
  - vm_compute. reflexivity.
Qed.

Lemma unbuffered_rendezvous_witness :
  exists s, (sent s = [] /\ recvd s = [5]) /\
  (sent s = recvd s \/
   exists t op v, s_threads s !! t = Some (Ready (SyncComplete op t)) /\ s_cells s !! t = Some v /\
     ((op = unbuf_op_send /\ recvd s = sent s ++ [v]) \/
      (op = unbuf_op_receive /\ sent s = recvd s ++ [v]))).
Proof.
  destruct rdv_run as (s & Hs & E1 & E2). exists s. split; [split; [exact E1|exact E2]|].
  apply (@unbuffered_rendezvous malloc_first ∅ rdv_demo s); [reflexivity|exact Hs].
Defined.

Lemma rdv_blocked :
  exists s, @steps malloc_first sync_env (initial rdv_demo) s /\
    s_threads s = {[1%positive := Blocked rendezvous_complete_cv (SyncComplete unbuf_op_send 1);
                    2%positive := Blocked rendezvous_wait_cv (SyncRetry unbuf_op_send 2)]}.
Proof.
  eexists. split.
  - sys_call 1%positive (SendEnter 1) 5. sys_region 1%positive (SendEnter 1).
    sys_call 2%positive (SendEnter 2) 6. sys_region 2%positive (SendEnter 2). apply steps_refl.
  - vm_compute. reflexivity.
Qed.

Lemma unbuffered_deadlock_witness :
  exists s op, is_op op /\
    forall t cv k, s_threads s !! t = Some (Blocked cv k) -> point_op k = Some (op, t).
Proof.
  destruct rdv_blocked as (s & Hs & E). exists s.
  apply (@unbuffered_deadlock_one_sided malloc_first ∅ rdv_demo s); [reflexivity|exact Hs|].
  rewrite E. intros t st [[<- <-]|[_ [<- <-]%lookup_singleton_Some]]%lookup_insert_Some;
    eexists _, _; (split; [reflexivity|split; discriminate]).
Defined.

(** ** Where the protocol does not keep its promises *)

(** After a close, a thread left in the rendezvous stays there: nobody sends or
    receives on a closed channel, and nobody broadcasts again. *)
Record stuck (t : loc) (op : Z) (s : sys) : Prop := {
  st_closed : closed_flag (s_chan s) = true;
  st_blocked : s_threads s !! t = Some (Blocked rendezvous_complete_cv (SyncComplete op t));
  st_others : forall u st, s_threads s !! u = Some st -> u <> t ->
    (exists k, st = Ready k /\
       (k = SendEnter u \/ k = RecvEnter u \/ k = NbSendEnter u \/ k = NbRecvEnter u \/ k = CloseEnter)) \/
    (exists status, st = Finishing status [])
}.

Section stuck.
Context `{Malloc}.

(** Every entry point refuses a closed channel. *)
Lemma closed_refuses k u rc ch cells reg :
  closed_flag ch = true ->
  k = SendEnter u \/ k = RecvEnter u \/ k = NbSendEnter u \/ k = NbRecvEnter u \/ k = CloseEnter ->
  run_point k rc ch cells = Done reg ->
  exists status, reg = Region ch cells [] (ERet status []) /\
    (status = GENERIC_ERROR \/ status = CLOSED_ERROR).
Proof.
  intros Hc Hk Hrun.
  destruct Hk as [->|[->|[->|[->| ->]]]]; simpl in Hrun;
    unfold channel_send, channel_receive, channel_non_blocking_send, channel_non_blocking_receive,
      channel_close in Hrun; rewrite Hc in Hrun; case_match; simplify_eq; eauto.
Qed.

(** Threads may close the channel; no wake-up is spurious. *)
Definition close_env : env := Env true (fun _ => false).

Lemma stuck_step t op s s' : stuck t op s -> step close_env s s' -> stuck t op s'.
Proof.
  intros [Hc Hb Ho] Hstep.
  destruct Hstep as [s u k v Hu Hk|s u k rc reg s' Hu Hrun Ha|s u a acts st s' Hu _
                    |s u st Hu|s u cv k Hsp _|s ch sem Hsel].
  - split; simpl; [done|by rewrite lookup_insert_ne by congruence|].
    intros w st [[<- <-]|[? Hw]]%lookup_insert_Some Hne; [|by apply Ho]. left. exists k.
    unfold entry in Hk. simpl in Hk. naive_solver.
  - assert (u <> t) as Hne by congruence.
    destruct (Ho _ _ Hu Hne) as [(k' & [= <-] & Hk)|(? & [=])].
    destruct (closed_refuses _ _ _ _ _ _ Hc Hk Hrun) as (status & -> & _).
    inversion Ha; subst. split; simpl; [done|by rewrite lookup_insert_ne by congruence|].
    intros w st [[<- <-]|[? Hw]]%lookup_insert_Some Hne'; [|by apply Ho]. right. by eexists.
  - assert (u <> t) as Hne by congruence.
    destruct (Ho _ _ Hu Hne) as [(? & [=] & _)|(? & [=])].
  - split; simpl; [done|by rewrite lookup_delete_ne by congruence|].
    intros w st' [? Hw]%lookup_delete_Some. by apply Ho.
  - done.
  - split; simpl; [|done..].
    enough (closed_flag ch = closed_flag (s_chan s)) as -> by done.
    destruct Hsel as [E|[E|[E|E]]]; apply bind_Done in E as (x & _ & E).
    + destruct x. by simplify_eq.
    + destruct x. by simplify_eq.
    + apply bind_Done in E as (? & _ & E). by simplify_eq.
    + apply bind_Done in E as (? & _ & E). by simplify_eq.
Qed.
End stuck.

Lemma close_run :
  exists s, @steps malloc_first close_env (initial rdv_demo) s /\
    closed_flag (s_chan s) = true /\ sent s = [5] /\ recvd s = [] /\
    s_threads s = {[2%positive := Blocked rendezvous_complete_cv (SyncComplete unbuf_op_send 2)]}.
Proof.
  eexists. split_done.
  - sys_call 1%positive (SendEnter 1) 5. sys_region 1%positive (SendEnter 1).
    sys_call 2%positive (SendEnter 2) 6. sys_region 2%positive (SendEnter 2). sys_norm.
    sys_call 3%positive CloseEnter 0. sys_region 3%positive CloseEnter. sys_norm.
    do 6 (sys_wakeup 3%positive; sys_norm). sys_return 3%positive. sys_norm.
    sys_region 1%positive (SyncComplete unbuf_op_send 1). sys_norm. sys_return 1%positive.
    sys_norm. sys_region 2%positive (SyncRetry unbuf_op_send 2). apply steps_refl.
  - vm_compute. reflexivity.
  - vm_compute. reflexivity.
  - vm_compute. reflexivity.
  - vm_compute. reflexivity.
Qed.

(** Closing an unbuffered channel while two senders are in it loses a message
    and leaves a thread waiting for ever: the first sender, woken by the close,
    returns [SUCCESS] although nobody received its message, and the second one
    offers its own on the closed channel and waits in every later state
    ([channel_close] promises that the blocked calls return). *)
Theorem close_during_rendezvous :
  exists s, @steps malloc_first close_env (initial rdv_demo) s /\
    closed_flag (s_chan s) = true /\ sent s = [5] /\ recvd s = [] /\
    s_threads s !! 1%positive = None /\
    forall s', @steps malloc_first close_env s s' ->
      s_threads s' !! 2%positive =
        Some (Blocked rendezvous_complete_cv (SyncComplete unbuf_op_send 2)).
Proof.
  destruct close_run as (s & Hs & Hc & Es & Er & Ht). exists s. split_done; [by rewrite Ht|].
  intros s' Hs'. apply (st_blocked 2 unbuf_op_send).
  refine (steps_invariant _ _ (stuck_step 2 unbuf_op_send) _ _ _ Hs').
  split; rewrite ?Ht; [done|done|].
  intros u st Hu Hne. by apply lookup_singleton_Some in Hu as [<- _].
Qed.

(** Neither a close nor a spurious wake-up. *)
Definition plain_env : env := Env false (fun _ => false).

Lemma non_blocking_run :
  exists s, @steps malloc_first plain_env (initial rdv_demo) s /\
    s_threads s = {[1%positive := Blocked rendezvous_complete_cv (SyncComplete unbuf_op_receive 1);
                    2%positive := Blocked cond_not_empty (NbSendLoop 2)]}.
Proof.
  eexists. split.
  - sys_call 3%positive (RecvEnter 3) 0. sys_region 3%positive (RecvEnter 3). sys_norm.
    sys_call 1%positive (RecvEnter 1) 0. sys_region 1%positive (RecvEnter 1). sys_norm.
    sys_call 4%positive (SendEnter 4) 9. sys_region_signal 4%positive (SendEnter 4) 3%positive.
    sys_norm. sys_return 4%positive. sys_norm.
    sys_region 3%positive (SyncComplete unbuf_op_receive 3). sys_norm. sys_return 3%positive. sys_norm.
    sys_call 2%positive (NbSendEnter 2) 4. sys_norm. sys_region 2%positive (NbSendEnter 2). sys_norm.
    sys_region 1%positive (SyncRetry unbuf_op_receive 1). sys_norm. apply steps_refl.
  - vm_compute. reflexivity.
Qed.

(** A non-blocking send can wait for a receiver that waits for a sender: in
    [channel_non_blocking_send] the loop sleeps on [cond_not_empty] while
    [waiting_receivers] is positive, but a receiver that enters the rendezvous
    broadcasts [cond_not_full].  Both calls are then blocked, and they are in
    every next state: no step of theirs is possible, without any close or
    spurious wake-up being involved. *)
Theorem non_blocking_send_blocks :
  exists s, @steps malloc_first plain_env (initial rdv_demo) s /\
    let both s := s_threads s !! 1%positive =
        Some (Blocked rendezvous_complete_cv (SyncComplete unbuf_op_receive 1)) /\
      s_threads s !! 2%positive = Some (Blocked cond_not_empty (NbSendLoop 2)) in
    both s /\ forall s', @step malloc_first plain_env s s' -> both s'.
Proof.
  destruct non_blocking_run as (s & Hs & Ht). exists s. cbn zeta. split; [done|].
  rewrite Ht. split; [done|]. intros s' Hstep.
  assert (Hone : forall u st, s_threads s !! u = Some st -> exists cv k, st = Blocked cv k).
  { intros u st. rewrite Ht. intros [[<- <-]|[_ [<- <-]%lookup_singleton_Some]]%lookup_insert_Some; eauto. }
  destruct Hstep as [s t k v Hu Hk|s t k rc reg s' Hu _ _|s t a acts st s' Hu _
                    |s t st Hu|s t cv k Hsp _|s ch sem _];
    try (destruct (Hone _ _ Hu) as (? & ? & [=])); [|done|]; simpl; rewrite Ht in *; [|done].
  split; (rewrite lookup_insert_ne; [done|]; intros ->; by vm_compute in Hu).
Qed.

(** One spurious wake-up of a thread that waits for its partner is enough to lose
    a message: nothing after the wait looks at [unbuf_stage], so the sender returns
    [SUCCESS] though nobody has received. *)
Theorem spurious_wakeup_loses_message :
  exists s, @steps malloc_first (Env false (fun _ => true)) (initial rdv_demo) s /\
    s_threads s = ∅ /\ sent s = [5] /\ recvd s = [].
Proof.
  eexists. split_done.
  - sys_call 1%positive (SendEnter 1) 5. sys_region 1%positive (SendEnter 1). sys_norm.
    eapply steps_trans; [apply steps_one; eapply (step_spurious _ _ 1%positive); [reflexivity|vm_compute; reflexivity]|]. sys_norm.
    sys_region 1%positive (SyncComplete unbuf_op_send 1). sys_norm. sys_return 1%positive. apply steps_refl.
  - vm_compute. reflexivity.
  - vm_compute. reflexivity.
  - vm_compute. reflexivity.
Qed.
