(* ===== verification/Select.v ===== *)
(** * [channel_select]

    [channel.c:378-507].  A select call registers a semaphore with every channel
    it names, then scans the entries; it acts on the first entry that can
    proceed, or waits for a post and scans again.  Each round of the scan runs
    under the mutex of one channel and other threads may run in between, so a
    call is a state ([sel_state]) and a step function ([select_step]) on the
    channels, the variables and the semaphores it can see. *)

From Stdlib Require Import ZArith Lia.
From stdpp Require Import gmap list.
From S2P Require Import Prelude Dll ConcList Buffer Channel.

(** ** The code *)

(** [select_t]: a channel, a direction, and the address of the [data] member. *)
Record select_t := Select { sel_channel : loc; sel_dir : direction; sel_data : loc }.

#[export] Instance direction_eq_dec : EqDecision direction.
Proof. solve_decision. Defined.

Record world := World {
  w_chans : gmap loc channel_t;
  w_cells : gmap loc Z;
  w_sems : gmap loc Z
}.

Definition get_chan (chs : gmap loc channel_t) (c : loc) : outcome channel_t :=
  match chs !! c with Some ch => Done ch | None => Fault Dangling end.

(** [Returned]: the status, the value of [*sel_idx] if it was written, and
    whether [local_mutex] was unlocked and destroyed and [local_sem] destroyed. *)
Inductive sel_state :=
  | Scan (i : nat)
  | InSync (i : nat) (cv : condvar) (k : point)
  | AtSem
  | Returned (status : Z) (idx : option nat) (released : bool).

Section code.
Context `{Malloc}.
Implicit Types (chs : gmap loc channel_t) (entries : list select_t).

Fixpoint init_select chs entries (sem : loc) : outcome (gmap loc channel_t) :=
  match entries with
  | [] => Done chs
  | e :: entries =>
      ch ← get_chan chs (sel_channel e);
      ch ← (match sel_dir e with
            | SEND => add_select_sender ch sem
            | RECV => add_select_receiver ch sem
            end);
      init_select (<[sel_channel e := ch]> chs) entries sem
  end.

Fixpoint cleanup_select chs entries (sem : loc) : outcome (gmap loc channel_t) :=
  match entries with
  | [] => Done chs
  | e :: entries =>
      ch ← get_chan chs (sel_channel e);
      ch ← (match sel_dir e with
            | SEND => remove_select_sender ch sem
            | RECV => remove_select_receiver ch sem
            end);
      cleanup_select (<[sel_channel e := ch]> chs) entries sem
  end.

(** The exit of a call whose operation on entry [i] returned [status]. *)
Definition select_exit entries (sem : loc) (w : world) (status : Z) (i : nat)
    : outcome (world * sel_state) :=
  chs ← cleanup_select (w_chans w) entries sem;
  Done (World chs (w_cells w) (w_sems w), Returned status (Some i) true).

(** After a region of the operation on entry [i] of channel [c]. *)
Definition select_region entries (sem : loc) (w : world) (i : nat) (c : loc) (r : region)
    : outcome (world * list (loc * action) * sel_state) :=
  let w := World (<[c := r_chan r]> (w_chans w)) (r_cells r) (w_sems w) in
  match r_end r with
  | EWait cv k => Done (w, (c,.) <$> r_acts r, InSync i cv k)
  | ERet status after =>
      '(w, st) ← select_exit entries sem w status i;
      Done (w, (c,.) <$> (r_acts r ++ after), st)
  end.

(** One round of the [for] loop, for an unbuffered channel: [op] is the entry's
    operation and [selectors] the list of those who select the other one. *)
Definition select_unbuffered entries (sem : loc) (w : world) (i : nat) (e : select_t)
    (ch : channel_t) (op other : Z) (selectors : option (list_t loc))
    : outcome (world * list (loc * action) * sel_state) :=
  if closed_flag ch then
    chs ← cleanup_select (w_chans w) entries sem;
    Done (World chs (w_cells w) (w_sems w), [], Returned CLOSED_ERROR None false)
  else if ((unbuf_stage ch =? 1) && (active_unbuf_op ch =? other))
          || negb (list_count selectors =? 0)
  then r ← unbuffered_sync ch (w_cells w) op (sel_data e);
       select_region entries sem w i (sel_channel e) r
  else Done (w, [], Scan (S i)).

(** ... and for a buffered one, [refused] being [CHANNEL_FULL] or
    [CHANNEL_EMPTY]. *)
Definition select_buffered entries (sem : loc) (w : world) (i : nat) (e : select_t)
    (call : outcome region) (refused : Z) : outcome (world * list (loc * action) * sel_state) :=
  r ← call;
  match r_end r with
  | ERet status _ =>
      if status =? refused
      then Done (World (<[sel_channel e := r_chan r]> (w_chans w)) (r_cells r) (w_sems w), [],
                 Scan (S i))
      else select_region entries sem w i (sel_channel e) r
  | EWait _ _ => select_region entries sem w i (sel_channel e) r
  end.

Definition select_step entries (sem : loc) (lock_rc : Z) (w : world) (st : sel_state)
    : outcome (world * list (loc * action) * sel_state) :=
  match st with
  | Scan i =>
      match entries !! i with
      | None => Done (w, [], AtSem)
      | Some e =>
          ch ← get_chan (w_chans w) (sel_channel e);
          match sel_dir e with
          | SEND =>
              if is_unbuffered ch
              then select_unbuffered entries sem w i e ch unbuf_op_send unbuf_op_receive
                     (recv_selectors ch)
              else select_buffered entries sem w i e
                     (channel_non_blocking_send lock_rc ch (w_cells w) (sel_data e)) CHANNEL_FULL
          | RECV =>
              if is_unbuffered ch
              then select_unbuffered entries sem w i e ch unbuf_op_receive unbuf_op_send
                     (send_selectors ch)
              else select_buffered entries sem w i e
                     (channel_non_blocking_receive lock_rc ch (w_cells w) (sel_data e)) CHANNEL_EMPTY
          end
      end
  | InSync i _ k =>   (* the wait has returned *)
      match entries !! i with
      | None => Fault OutOfRange
      | Some e =>
          ch ← get_chan (w_chans w) (sel_channel e);
          r ← run_point k lock_rc ch (w_cells w);
          select_region entries sem w i (sel_channel e) r
      end
  | AtSem =>          (* [sem_wait] *)
      let n := default 0 (w_sems w !! sem) in
      if 0 <? n then Done (World (w_chans w) (w_cells w) (<[sem := n - 1]> (w_sems w)), [], Scan 0)
      else Done (w, [], AtSem)
  | Returned _ _ _ => Done (w, [], st)
  end.

(** The call up to its loop; [args_ok] is [entries && sel_idx]. *)
Definition channel_select (args_ok : bool) (w : world) entries (sem : loc)
    : outcome (world * sel_state) :=
  if Nat.eqb (length entries) 0 || negb args_ok then Done (w, Returned GENERIC_ERROR None true)
  else
    chs ← init_select (w_chans w) entries sem;
    Done (World chs (w_cells w) (<[sem := 0]> (w_sems w)), Scan 0).

(** [fuel] steps with no other thread in between. *)
Fixpoint select_run (fuel : nat) entries (sem : loc) (lock_rc : Z) (w : world) (st : sel_state)
    : outcome (world * list (loc * action) * sel_state) :=
  match fuel with
  | O => Done (w, [], st)
  | S fuel =>
      '(w, acts, st) ← select_step entries sem lock_rc w st;
      '(w, acts', st) ← select_run fuel entries sem lock_rc w st;
      Done (w, acts ++ acts', st)
  end.
End code.

(** ** Registration *)

(** The list of the selectors in a direction; the rest of a channel. *)
Definition sel_list (d : direction) (ch : channel_t) : option (list_t loc) :=
  match d with SEND => send_selectors ch | RECV => recv_selectors ch end.
Definition bare (ch : channel_t) : channel_t := set_selectors ch None None.

(** Every list holds what it held in [orig] and [n] registrations of [sem]. *)
Definition registered (orig : loc -> direction -> list loc) (n : loc -> direction -> nat)
    (sem : loc) (chs : gmap loc channel_t) : Prop :=
  forall c ch d, chs !! c = Some ch -> exists l ns, sel_list d ch = Some l /\ list_ok l ns /\
    ns.*2 = orig c d ++ replicate (n c d) sem.

(** How many entries select a direction of a channel. *)
Definition occurrences (entries : list select_t) (c : loc) (d : direction) : nat :=
  length (filter (fun e => sel_channel e = c /\ sel_dir e = d) entries).

Definition known (entries : list select_t) (chs : gmap loc channel_t) : Prop :=
  Forall (fun e => is_Some (chs !! sel_channel e)) entries.

Section registration.
Context `{Malloc}.
Implicit Types (chs : gmap loc channel_t) (entries : list select_t).

Lemma known_bare entries chs chs' :
  bare <$> chs' = bare <$> chs -> known entries chs -> known entries chs'.
Proof.
  intros Hb Hk. eapply Forall_impl; [exact Hk|]. intros e. simpl.
  intros [ch Hc]. pose proof (lookup_fmap bare chs' (sel_channel e)) as E.
  rewrite Hb, lookup_fmap, Hc in E. simpl in E. by destruct (chs' !! sel_channel e).
Qed.

Lemma bare_insert chs c ch ch' :
  chs !! c = Some ch -> bare ch' = bare ch -> bare <$> <[c := ch']> chs = bare <$> chs.
Proof.
  intros Hc Hb. rewrite fmap_insert, Hb. apply insert_id. by rewrite lookup_fmap, Hc.
Qed.

Lemma occurrences_cons e entries c d :
  occurrences (e :: entries) c d =
    ((if decide (sel_channel e = c /\ sel_dir e = d) then 1 else 0) + occurrences entries c d)%nat.
Proof. unfold occurrences. rewrite filter_cons. by case_decide. Qed.

(** One list of one channel changes. *)
Lemma registered_insert orig n n' sem chs c ch ch' d l' ns' :
  registered orig n sem chs -> chs !! c = Some ch ->
  sel_list d ch' = Some l' -> list_ok l' ns' -> ns'.*2 = orig c d ++ replicate (n' c d) sem ->
  (forall d', d' <> d -> sel_list d' ch' = sel_list d' ch) ->
  (forall c' d', (c', d') <> (c, d) -> n' c' d' = n c' d') ->
  registered orig n' sem (<[c := ch']> chs).
Proof.
  intros Hr Hc Hl Hok Hns Hother Hn c' ch'' d' [[<- <-]|[Hne Hc']]%lookup_insert_Some.
  - destruct (decide (d' = d)) as [->|Hd]; [by exists l', ns'|].
    rewrite Hother, Hn by congruence. by apply Hr.
  - rewrite Hn by congruence. by apply Hr.
Qed.

Definition bump (n : loc -> direction -> nat) (c : loc) (d : direction) (k : nat) :
    loc -> direction -> nat :=
  fun c' d' => if decide (c' = c /\ d' = d) then k else n c' d'.

Lemma bump_eq n c d k : bump n c d k c d = k.
Proof. unfold bump. by rewrite decide_True. Qed.
Lemma bump_ne n c d k c' d' : (c', d') <> (c, d) -> bump n c d k c' d' = n c' d'.
Proof. intros Hne. unfold bump. rewrite decide_False; [done|]. intros [-> ->]. done. Qed.

Lemma add_selector_ok d ch sem l ns :
  sel_list d ch = Some l -> list_ok l ns ->
  exists ch' l' ns', match d with SEND => add_select_sender ch sem
                     | RECV => add_select_receiver ch sem end = Done ch' /\
    sel_list d ch' = Some l' /\ list_ok l' ns' /\
    (ns'.*2 = ns.*2 \/ ns'.*2 = ns.*2 ++ [sem]) /\
    bare ch' = bare ch /\ forall d', d' <> d -> sel_list d' ch' = sel_list d' ch.
Proof.
  intros Hl Hok. destruct (conc_insert_cases l ns sem Hok) as [[_ Hi]|(k & l' & _ & _ & Hi & Hok')];
    destruct d; simpl in Hl; unfold add_select_sender, add_select_receiver; rewrite Hl, Hi; simpl;
    eexists _, _, _; (split; [done|]); (split; [done|]); (split; [done|]);
    rewrite ?fmap_app; (split; [by auto|]); (split; [done|]); by intros [].
Qed.

Lemma remove_selector_ok d ch sem l ns :
  sel_list d ch = Some l -> list_ok l ns ->
  exists ch' l' ns', match d with SEND => remove_select_sender ch sem
                     | RECV => remove_select_receiver ch sem end = Done ch' /\
    sel_list d ch' = Some l' /\ list_ok l' ns' /\ ns'.*2 = delete_first sem ns.*2 /\
    bare ch' = bare ch /\ forall d', d' <> d -> sel_list d' ch' = sel_list d' ch.
Proof.
  intros Hl Hok. destruct (conc_find_remove_ok l ns sem Hok) as (l' & ns' & Hi & Hok' & _ & Hns).
  apply bind_Done in Hi as (p & Hf & Hrm).
  destruct d; simpl in Hl; unfold remove_select_sender, remove_select_receiver;
    rewrite Hl, Hf; cbn [mbind outcome_bind]; rewrite Hrm; simpl;
    eexists _, _, _; (split; [done|]); (split; [done|]); (split; [done|]);
    (split; [by auto|]); (split; [done|]); by intros [].
Qed.

Lemma init_select_ok orig n sem entries chs :
  registered orig n sem chs -> known entries chs ->
  exists chs' n', init_select chs entries sem = Done chs' /\ registered orig n' sem chs' /\
    bare <$> chs' = bare <$> chs /\ forall c d, (n' c d <= n c d + occurrences entries c d)%nat.
Proof.
  revert n chs. induction entries as [|e entries IH]; intros n chs Hr Hk.
  { exists chs, n. split_done. intros. lia. }
  apply Forall_cons in Hk as [[ch Hc] Hk]. simpl. unfold get_chan. rewrite Hc. cbn [mbind outcome_bind].
  destruct (Hr _ _ (sel_dir e) Hc) as (l & ns & Hl & Hok & Hns).
  destruct (add_selector_ok _ _ sem _ _ Hl Hok) as (ch' & l' & ns' & -> & Hl' & Hok' & Hns' & Hb & Ho).
  cbn [mbind outcome_bind].
  assert (exists m, (m <= S (n (sel_channel e) (sel_dir e)))%nat /\
    ns'.*2 = orig (sel_channel e) (sel_dir e) ++ replicate m sem) as (m & Hm & Hns2).
  { destruct Hns' as [->| ->]; rewrite Hns; [by eexists; split; [|done]; lia|].
    exists (S (n (sel_channel e) (sel_dir e))). split; [lia|].
    by rewrite replicate_S_end, app_assoc. }
  destruct (IH (bump n (sel_channel e) (sel_dir e) m) (<[sel_channel e := ch']> chs))
    as (chs' & n' & -> & Hr' & Hb' & Hn').
  - eapply registered_insert; [done|done|exact Hl'|exact Hok'|by rewrite bump_eq|done|].
    intros. by apply bump_ne.
  - eapply known_bare; [by eapply bare_insert|done].
  - exists chs', n'. split_done; [by rewrite Hb'; eapply bare_insert|].
    intros c d. specialize (Hn' c d). rewrite occurrences_cons. unfold bump in Hn'.
    repeat case_decide; try lia; naive_solver lia.
Qed.

Lemma cleanup_select_ok orig n sem entries chs :
  (forall c d, sem ∉ orig c d) ->
  registered orig n sem chs -> known entries chs ->
  exists chs', cleanup_select chs entries sem = Done chs' /\
    registered orig (fun c d => n c d - occurrences entries c d)%nat sem chs' /\
    bare <$> chs' = bare <$> chs.
Proof.
  intros Hsem. revert n chs. induction entries as [|e entries IH]; intros n chs Hr Hk.
  { exists chs. split_done. intros c ch d Hc. destruct (Hr c ch d Hc) as (l & ns & ? & ? & ?).
    exists l, ns. split_done. by rewrite Nat.sub_0_r. }
  apply Forall_cons in Hk as [[ch Hc] Hk]. simpl. unfold get_chan. rewrite Hc. cbn [mbind outcome_bind].
  destruct (Hr _ _ (sel_dir e) Hc) as (l & ns & Hl & Hok & Hns).
  destruct (remove_selector_ok _ _ sem _ _ Hl Hok) as (ch' & l' & ns' & -> & Hl' & Hok' & Hns' & Hb & Ho).
  cbn [mbind outcome_bind].
  destruct (IH (bump n (sel_channel e) (sel_dir e) (n (sel_channel e) (sel_dir e) - 1))
              (<[sel_channel e := ch']> chs)) as (chs' & -> & Hr' & Hb').
  - eapply registered_insert; [done|done|exact Hl'|exact Hok'| |done|].
    + rewrite bump_eq, Hns', Hns. specialize (Hsem (sel_channel e) (sel_dir e)).
      destruct (n _ _) as [|m]; simpl.
      * rewrite app_nil_r. by apply delete_first_notin.
      * rewrite Nat.sub_0_r. by apply delete_first_app.
    + intros. by apply bump_ne.
  - eapply known_bare; [by eapply bare_insert|done].
  - exists chs'. split_done; [|by rewrite Hb'; eapply bare_insert].
    intros c ch'' d Hc'. destruct (Hr' c ch'' d Hc') as (l2 & ns2 & ? & ? & Hns2).
    exists l2, ns2. split_done. rewrite Hns2, occurrences_cons. do 2 f_equal. unfold bump.
    repeat case_decide; try lia; naive_solver lia.
Qed.
End registration.

(** ** A scan *)

(** The entry's operation, the one it waits for, and their selectors. *)
Definition opposite (d : direction) : direction := match d with SEND => RECV | RECV => SEND end.
Definition op_of (d : direction) : Z := match d with SEND => unbuf_op_send | RECV => unbuf_op_receive end.

(** The call that does at once what the entry asks for. *)
Definition non_blocking (d : direction) (ch : channel_t) (cells : gmap loc Z) (dp : loc)
    : outcome region :=
  match d with
  | SEND => channel_non_blocking_send 0 ch cells dp
  | RECV => channel_non_blocking_receive 0 ch cells dp
  end.

(** Conditions on an open channel: nothing to do for the entry now; and its
    operation succeeds now. *)
Definition partner_waiting (d : direction) (ch : channel_t) (cells : gmap loc Z) : Prop :=
  unbuf_stage ch = 1 /\ active_unbuf_op ch = op_of (opposite d) /\
  exists u, unbuf_data ch = Some u /\ is_Some (cells !! u).
Definition idle (d : direction) (ch : channel_t) : Prop :=
  closed_flag ch = false /\
  if is_unbuffered ch
  then ~ (unbuf_stage ch = 1 /\ active_unbuf_op ch = op_of (opposite d)) /\
       list_count (sel_list (opposite d) ch) = 0
  else exists b q, buffer ch = Some b /\ buffer_ok b q /\
       match d with SEND => capacity b <= Z.of_nat (length q) | RECV => q = [] end.
Definition proceeds (d : direction) (ch : channel_t) (cells : gmap loc Z) : Prop :=
  closed_flag ch = false /\
  if is_unbuffered ch then partner_waiting d ch cells
  else exists b q, buffer ch = Some b /\ buffer_ok b q /\
       match d with SEND => Z.of_nat (length q) < capacity b | RECV => q <> [] end.

Section scan.
Context `{Malloc}.
Implicit Types (entries : list select_t) (w : world).

Lemma set_buffer_same ch b : buffer ch = Some b -> set_buffer ch b = ch.
Proof. intros Hb. destruct ch. simpl in *. by subst. Qed.

Lemma world_same w c ch : w_chans w !! c = Some ch ->
  World (<[c := ch]> (w_chans w)) (w_cells w) (w_sems w) = w.
Proof. intros Hc. rewrite insert_id by done. by destruct w. Qed.

(** An idle entry is skipped. *)
Lemma select_step_idle entries sem w i e ch :
  entries !! i = Some e -> w_chans w !! sel_channel e = Some ch ->
  is_Some (w_cells w !! sel_data e) -> idle (sel_dir e) ch ->
  select_step entries sem 0 w (Scan i) = Done (w, [], Scan (S i)).
Proof.
  intros He Hch [v Hv] [Hc Hidle]. simpl. rewrite He. unfold get_chan. rewrite Hch.
  cbn [mbind outcome_bind].
  assert (Hun : forall op other ss, is_unbuffered ch = true ->
    (unbuf_stage ch =? 1) && (active_unbuf_op ch =? other) = false -> list_count ss = 0 ->
    select_unbuffered entries sem w i e ch op other ss = Done (w, [], Scan (S i))).
  { intros op other ss _ Hst Hss. unfold select_unbuffered. by rewrite Hc, Hst, Hss. }
  destruct (is_unbuffered ch) eqn:Hu.
  - destruct Hidle as [Hst Hss]. destruct (sel_dir e); simpl in *; apply Hun; try done;
      apply not_true_is_false; intros [?%Z.eqb_eq ?%Z.eqb_eq]%andb_prop; auto.
  - destruct Hidle as (b & q & Hb & Hok & Hq). destruct (sel_dir e); unfold select_buffered.
    + unfold channel_non_blocking_send. rewrite Hc, Hu. simpl. rewrite Hv, Hb. simpl.
      rewrite (buffer_add_full _ _ _ Hok Hq). simpl. by rewrite set_buffer_same, world_same.
    + unfold channel_non_blocking_receive. rewrite Hc, Hu. simpl. rewrite Hb. simpl. subst q.
      rewrite (buffer_remove_empty _ Hok). simpl. by rewrite set_buffer_same, world_same.
Qed.

(** When the entry can proceed, the non-blocking call succeeds, and select does
    what that call does. *)
Lemma proceeds_region d ch cells dp :
  proceeds d ch cells -> is_Some (cells !! dp) ->
  exists ch' cells' acts after,
    non_blocking d ch cells dp = Done (Region ch' cells' acts (ERet SUCCESS after)) /\
    (is_unbuffered ch = true -> unbuffered_sync ch cells (op_of d) dp =
       Done (Region ch' cells' acts (ERet SUCCESS after))) /\
    (forall d', sel_list d' ch' = sel_list d' ch) /\ is_Some (cells' !! dp).
Proof.
  intros [Hc Hp] [v Hv]. destruct (is_unbuffered ch) eqn:Hu.
  - destruct Hp as (Hst & Hact & u & Hu' & [x Hx]).
    destruct d; simpl in *;
      unfold channel_non_blocking_send, channel_non_blocking_receive, nb_send_loop,
        nb_receive_loop, unbuffered_sync; rewrite Hc, Hu, Hst, Hact;
      rewrite ?andb_false_r; simpl; unfold set_cell; rewrite Hu'; simpl; rewrite Hv; simpl;
      rewrite Hx; simpl; rewrite ?Hv; simpl; eexists _, _, _, _; split_done;
      try (intros []; done).
    + destruct (decide (u = dp)) as [->|]; [by rewrite lookup_insert_eq|].
      by rewrite lookup_insert_ne, Hv.
    + by rewrite lookup_insert_eq.
  - destruct Hp as (b & q & Hb & Hok & Hq). destruct d; simpl in *.
    + unfold channel_non_blocking_send. rewrite Hc, Hu. simpl. rewrite Hv. simpl. rewrite Hb. simpl.
      destruct (buffer_add_ok b q v Hok Hq) as (b' & -> & _). simpl.
      eexists _, _, _, _. split_done.
    + unfold channel_non_blocking_receive. rewrite Hc, Hu. simpl. rewrite Hb. simpl.
      destruct q as [|x q]; [done|]. destruct (buffer_remove_ok b x q Hok) as (b' & -> & _). simpl.
      unfold set_cell. simpl. rewrite Hv. simpl. eexists _, _, _, _. split_done.
      by rewrite lookup_insert_eq.
Qed.

Lemma select_step_proceeds entries sem w i e ch r :
  entries !! i = Some e -> w_chans w !! sel_channel e = Some ch -> proceeds (sel_dir e) ch (w_cells w) ->
  is_Some (w_cells w !! sel_data e) ->
  non_blocking (sel_dir e) ch (w_cells w) (sel_data e) = Done r ->
  select_step entries sem 0 w (Scan i) = select_region entries sem w i (sel_channel e) r.
Proof.
  intros He Hch Hp Hv Hr.
  destruct (proceeds_region _ _ _ _ Hp Hv) as (ch' & cells' & acts & after & Hr' & Hsync & _).
  rewrite Hr in Hr'. simplify_eq. simpl. rewrite He. unfold get_chan. rewrite Hch.
  cbn [mbind outcome_bind]. destruct Hp as [Hc Hp]. destruct (is_unbuffered ch) eqn:Hu.
  - destruct Hp as (Hst & Hact & _). specialize (Hsync eq_refl).
    destruct (sel_dir e); simpl in *; unfold select_unbuffered; by rewrite Hc, Hst, Hact, Hsync.
  - destruct (sel_dir e); simpl in Hr; by rewrite Hr.
Qed.

(** Running steps over idle entries. *)
Lemma select_run_idle entries sem w i k fuel :
  (forall j e, (k <= j < k + i)%nat -> entries !! j = Some e -> exists ch,
     w_chans w !! sel_channel e = Some ch /\ is_Some (w_cells w !! sel_data e) /\ idle (sel_dir e) ch) ->
  (k + i <= length entries)%nat ->
  select_run (i + fuel) entries sem 0 w (Scan k) = select_run fuel entries sem 0 w (Scan (k + i)).
Proof.
  revert k. induction i as [|i IH]; intros k Hidle Hlen; [by rewrite Nat.add_0_r|].
  destruct (lookup_lt_is_Some_2 entries k) as [e He]; [lia|].
  destruct (Hidle k e) as (ch & Hch & Hv & Hi); [lia|done|].
  cbn [select_run Nat.add]. rewrite (select_step_idle _ _ _ _ _ _ He Hch Hv Hi). cbn [mbind outcome_bind].
  rewrite IH; [|intros j e' Hj; apply Hidle; lia|lia].
  rewrite Nat.add_succ_comm. by destruct (select_run _ _ _ _ _ _) as [[[] ?]|].
Qed.
End scan.

(** ** Theorems *)

Section theorems.
Context `{Malloc}.
Implicit Types (entries : list select_t) (w : world).

Lemma channel_select_init w entries sem orig :
  entries <> [] -> registered orig (fun _ _ => 0%nat) sem (w_chans w) -> known entries (w_chans w) ->
  exists chs n, channel_select true w entries sem =
      Done (World chs (w_cells w) (<[sem := 0]> (w_sems w)), Scan 0) /\
    registered orig n sem chs /\ bare <$> chs = bare <$> w_chans w /\
    forall c d, (n c d <= occurrences entries c d)%nat.
Proof.
  intros Hne Hr Hk. destruct (init_select_ok _ _ _ _ _ Hr Hk) as (chs & n & Hi & Hr' & Hb & Hn).
  unfold channel_select. destruct entries; [done|]. simpl Nat.eqb. cbn [orb negb]. rewrite Hi.
  by exists chs, n.
Qed.

(** The exit removes what the registration added. *)
Lemma select_exit_ok w entries sem orig n status i :
  (forall c d, sem ∉ orig c d) -> registered orig n sem (w_chans w) -> known entries (w_chans w) ->
  (forall c d, (n c d <= occurrences entries c d)%nat) ->
  exists chs, cleanup_select (w_chans w) entries sem = Done chs /\
    select_exit entries sem w status i =
      Done (World chs (w_cells w) (w_sems w), Returned status (Some i) true) /\
    registered orig (fun _ _ => 0%nat) sem chs /\ bare <$> chs = bare <$> w_chans w.
Proof.
  intros Hsem Hr Hk Hn. destruct (cleanup_select_ok _ _ _ _ _ Hsem Hr Hk) as (chs & Hc & Hr' & Hb).
  exists chs. unfold select_exit. rewrite Hc. split_done. intros c ch d Hch.
  destruct (Hr' c ch d Hch) as (l & ns & ? & ? & Hns). exists l, ns. split_done. rewrite Hns.
  specialize (Hn c d). by replace (n c d - occurrences entries c d)%nat with 0%nat by lia.
Qed.

Lemma registered_replace orig n sem chs c ch ch' :
  registered orig n sem chs -> chs !! c = Some ch -> (forall d, sel_list d ch' = sel_list d ch) ->
  registered orig n sem (<[c := ch']> chs).
Proof.
  intros Hr Hc Hs c' ch'' d [[<- <-]|[? Hc']]%lookup_insert_Some; [|by apply Hr].
  rewrite Hs. by apply Hr.
Qed.

Lemma known_insert entries chs c ch' : known entries chs -> known entries (<[c := ch']> chs).
Proof.
  intros Hk. eapply Forall_impl; [exact Hk|]. intros e He.
  destruct (decide (sel_channel e = c)) as [->|]; [by rewrite lookup_insert_eq|].
  by rewrite lookup_insert_ne.
Qed.

Lemma select_first_ready_ok w entries sem orig :
  entries <> [] -> registered orig (fun _ _ => 0%nat) sem (w_chans w) ->
  (forall c d, sem ∉ orig c d) -> known entries (w_chans w) ->
  Forall (fun e => is_Some (w_cells w !! sel_data e)) entries ->
  exists w1, channel_select true w entries sem = Done (w1, Scan 0) /\
    bare <$> w_chans w1 = bare <$> w_chans w /\ w_cells w1 = w_cells w /\
    forall i,
      (forall j e', (j < i)%nat -> entries !! j = Some e' -> exists ch',
         w_chans w1 !! sel_channel e' = Some ch' /\ idle (sel_dir e') ch') ->
      (i = length entries -> select_run (S i) entries sem 0 w1 (Scan 0) = Done (w1, [], AtSem)) /\
      forall e ch, entries !! i = Some e -> w_chans w1 !! sel_channel e = Some ch ->
        proceeds (sel_dir e) ch (w_cells w1) ->
        exists r after w', non_blocking (sel_dir e) ch (w_cells w1) (sel_data e) = Done r /\
          r_end r = ERet SUCCESS after /\
          select_run (S i) entries sem 0 w1 (Scan 0) =
            Done (w', (sel_channel e,.) <$> (r_acts r ++ after), Returned SUCCESS (Some i) true) /\
          w_cells w' = r_cells r /\
          bare <$> w_chans w' = bare <$> <[sel_channel e := r_chan r]> (w_chans w1) /\
          registered orig (fun _ _ => 0%nat) sem (w_chans w').
Proof.
  intros Hne Hr Hsem Hk Hcells.
  destruct (channel_select_init w entries sem orig Hne Hr Hk) as (chs & n & Hi & Hr' & Hb & Hn).
  eexists. split; [exact Hi|]. split; [exact Hb|]. split; [done|]. intros i Hidle. rewrite Forall_lookup in Hcells.
  set (w1 := World _ _ _) in *.
  assert (Hrun : (i <= length entries)%nat -> forall fuel,
    select_run (i + fuel) entries sem 0 w1 (Scan 0) = select_run fuel entries sem 0 w1 (Scan i)).
  { intros Hlen fuel. apply (select_run_idle _ _ _ i 0); [|done]. intros j e Hj He.
    destruct (Hidle j e) as (ch & Hch & Hid); [lia|done|]. exists ch. split_done. by eapply Hcells. }
  replace (S i) with (i + 1)%nat by lia. split.
  - intros ->. rewrite Hrun by done. simpl. by rewrite lookup_ge_None_2.
  - intros e ch He Hch Hp. pose proof (lookup_lt_Some _ _ _ He).
    destruct (proceeds_region _ _ _ _ Hp (Hcells _ _ He)) as (ch' & cells' & acts & after & Hnb & _ & Hsel & _).
    rewrite Hrun by lia. cbn [select_run].
    rewrite (select_step_proceeds _ _ _ _ _ _ _ He Hch Hp (Hcells _ _ He) Hnb).
    unfold select_region. simpl.
    destruct (select_exit_ok (World (<[sel_channel e := ch']> chs) cells' (<[sem := 0]> (w_sems w)))
                entries sem orig n SUCCESS i) as (chs' & _ & -> & Hr2 & Hb2); simpl; [done| | |done|].
    + by eapply registered_replace.
    + apply known_insert. eapply known_bare; [exact Hb|done].
    + cbn [mbind outcome_bind]. rewrite app_nil_r. eexists _, _, _. split_done.
Qed.

(** C21: a select call acts on the first entry that can proceed.  After the
    registration, if the entries before [i] are idle on open channels and entry
    [i] can proceed, the call does exactly what the non-blocking call on that
    entry does, returns [SUCCESS] with [*sel_idx = i], and leaves every
    channel's list of selectors as it was; when every entry is idle it reaches
    [sem_wait] having changed nothing but its registration. *)
Theorem select_first_ready w entries sem orig :
  entries <> [] -> registered orig (fun _ _ => 0%nat) sem (w_chans w) ->
  (forall c d, sem ∉ orig c d) -> known entries (w_chans w) ->
  Forall (fun e => is_Some (w_cells w !! sel_data e)) entries ->
  exists w1, channel_select true w entries sem = Done (w1, Scan 0) /\
    bare <$> w_chans w1 = bare <$> w_chans w /\ w_cells w1 = w_cells w /\
    forall i,
      (forall j e', (j < i)%nat -> entries !! j = Some e' -> exists ch',
         w_chans w1 !! sel_channel e' = Some ch' /\ idle (sel_dir e') ch') ->
      (i = length entries -> select_run (S i) entries sem 0 w1 (Scan 0) = Done (w1, [], AtSem)) /\
      forall e ch, entries !! i = Some e -> w_chans w1 !! sel_channel e = Some ch ->
        proceeds (sel_dir e) ch (w_cells w1) ->
        exists r after w', non_blocking (sel_dir e) ch (w_cells w1) (sel_data e) = Done r /\
          r_end r = ERet SUCCESS after /\
          select_run (S i) entries sem 0 w1 (Scan 0) =
            Done (w', (sel_channel e,.) <$> (r_acts r ++ after), Returned SUCCESS (Some i) true) /\
          w_cells w' = r_cells r /\
          bare <$> w_chans w' = bare <$> <[sel_channel e := r_chan r]> (w_chans w1) /\
          registered orig (fun _ _ => 0%nat) sem (w_chans w').
Proof. apply select_first_ready_ok. Qed.

(** A select call that meets a closed channel returns [CLOSED_ERROR] and
    removes its registrations, but only for a buffered channel does it write
    [*sel_idx]; for an unbuffered one it returns without writing it and with its
    local mutex still locked and its semaphore not destroyed. *)
Theorem select_closed_channel w entries sem orig n i e ch :
  (forall c d, sem ∉ orig c d) -> registered orig n sem (w_chans w) -> known entries (w_chans w) ->
  (forall c d, (n c d <= occurrences entries c d)%nat) ->
  entries !! i = Some e -> w_chans w !! sel_channel e = Some ch -> closed_flag ch = true ->
  exists w', registered orig (fun _ _ => 0%nat) sem (w_chans w') /\
    bare <$> w_chans w' = bare <$> w_chans w /\ w_cells w' = w_cells w /\
    select_step entries sem 0 w (Scan i) =
      Done (w', [], if is_unbuffered ch then Returned CLOSED_ERROR None false
                    else Returned CLOSED_ERROR (Some i) true).
Proof.
  intros Hsem Hr Hk Hn He Hch Hc.
  destruct (select_exit_ok w entries sem orig n CLOSED_ERROR i Hsem Hr Hk Hn)
    as (chs & Hcl & Hex & Hr' & Hb).
  exists (World chs (w_cells w) (w_sems w)). split_done. simpl. rewrite He. unfold get_chan.
  rewrite Hch. cbn [mbind outcome_bind]. destruct (is_unbuffered ch) eqn:Hu.
  - destruct (sel_dir e); unfold select_unbuffered; by rewrite Hc, Hcl.
  - destruct (sel_dir e); unfold select_buffered, channel_non_blocking_send,
      channel_non_blocking_receive; rewrite Hc; simpl; unfold select_region; simpl;
      rewrite world_same by done; by rewrite Hex.
Qed.
End theorems.

(** ** Concrete calls *)

Definition demo_list : option (list_t loc) := Some (List None None 0 ∅).
Definition demo_unbuffered (closed : bool) (stage op : Z) (data : ptr) : channel_t :=
  Chan None closed demo_list demo_list true op stage data 0 0.
(** Channel 10 is idle, a receiver waits on channel 11, channel 12 is closed. *)
Definition demo_world : world :=
  World {[10%positive := demo_unbuffered false 0 unbuf_op_none None;
          11%positive := demo_unbuffered false 1 unbuf_op_receive (Some 5%positive);
          12%positive := demo_unbuffered true 0 unbuf_op_none None]}
        {[5%positive := 0; 20%positive := 7; 21%positive := 8]} ∅.

Lemma demo_registered sem : registered (fun _ _ => []) (fun _ _ => 0%nat) sem (w_chans demo_world).
Proof.
  intros c ch d Hc. exists (List None None 0 ∅), [].
  split; [|split; [apply conc_empty_ok|done]].
  simpl in Hc. do 2 (apply lookup_insert_Some in Hc as [[_ <-]|[_ Hc]]; [by destruct d|]).
  apply lookup_singleton_Some in Hc as [_ <-]. by destruct d.
Qed.

Definition demo_entries : list select_t := [Select 10 RECV 20; Select 11 SEND 21].

Lemma select_first_ready_witness :
  exists w1 w' acts, @channel_select malloc_first true demo_world demo_entries 1 = Done (w1, Scan 0) /\
    select_run 2 demo_entries 1 0 w1 (Scan 0) =
      Done (w', acts, Returned SUCCESS (Some 1%nat) true).
Proof.
  destruct (@select_first_ready malloc_first demo_world demo_entries 1 (fun _ _ => []))
    as (w1 & Hi & _ & _ & Hrun).
  - discriminate.
  - apply demo_registered.
  - intros ? ?. apply not_elem_of_nil.
  - repeat first [apply Forall_nil_2 | apply Forall_cons_2; [eexists; reflexivity|]].
  - repeat first [apply Forall_nil_2 | apply Forall_cons_2; [eexists; reflexivity|]].
  - exists w1. vm_compute in Hi. injection Hi as <-.
    destruct (Hrun 1%nat) as [_ H1].
    + intros [|j] e' Hj He'; [|lia]. injection He' as <-. eexists. split; [reflexivity|].
      split; [reflexivity|]. split; [|reflexivity]. intros [E _]. discriminate.
    + edestruct (H1 _ _ eq_refl eq_refl) as (r & after & w' & _ & _ & E & _).
      * split; [reflexivity|]. split; [reflexivity|]. split; [reflexivity|].
        eexists. split; [reflexivity|]. eexists. reflexivity.
      * exists w'. eexists. split; [reflexivity|]. exact E.
Defined.

Lemma select_closed_channel_witness :
  exists w', select_step [Select 12 SEND 20] 1 0 demo_world (Scan 0) =
    Done (w', [], Returned CLOSED_ERROR None false).
Proof.
  edestruct (select_closed_channel demo_world [Select 12 SEND 20] 1 (fun _ _ => [])
               (fun _ _ => 0%nat) 0) as (w' & _ & _ & _ & E).
  - intros ? ?. apply not_elem_of_nil.
  - apply demo_registered.
  - apply Forall_cons_2; [eexists; reflexivity|apply Forall_nil_2].
  - intros c d. lia.
  - reflexivity.
  - reflexivity.
  - reflexivity.
  - exists w'. exact E.
Defined.

(** A select call that names both directions of an unbuffered channel takes
    its own registration for a partner: with no other thread on the channel it
    commits to the send and waits in the rendezvous, where the receive entry no
    longer counts: a thread that then sends finds a send on offer and waits too. *)
Theorem select_own_registration :
  exists w1 w2 acts, 
    @channel_select malloc_first true demo_world [Select 10 SEND 20; Select 10 RECV 21] 1 =
      Done (w1, Scan 0) /\
    select_step [Select 10 SEND 20; Select 10 RECV 21] 1 0 w1 (Scan 0) =
      Done (w2, acts, InSync 0 rendezvous_complete_cv (SyncComplete unbuf_op_send 20)) /\
    forall ch dp, w_chans w2 !! 10%positive = Some ch ->
      channel_send 0 ch (w_cells w2) dp =
        Done (Region (add_waiting ch unbuf_op_send 1) (w_cells w2) []
                (EWait rendezvous_wait_cv (SyncRetry unbuf_op_send dp))).
Proof.
  eexists _, _, _. split; [vm_compute; reflexivity|]. split; [vm_compute; reflexivity|].
  intros ch dp Hch. vm_compute in Hch. injection Hch as <-. reflexivity.
Qed.
