(* ===== verification/SendRecv.v ===== *)
(** * The stress test of sending and receiving

    [concurrency-project-FreezeKickerz/stress_send_recv.c]: the main thread puts
    numbered messages on its channel, workers pass them around a ring, and in the
    end the main thread collects them and asserts that none came twice.

    A channel is what the theorems about [channel.c] show it to be: a queue of at
    most [buffer_size] messages, or a handover between a sender and a receiver
    when [buffer_size] is 0.  The threads run in any order.  A message is its
    number and [NULL] is 0. *)

From Stdlib Require Import ZArith Lia.
From stdpp Require Import sets list.
From S2P Require Import Prelude.

(** ** Threads *)

(** Where a worker is; [index] and [start] are its variables. *)
Inductive worker_pc := AtReceive | AtLoad (data : nat) | AtSend (c data : nat) | Returned.
Record worker := Worker { windex : nat; start : bool; wpc : worker_pc }.

(** Where the main thread is, with the variable of its loop. *)
Inductive main_pc :=
  | Inserting (msg : nat) | Marking (i : nat) | Sleeping | Pulling (msg : nat) | Stopping (i : nat) | Joining.
#[export] Instance main_pc_eq_dec : EqDecision main_pc.
Proof. solve_decision. Defined.

Record main_t := Main { mpc : main_pc; msg_check : list bool }.

Record ring := Ring { main : main_t; workers : list worker; queues : list (list nat); done_flag : bool }.

Section code.
Context (num_channel num_msgs : nat).

(** The channels of the ring come first; the main channel is the last. *)
Definition main_channel : nat := num_channel.
Definition next_index (i : nat) : nat := if (num_channel <=? i + 1)%nat then 0 else i + 1.

(** *** [worker_thread] *)

Definition receives_from (w : worker) : nat := if start w then main_channel else windex w.

Definition worker_received (w : worker) (data : nat) : worker :=
  match data with
  | O => if start w then Worker (windex w) false AtReceive else Worker (windex w) (start w) Returned
  | _ => Worker (windex w) (start w) (AtLoad data)
  end.

Definition worker_loaded (w : worker) (data : nat) (done : bool) : worker :=
  Worker (windex w) (start w) (AtSend (if done then main_channel else next_index (windex w)) data).

Definition worker_sent (w : worker) : worker := Worker (windex w) (start w) AtReceive.

(** *** [run_stress_send_recv] *)

(** The heads of its loops. *)
Definition stop_from (i : nat) : main_pc := if (i <? num_channel)%nat then Stopping i else Joining.
Definition pull_from (msg : nat) : main_pc := if (msg <=? num_msgs)%nat then Pulling msg else stop_from 0.
Definition mark_from (i : nat) : main_pc := if (i <? num_channel)%nat then Marking i else Sleeping.
Definition insert_from (msg : nat) : main_pc := if (msg <=? num_msgs)%nat then Inserting msg else mark_from 0.

(** What it sends next, on which channel, and where it goes on. *)
Definition main_sends (m : main_t) : option (nat * nat * main_pc) :=
  match mpc m with
  | Inserting msg => Some (main_channel, msg, insert_from (msg + 1))
  | Marking i => Some (main_channel, 0%nat, mark_from (i + 1))
  | Stopping i => Some (i, 0%nat, stop_from (i + 1))
  | _ => None
  end.

(** A message it pulled. *)
Definition main_received (m : main_t) (msg data : nat) : outcome main_t :=
  _ ← c_assert ((1 <=? data)%nat && (data <=? num_msgs)%nat);
  seen ← array_get (msg_check m) data;
  _ ← c_assert (negb seen);
  check ← array_set (msg_check m) data true;
  Done (Main (pull_from (msg + 1)) check).

Definition run_start : ring :=
  Ring (Main (insert_from 1) (replicate (num_msgs + 1) false)) ((fun i => Worker i true AtReceive) <$> seq 0 num_channel)
    (replicate (num_channel + 1) []) false.

(** ** Steps *)

(** What a thread does at its next step. *)
Inductive action := Sends (c v : nat) | Receives (c : nat).
Inductive thread := MainThread | WorkerThread (i : nat).

Definition wants (s : ring) (t : thread) : option action :=
  match t with
  | MainThread =>
      match mpc (main s) with
      | Pulling _ => Some (Receives main_channel)
      | _ => '(c, v, _) ← main_sends (main s); Some (Sends c v)
      end
  | WorkerThread i =>
      w ← workers s !! i;
      match wpc w with
      | AtReceive => Some (Receives (receives_from w))
      | AtSend c v => Some (Sends c v)
      | _ => None
      end
  end.

Definition after_send (s : ring) (t : thread) : ring :=
  match t with
  | MainThread =>
      match main_sends (main s) with
      | Some (_, _, pc) => Ring (Main pc (msg_check (main s))) (workers s) (queues s) (done_flag s)
      | None => s
      end
  | WorkerThread i => Ring (main s) (alter worker_sent i (workers s)) (queues s) (done_flag s)
  end.

Definition after_receive (s : ring) (t : thread) (v : nat) : outcome ring :=
  match t with
  | MainThread =>
      match mpc (main s) with
      | Pulling msg => m ← main_received (main s) msg v; Done (Ring m (workers s) (queues s) (done_flag s))
      | _ => Done s
      end
  | WorkerThread i => Done (Ring (main s) (alter (fun w => worker_received w v) i (workers s)) (queues s) (done_flag s))
  end.

Definition with_queue (s : ring) (c : nat) (q : list nat) : ring :=
  Ring (main s) (workers s) (<[c := q]> (queues s)) (done_flag s).

(** Whether the sleep has to last until every worker has left its starting phase. *)
Context (buffer_size : nat) (patient : bool).

Inductive ring_step (s : ring) : outcome ring -> Prop :=
  | step_send t c v q :
      wants s t = Some (Sends c v) -> queues s !! c = Some q -> (length q < buffer_size)%nat ->
      ring_step s (Done (with_queue (after_send s t) c (q ++ [v])))
  | step_receive t c v q :
      wants s t = Some (Receives c) -> queues s !! c = Some (v :: q) ->
      ring_step s (after_receive (with_queue s c q) t v)
  | step_handover t u c v :
      buffer_size = 0%nat -> wants s t = Some (Sends c v) -> wants s u = Some (Receives c) ->
      ring_step s (after_receive (after_send s t) u v)
  | step_load i w data :
      workers s !! i = Some w -> wpc w = AtLoad data ->
      ring_step s (Done (Ring (main s) (<[i := worker_loaded w data (done_flag s)]> (workers s)) (queues s) (done_flag s)))
  | step_wake :
      mpc (main s) = Sleeping -> (patient = true -> forall w, w ∈ workers s -> start w = false) ->
      ring_step s (Done (Ring (Main (pull_from 1) (msg_check (main s))) (workers s) (queues s) true)).

Inductive ring_reachable : ring -> Prop :=
  | reach_start : ring_reachable run_start
  | reach_step s s' : ring_reachable s -> ring_step s (Done s') -> ring_reachable s'.
End code.

(** ** Messages are neither lost nor doubled *)

Lemma concat_swap_perm {A} (l : list (list A)) i x y :
  l !! i = Some x -> x ++ concat (<[i := y]> l) ≡ₚ y ++ concat l.
Proof.
  intros Hi. rewrite <- (take_drop_middle l i x Hi) at 2. rewrite insert_take_drop by (by eapply lookup_lt_Some).
  rewrite !concat_app. simpl. rewrite (Permutation_app_swap_app y), (Permutation_app_swap_app x).
  by rewrite (Permutation_app_swap_app x y).
Qed.

Section invariant.
Context (num_channel num_msgs : nat).
Implicit Types (s : ring) (w : worker).

Definition held w : list nat := match wpc w with AtLoad d | AtSend _ d => [d] | _ => [] end.

(** The messages and marks in queues and in the hands of workers. *)
Definition tokens s : list nat := concat (queues s) ++ concat (held <$> workers s).
Definition is_message (v : nat) : Prop := v <> 0%nat.
#[local] Instance is_message_dec v : Decision (is_message v) := ltac:(unfold is_message; apply _).
Definition messages s : list nat := filter is_message (tokens s).

Definition sent_by (pc : main_pc) : nat := match pc with Inserting msg => msg - 1 | _ => num_msgs end.
Definition marked_by (pc : main_pc) : nat := match pc with Inserting _ => 0 | Marking i => i | _ => num_channel end.
Definition pulled_by (pc : main_pc) : nat :=
  match pc with Pulling msg => msg - 1 | Stopping _ | Joining => num_msgs | _ => 0 end.
Definition pc_ok (pc : main_pc) : Prop :=
  match pc with
  | Inserting msg | Pulling msg => (1 <= msg <= num_msgs)%nat
  | Marking i | Stopping i => (i < num_channel)%nat
  | _ => True
  end.
Definition collecting (pc : main_pc) : Prop := match pc with Pulling _ | Stopping _ | Joining => True | _ => False end.

Definition marks (q : list nat) : nat := length (filter (fun v => v = 0%nat) q).
Definition past_start (ws : list worker) : nat := length (filter (fun w => start w = false) ws).

Record worker_ok (i : nat) w : Prop := {
  wo_index : windex w = i;
  wo_held : Forall is_message (held w)
}.

(** [taken] is what the main thread pulled. *)
Record ring_ok s (taken : list nat) : Prop := {
  rg_lengths : length (workers s) = num_channel /\ length (queues s) = S num_channel;
  rg_pc : pc_ok (mpc (main s));
  rg_workers i w : workers s !! i = Some w -> worker_ok i w;
  rg_messages : messages s ++ taken ≡ₚ seq 1 (sent_by (mpc (main s)));
  rg_taken : length taken = pulled_by (mpc (main s));
  rg_check : msg_check (main s) = (fun v => bool_decide (v ∈ taken)) <$> seq 0 (num_msgs + 1);
  rg_marks q : queues s !! num_channel = Some q -> (marks q + past_start (workers s))%nat = marked_by (mpc (main s));
  rg_patient : collecting (mpc (main s)) -> forall w, w ∈ workers s -> start w = false
}.

Lemma messages_perm s s' l l' :
  l ++ tokens s' ≡ₚ l' ++ tokens s -> filter is_message l ++ messages s' ≡ₚ filter is_message l' ++ messages s.
Proof using Type. unfold messages. intros Hp. rewrite <- !filter_app. by rewrite Hp. Qed.

Lemma past_start_insert ws i w w' : ws !! i = Some w ->
  (past_start (<[i := w']> ws) + (if start w then 0 else 1) = past_start ws + (if start w' then 0 else 1))%nat.
Proof using Type.
  intros Hi. unfold past_start. rewrite <- (take_drop_middle ws i w Hi) at 2.
  rewrite insert_take_drop by (by eapply lookup_lt_Some). rewrite !filter_app, !filter_cons, !length_app.
  destruct (start w), (start w'); repeat (rewrite decide_True by done || rewrite decide_False by done); simpl; lia.
Qed.

Lemma past_start_all ws : (forall w, w ∈ ws -> start w = false) -> past_start ws = length ws.
Proof using Type.
  intros Hws. unfold past_start. f_equal. induction ws as [|w ws IH]; [done|]. rewrite filter_cons, decide_True.
  - f_equal. apply IH. intros w' Hw'. apply Hws. by right.
  - apply Hws. by left.
Qed.

(** *** The places of the main thread *)

Lemma insert_from_ok msg : (1 <= msg)%nat -> (msg <= S num_msgs)%nat ->
  let pc := insert_from num_channel num_msgs msg in
  pc_ok pc /\ sent_by pc = (msg - 1)%nat /\ marked_by pc = 0%nat /\ pulled_by pc = 0%nat /\ ~ collecting pc.
Proof using Type.
  intros H1 H2. unfold insert_from, mark_from. destruct (msg <=? num_msgs)%nat eqn:E.
  - apply Nat.leb_le in E. simpl. split_done; (lia || tauto).
  - apply Nat.leb_gt in E. destruct (0 <? num_channel)%nat eqn:E0; simpl.
    + apply Nat.ltb_lt in E0. split_done; (lia || tauto).
    + apply Nat.ltb_ge in E0. split_done; (lia || tauto).
Qed.

Lemma mark_from_ok i : (i <= num_channel)%nat ->
  let pc := mark_from num_channel i in
  pc_ok pc /\ sent_by pc = num_msgs /\ marked_by pc = i /\ pulled_by pc = 0%nat /\ ~ collecting pc.
Proof using Type.
  intros Hi. unfold mark_from. destruct (i <? num_channel)%nat eqn:E; simpl.
  - apply Nat.ltb_lt in E. split_done; tauto.
  - apply Nat.ltb_ge in E. split_done; (lia || tauto).
Qed.

Lemma stop_from_ok i :
  let pc := stop_from num_channel i in
  pc_ok pc /\ sent_by pc = num_msgs /\ marked_by pc = num_channel /\ pulled_by pc = num_msgs /\ collecting pc.
Proof using Type.
  unfold stop_from. destruct (i <? num_channel)%nat eqn:E; simpl; [apply Nat.ltb_lt in E|]; split_done; tauto.
Qed.

Lemma pull_from_ok msg : (1 <= msg)%nat -> (msg <= S num_msgs)%nat ->
  let pc := pull_from num_channel num_msgs msg in
  pc_ok pc /\ sent_by pc = num_msgs /\ marked_by pc = num_channel /\ pulled_by pc = (msg - 1)%nat /\ collecting pc.
Proof using Type.
  intros H1 H2. unfold pull_from. destruct (msg <=? num_msgs)%nat eqn:E.
  - apply Nat.leb_le in E. simpl. split_done; (lia || tauto).
  - apply Nat.leb_gt in E. destruct (stop_from_ok 0) as (? & ? & ? & -> & ?). split_done; (lia || tauto).
Qed.

(** *** Steps keep the invariant *)

Lemma worker_moves s taken i w w' c q q' b :
  ring_ok s taken -> workers s !! i = Some w -> queues s !! c = Some q -> worker_ok i w' ->
  filter is_message (q' ++ held w') ≡ₚ filter is_message (q ++ held w) -> (start w = false -> start w' = false) ->
  (if decide (c = num_channel)
   then (marks q + if start w then 0 else 1)%nat = (marks q' + if start w' then 0 else 1)%nat else start w = start w') ->
  ring_ok (Ring (main s) (<[i := w']> (workers s)) (<[c := q']> (queues s)) b) taken.
Proof using Type.
  intros [[Hlw Hlq] Hpc Hws Hm Ht Hch Hmk Hpat] Hi Hc Hw' Hp Hst Hcount. split; simpl; try done.
  - by rewrite !length_insert.
  - intros j wj [(-> & <- & _)|[_ Hj]]%list_lookup_insert_Some.
    + done.
    + by apply Hws.
  - rewrite <- Hm. f_equiv. apply (Permutation_app_inv_l (filter is_message (q ++ held w))).
    rewrite <- Hp at 2. apply messages_perm. unfold tokens. simpl. rewrite list_fmap_insert, <- !(assoc_L (++)).
    pose proof (concat_swap_perm _ _ _ q' Hc) as H1.
    assert ((held <$> workers s) !! i = Some (held w)) as Hh by (by rewrite list_lookup_fmap, Hi).
    pose proof (concat_swap_perm _ _ _ (held w') Hh) as H2.
    rewrite (Permutation_app_swap_app (held w)), (Permutation_app_swap_app (held w')).
    by rewrite (assoc_L (++) q), (assoc_L (++) q'), H1, H2.
  - intros q0 Hq0. pose proof (past_start_insert (workers s) i w w' Hi) as Hps.
    apply list_lookup_insert_Some in Hq0 as [(E & <- & _)|[Hne Hq0]].
    + rewrite decide_True in Hcount by done. subst c. specialize (Hmk q Hc). lia.
    + rewrite decide_False in Hcount by done. rewrite Hcount in Hps. specialize (Hmk q0 Hq0). lia.
  - intros Hcol wj Hj. apply list_elem_of_lookup in Hj as [j [(_ & <- & _)|[_ Hj]]%list_lookup_insert_Some].
    + apply Hst, Hpat; [done|by eapply list_elem_of_lookup_2].
    + apply Hpat; [done|by eapply list_elem_of_lookup_2].
Qed.

(** The main thread sends [v], or its pulling [v] ends a handover. *)
Lemma main_moves s taken taken' m' c q q' b :
  ring_ok s taken -> queues s !! c = Some q -> pc_ok (mpc m') ->
  (forall ms, ms ++ filter is_message q ++ taken ≡ₚ seq 1 (sent_by (mpc (main s))) ->
     ms ++ filter is_message q' ++ taken' ≡ₚ seq 1 (sent_by (mpc m'))) ->
  length taken' = pulled_by (mpc m') -> msg_check m' = (fun v => bool_decide (v ∈ taken')) <$> seq 0 (num_msgs + 1) ->
  (if decide (c = num_channel) then (marked_by (mpc (main s)) + marks q' = marked_by (mpc m') + marks q)%nat
   else marked_by (mpc (main s)) = marked_by (mpc m')) ->
  (collecting (mpc m') -> collecting (mpc (main s))) ->
  ring_ok (Ring m' (workers s) (<[c := q']> (queues s)) b) taken'.
Proof using Type.
  intros [[Hlw Hlq] Hpc Hws Hm Ht Hch Hmk Hpat] Hc Hpc' Hp Ht' Hch' Hcount Hcol. split; simpl; try done.
  - by rewrite length_insert.
  - set (ms := filter is_message (concat (take c (queues s)) ++ concat (drop (S c) (queues s)) ++ concat (held <$> workers s))).
    assert (Hsplit : forall x s1, tokens s1 = concat (take c (queues s)) ++ x ++ concat (drop (S c) (queues s)) ++ concat (held <$> workers s) ->
      messages s1 ≡ₚ ms ++ filter is_message x).
    { intros x s1 E. unfold messages, ms. rewrite <- filter_app, E. f_equiv. rewrite <- (assoc_L (++)). f_equiv. apply Permutation_app_comm. }
    rewrite (Hsplit q'), <- (assoc_L (++)).
    + apply Hp. rewrite <- Hm, (Hsplit q); [by rewrite (assoc_L (++))|]. unfold tokens.
      rewrite <- (take_drop_middle _ _ _ Hc) at 1. rewrite concat_app. simpl. by rewrite <- !(assoc_L (++)).
    + unfold tokens. simpl. rewrite insert_take_drop by (by eapply lookup_lt_Some). rewrite concat_app. simpl.
      by rewrite <- !(assoc_L (++)).
  - intros q0 Hq0. apply list_lookup_insert_Some in Hq0 as [(E & <- & _)|[Hne Hq0]].
    + rewrite decide_True in Hcount by done. subst c. specialize (Hmk q Hc). lia.
    + rewrite decide_False in Hcount by done. rewrite <- Hcount. by apply Hmk.
  - intros H w Hw. apply Hpat; [by apply Hcol|done].
Qed.

Lemma alter_worker (f : worker -> worker) (ws : list worker) (i : nat) w : ws !! i = Some w -> alter f i ws = <[i := f w]> ws.
Proof using Type.
  intros Hi. apply list_eq. intros j. destruct (decide (i = j)) as [<-|Hne].
  - rewrite list_lookup_alter_eq, list_lookup_insert_eq by (by eapply lookup_lt_Some). by rewrite Hi.
  - by rewrite list_lookup_alter_ne, list_lookup_insert_ne.
Qed.

Lemma marks_app q r : marks (q ++ r) = (marks q + marks r)%nat.
Proof using Type. unfold marks. by rewrite filter_app, length_app. Qed.

Lemma marks_message v : is_message v -> marks [v] = 0%nat.
Proof using Type. intros Hv. unfold marks. rewrite filter_cons, decide_False by done. done. Qed.

Lemma send_ok s taken t c v q :
  ring_ok s taken -> wants num_channel num_msgs s t = Some (Sends c v) -> queues s !! c = Some q ->
  ring_ok (with_queue (after_send num_channel num_msgs s t) c (q ++ [v])) taken.
Proof using Type.
  intros Hs Hw Hc. pose proof Hs as [_ Hpc Hws _ Ht Hch _ Hpat]. unfold with_queue. destruct t as [|i]; simpl in Hw.
  - assert (exists pc, main_sends num_channel num_msgs (main s) = Some (c, v, pc)) as [pc E].
    { destruct (mpc (main s)); try done; destruct (main_sends _ _ _) as [[[c' v'] pc]|] eqn:E; try done;
        simpl in Hw; injection Hw as <- <-; by exists pc. }
    simpl. rewrite E. cbn [main workers queues done_flag]. unfold main_sends in E.
    destruct (mpc (main s)) as [msg|k| |msg|k|] eqn:Epc; try done; injection E as <- <- <-; simpl in Hpc.
    + destruct (insert_from_ok (msg + 1)) as (P1 & P2 & P3 & P4 & P5); [lia..|].
      eapply main_moves; [done|done|done|..]; rewrite ?Epc; simpl.
      * intros ms Hms. rewrite P2. replace (msg + 1 - 1)%nat with (msg - 1 + 1)%nat by lia. rewrite seq_app, <- Hms.
        rewrite filter_app, filter_cons, decide_True by (unfold is_message; lia). simpl.
        rewrite <- !(assoc_L (++)). f_equiv. f_equiv. simpl. replace (S (msg - 1))%nat with msg by lia.
        by rewrite Permutation_cons_append.
      * by rewrite P4.
      * done.
      * rewrite P3, marks_app, marks_message by (unfold is_message; lia). case_decide; lia.
      * tauto.
    + destruct (mark_from_ok (k + 1)) as (P1 & P2 & P3 & P4 & P5); [lia..|].
      eapply main_moves; [done|done|done|..]; rewrite ?Epc; simpl.
      * intros ms Hms. by rewrite P2, filter_app, app_nil_r.
      * by rewrite P4.
      * done.
      * rewrite P3, marks_app. case_decide; [change (marks [0%nat]) with 1%nat; lia|done].
      * tauto.
    + destruct (stop_from_ok (k + 1)) as (P1 & P2 & P3 & P4 & P5).
      eapply main_moves; [done|done|done|..]; rewrite ?Epc; simpl.
      * intros ms Hms. by rewrite P2, filter_app, app_nil_r.
      * by rewrite P4.
      * done.
      * rewrite P3. case_decide; [lia|done].
      * tauto.
  - destruct (workers s !! i) as [w|] eqn:Ei; [|done]. simpl in Hw. destruct (wpc w) as [|d|c' d|] eqn:Ew; try done.
    injection Hw as -> ->. simpl. rewrite (alter_worker _ _ _ _ Ei). destruct (Hws i w Ei) as [Hwi Hwh].
    unfold held in Hwh. rewrite Ew in Hwh. apply Forall_cons in Hwh as [Hwh _].
    eapply worker_moves; [done|done|done|..].
    + split; [done|]. by constructor.
    + unfold held. rewrite Ew. simpl. by rewrite app_nil_r.
    + done.
    + rewrite marks_app, marks_message by done. case_decide; [simpl; lia|done].
Qed.

Lemma marks_zero q ws : (marks q + past_start ws)%nat = num_channel -> past_start ws = num_channel -> 0%nat ∉ q.
Proof using Type.
  intros H1 H2 Hin. unfold marks in H1. assert (length (filter (fun v => v = 0%nat) q) = 0%nat) as H0 by lia.
  apply nil_length_inv in H0. assert (0%nat ∈ filter (fun v => v = 0%nat) q) as Hf by (by apply list_elem_of_filter).
  rewrite H0 in Hf. by apply elem_of_nil in Hf.
Qed.

(** What the main thread pulls is a message it did not see before. *)
Lemma pulled_new s taken msg v q :
  ring_ok s taken -> mpc (main s) = Pulling msg -> queues s !! num_channel = Some (v :: q) ->
  (1 <= v <= num_msgs)%nat /\ v ∉ taken.
Proof using Type.
  intros [[Hlw _] Hpc Hws Hm Ht Hch Hmk Hpat] Epc Hq. rewrite Epc in *.
  assert (Hv : v <> 0%nat).
  { intros ->. apply (marks_zero (0%nat :: q) (workers s)); [by apply Hmk| |by left].
    rewrite past_start_all; [done|by apply Hpat]. }
  assert (Hin : v ∈ messages s).
  { apply list_elem_of_filter. split; [done|]. unfold tokens. apply elem_of_app. left.
    apply list_elem_of_In, in_concat. exists (v :: q). split; [|by left]. by apply list_elem_of_In; eapply list_elem_of_lookup_2. }
  split.
  - assert (v ∈ seq 1 num_msgs) as Hs; [|apply elem_of_seq in Hs; lia]. simpl in Hm. rewrite <- Hm. apply elem_of_app. by left.
  - intros Hin2. assert (NoDup (messages s ++ taken)) as Hnd by (rewrite Hm; apply NoDup_seq).
    apply NoDup_app in Hnd as (_ & Hd & _). by apply (Hd v).
Qed.

Lemma receive_ok s taken t c v q :
  ring_ok s taken -> wants num_channel num_msgs s t = Some (Receives c) -> queues s !! c = Some (v :: q) ->
  exists s' taken', after_receive num_channel num_msgs (with_queue s c q) t v = Done s' /\ ring_ok s' taken' /\
    queues s' = <[c := q]> (queues s).
Proof using Type.
  intros Hs Hw Hc. pose proof Hs as [[Hlw _] Hpc Hws _ Ht Hch _ Hpat]. destruct t as [|i]; simpl in Hw.
  - destruct (mpc (main s)) as [msg|k| |msg|k|] eqn:Epc; try (by destruct (main_sends _ _ _) as [[[? ?] ?]|]).
    injection Hw as <-. destruct (pulled_new s taken msg v q Hs Epc Hc) as [Hv Hnew]. simpl. rewrite Epc.
    unfold main_received. rewrite (proj2 (Nat.leb_le 1 v)), (proj2 (Nat.leb_le v num_msgs)) by lia.
    cbn [andb c_assert mbind outcome_bind]. unfold array_get, array_set. rewrite Hch.
    rewrite list_lookup_fmap, lookup_seq_lt by lia. simpl. rewrite bool_decide_eq_false_2 by done. simpl.
    rewrite decide_True by (rewrite length_fmap, length_seq; lia). simpl. eexists _, (taken ++ [v]).
    split; [done|]. split; [|done]. simpl in Hpc. destruct (pull_from_ok (msg + 1)) as (P1 & P2 & P3 & P4 & P5); [lia..|].
    eapply main_moves; [done|done|done|..]; simpl; rewrite ?Epc.
    + rewrite filter_cons, decide_True by (unfold is_message; lia). intros ms Hms. rewrite P2, <- Hms. f_equiv. simpl.
      rewrite (assoc_L (++)). by rewrite <- Permutation_cons_append.
    + rewrite length_app, Ht, P4. simpl. lia.
    + apply list_eq. intros j. destruct (decide (v = j)) as [<-|Hne].
      * rewrite list_lookup_insert_eq by (rewrite length_fmap, length_seq; lia).
        rewrite list_lookup_fmap, lookup_seq_lt by lia. simpl. rewrite bool_decide_eq_true_2; [done|]. set_solver.
      * rewrite list_lookup_insert_ne by done. rewrite !list_lookup_fmap.
        destruct (seq 0 (num_msgs + 1) !! j) as [x|] eqn:Ej; [|done]. apply lookup_seq in Ej as [-> _]. simpl.
        f_equal. apply bool_decide_ext. set_solver.
    + rewrite P3. simpl. case_decide; [|done]. change (v :: q) with ([v] ++ q).
      rewrite marks_app, marks_message by (unfold is_message; lia). lia.
    + done.
  - destruct (workers s !! i) as [w|] eqn:Ei; [|done]. simpl in Hw. destruct (wpc w) as [|d|c' d|] eqn:Ew; try done.
    injection Hw as <-. simpl. rewrite (alter_worker _ _ _ _ Ei). destruct (Hws i w Ei) as [Hwi Hwh].
    eexists _, taken. split; [done|]. split; [|done]. unfold receives_from in *.
    apply lookup_lt_Some in Ei as Hlt. eapply worker_moves; [done|done|done|..].
    + destruct v as [|v]; simpl; [destruct (start w)|]; (split; [done|]); repeat constructor. done.
    + unfold held. rewrite Ew, app_nil_r. destruct v as [|v]; simpl.
      * rewrite filter_cons, decide_False by (unfold is_message; lia). by destruct (start w); rewrite app_nil_r.
      * by rewrite Permutation_app_comm.
    + destruct v as [|v]; simpl; by destruct (start w).
    + unfold main_channel. destruct v as [|v]; simpl.
      * destruct (start w) eqn:Est; simpl; [rewrite decide_True by done|rewrite decide_False by lia; done].
        unfold marks. lia.
      * change (S v :: q) with ([S v] ++ q). rewrite marks_app, marks_message by done. by case_decide.
Qed.

Lemma start_ok : ring_ok (run_start num_channel num_msgs) [].
Proof using Type.
  destruct (insert_from_ok 1) as (P1 & P2 & P3 & P4 & P5); [lia..|]. unfold run_start. split; simpl; try done.
  - by rewrite length_fmap, length_seq, length_replicate, Nat.add_1_r.
  - intros i w Hi. rewrite list_lookup_fmap in Hi. apply fmap_Some in Hi as (j & Hj & ->).
    apply lookup_seq in Hj as [-> _]. split; [done|by constructor].
  - rewrite P2, app_nil_r. unfold messages, tokens. simpl.
    assert (concat (replicate (num_channel + 1) ([] : list nat)) = []) as ->.
    { generalize (num_channel + 1)%nat as k. by induction k. }
    assert (forall l, concat (held <$> ((fun i => Worker i true AtReceive) <$> l)) = []) as -> by (induction l; done).
    done.
  - apply list_eq. intros j. rewrite list_lookup_fmap. destruct (decide (j < num_msgs + 1)%nat).
    + by rewrite lookup_replicate_2, lookup_seq_lt by lia.
    + rewrite !lookup_ge_None_2; [done|rewrite length_seq; lia|rewrite length_replicate; lia].
  - intros q Hq. apply lookup_replicate in Hq as [-> _]. rewrite P3. unfold past_start.
    assert (forall l, filter (fun w => start w = false) ((fun i => Worker i true AtReceive) <$> l) = []) as ->; [|done].
    induction l as [|i l IH]; [done|]. simpl. by rewrite filter_cons, decide_False.
Qed.

Context (buffer_size : nat).
Notation step := (ring_step num_channel num_msgs buffer_size true).
Notation reachable := (ring_reachable num_channel num_msgs buffer_size true).

Definition queues_fit s : Prop := Forall (fun q => (length q <= buffer_size)%nat) (queues s).

Lemma sender_queues s t : queues (after_send num_channel num_msgs s t) = queues s.
Proof using Type. destruct t; simpl; [by destruct (main_sends _ _ _) as [[[? ?] ?]|]|done]. Qed.

(** A sender does not change what another thread wants to receive. *)
Lemma receiver_stays s t u c v c' :
  wants num_channel num_msgs s t = Some (Sends c v) -> wants num_channel num_msgs s u = Some (Receives c') ->
  forall q, wants num_channel num_msgs (with_queue (after_send num_channel num_msgs s t) c q) u = Some (Receives c').
Proof using Type.
  intros Ht Hu q. destruct t as [|i], u as [|j]; simpl in *; [congruence| | |].
  - by destruct (main_sends _ _ _) as [[[? ?] ?]|].
  - done.
  - destruct (decide (i = j)) as [->|Hne]; [congruence|]. by rewrite list_lookup_alter_ne.
Qed.

Lemma step_ok s taken r : ring_ok s taken -> queues_fit s -> step s r ->
  exists s' taken', r = Done s' /\ ring_ok s' taken' /\ queues_fit s'.
Proof using Type.
  intros Hs Hf Hst. destruct Hst as [t c v q Hw Hc Hl|t c v q Hw Hc|t u c v H0 Hw Hu|i w d Hi Hw|Hm Hpat].
  - eexists _, taken. split; [done|]. split; [by apply send_ok|]. unfold queues_fit. simpl. rewrite sender_queues.
    apply Forall_insert; [done|]. rewrite length_app. simpl. lia.
  - destruct (receive_ok s taken t c v q Hs Hw Hc) as (s' & taken' & E & Hs' & Hq). exists s', taken'. split_done.
    unfold queues_fit. rewrite Hq. apply Forall_insert; [done|]. pose proof (Forall_lookup_1 _ _ _ _ Hf Hc) as Hl.
    simpl in Hl. lia.
  - assert (is_Some (queues s !! c)) as [q Hq].
    { apply lookup_lt_is_Some. destruct Hs as [[Hlw Hlq] _ Hws _ _ _ _ _]. rewrite Hlq. destruct u as [|j]; simpl in Hu.
      - destruct (mpc (main s)); try (by destruct (main_sends _ _ _) as [[[? ?] ?]|]). injection Hu as <-.
        unfold main_channel. lia.
      - destruct (workers s !! j) as [w|] eqn:Ej; [|done]. simpl in Hu. destruct (wpc w); try done. injection Hu as <-.
        unfold receives_from, main_channel. rewrite (wo_index _ _ (Hws j w Ej)). apply lookup_lt_Some in Ej.
        destruct (start w); lia. }
    pose proof (Forall_lookup_1 _ _ _ _ Hf Hq) as Hl. simpl in Hl. destruct q as [|? ?]; [|simpl in Hl; lia].
    pose proof (send_ok s taken t c v [] Hs Hw Hq) as Hs1.
    destruct (receive_ok _ taken u c v [] Hs1 (receiver_stays s t u c v c Hw Hu _)) as (s' & taken' & E & Hs' & Hq').
    { simpl. rewrite sender_queues. apply list_lookup_insert_eq. by eapply lookup_lt_Some. }
    exists s', taken'. rewrite <- E. split; [|split; [done|]].
    + f_equal. unfold with_queue. simpl. rewrite list_insert_insert_eq, sender_queues, list_insert_id by done.
      destruct (after_send _ _ s t) as [? ? ? ?] eqn:Ea. simpl. f_equal. rewrite <- (sender_queues s t), Ea. done.
    + unfold queues_fit. rewrite Hq'. simpl. by rewrite sender_queues, list_insert_insert_eq, list_insert_id.
  - assert (is_Some (queues s !! num_channel)) as [q Hq].
    { apply lookup_lt_is_Some. rewrite (proj2 (rg_lengths _ _ Hs)). lia. }
    pose proof (worker_moves s taken i w (worker_loaded num_channel w d (done_flag s)) _ q q (done_flag s) Hs Hi Hq) as Hmv.
    rewrite (list_insert_id (queues s)) in Hmv by done. eexists _, taken. split; [done|]. split; [|done]. apply Hmv.
    + destruct (rg_workers _ _ Hs i w Hi) as [Hwi Hwh]. split; [done|]. unfold held in *. by rewrite Hw in Hwh.
    + unfold held. by rewrite Hw.
    + done.
    + by case_decide.
  - destruct Hs as [Hlens Hpc Hws Hms Ht Hch Hmk Hp]. rewrite Hm in *. simpl in *.
    destruct (pull_from_ok 1) as (P1 & P2 & P3 & P4 & P5); [lia..|].
    eexists _, taken. split; [done|]. split; [|done]. split; simpl; try done.
    + by rewrite P2.
    + by rewrite P4.
    + by rewrite P3.
    + intros _. by apply Hpat.
Qed.

Lemma reachable_ring_ok s : reachable s -> exists taken, ring_ok s taken /\ queues_fit s.
Proof using Type.
  induction 1 as [|s s' Hr (taken & IH & Hf) Hst].
  - exists []. split; [apply start_ok|]. apply Forall_replicate. simpl. lia.
  - destruct (step_ok s taken _ IH Hf Hst) as (s2 & taken' & [= <-] & Hok & Hf'). by exists taken'.
Qed.

(** ** Theorem *)

(** C7: every message comes back exactly once.  Let the main thread's sleep last
    until every worker has left its starting phase.  Then under every
    interleaving of the threads and for every buffer size, unbuffered channels
    included, no assertion of [run_stress_send_recv] fails and [msg_check] is
    never accessed out of bounds; and once the main thread has pulled
    [num_msgs] messages, it has seen every number from 1 to [num_msgs]. *)
Theorem ring_exactly_once (s : ring) :
  reachable s ->
  (forall r, step s r -> exists s', r = Done s') /\
  ((exists i, mpc (main s) = Stopping i) \/ mpc (main s) = Joining ->
   msg_check (main s) = false :: replicate num_msgs true).
Proof using Type.
  intros Hr. destruct (reachable_ring_ok s Hr) as (taken & Hs & Hf). split.
  - intros r Hst. destruct (step_ok s taken r Hs Hf Hst) as (s' & _ & -> & _). by exists s'.
  - intros Hpc. assert (sent_by (mpc (main s)) = num_msgs /\ pulled_by (mpc (main s)) = num_msgs) as [E1 E2].
    { by destruct Hpc as [[i ->]| ->]. }
    destruct Hs as [_ _ _ Hm Ht Hch _ _]. rewrite E1 in Hm. rewrite E2 in Ht.
    assert (messages s = []) as E.
    { apply nil_length_inv. apply Permutation_length in Hm. rewrite length_app, length_seq in Hm. lia. }
    rewrite E in Hm. simpl in Hm. rewrite Hch, Nat.add_1_r. simpl. f_equal.
    + rewrite bool_decide_eq_false_2; [done|]. rewrite Hm, elem_of_seq. lia.
    + apply list_eq. intros j. rewrite list_lookup_fmap. destruct (decide (j < num_msgs)%nat).
      * rewrite lookup_seq_lt, lookup_replicate_2 by done. simpl. rewrite bool_decide_eq_true_2; [done|].
        rewrite Hm, elem_of_seq. lia.
      * rewrite !lookup_ge_None_2; [done|rewrite length_replicate; lia|rewrite length_seq; lia].
Qed.
End invariant.

(** ** Runs *)

Inductive move := DoSend (t : thread) | DoReceive (t : thread) | DoHandover (t u : thread) | DoLoad (i : nat) | DoWake.

Section runs.
Context (num_channel num_msgs buffer_size : nat) (patient : bool).
Notation step := (ring_step num_channel num_msgs buffer_size patient).
Notation reachable := (ring_reachable num_channel num_msgs buffer_size patient).

(** The step of a move, when it is possible. *)
Definition perform (s : ring) (mv : move) : option (outcome ring) :=
  match mv with
  | DoSend t =>
      match wants num_channel num_msgs s t with
      | Some (Sends c v) =>
          q ← queues s !! c;
          if decide (length q < buffer_size)%nat
          then Some (Done (with_queue (after_send num_channel num_msgs s t) c (q ++ [v]))) else None
      | _ => None
      end
  | DoReceive t =>
      match wants num_channel num_msgs s t with
      | Some (Receives c) =>
          match queues s !! c with
          | Some (v :: q) => Some (after_receive num_channel num_msgs (with_queue s c q) t v)
          | _ => None
          end
      | _ => None
      end
  | DoHandover t u =>
      match wants num_channel num_msgs s t, wants num_channel num_msgs s u with
      | Some (Sends c v), Some (Receives c') =>
          if decide (buffer_size = 0%nat /\ c = c')
          then Some (after_receive num_channel num_msgs (after_send num_channel num_msgs s t) u v) else None
      | _, _ => None
      end
  | DoLoad i =>
      w ← workers s !! i;
      match wpc w with
      | AtLoad data =>
          Some (Done (Ring (main s) (<[i := worker_loaded num_channel w data (done_flag s)]> (workers s)) (queues s)
            (done_flag s)))
      | _ => None
      end
  | DoWake =>
      if decide (mpc (main s) = Sleeping /\ (patient = true -> Forall (fun w => start w = false) (workers s)))
      then Some (Done (Ring (Main (pull_from num_channel num_msgs 1) (msg_check (main s))) (workers s) (queues s) true))
      else None
  end.

Lemma perform_step s mv r : perform s mv = Some r -> step s r.
Proof using Type.
  destruct mv as [t|t|t u|i|]; simpl.
  - destruct (wants _ _ s t) as [[c v|c]|] eqn:Ew; try done. destruct (queues s !! c) as [q|] eqn:Eq; [|done]. simpl.
    case_decide; [|done]. intros [= <-]. by apply step_send.
  - destruct (wants _ _ s t) as [[c v|c]|] eqn:Ew; try done. destruct (queues s !! c) as [[|v q]|] eqn:Eq; try done.
    intros [= <-]. by eapply step_receive.
  - destruct (wants _ _ s t) as [[c v|c]|] eqn:Ew; try done. destruct (wants _ _ s u) as [[? ?|c']|] eqn:Eu; try done.
    case_decide as E; [|done]. destruct E as [E0 ->]. intros [= <-]. by eapply step_handover.
  - destruct (workers s !! i) as [w|] eqn:Ei; [|done]. simpl. destruct (wpc w) eqn:Ew; try done.
    intros [= <-]. by eapply step_load.
  - case_decide as E; [|done]. destruct E as [Em Ep]. intros [= <-]. apply step_wake; [done|].
    intros Hp w Hw. specialize (Ep Hp). rewrite Forall_forall in Ep. by apply Ep.
Qed.

Fixpoint perform_all (s : ring) (moves : list move) : option ring :=
  match moves with
  | [] => Some s
  | mv :: moves => match perform s mv with Some (Done s) => perform_all s moves | _ => None end
  end.

Lemma perform_all_reachable moves s s' : reachable s -> perform_all s moves = Some s' -> reachable s'.
Proof using Type.
  revert s. induction moves as [|mv moves IH]; intros s Hs; simpl; [by intros [= <-]|].
  destruct (perform s mv) as [[s1|]|] eqn:E; try done. apply IH. eapply reach_step; [done|]. by apply perform_step in E.
Qed.
End runs.

Notation M := MainThread.
Notation W := WorkerThread.

(** One message and two workers: it travels from the first worker to the second
    before it is called back. *)
Definition round_trip : list move :=
  [DoSend M; DoReceive (W 0); DoSend M; DoReceive (W 1); DoSend M; DoLoad 0; DoSend (W 0); DoReceive (W 0); DoReceive (W 1);
   DoWake; DoLoad 1; DoSend (W 1); DoReceive M; DoSend M; DoReceive (W 0); DoSend M; DoReceive (W 1)].

Lemma ring_exactly_once_witness :
  exists s, ring_reachable 2 1 1 true s /\ mpc (main s) = Joining /\ msg_check (main s) = [false; true].
Proof.
  destruct (perform_all 2 1 1 true (run_start 2 1) round_trip) as [s|] eqn:E; [|vm_compute in E; discriminate].
  assert (ring_reachable 2 1 1 true s) as Hr by (eapply perform_all_reachable; [constructor|exact E]).
  exists s. split; [exact Hr|]. assert (mpc (main s) = Joining) as Hpc by (vm_compute in E; injection E as <-; reflexivity).
  split; [exact Hpc|]. apply (ring_exactly_once 2 1 1 s Hr). right. exact Hpc.
Defined.

(** Nothing but the length of the sleep keeps the main thread from receiving its
    own mark: with one slow worker the first assertion on the received data
    fails. *)
Lemma early_wake_fails :
  exists s, ring_reachable 1 1 1 false s /\ ring_step 1 1 1 false s (Fault AssertFailed).
Proof.
  destruct (perform_all 1 1 1 false (run_start 1 1) [DoSend M; DoReceive (W 0); DoSend M; DoWake]) as [s|] eqn:E;
    [|discriminate].
  exists s. split; [eapply perform_all_reachable; [constructor|exact E]|]. apply (perform_step 1 1 1 false s (DoReceive M)).
  vm_compute in E. injection E as <-. reflexivity.
Qed.
