(* ===== verification/Topology.v ===== *)
(** * The stress test of the channels: topology and shortest distances

    [concurrency-project-FreezeKickerz/stress.c]: the matrices of link distances,
    [create_topology] and [floyd_warshall], whose result the routers of the test
    have to reach.  A distance is an [unsigned int] and a missing link is
    [inf_distance]. *)

From Stdlib Require Import ZArith Lia.
From stdpp Require Import list.
From S2P Require Import Prelude.

(** ** Code *)

Definition inf_distance : Z := 2147483647.
Definition w32 : Z := 4294967296.
Definition add32 (a b : Z) : Z := (a + b) mod w32.

(** The index [src * num_channel + dst] of a matrix element. *)
Definition element (n src dst : nat) : nat := src * n + dst.

Definition get_link_distance (n : nat) (topology : list Z) (src dst : nat) : outcome Z :=
  array_get topology (element n src dst).
Definition set_link_distance (n : nat) (topology : list Z) (src dst : nat) (d : Z) : outcome (list Z) :=
  array_set topology (element n src dst) d.
Definition get_solution_distance (n : nat) (solution : list Z) (src dst : nat) : outcome Z :=
  array_get solution (element n src dst).
Definition set_solution_distance (n : nat) (solution : list Z) (src dst : nat) (d : Z) : outcome (list Z) :=
  array_set solution (element n src dst) d.

(** [for (i = from; i < from + count; i++)] *)
Fixpoint for_loop {A} (count from : nat) (body : nat -> A -> outcome A) (a : A) : outcome A :=
  match count with O => Done a | S count => a ← body from a; for_loop count (S from) body a end.

(** The body of the innermost loop. *)
Definition relax (n k i j : nat) (sol : list Z) : outcome (list Z) :=
  a ← get_solution_distance n sol i k;
  b ← get_solution_distance n sol k j;
  c ← get_solution_distance n sol i j;
  if add32 a b <? c then set_solution_distance n sol i j (add32 a b) else Done sol.

(** [memcpy(solution, topology, ...)] and the loops. *)
Definition floyd_warshall (n : nat) (topology : list Z) : outcome (list Z) :=
  for_loop n 0 (fun k => for_loop n 0 (fun i => for_loop n 0 (fun j => relax n k i j))) topology.

(** One element of the file: [%d] into an [unsigned]. *)
Definition read_distance (z : Z) : outcome Z :=
  if (int_min <=? z) && (z <=? int_max)
  then let d := z mod w32 in Done (if inf_distance <? d then inf_distance else d)
  else Fault SignedOverflow.

(** The matrix from the numbers of the file; a missing number fails an assertion. *)
Definition read_element (n i j : nat) (s : list Z * list Z) : outcome (list Z * list Z) :=
  let '(file, topology) := s in
  match file with
  | [] => Fault AssertFailed
  | z :: file =>
      d ← read_distance z;
      topology ← set_link_distance n topology i j d;
      Done (file, topology)
  end.

(** [malloc]ed memory is filled before it is read. *)
Definition create_topology (file : list Z) : outcome (nat * list Z * list Z) :=
  match file with
  | [] => Fault AssertFailed
  | z :: file =>
      _ ← c_assert (0 <? z);
      let n := Z.to_nat z in
      '(_, topology) ← for_loop n 0 (fun i => for_loop n 0 (fun j => read_element n i j)) (file, replicate (n * n) 0);
      solution ← floyd_warshall n topology;
      Done (n, topology, solution)
  end.

(** ** Walks *)

Section walks.
Context (n : nat) (topology : list Z).

(** The weight of a link, zero outside the matrix. *)
Definition link (i j : nat) : Z := default 0 (topology !! element n i j).

(** A walk from [i] to [j] of one or more links, whose inner nodes are below [k]. *)
Inductive walk (k : nat) : nat -> nat -> Z -> Prop :=
  | walk_link i j : (i < n)%nat -> (j < n)%nat -> walk k i j (link i j)
  | walk_join i m j a b : walk k i m a -> walk k m j b -> (m < k)%nat -> walk k i j (a + b).

(** [d] is the distance from [i] to [j]: some walk has this length and none is
    shorter. *)
Definition shortest (k : nat) (i j : nat) (d : Z) : Prop :=
  walk k i j d /\ forall len, walk k i j len -> d <= len.

Hypothesis Hlinks : forall i j, 0 <= link i j.

Lemma walk_nonneg k i j a : walk k i j a -> 0 <= a.
Proof using Hlinks. induction 1; [apply Hlinks|lia]. Qed.

Lemma walk_more k k' i j a : (k <= k')%nat -> walk k i j a -> walk k' i j a.
Proof using Type. intros Hk. induction 1; [by constructor|]. eapply walk_join; [done..|lia]. Qed.

(** A walk that may pass through [k] either avoids it or goes to it and on from
    it, without being shorter. *)
Lemma walk_split k i j len :
  walk (S k) i j len ->
  (exists a, walk k i j a /\ 0 <= a <= len) \/
  (exists a b, walk k i k a /\ walk k k j b /\ 0 <= a /\ 0 <= b /\ a + b <= len).
Proof using Hlinks.
  induction 1 as [i j Hi Hj|i m j a b Ha IHa Hb IHb Hm].
  { left. exists (link i j). split; [by constructor|]. pose proof (Hlinks i j). lia. }
  destruct IHa as [(a1 & W1 & ?)|(a1 & a2 & W1 & W2 & ?)], IHb as [(b1 & V1 & ?)|(b1 & b2 & V1 & V2 & ?)];
    (destruct (decide (m = k)) as [->|Hne]; [|assert (Hmk : (m < k)%nat) by lia]).
  - right. exists a1, b1. split_done; lia.
  - left. exists (a1 + b1). split; [by eapply walk_join|lia].
  - right. exists a1, b2. split_done; lia.
  - right. exists (a1 + b1), b2. split; [by eapply walk_join|]. split_done; lia.
  - right. exists a1, b1. split_done; lia.
  - right. exists a1, (a2 + b1). split; [done|]. split; [by eapply walk_join|]. lia.
  - right. exists a1, b2. split_done; lia.
  - right. exists a1, b2. split_done; lia.
Qed.
End walks.

(** ** The loops *)

Lemma for_loop_inv {A} (P : nat -> A -> Prop) count from body (a : A) :
  P from a -> (forall x a, (from <= x < from + count)%nat -> P x a -> exists a', body x a = Done a' /\ P (S x) a') ->
  exists a', for_loop count from body a = Done a' /\ P (from + count)%nat a'.
Proof.
  revert from a. induction count as [|count IH]; intros from a Ha Hb; simpl.
  { exists a. by rewrite Nat.add_0_r. }
  destruct (Hb from a ltac:(lia) Ha) as (a1 & -> & H1). cbn [mbind outcome_bind].
  destruct (IH (S from) a1 H1) as (a2 & -> & H2); [intros x b Hx; apply Hb; lia|].
  exists a2. by rewrite Nat.add_succ_r.
Qed.

Section warshall.
Context (n : nat).
Implicit Types (sol : list Z) (i j k : nat).

Lemma element_lt i j : (i < n)%nat -> (j < n)%nat -> (element n i j < n * n)%nat.
Proof. unfold element. nia. Qed.

Lemma element_inj i j i' j' : (j < n)%nat -> (j' < n)%nat -> element n i j = element n i' j' -> i = i' /\ j = j'.
Proof.
  unfold element. intros Hj Hj' E. assert (i = i').
  { destruct (decide (i < i')%nat); [nia|]. destruct (decide (i' < i)%nat); [nia|lia]. }
  subst. lia.
Qed.

Record matrix_ok sol : Prop := {
  mx_length : length sol = (n * n)%nat;
  mx_range i j : (i < n)%nat -> (j < n)%nat -> 0 <= link n sol i j <= inf_distance
}.

Lemma get_link_ok sol i j : matrix_ok sol -> (i < n)%nat -> (j < n)%nat -> array_get sol (element n i j) = Done (link n sol i j).
Proof.
  intros [Hl _] Hi Hj. unfold array_get, link.
  destruct (lookup_lt_is_Some_2 sol (element n i j)) as [d ->]; [|done]. rewrite Hl. by apply element_lt.
Qed.

Lemma set_ok sol i j d :
  matrix_ok sol -> (i < n)%nat -> (j < n)%nat -> 0 <= d <= inf_distance ->
  array_set sol (element n i j) d = Done (<[element n i j := d]> sol) /\ matrix_ok (<[element n i j := d]> sol) /\
  forall i' j', (i' < n)%nat -> (j' < n)%nat ->
    link n (<[element n i j := d]> sol) i' j' = if decide (i' = i /\ j' = j) then d else link n sol i' j'.
Proof.
  intros [Hl Hr] Hi Hj Hd. pose proof (element_lt i j Hi Hj) as He.
  assert (Hlk : forall i' j', (i' < n)%nat -> (j' < n)%nat ->
    link n (<[element n i j := d]> sol) i' j' = if decide (i' = i /\ j' = j) then d else link n sol i' j').
  { intros i' j' Hi' Hj'. unfold link. case_decide as E.
    - destruct E as [-> ->]. rewrite list_lookup_insert_eq by lia. done.
    - rewrite list_lookup_insert_ne; [done|]. intros E'. apply E. by apply element_inj in E' as [-> ->]. }
  split; [unfold array_set; rewrite decide_True by lia; done|]. split; [|done]. split.
  - by rewrite length_insert.
  - intros i' j' Hi' Hj'. rewrite Hlk by done. case_decide; [done|by apply Hr].
Qed.

Section phase.
Context (topology old : list Z) (k : nat).
Hypothesis Hk : (k < n)%nat.

(** Within the [k]-th round: distances are lengths of walks and only shrink, and
    the elements done so far are no longer than the way through [k]. *)
Record phase_ok (done : nat -> nat -> Prop) sol : Prop := {
  ph_matrix : matrix_ok sol;
  ph_walk i j : (i < n)%nat -> (j < n)%nat -> walk n topology n i j (link n sol i j);
  ph_le i j : (i < n)%nat -> (j < n)%nat -> link n sol i j <= link n old i j;
  ph_done i j : (i < n)%nat -> (j < n)%nat -> done i j -> link n sol i j <= link n old i k + link n old k j
}.

Lemma relax_ok (done : nat -> nat -> Prop) sol i j :
  phase_ok done sol -> (i < n)%nat -> (j < n)%nat ->
  exists sol', relax n k i j sol = Done sol' /\ phase_ok (fun i' j' => done i' j' \/ (i' = i /\ j' = j)) sol'.
Proof using Hk.
  intros [Hm Hw Hle Hd] Hi Hj. unfold relax, get_solution_distance, set_solution_distance.
  rewrite !(get_link_ok sol) by done. cbn [mbind outcome_bind].
  pose proof (mx_range _ Hm i k Hi Hk) as Ra. pose proof (mx_range _ Hm k j Hk Hj) as Rb.
  pose proof (mx_range _ Hm i j Hi Hj) as Rc. pose proof (Hle i k Hi Hk). pose proof (Hle k j Hk Hj).
  assert (add32 (link n sol i k) (link n sol k j) = link n sol i k + link n sol k j) as ->.
  { unfold add32. apply Z.mod_small. unfold w32, inf_distance in *. lia. }
  destruct (_ <? _) eqn:E.
  - apply Z.ltb_lt in E. destruct (set_ok sol i j (link n sol i k + link n sol k j) Hm Hi Hj ltac:(lia)) as (-> & Hm' & Hl).
    eexists. split; [done|]. split; [done|..]; intros i' j' Hi' Hj'; rewrite Hl by done; case_decide as Ec.
    + destruct Ec as [-> ->]. eapply walk_join; [by apply Hw..|done].
    + by apply Hw.
    + destruct Ec as [-> ->]. specialize (Hle i j Hi Hj). lia.
    + by apply Hle.
    + destruct Ec as [-> ->]. lia.
    + intros [?|?]; [by apply Hd|done].
  - apply Z.ltb_ge in E. exists sol. split; [done|]. split; [done..|]. intros i' j' Hi' Hj' [?|[-> ->]]; [by apply Hd|lia].
Qed.

Lemma phase_mono (P Q : nat -> nat -> Prop) sol :
  (forall i j, (i < n)%nat -> (j < n)%nat -> Q i j -> P i j) -> phase_ok P sol -> phase_ok Q sol.
Proof using Type. intros HPQ [Hm Hw Hle Hd]. split; try done. intros i j Hi Hj HQ. apply Hd; auto. Qed.

Lemma round_ok sol :
  phase_ok (fun _ _ => False) sol ->
  exists sol', for_loop n 0 (fun i => for_loop n 0 (fun j => relax n k i j)) sol = Done sol' /\
    phase_ok (fun _ _ => True) sol'.
Proof using Hk.
  intros Hs.
  destruct (for_loop_inv (fun i => phase_ok (fun i' _ => (i' < i)%nat)) n 0
    (fun i => for_loop n 0 (fun j => relax n k i j)) sol) as (sol' & -> & Hs').
  - eapply phase_mono; [|done]. simpl. lia.
  - intros i s Hi Hp.
    destruct (for_loop_inv (fun j => phase_ok (fun i' j' => (i' < i)%nat \/ (i' = i /\ (j' < j)%nat))) n 0
      (fun j => relax n k i j) s) as (s' & -> & Hp').
    + eapply phase_mono; [|done]. simpl. intros i' j' _ _ [?|[_ ?]]; [done|lia].
    + intros j s1 Hj Hp1. destruct (relax_ok _ s1 i j Hp1) as (s2 & -> & Hp2); [lia..|].
      exists s2. split; [done|]. eapply phase_mono; [|done]. simpl. intros i' j' _ _ [?|[-> ?]]; [by left; left|].
      destruct (decide (j' = j)); [by right|left; right; lia].
    + exists s'. split; [done|]. eapply phase_mono; [|done]. simpl. intros i' j' _ Hj' ?.
      destruct (decide (i' = i)); [by right|left; lia].
  - exists sol'. split; [done|]. eapply phase_mono; [|done]. simpl. intros i j Hi _ _. lia.
Qed.
End phase.

Definition lower_bound (topology : list Z) k sol : Prop :=
  forall i j len, walk n topology k i j len -> link n sol i j <= len.

Lemma walk_ends topology k i j len : walk n topology k i j len -> (i < n)%nat /\ (j < n)%nat.
Proof. induction 1; naive_solver. Qed.

Lemma floyd_warshall_ok topology :
  matrix_ok topology ->
  exists sol, floyd_warshall n topology = Done sol /\ length sol = (n * n)%nat /\
    forall i j, (i < n)%nat -> (j < n)%nat ->
      0 <= link n sol i j <= inf_distance /\ shortest n topology n i j (link n sol i j).
Proof.
  intros Hm. assert (Hnn : forall i j, 0 <= link n topology i j).
  { intros i j. unfold link. generalize (element n i j) as e. intros e.
    destruct (topology !! e) as [d|] eqn:E; simpl; [|lia].
    apply lookup_lt_Some in E as Hlt. rewrite (mx_length _ Hm) in Hlt.
    assert (Hn : n <> 0%nat) by (intros ->; simpl in *; lia).
    pose proof (mx_range _ Hm (e / n) (e mod n)) as Hr. unfold link in Hr.
    assert (element n (e / n) (e mod n) = e) as He by (unfold element; pose proof (Nat.div_mod e n Hn); lia).
    rewrite He, E in Hr. simpl in Hr. apply Hr; [by apply Nat.Div0.div_lt_upper_bound|by apply Nat.mod_upper_bound]. }
  destruct (for_loop_inv (fun k sol => matrix_ok sol /\
    (forall i j, (i < n)%nat -> (j < n)%nat -> walk n topology n i j (link n sol i j)) /\ lower_bound topology k sol) n 0
    (fun k => for_loop n 0 (fun i => for_loop n 0 (fun j => relax n k i j))) topology) as (sol & E & Hsol & Hw & Hlow).
  - split; [done|]. split; [by constructor|]. intros i j len Hwalk. inversion Hwalk; subst; [lia|lia].
  - intros k old Hk (Hmo & Hwo & Hlow).
    destruct (round_ok topology old k ltac:(lia) old) as (sol & -> & [Hms Hws Hle Hd]); [by split|].
    exists sol. split; [done|]. split; [done|]. split; [done|]. intros i j len Hwalk.
    destruct (walk_ends _ _ _ _ _ Hwalk) as [Hi Hj].
    destruct (walk_split n topology Hnn k i j len Hwalk) as [(a & Wa & ?)|(a & b & Wa & Wb & ? & ? & ?)].
    + specialize (Hlow _ _ _ Wa). specialize (Hle i j Hi Hj). lia.
    + specialize (Hd i j Hi Hj I). pose proof (Hlow _ _ _ Wa). pose proof (Hlow _ _ _ Wb). lia.
  - exists sol. split; [done|]. split; [by apply Hsol|]. intros i j Hi Hj. split; [by apply Hsol|]. split; [by apply Hw|].
    intros len Hwalk. by apply (Hlow i j len).
Qed.
End warshall.

(** ** Reading the matrix *)

(** A negative number becomes [inf_distance]. *)
Definition distance_of (z : Z) : Z := if z <? 0 then inf_distance else z.

Lemma read_distance_ok z : int_ok z -> read_distance z = Done (distance_of z) /\ 0 <= distance_of z <= inf_distance.
Proof.
  unfold read_distance, distance_of, int_ok, int_min, int_max, inf_distance, w32. intros Hz.
  destruct (_ && _) eqn:E; [|lia]. destruct (z <? 0) eqn:E0; cbn [orb]; split; try lia.
  - rewrite <- (Z.mod_add z 1) by lia. rewrite Z.mod_small by lia.
    rewrite (proj2 (Z.ltb_lt _ _)) by lia. done.
  - rewrite Z.mod_small by lia. by rewrite (proj2 (Z.ltb_ge _ _)) by lia.
Qed.

Section reading.
Context (n : nat) (file : list Z).
Hypothesis Hlen : (n * n <= length file)%nat.
Hypothesis Hint : Forall int_ok file.

(** The first [e] elements were read. *)
Record read_ok (e : nat) (s : list Z * list Z) : Prop := {
  rd_file : s.1 = drop e file;
  rd_matrix : matrix_ok n s.2;
  rd_done i j z : (i < n)%nat -> (j < n)%nat -> (element n i j < e)%nat -> file !! element n i j = Some z ->
    link n s.2 i j = distance_of z
}.

Lemma read_element_ok i j s :
  (i < n)%nat -> (j < n)%nat -> read_ok (element n i j) s ->
  exists s', read_element n i j s = Done s' /\ read_ok (S (element n i j)) s'.
Proof using Hlen Hint.
  intros Hi Hj [Hf Hm Hd]. destruct s as [f t]. simpl in *. subst f. pose proof (element_lt n i j Hi Hj) as He.
  destruct (lookup_lt_is_Some_2 file (element n i j)) as [z Hz]; [lia|].
  rewrite (drop_S _ _ _ Hz). rewrite Forall_lookup in Hint. pose proof (Hint _ _ Hz) as Hzi.
  destruct (read_distance_ok z Hzi) as [-> Hr]. cbn [mbind outcome_bind].
  destruct (set_ok n t i j (distance_of z) Hm Hi Hj Hr) as (Es & Hm' & Hl). unfold set_link_distance. rewrite Es.
  cbn [mbind outcome_bind]. eexists. split; [done|]. split; [done|done|]. simpl. intros i' j' z' Hi' Hj' He' Hz'.
  rewrite Hl by done. case_decide as Ec; [destruct Ec as [-> ->]; congruence|]. apply Hd; try done.
  assert (element n i' j' <> element n i j); [|lia]. intros E. apply Ec. by apply element_inj in E.
Qed.

Lemma read_matrix_ok :
  exists f t, for_loop n 0 (fun i => for_loop n 0 (fun j => read_element n i j)) (file, replicate (n * n) 0) = Done (f, t) /\
    matrix_ok n t /\
    forall i j z, (i < n)%nat -> (j < n)%nat -> file !! element n i j = Some z -> link n t i j = distance_of z.
Proof using Hlen Hint.
  destruct (for_loop_inv (fun i => read_ok (i * n)) n 0 (fun i => for_loop n 0 (fun j => read_element n i j))
    (file, replicate (n * n) 0)) as ([f t] & -> & [_ Hm Hd]).
  - split; [done| |intros; lia]. cbn [snd]. split; [apply length_replicate|]. intros i j Hi Hj. unfold link.
    rewrite lookup_replicate_2 by (by apply element_lt). by unfold inf_distance.
  - intros i s Hi Hs.
    destruct (for_loop_inv (fun j => read_ok (i * n + j)) n 0 (fun j => read_element n i j) s) as (s' & -> & Hs').
    + by rewrite Nat.add_0_r.
    + intros j s1 Hj H1. destruct (read_element_ok i j s1) as (s2 & -> & H2); [lia..|done|].
      exists s2. split; [done|]. unfold element in H2. by replace (i * n + S j)%nat with (S (i * n + j)) by lia.
    + exists s'. split; [done|]. by replace (S i * n)%nat with (i * n + (0 + n))%nat by lia.
  - exists f, t. split_done. intros i j z Hi Hj Hz. apply (Hd i j z); try done. simpl. by apply element_lt.
Qed.
End reading.

(** ** Theorem *)

(** C25: the test's reference is right.  From a file that holds a positive number
    [n] and [n * n] numbers in range, [create_topology] builds the matrix of link
    distances, a negative number being no link, and the solution computed in
    place by [floyd_warshall] is, for every pair of nodes, the length of a
    shortest walk over these links; no access is out of bounds and no sum of two
    [unsigned] distances wraps around. *)
Theorem create_topology_solves (n : nat) (file : list Z) :
  (0 < n)%nat -> (n * n <= length file)%nat -> Forall int_ok file ->
  exists topology solution, create_topology (Z.of_nat n :: file) = Done (n, topology, solution) /\
    (forall i j z, (i < n)%nat -> (j < n)%nat -> file !! element n i j = Some z -> link n topology i j = distance_of z) /\
    forall i j, (i < n)%nat -> (j < n)%nat -> shortest n topology n i j (link n solution i j).
Proof.
  intros Hn Hlen Hint. unfold create_topology, c_assert. rewrite (proj2 (Z.ltb_lt _ _)) by lia.
  cbn [mbind outcome_bind]. rewrite Nat2Z.id.
  destruct (read_matrix_ok n file Hlen Hint) as (f & t & -> & Hm & Hd). cbn [mbind outcome_bind].
  destruct (floyd_warshall_ok n t Hm) as (sol & -> & _ & Hs). cbn [mbind outcome_bind].
  exists t, sol. split_done. intros i j Hi Hj. by apply Hs.
Qed.

Definition demo_file : list Z := [0; 5; -1; 1;  5; 0; 1; -1;  -1; 1; 0; 1;  1; -1; 1; 0].

Lemma create_topology_solves_witness :
  exists topology solution, create_topology (4 :: demo_file) = Done (4%nat, topology, solution) /\
    link 4 solution 0 1 = 3 /\ shortest 4 topology 4 0 1 3.
Proof.
  destruct (create_topology_solves 4 demo_file) as (t & s & E & _ & Hs).
  - lia.
  - simpl. lia.
  - repeat constructor; unfold int_min, int_max; simpl; lia.
  - exists t, s. split; [exact E|]. specialize (Hs 0%nat 1%nat ltac:(lia) ltac:(lia)).
    vm_compute in E. injection E as <- <-. split; [reflexivity|exact Hs].
Defined.
