(* ===== verification/Router.v ===== *)
(** * The stress test of the channels: the routers

    [concurrency-project-FreezeKickerz/stress.c]: the threads of the test run a
    distance-vector protocol over the channels.  A router is a state machine
    driven by the results of [channel_select]; its four vectors are buffers that
    it rotates, and a neighbour that receives the pointer to one reads what the
    buffer holds at that moment. *)

From Stdlib Require Import ZArith Lia.
From stdpp Require Import gmap list.
From S2P Require Import Prelude Topology.

(** ** State *)

Record distance_vector_t := Vector { src : nat; epoch : Z; dist : list Z }.

(** What an entry of the select list names. *)
Inductive channel_ref := DoneChannel | RouterChannel (i : nat).
Record select_entry := Entry { channel : channel_ref; is_send : bool; data : ptr }.

Record router_t := Router {
  index : nat;
  vectors : gmap loc distance_vector_t;
  prev_prev_state : loc; prev_state : loc; curr_state : loc; next_state : loc;
  changed : bool;
  select_list : list select_entry;
  select_count : nat;
  total_select_count : nat
}.

(** What a call of [channel_select] yields: the entry that proceeded and, for a
    receive, what the pointer received leads to (nothing for the null message);
    or the entry whose channel is closed. *)
Inductive select_event :=
  | Selected (selected_index : nat) (message : option distance_vector_t)
  | SelectClosed (selected_index : nat).

(** ** Code *)

Section code.
Context `{Malloc} (n : nat) (topology : list Z).
Implicit Types (r : router_t).

Definition set_vectors r (vs : gmap loc distance_vector_t) (b : bool) : router_t :=
  Router (index r) vs (prev_prev_state r) (prev_state r) (curr_state r) (next_state r) b (select_list r) (select_count r)
    (total_select_count r).
Definition set_select r (l : list select_entry) (c : nat) : router_t :=
  Router (index r) (vectors r) (prev_prev_state r) (prev_state r) (curr_state r) (next_state r) (changed r) l c
    (total_select_count r).
Definition get_vector r (p : loc) : outcome distance_vector_t :=
  match vectors r !! p with Some v => Done v | None => Fault Dangling end.

(** [for (i = 0; i < num_channel; i++) ...dist[i] = get_link_distance(index, i)] *)
Definition row (i : nat) : outcome (list Z) :=
  for_loop n 0 (fun j ds => d ← get_link_distance n topology i j; Done (ds ++ [d])) [].

(** The entries for the neighbours, with the data they send. *)
Definition neighbours (i : nat) (data : ptr) : outcome (list select_entry) :=
  for_loop n 0 (fun j l =>
    d ← get_link_distance n topology i j;
    Done (if bool_decide (j <> i) && negb (d =? inf_distance) then l ++ [Entry (RouterChannel j) true data] else l)) [].

Definition new_vector (live : gset loc) (vs : gmap loc distance_vector_t) (v : distance_vector_t)
    : outcome (loc * gmap loc distance_vector_t) :=
  match malloc (live ∪ dom vs) with
  | None => Fault AssertFailed
  | Some l => Done (l, <[l := v]> vs)
  end.

Definition router_start (live : gset loc) (i : nat) : outcome router_t :=
  ds ← row i;
  '(pp, vs) ← new_vector live ∅ (Vector i 0 ds);
  '(p, vs) ← new_vector live vs (Vector i 1 ds);
  '(c, vs) ← new_vector live vs (Vector i 2 ds);
  '(x, vs) ← new_vector live vs (Vector i 3 ds);
  nbs ← neighbours i (Some c);
  let entries := [Entry DoneChannel false None; Entry (RouterChannel i) false None] ++ nbs in
  Done (Router i vs pp p c x false entries (length entries) (length entries)).

(** The loop that merges a neighbour's vector into [next_state], with [changed]. *)
Definition merge_element (neighbor_dist : Z) (neighbor : list Z) (i : nat) (s : list Z * bool) : outcome (list Z * bool) :=
  let '(ds, b) := s in
  d ← array_get neighbor i;
  old ← array_get ds i;
  let new_dist := add32 neighbor_dist d in
  if new_dist <? old then ds ← array_set ds i new_dist; Done (ds, true) else Done (ds, b).

Definition merge r (v : distance_vector_t) : outcome router_t :=
  neighbor_dist ← get_link_distance n topology (index r) (src v);
  _ ← c_assert (negb (neighbor_dist =? inf_distance));
  next ← get_vector r (next_state r);
  '(ds, b) ← for_loop n 0 (merge_element neighbor_dist (dist v)) (dist next, changed r);
  Done (set_vectors r (<[next_state r := Vector (src next) (epoch next) ds]> (vectors r)) b).

(** One entry is done: it changes places with the last one. *)
Definition retire_entry r (selected_index : nat) : outcome router_t :=
  let count := (select_count r - 1)%nat in
  last ← array_get (select_list r) count;
  sel ← array_get (select_list r) selected_index;
  l ← array_set (select_list r) count (Entry (channel sel) (is_send last) (data last));
  sel ← array_get l selected_index;
  l ← array_set l selected_index (Entry (channel last) (is_send sel) (data sel));
  Done (set_select r l count).

(** The buffers are rotated and everything is sent again. *)
Definition cycle r : outcome router_t :=
  let '(curr, next, prev_prev, prev) := (next_state r, prev_prev_state r, prev_state r, curr_state r) in
  c ← get_vector r curr;
  x ← get_vector r next;
  let vs := <[next := Vector (src x) (add64 (epoch c) 1) (dist c)]> (vectors r) in
  let l := imap (fun i e => if bool_decide (2 <= i < total_select_count r)%nat
                            then Entry (channel e) (is_send e) (Some curr) else e) (select_list r) in
  Done (Router (index r) vs prev_prev prev curr next false l (total_select_count r) (total_select_count r)).

(** One turn of the loop: the router afterwards, if it goes on, and what it sends
    on the channel of completions. *)
Definition router_step r (ev : select_event) : outcome (option router_t * list ptr) :=
  match ev with
  | Selected i m =>
      _ ← c_assert (negb (i =? 0)%nat);
      '(r, out) ← (if (i =? 1)%nat then
                     match m with
                     | Some v => r ← merge r v; Done (r, [])
                     | None =>
                         let converged := (select_count r =? 2)%nat && negb (changed r) in
                         Done (r, [if converged then Some (curr_state r) else None])
                     end
                   else r ← retire_entry r i; Done (r, []));
      r ← (if (select_count r =? 2)%nat && changed r then cycle r else Done r);
      Done (Some r, out)
  | SelectClosed i =>
      _ ← c_assert (i =? 0)%nat;
      _ ← c_assert (negb (changed r));
      Done (None, [])
  end.
End code.

(** ** The network *)

(** Every router by its index; a step is a turn of one of them after which it goes
    on.  (A router that returns frees its buffers, and what it sent points nowhere
    then: the network is followed until the first one returns, and the whole
    program is followed further in [Stress].)  What a router receives is the
    contents, at that moment, of a buffer of a router that has a link to it: the
    one whose pointer was sent, whatever its owner does with it since. *)
Abbreviation network := (gmap nat router_t) (only parsing).

Definition offered (n : nat) (topology : list Z) (net : network) (i : nat) (v : distance_vector_t) : Prop :=
  exists j r p, net !! j = Some r /\ j <> i /\ vectors r !! p = Some v /\ link n topology j i <> inf_distance.

(** An event that [channel_select] can report to a router: no message is
    ever sent on the channel that ends the test, but it can be closed at any
    moment; the other channels stay open while routers run. *)
Definition possible (n : nat) (topology : list Z) (net : network) (i : nat) (r : router_t) (ev : select_event) : Prop :=
  match ev with
  | Selected 1 (Some v) => offered n topology net i v
  | Selected 1 None => True
  | Selected k _ => (2 <= k < select_count r)%nat
  | SelectClosed k => k = 0%nat
  end.

Inductive net_step (n : nat) (topology : list Z) : network -> network -> Prop :=
  | step_router net i r ev r' out :
      net !! i = Some r -> possible n topology net i r ev ->
      router_step n topology r ev = Done (Some r', out) ->
      net_step n topology net (<[i := r']> net).
