(* ===== verification/RouterProps.v ===== *)
(** * The routers of the stress test never believe a wrong distance

    Under every interleaving of the routers, every vector in every buffer holds
    lengths of real walks, so no distance is ever below the shortest one, and no
    assertion of a router fails but the last one, of a router that is told to stop
    while it has something new; when nothing changes any more, the distances are
    the shortest ones. *)

From Stdlib Require Import ZArith Lia.
From stdpp Require Import gmap list.
From S2P Require Import Prelude Topology Router.

Section props.
Context `{Malloc} (n : nat) (topology : list Z).
Hypothesis Hmat : matrix_ok n topology.
Implicit Types (r : router_t) (v : distance_vector_t).

(** ** Vectors *)

(** The vector of router [i]: for every node the length of a walk there, at most
    the direct link. *)
Record vector_ok (i : nat) v : Prop := {
  vo_src : src v = i;
  vo_length : length (dist v) = n;
  vo_dist x d : dist v !! x = Some d -> 0 <= d <= inf_distance /\ d <= link n topology i x /\ walk n topology n i x d
}.

Lemma vector_get i v x : vector_ok i v -> (x < n)%nat -> exists d, dist v !! x = Some d.
Proof using Type. intros Hv Hx. apply lookup_lt_is_Some_2. by rewrite (vo_length _ _ Hv). Qed.

(** *** Merging *)

(** The element [x] of [ds] after it was compared with the way over a link of
    length [nd] to a neighbour at distance [nb]. *)
Record merged (i : nat) (nd : Z) (nb old : list Z) (b0 : bool) (k : nat) (s : list Z * bool) : Prop := {
  me_vector : vector_ok i (Vector i 0 s.1);
  me_le x d d0 : s.1 !! x = Some d -> old !! x = Some d0 -> d <= d0;
  me_way x d m : (x < k)%nat -> s.1 !! x = Some d -> nb !! x = Some m -> d <= nd + m;
  me_same : s.2 = false -> s.1 = old /\ b0 = false
}.

Lemma merge_loop_ok i j v w (b0 : bool) :
  vector_ok i v -> vector_ok j w -> (i < n)%nat -> (j < n)%nat -> link n topology i j <> inf_distance ->
  exists s, for_loop n 0 (merge_element (link n topology i j) (dist w)) (dist v, b0) = Done s /\
    merged i (link n topology i j) (dist w) (dist v) b0 n s.
Proof using Hmat.
  intros Hv Hw Hi Hj Hinf. pose proof (mx_range _ _ Hmat i j Hi Hj) as Hlink.
  apply (for_loop_inv (merged i (link n topology i j) (dist w) (dist v) b0) n 0).
  - split; simpl; [|intros; simplify_eq; lia|lia|done]. destruct Hv as [_ Hl Hd]. by split.
  - intros x [ds b] Hx [Hvec Hle Hway Hsame]. simpl in *. unfold merge_element, array_get.
    destruct (vector_get j w x Hw) as [m Hm]; [lia|]. destruct (vector_get i _ x Hvec) as [d Hd]; [lia|]. simpl in Hd.
    rewrite Hm, Hd. cbn [mbind outcome_bind].
    destruct (vo_dist _ _ Hw _ _ Hm) as (Hm1 & _ & Hm3). destruct (vo_dist _ _ Hvec _ _ Hd) as (Hd1 & Hd2 & _).
    assert (add32 (link n topology i j) m = link n topology i j + m) as ->.
    { unfold add32. apply Z.mod_small. unfold w32, inf_distance in *. lia. }
    destruct (_ <? _) eqn:E.
    + apply Z.ltb_lt in E. pose proof (vo_length _ _ Hvec) as Hlen. simpl in Hlen.
      unfold array_set. rewrite decide_True by lia. cbn [mbind outcome_bind]. eexists. split; [done|].
      assert (Hget : forall y e, <[x := link n topology i j + m]> ds !! y = Some e ->
        (y = x /\ e = link n topology i j + m) \/ (y <> x /\ ds !! y = Some e)).
      { intros y e. destruct (decide (y = x)) as [->|Hne].
        - rewrite list_lookup_insert_eq by lia. intros [= <-]. by left.
        - rewrite list_lookup_insert_ne by congruence. by right. }
      split; simpl.
      * split; simpl; [done|by rewrite length_insert|]. intros y e [[-> ->]|[_ Hy]]%Hget; [|by apply (vo_dist _ _ Hvec y)].
        split; [lia|]. split; [lia|]. eapply walk_join; [by apply walk_link|done|done].
      * intros y e e0 [[-> ->]|[_ Hy]]%Hget Hy0; [specialize (Hle _ _ _ Hd Hy0); lia|by apply (Hle y)].
      * intros y e m' Hyx [[-> ->]|[Hne Hy]]%Hget Hm'; [by simplify_eq|]. apply (Hway y); [lia|done|done].
      * done.
    + apply Z.ltb_ge in E. exists (ds, b). split; [done|]. split; simpl; try done.
      intros y e m' Hyx Hy Hm'. destruct (decide (y = x)) as [->|]; [by simplify_eq|]. apply (Hway y); [lia|done|done].
Qed.

(** ** Routers *)

Definition neighbour_list (i : nat) : list nat :=
  filter (fun j => j <> i /\ link n topology i j <> inf_distance) (seq 0 n).

(** The buffers, the counters and the entries of a router. *)
Record router_ok (i : nat) r : Prop := {
  ro_index : index r = i /\ (i < n)%nat;
  ro_distinct : NoDup [prev_prev_state r; prev_state r; curr_state r; next_state r];
  ro_buffers p : p ∈ [prev_prev_state r; prev_state r; curr_state r; next_state r] -> is_Some (vectors r !! p);
  ro_vectors p v : vectors r !! p = Some v -> vector_ok i v;
  (** What was learned since the last broadcast is in [next_state]. *)
  ro_next c x : vectors r !! curr_state r = Some c -> vectors r !! next_state r = Some x ->
    (changed r = false -> dist x = dist c) /\
    forall y d e, dist x !! y = Some d -> dist c !! y = Some e -> d <= e;
  ro_count : (2 <= select_count r <= total_select_count r)%nat /\ length (select_list r) = total_select_count r;
  ro_entries k e : select_list r !! k = Some e -> (2 <= k)%nat -> is_send e = true /\ data e = Some (curr_state r);
  ro_channels : (channel <$> drop 2 (select_list r)) ≡ₚ RouterChannel <$> neighbour_list i
}.

Lemma get_vector_ok i r p :
  router_ok i r -> p ∈ [prev_prev_state r; prev_state r; curr_state r; next_state r] ->
  exists v, get_vector r p = Done v /\ vectors r !! p = Some v /\ vector_ok i v.
Proof using Type.
  intros Hr Hp. destruct (ro_buffers _ _ Hr _ Hp) as [v Hv]. exists v. unfold get_vector. rewrite Hv.
  split_done. by eapply ro_vectors.
Qed.

Lemma merge_vector_ok i r w :
  router_ok i r -> vector_ok (src w) w -> (src w < n)%nat -> link n topology i (src w) <> inf_distance ->
  exists r', merge n topology r w = Done r' /\ router_ok i r' /\
    curr_state r' = curr_state r /\ (vectors r' !! curr_state r = vectors r !! curr_state r) /\
    forall c y d m, changed r' = false -> vectors r !! curr_state r = Some c -> dist c !! y = Some d -> dist w !! y = Some m ->
      d <= link n topology i (src w) + m.
Proof using Hmat.
  intros Hr Hw Hs Hinf. pose proof Hr as [[Hi Hin] Hnd Hbuf Hvecs Hnext Hcount Hent Hch].
  unfold merge, get_link_distance. rewrite Hi, (get_link_ok n topology i (src w)) by done. cbn [mbind outcome_bind].
  unfold c_assert. rewrite (proj2 (Z.eqb_neq _ _) Hinf). cbn [negb mbind outcome_bind].
  destruct (get_vector_ok i r (next_state r) Hr) as (x & -> & Hx & Hxok); [set_solver|]. cbn [mbind outcome_bind].
  destruct (merge_loop_ok i (src w) x w (changed r) Hxok Hw Hin Hs Hinf) as ([ds b] & -> & [Hvec Hle Hway Hsame]).
  cbn [mbind outcome_bind]. eexists. split; [done|]. simpl in *.
  assert (Hcx : curr_state r <> next_state r).
  { intros E. rewrite E in Hnd. apply NoDup_cons in Hnd as [_ Hnd]. apply NoDup_cons in Hnd as [_ Hnd].
    apply NoDup_cons in Hnd as [Hnd _]. set_solver. }
  destruct (get_vector_ok i r (curr_state r) Hr) as (c & _ & Hc & Hcok); [set_solver|].
  destruct (Hnext c x Hc Hx) as [Hn1 Hn2]. split; [|split; [done|split]].
  - split; simpl; try done.
    + intros p Hp. destruct (decide (p = next_state r)) as [->|]; [rewrite lookup_insert_eq; by eexists|].
      rewrite lookup_insert_ne by done. by apply Hbuf.
    + intros p v [[_ <-]|[_ Hp]]%lookup_insert_Some; [|by eapply Hvecs].
      destruct Hvec as [_ Hl Hd]. destruct Hxok as [Hsx _ _]. by split.
    + intros c' x' Hc' Hx'. rewrite lookup_insert_ne in Hc' by done. rewrite lookup_insert_eq in Hx'.
      rewrite Hc in Hc'. injection Hc' as <-. injection Hx' as <-. simpl.
      split; [intros ->; destruct (Hsame eq_refl) as [-> Hb]; by apply Hn1|].
      intros y d e Hd He. destruct (vector_get i x y Hxok) as [d0 Hd0].
      { apply lookup_lt_Some in He. by rewrite (vo_length _ _ Hcok) in He. }
      specialize (Hle y d d0 Hd Hd0). specialize (Hn2 y d0 e Hd0 He). lia.
  - by rewrite lookup_insert_ne.
  - intros c' y d m -> Hc' Hd Hm. rewrite Hc in Hc'. injection Hc' as <-. destruct (Hsame eq_refl) as [-> Hb]. rewrite (Hn1 Hb) in *.
    apply (Hway y); [|done|done]. apply lookup_lt_Some in Hd. by rewrite (vo_length _ _ Hcok) in Hd.
Qed.

(** *** The select list *)

Lemma insert_perm {A} (l : list A) i a b : l !! i = Some a -> a :: <[i := b]> l ≡ₚ b :: l.
Proof using Type.
  intros Hi. rewrite <- (take_drop_middle l i a Hi) at 2.
  rewrite insert_take_drop by (by eapply lookup_lt_Some).
  rewrite <- !Permutation_middle. apply perm_swap.
Qed.

Lemma swap_perm {A} (l : list A) i j a b :
  l !! i = Some a -> l !! j = Some b -> <[i := b]> (<[j := a]> l) ≡ₚ l.
Proof using Type.
  intros Hi Hj. assert (H1 : <[j := a]> l !! i = Some a).
  { destruct (decide (i = j)) as [->|Hne]; [by rewrite list_lookup_insert_eq by (by eapply lookup_lt_Some)|].
    by rewrite list_lookup_insert_ne. }
  apply (Permutation_cons_inv (a := a)). rewrite (insert_perm _ _ _ b H1). by apply insert_perm.
Qed.

Lemma retire_entry_ok i r k :
  router_ok i r -> (2 <= k < select_count r)%nat ->
  exists r', retire_entry r k = Done r' /\ router_ok i r' /\ vectors r' = vectors r /\
    changed r' = changed r /\ select_count r' = (select_count r - 1)%nat.
Proof using Type.
  intros Hr Hk. pose proof Hr as [Hi Hnd Hbuf Hvecs Hnext [Hcount Hlen] Hent Hch].
  unfold retire_entry, array_get, array_set. set (c := (select_count r - 1)%nat).
  destruct (lookup_lt_is_Some_2 (select_list r) c) as [last Hl]; [unfold c; lia|].
  destruct (lookup_lt_is_Some_2 (select_list r) k) as [sel Hs]; [lia|]. rewrite Hl, Hs. cbn [mbind outcome_bind].
  rewrite decide_True by (unfold c; lia). cbn [mbind outcome_bind].
  set (l1 := <[c := Entry (channel sel) (is_send last) (data last)]> (select_list r)).
  assert (Hl1 : length l1 = total_select_count r) by (unfold l1; by rewrite length_insert).
  destruct (lookup_lt_is_Some_2 l1 k) as [sel' Hs']; [lia|]. rewrite Hs'. cbn [mbind outcome_bind].
  rewrite decide_True by lia. cbn [mbind outcome_bind]. eexists. split; [done|].
  assert (Hent1 : forall x e, l1 !! x = Some e -> (2 <= x)%nat -> is_send e = true /\ data e = Some (curr_state r)).
  { intros x e He Hx. unfold l1 in He. destruct (decide (x = c)) as [->|Hne].
    - rewrite list_lookup_insert_eq in He by (unfold c; lia). injection He as <-. simpl.
      by apply (Hent c); [|unfold c; lia].
    - rewrite list_lookup_insert_ne in He by congruence. by apply (Hent x). }
  split; [|done]. split; simpl; try done.
  - rewrite length_insert. lia.
  - intros x e He Hx. destruct (decide (x = k)) as [->|Hne].
    + rewrite list_lookup_insert_eq in He by lia. injection He as <-. simpl. by apply (Hent1 k).
    + rewrite list_lookup_insert_ne in He by congruence. by apply (Hent1 x).
  - rewrite <- Hch. rewrite !fmap_drop. unfold l1. rewrite !list_fmap_insert. simpl.
    assert (Hc2 : (2 <= c)%nat) by (unfold c; lia).
    replace k with (2 + (k - 2))%nat by lia. replace c with (2 + (c - 2))%nat by lia.
    rewrite !drop_insert_ge by lia. replace (2 + (k - 2) - 2)%nat with (k - 2)%nat by lia.
    replace (2 + (c - 2) - 2)%nat with (c - 2)%nat by lia.
    apply swap_perm; rewrite lookup_drop, list_lookup_fmap; [replace (2 + (k - 2))%nat with k by lia; by rewrite Hs|].
    replace (2 + (c - 2))%nat with c by lia. by rewrite Hl.
Qed.

Lemma cycle_ok i r :
  router_ok i r -> exists r', cycle r = Done r' /\ router_ok i r' /\ changed r' = false /\
    select_count r' = total_select_count r.
Proof using Hmat.
  intros Hr. pose proof Hr as [Hi Hnd Hbuf Hvecs Hnext [Hcount Hlen] Hent Hch]. unfold cycle.
  destruct (get_vector_ok i r (next_state r) Hr) as (c & -> & Hc & Hcok); [set_solver|].
  destruct (get_vector_ok i r (prev_prev_state r) Hr) as (x & -> & Hx & Hxok); [set_solver|].
  cbn [mbind outcome_bind]. eexists. split; [done|]. split; [|done].
  assert (Hne : next_state r <> prev_prev_state r).
  { intros E. rewrite E in Hnd. apply NoDup_cons in Hnd as [Hnd _]. set_solver. }
  assert (Hxc : vector_ok i (Vector (src x) (add64 (epoch c) 1) (dist c))).
  { destruct Hcok as [_ Hl Hd]. split; [apply Hxok|done|done]. }
  split; simpl; try done.
  - assert (Hp : [prev_state r; curr_state r; next_state r; prev_prev_state r] ≡ₚ
      [prev_prev_state r; prev_state r; curr_state r; next_state r]) by
      (symmetry; exact (Permutation_cons_append [prev_state r; curr_state r; next_state r] (prev_prev_state r))).
    by rewrite Hp.
  - intros p Hp. destruct (decide (p = prev_prev_state r)) as [->|]; [rewrite lookup_insert_eq; by eexists|].
    rewrite lookup_insert_ne by done. apply Hbuf. set_solver.
  - intros p v [[_ <-]|[_ Hp]]%lookup_insert_Some; [done|by eapply Hvecs].
  - intros c' x' Hc' Hx'. rewrite lookup_insert_ne in Hc' by done. rewrite lookup_insert_eq in Hx'.
    rewrite Hc in Hc'. injection Hc' as <-. injection Hx' as <-. simpl. split; [done|].
    intros y d e Hd He. rewrite Hd in He. injection He as ->. lia.
  - rewrite length_imap. lia.
  - intros k e He Hk. rewrite list_lookup_imap in He. apply fmap_Some in He as (e0 & He0 & ->).
    pose proof (lookup_lt_Some _ _ _ He0). rewrite bool_decide_eq_true_2 by lia. simpl. split; [|done].
    by apply (Hent k).
  - rewrite <- Hch. rewrite !fmap_drop. match goal with |- ?a ≡ₚ ?b => cut (a = b); [by intros ->|] end. f_equal. apply list_eq. intros k.
    rewrite !list_lookup_fmap, list_lookup_imap. destruct (select_list r !! k) as [e|]; [|done]. simpl. by case_bool_decide.
Qed.

(** *** The start *)

Lemma row_ok i : (i < n)%nat -> exists ds, row n topology i = Done ds /\ length ds = n /\
  forall x d, ds !! x = Some d -> d = link n topology i x.
Proof using Hmat.
  intros Hi. unfold row.
  destruct (for_loop_inv (fun k ds => length ds = k /\ forall x d, ds !! x = Some d -> d = link n topology i x) n 0
    (fun j ds => d ← get_link_distance n topology i j; Done (ds ++ [d])) []) as (ds & -> & Hl & Hd).
  - by split.
  - intros x ds Hx [Hl Hd]. unfold get_link_distance. rewrite (get_link_ok n topology i x) by (done || lia).
    cbn [mbind outcome_bind]. eexists. split; [done|]. rewrite length_app. simpl. split; [lia|].
    intros y d [Hy|[Hy1 Hy2]]%lookup_app_Some; [by apply Hd|]. apply list_lookup_singleton_Some in Hy2 as [Hy2 <-].
    f_equal. lia.
  - by exists ds.
Qed.

Lemma neighbours_ok i p : (i < n)%nat ->
  neighbours n topology i p = Done ((fun j => Entry (RouterChannel j) true p) <$> neighbour_list i).
Proof using Hmat.
  intros Hi. unfold neighbours, neighbour_list.
  destruct (for_loop_inv (fun k l => l = (fun j => Entry (RouterChannel j) true p) <$>
    filter (fun j => j <> i /\ link n topology i j <> inf_distance) (seq 0 k)) n 0
    (fun j l => d ← get_link_distance n topology i j;
      Done (if bool_decide (j <> i) && negb (d =? inf_distance) then l ++ [Entry (RouterChannel j) true p] else l)) [])
    as (l & -> & ->); [done| |done].
  intros j l Hj ->. unfold get_link_distance. rewrite (get_link_ok n topology i j) by (done || lia).
  cbn [mbind outcome_bind]. eexists. split; [done|].
  replace (S j) with (j + 1)%nat by lia. rewrite seq_app, filter_app, fmap_app. simpl. rewrite filter_cons, filter_nil.
  case_bool_decide as Eb; destruct (link n topology i j =? inf_distance) eqn:El; simpl;
    [apply Z.eqb_eq in El|apply Z.eqb_neq in El|..].
  - rewrite decide_False by naive_solver. by rewrite app_nil_r.
  - by rewrite decide_True.
  - rewrite decide_False by naive_solver. by rewrite app_nil_r.
  - rewrite decide_False by naive_solver. by rewrite app_nil_r.
Qed.

Lemma new_vector_ok live vs v l vs' :
  new_vector live vs v = Done (l, vs') -> vs !! l = None /\ vs' = <[l := v]> vs.
Proof using Type.
  unfold new_vector. destruct (malloc _) as [l'|] eqn:E; [|done]. intros [= <- <-]. split; [|done].
  apply malloc_fresh in E. apply not_elem_of_dom. by apply not_elem_of_union in E as [_ ?].
Qed.

Lemma router_start_ok live i r : (i < n)%nat -> router_start n topology live i = Done r -> router_ok i r.
Proof using Hmat.
  intros Hi Hs. unfold router_start in Hs. destruct (row_ok i Hi) as (ds & Er & Hl & Hd). rewrite Er in Hs.
  cbn [mbind outcome_bind] in Hs.
  apply bind_Done in Hs as ([pp v1] & [N1 ->]%new_vector_ok & Hs).
  apply bind_Done in Hs as ([p v2] & [N2 ->]%new_vector_ok & Hs).
  apply bind_Done in Hs as ([c v3] & [N3 ->]%new_vector_ok & Hs).
  apply bind_Done in Hs as ([x v4] & [N4 ->]%new_vector_ok & Hs).
  rewrite neighbours_ok in Hs by done. cbn [mbind outcome_bind] in Hs. injection Hs as <-.
  apply lookup_insert_None in N2 as [_ D1]. apply lookup_insert_None in N3 as [N3 D2].
  apply lookup_insert_None in N3 as [_ D3]. apply lookup_insert_None in N4 as [N4 D4].
  apply lookup_insert_None in N4 as [N4 D5]. apply lookup_insert_None in N4 as [_ D6].
  assert (Hvok : forall e, vector_ok i (Vector i e ds)).
  { intros e. split; [done|done|]. intros y d Hy. simpl in Hy. pose proof (Hd y d Hy) as ->.
    apply lookup_lt_Some in Hy. rewrite Hl in Hy. split; [by apply (mx_range _ _ Hmat)|]. split; [lia|by constructor]. }
  split; simpl.
  - done.
  - repeat (apply NoDup_cons; split; [set_solver|]). constructor.
  - intros q Hq. repeat (apply elem_of_cons in Hq as [->|Hq]; [rewrite ?lookup_insert_is_Some; naive_solver|]).
    by apply elem_of_nil in Hq.
  - intros q v Hq. repeat (apply lookup_insert_Some in Hq as [[_ <-]|[_ Hq]]; [done|]). by rewrite lookup_empty in Hq.
  - intros c' x' Hc Hx. rewrite lookup_insert_eq in Hx. injection Hx as <-.
    rewrite lookup_insert_ne, lookup_insert_eq in Hc by done. injection Hc as <-. simpl. split; [done|].
    intros y d e Hy He. simplify_eq. lia.
  - lia.
  - intros k e He Hk. destruct k as [|[|k]]; [lia|lia|]. simpl in He. rewrite list_lookup_fmap in He.
    by apply fmap_Some in He as (j & _ & ->).
  - by rewrite drop_0, <- list_fmap_compose.
Qed.

(** *** A turn *)

Hypothesis Hsym : forall i j, (i < n)%nat -> (j < n)%nat -> link n topology j i <> inf_distance -> link n topology i j <> inf_distance.

Definition net_ok (net : network) : Prop := forall i r, net !! i = Some r -> router_ok i r.

Lemma router_step_ok net i r k m :
  net_ok net -> net !! i = Some r -> possible n topology net i r (Selected k m) ->
  exists r' out, router_step n topology r (Selected k m) = Done (Some r', out) /\ router_ok i r'.
Proof using Hmat Hsym.
  intros Hnet Hi Hev. pose proof (Hnet i r Hi) as Hr.
  assert (Hmid : exists r1 out, router_ok i r1 /\
    ((if (k =? 1)%nat then match m with
       | Some v => r ← merge n topology r v; Done (r, [])
       | None => Done (r, [if (select_count r =? 2)%nat && negb (changed r) then Some (curr_state r) else None])
       end else r ← retire_entry r k; Done (r, [])) = Done (r1, out)) /\ (k =? 0)%nat = false).
  { destruct k as [|[|k]]; simpl in Hev; [lia| |].
    - destruct m as [v|]; simpl; [|by exists r, [if (select_count r =? 2)%nat && negb (changed r) then Some (curr_state r) else None]].
      destruct Hev as (j & rj & p & Hj & Hne & Hp & Hinf). pose proof (Hnet j rj Hj) as Hrj.
      pose proof (ro_vectors _ _ Hrj _ _ Hp) as Hv. destruct (ro_index _ _ Hrj) as [_ Hjn]. destruct (ro_index _ _ Hr) as [_ Hin].
      pose proof (vo_src _ _ Hv) as Es.
      subst j. destruct (merge_vector_ok i r v Hr Hv Hjn (Hsym _ _ Hin Hjn Hinf)) as (r1 & -> & Hr1 & _).
      cbn [mbind outcome_bind]. by exists r1, [].
    - destruct (retire_entry_ok i r (S (S k)) Hr) as (r1 & E & Hr1 & _); [lia|].
      exists r1, []. change (S (S k) =? 1)%nat with false. rewrite E. done. }
  destruct Hmid as (r1 & out & Hr1 & E & E0). unfold router_step. rewrite E0. cbn [negb c_assert mbind outcome_bind].
  rewrite E. cbn [mbind outcome_bind]. destruct ((select_count r1 =? 2)%nat && changed r1).
  - destruct (cycle_ok i r1 Hr1) as (r2 & -> & Hr2 & _). cbn [mbind outcome_bind]. by exists r2, out.
  - cbn [mbind outcome_bind]. by exists r1, out.
Qed.

(** The channel that ends the test is closed: a router with something new does not
    get past [assert(changed == false)], any other one returns. *)
Lemma router_step_closed r :
  router_step n topology r (SelectClosed 0) = if changed r then Fault AssertFailed else Done (None, []).
Proof using Type. simpl. by destruct (changed r). Qed.

Lemma router_goes_on net i r ev r' out :
  net_ok net -> net !! i = Some r -> possible n topology net i r ev -> router_step n topology r ev = Done (Some r', out) ->
  router_ok i r' /\ exists k m, ev = Selected k m.
Proof using Hmat Hsym.
  intros Hnet Hi Hev E. destruct ev as [k m|k].
  - destruct (router_step_ok net i r k m Hnet Hi Hev) as (r2 & out2 & E2 & Hok). rewrite E in E2. injection E2 as <- <-.
    split; [done|by exists k, m].
  - simpl in Hev. subst k. rewrite router_step_closed in E. by destruct (changed r).
Qed.

(** ** Theorems *)

Definition started (net : network) : Prop :=
  forall i r, net !! i = Some r -> (i < n)%nat /\ exists live, router_start n topology live i = Done r.

Lemma reachable_ok net0 net : started net0 -> rtc (net_step n topology) net0 net -> net_ok net.
Proof using Hmat Hsym.
  intros Hs Hr. assert (H0 : net_ok net0) by (intros i r Hi; destruct (Hs i r Hi) as [? [live ?]]; by eapply router_start_ok).
  clear Hs. induction Hr as [|net0 net1 net2 Hstep _ IH]; [done|]. apply IH. clear IH.
  destruct Hstep as [net i r ev r' out Hi Hp E]. destruct (router_goes_on net i r ev r' out H0 Hi Hp E) as [Hok _].
  intros j rj [[<- <-]|[_ Hj]]%lookup_insert_Some; [done|by apply H0].
Qed.

(** C8: no router ever believes a wrong distance.  The links lead both ways (the
    distances may differ; a file with a link in one direction only would fail
    [assert(neighbor_dist != inf_distance)]).  Then, under every interleaving of
    the routers until the first one returns, whatever buffers their neighbours
    read and however stale these are, every message and every completed send is
    dealt with without a failed assertion or an access out of bounds; when the
    channel that ends the test is closed, a router returns if it has nothing new,
    and fails [assert(changed == false)] exactly if it has ([StressSafe] follows the
    thread that closes it).
    Every element of every buffer of router [i] is the length of a walk from [i],
    at most the direct link and never below the shortest distance. *)
Theorem routers_are_sound (net0 net : network) :
  started net0 -> rtc (net_step n topology) net0 net ->
  (forall i r ev, net !! i = Some r -> possible n topology net i r ev ->
     match ev with
     | Selected _ _ => exists r' out, router_step n topology r ev = Done (Some r', out)
     | SelectClosed _ => router_step n topology r ev = if changed r then Fault AssertFailed else Done (None, [])
     end) /\
  forall i r p v x d, net !! i = Some r -> vectors r !! p = Some v -> dist v !! x = Some d ->
    d <= link n topology i x /\ walk n topology n i x d /\ forall s, shortest n topology n i x s -> s <= d.
Proof using Hmat Hsym.
  intros Hs Hr. pose proof (reachable_ok _ _ Hs Hr) as Hok. split.
  - intros i r [k m|k] Hi Hp; [|simpl in Hp; subst k; apply router_step_closed].
    destruct (router_step_ok net i r k m Hok Hi Hp) as (r' & out & E & _). by exists r', out.
  - intros i r p v x d Hi Hp Hx. destruct (vo_dist _ _ (ro_vectors _ _ (Hok i r Hi) p v Hp) x d Hx) as (_ & Hle & Hw).
    split_done. intros s [_ Hmin]. by apply Hmin.
Qed.

(** Every neighbour's current vector leaves a router as it is. *)
Definition settled (net : network) : Prop :=
  forall i j ri rj v, net !! i = Some ri -> net !! j = Some rj -> i <> j -> link n topology j i <> inf_distance ->
    vectors rj !! curr_state rj = Some v -> exists r', merge n topology ri v = Done r' /\ changed r' = false.

(** Where no way over a neighbour's current vector is shorter, every current vector
    holds the shortest distances. *)
Lemma local_optimum_solves (net : network) :
  net_ok net -> (forall i, (i < n)%nat -> is_Some (net !! i)) ->
  (forall i j ri rj c cj x d m, net !! i = Some ri -> net !! j = Some rj -> i <> j -> link n topology j i <> inf_distance ->
     vectors ri !! curr_state ri = Some c -> vectors rj !! curr_state rj = Some cj -> dist c !! x = Some d -> dist cj !! x = Some m ->
     d <= link n topology i j + m) ->
  forall i r c x, net !! i = Some r -> vectors r !! curr_state r = Some c -> (x < n)%nat ->
    exists d, dist c !! x = Some d /\ shortest n topology n i x d.
Proof using Hmat Hsym.
  intros Hok Hall Hopt.
  assert (Hcurr : forall i, (i < n)%nat -> exists r c, net !! i = Some r /\ vectors r !! curr_state r = Some c /\ vector_ok i c).
  { intros i Hi. destruct (Hall i Hi) as [r Er]. destruct (get_vector_ok i r (curr_state r) (Hok i r Er)) as (c & _ & Hc & Hv);
      [set_solver|]. by exists r, c. }
  assert (Hwalk : forall i j len, walk n topology n i j len -> forall r c rj cj x d m,
    net !! i = Some r -> vectors r !! curr_state r = Some c -> net !! j = Some rj -> vectors rj !! curr_state rj = Some cj ->
    dist c !! x = Some d -> dist cj !! x = Some m -> d <= len + m).
  { induction 1 as [i j Hi Hj|i m0 j a b Ha IHa Hb IHb Hm]; intros r c rj cj x d m Er Ec Erj Ecj Hd Hm'.
    - pose proof (ro_vectors _ _ (Hok i r Er) _ _ Ec) as Hv. pose proof (ro_vectors _ _ (Hok j rj Erj) _ _ Ecj) as Hvj.
      destruct (vo_dist _ _ Hv _ _ Hd) as (Hd1 & _ & _). destruct (vo_dist _ _ Hvj _ _ Hm') as (Hm1 & _ & _).
      pose proof (mx_range _ _ Hmat i j Hi Hj). destruct (decide (i = j)) as [->|Hne]; [simplify_eq; lia|].
      destruct (decide (link n topology i j = inf_distance)) as [E|E]; [lia|].
      by apply (Hopt i j r rj c cj x d m Er Erj Hne (Hsym j i Hj Hi E)).
    - destruct (Hcurr m0 Hm) as (rm & cm & Erm & Ecm & Hvm).
      pose proof (ro_vectors _ _ (Hok i r Er) _ _ Ec) as Hv. apply lookup_lt_Some in Hd as Hx. rewrite (vo_length _ _ Hv) in Hx.
      destruct (vector_get m0 cm x Hvm Hx) as [e He].
      specialize (IHa r c rm cm x d e Er Ec Erm Ecm Hd He). specialize (IHb rm cm rj cj x e m Erm Ecm Erj Ecj He Hm'). lia. }
  assert (Hshort : forall i j len, walk n topology n i j len -> forall r c d,
    net !! i = Some r -> vectors r !! curr_state r = Some c -> dist c !! j = Some d -> d <= len).
  { induction 1 as [i j Hi Hj|i m0 j a b Ha IHa Hb IHb Hm]; intros r c d Er Ec Hd.
    - pose proof (ro_vectors _ _ (Hok i r Er) _ _ Ec) as Hv. by apply (vo_dist _ _ Hv).
    - destruct (Hcurr m0 Hm) as (rm & cm & Erm & Ecm & Hvm). destruct (walk_ends _ _ _ _ _ _ Hb) as [_ Hj].
      destruct (vector_get m0 cm j Hvm Hj) as [e He]. specialize (IHb rm cm e Erm Ecm He).
      pose proof (Hwalk i m0 a Ha r c rm cm j d e Er Ec Erm Ecm Hd He). lia. }
  intros i r c x Er Ec Hx. pose proof (ro_vectors _ _ (Hok i r Er) _ _ Ec) as Hv. destruct (vector_get i c x Hv Hx) as [d Hd].
  exists d. split; [done|]. split; [by apply (vo_dist _ _ Hv)|]. intros len Hw. by apply (Hshort i x len Hw r c d).
Qed.

(** Convergence means the right answer.  In a reachable network with a router
    for every node, when merging the current vector of any neighbour would change
    nothing, every current vector holds the shortest distances. *)
Lemma settled_routers_solve (net0 net : network) :
  started net0 -> rtc (net_step n topology) net0 net -> (forall i, (i < n)%nat -> is_Some (net !! i)) -> settled net ->
  forall i r c x, net !! i = Some r -> vectors r !! curr_state r = Some c -> (x < n)%nat ->
    exists d, dist c !! x = Some d /\ shortest n topology n i x d.
Proof using Hmat Hsym.
  intros Hs Hr Hall Hset. pose proof (reachable_ok _ _ Hs Hr) as Hok. apply local_optimum_solves; [done..|].
  intros i j ri rj c cj x d m Ei Ej Hne Hl Ec Ecj Hd Hm. destruct (Hset i j ri rj cj Ei Ej Hne Hl Ecj) as (r' & Em & Ech).
  pose proof (ro_vectors _ _ (Hok j rj Ej) _ _ Ecj) as Hvj. pose proof (vo_src _ _ Hvj) as Es. subst j.
  destruct (ro_index _ _ (Hok i ri Ei)) as [_ Hi]. destruct (ro_index _ _ (Hok _ rj Ej)) as [_ Hj].
  destruct (merge_vector_ok i ri cj (Hok i ri Ei) Hvj Hj (Hsym _ _ Hi Hj Hl)) as (r2 & E2 & _ & _ & _ & Hway).
  rewrite Em in E2. injection E2 as <-. by apply (Hway c x d m).
Qed.
End props.


(** ** A run *)

(** Three nodes in a line: the ends learn of each other from the middle one. *)
Definition line_topology : list Z := [0; 1; inf_distance;  1; 0; 1;  inf_distance; 1; 0].

Lemma line_matrix : matrix_ok 3 line_topology.
Proof.
  split; [done|]. intros i j Hi Hj. destruct i as [|[|[|i]]]; [..|lia]; (destruct j as [|[|[|j]]]; [..|lia]);
    vm_compute; split; discriminate.
Qed.

Lemma line_symmetric i j : (i < 3)%nat -> (j < 3)%nat ->
  link 3 line_topology j i <> inf_distance -> link 3 line_topology i j <> inf_distance.
Proof.
  intros Hi Hj. destruct i as [|[|[|i]]]; [..|lia]; (destruct j as [|[|[|j]]]; [..|lia]); exact id.
Qed.

(** What a run makes of a network; a turn that fails is left out. *)
Fixpoint run_turns (turns : list (nat * select_event)) (net : network) : network :=
  match turns with
  | [] => net
  | (i, ev) :: turns =>
      run_turns turns
        match net !! i with
        | Some r => match router_step 3 line_topology r ev with Done (Some r', _) => <[i := r']> net | _ => net end
        | None => net
        end
  end.

(** Every turn is possible and goes well. *)
Fixpoint turns_possible (turns : list (nat * select_event)) (net : network) : Prop :=
  match turns with
  | [] => True
  | (i, ev) :: turns =>
      match net !! i with
      | Some r =>
          possible 3 line_topology net i r ev /\
          match router_step 3 line_topology r ev with
          | Done (Some r', _) => turns_possible turns (<[i := r']> net)
          | _ => False
          end
      | None => False
      end
  end.

Lemma run_turns_rtc turns net : turns_possible turns net -> rtc (net_step 3 line_topology) net (run_turns turns net).
Proof.
  revert net. induction turns as [|[i ev] turns IH]; intros net; simpl; [by constructor|].
  destruct (net !! i) as [r|] eqn:Ei; [|done]. intros [Hp Hs].
  destruct (router_step _ _ r ev) as [[[r'|] out]|] eqn:E; [|done|done].
  eapply rtc_l; [by eapply step_router|]. by apply IH.
Qed.

Definition line_start (i : nat) (net : network) : network :=
  match @router_start malloc_first 3 line_topology ∅ i with Done r => <[i := r]> net | Fault _ => net end.
Definition line_net : network := line_start 0 (line_start 1 (line_start 2 ∅)).

(** The vector of the middle node reaches both ends, which then broadcast and
    start over; in the end everybody has sent to everybody. *)
Definition line_turns : list (nat * select_event) :=
  let v := Vector 1 2 [1; 0; 1] in
  [(0%nat, Selected 1 (Some v)); (2%nat, Selected 1 (Some v)); (0%nat, Selected 2 None); (2%nat, Selected 2 None);
   (1%nat, Selected 2 None); (0%nat, Selected 2 None); (1%nat, Selected 2 None); (2%nat, Selected 2 None)].

Lemma line_started : @started malloc_first 3 line_topology line_net.
Proof.
  assert (Hstart : forall i net, (i < 3)%nat -> @started malloc_first 3 line_topology net ->
    @started malloc_first 3 line_topology (line_start i net)).
  { intros i net Hi Hn. unfold line_start. destruct (router_start _ _ _ _) as [r|] eqn:E; [|done].
    intros j rj [[<- <-]|[_ Hj]]%lookup_insert_Some; [|by apply Hn]. split; [done|by eexists]. }
  unfold line_net. do 3 (apply Hstart; [lia|]). intros i r Hi. vm_compute in Hi. discriminate.
Qed.

Lemma line_run : rtc (net_step 3 line_topology) line_net (run_turns line_turns line_net).
Proof.
  apply run_turns_rtc. vm_compute.
  repeat split; try lia; exists 1%nat; eexists _, 3%positive; (split; [reflexivity|]); split_done; try discriminate.
Qed.

Lemma routers_are_sound_witness :
  exists r c, run_turns line_turns line_net !! 0%nat = Some r /\ vectors r !! curr_state r = Some c /\
    dist c = [0; 1; 2] /\ walk 3 line_topology 3 0 2 2.
Proof.
  destruct (@routers_are_sound malloc_first 3 line_topology line_matrix line_symmetric _ _ line_started line_run) as [_ Hd].
  eexists _, _. split; [vm_compute; reflexivity|]. split; [vm_compute; reflexivity|]. split; [reflexivity|].
  eapply (Hd 0%nat _ 4%positive _ 2%nat 2); vm_compute; reflexivity.
Defined.

Definition pair_settled (net : network) (i j : nat) : bool :=
  match net !! i, net !! j with
  | Some ri, Some rj =>
      match vectors rj !! curr_state rj with
      | Some v => match merge 3 line_topology ri v with Done r' => negb (changed r') | Fault _ => false end
      | None => true
      end
  | _, _ => true
  end.

Lemma line_settled : settled 3 line_topology (run_turns line_turns line_net).
Proof.
  intros i j ri rj v Hi Hj Hne Hl Hv.
  assert (Hdom : forall k r, run_turns line_turns line_net !! k = Some r -> k = 0%nat \/ k = 1%nat \/ k = 2%nat).
  { clear. intros k r Hk. assert (Hin : (k ∈ map fst (map_to_list (run_turns line_turns line_net)))%nat).
    { apply list_elem_of_fmap. exists (k, r). split; [done|]. by apply elem_of_map_to_list. }
    vm_compute in Hin. clear Hk. repeat (apply elem_of_cons in Hin as [->|Hin]; [tauto|]). destruct (not_elem_of_nil k Hin). }
  assert (Hp : link 3 line_topology j i = inf_distance \/ i = j \/ pair_settled (run_turns line_turns line_net) i j = true).
  { apply Hdom in Hi as [-> | [-> | ->]], Hj as [-> | [-> | ->]]; clear; vm_compute; tauto. }
  destruct Hp as [E|[E|Hp]]; [destruct (Hl E)|destruct (Hne E)|]. unfold pair_settled in Hp. rewrite Hi, Hj, Hv in Hp.
  destruct (merge 3 line_topology ri v) as [r'|]; [|done]. exists r'. split; [done|]. by apply negb_true_iff in Hp.
Qed.
