(* ===== verification/CheckDone.v ===== *)
(** * The stress test of the channels: the check of the result

    [check_done] of [concurrency-project-FreezeKickerz/stress.c]: two rounds of
    questions to all routers, then the comparison of their vectors with the
    solution.  A reply is a pointer into the buffers of a router; it is followed
    when it arrives, so it comes with the state of the network at that moment.
    What a router replies is its own turn on the null message, with the network
    going on between the questions. *)

From Stdlib Require Import ZArith Lia.
From stdpp Require Import gmap list.
From S2P Require Import Prelude Topology Router RouterProps.

(** ** Code *)

(** A pointer to a vector: the router that owns it and its place there. *)
Abbreviation vector_ptr := (prod nat positive) (only parsing).

Definition read_vector (net : network) (p : vector_ptr) : outcome distance_vector_t :=
  match net !! p.1 with Some r => get_vector r p.2 | None => Fault Dangling end.

Definition read_completed (completed : list (option vector_ptr)) (i : nat) : outcome vector_ptr :=
  p ← array_get completed i; match p with Some p => Done p | None => Fault Uninitialised end.

(** One reply of the first round. *)
Definition first_reply (reply : network * option vector_ptr) (s : list (option vector_ptr) * bool)
    : outcome (list (option vector_ptr) * bool) :=
  let '(completed, valid) := s in
  match reply.2 with
  | None => Done (completed, false)
  | Some p =>
      new_data ← read_vector reply.1 p;
      completed ← array_set completed (src new_data) (Some p);
      Done (completed, valid)
  end.

(** One reply of the second round. *)
Definition second_reply (completed : list (option vector_ptr)) (reply : network * option vector_ptr) (valid : bool)
    : outcome bool :=
  match reply.2 with
  | None => Done false
  | Some p =>
      new_data ← read_vector reply.1 p;
      old ← read_completed completed (src new_data);
      old_data ← read_vector reply.1 old;
      Done (if epoch old_data =? epoch new_data then valid else false)
  end.

Fixpoint each_reply {A} (body : network * option vector_ptr -> A -> outcome A) (replies : list (network * option vector_ptr))
    (a : A) : outcome A :=
  match replies with [] => Done a | reply :: replies => a ← body reply a; each_reply body replies a end.

(** The comparison of one element. *)
Definition check_element (n : nat) (solution : list Z) (net : network) (completed : list (option vector_ptr)) (i j : nat)
    : outcome () :=
  p ← read_completed completed i;
  v ← read_vector net p;
  d ← array_get (dist v) j;
  s ← get_solution_distance n solution i j;
  c_assert (d =? s).

Definition check_done (n : nat) (solution : list Z) (first second : list (network * option vector_ptr)) (net : network)
    : outcome bool :=
  '(completed, valid) ← each_reply first_reply first (replicate n None, true);
  if negb valid then Done false
  else
    valid ← each_reply (second_reply completed) second true;
    if negb valid then Done false
    else
      _ ← for_loop n 0 (fun i => for_loop n 0 (fun j _ => check_element n solution net completed i j)) ();
      Done true.

(** ** The rounds *)

(** A router that has sent its vector to all neighbours and has nothing new; only
    such a router answers with a vector ([Router.router_step]). *)
Definition resting (r : router_t) : bool := (select_count r =? 2)%nat && negb (changed r).

(** A round of questions in a running network: the routers [order] deal with the
    null message one after the other, and the reply of each is read some time
    later.  Between any two of these moments the network takes any steps. *)
Inductive round (n : nat) (topology : list Z) : network -> list nat -> list (network * option vector_ptr) -> network -> Prop :=
  | round_end net net' : rtc (net_step n topology) net net' -> round n topology net [] [] net'
  | round_reply net net1 net2 net' i r r' a order replies :
      rtc (net_step n topology) net net1 -> net1 !! i = Some r ->
      router_step n topology r (Selected 1 None) = Done (Some r', [a]) ->
      rtc (net_step n topology) (<[i := r']> net1) net2 ->
      round n topology net2 order replies net' ->
      round n topology net (i :: order) ((net2, pair i <$> a) :: replies) net'.

(** All replies are vectors. *)
Definition all_answer (replies : list (network * option vector_ptr)) : bool := forallb (fun reply => bool_decide (is_Some reply.2)) replies.

Lemma for_loop_unit count from (body : nat -> () -> outcome ()) :
  (forall i, (from <= i < from + count)%nat -> body i () = Done ()) -> for_loop count from body () = Done ().
Proof.
  revert from. induction count as [|count IH]; intros from Hb; [done|]. simpl. rewrite Hb by lia. cbn [mbind outcome_bind].
  apply IH. intros i Hi. apply Hb. lia.
Qed.

(** ** A network that has converged *)

Section settled.
Context `{Malloc} (n : nat) (topology : list Z).
Hypothesis Hmat : matrix_ok n topology.
Hypothesis Hsym : forall i j, (i < n)%nat -> (j < n)%nat -> link n topology j i <> inf_distance -> link n topology i j <> inf_distance.

(** No router has anything new and all current vectors hold the shortest
    distances. *)
Record solved (net : network) : Prop := {
  sv_ok : net_ok n topology net;
  sv_all i : (i < n)%nat -> is_Some (net !! i);
  sv_same i r : net !! i = Some r -> changed r = false;
  sv_shortest i r c x : net !! i = Some r -> vectors r !! curr_state r = Some c -> (x < n)%nat ->
    exists d, dist c !! x = Some d /\ shortest n topology n i x d
}.

(** *** A settled network is solved *)

Lemma merge_element_changed nd nb k s s' : merge_element nd nb k s = Done s' -> s.2 = true -> s'.2 = true.
Proof using Type.
  destruct s as [ds b]. unfold merge_element. intros Hm. apply bind_Done in Hm as (d & _ & Hm). apply bind_Done in Hm as (old & _ & Hm).
  destruct (_ <? _); [apply bind_Done in Hm as (? & _ & Hm)|]; by apply Done_inj in Hm as <-.
Qed.

Lemma merge_loop_changed nd nb count from s s' :
  for_loop count from (merge_element nd nb) s = Done s' -> s.2 = true -> s'.2 = true.
Proof using Type.
  revert from s. induction count as [|count IH]; intros from s Hl Hs; [by apply Done_inj in Hl as <-|].
  apply bind_Done in Hl as (s1 & H1 & Hl). eapply IH; [done|]. by eapply merge_element_changed.
Qed.

(** What a router knows to be new stays so until it cycles. *)
Lemma merge_keeps_changed r v r' : merge n topology r v = Done r' -> changed r' = false -> changed r = false.
Proof using Type.
  unfold merge. intros Hm Hc. apply bind_Done in Hm as (nd & _ & Hm). apply bind_Done in Hm as (u & _ & Hm).
  apply bind_Done in Hm as (next & _ & Hm). apply bind_Done in Hm as ([ds b] & Hl & Hm). apply Done_inj in Hm as <-.
  destruct (changed r) eqn:E; [|done]. apply merge_loop_changed in Hl; [|done]. simpl in *. congruence.
Qed.

(** A completed send only changes the select list. *)
Lemma retire_entry_frame r k r' : retire_entry r k = Done r' -> exists l, r' = set_select r l (select_count r - 1).
Proof using Type.
  unfold retire_entry. intros Hs. apply bind_Done in Hs as (last & _ & Hs). apply bind_Done in Hs as (sel & _ & Hs).
  apply bind_Done in Hs as (l1 & _ & Hs). apply bind_Done in Hs as (sel1 & _ & Hs). apply bind_Done in Hs as (l2 & _ & Hs).
  apply Done_inj in Hs as <-. by exists l2.
Qed.

(** A turn of a router that gets no vector: it may answer, retires an entry or
    does nothing, and may cycle then. *)
Lemma quiet_step r k m r' out :
  router_step n topology r (Selected k m) = Done (Some r', out) -> ~ (exists v, k = 1%nat /\ m = Some v) ->
  exists r1, (r1 = r \/ exists l, r1 = set_select r l (select_count r - 1)) /\
    (if (select_count r1 =? 2)%nat && changed r1 then cycle r1 else Done r1) = Done r'.
Proof using Type.
  intros Hs Hno. unfold router_step in Hs. apply bind_Done in Hs as (u & _ & Hs). apply bind_Done in Hs as ([r1 o] & Hm & Hs).
  apply bind_Done in Hs as (r2 & Hc & Hs). apply Done_inj in Hs. injection Hs as -> ->. exists r1. split; [|done].
  destruct (k =? 1)%nat eqn:Ek.
  - apply Nat.eqb_eq in Ek as ->. destruct m as [v|]; [destruct Hno; by exists v|]. apply Done_inj in Hm. injection Hm as -> _. by left.
  - apply bind_Done in Hm as (r3 & Hm & E). apply Done_inj in E. injection E as -> _. right. by apply retire_entry_frame in Hm.
Qed.

Lemma quiet_step_changed r k m r' out :
  router_step n topology r (Selected k m) = Done (Some r', out) -> ~ (exists v, k = 1%nat /\ m = Some v) ->
  changed r' = true -> changed r = true.
Proof using Type.
  intros Hs Hno Hc. destruct (quiet_step r k m r' out Hs Hno) as (r1 & Hr1 & Hs1).
  assert (E1 : changed r1 = changed r) by (by destruct Hr1 as [->|[l ->]]). rewrite <- E1.
  destruct (_ && _) eqn:E; [by apply andb_prop in E as [_ ?]|]. by apply Done_inj in Hs1 as ->.
Qed.

(** Only a router with a neighbour can learn something. *)
Definition has_neighbour (i : nat) : Prop := exists j, (j < n)%nat /\ j <> i /\ link n topology j i <> inf_distance.

Lemma started_unchanged live i r : router_start n topology live i = Done r -> changed r = false.
Proof using Type.
  unfold router_start. intros Hs. apply bind_Done in Hs as (ds & _ & Hs). do 4 (apply bind_Done in Hs as ([? ?] & _ & Hs)).
  apply bind_Done in Hs as (nbs & _ & Hs). by apply Done_inj in Hs as <-.
Qed.

Lemma changed_has_neighbour net0 net i r :
  started n topology net0 -> rtc (net_step n topology) net0 net -> net !! i = Some r -> changed r = true -> has_neighbour i.
Proof using Hmat Hsym.
  intros Hst Hr. revert i r.
  assert (H0 : net_ok n topology net0) by (by apply (reachable_ok n topology Hmat Hsym net0 net0 Hst (rtc_refl _ _))).
  assert (Hch : forall i r, net0 !! i = Some r -> changed r = true -> has_neighbour i).
  { intros i r Hi Hc. destruct (Hst i r Hi) as [_ [live Hs]]. apply started_unchanged in Hs. congruence. }
  clear Hst. induction Hr as [|net0 net1 net2 Hstep _ IH]; [done|]. apply IH; clear IH;
    destruct Hstep as [net i r ev r' out Hi Hp E];
    destruct (router_goes_on n topology Hmat Hsym net i r ev r' out H0 Hi Hp E) as [Hok (k & m & ->)].
  - intros j rj [[<- <-]|[_ Hj]]%lookup_insert_Some; [done|by apply H0].
  - intros j rj [[<- <-]|[_ Hj]]%lookup_insert_Some Hc; [|by eapply Hch].
    destruct (decide (k = 1%nat)) as [->|Hk]; [destruct m as [v|]|].
    + destruct Hp as (j & rj & p & Hj & Hne & _ & Hl). exists j. split_done. by apply (ro_index _ _ _ _ (H0 j rj Hj)).
    + apply (Hch i r Hi). eapply quiet_step_changed; [done|by intros (? & ? & ?)|done].
    + apply (Hch i r Hi). eapply quiet_step_changed; [done|by intros (? & ? & ?)|done].
Qed.

Lemma settled_solved net0 net :
  started n topology net0 -> rtc (net_step n topology) net0 net -> (forall i, (i < n)%nat -> is_Some (net !! i)) ->
  settled n topology net -> solved net.
Proof using Hmat Hsym.
  intros Hst Hr Hall Hset. pose proof (reachable_ok n topology Hmat Hsym net0 net Hst Hr) as Hok. split; [done|done| |].
  - intros i r Hi. destruct (changed r) eqn:Hc; [|done].
    destruct (changed_has_neighbour net0 net i r Hst Hr Hi Hc) as (j & Hj & Hne & Hl). destruct (Hall j Hj) as [rj Hrj].
    destruct (get_vector_ok n topology j rj (curr_state rj) (Hok j rj Hrj)) as (v & _ & Hv & _); [set_solver|].
    destruct (Hset i j r rj v Hi Hrj (not_eq_sym Hne) Hl Hv) as (r' & Hm & Hc'). apply merge_keeps_changed in Hm; congruence.
  - intros i r c x. by apply (settled_routers_solve n topology Hmat Hsym net0 net).
Qed.

(** *** A solved network stays so *)

(** Nothing a neighbour can offer changes a router. *)
Lemma merge_loop_idle nd nb ds b count from :
  (forall x, (from <= x < from + count)%nat -> exists d m, ds !! x = Some d /\ nb !! x = Some m /\ d <= add32 nd m) ->
  for_loop count from (merge_element nd nb) (ds, b) = Done (ds, b).
Proof using Type.
  revert from. induction count as [|count IH]; intros from Hb; [done|]. cbn [for_loop]. unfold merge_element at 2, array_get.
  destruct (Hb from ltac:(lia)) as (d & m & -> & -> & Hle). cbn [mbind outcome_bind]. rewrite (proj2 (Z.ltb_ge _ _)) by done.
  cbn [mbind outcome_bind]. apply IH. intros x Hx. apply Hb. lia.
Qed.

Lemma solved_merge net i r v : solved net -> net !! i = Some r -> offered n topology net i v -> merge n topology r v = Done r.
Proof using Hmat Hsym.
  intros Hs Hi (j & rj & p & Hj & Hne & Hp & Hl). pose proof (sv_ok _ Hs i r Hi) as Hr. pose proof (sv_ok _ Hs j rj Hj) as Hrj.
  pose proof (ro_vectors _ _ _ _ Hrj _ _ Hp) as Hv. destruct (ro_index _ _ _ _ Hrj) as [_ Hjn]. destruct (ro_index _ _ _ _ Hr) as [Ei Hin].
  pose proof (vo_src _ _ _ _ Hv) as Es. pose proof (Hsym i j Hin Hjn Hl) as Hl'.
  unfold merge, get_link_distance. rewrite Ei, Es, (get_link_ok n topology i j) by done. cbn [mbind outcome_bind].
  unfold c_assert. rewrite (proj2 (Z.eqb_neq _ _) Hl'). cbn [negb mbind outcome_bind].
  destruct (get_vector_ok n topology i r (next_state r) Hr) as (x & -> & Hx & Hxok); [set_solver|]. cbn [mbind outcome_bind].
  destruct (get_vector_ok n topology i r (curr_state r) Hr) as (c & _ & Hc & Hcok); [set_solver|].
  destruct (ro_next _ _ _ _ Hr c x Hc Hx) as [Hsame _]. specialize (Hsame (sv_same _ Hs i r Hi)).
  rewrite merge_loop_idle.
  - cbn [mbind outcome_bind]. f_equal. destruct r as [a vs pp pr cu ne ch l k t], x as [sx ex dx]. unfold set_vectors. simpl in *.
    by rewrite insert_id.
  - intros y Hy. destruct (sv_shortest _ Hs i r c y Hi Hc ltac:(lia)) as (d & Hd & _ & Hmin).
    destruct (vector_get n topology j v y Hv ltac:(lia)) as [m Hm]. exists d, m. rewrite Hsame. split_done.
    destruct (vo_dist _ _ _ _ Hv y m Hm) as (Hrng & _ & Hw). pose proof (mx_range _ _ Hmat i j Hin Hjn).
    assert (add32 (link n topology i j) m = link n topology i j + m) as ->.
    { unfold add32. apply Z.mod_small. unfold w32, inf_distance in *. lia. }
    apply Hmin. eapply walk_join; [by apply walk_link|done|done].
Qed.

(** What a step of a solved network changes: a router that has still to send to
    somebody may have one less to send to. *)
Definition keeps (net net' : network) : Prop :=
  (forall i, is_Some (net !! i) <-> is_Some (net' !! i)) /\
  forall i r r', net !! i = Some r -> net' !! i = Some r' ->
    vectors r' = vectors r /\ curr_state r' = curr_state r /\ changed r' = changed r /\ (resting r = true -> r' = r).

#[global] Instance keeps_preorder : PreOrder keeps.
Proof using Type.
  split.
  - intros net. split; [done|]. by intros i r r' -> [= ->].
  - intros net1 net2 net3 [Hd1 H1] [Hd2 H2]. split; [intros i; by rewrite Hd1|]. intros i r r' Hr Hr'.
    destruct (proj1 (Hd1 i)) as [r2 Hr2]; [by rewrite Hr|].
    destruct (H1 i r r2 Hr Hr2) as (E1 & E2 & E3 & E4). destruct (H2 i r2 r' Hr2 Hr') as (F1 & F2 & F3 & F4).
    rewrite F1, F2, F3. split_done. intros Hrest. rewrite <- (E4 Hrest). apply F4. by rewrite (E4 Hrest).
Qed.

Lemma keeps_insert net i r r' : net !! i = Some r ->
  vectors r' = vectors r -> curr_state r' = curr_state r -> changed r' = changed r -> (resting r = true -> r' = r) -> keeps net (<[i := r']> net).
Proof using Type.
  intros Hi H1 H2 H3 H4. split.
  - intros j. destruct (decide (i = j)) as [<-|Hne]; [rewrite lookup_insert_eq, Hi; split; by eexists|by rewrite lookup_insert_ne].
  - intros j rj rj' Hj [[<- <-]|[_ Hj']]%lookup_insert_Some; simplify_eq; done.
Qed.

Lemma solved_keeps net net' : solved net -> net_ok n topology net' -> keeps net net' -> solved net'.
Proof using Type.
  intros [Hok Hall Hsame Hshort] Hok' [Hd Hk]. split; [done|intros i Hi; by apply Hd, Hall| |].
  - intros i r' Hr'. destruct (proj2 (Hd i)) as [r Hr]; [by rewrite Hr'|]. destruct (Hk i r r' Hr Hr') as (_ & _ & -> & _). by eapply Hsame.
  - intros i r' c x Hr' Hc Hx. destruct (proj2 (Hd i)) as [r Hr]; [by rewrite Hr'|].
    destruct (Hk i r r' Hr Hr') as (E1 & E2 & _). rewrite E1, E2 in Hc. by eapply Hshort.
Qed.

(** A turn of a router of a solved network: a message changes nothing, and the
    null message is answered as the router rests. *)
Lemma solved_turn net i r k m r' out : solved net -> net !! i = Some r -> possible n topology net i r (Selected k m) ->
  router_step n topology r (Selected k m) = Done (Some r', out) ->
  if (k =? 1)%nat then r' = r /\ (m = None -> out = [if resting r then Some (curr_state r) else None])
  else resting r = false /\ exists l, r' = set_select r l (select_count r - 1).
Proof using Hmat Hsym.
  intros Hs Hi Hp E. pose proof (sv_same _ Hs i r Hi) as Hc. destruct (k =? 1)%nat eqn:Ek.
  - apply Nat.eqb_eq in Ek as ->. unfold router_step in E. cbn [Nat.eqb negb c_assert mbind outcome_bind] in E. destruct m as [v|].
    + rewrite (solved_merge net i r v Hs Hi Hp) in E. cbn [mbind outcome_bind] in E. rewrite Hc, andb_false_r in E. by injection E as <- _.
    + cbn [mbind outcome_bind] in E. rewrite Hc, andb_false_r in E. injection E as <- <-. unfold resting. by rewrite Hc.
  - apply Nat.eqb_neq in Ek. assert (Hk : (2 <= k < select_count r)%nat) by (destruct k as [|[|k]]; simpl in Hp; [lia|done|done]).
    split; [unfold resting; rewrite (proj2 (Nat.eqb_neq _ _)); [done|lia]|].
    unfold router_step in E. rewrite (proj2 (Nat.eqb_neq k 0)), (proj2 (Nat.eqb_neq k 1)) in E by lia.
    cbn [negb c_assert mbind outcome_bind] in E. apply bind_Done in E as ([r1 o] & Hm & E). apply bind_Done in Hm as (r3 & Hm & E3).
    apply Done_inj in E3. injection E3 as -> _. apply retire_entry_frame in Hm as [l ->]. cbn [changed set_select] in E.
    rewrite Hc, andb_false_r in E. cbn [mbind outcome_bind] in E. injection E as <- _. by exists l.
Qed.

Lemma solved_step net i r ev r' out :
  solved net -> net !! i = Some r -> possible n topology net i r ev -> router_step n topology r ev = Done (Some r', out) ->
  solved (<[i := r']> net) /\ keeps net (<[i := r']> net).
Proof using Hmat Hsym.
  intros Hs Hi Hp E. destruct (router_goes_on n topology Hmat Hsym net i r ev r' out (sv_ok _ Hs) Hi Hp E) as [Hok (k & m & ->)].
  pose proof (solved_turn net i r k m r' out Hs Hi Hp E) as Ht.
  assert (Hk : keeps net (<[i := r']> net)).
  { destruct (k =? 1)%nat; [destruct Ht as [-> _]; by apply (keeps_insert net i r)|]. destruct Ht as [Hrest [l ->]].
    apply (keeps_insert net i r); [done..|congruence]. }
  split; [|done]. eapply solved_keeps; [done| |done]. intros j rj [[<- <-]|[_ Hj]]%lookup_insert_Some; [done|by apply (sv_ok _ Hs)].
Qed.

Lemma solved_run net net' : solved net -> rtc (net_step n topology) net net' -> solved net' /\ keeps net net'.
Proof using Hmat Hsym.
  intros Hs Hr. induction Hr as [net|net net1 net2 Hstep _ IH]; [by split|]. destruct Hstep as [net i r ev r' out Hi Hp E].
  destruct (solved_step net i r ev r' out Hs Hi Hp E) as [Hs1 Hk]. destruct (IH Hs1) as [Hs2 Hk2]. split; [done|]. by etransitivity.
Qed.

(** ** The replies *)

(** The current vector of router [i]. *)
Definition current (net : network) (i : nat) : option vector_ptr := (fun r => (i, curr_state r)) <$> net !! i.

Lemma keeps_current net net' i : keeps net net' -> current net' i = current net i.
Proof using Type.
  intros [Hd Hk]. unfold current. destruct (net !! i) as [r|] eqn:Hr.
  - destruct (proj1 (Hd i)) as [r' Hr']; [by rewrite Hr|]. rewrite Hr'. destruct (Hk i r r' Hr Hr') as (_ & E & _). simpl. by rewrite E.
  - destruct (net' !! i) as [r'|] eqn:Hr'; [|done]. destruct (proj2 (Hd i)) as [? ?]; [by rewrite Hr'|]. congruence.
Qed.

Lemma solved_reads net i : solved net -> (i < n)%nat -> exists p r v, current net i = Some p /\ read_vector net p = Done v /\
  src v = i /\ net !! i = Some r /\ vectors r !! curr_state r = Some v.
Proof using Type.
  clear Hmat Hsym. intros Hs Hi. destruct (sv_all _ Hs i Hi) as [r Hr]. pose proof (sv_ok _ Hs i r Hr) as Hrok.
  destruct (get_vector_ok n topology i r (curr_state r) Hrok) as (v & E & Hv & Hvok); [set_solver|].
  exists (i, curr_state r), r, v. unfold current, read_vector. rewrite Hr. simpl. rewrite Hr, E. split_done. apply Hvok.
Qed.

(** A router that rests in a solved network is left as it is. *)
Lemma keeps_resting net net' i r : keeps net net' -> net !! i = Some r -> resting r = true -> net' !! i = Some r.
Proof using Type.
  intros [Hd Hk] Hr Hrest. destruct (proj1 (Hd i)) as [r' Hr']; [by rewrite Hr|]. destruct (Hk i r r' Hr Hr') as (_ & _ & _ & E).
  by rewrite Hr', (E Hrest).
Qed.

(** One reply: the current vector of a router that rests, and no vector of any
    other one. *)
Lemma reply_ok net net1 net2 i r r' a : solved net -> rtc (net_step n topology) net net1 -> net1 !! i = Some r ->
  router_step n topology r (Selected 1 None) = Done (Some r', [a]) -> rtc (net_step n topology) (<[i := r']> net1) net2 ->
  solved net1 /\ keeps net net1 /\ solved net2 /\ keeps net1 net2 /\ pair i <$> a = if resting r then current net2 i else None.
Proof using Hmat Hsym.
  intros Hs H1 Hr E H2. destruct (solved_run net net1 Hs H1) as [Hs1 Hk1].
  destruct (solved_turn net1 i r 1 None r' [a] Hs1 Hr I E) as [-> Ha]. injection (Ha eq_refl) as ->. rewrite insert_id in H2 by done.
  destruct (solved_run net1 net2 Hs1 H2) as [Hs2 Hk2]. split_done. rewrite (keeps_current net1 net2 i Hk2).
  unfold current. rewrite Hr. by destruct (resting r).
Qed.

Lemma round_kept net order replies net' : solved net -> round n topology net order replies net' ->
  solved net' /\ keeps net net' /\
  (all_answer replies = true -> forall i r, i ∈ order -> net' !! i = Some r -> resting r = true) /\
  ((forall i r, net !! i = Some r -> resting r = true) -> all_answer replies = true).
Proof using Hmat Hsym.
  intros Hs Hr. induction Hr as [net net' H1|net net1 net2 net' i r r' a order replies H1 Hi E H2 _ IH].
  - destruct (solved_run net net' Hs H1) as [Hs1 Hk]. split_done. intros _ i r Hi. by apply elem_of_nil in Hi.
  - destruct (reply_ok net net1 net2 i r r' a Hs H1 Hi E H2) as (Hs1 & Hk1 & Hs2 & Hk2 & Ea).
    destruct (IH Hs2) as (Hs' & Hk' & Hans & Hrest). split; [done|].
    assert (Hk : keeps net net2) by (by etransitivity). split; [by etransitivity|]. cbn [all_answer forallb snd]. rewrite Ea. split.
    + intros [Ha Hall]%andb_prop j rj [->|Hj]%elem_of_cons Hrj; [|by apply (Hans Hall j)].
      destruct (resting r) eqn:Er; [|done]. pose proof (keeps_resting net1 net' i r ltac:(by etransitivity) Hi Er) as E'. congruence.
    + intros Hall. assert (Hback : forall k rk, net2 !! k = Some rk -> resting rk = true).
      { intros k rk Hk2'. destruct (proj2 (proj1 Hk k)) as [r0 Hr0]; [by rewrite Hk2'|].
        pose proof (keeps_resting net net2 k r0 Hk Hr0 (Hall k r0 Hr0)) as E2. rewrite Hk2' in E2. injection E2 as ->. by eapply Hall. }
      assert (Er : resting r = true).
      { destruct (proj2 (proj1 Hk1 i)) as [r0 Hr0]; [by rewrite Hi|].
        pose proof (keeps_resting net net1 i r0 Hk1 Hr0 (Hall i r0 Hr0)) as E2. rewrite Hi in E2. injection E2 as ->. by eapply Hall. }
      rewrite Er, (keeps_current net1 net2 i Hk2). unfold current. rewrite Hi. simpl. by apply Hrest.
Qed.

(** After a round in which all answered the routers are in [completed]. *)
Lemma first_round net order replies net' completed valid :
  solved net -> round n topology net order replies net' -> Forall (fun i => (i < n)%nat) order -> length completed = n ->
  exists completed', each_reply first_reply replies (completed, valid) = Done (completed', valid && all_answer replies) /\
    length completed' = n /\
    (all_answer replies = true -> forall i, (i ∈ order \/ completed !! i = Some (current net i)) -> completed' !! i = Some (current net i)).
Proof using Hmat Hsym.
  intros Hs Hr. revert completed valid.
  induction Hr as [net net' H1|net net1 net2 net' k r r' a order replies H1 Hk E H2 _ IH]; intros completed valid Ho Hl.
  { exists completed. simpl. rewrite andb_true_r. split_done. intros _ i [Hi|Hi]; [by apply elem_of_nil in Hi|done]. }
  destruct (reply_ok net net1 net2 k r r' a Hs H1 Hk E H2) as (Hs1 & Hk1 & Hs2 & Hk2 & Ea).
  apply Forall_cons in Ho as [Hkn Ho]. cbn [each_reply all_answer forallb snd]. unfold first_reply at 2. cbn [fst snd]. rewrite Ea.
  destruct (resting r).
  - destruct (solved_reads net2 k Hs2 Hkn) as (p & rk & v & Ec & Ev & Es & _). rewrite Ec, Ev. cbn [mbind outcome_bind].
    unfold array_set. rewrite Es, decide_True by lia. cbn [mbind outcome_bind].
    destruct (IH Hs2 (<[k := Some p]> completed) valid Ho) as (c' & -> & Hl' & Hc'); [by rewrite length_insert|].
    exists c'. split_done. intros Hall i Hi. rewrite <- (keeps_current net net2 i) in Hi |- * by (by etransitivity).
    apply Hc'; [done|]. destruct (decide (i = k)) as [->|Hne].
    + right. rewrite list_lookup_insert_eq by lia. by rewrite Ec.
    + rewrite list_lookup_insert_ne by congruence. destruct Hi as [[?|?]%elem_of_cons|?]; [done|by left|by right].
  - cbn [mbind outcome_bind]. destruct (IH Hs2 completed false Ho Hl) as (c' & -> & Hl' & _). exists c'.
    cbn [bool_decide]. rewrite bool_decide_eq_false_2 by (by intros [? ?]). cbn [andb]. rewrite andb_false_r. split_done.
Qed.

Lemma second_round net order replies net' completed valid :
  solved net -> round n topology net order replies net' -> Forall (fun i => (i < n)%nat) order ->
  (forall i, (i < n)%nat -> completed !! i = Some (current net i)) ->
  each_reply (second_reply completed) replies valid = Done (valid && all_answer replies).
Proof using Hmat Hsym.
  intros Hs Hr. revert valid.
  induction Hr as [net net' H1|net net1 net2 net' k r r' a order replies H1 Hk E H2 _ IH]; intros valid Ho Hc.
  { simpl. by rewrite andb_true_r. }
  destruct (reply_ok net net1 net2 k r r' a Hs H1 Hk E H2) as (Hs1 & Hk1 & Hs2 & Hk2 & Ea).
  assert (Hcur : forall i, current net2 i = current net i) by (intros i; apply keeps_current; by etransitivity).
  apply Forall_cons in Ho as [Hkn Ho]. cbn [each_reply all_answer forallb snd]. unfold second_reply at 2. cbn [fst snd]. rewrite Ea.
  specialize (IH Hs2). setoid_rewrite Hcur in IH. destruct (resting r).
  - destruct (solved_reads net2 k Hs2 Hkn) as (p & rk & v & Ec & Ev & Es & _). rewrite Ec, Ev. cbn [mbind outcome_bind].
    unfold read_completed, array_get. rewrite Es, (Hc k Hkn), <- Hcur, Ec. cbn [mbind outcome_bind]. rewrite Ev. cbn [mbind outcome_bind].
    rewrite Z.eqb_refl. by apply IH.
  - cbn [mbind outcome_bind]. rewrite IH by done. rewrite bool_decide_eq_false_2 by (by intros [? ?]). by rewrite andb_false_r.
Qed.
End settled.

(** ** Theorem *)

Section theorem.
Context `{Malloc} (n : nat) (topology : list Z).
Hypothesis Hmat : matrix_ok n topology.
Hypothesis Hsym : forall i j, (i < n)%nat -> (j < n)%nat -> link n topology j i <> inf_distance -> link n topology i j <> inf_distance.

End theorem.

(** ** A run *)

(** The replies of a network that does nothing else. *)
Definition still_reply (net : network) (i : nat) : network * option vector_ptr := (net, current net i).

(** Everybody rests after [line_turns]. *)
Lemma line_round order : Forall (fun i => (i < 3)%nat) order ->
  round 3 line_topology (run_turns line_turns line_net) order (still_reply (run_turns line_turns line_net) <$> order)
    (run_turns line_turns line_net).
Proof.
  induction 1 as [|i order Hi Ho IH]; [by constructor|]. cbn [fmap list_fmap].
  assert (Hrep : exists r, run_turns line_turns line_net !! i = Some r /\
    router_step 3 line_topology r (Selected 1 None) = Done (Some r, [Some (curr_state r)])).
  { clear IH Ho. destruct i as [|[|[|i]]]; [..|lia]; (eexists; split; [vm_compute; reflexivity|vm_compute; reflexivity]). }
  destruct Hrep as (r & Hr & Hs). unfold still_reply at 1, current. set (net := run_turns line_turns line_net) in *. rewrite Hr.
  apply (round_reply 3 line_topology net net net net i r r (Some (curr_state r))); [done|done|done|by rewrite insert_id|done].
Qed.

