(* ===== verification/Stress.v ===== *)
(** * The stress test of the channels: the whole program

    [run_stress] of [concurrency-project-FreezeKickerz/stress.c]: the router threads
    of [Router], their channels, and the main thread, which asks all routers twice
    ([check_done]), compares their vectors with the solution, closes the channel of
    the end and joins the threads.

    The channels are buffered, as in every call of [test.c]; the theorems about
    [channel.c] show such a channel to be a queue of at most [buffer_size] messages.
    (For the size 0 a select that meets a closed channel does not even set its
    index, see [Select]; that configuration is left out.)  A message is a pointer
    to a vector or [NULL]; it is followed when
    the receiver uses it.  The threads run in any order; an action of the list
    below is one step of one of them. *)

From Stdlib Require Import ZArith Lia.
From stdpp Require Import gmap list.
From S2P Require Import Prelude Topology Router CheckDone.

(** ** State *)

(** What a router does: at the start of a scan of [channel_select]; in the scan,
    after the channel of the end and its own one had nothing for it; holding a
    message it took from its channel; sending an answer to the main thread; gone. *)
Inductive activity :=
  | Selecting
  | Scanning
  | Received (m : option vector_ptr)
  | Answering (a : option vector_ptr)
  | Returned.
Record thread := Thread { router : router_t; doing : activity }.

(** Where the main thread is: in a round of [check_done] (the second one if
    [again]), before its [i]-th question or with [todo] answers to come; or after
    the last [check_done]. *)
Inductive main_state :=
  | Asking (again : bool) (completed : list (option vector_ptr)) (i : nat)
  | Collecting (again : bool) (completed : list (option vector_ptr)) (valid : bool) (todo : nat)
  | Comparing (completed : list (option vector_ptr))
  | Closing
  | Joining
  | Over.

Record stress := Stress {
  threads : gmap nat thread;
  queues : list (list (option vector_ptr));
  answers : list (option vector_ptr);
  done_closed : bool;
  main : main_state
}.

(** The routers, as [Router] and [CheckDone] see them. *)
Definition net_of (s : stress) : gmap nat router_t := router <$> threads s.

Definition set_thread (s : stress) (i : nat) (t : thread) : stress :=
  Stress (<[i := t]> (threads s)) (queues s) (answers s) (done_closed s) (main s).
Definition set_queue (s : stress) (i : nat) (q : list (option vector_ptr)) : stress :=
  Stress (threads s) (<[i := q]> (queues s)) (answers s) (done_closed s) (main s).
Definition set_answers (s : stress) (q : list (option vector_ptr)) : stress :=
  Stress (threads s) (queues s) q (done_closed s) (main s).
Definition set_main (s : stress) (m : main_state) : stress :=
  Stress (threads s) (queues s) (answers s) (done_closed s) m.
Definition set_closed (s : stress) : stress := Stress (threads s) (queues s) (answers s) true (main s).

(** ** Steps *)

Section code.
Context (n : nat) (topology solution : list Z) (main_buffer_size secondary_buffer_size : nat).
Implicit Types (s : stress).

(** A message for router [j], if its channel takes it now. *)
Definition deliver s (j : nat) (m : option vector_ptr) : option stress :=
  q ← queues s !! j;
  if (length q <? main_buffer_size)%nat then Some (set_queue s j (q ++ [m])) else None.

(** [channel_select] of router [i] passes its first two entries, or comes to the
    end and waits until it is woken for the next scan. *)
Definition router_looks s (i : nat) : option (outcome stress) :=
  match threads s !! i, queues s !! i with
  | Some (Thread r Selecting), Some [] =>
      if done_closed s then None else Some (Done (set_thread s i (Thread r Scanning)))
  | _, _ => None
  end.
Definition router_rescans s (i : nat) : option (outcome stress) :=
  match threads s !! i with
  | Some (Thread r Scanning) => Some (Done (set_thread s i (Thread r Selecting)))
  | _ => None
  end.

(** It acts on its entry [k], a send. *)
Definition router_sends s (i k : nat) : option (outcome stress) :=
  match threads s !! i with
  | Some (Thread r Scanning) =>
      match select_list r !! k with
      | Some (Entry (RouterChannel j) true p) =>
          if (k <? select_count r)%nat then
            match deliver s j (pair i <$> p) with
            | Some s =>
                Some ('(r', _) ← router_step n topology r (Selected k None);
                      Done (set_thread s i (Thread (default r r') Selecting)))
            | None => None
            end
          else None
      | _ => None
      end
  | _ => None
  end.

(** [channel_select] takes a message. *)
Definition router_receives s (i : nat) : option (outcome stress) :=
  match threads s !! i, queues s !! i with
  | Some (Thread r Selecting), Some (m :: q) => Some (Done (set_queue (set_thread s i (Thread r (Received m))) i q))
  | _, _ => None
  end.

(** The router follows the message it holds, or finds that it is a question. *)
Definition router_uses s (i : nat) : option (outcome stress) :=
  match threads s !! i with
  | Some (Thread r (Received m)) =>
      Some (
        v ← match m with None => Done None | Some p => v ← read_vector (net_of s) p; Done (Some v) end;
        '(r', out) ← router_step n topology r (Selected 1 v);
        Done (set_thread s i (Thread (default r r') (match out with a :: _ => Answering (pair i <$> a) | [] => Selecting end))))
  | _ => None
  end.

(** The main thread gets an answer. *)
Definition start_check : main_state := Asking false (replicate n None) 0.
Definition collect s (a : option vector_ptr) : option (outcome stress) :=
  match main s with
  | Collecting false completed valid (S todo) => Some (
      '(completed, valid) ← first_reply (net_of s, a) (completed, valid);
      Done (set_main s (if (todo =? 0)%nat then if (valid : bool) then Asking true completed 0 else start_check
                        else Collecting false completed valid todo)))
  | Collecting true completed valid (S todo) => Some (
      valid ← second_reply completed (net_of s, a) valid;
      Done (set_main s (if (todo =? 0)%nat then if (valid : bool) then Comparing completed else start_check
                        else Collecting true completed valid todo)))
  | _ => None
  end.

Definition router_answers s (i : nat) : option (outcome stress) :=
  match threads s !! i with
  | Some (Thread r (Answering a)) =>
      if (length (answers s) <? secondary_buffer_size)%nat
      then Some (Done (set_answers (set_thread s i (Thread r Selecting)) (answers s ++ [a]))) else None
  | _ => None
  end.

(** [channel_select] finds that the channel of the end is closed. *)
Definition router_stops s (i : nat) : option (outcome stress) :=
  match threads s !! i with
  | Some (Thread r Selecting) =>
      if done_closed s then Some ('(r', _) ← router_step n topology r (SelectClosed 0); Done (set_thread s i (Thread (default r r') Returned)))
      else None
  | _ => None
  end.

Definition main_asks s : option (outcome stress) :=
  match main s with
  | Asking again completed i =>
      s ← deliver s i None;
      Some (Done (set_main s (if (S i <? n)%nat then Asking again completed (S i) else Collecting again completed true n)))
  | _ => None
  end.

Definition main_collects s : option (outcome stress) :=
  match answers s with a :: q => collect (set_answers s q) a | [] => None end.

Definition main_compares s : option (outcome stress) :=
  match main s with
  | Comparing completed => Some (
      _ ← for_loop n 0 (fun i => for_loop n 0 (fun j _ => check_element n solution (net_of s) completed i j)) ();
      Done (set_main s Closing))
  | _ => None
  end.

Definition main_closes s : option (outcome stress) :=
  match main s with Closing => Some (Done (set_closed (set_main s Joining))) | _ => None end.

Definition has_returned (t : thread) : bool := match doing t with Returned => true | _ => false end.

(** [pthread_join] of all threads; the cleanup that follows is [StressCleanup]. *)
Definition main_joins s : option (outcome stress) :=
  match main s with
  | Joining => if forallb (fun i => match threads s !! i with Some t => has_returned t | None => false end) (seq 0 n)
               then Some (Done (set_main s Over)) else None
  | _ => None
  end.

Inductive action :=
  | Looks (i : nat) | Rescans (i : nat) | Sends (i k : nat) | Receives (i : nat) | Uses (i : nat) | Answers (i : nat) | Stops (i : nat)
  | MainAsks | MainCollects | MainCompares | MainCloses | MainJoins.

(** What an action does, if it can happen now. *)
Definition act (a : action) s : option (outcome stress) :=
  match a with
  | Looks i => router_looks s i
  | Rescans i => router_rescans s i
  | Sends i k => router_sends s i k
  | Receives i => router_receives s i
  | Uses i => router_uses s i
  | Answers i => router_answers s i
  | Stops i => router_stops s i
  | MainAsks => main_asks s
  | MainCollects => main_collects s
  | MainCompares => main_compares s
  | MainCloses => main_closes s
  | MainJoins => main_joins s
  end.

Inductive stress_step : stress -> stress -> Prop :=
  | stress_action a s s' : act a s = Some (Done s') -> stress_step s s'.

(** One schedule: the state after a list of actions, if all of them can happen. *)
Fixpoint run_actions (l : list action) s : option stress :=
  match l with
  | [] => Some s
  | a :: l => match act a s with Some (Done s') => run_actions l s' | _ => None end
  end.

(** [create_topology], the channels and the threads: the state when the last thread
    is created.  [lives] is what is allocated when each thread starts. *)
Definition run_stress_starts `{Malloc} (lives : nat -> gset loc) : outcome stress :=
  _ ← c_assert (main_buffer_size <=? 1)%nat;
  _ ← c_assert (secondary_buffer_size <=? 1)%nat;
  ts ← for_loop n 0 (fun i ts => r ← router_start n topology (lives i) i; Done (<[i := Thread r Selecting]> ts)) ∅;
  Done (Stress ts (replicate n []) [] false start_check).

Lemma run_actions_rtc l s s' : run_actions l s = Some s' -> rtc stress_step s s'.
Proof.
  revert s. induction l as [|a l IH]; intros s Hl; simpl in Hl; [by injection Hl as ->|].
  destruct (act a s) as [[s1|]|] eqn:E; try done. eapply rtc_l; [by eapply stress_action|by apply IH].
Qed.
End code.
