(* ===== verification/StressShared.v ===== *)
(** * The stress test: who may write a vector

    A router sends pointers to its buffers and goes on working in them; with
    channels of at most one message its four buffers are enough.  While a pointer
    is in a channel or held by a neighbour, the vector behind it does not change,
    so every neighbour reads what was sent. *)

From Stdlib Require Import ZArith Lia.
From stdpp Require Import gmap list.
From S2P Require Import Prelude Topology Router RouterProps CheckDone Stress.
Open Scope Z_scope.

#[export] Instance RouterChannel_inj : Inj (=) (=) RouterChannel.
Proof. by intros i j [= ->]. Qed.

(** ** What a turn does to a router *)

(** Router [i] is still to get the current vector of [r]. *)
Definition pending (r : router_t) (i : nat) : Prop :=
  exists k e, (2 <= k < select_count r)%nat /\ select_list r !! k = Some e /\ channel e = RouterChannel i.

Definition buffers (r : router_t) : list loc := [prev_prev_state r; prev_state r; curr_state r; next_state r].

(** The vectors outside [p] are the same. *)
Definition writes_only (p : loc) (r r' : router_t) : Prop := forall q, q <> p -> vectors r' !! q = vectors r !! q.

(** The buffers keep their places and only [next_state] is written. *)
Record works (r r' : router_t) : Prop := {
  wk_buffers : buffers r' = buffers r;
  wk_writes : writes_only (next_state r) r r';
  wk_first : take 2 (select_list r') = take 2 (select_list r)
}.

(** The event is that the vector was sent to router [j]. *)
Definition sent_to (r : router_t) (ev : select_event) (j : nat) : Prop :=
  exists k m e, ev = Selected k m /\ (2 <= k)%nat /\ select_list r !! k = Some e /\ channel e = RouterChannel j.

(** The buffers are rotated; the new [next_state], the oldest one, is written. *)
Record rotates (r r' : router_t) : Prop := {
  rt_buffers : buffers r' = [prev_state r; curr_state r; next_state r; prev_prev_state r];
  rt_writes : writes_only (prev_prev_state r) r r';
  rt_all_sent i : ~ pending r i;
  rt_count : select_count r' = total_select_count r';
  rt_first : take 2 (select_list r') = take 2 (select_list r)
}.

Lemma works_refl r : works r r.
Proof. by split. Qed.

Lemma merge_works n topology r v r' : merge n topology r v = Done r' -> works r r' /\ forall i, pending r' i <-> pending r i.
Proof.
  unfold merge. intros Hm. apply bind_Done in Hm as (nd & _ & Hm). apply bind_Done in Hm as (u & _ & Hm).
  apply bind_Done in Hm as (next & _ & Hm). apply bind_Done in Hm as ([ds b] & _ & Hm). apply Done_inj in Hm as <-.
  split; [split; [done| |done]|done]. intros q Hq. simpl. by rewrite lookup_insert_ne.
Qed.

Lemma cycle_rotates r r' : select_count r = 2%nat -> cycle r = Done r' -> rotates r r'.
Proof.
  intros Hc Hm. unfold cycle in Hm. apply bind_Done in Hm as (c & _ & Hm). apply bind_Done in Hm as (x & _ & Hm).
  apply Done_inj in Hm as <-. split; [done| | |done|].
  - intros q Hq. simpl. by rewrite lookup_insert_ne.
  - intros i (k & e & Hk & _). lia.
  - simpl. apply list_eq. intros k. destruct (decide (k < 2)%nat) as [Hk|Hk].
    + rewrite !lookup_take_lt, list_lookup_imap by done. destruct (select_list r !! k); [|done]. simpl. by rewrite bool_decide_false by lia.
    + by rewrite !lookup_take_ge by lia.
Qed.

Section turns.
Context (n : nat) (topology : list Z).

Lemma channels_nodup i r : router_ok n topology i r -> NoDup (channel <$> drop 2 (select_list r)).
Proof.
  intros Hr. rewrite (ro_channels _ _ _ _ Hr). apply (NoDup_fmap_2 RouterChannel). apply NoDup_filter, NoDup_seq.
Qed.

Lemma channels_lookup r k e : (2 <= k)%nat -> select_list r !! k = Some e ->
  (channel <$> drop 2 (select_list r)) !! (k - 2)%nat = Some (channel e).
Proof. intros Hk He. rewrite list_lookup_fmap, lookup_drop. replace (2 + (k - 2))%nat with k by lia. by rewrite He. Qed.

Lemma entry_target i r k e : router_ok n topology i r -> (2 <= k)%nat -> select_list r !! k = Some e ->
  exists j, channel e = RouterChannel j /\ (j < n)%nat /\ j <> i /\ link n topology i j <> inf_distance.
Proof.
  intros Hr Hk He. pose proof (list_elem_of_lookup_2 _ _ _ (channels_lookup r k e Hk He)) as Hin.
  rewrite (ro_channels _ _ _ _ Hr) in Hin. apply list_elem_of_fmap in Hin as (j & Hj & Hin). exists j.
  apply list_elem_of_filter in Hin as [[? ?] Hin%elem_of_seq]. split_done. lia.
Qed.

(** Entries that send to the same router are the same. *)
Lemma same_target i r k k' e e' : router_ok n topology i r -> (2 <= k)%nat -> (2 <= k')%nat ->
  select_list r !! k = Some e -> select_list r !! k' = Some e' -> channel e = channel e' -> k = k'.
Proof.
  intros Hr Hk Hk' He He' Hc. pose proof (channels_lookup r k e Hk He) as H1. pose proof (channels_lookup r k' e' Hk' He') as H2.
  rewrite Hc in H1. pose proof (NoDup_lookup _ _ _ _ (channels_nodup i r Hr) H1 H2). lia.
Qed.

(** A sent entry leaves the entries that wait. *)
Lemma retire_works i r k e r' j : router_ok n topology i r -> (2 <= k < select_count r)%nat ->
  select_list r !! k = Some e -> channel e = RouterChannel j -> retire_entry r k = Done r' ->
  works r r' /\ forall i', pending r' i' <-> pending r i' /\ i' <> j.
Proof.
  intros Hr Hk He Hj Hm. unfold retire_entry in Hm. apply bind_Done in Hm as (last & Hlast & Hm). apply array_get_Done in Hlast.
  unfold array_get in Hm. rewrite He in Hm. cbn [mbind outcome_bind] in Hm.
  apply bind_Done in Hm as (l1 & H1 & Hm). unfold array_set in H1. case_decide as Hl1; [|done]. apply Done_inj in H1 as <-.
  set (c := (select_count r - 1)%nat) in *.
  destruct (<[c:=_]> (select_list r) !! k) as [sel'|] eqn:Es; [|done]. cbn [mbind outcome_bind] in Hm.
  apply bind_Done in Hm as (l2 & H2 & Hm). unfold array_set in H2. case_decide as Hl2; [|done]. apply Done_inj in H2 as <-.
  apply Done_inj in Hm as <-.
  assert (Hp : forall i', pending (set_select r (<[k:=Entry (channel last) (is_send sel') (data sel')]>
      (<[c:=Entry (channel e) (is_send last) (data last)]> (select_list r))) c) i' ->
    exists k' e', (2 <= k' < select_count r)%nat /\ k' <> k /\ select_list r !! k' = Some e' /\ channel e' = RouterChannel i').
  { intros i' (k' & e' & Hk' & He' & Hc'). simpl in Hk', He'. destruct (decide (k' = k)) as [->|Hne].
    - rewrite list_lookup_insert_eq in He' by done. injection He' as <-. simpl in Hc'.
      exists c, last. split_done; unfold c in *; lia.
    - rewrite !list_lookup_insert_ne in He' by (unfold c in *; lia). exists k', e'. split_done; unfold c in *; lia. }
  split; [split; [done|done|simpl; by rewrite !take_insert_ge by (unfold c; lia)]|]. intros i'. split.
  - intros (k' & e' & Hk' & Hne & He' & Hc')%Hp. split; [by exists k', e'|]. intros ->. apply Hne.
    eapply (same_target i r); [done|lia|lia|done|done|congruence].
  - intros [(k' & e' & Hk' & He' & Hc') Hij]. assert (Hne : k' <> k) by (intros ->; rewrite He in He'; simplify_eq; congruence).
    destruct (decide (k' = c)) as [->|Hnc].
    + exists k. eexists. simpl. rewrite list_lookup_insert_eq by done. split; [unfold c in *; lia|]. split; [done|].
      simpl. rewrite He' in Hlast. by injection Hlast as <-.
    + exists k', e'. simpl. rewrite !list_lookup_insert_ne by done. split_done; unfold c in *; lia.
Qed.

(** A turn of a router: it works, and it may rotate then. *)
Lemma step_effect i r ev r' out : router_ok n topology i r ->
  match ev with Selected k _ => k = 1%nat \/ (2 <= k < select_count r)%nat | _ => True end ->
  router_step n topology r ev = Done (Some r', out) ->
  exists r1, works r r1 /\ (r' = r1 \/ rotates r1 r') /\ forall i', pending r1 i' <-> pending r i' /\ ~ sent_to r ev i'.
Proof.
  intros Hr Hev Hs. destruct ev as [k m|k]; unfold router_step in Hs; apply bind_Done in Hs as (u & _ & Hs).
  2: by apply bind_Done in Hs as (? & _ & Hs).
  apply bind_Done in Hs as ([r1 o] & Hm & Hs).
  apply bind_Done in Hs as (r2 & Hc & Hs). apply Done_inj in Hs. injection Hs as <- <-. exists r1.
  assert (Hw : works r r1 /\ forall i', pending r1 i' <-> pending r i' /\ ~ sent_to r (Selected k m) i').
  { destruct Hev as [->|Hk]; simpl in Hm.
    - assert (Hno : forall i', ~ sent_to r (Selected 1 m) i') by (intros i' (k' & m' & e & [= <- <-] & Hk' & _); lia).
      destruct m as [v|]; [|apply Done_inj in Hm; injection Hm as <- _; split; [apply works_refl|naive_solver]].
      apply bind_Done in Hm as (r3 & Hm & E). apply Done_inj in E. injection E as <- _. apply merge_works in Hm. naive_solver.
    - rewrite (proj2 (Nat.eqb_neq _ _)) in Hm by lia. apply bind_Done in Hm as (r3 & Hm & E). apply Done_inj in E. injection E as <- _.
      destruct (ro_count _ _ _ _ Hr) as [Hcount Hlen]. destruct (lookup_lt_is_Some_2 (select_list r) k) as [e He]; [lia|].
      destruct (entry_target i r k e Hr ltac:(lia) He) as (j & Hj & _).
      destruct (retire_works i r k e r3 j Hr Hk He Hj Hm) as [H1 H2]. split; [done|].
      intros i'. rewrite H2. split; intros [Hp Hne]; (split; [done|]).
      + intros (k' & m' & e' & [= <- <-] & _ & He' & Hj'). rewrite He in He'. simplify_eq. congruence.
      + intros ->. apply Hne. exists k, m, e. split_done. lia. }
  split; [apply Hw|]. split; [|apply Hw].
  destruct ((select_count r1 =? 2)%nat && changed r1) eqn:E; [|left; by apply Done_inj in Hc].
  apply andb_prop in E as [E _]. apply Nat.eqb_eq in E. right. by apply cycle_rotates.
Qed.

(** After a rotation every neighbour waits for the new vector. *)
Lemma all_pending i r j : router_ok n topology i r -> select_count r = total_select_count r ->
  (j < n)%nat -> j <> i -> link n topology i j <> inf_distance -> pending r j.
Proof.
  intros Hr Hc Hj Hne Hl. assert (Hin : RouterChannel j ∈ channel <$> drop 2 (select_list r)).
  { rewrite (ro_channels _ _ _ _ Hr). apply list_elem_of_fmap. exists j. split; [done|]. apply list_elem_of_filter.
    split; [done|]. apply elem_of_seq. lia. }
  apply list_elem_of_fmap in Hin as (e & He & Hin). apply list_elem_of_lookup in Hin as [k Hk]. rewrite lookup_drop in Hk.
  exists (2 + k)%nat, e. apply lookup_lt_Some in Hk as Hlt. destruct (ro_count _ _ _ _ Hr) as [_ Hlen]. split_done; simpl in *; lia.
Qed.
End turns.

(** ** Messages on their way *)

Definition held (t : thread) : list (option vector_ptr) := match doing t with Received m => [m] | _ => [] end.

(** What router [i] holds and what is in its channel, the oldest first. *)
Definition inbox (s : stress) (i : nat) : list (option vector_ptr) :=
  match threads s !! i with Some t => held t | None => [] end ++ default [] (queues s !! i).

(** The pointers of router [j] among messages. *)
Definition from (j : nat) (l : list (option vector_ptr)) : list loc :=
  omap (fun m => match m with Some (k, p) => if decide (k = j) then Some p else None | None => None end) l.

Lemma from_app j l k : from j (l ++ k) = from j l ++ from j k.
Proof. apply omap_app. Qed.

Lemma from_length j l : (length (from j l) <= length l)%nat.
Proof. induction l as [|[[k p]|] l IH]; simpl; [lia| |lia]. case_decide; simpl; lia. Qed.

Lemma elem_of_from j l p : p ∈ from j l <-> Some (j, p) ∈ l.
Proof.
  unfold from. rewrite list_elem_of_omap. split.
  - intros ([[k q]|] & Hin & E); [|done]. case_decide; simplify_eq. done.
  - intros Hin. exists (Some (j, p)). by rewrite decide_True.
Qed.

(** The pointers to [r]'s buffers that are on their way to router [i] are its
    youngest ones, in order: the current one last, if it was sent already. *)
Definition shared_ok (r : router_t) (i : nat) (o : list loc) : Prop :=
  (pending r i -> o `suffix_of` [prev_prev_state r; prev_state r]) /\
  (~ pending r i -> o `suffix_of` [prev_prev_state r; prev_state r; curr_state r]).

#[export] Instance channel_ref_eq_dec : EqDecision channel_ref.
Proof. solve_decision. Defined.

Lemma pending_alt r i : pending r i <-> RouterChannel i ∈ channel <$> take (select_count r - 2) (drop 2 (select_list r)).
Proof.
  rewrite list_elem_of_fmap. split.
  - intros (k & e & Hk & He & Hc). exists e. split; [done|]. apply list_elem_of_lookup. exists (k - 2)%nat.
    rewrite lookup_take_lt, lookup_drop by lia. by replace (2 + (k - 2))%nat with k by lia.
  - intros (e & Hc & Hin). apply list_elem_of_lookup in Hin as [k Hk]. apply lookup_take_Some in Hk as [Hk Hlt].
    rewrite lookup_drop in Hk. exists (2 + k)%nat, e. split_done; simpl in *; lia.
Qed.

#[export] Instance pending_dec r i : Decision (pending r i).
Proof. refine (cast_if (decide (RouterChannel i ∈ channel <$> take (select_count r - 2) (drop 2 (select_list r))))); by rewrite pending_alt. Defined.

Lemma shared_places r i o p : shared_ok r i o -> p ∈ o -> p ∈ [prev_prev_state r; prev_state r; curr_state r].
Proof.
  intros [H1 H2] Hp. destruct (decide (pending r i)) as [Hpd|Hpd].
  - destruct (H1 Hpd) as [k E]. assert (Hin : p ∈ [prev_prev_state r; prev_state r]) by (rewrite E; set_solver). set_solver.
  - destruct (H2 Hpd) as [k E]. rewrite E. set_solver.
Qed.

Lemma suffix_drop {A} (o l : list A) : o `suffix_of` l -> o = drop (length l - length o) l.
Proof. intros [k ->]. rewrite length_app. replace (length k + length o - length o)%nat with (length k) by lia. by rewrite drop_app_length. Qed.

(** A shorter list of pointers, and the effect of a turn of the sender. *)
Lemma shared_suffix r i o o' : shared_ok r i o -> o' `suffix_of` o -> shared_ok r i o'.
Proof. intros [H1 H2] Ho. split; intros Hp; (etransitivity; [exact Ho|auto]). Qed.

Lemma shared_works r r1 i o : works r r1 -> (pending r1 i <-> pending r i) -> shared_ok r i o -> shared_ok r1 i o.
Proof. intros [Hb _ _] Hp [H1 H2]. unfold buffers in Hb. injection Hb as E1 E2 E3 _. unfold shared_ok. rewrite E1, E2, E3. split; rewrite Hp; auto. Qed.

Lemma shared_sent r r1 i o : works r r1 -> ~ pending r1 i -> pending r i -> shared_ok r i o -> shared_ok r1 i (o ++ [curr_state r]).
Proof.
  intros [Hb _ _] Hn Hp [H1 _]. unfold buffers in Hb. injection Hb as E1 E2 E3 _. unfold shared_ok. rewrite E1, E2, E3. split; [done|]. intros _.
  destruct (H1 Hp) as [k E]. exists k. rewrite (assoc_L (++)), <- E. done.
Qed.

Lemma shared_rotates r r' i o : rotates r r' -> pending r' i \/ o = [] -> (length o <= 2)%nat -> shared_ok r i o -> shared_ok r' i o.
Proof.
  intros [Hb _ Hs _ _] Hp Hl [_ H2]. specialize (H2 (Hs i)). unfold buffers in Hb. injection Hb as Ep Epp Ec _.
  destruct Hp as [Hp| ->]; [|split; intros; apply suffix_nil]. split; [|done]. intros _. rewrite Ep, Epp. apply suffix_drop in H2. simpl in H2.
  destruct o as [|a [|b [|c o]]]; simpl in Hl, H2; try lia.
  - apply suffix_nil.
  - rewrite H2. by exists [prev_state r].
  - rewrite H2. done.
Qed.

(** *** What the pieces of a step do to it *)

Lemma net_set_thread s i t : net_of (set_thread s i t) = <[i := router t]> (net_of s).
Proof. unfold net_of. simpl. by rewrite fmap_insert. Qed.

Lemma net_lookup s i r d : threads s !! i = Some (Thread r d) -> net_of s !! i = Some r.
Proof. intros E. unfold net_of. by rewrite lookup_fmap, E. Qed.

Lemma net_lookup_inv s i r : net_of s !! i = Some r -> exists d, threads s !! i = Some (Thread r d).
Proof. unfold net_of. rewrite lookup_fmap. intros ([r' d] & E & ->)%fmap_Some. by exists d. Qed.

Lemma net_set_doing s i r d d' : threads s !! i = Some (Thread r d) -> net_of (set_thread s i (Thread r d')) = net_of s.
Proof. intros E. rewrite net_set_thread. apply insert_id. by eapply net_lookup. Qed.

Lemma threads_set_thread s i t k : is_Some (threads s !! i) -> is_Some (threads (set_thread s i t) !! k) <-> is_Some (threads s !! k).
Proof. intros Hi. simpl. rewrite lookup_insert_is_Some'. split; [intros [<-|?]; done|by right]. Qed.

Lemma inbox_set_thread s i t k :
  inbox (set_thread s i t) k = if decide (k = i) then held t ++ default [] (queues s !! i) else inbox s k.
Proof. unfold inbox. simpl. case_decide as E; [subst; by rewrite lookup_insert_eq|by rewrite lookup_insert_ne by congruence]. Qed.

Lemma inbox_set_queue s i q k : (i < length (queues s))%nat ->
  inbox (set_queue s i q) k = if decide (k = i) then match threads s !! i with Some t => held t | None => [] end ++ q else inbox s k.
Proof.
  intros Hi. unfold inbox. simpl. case_decide as E; [subst; by rewrite list_lookup_insert_eq|by rewrite list_lookup_insert_ne by congruence].
Qed.

(** ** The invariant *)

Section invariant.
Context (n : nat) (topology : list Z) (main_buffer_size secondary_buffer_size : nat).
Hypothesis Hmat : matrix_ok n topology.
Hypothesis Hsym : forall i j, (i < n)%nat -> (j < n)%nat -> link n topology j i <> inf_distance -> link n topology i j <> inf_distance.
(** What [run_stress] asserts of the size of the routers' channels. *)
Hypothesis Hsize : (main_buffer_size <= 1)%nat.
Implicit Types (s : stress) (r : router_t).

Record stress_ok s : Prop := {
  so_net : net_ok n topology (net_of s);
  so_threads i : (i < n)%nat <-> is_Some (threads s !! i);
  so_queues : length (queues s) = n /\ forall i q, queues s !! i = Some q -> (length q <= main_buffer_size)%nat;
  so_mail i j p : Some (j, p) ∈ inbox s i -> (i < n)%nat /\ (j < n)%nat /\ j <> i /\ link n topology j i <> inf_distance;
  so_shared i j r : net_of s !! j = Some r -> shared_ok r i (from j (inbox s i));
  (** The first two entries of a select list are receives. *)
  so_first i r k e : net_of s !! i = Some r -> take 2 (select_list r) !! k = Some e -> is_send e = false
}.

Lemma inbox_length s i : (forall i q, queues s !! i = Some q -> (length q <= main_buffer_size)%nat) -> (length (inbox s i) <= 2)%nat.
Proof using Hsize.
  intros Hq. unfold inbox. rewrite length_app. assert (H1 : (length (default [] (queues s !! i)) <= main_buffer_size)%nat).
  { destruct (queues s !! i) eqn:E; simpl; [by eapply Hq|lia]. }
  assert (H2 : (length (match threads s !! i with Some t => held t | None => [] end) <= 1)%nat).
  { destruct (threads s !! i) as [[r []]|]; simpl; lia. }
  lia.
Qed.

(** No router is changed; messages only go, and questions may come. *)
Lemma frame_ok s s' :
  stress_ok s -> net_of s' = net_of s -> (forall i, is_Some (threads s' !! i) <-> is_Some (threads s !! i)) ->
  length (queues s') = n -> (forall i q, queues s' !! i = Some q -> (length q <= main_buffer_size)%nat) ->
  (forall i j, from j (inbox s' i) `suffix_of` from j (inbox s i)) -> stress_ok s'.
Proof using Type.
  clear Hmat Hsym Hsize. intros [Hnet Hth [Hq1 Hq2] Hmail Hsh Hfst] En Hth' Hq1' Hq2' Hin. split; [by rewrite En| |done| | |by rewrite En].
  - intros i. by rewrite Hth'.
  - intros i j p Hp. apply elem_of_from in Hp. apply (Hmail i j p), elem_of_from. destruct (Hin i j) as [k E]. rewrite E. set_solver.
  - intros i j r Hr. rewrite En in Hr. eapply shared_suffix; [by apply Hsh|]. apply Hin.
Qed.

(** Router [i] takes a turn, which may put its current vector into channels. *)
Lemma turn_ok s s' i r ev r' out :
  stress_ok s -> net_of s !! i = Some r -> possible n topology (net_of s) i r ev ->
  router_step n topology r ev = Done (Some r', out) -> net_of s' = <[i := r']> (net_of s) ->
  length (queues s') = n -> (forall i q, queues s' !! i = Some q -> (length q <= main_buffer_size)%nat) ->
  (forall k j, from j (inbox s' k) `suffix_of` from j (inbox s k) /\ ~ (j = i /\ sent_to r ev k) \/
     j = i /\ sent_to r ev k /\ (exists b, (b < select_count r)%nat /\ ev = Selected b None) /\
       from j (inbox s' k) = from j (inbox s k) ++ [curr_state r]) -> stress_ok s'.
Proof using Hmat Hsym Hsize.
  intros Hs Hr Hpos Hstep En Hq1 Hq2 Hin. pose proof Hs as [Hnet Hth _ Hmail Hsh Hfst]. pose proof (Hnet i r Hr) as Hrok.
  assert (Hev : match ev with Selected k _ => k = 1%nat \/ (2 <= k < select_count r)%nat | _ => True end).
  { destruct ev as [[|[|k]] m|k]; simpl in Hpos; [lia|by left|right; lia|done]. }
  destruct (step_effect n topology i r ev r' out Hrok Hev Hstep) as (r1 & Hw & Hrot & Hpend).
  destruct (router_goes_on n topology Hmat Hsym (net_of s) i r ev r' out Hnet Hr Hpos Hstep) as [Hr'ok _].
  assert (Hmail' : forall k j p, Some (j, p) ∈ inbox s' k -> (k < n)%nat /\ (j < n)%nat /\ j <> k /\ link n topology j k <> inf_distance).
  { intros k j p Hp. apply elem_of_from in Hp. destruct (Hin k j) as [[[l E] _]|(-> & (b & m & e & -> & Hb & He & Hc) & _ & E)].
    - apply (Hmail k j p), elem_of_from. rewrite E. set_solver.
    - rewrite E in Hp. apply elem_of_app in Hp as [Hp|_]; [by apply (Hmail k i p), elem_of_from|].
      destruct (entry_target n topology i r b e Hrok Hb He) as (k' & Ek & ? & ? & ?). rewrite Hc in Ek. injection Ek as <-.
      by pose proof (ro_index _ _ _ _ Hrok) as [_ ?]. }
  split; [| |done|done| |].
  - intros j rj Hj. rewrite En in Hj. apply lookup_insert_Some in Hj as [[<- <-]|[_ Hj]]; [done|by apply Hnet].
  - intros j. rewrite (Hth j). assert (Hdom : is_Some (net_of s' !! j) <-> is_Some (net_of s !! j)).
    { rewrite En. split.
      - intros [x [[<- _]|[_ Hx]]%lookup_insert_Some]; by eexists.
      - intros Hj. apply lookup_insert_is_Some'. by right. }
    unfold net_of in Hdom. rewrite !lookup_fmap, !fmap_is_Some in Hdom. by rewrite Hdom.
  - intros k j rj Hj. rewrite En in Hj. apply lookup_insert_Some in Hj as [[<- <-]|[Hne Hj]].
    + assert (H1 : shared_ok r1 k (from i (inbox s' k))).
      { destruct (Hin k i) as [[Hsuf Hno]|(_ & Hsent & (b & Hb & Eb) & E)].
        - eapply shared_suffix; [|exact Hsuf]. apply (shared_works r); [done| |by apply Hsh]. rewrite Hpend. naive_solver.
        - rewrite E. eapply shared_sent; [done|rewrite Hpend; naive_solver| |by apply Hsh].
          destruct Hsent as (b' & m & e & E' & Hb' & He & Hc). rewrite Eb in E'. injection E' as <- _. by exists b, e. }
      destruct Hrot as [->|Hrot]; [done|]. apply (shared_rotates r1); [done| | |done].
      * destruct (from i (inbox s' k)) as [|p l] eqn:E; [by right|left].
        destruct (Hmail' k i p) as (? & _ & ? & ?); [apply elem_of_from; rewrite E; left|].
        apply (all_pending n topology i); [done|apply Hrot|done|done|done].
      * etransitivity; [apply from_length|by apply inbox_length].
    + destruct (Hin k j) as [[Hsuf _]|[-> _]]; [|done]. eapply shared_suffix; [by apply Hsh|done].
  - intros j rj k e Hj. rewrite En in Hj. apply lookup_insert_Some in Hj as [[<- <-]|[Hne Hj]]; [|by apply (Hfst j)].
    assert (Hf : take 2 (select_list r') = take 2 (select_list r)).
    { rewrite <- (wk_first _ _ Hw). destruct Hrot as [->|Hrot]; [done|apply Hrot]. }
    rewrite Hf. by apply (Hfst i).
Qed.

(** A message is put at the end of the receiver's inbox. *)
Lemma deliver_ok s j m s' : stress_ok s -> deliver main_buffer_size s j m = Some s' ->
  net_of s' = net_of s /\ (forall i, is_Some (threads s' !! i) <-> is_Some (threads s !! i)) /\ length (queues s') = n /\
  (forall i q, queues s' !! i = Some q -> (length q <= main_buffer_size)%nat) /\
  (forall k, inbox s' k = if decide (k = j) then inbox s j ++ [m] else inbox s k) /\
  threads s' = threads s.
Proof using Type.
  clear Hmat Hsym Hsize. intros [_ _ [Hq1 Hq2] _ _ _] Hd. unfold deliver in Hd.
  destruct (queues s !! j) as [q|] eqn:Eq; [|done]. cbn [mbind option_bind] in Hd. destruct (_ <? _)%nat eqn:Elt; [|done].
  injection Hd as <-. apply Nat.ltb_lt in Elt. split_done.
  - simpl. by rewrite length_insert.
  - intros i q' Hi. simpl in Hi. apply list_lookup_insert_Some in Hi as [(-> & <- & _)|[_ Hi]]; [rewrite length_app; simpl; lia|by apply (Hq2 i)].
  - intros k. rewrite inbox_set_queue by (by eapply lookup_lt_Some). case_decide as E; [|done]. unfold inbox. rewrite Eq. simpl.
    by rewrite (assoc_L (++)).
Qed.

(** *** Every action keeps the invariant *)

Lemma quiet_ok s s' : stress_ok s -> threads s' = threads s -> queues s' = queues s -> stress_ok s'.
Proof using Type.
  clear Hmat Hsym Hsize. intros Hs Et Eq. pose proof (so_queues _ Hs) as [H1 H2].
  apply (frame_ok s); [done|unfold net_of; by rewrite Et|by rewrite Et|by rewrite Eq|by rewrite Eq|].
  intros i j. unfold inbox. by rewrite Et, Eq.
Qed.

Lemma doing_ok s i r d d' : stress_ok s -> threads s !! i = Some (Thread r d) -> held (Thread r d') = [] -> stress_ok (set_thread s i (Thread r d')).
Proof using Type.
  clear Hmat Hsym Hsize. intros Hs Ei Hd. pose proof (so_queues _ Hs) as [H1 H2].
  apply (frame_ok s); [done|by eapply net_set_doing|intros k; apply threads_set_thread; rewrite Ei; by eexists|done|done|].
  intros k j. rewrite inbox_set_thread. case_decide as E; [subst|done]. rewrite Hd. unfold inbox. rewrite Ei, !from_app. by eexists.
Qed.

Lemma receives_ok s i s' : stress_ok s -> router_receives s i = Some (Done s') -> stress_ok s' /\ forall k, inbox s' k = inbox s k.
Proof using Type.
  clear Hmat Hsym Hsize. intros Hs Ha. unfold router_receives in Ha. destruct (threads s !! i) as [[r []]|] eqn:Ei; try done.
  destruct (queues s !! i) as [[|m q]|] eqn:Eq; try done. injection Ha as <-. pose proof (so_queues _ Hs) as [H1 H2].
  assert (Hin : forall k, inbox (set_queue (set_thread s i (Thread r (Received m))) i q) k = inbox s k).
  { intros k. rewrite inbox_set_queue by (simpl; by eapply lookup_lt_Some). case_decide as E.
    - subst. simpl. rewrite lookup_insert_eq. unfold inbox. by rewrite Ei, Eq.
    - by rewrite inbox_set_thread, decide_False. }
  split; [|done]. apply (frame_ok s); [done| | |simpl; by rewrite length_insert| |].
  - exact (net_set_doing s i r _ (Received m) Ei).
  - intros k. apply (threads_set_thread s i). rewrite Ei. by eexists.
  - intros k q' Hk. simpl in Hk. apply list_lookup_insert_Some in Hk as [(-> & <- & _)|[_ Hk]]; [|by apply (H2 k)].
    specialize (H2 _ _ Eq). simpl in H2. lia.
  - intros k j. by rewrite Hin.
Qed.

Lemma asks_ok s s' : stress_ok s -> main_asks n main_buffer_size s = Some (Done s') -> stress_ok s'.
Proof using Type.
  clear Hmat Hsym Hsize. intros Hs Ha. unfold main_asks in Ha. destruct (main s) as [again completed i| | | | |]; try done.
  destruct (deliver _ s i None) as [s1|] eqn:Ed; [|done]. injection Ha as <-.
  destruct (deliver_ok s i None s1 Hs Ed) as (En & Ht & H1 & H2 & Hin & _).
  apply (quiet_ok s1); [|done|done]. apply (frame_ok s); try done.
  intros k j. rewrite Hin. case_decide as E; [|done]. subst. rewrite from_app. simpl. by rewrite app_nil_r.
Qed.

(** The vector behind a message of router [j] that has yet to be used. *)
Lemma message_read s i j p : stress_ok s -> Some (j, p) ∈ inbox s i -> exists r v,
  net_of s !! j = Some r /\ vectors r !! p = Some v /\ read_vector (net_of s) (j, p) = Done v /\
  p ∈ [prev_prev_state r; prev_state r; curr_state r] /\ offered n topology (net_of s) i v.
Proof using Type.
  clear Hmat Hsym Hsize. intros Hs Hp. destruct (so_mail _ Hs _ _ _ Hp) as (Hi & Hj & Hne & Hl).
  apply (so_threads _ Hs) in Hj as [[r d] Ej]. pose proof (net_lookup _ _ _ _ Ej) as Hr. exists r.
  apply elem_of_from in Hp as Hf. pose proof (shared_places _ _ _ _ (so_shared _ Hs i j r Hr) Hf) as Hpl.
  destruct (get_vector_ok n topology j r p (so_net _ Hs j r Hr)) as (v & Eg & Ev & _); [set_solver|]. exists v.
  split; [done|]. split; [done|]. split; [pose proof (Hr : (net_of s : network) !! j = Some r) as Hr'; unfold read_vector; cbn [fst snd]; by rewrite Hr'|]. split; [done|]. by exists j, r, p.
Qed.

Lemma selected_goes_on r k m x out : router_step n topology r (Selected k m) = Done (x, out) -> exists r', x = Some r'.
Proof using Type.
  unfold router_step. intros Hs. apply bind_Done in Hs as (u & _ & Hs). apply bind_Done in Hs as ([r1 o] & _ & Hs).
  apply bind_Done in Hs as (r2 & _ & Hs). apply Done_inj in Hs. injection Hs as <- _. by eexists.
Qed.

(** A router uses its message: nothing fails. *)
Lemma uses_ok s i r m : stress_ok s -> threads s !! i = Some (Thread r (Received m)) -> exists v r' out d,
  router_uses n topology s i = Some (Done (set_thread s i (Thread r' d))) /\
  router_step n topology r (Selected 1 v) = Done (Some r', out) /\ d = match out with a :: _ => Answering (pair i <$> a) | [] => Selecting end /\
  (v = None <-> m = None) /\ stress_ok (set_thread s i (Thread r' d)).
Proof using Hmat Hsym Hsize.
  intros Hs Ei. pose proof (net_lookup _ _ _ _ Ei) as Hr. pose proof (so_queues _ Hs) as [H1 H2].
  assert (Hinb : inbox s i = m :: default [] (queues s !! i)) by (unfold inbox; by rewrite Ei).
  assert (Hv : exists v, match m with None => Done None | Some p => v ← read_vector (net_of s) p; Done (Some v) end = Done v /\
    possible n topology (net_of s) i r (Selected 1 v) /\ (v = None <-> m = None)).
  { destruct m as [[j p]|]; [|by exists None].
    destruct (message_read s i j p Hs) as (rj & v & _ & _ & -> & _ & Ho); [rewrite Hinb; left|]. by exists (Some v). }
  destruct Hv as (v & Ev & Hpos & Hvm).
  destruct (router_step_ok n topology Hmat Hsym (net_of s) i r 1 v (so_net _ Hs) Hr Hpos) as (r' & out & Estep & _).
  exists v, r', out. eexists. split; [|split; [exact Estep|split; [reflexivity|split; [done|]]]].
  - unfold router_uses. rewrite Ei, Ev. cbn [mbind outcome_bind]. by rewrite Estep.
  - apply (turn_ok s _ i r (Selected 1 v) r' out); try done; [by rewrite net_set_thread|].
    intros k j. left. split; [|intros (_ & b & m' & e & [= <- _] & Hb & _); lia].
    rewrite inbox_set_thread. case_decide as E; [subst|done]. change (m :: default [] (queues s !! i)) with ([m] ++ default [] (queues s !! i)) in Hinb.
    rewrite Hinb, !from_app. assert (Hh : from j (held (Thread r' (match out with a :: _ => Answering (pair i <$> a) | [] => Selecting end))) = [])
      by (by destruct out). rewrite Hh. by eexists.
Qed.

(** A router sends its current vector: nothing fails. *)
Lemma sends_ok s i b res : stress_ok s -> router_sends n topology main_buffer_size s i b = Some res -> exists r r' out j s1,
  threads s !! i = Some (Thread r Scanning) /\ router_step n topology r (Selected b None) = Done (Some r', out) /\
  j <> i /\ deliver main_buffer_size s j (Some (i, curr_state r)) = Some s1 /\
  res = Done (set_thread s1 i (Thread r' Selecting)) /\ stress_ok (set_thread s1 i (Thread r' Selecting)) /\
  forall k, inbox (set_thread s1 i (Thread r' Selecting)) k = inbox s1 k.
Proof using Hmat Hsym Hsize.
  intros Hs Ha. unfold router_sends in Ha. destruct (threads s !! i) as [[r []]|] eqn:Ei; try done.
  destruct (select_list r !! b) as [[[|j] [] p]|] eqn:Eb; try done. destruct (b <? select_count r)%nat eqn:Elt; [|done].
  apply Nat.ltb_lt in Elt. pose proof (net_lookup _ _ _ _ Ei) as Hr. pose proof (so_net _ Hs i r Hr) as Hrok.
  assert (Hb : (2 <= b)%nat).
  { destruct (decide (2 <= b)%nat) as [?|Hlt]; [done|]. exfalso.
    assert (Hf : is_send (Entry (RouterChannel j) true p) = false); [|done].
    apply (so_first _ Hs i r b); [done|]. by rewrite lookup_take_lt by lia. }
  destruct (ro_entries _ _ _ _ Hrok b _ Eb Hb) as [_ Ep]. simpl in Ep. subst p.
  destruct (entry_target n topology i r b _ Hrok Hb Eb) as (j' & [= <-] & Hj & Hne & Hl).
  cbn [fmap option_fmap option_map] in Ha. destruct (deliver _ s j (Some (i, curr_state r))) as [s1|] eqn:Ed; [|done].
  assert (Hpos : possible n topology (net_of s) i r (Selected b None)) by (destruct b as [|[|b]]; simpl; lia).
  destruct (router_step_ok n topology Hmat Hsym (net_of s) i r b None (so_net _ Hs) Hr Hpos) as (r' & out & Estep & _).
  rewrite Estep in Ha. cbn [mbind outcome_bind default] in Ha. injection Ha as <-.
  destruct (deliver_ok s j _ s1 Hs Ed) as (En & Ht & H1 & H2 & Hin & Hoth).
  assert (Ei1 : threads s1 !! i = Some (Thread r Scanning)) by (by rewrite Hoth).
  assert (Hin' : forall k, inbox (set_thread s1 i (Thread r' Selecting)) k = inbox s1 k).
  { intros k. rewrite inbox_set_thread. case_decide as E; [subst|done]. unfold inbox. by rewrite Ei1. }
  exists r, r', out, j, s1. split_done. apply (turn_ok s _ i r (Selected b None) r' out); try done; [by rewrite net_set_thread, En|].
  intros k jj. rewrite Hin', Hin. case_decide as E.
  - subst k. rewrite from_app. destruct (decide (jj = i)) as [->|Hjj].
    + right. split; [done|]. split; [by exists b, None, (Entry (RouterChannel j) true (Some (curr_state r)))|].
      split; [by exists b|]. simpl. by rewrite decide_True.
    + left. simpl. rewrite decide_False by congruence. rewrite app_nil_r. split; [done|]. by intros [? _].
  - left. split; [done|]. intros (_ & b' & m' & e & [= <- <-] & _ & He & Hc). rewrite Eb in He. injection He as <-. simpl in Hc.
    injection Hc as <-. done.
Qed.

(** What happens to a router in one action of the program. *)
Definition evolves (net net' : gmap nat router_t) : Prop :=
  forall j r, net !! j = Some r -> exists r', net' !! j = Some r' /\ (r' = r \/ exists r1, works r r1 /\ (r' = r1 \/ rotates r1 r')).

Lemma evolves_refl (net : gmap nat router_t) : evolves net net.
Proof using Type. intros j r Hj. exists r. by split; [|left]. Qed.

Lemma evolves_turn (net : gmap nat router_t) i r ev r' out : net_ok n topology net -> net !! i = Some r ->
  match ev with Selected k _ => k = 1%nat \/ (2 <= k < select_count r)%nat | _ => True end ->
  router_step n topology r ev = Done (Some r', out) -> evolves net (<[i := r']> net).
Proof using Type.
  clear Hmat Hsym Hsize. intros Hnet Hi Hev Hs j rj Hj. destruct (decide (j = i)) as [->|Hne].
  - exists r'. rewrite lookup_insert_eq. split; [done|right]. rewrite Hi in Hj. injection Hj as <-.
    destruct (step_effect n topology i r ev r' out (Hnet i r Hi) Hev Hs) as (r1 & Hw & Hrot & _). by exists r1.
  - exists rj. rewrite lookup_insert_ne by congruence. by split; [|left].
Qed.

Lemma collect_keeps s a s' : collect n s a = Some (Done s') -> exists m, s' = set_main s m.
Proof using Type.
  unfold collect. destruct (main s) as [|[|] c v [|todo]| | | |]; try done; intros E; injection E as E.
  - apply bind_Done in E as (v' & _ & E). apply Done_inj in E as <-. by eexists.
  - apply bind_Done in E as ([c' v'] & _ & E). apply Done_inj in E as <-. by eexists.
Qed.

(** An action that only concerns the main thread's own variables. *)
Lemma main_only s s' : stress_ok s -> threads s' = threads s -> queues s' = queues s -> stress_ok s' /\ evolves (net_of s) (net_of s').
Proof using Type.
  clear Hmat Hsym Hsize. intros Hs Et Eq. split; [by apply (quiet_ok s)|]. unfold net_of. rewrite Et. apply evolves_refl.
Qed.

Lemma doing_only s i r d d' : stress_ok s -> threads s !! i = Some (Thread r d) -> held (Thread r d') = [] ->
  stress_ok (set_thread s i (Thread r d')) /\ evolves (net_of s) (net_of (set_thread s i (Thread r d'))).
Proof using Type.
  clear Hmat Hsym Hsize. intros Hs Ei Hd. split; [by eapply doing_ok|]. rewrite (net_set_doing s i r d) by done. apply evolves_refl.
Qed.

Lemma act_ok solution a s s' : stress_ok s -> act n topology solution main_buffer_size secondary_buffer_size a s = Some (Done s') ->
  stress_ok s' /\ evolves (net_of s) (net_of s').
Proof using Hmat Hsym Hsize.
  intros Hs Ha. destruct a; simpl in Ha.
  - unfold router_looks in Ha. destruct (threads s !! i) as [[r []]|] eqn:Ei; try done. destruct (queues s !! i) as [[|]|]; try done.
    destruct (done_closed s); [done|]. injection Ha as <-. by eapply doing_only.
  - unfold router_rescans in Ha. destruct (threads s !! i) as [[r []]|] eqn:Ei; try done. injection Ha as <-. by eapply doing_only.
  - destruct (sends_ok s i k _ Hs Ha) as (r & r' & out & j & s1 & Ei & Est & _ & Ed & E & Hok & _). injection E as ->. split; [done|].
    destruct (deliver_ok s j _ s1 Hs Ed) as (En & _). rewrite net_set_thread. cbn [router]. rewrite En.
    pose proof (net_lookup _ _ _ _ Ei) as Hr. eapply evolves_turn; [apply Hs|done| |done]. simpl.
    unfold router_sends in Ha. rewrite Ei in Ha. destruct (select_list r !! k) as [[[|j'] [] p]|] eqn:Ek; try done.
    destruct (k <? select_count r)%nat eqn:Elt; [|done]. apply Nat.ltb_lt in Elt.
    destruct (decide (2 <= k)%nat) as [?|Hlt]; [right; lia|]. exfalso.
    assert (Hf : is_send (Entry (RouterChannel j') true p) = false); [|done].
    apply (so_first _ Hs i r k); [done|]. by rewrite lookup_take_lt by lia.
  - destruct (receives_ok s i s' Hs Ha) as [Hok _]. split; [done|]. unfold router_receives in Ha.
    destruct (threads s !! i) as [[r []]|] eqn:Ei; try done. destruct (queues s !! i) as [[|m q]|]; try done. injection Ha as <-.
    change (net_of (set_queue ?x _ _)) with (net_of x). rewrite (net_set_doing s i r Selecting) by done. apply evolves_refl.
  - destruct (threads s !! i) as [[r d]|] eqn:Ei; [|unfold router_uses in Ha; by rewrite Ei in Ha].
    destruct d as [| |m| |]; try (unfold router_uses in Ha; by rewrite Ei in Ha).
    destruct (uses_ok s i r m Hs Ei) as (v & r' & out & d & E & Est & _ & _ & Hok). rewrite E in Ha. injection Ha as <-. split; [done|].
    rewrite net_set_thread. eapply evolves_turn; [apply Hs|by eapply net_lookup| |exact Est]. by left.
  - unfold router_answers in Ha. destruct (threads s !! i) as [[r []]|] eqn:Ei; try done.
    destruct (doing_only s i r _ Selecting Hs Ei eq_refl) as [H1 H2]. destruct (_ <? _)%nat; [|done]. injection Ha as <-.
    split; [by apply (quiet_ok (set_thread s i (Thread r Selecting)))|exact H2].
  - unfold router_stops in Ha. destruct (threads s !! i) as [[r []]|] eqn:Ei; try done. destruct (done_closed s); [|done].
    injection Ha as Ha. apply bind_Done in Ha as ([r' out] & Hst & Ha). apply Done_inj in Ha as <-.
    assert (r' = None) as ->; [|by eapply doing_only].
    unfold router_step in Hst. apply bind_Done in Hst as (? & _ & Hst). by apply Done_inj in Hst; injection Hst as <-.
  - split; [by apply (asks_ok s)|]. unfold main_asks in Ha. destruct (main s); try done.
    destruct (deliver _ s i None) as [s1|] eqn:Ed; [|done]. injection Ha as <-. destruct (deliver_ok s i None s1 Hs Ed) as (En & _).
    change (net_of (set_main ?x _)) with (net_of x). rewrite En. apply evolves_refl.
  - unfold main_collects in Ha. destruct (answers s) as [|a q]; [done|]. apply collect_keeps in Ha as [m ->]. by apply main_only.
  - unfold main_compares in Ha. destruct (main s); try done. injection Ha as Ha. apply bind_Done in Ha as (? & _ & Ha).
    apply Done_inj in Ha as <-. by apply main_only.
  - unfold main_closes in Ha. destruct (main s); try done. injection Ha as <-. by apply main_only.
  - unfold main_joins in Ha. destruct (main s); try done. destruct (forallb _ _); [|done]. injection Ha as <-. by apply main_only.
Qed.

(** *** The start *)

Lemma for_loop_Done {A} (P : nat -> A -> Prop) count from body (a a' : A) :
  P from a -> (forall x b b', (from <= x < from + count)%nat -> P x b -> body x b = Done b' -> P (S x) b') ->
  for_loop count from body a = Done a' -> P (from + count)%nat a'.
Proof using Type.
  clear. revert from a. induction count as [|count IH]; intros from a Ha Hb Hl; simpl in Hl.
  - apply Done_inj in Hl as <-. by rewrite Nat.add_0_r.
  - apply bind_Done in Hl as (a1 & H1 & Hl). rewrite Nat.add_succ_r. apply (IH (S from) a1); [apply (Hb from a); [lia|done..]| |done].
    intros x b b' Hx. apply Hb. lia.
Qed.

Lemma starts_ok `{Malloc} lives s :
  run_stress_starts n topology main_buffer_size secondary_buffer_size lives = Done s ->
  stress_ok s /\ main s = start_check n /\ answers s = [] /\ done_closed s = false /\
  (forall i, inbox s i = []) /\ forall i t, threads s !! i = Some t -> doing t = Selecting.
Proof using Hmat.
  clear Hsym Hsize. intros Hst. unfold run_stress_starts in Hst. apply bind_Done in Hst as (u1 & _ & Hst).
  apply bind_Done in Hst as (u2 & _ & Hst). apply bind_Done in Hst as (ts & Hts & Hst). apply Done_inj in Hst as <-.
  apply (for_loop_Done (fun k (ts : gmap nat thread) => (forall i, (i < k)%nat <-> is_Some (ts !! i)) /\
    forall i t, ts !! i = Some t -> exists r, t = Thread r Selecting /\ router_ok n topology i r /\
      forall j e, take 2 (select_list r) !! j = Some e -> is_send e = false)) in Hts as [Hdom Hts].
  - assert (Hinb : forall i, inbox (Stress ts (replicate n []) [] false (start_check n)) i = []).
    { intros i. unfold inbox. simpl. destruct (ts !! i) as [t|] eqn:Ei; [destruct (Hts i t Ei) as (r & -> & _)|]; simpl;
        (destruct (replicate n [] !! i) as [q|] eqn:Eq; [by apply lookup_replicate in Eq as [-> _]|done]). }
    split_done.
    + split; simpl.
      * intros i r Hi. apply net_lookup_inv in Hi as [d Hi]. simpl in Hi. destruct (Hts i _ Hi) as (r' & [= -> _] & Hr & _). done.
      * done.
      * split; [by rewrite length_replicate|]. intros i q [-> _]%lookup_replicate. simpl. lia.
      * intros i j p Hp. rewrite Hinb in Hp. by apply elem_of_nil in Hp.
      * intros i j r _. rewrite Hinb. split; intros; apply suffix_nil.
      * intros i r k e Hi. apply net_lookup_inv in Hi as [d Hi]. simpl in Hi. destruct (Hts i _ Hi) as (r' & [= -> _] & _ & Hf). apply Hf.
    + simpl. intros i t Hi. by destruct (Hts i t Hi) as (r & -> & _).
  - split; [|by intros i t; rewrite lookup_empty]. intros i. rewrite lookup_empty, is_Some_alt. simpl. lia.
  - intros k b b' Hk [Hd Hb] Hbody. apply bind_Done in Hbody as (r & Hr & Hbody). apply Done_inj in Hbody as <-. split.
    + intros i. rewrite lookup_insert_is_Some'. rewrite <- Hd. lia.
    + intros i t [[<- <-]|[_ Hi]]%lookup_insert_Some; [|by apply Hb]. exists r.
      pose proof (router_start_ok n topology Hmat (lives k) k r ltac:(lia) Hr) as Hrok. split_done.
      unfold router_start in Hr. apply bind_Done in Hr as (ds & _ & Hr). do 4 apply bind_Done in Hr as ([? ?] & _ & Hr).
      apply bind_Done in Hr as (nbs & _ & Hr).
      apply Done_inj in Hr as <-. simpl. intros j e Hj. destruct j as [|[|j]]; simpl in Hj; simplify_eq; done.
Qed.
End invariant.

(** ** Theorem *)

Section theorem.
Context `{Malloc} (n : nat) (topology solution : list Z).
Hypothesis Hmat : matrix_ok n topology.
Hypothesis Hsym : forall i j, (i < n)%nat -> (j < n)%nat -> link n topology j i <> inf_distance -> link n topology i j <> inf_distance.

Lemma stress_reachable lives s0 s : run_stress_starts n topology 1 1 lives = Done s0 ->
  rtc (stress_step n topology solution 1 1) s0 s -> stress_ok n topology 1 s.
Proof using Hmat Hsym.
  intros Hst Hr. destruct (starts_ok n topology 1 1 Hmat lives s0 Hst) as [H0 _]. clear Hst.
  induction Hr as [|s1 s2 s3 [a s1' s2' Ha] _ IH]; [done|]. apply IH.
  by apply (act_ok n topology 1 1 Hmat Hsym (Nat.le_refl 1) solution a s1').
Qed.

(** C14: the routers share their buffers safely.  In any state the program can
    reach, a message to router [i] that is in its channel or held by it leads to a
    buffer of its sender, which is another router with a link to it, and not to the
    one the sender works in; and as long as the message is on its way no action of
    any thread changes the vector behind it.  So what a router reads, with no lock
    at all, is what was sent. *)
Theorem sent_vectors_stay lives s0 s a s' i j p :
  run_stress_starts n topology 1 1 lives = Done s0 ->
  rtc (stress_step n topology solution 1 1) s0 s -> Some (j, p) ∈ inbox s i ->
  exists r v, net_of s !! j = Some r /\ j <> i /\ link n topology j i <> inf_distance /\ vectors r !! p = Some v /\ src v = j /\
    p <> next_state r /\
    (act n topology solution 1 1 a s = Some (Done s') -> Some (j, p) ∈ inbox s' i ->
     exists r', net_of s' !! j = Some r' /\ vectors r' !! p = Some v /\ p <> next_state r').
Proof using Hmat Hsym.
  intros Hst Hr Hp. pose proof (stress_reachable lives s0 s Hst Hr) as Hs.
  assert (Hnext : forall s r, stress_ok n topology 1 s -> net_of s !! j = Some r -> Some (j, p) ∈ inbox s i -> p <> next_state r).
  { clear. intros s r Hs Hj Hp. apply elem_of_from in Hp.
    pose proof (shared_places _ _ _ _ (so_shared _ _ _ _ Hs i j r Hj) Hp) as Hpl. intros ->.
    pose proof (ro_distinct _ _ _ _ (so_net _ _ _ _ Hs j r Hj)) as Hnd.
    apply (NoDup_app [prev_prev_state r; prev_state r; curr_state r] [next_state r]) in Hnd as (_ & Hd & _). apply (Hd _ Hpl). left. }
  destruct (message_read n topology 1 s i j p Hs Hp) as (r & v & Hj & Hv & _).
  destruct (so_mail _ _ _ _ Hs _ _ _ Hp) as (_ & _ & Hne & Hl). exists r, v.
  split_done; [by apply (ro_vectors _ _ _ _ (so_net _ _ _ _ Hs j r Hj) p)|by apply (Hnext s)|].
  intros Ha Hp'. destruct (act_ok n topology 1 1 Hmat Hsym (Nat.le_refl 1) solution a s s' Hs Ha) as [Hs' Hev].
  destruct (Hev j r Hj) as (r' & Hj' & Hr'). exists r'. pose proof (Hnext s' r' Hs' Hj' Hp') as Hn'. split; [done|]. split; [|done].
  rewrite <- Hv. destruct Hr' as [->|(r1 & Hw & Hrot)]; [done|].
  assert (H1 : vectors r1 !! p = vectors r !! p) by (apply (wk_writes _ _ Hw); by apply (Hnext s)).
  destruct Hrot as [->|Hrot]; [done|]. rewrite <- H1. apply (rt_writes _ _ Hrot).
  pose proof (rt_buffers _ _ Hrot) as Hb. unfold buffers in Hb. injection Hb as _ _ _ E. by rewrite <- E.
Qed.
End theorem.

Lemma sent_vectors_stay_witness : exists s0 s,
  @run_stress_starts 3 line_topology 1 1 malloc_first (fun _ => ∅) = Done s0 /\
  rtc (stress_step 3 line_topology [] 1 1) s0 s /\ inbox s 1 = [Some (0%nat, 3%positive)] /\
  exists r v, net_of s !! 0%nat = Some r /\ vectors r !! 3%positive = Some v /\ src v = 0%nat.
Proof.
  destruct (@run_stress_starts 3 line_topology 1 1 malloc_first (fun _ => ∅)) as [s0|] eqn:E0; [|by vm_compute in E0].
  destruct (run_actions 3 line_topology [] 1 1 [Looks 0; Sends 0 2]%nat s0) as [s|] eqn:E;
    [|vm_compute in E0; injection E0 as <-; by vm_compute in E].
  pose proof (run_actions_rtc 3 line_topology [] 1 1 _ _ _ E) as Hr.
  assert (Hi : inbox s 1 = [Some (0%nat, 3%positive)]).
  { vm_compute in E0. injection E0 as <-. vm_compute in E. injection E as <-. vm_compute. reflexivity. }
  assert (Hp : Some (0%nat, 3%positive) ∈ inbox s 1) by (rewrite Hi; left).
  destruct (@sent_vectors_stay malloc_first 3 line_topology [] line_matrix line_symmetric (fun _ => ∅) s0 s MainAsks s 1 0 3%positive E0 Hr Hp)
    as (r & v & H1 & _ & _ & H2 & H3 & _). exists s0, s. split_done. by exists r, v.
Defined.
