(* ===== verification/StressSilent.v ===== *)
(** * The stress test: the routers fall silent

    A distance in the vector a router works in never grows, and a router sends
    again only after one has become smaller.  So there is a number, depending only
    on the routers and their links, that bounds what a turn of a router can still
    learn; for the whole program, every message that is sent, taken or used lowers
    the work that is left, and nothing raises it, whatever the order in which the
    threads run. *)

From Stdlib Require Import ZArith Lia.
From stdpp Require Import gmap list.
From S2P Require Import Prelude Topology Router RouterProps CheckDone Stress StressShared.
Open Scope Z_scope.

(** ** Sums *)

Definition sum_Z (l : list Z) : Z := foldr Z.add 0 l.
#[global] Arguments sum_Z : simpl never.

Lemma sum_Z_cons a l : sum_Z (a :: l) = a + sum_Z l.
Proof. done. Qed.

Lemma sum_Z_insert l i a b : l !! i = Some a -> sum_Z (<[i := b]> l) = sum_Z l - a + b.
Proof.
  revert i. induction l as [|c l IH]; intros [|i] Hi; simplify_eq/=; rewrite !sum_Z_cons; [lia|]. rewrite (IH i Hi). lia.
Qed.

Lemma sum_Z_bounds l u : (forall i a, l !! i = Some a -> 0 <= a <= u) -> 0 <= sum_Z l <= Z.of_nat (length l) * u.
Proof.
  induction l as [|c l IH]; intros Hl; [done|]. rewrite sum_Z_cons. cbn [length]. specialize (Hl 0%nat c eq_refl) as Hc.
  assert (H : 0 <= sum_Z l <= Z.of_nat (length l) * u) by (apply IH; intros i a Hi; by apply (Hl (S i))). lia.
Qed.

(** The sum over all routers, and what it becomes when one of them changes. *)
Definition sum_over (n : nat) (f : nat -> Z) : Z := sum_Z (f <$> seq 0 n).

Lemma sum_over_change n f g i : (i < n)%nat -> (forall k, k <> i -> g k = f k) -> sum_over n g = sum_over n f - f i + g i.
Proof.
  intros Hi Hk. unfold sum_over.
  assert (E : g <$> seq 0 n = <[i := g i]> (f <$> seq 0 n)).
  { apply list_eq. intros k. destruct (decide (k = i)) as [->|Hne].
    - rewrite list_lookup_insert_eq by (by rewrite length_fmap, length_seq). by rewrite list_lookup_fmap, lookup_seq_lt.
    - rewrite list_lookup_insert_ne by congruence. rewrite !list_lookup_fmap. destruct (decide (k < n)%nat).
      + rewrite lookup_seq_lt by done. simpl. by rewrite Hk.
      + by rewrite lookup_seq_ge by lia. }
  rewrite E. apply sum_Z_insert. by rewrite list_lookup_fmap, lookup_seq_lt.
Qed.

Lemma sum_over_ext n f g : (forall k, g k = f k) -> sum_over n g = sum_over n f.
Proof. intros H. unfold sum_over. f_equal. by apply list_fmap_ext. Qed.

Lemma sum_over_bounds n f u : (forall k, (k < n)%nat -> 0 <= f k <= u) -> 0 <= sum_over n f <= Z.of_nat n * u.
Proof.
  intros H. unfold sum_over. pose proof (sum_Z_bounds (f <$> seq 0 n) u) as Hb. rewrite length_fmap, length_seq in Hb. apply Hb. intros i a Hi.
  rewrite list_lookup_fmap in Hi. apply fmap_Some in Hi as (k & Hk & ->). apply lookup_seq in Hk as [-> Hk]. by apply H.
Qed.

(** ** What a turn makes of the distances *)

(** The distances a router works in. *)
Definition next_dist (r : router_t) : list Z := match vectors r !! next_state r with Some v => dist v | None => [] end.

(** It falls whenever a distance falls, and when the buffers are rotated. *)
Definition potential (r : router_t) : Z := 2 * sum_Z (next_dist r) + Z.b2z (changed r).

(** A router that has sent everything and learned something rotates at once. *)
Definition calm (r : router_t) : Prop := select_count r = 2%nat -> changed r = false.

Section turns.
Context (n : nat) (topology : list Z).
Hypothesis Hmat : matrix_ok n topology.

(** The work a router may still do, a message to send counting three. *)
Definition weight (r : router_t) : Z := (3 * Z.of_nat n + 1) * potential r + 3 * (Z.of_nat (select_count r) - 2).

Definition lowers (ds ds' : list Z) : Prop := length ds' = length ds /\ forall x d d', ds !! x = Some d -> ds' !! x = Some d' -> d' <= d.

Lemma lowers_refl ds : lowers ds ds.
Proof using. split; [done|]. intros x d d' Hd Hd'. simplify_eq. lia. Qed.

Lemma merge_loop_sum nd nb old b0 ds b :
  for_loop n 0 (merge_element nd nb) (old, b0) = Done (ds, b) ->
  length ds = length old /\ (ds = old /\ b = b0 \/ b = true /\ sum_Z ds < sum_Z old).
Proof using Type.
  clear Hmat.
  intros Hl. apply (for_loop_Done (fun _ (s : list Z * bool) => length s.1 = length old /\
    (s.1 = old /\ s.2 = b0 \/ s.2 = true /\ sum_Z s.1 < sum_Z old))) in Hl; [done|split; [done|by left]|].
  intros x [ds1 b1] [ds2 b2] _ [Hlen Hs] He. simpl in *. unfold merge_element in He.
  apply bind_Done in He as (m & _ & He). apply bind_Done in He as (d & Hd & He). apply array_get_Done in Hd. cbv zeta in He.
  destruct (_ <? d) eqn:E.
  - apply Z.ltb_lt in E. apply bind_Done in He as (ds3 & H3 & He). apply Done_inj in He. injection He as <- <-.
    unfold array_set in H3. case_decide; [|done]. apply Done_inj in H3 as <-. rewrite length_insert. split; [done|right]. split; [done|].
    rewrite (sum_Z_insert _ _ _ _ Hd). destruct Hs as [[-> _]|[_ Hs]]; lia.
  - apply Done_inj in He. by injection He as <- <-.
Qed.

Lemma next_dist_ok i r : router_ok n topology i r -> length (next_dist r) = n /\ forall x d, next_dist r !! x = Some d -> 0 <= d <= inf_distance.
Proof using Type.
  clear Hmat.
  intros Hr. unfold next_dist. destruct (get_vector_ok n topology i r (next_state r) Hr) as (v & _ & -> & Hv); [set_solver|].
  split; [apply Hv|]. intros x d Hd. by apply (vo_dist _ _ _ _ Hv) in Hd as [? _].
Qed.

Lemma total_count_bound i r : router_ok n topology i r -> (select_count r <= total_select_count r <= 2 + n)%nat.
Proof using Type.
  clear Hmat.
  intros Hr. destruct (ro_count _ _ _ _ Hr) as [Hc Hlen]. pose proof (Permutation_length (ro_channels _ _ _ _ Hr)) as Hp.
  rewrite !length_fmap, length_drop in Hp. unfold neighbour_list in Hp.
  pose proof (length_filter (fun j => j <> i /\ link n topology i j <> inf_distance) (seq 0 n)) as Hf. rewrite length_seq in Hf. lia.
Qed.

Lemma weight_bounds i r : router_ok n topology i r ->
  0 <= weight r <= (3 * Z.of_nat n + 1) * (2 * (Z.of_nat n * inf_distance) + 1) + 3 * Z.of_nat n.
Proof using Type.
  clear Hmat.
  intros Hr. destruct (next_dist_ok i r Hr) as [Hl Hd]. pose proof (sum_Z_bounds _ _ Hd) as Hs. rewrite Hl in Hs.
  destruct (ro_count _ _ _ _ Hr) as [Hc _]. pose proof (total_count_bound i r Hr).
  assert (Hp : 0 <= potential r <= 2 * (Z.of_nat n * inf_distance) + 1) by (unfold potential; destruct (changed r); simpl; lia).
  unfold weight. nia.
Qed.

(** Merging a neighbour's vector. *)
Lemma merge_learns i r v r' :
  router_ok n topology i r -> vector_ok n topology (src v) v -> (src v < n)%nat -> link n topology i (src v) <> inf_distance ->
  merge n topology r v = Done r' ->
  lowers (next_dist r) (next_dist r') /\ potential r' <= potential r /\ select_count r' = select_count r /\
  forall x d m, next_dist r' !! x = Some d -> dist v !! x = Some m -> d <= link n topology i (src v) + m.
Proof using Hmat.
  intros Hr Hv Hs Hinf Hm. destruct (ro_index _ _ _ _ Hr) as [Hi Hin].
  destruct (get_vector_ok n topology i r (next_state r) Hr) as (x & Egx & Ex & Hx); [set_solver|].
  destruct (merge_loop_ok n topology Hmat i (src v) x v (changed r) Hx Hv Hin Hs Hinf) as ([ds b] & El & [Hvec Hle Hway _]).
  unfold merge, get_link_distance in Hm. rewrite Hi, (get_link_ok n topology i (src v)) in Hm by done.
  cbn [mbind outcome_bind] in Hm. apply bind_Done in Hm as (u & _ & Hm). rewrite Egx in Hm. cbn [mbind outcome_bind] in Hm.
  rewrite El in Hm. cbn [mbind outcome_bind] in Hm. apply Done_inj in Hm as <-.
  assert (En : next_dist r = dist x) by (unfold next_dist; by rewrite Ex).
  assert (En' : next_dist (set_vectors r (<[next_state r := Vector (src x) (epoch x) ds]> (vectors r)) b) = ds).
  { unfold next_dist. simpl. by rewrite lookup_insert_eq. }
  destruct (merge_loop_sum _ _ _ _ _ _ El) as [Hlen Hsum]. rewrite En, En'. split; [|split; [|split; [done|]]].
  - split; [done|]. intros y d d' Hd Hd'. by apply (Hle y).
  - unfold potential. rewrite En, En'. simpl. destruct Hsum as [[-> ->]|[-> Hsum]]; [lia|]. destruct (changed r); simpl; lia.
  - intros y d m Hd Hm. apply (Hway y); [|done|done]. apply lookup_lt_Some in Hd. pose proof (vo_length _ _ _ _ Hvec) as E. simpl in E. lia.
Qed.

(** Rotating the buffers. *)
Lemma cycle_learns i r r' : router_ok n topology i r -> select_count r = 2%nat -> changed r = true -> cycle r = Done r' ->
  next_dist r' = next_dist r /\ changed r' = false /\ weight r' < weight r.
Proof using Hmat.
  intros Hr Hc Hch Hm. destruct (cycle_ok n topology Hmat i r Hr) as (r2 & E2 & Hr' & Hch' & Hcount). rewrite Hm in E2. injection E2 as <-.
  assert (Hn : next_dist r' = next_dist r).
  { destruct (get_vector_ok n topology i r (next_state r) Hr) as (c & Ec & Ec' & _); [set_solver|].
    unfold cycle in Hm. rewrite Ec in Hm. cbn [mbind outcome_bind] in Hm. apply bind_Done in Hm as (x & _ & Hm). apply Done_inj in Hm as <-.
    unfold next_dist. simpl. by rewrite lookup_insert_eq, Ec'. }
  split; [done|]. split; [done|]. pose proof (total_count_bound i r' Hr').
  unfold weight, potential. rewrite Hn, Hch', Hch, Hc. simpl. lia.
Qed.

Definition turn_input (i : nat) (r : router_t) (k : nat) (m : option distance_vector_t) : Prop :=
  match m with
  | Some v => k = 1%nat /\ vector_ok n topology (src v) v /\ (src v < n)%nat /\ link n topology i (src v) <> inf_distance
  | None => k = 1%nat \/ (2 <= k < select_count r)%nat
  end.

(** One turn: the distances only fall, and what is merged counts; a message sent
    pays for itself. *)
Record learns (i k : nat) (m : option distance_vector_t) (r r' : router_t) : Prop := {
  le_lowers : lowers (next_dist r) (next_dist r');
  le_calm : calm r';
  le_weight : weight r' + (if (2 <=? k)%nat then 3 else 0) <= weight r;
  le_merged v x d e : m = Some v -> next_dist r' !! x = Some d -> dist v !! x = Some e -> d <= link n topology i (src v) + e;
  le_question : calm r -> k = 1%nat -> m = None -> r' = r
}.

Lemma turn_learns i r k m r' out : router_ok n topology i r -> turn_input i r k m ->
  router_step n topology r (Selected k m) = Done (Some r', out) -> learns i k m r r'.
Proof using Hmat.
  intros Hr Hin Hs. unfold router_step in Hs. apply bind_Done in Hs as (u & _ & Hs). apply bind_Done in Hs as ([r1 o] & E1 & Hs).
  apply bind_Done in Hs as (r2 & E2 & Hs). apply Done_inj in Hs. injection Hs as -> _.
  assert (Hmid : router_ok n topology i r1 /\ lowers (next_dist r) (next_dist r1) /\
    weight r1 + (if (2 <=? k)%nat then 3 else 0) <= weight r /\
    (forall v x d e, m = Some v -> next_dist r1 !! x = Some d -> dist v !! x = Some e -> d <= link n topology i (src v) + e) /\
    (k = 1%nat -> m = None -> r1 = r)).
  { destruct m as [v|]; [destruct Hin as (-> & Hv & Hs & Hinf)|destruct Hin as [-> |Hk]]; simpl in E1.
    - apply bind_Done in E1 as (r3 & E3 & E1). apply Done_inj in E1. injection E1 as <- _.
      destruct (merge_vector_ok n topology Hmat i r v Hr Hv Hs Hinf) as (r4 & E4 & Hok & _). rewrite E3 in E4. injection E4 as <-.
      destruct (merge_learns i r v r3 Hr Hv Hs Hinf E3) as (H1 & H2 & H3 & H4). split_done.
      + change (2 <=? 1)%nat with false. cbv iota. unfold weight. rewrite H3, Z.add_0_r. apply Z.add_le_mono_r, Z.mul_le_mono_nonneg_l; [lia|done].
      + intros v' x d e [= <-]. apply H4.
    - apply Done_inj in E1. injection E1 as <- _. split; [done|]. split; [apply lowers_refl|]. split; [simpl; lia|done].
    - rewrite (proj2 (Nat.eqb_neq k 1)) in E1 by lia. apply bind_Done in E1 as (r3 & E3 & E1). apply Done_inj in E1. injection E1 as <- _.
      destruct (retire_entry_ok n topology i r k Hr Hk) as (r4 & E4 & Hok & Hv & Hch & Hc). rewrite E3 in E4. injection E4 as <-.
      destruct (ro_count _ _ _ _ Hr) as [Hcl Hlen]. destruct (lookup_lt_is_Some_2 (select_list r) k) as [e He]; [lia|].
      destruct (entry_target n topology i r k e Hr ltac:(lia) He) as (j & Hj & _).
      destruct (retire_works n topology i r k e r3 j Hr Hk He Hj E3) as [[Hb _ _] _]. unfold buffers in Hb. injection Hb as _ _ _ Hn.
      assert (En : next_dist r3 = next_dist r) by (unfold next_dist; by rewrite Hv, Hn). rewrite En.
      split; [done|]. split; [apply lowers_refl|]. split; [|split; [done|lia]].
      rewrite (proj2 (Nat.leb_le _ _)) by lia. unfold weight, potential. rewrite En, Hch, Hc. lia. }
  destruct Hmid as (Hr1 & Hlow & Hw & Hme & Hq). destruct ((select_count r1 =? 2)%nat && changed r1) eqn:Ec.
  - apply andb_prop in Ec as [Ec1 Ec2]. apply Nat.eqb_eq in Ec1.
    destruct (cycle_learns i r1 r' Hr1 Ec1 Ec2 E2) as (En & Ech & Hlt). split.
    + by rewrite En.
    + by intros _.
    + lia.
    + intros v x d e Hm. rewrite En. by apply Hme.
    + intros Hcalm Hk Hm. rewrite (Hq Hk Hm) in *. rewrite (Hcalm Ec1) in Ec2. done.
  - apply Done_inj in E2 as <-. split; try done. intros Hc. apply Nat.eqb_eq in Hc. rewrite Hc in Ec. exact Ec.
Qed.
End turns.

(** ** What counts *)

(** The vectors among messages. *)
Definition letters (l : list (option vector_ptr)) : Z := Z.of_nat (length (omap id l)).

Lemma letters_app l k : letters (l ++ k) = letters l + letters k.
Proof. unfold letters. rewrite omap_app, length_app. lia. Qed.

Lemma letters_bounds l : 0 <= letters l <= Z.of_nat (length l).
Proof. unfold letters. assert (length (omap id l) <= length l)%nat; [|lia]. induction l as [|[m|] l IH]; [done| |].
  - change (omap id (Some m :: l)) with (m :: omap id l). simpl. lia.
  - change (omap id (None :: l)) with (omap id l). simpl. lia.
Qed.

(** The action moves a vector: it is sent, taken or used. *)
Definition moves_vector (a : action) (s : stress) : bool :=
  match a with
  | Sends _ _ => true
  | Receives i => match queues s !! i with Some (Some _ :: _) => true | _ => false end
  | Uses i => match threads s !! i with Some (Thread _ (Received (Some _))) => true | _ => false end
  | _ => false
  end.

Section work.
Context (n : nat) (topology solution : list Z) (main_buffer_size secondary_buffer_size : nat).
Hypothesis Hmat : matrix_ok n topology.
Hypothesis Hsym : forall i j, (i < n)%nat -> (j < n)%nat -> link n topology j i <> inf_distance -> link n topology i j <> inf_distance.
Hypothesis Hsize : (main_buffer_size <= 1)%nat.
Implicit Types (s : stress) (r : router_t).

Local Abbreviation act_here := (act n topology solution main_buffer_size secondary_buffer_size).

Fixpoint vector_moves (l : list action) s : nat :=
  match l with
  | [] => O
  | a :: l => match act_here a s with
              | Some (Done s') => (if moves_vector a s then 1 else 0) + vector_moves l s'
              | _ => O
              end
  end.

(** The work that is left: of the routers, and two for a vector in a channel, one
    for a vector in a router's hands. *)
Definition thread_weight s (i : nat) : Z := match threads s !! i with Some t => weight n (router t) | None => 0 end.
Definition held_by s (i : nat) : list (option vector_ptr) := match threads s !! i with Some t => held t | None => [] end.
Definition mail_weight s (i : nat) : Z := 2 * letters (default [] (queues s !! i)) + letters (held_by s i).
Definition work_left s : Z := sum_over n (thread_weight s) + sum_over n (mail_weight s).

Definition work_bound : Z := Z.of_nat n * ((3 * Z.of_nat n + 1) * (2 * (Z.of_nat n * inf_distance) + 1) + 3 * Z.of_nat n).

Lemma work_same s s' : (forall k, thread_weight s' k = thread_weight s k) -> (forall k, mail_weight s' k = mail_weight s k) ->
  work_left s' = work_left s.
Proof using Type. clear. intros H1 H2. unfold work_left. by rewrite (sum_over_ext n _ _ H1), (sum_over_ext n _ _ H2). Qed.

Lemma work_change s s' i j : (i < n)%nat -> (j < n)%nat ->
  (forall k, k <> i -> thread_weight s' k = thread_weight s k) -> (forall k, k <> j -> mail_weight s' k = mail_weight s k) ->
  work_left s' = work_left s - thread_weight s i + thread_weight s' i - mail_weight s j + mail_weight s' j.
Proof using Type.
  clear. intros Hi Hj H1 H2. unfold work_left.
  rewrite (sum_over_change n (thread_weight s) (thread_weight s') i), (sum_over_change n (mail_weight s) (mail_weight s') j) by done. lia.
Qed.

Lemma work_nonneg s : stress_ok n topology main_buffer_size s -> 0 <= work_left s.
Proof using Type.
  clear Hmat Hsym Hsize. intros Hs. unfold work_left.
  assert (H1 : 0 <= sum_over n (thread_weight s) <= work_bound).
  { apply sum_over_bounds. intros k Hk. unfold thread_weight. apply (so_threads _ _ _ _ Hs) in Hk as [[r d] Ek]. rewrite Ek.
    apply (weight_bounds n topology k). by apply (so_net _ _ _ _ Hs), (net_lookup s k r d). }
  assert (H2 : 0 <= sum_over n (mail_weight s) <= Z.of_nat n * (2 * Z.of_nat main_buffer_size + 1)).
  { apply sum_over_bounds. intros k Hk. unfold mail_weight, held_by. destruct (so_queues _ _ _ _ Hs) as [Hl Hq].
    destruct (lookup_lt_is_Some_2 (queues s) k) as [q Eq]; [lia|]. rewrite Eq. simpl. pose proof (letters_bounds q). specialize (Hq k q Eq).
    assert (0 <= letters (match threads s !! k with Some t => held t | None => [] end) <= 1); [|lia].
    destruct (threads s !! k) as [[r []]|]; try done. unfold held. simpl. pose proof (letters_bounds [m]). simpl in *. lia. }
  lia.
Qed.

(** *** Turns of routers *)

(** A router uses what it holds. *)
Lemma uses_turn s i r m : stress_ok n topology main_buffer_size s -> threads s !! i = Some (Thread r (Received m)) -> exists v r' out d,
  router_uses n topology s i = Some (Done (set_thread s i (Thread r' d))) /\
  router_step n topology r (Selected 1 v) = Done (Some r', out) /\ learns n topology i 1 v r r' /\
  held (Thread r' d) = [] /\ (m = None -> exists a, d = Answering a) /\ (m <> None -> d = Selecting) /\ d <> Returned /\
  match m with
  | Some (j, p) => exists rj w, net_of s !! j = Some rj /\ vectors rj !! p = Some w /\ v = Some w /\ src w = j
  | None => v = None
  end.
Proof using Hmat Hsym.
  intros Hs Ei. pose proof (net_lookup _ _ _ _ Ei) as Hr. pose proof (so_net _ _ _ _ Hs i r Hr) as Hrok.
  assert (Hv : exists v, match m with None => Done None | Some p => v ← read_vector (net_of s) p; Done (Some v) end = Done v /\
    possible n topology (net_of s) i r (Selected 1 v) /\ turn_input n topology i r 1 v /\
    match m with Some (j, p) => exists rj w, net_of s !! j = Some rj /\ vectors rj !! p = Some w /\ v = Some w /\ src w = j | None => v = None end).
  { destruct m as [[j p]|]; [|exists None; split_done; by left].
    assert (Hin : Some (j, p) ∈ inbox s i) by (unfold inbox; rewrite Ei; left).
    destruct (message_read n topology main_buffer_size s i j p Hs Hin) as (rj & w & Hj & Hw & -> & _ & Ho). exists (Some w).
    destruct (so_mail _ _ _ _ Hs _ _ _ Hin) as (Hi & Hjn & Hne & Hl). pose proof (so_net _ _ _ _ Hs j rj Hj) as Hjok.
    pose proof (ro_vectors _ _ _ _ Hjok _ _ Hw) as Hwok. pose proof (vo_src _ _ _ _ Hwok) as Esrc.
    split; [done|]. split; [exact Ho|]. split; [|by exists rj, w]. simpl. rewrite Esrc. split_done. by apply Hsym. }
  destruct Hv as (v & Ev & Hpos & Hinp & Hm).
  destruct (router_step_ok n topology Hmat Hsym (net_of s) i r 1 v (so_net _ _ _ _ Hs) Hr Hpos) as (r' & out & Estep & _).
  exists v, r', out. eexists. split; [unfold router_uses; rewrite Ei, Ev; cbn [mbind outcome_bind]; rewrite Estep; reflexivity|].
  split; [done|]. split; [by eapply turn_learns|]. cbn [default]. split; [by destruct out|]. split; [|split; [|split; [by destruct out|done]]].
  - intros ->. subst v. unfold router_step in Estep. simpl in Estep. apply bind_Done in Estep as (r2 & _ & E). apply Done_inj in E.
    injection E as _ <-. by eexists.
  - intros Hne. destruct m as [[j p]|]; [|done]. destruct Hm as (rj & w & _ & _ & -> & _). unfold router_step in Estep. simpl in Estep.
    apply bind_Done in Estep as ([r2 o] & E2 & Estep). apply bind_Done in E2 as (r3 & _ & E2). apply Done_inj in E2. injection E2 as <- <-.
    apply bind_Done in Estep as (r4 & _ & E). apply Done_inj in E. by injection E as _ <-.
Qed.

(** It sends. *)
Lemma sends_turn s i b o : stress_ok n topology main_buffer_size s -> router_sends n topology main_buffer_size s i b = Some o ->
  exists r r' out j s1 e,
  threads s !! i = Some (Thread r Scanning) /\ router_step n topology r (Selected b None) = Done (Some r', out) /\
  learns n topology i b None r r' /\ (2 <= b < select_count r)%nat /\ select_list r !! b = Some e /\ channel e = RouterChannel j /\
  j <> i /\ deliver main_buffer_size s j (Some (i, curr_state r)) = Some s1 /\ o = Done (set_thread s1 i (Thread r' Selecting)).
Proof using Hmat Hsym Hsize.
  intros Hs Ha. destruct (sends_ok n topology main_buffer_size Hmat Hsym Hsize s i b o Hs Ha)
    as (r & r' & out & j & s1 & Ei & Est & Hne & Hd & -> & _ & _).
  unfold router_sends in Ha. rewrite Ei in Ha. destruct (select_list r !! b) as [[[|j'] [] p]|] eqn:Eb; try done.
  destruct (b <? select_count r)%nat eqn:Elt; [|done]. apply Nat.ltb_lt in Elt.
  pose proof (net_lookup _ _ _ _ Ei) as Hr. pose proof (so_net _ _ _ _ Hs i r Hr) as Hrok.
  assert (Hb : (2 <= b)%nat).
  { destruct (decide (2 <= b)%nat) as [?|Hlt]; [done|]. exfalso.
    assert (Hf : is_send (Entry (RouterChannel j') true p) = false); [|done].
    apply (so_first _ _ _ _ Hs i r b); [done|]. by rewrite lookup_take_lt by lia. }
  destruct (ro_entries _ _ _ _ Hrok b _ Eb Hb) as [_ Ep]. simpl in Ep. subst p.
  cbn [fmap option_fmap option_map] in Ha.
  destruct (deliver main_buffer_size s j' (Some (i, curr_state r))) as [s2|] eqn:Ed; [|done].
  rewrite Est in Ha. cbn [mbind outcome_bind default] in Ha.
  assert (j' = j) as ->.
  { clear Hne. destruct (deliver_ok n topology main_buffer_size s j' _ s2 Hs Ed) as (_ & _ & _ & _ & Hin2 & Ht2).
    destruct (deliver_ok n topology main_buffer_size s j _ s1 Hs Hd) as (_ & _ & _ & _ & Hin1 & Ht1).
    apply Some_inj, Done_inj in Ha. pose proof (f_equal queues Ha) as E. simpl in E.
    destruct (decide (j' = j)) as [?|Hne]; [done|]. exfalso. specialize (Hin2 j'). specialize (Hin1 j').
    rewrite decide_True in Hin2 by done. rewrite decide_False in Hin1 by done. unfold inbox in Hin1, Hin2. rewrite Ht1 in Hin1.
    rewrite Ht2 in Hin2. rewrite E, Hin1 in Hin2. apply (f_equal length) in Hin2. rewrite !length_app in Hin2. simpl in Hin2. lia. }
  exists r, r', out, j, s1. eexists. split_done. eapply turn_learns; [done|done| |done]. by right.
Qed.

(** *** Every action *)

Lemma thread_weight_set s i r d k : threads s !! i = Some (Thread r d) -> forall r' d',
  thread_weight (set_thread s i (Thread r' d')) k = if decide (k = i) then weight n r' else thread_weight s k.
Proof using Type.
  clear. intros Ei r' d'. unfold thread_weight. simpl. case_decide as E; [subst; by rewrite lookup_insert_eq|by rewrite lookup_insert_ne by congruence].
Qed.

Lemma mail_weight_set s i t k :
  mail_weight (set_thread s i t) k = if decide (k = i) then 2 * letters (default [] (queues s !! i)) + letters (held t) else mail_weight s k.
Proof using Type.
  clear. unfold mail_weight, held_by. simpl. case_decide as E; [subst; by rewrite lookup_insert_eq|by rewrite lookup_insert_ne by congruence].
Qed.

(** A router that is left as it is and holds no message goes on. *)
Lemma doing_work s i r d d' : threads s !! i = Some (Thread r d) -> held (Thread r d) = [] -> held (Thread r d') = [] ->
  work_left (set_thread s i (Thread r d')) = work_left s.
Proof using Type.
  clear. intros Ei Hd Hd'. apply work_same; intros k.
  - rewrite (thread_weight_set s i r d) by done. case_decide as E; [subst; unfold thread_weight; by rewrite Ei|done].
  - rewrite mail_weight_set, Hd'. case_decide as E; [subst; unfold mail_weight, held_by; by rewrite Ei, Hd|done].
Qed.

Lemma deliver_mail s j m s1 : deliver main_buffer_size s j m = Some s1 ->
  threads s1 = threads s /\ main s1 = main s /\ answers s1 = answers s /\ done_closed s1 = done_closed s /\
  (forall k, thread_weight s1 k = thread_weight s k) /\
  forall k, mail_weight s1 k = mail_weight s k + if decide (k = j) then 2 * letters [m] else 0.
Proof using Type.
  clear. unfold deliver. destruct (queues s !! j) as [q|] eqn:Eq; [|done]. cbn [mbind option_bind]. destruct (_ <? _)%nat; [|done].
  intros [= <-]. split_done. intros k. unfold mail_weight, held_by. simpl. case_decide as E.
  - subst k. rewrite list_lookup_insert_eq by (by eapply lookup_lt_Some). rewrite Eq. simpl. rewrite letters_app. lia.
  - rewrite list_lookup_insert_ne by congruence. lia.
Qed.

Lemma act_work a s s' : stress_ok n topology main_buffer_size s -> act_here a s = Some (Done s') ->
  work_left s' + (if moves_vector a s then 1 else 0) <= work_left s.
Proof using Hmat Hsym Hsize.
  intros Hs Ha. destruct a; cbn [moves_vector]; simpl in Ha.
  - unfold router_looks in Ha. destruct (threads s !! i) as [[r []]|] eqn:Ei; try done. destruct (queues s !! i) as [[|]|]; try done.
    destruct (done_closed s); [done|]. injection Ha as <-. rewrite (doing_work s i r Selecting) by done. lia.
  - unfold router_rescans in Ha. destruct (threads s !! i) as [[r []]|] eqn:Ei; try done. injection Ha as <-.
    rewrite (doing_work s i r Scanning) by done. lia.
  - destruct (sends_turn s i k _ Hs Ha) as (r & r' & out & j & s1 & e & Ei & _ & Hl & Hk & _ & _ & Hne & Hd & E).
    injection E as ->. destruct (deliver_mail s j _ s1 Hd) as (Ht & _ & _ & _ & Hw1 & Hm1).
    pose proof (proj2 (so_threads _ _ _ _ Hs i) ltac:(rewrite Ei; by eexists)) as Hi.
    assert (Hj : (j < n)%nat).
    { unfold deliver in Hd. destruct (queues s !! j) eqn:Eq; [|done]. apply lookup_lt_Some in Eq. by rewrite (proj1 (so_queues _ _ _ _ Hs)) in Eq. }
    assert (Ei1 : threads s1 !! i = Some (Thread r Scanning)) by (by rewrite Ht).
    rewrite (work_change s _ i j); [|done|done|..].
    + rewrite (thread_weight_set s1 i r Scanning), decide_True by done. rewrite mail_weight_set, decide_False, Hm1, decide_True by done.
      unfold thread_weight. rewrite Ei. pose proof (le_weight _ _ _ _ _ _ _ Hl) as Hw. rewrite (proj2 (Nat.leb_le 2 k)) in Hw by lia.
      change (letters [Some (i, curr_state r)]) with 1. simpl. lia.
    + intros x Hx. rewrite (thread_weight_set s1 i r Scanning), decide_False by done. apply Hw1.
    + intros x Hx. rewrite mail_weight_set. case_decide as Exi; [subst x|by rewrite Hm1, decide_False, Z.add_0_r by done].
      pose proof (Hm1 i) as Hmi. rewrite decide_False in Hmi by done. unfold mail_weight, held_by in Hmi. rewrite Ei1, Ei in Hmi.
      unfold mail_weight, held_by. rewrite Ei. unfold held in *. cbn [doing] in *. lia.
  - unfold router_receives in Ha. destruct (threads s !! i) as [[r []]|] eqn:Ei; try done. destruct (queues s !! i) as [[|m q]|] eqn:Eq; try done.
    injection Ha as <-. pose proof (proj2 (so_threads _ _ _ _ Hs i) ltac:(rewrite Ei; by eexists)) as Hi.
    rewrite (work_change s _ i i Hi Hi).
    + unfold mail_weight, held_by, thread_weight. simpl. rewrite list_lookup_insert_eq by (by eapply lookup_lt_Some).
      rewrite lookup_insert_eq, Ei, Eq. simpl.
      change (m :: q) with ([m] ++ q). rewrite letters_app. unfold held. cbn [doing]. change (letters []) with 0.
      destruct m as [p|]; [change (letters [Some p]) with 1|change (letters [None]) with 0]; lia.
    + intros k Hk. unfold thread_weight. simpl. by rewrite lookup_insert_ne by congruence.
    + intros k Hk. unfold mail_weight, held_by. simpl. by rewrite list_lookup_insert_ne, lookup_insert_ne by congruence.
  - destruct (threads s !! i) as [[r [| |m| |]]|] eqn:Ei; try (unfold router_uses in Ha; by rewrite Ei in Ha).
    destruct (uses_turn s i r m Hs Ei) as (v & r' & out & d & E & _ & Hl & Hd & _). rewrite E in Ha. injection Ha as <-.
    pose proof (proj2 (so_threads _ _ _ _ Hs i) ltac:(rewrite Ei; by eexists)) as Hi.
    rewrite (work_change s _ i i Hi Hi).
    + rewrite (thread_weight_set s i r (Received m)), mail_weight_set, !decide_True, Hd by done. unfold thread_weight, mail_weight, held_by.
      rewrite Ei. pose proof (le_weight _ _ _ _ _ _ _ Hl) as Hw. change (letters []) with 0. simpl in *. change (2 <=? 1)%nat with false in Hw.
      cbv iota in Hw. clear Hd. unfold held. cbn [doing]. destruct m as [p|]; [change (letters [Some p]) with 1|change (letters [None]) with 0]; lia.
    + intros k Hk. by rewrite (thread_weight_set s i r (Received m)), decide_False.
    + intros k Hk. by rewrite mail_weight_set, decide_False.
  - unfold router_answers in Ha. destruct (threads s !! i) as [[r [| | |b|]]|] eqn:Ei; try done. destruct (_ <? _)%nat; [|done]. injection Ha as <-.
    change (work_left (set_answers ?x _)) with (work_left x). rewrite (doing_work s i r (Answering b)) by done. lia.
  - unfold router_stops in Ha. destruct (threads s !! i) as [[r []]|] eqn:Ei; try done. destruct (done_closed s); [|done].
    injection Ha as Ha. apply bind_Done in Ha as ([r' out] & Hst & Ha). apply Done_inj in Ha as <-.
    assert (r' = None) as ->.
    { unfold router_step in Hst. apply bind_Done in Hst as (? & _ & Hst). by apply Done_inj in Hst; injection Hst as <- _. }
    cbn [default]. rewrite (doing_work s i r Selecting) by done. lia.
  - unfold main_asks in Ha. destruct (main s) as [again c i| | | | |]; try done. destruct (deliver _ s i None) as [s1|] eqn:Ed; [|done].
    injection Ha as <-. destruct (deliver_mail s i _ s1 Ed) as (_ & _ & _ & _ & Hw1 & Hm1). change (work_left (set_main ?x _)) with (work_left x).
    rewrite (work_same s s1); [lia|done|]. intros k. rewrite Hm1. change (letters [None]) with 0. case_decide; lia.
  - unfold main_collects in Ha. destruct (answers s) as [|b q]; [done|]. apply collect_keeps in Ha as [m ->].
    change (work_left (set_main ?x _)) with (work_left x). change (work_left (set_answers ?x _)) with (work_left x). lia.
  - unfold main_compares in Ha. destruct (main s); try done. injection Ha as Ha. apply bind_Done in Ha as (? & _ & Ha).
    apply Done_inj in Ha as <-. change (work_left (set_main ?x _)) with (work_left x). lia.
  - unfold main_closes in Ha. destruct (main s); try done. injection Ha as <-. change (work_left (set_closed (set_main ?x _))) with (work_left x). lia.
  - unfold main_joins in Ha. destruct (main s); try done. destruct (forallb _ _); [|done]. injection Ha as <-.
    change (work_left (set_main ?x _)) with (work_left x). lia.
Qed.

(** What a run moves is paid for by the work at its start. *)
Lemma vector_moves_work l s s' : stress_ok n topology main_buffer_size s ->
  run_actions n topology solution main_buffer_size secondary_buffer_size l s = Some s' ->
  stress_ok n topology main_buffer_size s' /\ work_left s' + Z.of_nat (vector_moves l s) <= work_left s.
Proof using Hmat Hsym Hsize.
  revert s. induction l as [|a l IH]; intros s Hs Hl; simpl in *; [injection Hl as ->; split; [done|lia]|].
  destruct (act_here a s) as [[s1|]|] eqn:Ea; try done.
  destruct (act_ok n topology main_buffer_size secondary_buffer_size Hmat Hsym Hsize solution a s s1 Hs Ea) as [H1 _].
  destruct (IH s1 H1 Hl) as [Hs' Hw]. split; [done|]. pose proof (act_work a s s1 Hs Ea). destruct (moves_vector a s); lia.
Qed.
End work.

(** ** Theorem *)

Section theorem.
Context `{Malloc} (n : nat) (topology solution : list Z).
Hypothesis Hmat : matrix_ok n topology.
Hypothesis Hsym : forall i j, (i < n)%nat -> (j < n)%nat -> link n topology j i <> inf_distance -> link n topology i j <> inf_distance.

(** C15: the routers fall silent.  Whatever the threads do, in a whole run vectors
    are sent, taken and used at most [work_bound n] times, a number that depends
    only on the number of routers; after that the only messages are the questions
    and answers of [check_done]. *)
Theorem routers_fall_silent lives s0 s l :
  run_stress_starts n topology 1 1 lives = Done s0 -> run_actions n topology solution 1 1 l s0 = Some s ->
  Z.of_nat (vector_moves n topology solution 1 1 l s0) <= work_bound n.
Proof using Hmat Hsym.
  intros Hst Hl. destruct (starts_ok n topology 1 1 Hmat lives s0 Hst) as (H0 & _ & _ & _ & Hin & _).
  destruct (vector_moves_work n topology solution 1 1 Hmat Hsym (Nat.le_refl 1) l s0 s H0 Hl) as [Hs Hw].
  pose proof (work_nonneg n topology 1 s Hs) as Hnn.
  assert (Hb : work_left n s0 <= work_bound n); [|lia]. unfold work_left.
  assert (H1 : 0 <= sum_over n (thread_weight n s0) <= work_bound n).
  { apply sum_over_bounds. intros k Hk. unfold thread_weight. apply (so_threads _ _ _ _ H0) in Hk as [[r d] Ek]. rewrite Ek.
    apply (weight_bounds n topology k). by apply (so_net _ _ _ _ H0), (net_lookup s0 k r d). }
  assert (H2 : 0 <= sum_over n (mail_weight s0) <= Z.of_nat n * 0); [|lia].
  apply sum_over_bounds. intros k Hk. unfold mail_weight, held_by. pose proof (Hin k) as Ek. unfold inbox in Ek.
  apply app_eq_nil in Ek as [-> ->]. done.
Qed.
End theorem.

Lemma routers_fall_silent_witness : exists s0 s,
  @run_stress_starts 3 line_topology 1 1 malloc_first (fun _ => ∅) = Done s0 /\
  run_actions 3 line_topology [] 1 1 [Looks 0; Sends 0 2; Receives 1; Uses 1]%nat s0 = Some s /\
  vector_moves 3 line_topology [] 1 1 [Looks 0; Sends 0 2; Receives 1; Uses 1]%nat s0 = 3%nat /\ 3 <= work_bound 3.
Proof.
  destruct (@run_stress_starts 3 line_topology 1 1 malloc_first (fun _ => ∅)) as [s0|] eqn:E0; [|by vm_compute in E0].
  destruct (run_actions 3 line_topology [] 1 1 [Looks 0; Sends 0 2; Receives 1; Uses 1]%nat s0) as [s|] eqn:E;
    [|vm_compute in E0; injection E0 as <-; by vm_compute in E].
  pose proof (@routers_fall_silent malloc_first 3 line_topology [] line_matrix line_symmetric (fun _ => ∅) s0 s _ E0 E) as Hb.
  assert (Hm : vector_moves 3 line_topology [] 1 1 [Looks 0; Sends 0 2; Receives 1; Uses 1]%nat s0 = 3%nat).
  { vm_compute in E0. injection E0 as <-. vm_compute. reflexivity. }
  exists s0, s. rewrite Hm in Hb. split_done.
Defined.
