(* ===== verification/StressHeard.v ===== *)
(** * The stress test: who knows what

    For two neighbours, the receiver has merged the current vector of the sender,
    or it is on its way, or the sender is still to send it.  So in a quiet state,
    with nothing to send and nothing to use, every router holds the shortest
    distances. *)

From Stdlib Require Import ZArith Lia.
From stdpp Require Import gmap list.
From S2P Require Import Prelude Topology Router RouterProps CheckDone Stress StressShared StressSilent.
Open Scope Z_scope.

#[export] Instance sent_to_dec r k m j : Decision (sent_to r (Selected k m) j).
Proof.
  refine (cast_if (decide ((2 <= k)%nat /\ channel <$> select_list r !! k = Some (RouterChannel j)))).
  - destruct a as [Hk (e & Ee & He)%fmap_Some]. by exists k, m, e.
  - intros (k' & m' & e & [= <- <-] & Hk & He & Hc). apply n. split; [done|]. by rewrite He, <- Hc.
Defined.

Section heard.
Context (n : nat) (topology solution : list Z) (main_buffer_size secondary_buffer_size : nat).
Hypothesis Hmat : matrix_ok n topology.
Hypothesis Hsym : forall i j, (i < n)%nat -> (j < n)%nat -> link n topology j i <> inf_distance -> link n topology i j <> inf_distance.
Hypothesis Hsize : (main_buffer_size <= 1)%nat.
Implicit Types (s : stress) (r : router_t).

Local Abbreviation act_here := (act n topology solution main_buffer_size secondary_buffer_size).

(** Router [i] has merged the current vector of its neighbour [j]. *)
Definition informed (i j : nat) (ri rj : router_t) : Prop :=
  forall c x d m, vectors rj !! curr_state rj = Some c -> next_dist ri !! x = Some d -> dist c !! x = Some m -> d <= link n topology i j + m.

Record exchange_ok s : Prop := {
  ex_calm i r : net_of s !! i = Some r -> calm r;
  ex_heard i j ri rj : net_of s !! i = Some ri -> net_of s !! j = Some rj -> j <> i -> link n topology j i <> inf_distance ->
    pending rj i \/ Some (j, curr_state rj) ∈ inbox s i \/ informed i j ri rj
}.

(** No router changes and no vector is lost. *)
Lemma exchange_frame s s' : exchange_ok s -> net_of s' = net_of s ->
  (forall i m, Some m ∈ inbox s i -> Some m ∈ inbox s' i) -> exchange_ok s'.
Proof using Type.
  clear. intros [Hc Hh] En Hin. split; rewrite En; [done|]. intros i j ri rj Hi Hj Hne Hl.
  destruct (Hh i j ri rj Hi Hj Hne Hl) as [?|[?|?]]; [by left|right; left; by apply Hin|by right; right].
Qed.

(** Router [i] takes a turn: what it uses it merges, what it sends is on its way. *)
Lemma exchange_turn s s' i r k m r' out :
  stress_ok n topology main_buffer_size s -> exchange_ok s -> net_of s !! i = Some r -> (k = 1 \/ 2 <= k < select_count r)%nat ->
  router_step n topology r (Selected k m) = Done (Some r', out) -> learns n topology i k m r r' -> router_ok n topology i r' ->
  net_of s' = <[i := r']> (net_of s) ->
  (forall x j p, Some (j, p) ∈ inbox s x -> Some (j, p) ∈ inbox s' x \/
     x = i /\ exists rj w, net_of s !! j = Some rj /\ vectors rj !! p = Some w /\ m = Some w /\ src w = j) ->
  (forall x, sent_to r (Selected k m) x -> Some (i, curr_state r) ∈ inbox s' x) -> exchange_ok s'.
Proof using Type.
  clear Hmat Hsym Hsize. intros Hs [Hcalm Hheard] Hr Hk Hstep Hl Hr'ok En Hin Hsent.
  pose proof (so_net _ _ _ _ Hs) as Hnet. pose proof (Hnet i r Hr) as Hrok.
  destruct (step_effect n topology i r (Selected k m) r' out Hrok Hk Hstep) as (r1 & Hw & Hrot & Hpend).
  split; rewrite En.
  { intros j rj [[<- <-]|[_ Hj]]%lookup_insert_Some; [apply Hl|by apply (Hcalm j)]. }
  intros a b ra rb Ha Hb Hne Hlk. destruct (decide (a = i)) as [->|Hai].
  - (* the receiver *)
    rewrite lookup_insert_eq in Ha. injection Ha as <-. rewrite lookup_insert_ne in Hb by congruence.
    destruct (Hheard i b r rb Hr Hb Hne Hlk) as [?|[Hm|Hinf]]; [by left| |right; right].
    + right. destruct (Hin i b _ Hm) as [?|(_ & rj & w & Hj & Hvw & -> & Hsrc)]; [by left|right].
      rewrite Hb in Hj. injection Hj as <-. intros c x d e Hc Hd He. rewrite Hvw in Hc. injection Hc as <-.
      rewrite <- Hsrc. by apply (le_merged _ _ _ _ _ _ _ Hl w x).
    + intros c x d e Hc Hd He. destruct (le_lowers _ _ _ _ _ _ _ Hl) as [Hlen Hlow].
      destruct (lookup_lt_is_Some_2 (next_dist r) x) as [d0 Hd0]; [rewrite <- Hlen; by eapply lookup_lt_Some|].
      specialize (Hlow x d0 d Hd0 Hd). specialize (Hinf c x d0 e Hc Hd0 He). lia.
  - rewrite lookup_insert_ne in Ha by congruence. destruct (decide (b = i)) as [->|Hbi].
    + (* the sender *)
      rewrite lookup_insert_eq in Hb. injection Hb as <-.
      destruct Hrot as [->|Hrot].
      2: { left. destruct (ro_index _ _ _ _ (Hnet a ra Ha)) as [_ Han]. apply (all_pending n topology i); [done|apply Hrot|done|congruence|done]. }
      pose proof (wk_buffers _ _ Hw) as Hbuf. unfold buffers in Hbuf. injection Hbuf as _ _ Ecur _.
      assert (Hcn : curr_state r <> next_state r).
      { pose proof (ro_distinct _ _ _ _ Hrok) as Hnd. intros E. rewrite E in Hnd. apply NoDup_cons in Hnd as [_ Hnd].
        apply NoDup_cons in Hnd as [_ Hnd]. apply NoDup_cons in Hnd as [Hnd _]. apply Hnd. left. }
      destruct (Hheard a i ra r Ha Hr Hne Hlk) as [Hp|[Hm|Hinf]].
      * destruct (decide (sent_to r (Selected k m) a)) as [Hst|Hno]; [right; left; rewrite Ecur; by apply Hsent|left; by apply Hpend].
      * right; left. rewrite Ecur. destruct (Hin a i _ Hm) as [?|[E _]]; [done|congruence].
      * right; right. intros c x d e. rewrite Ecur, (wk_writes _ _ Hw) by done. apply Hinf.
    + rewrite lookup_insert_ne in Hb by congruence. destruct (Hheard a b ra rb Ha Hb Hne Hlk) as [?|[Hm|?]]; [by left| |by right; right].
      right; left. destruct (Hin a b _ Hm) as [?|[E _]]; [done|congruence].
Qed.

Lemma act_exchange a s s' : stress_ok n topology main_buffer_size s -> exchange_ok s -> act_here a s = Some (Done s') -> exchange_ok s'.
Proof using Hmat Hsym Hsize.
  intros Hs Hx Ha. destruct (act_ok n topology main_buffer_size secondary_buffer_size Hmat Hsym Hsize solution a s s' Hs Ha) as [Hs' _].
  pose proof (so_net _ _ _ _ Hs') as Hnet'. destruct a; simpl in Ha.
  - unfold router_looks in Ha. destruct (threads s !! i) as [[r []]|] eqn:Ei; try done. destruct (queues s !! i) as [[|]|] eqn:Eq; try done.
    destruct (done_closed s); [done|]. injection Ha as <-. apply (exchange_frame s); [done|by eapply net_set_doing|].
    intros k m. rewrite inbox_set_thread. case_decide as E; [subst|done]. unfold inbox. by rewrite Ei.
  - unfold router_rescans in Ha. destruct (threads s !! i) as [[r []]|] eqn:Ei; try done. injection Ha as <-.
    apply (exchange_frame s); [done|by eapply net_set_doing|]. intros k m. rewrite inbox_set_thread. case_decide as E; [subst|done]. unfold inbox. by rewrite Ei.
  - destruct (sends_turn n topology main_buffer_size Hmat Hsym Hsize s i k _ Hs Ha)
      as (r & r' & out & j & s1 & e & Ei & Est & Hl & Hk & He & Hc & Hne & Hd & E). injection E as ->.
    destruct (deliver_ok n topology main_buffer_size s j _ s1 Hs Hd) as (En & _ & _ & _ & Hin & Ht).
    assert (Ei1 : threads s1 !! i = Some (Thread r Scanning)) by (by rewrite Ht).
    assert (Hin' : forall x, inbox (set_thread s1 i (Thread r' Selecting)) x = inbox s1 x).
    { intros x. rewrite inbox_set_thread. case_decide as E; [subst|done]. unfold inbox. by rewrite Ei1. }
    apply (exchange_turn s _ i r k None r' out); try done.
    + by eapply net_lookup.
    + by right.
    + apply Hnet'. rewrite net_set_thread. by rewrite lookup_insert_eq.
    + by rewrite net_set_thread, En.
    + intros x j' p Hp. left. rewrite Hin', Hin. case_decide as E; [subst|done]. set_solver.
    + intros x (k' & m' & e' & [= <- <-] & _ & He' & Hc'). rewrite He in He'. injection He' as <-. rewrite Hc in Hc'. injection Hc' as <-.
      rewrite Hin', Hin, decide_True by done. set_solver.
  - destruct (receives_ok n topology main_buffer_size s i s' Hs Ha) as [_ Hin]. apply (exchange_frame s); [done| |intros k m; by rewrite Hin].
    unfold router_receives in Ha. destruct (threads s !! i) as [[r []]|] eqn:Ei; try done. destruct (queues s !! i) as [[|m q]|]; try done. injection Ha as <-.
    exact (net_set_doing s i r _ _ Ei).
  - destruct (threads s !! i) as [[r [| |m| |]]|] eqn:Ei; try (unfold router_uses in Ha; by rewrite Ei in Ha).
    destruct (uses_turn n topology main_buffer_size Hmat Hsym s i r m Hs Ei) as (v & r' & out & d & E & Est & Hl & Hd & _ & _ & _ & Hm).
    rewrite E in Ha. injection Ha as <-.
    apply (exchange_turn s _ i r 1 v r' out); try done.
    + by eapply net_lookup.
    + by left.
    + apply Hnet'. rewrite net_set_thread. by rewrite lookup_insert_eq.
    + by rewrite net_set_thread.
    + intros x j p Hp. rewrite inbox_set_thread. case_decide as Exi; [subst x|by left]. rewrite Hd. unfold inbox in Hp. rewrite Ei in Hp.
      apply elem_of_cons in Hp as [<- |Hp]; [right|by left]. destruct Hm as (rj & w & Hj & Hw & -> & Hsrc). split; [done|]. by exists rj, w.
    + intros x (k' & m' & e' & [= <- <-] & Hk & _). lia.
  - unfold router_answers in Ha. destruct (threads s !! i) as [[r [| | |b|]]|] eqn:Ei; try done. destruct (_ <? _)%nat; [|done]. injection Ha as <-.
    apply (exchange_frame s); [done|exact (net_set_doing s i r _ Selecting Ei)|]. intros k m.
    change (inbox (set_answers ?x _) k) with (inbox x k). rewrite inbox_set_thread. case_decide as E; [subst|done]. unfold inbox. by rewrite Ei.
  - unfold router_stops in Ha. destruct (threads s !! i) as [[r []]|] eqn:Ei; try done. destruct (done_closed s); [|done].
    injection Ha as Ha. apply bind_Done in Ha as ([r' out] & Hst & Ha). apply Done_inj in Ha as <-.
    assert (r' = None) as ->.
    { unfold router_step in Hst. apply bind_Done in Hst as (? & _ & Hst). by apply Done_inj in Hst; injection Hst as <- _. }
    apply (exchange_frame s); [done|by eapply net_set_doing|]. intros k m. rewrite inbox_set_thread. case_decide as E; [subst|done]. unfold inbox. by rewrite Ei.
  - unfold main_asks in Ha. destruct (main s) as [again c i| | | | |]; try done. destruct (deliver _ s i None) as [s1|] eqn:Ed; [|done].
    injection Ha as <-. destruct (deliver_ok n topology main_buffer_size s i _ s1 Hs Ed) as (En & _ & _ & _ & Hin & _).
    apply (exchange_frame s); [done|exact En|]. intros k m. change (inbox (set_main ?x _) k) with (inbox x k). rewrite Hin. case_decide; [subst; set_solver|done].
  - unfold main_collects in Ha. destruct (answers s) as [|b q]; [done|]. apply collect_keeps in Ha as [m ->]. by apply (exchange_frame s).
  - unfold main_compares in Ha. destruct (main s); try done. injection Ha as Ha. apply bind_Done in Ha as (? & _ & Ha).
    apply Done_inj in Ha as <-. by apply (exchange_frame s).
  - unfold main_closes in Ha. destruct (main s); try done. injection Ha as <-. by apply (exchange_frame s).
  - unfold main_joins in Ha. destruct (main s); try done. destruct (forallb _ _); [|done]. injection Ha as <-. by apply (exchange_frame s).
Qed.

(** At the start everything is still to be sent. *)
Lemma starts_exchange `{Malloc} lives s : run_stress_starts n topology main_buffer_size secondary_buffer_size lives = Done s -> exchange_ok s.
Proof using Hmat.
  clear Hsym Hsize. intros Hst. destruct (starts_ok n topology main_buffer_size secondary_buffer_size Hmat lives s Hst) as (Hs & _).
  unfold run_stress_starts in Hst. apply bind_Done in Hst as (u1 & _ & Hst). apply bind_Done in Hst as (u2 & _ & Hst).
  apply bind_Done in Hst as (ts & Hts & Hst). apply Done_inj in Hst as <-.
  assert (Hfresh : forall i t, ts !! i = Some t -> select_count (router t) = total_select_count (router t) /\ changed (router t) = false).
  { refine (for_loop_Done (fun _ (ts : gmap nat thread) => forall i t, ts !! i = Some t ->
      select_count (router t) = total_select_count (router t) /\ changed (router t) = false) n 0 _ ∅ ts _ _ Hts).
    - intros i t. by rewrite lookup_empty.
    - intros k b b' _ Hb Hbody. apply bind_Done in Hbody as (r & Hr & Hbody). apply Done_inj in Hbody as <-.
      intros i t [[<- <-]|[_ Hi]]%lookup_insert_Some; [|by apply (Hb i)]. unfold router_start in Hr. apply bind_Done in Hr as (ds & _ & Hr).
      do 4 apply bind_Done in Hr as ([? ?] & _ & Hr). apply bind_Done in Hr as (nbs & _ & Hr). by apply Done_inj in Hr as <-. }
  split.
  - intros i r Hi _. apply net_lookup_inv in Hi as [d Hi]. apply (Hfresh i (Thread r d) Hi).
  - intros i j ri rj Hi Hj Hne Hl. left. destruct (ro_index _ _ _ _ (so_net _ _ _ _ Hs i ri Hi)) as [_ Hin].
    pose proof (so_net _ _ _ _ Hs j rj Hj) as Hjok. apply net_lookup_inv in Hj as [d Hj].
    apply (all_pending n topology j); [done|apply (Hfresh j (Thread rj d) Hj)|done|congruence|done].
Qed.

(** ** Quiet states *)

(** Nobody has anything to send, and no vector is on its way. *)
Definition quiet s : Prop :=
  (forall i r, net_of s !! i = Some r -> select_count r = 2%nat /\ changed r = false) /\ forall i m, Some m ∉ inbox s i.

Lemma quiet_solves s : stress_ok n topology main_buffer_size s -> exchange_ok s -> quiet s ->
  forall i r c x, net_of s !! i = Some r -> vectors r !! curr_state r = Some c -> (x < n)%nat ->
    exists d, dist c !! x = Some d /\ shortest n topology n i x d.
Proof using Hmat Hsym.
  clear Hsize. intros Hs [_ Hheard] [Hq Hmail]. apply local_optimum_solves; [done|done|apply Hs| |].
  - intros i Hi. apply (so_threads _ _ _ _ Hs) in Hi as [[r d] Ei]. exists r. by eapply net_lookup.
  - intros i j ri rj c cj x d m Hi Hj Hne Hl Hc Hcj Hd Hm. destruct (Hheard i j ri rj Hi Hj ltac:(congruence) Hl) as [Hp|[Hp|Hinf]].
    + destruct Hp as (k & e & Hk & _). destruct (Hq j rj Hj). lia.
    + by apply Hmail in Hp.
    + apply (Hinf cj x d m Hcj); [|done]. pose proof (so_net _ _ _ _ Hs i ri Hi) as Hok.
      destruct (get_vector_ok n topology i ri (next_state ri) Hok) as (v & _ & Hv & _); [set_solver|].
      destruct (ro_next _ _ _ _ Hok c v Hc Hv) as [Hsame _]. unfold next_dist. rewrite Hv, Hsame by (by apply (Hq i ri)). done.
Qed.
End heard.
