(* ===== verification/StressSafe.v ===== *)
(** * The stress test: what can go wrong

    The main thread of [run_stress] asks every router once in each round and gets
    one answer from each, so the pointers it keeps are all there when it follows
    them.  Of all the assertions of the program only two are left that an
    interleaving may violate: the comparison with the solution and the last one of
    [router].  [StressFooled] shows that the first of them can fail. *)

From Stdlib Require Import ZArith Lia.
From stdpp Require Import gmap list.
From S2P Require Import Prelude Topology Router RouterProps CheckDone Stress StressShared.
Open Scope Z_scope.

(** ** Questions and answers *)

(** The questions router [i] has not answered yet. *)
Definition is_question (m : option vector_ptr) : bool := match m with None => true | Some _ => false end.
Definition answer_of (t : option thread) : option (option vector_ptr) := match t with Some (Thread _ (Answering a)) => Some a | _ => None end.
Definition answering (t : option thread) : nat := match answer_of t with Some _ => 1 | None => 0 end.
Definition owed (s : stress) (i : nat) : nat := length (filter is_question (inbox s i)) + answering (threads s !! i).

(** [p] is one of the buffers of router [j]. *)
Definition points_to (net : gmap nat router_t) (j : nat) (p : loc) : Prop := exists r, net !! j = Some r /\ p ∈ buffers r.

Definition answer_ok (net : gmap nat router_t) (o : nat) (a : option vector_ptr) : Prop :=
  forall j p, a = Some (j, p) -> j = o /\ points_to net j p.

Section main.
Context (n : nat) (topology : list Z) (main_buffer_size secondary_buffer_size : nat).
Implicit Types (s : stress) (c : list (option vector_ptr)).

(** The first [asked] routers were asked; those of [Q] owe an answer, those of [A]
    have theirs in the channel, and those of [D] are done. *)
Record asked_ok s (Q A D : list nat) (asked : nat) : Prop := {
  as_all : Q ++ A ++ D ≡ₚ seq 0 asked;
  as_owed i : owed s i = if decide (i ∈ Q) then 1%nat else 0%nat;
  as_answers : Forall2 (answer_ok (net_of s)) A (answers s);
  as_answering i a : answer_of (threads s !! i) = Some a -> answer_ok (net_of s) i a
}.

Definition completed_ok s c : Prop :=
  length c = n /\ forall i j p, c !! i = Some (Some (j, p)) -> j = i /\ points_to (net_of s) j p.
Definition filled c (l : list nat) : Prop := forall i, i ∈ l -> exists q, c !! i = Some (Some q).

Definition main_ok s : Prop :=
  match main s with
  | Asking again c i => (i < n)%nat /\ completed_ok s c /\ (again = true -> filled c (seq 0 n)) /\ exists Q A, asked_ok s Q A [] i
  | Collecting again c valid todo =>
      completed_ok s c /\ (again = true -> filled c (seq 0 n)) /\
      exists Q A D, asked_ok s Q A D n /\ todo = (length Q + length A)%nat /\ (valid = true -> filled c D)
  | Comparing c => completed_ok s c /\ filled c (seq 0 n)
  | _ => True
  end.

(** *** Pointers stay valid *)

Lemma evolves_points net net' j p : evolves net net' -> points_to net j p -> points_to net' j p.
Proof.
  intros Hev (r & Hr & Hp). destruct (Hev j r Hr) as (r' & Hr' & Hc). exists r'. split; [done|].
  destruct Hc as [->|(r1 & Hw & Hc)]; [done|]. rewrite <- (wk_buffers _ _ Hw) in Hp. destruct Hc as [->|Hrot]; [done|].
  rewrite (rt_buffers _ _ Hrot). unfold buffers in Hp. set_solver.
Qed.

Lemma evolves_answer net net' o a : evolves net net' -> answer_ok net o a -> answer_ok net' o a.
Proof. intros Hev Ha j p E. destruct (Ha j p E) as [? ?]. split; [done|]. by eapply evolves_points. Qed.

Lemma evolves_completed s s' c : evolves (net_of s) (net_of s') -> completed_ok s c -> completed_ok s' c.
Proof. intros Hev [Hl Hc]. split; [done|]. intros i j p Hi. destruct (Hc i j p Hi). split; [done|]. by eapply evolves_points. Qed.

(** Who owes an answer does not change. *)
Lemma asked_frame s s' Q A D k : evolves (net_of s) (net_of s') -> answers s' = answers s -> (forall i, owed s' i = owed s i) ->
  (forall i a, answer_of (threads s' !! i) = Some a -> answer_ok (net_of s') i a \/ answer_of (threads s !! i) = Some a) ->
  asked_ok s Q A D k -> asked_ok s' Q A D k.
Proof.
  intros Hev Ha Ho Hans [H1 H2 H3 H4]. split; [done| | |].
  - intros i. by rewrite Ho.
  - rewrite Ha. eapply Forall2_impl; [exact H3|]. intros o a. by apply evolves_answer.
  - intros i a Hi. destruct (Hans i a Hi) as [?|Ha0]; [done|]. eapply evolves_answer; [done|by eapply H4].
Qed.

Lemma main_frame s s' : evolves (net_of s) (net_of s') -> main s' = main s -> answers s' = answers s ->
  (forall i, owed s' i = owed s i) ->
  (forall i a, answer_of (threads s' !! i) = Some a -> answer_ok (net_of s') i a \/ answer_of (threads s !! i) = Some a) ->
  main_ok s -> main_ok s'.
Proof.
  intros Hev Hm Ha Ho Hans. unfold main_ok. rewrite Hm. destruct (main s) as [again c i|again c valid todo|c| | |]; try done.
  - intros (Hi & Hc & Hf & Q & A & Has). split; [done|]. split; [by eapply evolves_completed|]. split; [done|]. exists Q, A.
    by eapply asked_frame.
  - intros (Hc & Hf & Q & A & D & Has & Ht & Hd). split; [by eapply evolves_completed|]. split; [done|]. exists Q, A, D.
    split; [by eapply asked_frame|done].
  - intros [Hc Hf]. split; [by eapply evolves_completed|done].
Qed.

(** *** The main thread *)

Section collecting.
Hypothesis Hn : (0 < n)%nat.

Lemma filled_set c l o q : (o < length c)%nat -> filled c l -> filled (<[o := Some q]> c) (o :: l).
Proof using Hn.
  intros Ho Hf i [->|Hi]%elem_of_cons; [exists q; by rewrite list_lookup_insert_eq|].
  destruct (decide (i = o)) as [->|Hne]; [exists q; by rewrite list_lookup_insert_eq|]. rewrite list_lookup_insert_ne by congruence. by apply Hf.
Qed.

(** A pointer the main thread may follow leads to a vector of its owner. *)
Lemma points_read s j p : stress_ok n topology main_buffer_size s -> points_to (net_of s) j p ->
  exists v, read_vector (net_of s) (j, p) = Done v /\ vector_ok n topology j v /\ (j < n)%nat.
Proof using Hn.
  intros Hs (r & Hr & Hp). pose proof (so_net _ _ _ _ Hs j r Hr) as Hrok.
  destruct (get_vector_ok n topology j r p Hrok Hp) as (v & Eg & Ev & Hv). exists v.
  split; [pose proof (Hr : (net_of s : network) !! j = Some r) as Hr'; unfold read_vector; cbn [fst snd]; by rewrite Hr'|].
  split; [done|]. apply Hrok.
Qed.

Lemma start_check_ok s : (forall i, owed s i = 0%nat) -> answers s = [] -> 
  (forall i a, answer_of (threads s !! i) = Some a -> answer_ok (net_of s) i a) -> main_ok (set_main s (start_check n)).
Proof using Hn.
  intros Ho Ha Hans. unfold main_ok. simpl. split; [done|]. split.
  - split; [by rewrite length_replicate|]. intros i j p [Hi _]%lookup_replicate. done.
  - split; [done|]. exists [], []. split; [done| |simpl; rewrite Ha; constructor|done]. intros i. rewrite decide_False by apply not_elem_of_nil. apply Ho.
Qed.

(** The last answer of a round is in. *)
Lemma round_over s Q A D k : asked_ok s Q A D k -> (length Q + length A = 0)%nat -> (forall i, owed s i = 0%nat) /\ answers s = [] /\ D ≡ₚ seq 0 k.
Proof using Hn.
  intros [H1 H2 H3 H4] Hl. destruct Q; [|simpl in Hl; lia]. destruct A; [|simpl in Hl; lia]. split; [|split; [by apply Forall2_nil_inv_l in H3|done]].
  intros i. rewrite H2. by rewrite decide_False by apply not_elem_of_nil.
Qed.

Lemma collect_ok s Q A D o a again c valid todo :
  stress_ok n topology main_buffer_size s -> main s = Collecting again c valid (S todo) ->
  completed_ok s c -> (again = true -> filled c (seq 0 n)) -> (valid = true -> filled c D) ->
  asked_ok s Q A (o :: D) n -> todo = (length Q + length A)%nat -> answer_ok (net_of s) o a ->
  exists m, collect n s a = Some (Done (set_main s m)) /\ main_ok (set_main s m).
Proof using Hn.
  intros Hs Hm Hc Hf Hd Has Ht Ha. unfold collect. rewrite Hm. pose proof Hc as [Hlen Hown].
  assert (Hset : forall m c' valid', m = (if (todo =? 0)%nat then if (valid' : bool) then if again then Comparing c' else Asking true c' 0 else start_check n
      else Collecting again c' valid' todo) -> completed_ok s c' -> (again = true -> filled c' (seq 0 n)) -> (valid' = true -> filled c' (o :: D)) ->
      main_ok (set_main s m)).
  { intros m c' valid' -> Hc' Hf' Hd'. destruct (todo =? 0)%nat eqn:E.
    - apply Nat.eqb_eq in E. rewrite E in Ht. destruct (round_over s Q A (o :: D) n Has (eq_sym Ht)) as (Ho & Hans & HD).
      destruct valid'; [|apply start_check_ok; [done|done|by apply Has]].
      assert (Hall : filled c' (seq 0 n)) by (intros i Hi; apply Hd'; [done|]; by rewrite HD).
      destruct again; unfold main_ok; simpl; [by split|]. split; [done|]. split; [done|]. split; [done|]. exists [], [].
      split; [done| |simpl; rewrite Hans; constructor|apply Has]. intros i. rewrite decide_False by apply not_elem_of_nil. apply Ho.
    - unfold main_ok. simpl. split; [done|]. split; [done|]. exists Q, A, (o :: D). split; [|done].
      destruct Has as [H1 H2 H3 H4]. by split. }
  destruct a as [[j p]|].
  - destruct (Ha j p eq_refl) as [-> Hp]. destruct (points_read s o p Hs Hp) as (v & Hread & Hv & Ho). pose proof (vo_src _ _ _ _ Hv) as Esrc.
    destruct again.
    + assert (Hin : exists q, c !! o = Some (Some q)) by (apply Hf; [done|]; apply elem_of_seq; lia).
      destruct Hin as ([j' p'] & Eo). destruct (Hown o j' p' Eo) as [-> Hp']. destruct (points_read s o p' Hs Hp') as (v' & Hread' & _).
      assert (E : second_reply c (net_of s, Some (o, p)) valid = Done (if epoch v' =? epoch v then valid else false)).
      { unfold second_reply. cbn [fst snd]. rewrite Hread. cbn [mbind outcome_bind]. unfold read_completed, array_get. rewrite Esrc, Eo.
        cbn [mbind outcome_bind]. rewrite Hread'. done. }
      rewrite E. cbn [mbind outcome_bind]. eexists. split; [done|]. eapply (Hset _ c); [done|done|done|].
      intros _. intros i Hi. apply (Hf eq_refl). rewrite elem_of_seq. destruct Has as [H1 _ _ _].
      assert (Hi' : i ∈ seq 0 n) by (rewrite <- H1; set_solver). apply elem_of_seq in Hi'. lia.
    + assert (E : first_reply (net_of s, Some (o, p)) (c, valid) = Done (<[o := Some (o, p)]> c, valid)).
      { unfold first_reply. cbn [fst snd]. rewrite Hread. cbn [mbind outcome_bind]. rewrite Esrc, array_set_ok by lia. done. }
      rewrite E. cbn [mbind outcome_bind]. eexists. split; [done|]. eapply (Hset _ (<[o := Some (o, p)]> c)); [done| |done|].
      * split; [by rewrite length_insert|]. intros i j q [(-> & [= -> ->] & _)|[_ Hi]]%list_lookup_insert_Some; [done|by apply Hown].
      * intros Hval. apply filled_set; [lia|by apply Hd].
  - destruct again; simpl; (eexists; split; [done|]; eapply (Hset _ c false); done).
Qed.
End collecting.

(** *** The routers *)

Lemma questions_frame s s' : evolves (net_of s) (net_of s') -> main s' = main s -> answers s' = answers s ->
  (forall i, filter is_question (inbox s' i) = filter is_question (inbox s i)) ->
  (forall i, answer_of (threads s' !! i) = answer_of (threads s !! i)) -> main_ok s -> main_ok s'.
Proof.
  intros Hev Hm Ha Hq Hans. apply main_frame; try done.
  - intros i. unfold owed, answering. by rewrite Hq, Hans.
  - intros i a Hi. right. by rewrite <- Hans.
Qed.

(** A router that is not about to answer goes on without a message in its hands. *)
Lemma doing_frame s i r d d' : threads s !! i = Some (Thread r d) -> held (Thread r d) = [] -> held (Thread r d') = [] ->
  answer_of (Some (Thread r d)) = None -> answer_of (Some (Thread r d')) = None -> main_ok s -> main_ok (set_thread s i (Thread r d')).
Proof.
  intros Ei Hd Hd' Ha Ha'. apply questions_frame; try done.
  - rewrite (net_set_doing s i r d) by done. apply evolves_refl.
  - intros k. rewrite inbox_set_thread. case_decide as E; [subst|done]. unfold inbox. by rewrite Ei, Hd, Hd'.
  - intros k. simpl. destruct (decide (k = i)) as [->|Hne]; [by rewrite lookup_insert_eq, Ei, Ha, Ha'|by rewrite lookup_insert_ne by congruence].
Qed.

Lemma deliver_answers s j m s' : deliver main_buffer_size s j m = Some s' ->
  (forall i, answer_of (threads s' !! i) = answer_of (threads s !! i)) /\ main s' = main s /\ answers s' = answers s.
Proof.
  unfold deliver. destruct (queues s !! j) as [q|]; [|done]. cbn [mbind option_bind]. destruct (_ <? _)%nat; [|done]. by intros [= <-].
Qed.

Lemma question_answer r out r' : router_step n topology r (Selected 1 None) = Done (Some r', out) ->
  out = [None] \/ out = [Some (curr_state r)].
Proof.
  unfold router_step. intros Hs. apply bind_Done in Hs as (u & _ & Hs). apply bind_Done in Hs as ([r1 o] & E & Hs).
  simpl in E. apply Done_inj in E. injection E as <- <-. apply bind_Done in Hs as (r2 & _ & Hs). apply Done_inj in Hs.
  injection Hs as _ <-. destruct (_ && _); auto.
Qed.

Lemma message_no_answer r v out r' : router_step n topology r (Selected 1 (Some v)) = Done (Some r', out) -> out = [].
Proof.
  unfold router_step. intros Hs. apply bind_Done in Hs as (u & _ & Hs). apply bind_Done in Hs as ([r1 o] & E & Hs).
  simpl in E. apply bind_Done in E as (r3 & _ & E). apply Done_inj in E. injection E as <- <-.
  apply bind_Done in Hs as (r2 & _ & Hs). apply Done_inj in Hs. by injection Hs as _ <-.
Qed.

(** Router [i] gives its answer. *)
Lemma asked_answers s Q A D k i r a : asked_ok s Q A D k -> threads s !! i = Some (Thread r (Answering a)) ->
  exists Q', Q ≡ₚ i :: Q' /\ asked_ok (set_answers (set_thread s i (Thread r Selecting)) (answers s ++ [a])) Q' (A ++ [i]) D k.
Proof.
  intros [H1 H2 H3 H4] Ei. assert (Ha : answer_ok (net_of s) i a) by (apply H4; by rewrite Ei).
  assert (Hin : i ∈ Q).
  { destruct (decide (i ∈ Q)) as [?|Hn]; [done|]. exfalso. specialize (H2 i). rewrite decide_False in H2 by done.
    unfold owed, answering in H2. rewrite Ei in H2. simpl in H2. lia. }
  apply elem_of_Permutation in Hin as [Q' HQ]. exists Q'. split; [done|].
  assert (Hnd : NoDup (i :: Q')).
  { rewrite <- HQ. apply (NoDup_app Q (A ++ D)). rewrite H1. apply NoDup_seq. }
  apply NoDup_cons in Hnd as [Hni _].
  set (s1 := set_thread s i (Thread r Selecting)).
  assert (Hnet : net_of s1 = net_of s) by exact (net_set_doing s i r _ Selecting Ei).
  assert (Ho : forall x, owed s1 x = if decide (x ∈ Q') then 1%nat else 0%nat).
  { intros x. specialize (H2 x). unfold owed, answering in *. unfold s1. rewrite inbox_set_thread. destruct (decide (x = i)) as [->|Ex].
    - rewrite (decide_False (P := i ∈ Q')) by done. rewrite decide_True in H2 by (rewrite HQ; left). revert H2.
      unfold inbox. simpl. rewrite lookup_insert_eq, Ei. simpl. lia.
    - simpl. rewrite lookup_insert_ne by congruence. rewrite H2. rewrite (decide_ext (x ∈ Q) (x ∈ Q')); [done|].
      rewrite HQ, elem_of_cons. naive_solver. }
  assert (Hans : forall x b, answer_of (threads s1 !! x) = Some b -> answer_ok (net_of s) x b).
  { intros x b Hx. destruct (decide (x = i)) as [->|Hne]; [by (unfold s1 in Hx; simpl in Hx; rewrite lookup_insert_eq in Hx)|].
    apply H4. unfold s1 in Hx. simpl in Hx. by rewrite lookup_insert_ne in Hx by congruence. }
  split.
  - rewrite <- H1, HQ. solve_Permutation.
  - done.
  - change (Forall2 (answer_ok (net_of s1)) (A ++ [i]) (answers s ++ [a])). rewrite Hnet. apply Forall2_app; [done|]. by constructor.
  - change (forall x b, answer_of (threads s1 !! x) = Some b -> answer_ok (net_of s1) x b). by rewrite Hnet.
Qed.

(** Router [i] is asked. *)
Lemma asked_asks s s1 Q A i : stress_ok n topology main_buffer_size s -> asked_ok s Q A [] i -> deliver main_buffer_size s i None = Some s1 ->
  asked_ok s1 (i :: Q) A [] (S i).
Proof.
  intros Hs [H1 H2 H3 H4] Hd. destruct (deliver_ok n topology main_buffer_size s i None s1 Hs Hd) as (En & _ & _ & _ & Hin & _).
  destruct (deliver_answers s i None s1 Hd) as (Hans & _ & Ha).
  assert (Hni : i ∉ Q). { intros Hi. assert (Hi' : i ∈ seq 0 i) by (rewrite <- H1; set_solver). apply elem_of_seq in Hi'. lia. }
  split.
  - rewrite seq_S, <- H1. simpl. solve_Permutation.
  - intros x. specialize (H2 x). unfold owed, answering in *. rewrite Hin, Hans. destruct (decide (x = i)) as [->|Ex].
    + rewrite decide_True by left. rewrite decide_False in H2 by done. rewrite filter_app, length_app. simpl. 
      lia.
    + rewrite H2. rewrite (decide_ext (x ∈ Q) (x ∈ i :: Q)); [done|]. rewrite elem_of_cons. naive_solver.
  - by rewrite En, Ha.
  - intros x b Hx. rewrite En. apply H4. by rewrite <- Hans.
Qed.
End main.

(** ** Every action *)

Section actions.
Context (n : nat) (topology solution : list Z) (main_buffer_size secondary_buffer_size : nat).
Hypothesis Hmat : matrix_ok n topology.
Hypothesis Hsym : forall i j, (i < n)%nat -> (j < n)%nat -> link n topology j i <> inf_distance -> link n topology i j <> inf_distance.
Hypothesis Hsize : (main_buffer_size <= 1)%nat.
Hypothesis Hn : (0 < n)%nat.
Hypothesis Hsol : length solution = (n * n)%nat.
Implicit Types (s : stress).

Local Abbreviation act_here := (act n topology solution main_buffer_size secondary_buffer_size).

(** An action succeeds and keeps what the main thread relies on, or it is one of the
    two whose assertion is not settled by this. *)
Definition safe_result (a : action) (o : outcome stress) : Prop :=
  match o with
  | Done s' => main_ok n s'
  | Fault f => f = AssertFailed /\ (a = MainCompares \/ exists i, a = Stops i)
  end.

Lemma sends_main s i k o : stress_ok n topology main_buffer_size s -> main_ok n s -> act_here (Sends i k) s = Some o -> safe_result (Sends i k) o.
Proof using Hmat Hsym Hsize.
  intros Hs Hm Ha. destruct (sends_ok n topology main_buffer_size Hmat Hsym Hsize s i k o Hs Ha)
    as (r & r' & out & j & s1 & Ei & _ & Hne & Hd & -> & _ & Hin).
  destruct (act_ok n topology main_buffer_size secondary_buffer_size Hmat Hsym Hsize solution (Sends i k) s _ Hs Ha) as [_ Hev].
  destruct (deliver_ok n topology main_buffer_size s j _ s1 Hs Hd) as (_ & _ & _ & _ & Hin1 & _).
  destruct (deliver_answers main_buffer_size s j _ s1 Hd) as (Hans & Hmain & Hq).
  apply (questions_frame n s); try done.
  - intros x. rewrite Hin, Hin1. case_decide as E; [subst|done]. by rewrite filter_app, app_nil_r.
  - intros x. simpl. destruct (decide (x = i)) as [->|Hx]; [by rewrite lookup_insert_eq, Ei|]. by rewrite lookup_insert_ne by congruence.
Qed.

Lemma uses_main s i o : stress_ok n topology main_buffer_size s -> main_ok n s -> act_here (Uses i) s = Some o -> safe_result (Uses i) o.
Proof using Hmat Hsym Hsize.
  clear Hsol Hn. intros Hs Hm Ha. destruct (threads s !! i) as [[r [| |m| |]]|] eqn:Ei; try (simpl in Ha; unfold router_uses in Ha; by rewrite Ei in Ha).
  destruct (uses_ok n topology main_buffer_size Hmat Hsym Hsize s i r m Hs Ei) as (v & r' & out & d & E & Est & Ed & Hvm & Hs').
  pose proof Ha as Ha0. change (router_uses n topology s i = Some o) in Ha. rewrite E in Ha. injection Ha as <-.
  destruct (act_ok n topology main_buffer_size secondary_buffer_size Hmat Hsym Hsize solution (Uses i) s _ Hs Ha0) as [_ Hev].
  assert (Hi : inbox s i = m :: default [] (queues s !! i)) by (unfold inbox; by rewrite Ei).
  assert (Hi' : inbox (set_thread s i (Thread r' d)) i = default [] (queues s !! i)).
  { rewrite inbox_set_thread, decide_True by done. subst d. by destruct out. }
  assert (Hx : forall x, x <> i -> inbox (set_thread s i (Thread r' d)) x = inbox s x /\ threads (set_thread s i (Thread r' d)) !! x = threads s !! x).
  { intros x Hne. rewrite inbox_set_thread, decide_False by done. split; [done|]. simpl. by rewrite lookup_insert_ne by congruence. }
  destruct m as [p|].
  - destruct v as [v|]; [|by pose proof (proj1 Hvm eq_refl)]. pose proof (message_no_answer n topology r v out r' Est) as ->. subst d.
    apply (questions_frame n s); try done.
    + intros x. destruct (decide (x = i)) as [->|Hne]; [by rewrite Hi', Hi|by destruct (Hx x Hne) as [-> _]].
    + intros x. destruct (decide (x = i)) as [->|Hne]; [simpl; by rewrite lookup_insert_eq, Ei|by destruct (Hx x Hne) as [_ ->]].
  - assert (v = None) as -> by (by apply Hvm). apply question_answer in Est as Hout.
    assert (Hd : exists b, d = Answering b /\ (b = None \/ b = Some (i, curr_state r))) by (destruct Hout as [-> | ->]; subst d; eauto).
    destruct Hd as (b & Ed' & Hb). clear Ed. subst d.
    apply (main_frame n s); try done.
    + intros x. unfold owed, answering. destruct (decide (x = i)) as [->|Hne]; [|by destruct (Hx x Hne) as [-> ->]].
      rewrite Hi', Hi, filter_cons_True by done. simpl. rewrite lookup_insert_eq, Ei. simpl. lia.
    + intros x a Hxa. destruct (decide (x = i)) as [->|Hne]; [left|right; by destruct (Hx x Hne) as [_ <-]].
      simpl in Hxa. rewrite lookup_insert_eq in Hxa. simpl in Hxa. injection Hxa as <-. intros j p ->.
      destruct Hb as [?|[= -> ->]]; [done|]. split; [done|]. eapply evolves_points; [exact Hev|]. exists r.
      split; [by eapply net_lookup|set_solver].
Qed.

Lemma answers_main s i o : stress_ok n topology main_buffer_size s -> main_ok n s -> act_here (Answers i) s = Some o -> safe_result (Answers i) o.
Proof using Hn.
  clear Hmat Hsym Hsize Hsol. intros Hs Hm Ha. simpl in Ha. unfold router_answers in Ha. destruct (threads s !! i) as [[r [| | |a|]]|] eqn:Ei; try done.
  set (s1 := set_thread s i (Thread r Selecting)) in *.
  assert (Hnet : net_of s1 = net_of s) by exact (net_set_doing s i r _ Selecting Ei).
  assert (Hcomp : forall c, completed_ok n s c -> completed_ok n s1 c) by (intros c [? Hc]; split; [done|]; by rewrite Hnet).
  destruct (_ <? _)%nat; [|done]. injection Ha as <-. simpl. revert Hm. unfold main_ok. simpl.
  destruct (main s) as [again c k|again c valid todo|c| | |] eqn:E; try done.
  - intros (Hk & Hc & Hf & Q & A & Has). destruct (asked_answers s Q A [] k i r a Has Ei) as (Q' & _ & Hasn).
    split; [done|]. split; [by apply Hcomp|]. split; [done|]. by exists Q', (A ++ [i]).
  - intros (Hc & Hf & Q & A & D & Has & Ht & Hd). destruct (asked_answers s Q A D n i r a Has Ei) as (Q' & HQ & Hasn).
    split; [by apply Hcomp|]. split; [done|]. exists Q', (A ++ [i]), D. split; [done|]. split; [|done].
    rewrite length_app, Ht, HQ. simpl. lia.
  - intros [Hc Hf]. split; [by apply Hcomp|done].
Qed.

Lemma asks_main s o : stress_ok n topology main_buffer_size s -> main_ok n s -> act_here MainAsks s = Some o -> safe_result MainAsks o.
Proof using Type.
  clear Hmat Hsym Hsize Hsol Hn. intros Hs Hm Ha. simpl in Ha. unfold main_asks in Ha. unfold main_ok in Hm.
  destruct (main s) as [again c i| | | | |] eqn:E; try done. destruct Hm as (Hi & Hc & Hf & Q & A & Has).
  destruct (deliver main_buffer_size s i None) as [s1|] eqn:Ed; [|done]. injection Ha as <-.
  destruct (deliver_ok n topology main_buffer_size s i None s1 Hs Ed) as (En & _).
  pose proof (asked_asks n topology main_buffer_size s s1 Q A i Hs Has Ed) as Has1.
  assert (Hc1 : completed_ok n s1 c) by (destruct Hc as [? Hc]; split; [done|]; by rewrite En).
  simpl. destruct (S i <? n)%nat eqn:Elt; unfold main_ok; simpl.
  - apply Nat.ltb_lt in Elt. split; [done|]. split; [done|]. split; [done|]. exists (i :: Q), A. by split; apply Has1.
  - apply Nat.ltb_ge in Elt. assert (S i = n) as Esi by lia. split; [done|]. split; [done|]. exists (i :: Q), A, []. rewrite Esi in Has1.
    split; [by split; apply Has1|]. split; [|intros _ x Hx; by apply elem_of_nil in Hx].
    destruct Has1 as [H1 _ _ _]. apply Permutation_length in H1. rewrite app_nil_r, length_app, length_seq in H1. lia.
Qed.

Lemma collects_main s o : stress_ok n topology main_buffer_size s -> main_ok n s -> act_here MainCollects s = Some o -> safe_result MainCollects o.
Proof using Hn.
  clear Hmat Hsym Hsize Hsol. intros Hs Hm Ha. simpl in Ha. unfold main_collects in Ha. destruct (answers s) as [|a q] eqn:Eq; [done|].
  unfold main_ok in Hm. assert (Em : main (set_answers s q) = main s) by done. unfold collect in Ha. rewrite Em in Ha.
  destruct (main s) as [|again c valid [|todo]| | | |] eqn:E; try done; [by destruct again|].
  destruct Hm as (Hc & Hf & Q & A & D & [H1 H2 H3 H4] & Ht & Hd). rewrite Eq in H3. apply Forall2_cons_inv_r in H3 as (o' & A' & Hok & H3 & ->).
  destruct (collect_ok n topology main_buffer_size Hn (set_answers s q) Q A' D o' a again c valid todo) as (m & Hcol & Hmok); try done.
  - by apply (quiet_ok n topology main_buffer_size s).
  - split; [|done..]. rewrite <- H1. solve_Permutation.
  - simpl in Ht. lia.
  - unfold collect in Hcol. rewrite Em in Hcol. rewrite Hcol in Ha. by injection Ha as <-.
Qed.

(** A loop over faultless bodies, apart from one kind of fault. *)
Lemma for_loop_fault {A} (P : fault -> Prop) count from (body : nat -> A -> outcome A) (a : A) f :
  (forall i a f, (from <= i < from + count)%nat -> body i a = Fault f -> P f) -> for_loop count from body a = Fault f -> P f.
Proof using Type.
  clear. revert from a. induction count as [|count IH]; intros from a Hb Hl; [done|]. simpl in Hl.
  destruct (body from a) as [a'|f'] eqn:E; [|injection Hl as ->; apply (Hb from a); [lia|done]].
  apply (IH (S from) a'); [|done]. intros i b g Hi. apply Hb. lia.
Qed.

Lemma compares_main s o : stress_ok n topology main_buffer_size s -> main_ok n s -> act_here MainCompares s = Some o -> safe_result MainCompares o.
Proof using Hn Hsol.
  clear Hmat Hsym Hsize. intros Hs Hm Ha. simpl in Ha. unfold main_compares in Ha. unfold main_ok in Hm.
  destruct (main s) as [| |c| | |] eqn:E; try done. destruct Hm as [[Hlen Hown] Hf]. injection Ha as <-.
  destruct (for_loop _ _ _ _) as [u|f] eqn:El; [done|]. cbn [mbind outcome_bind safe_result]. split; [|by left].
  revert El. apply (for_loop_fault (fun f => f = AssertFailed)). intros i u g Hi. apply (for_loop_fault (fun f => f = AssertFailed)).
  intros j u' g' Hj. simpl in Hi, Hj. destruct (Hf i) as [[k p] Ei]; [by apply elem_of_seq; lia|]. destruct (Hown i k p Ei) as [-> Hp].
  destruct (points_read n topology main_buffer_size Hn s i p Hs Hp) as (v & Hread & Hv & _).
  destruct (vector_get n topology i v j Hv) as [d Ed]; [lia|].
  destruct (lookup_lt_is_Some_2 solution (element n i j)) as [x Ex]; [rewrite Hsol; apply element_lt; lia|].
  unfold check_element, read_completed, get_solution_distance, array_get. rewrite Ei. cbn [mbind outcome_bind]. rewrite Hread.
  cbn [mbind outcome_bind]. rewrite Ed, Ex. cbn [mbind outcome_bind]. unfold c_assert. destruct (d =? x); [done|]. by intros [= <-].
Qed.

Lemma act_main a s o : stress_ok n topology main_buffer_size s -> main_ok n s -> act_here a s = Some o -> safe_result a o.
Proof using Hmat Hsym Hsize Hn Hsol.
  intros Hs Hm Ha. destruct a; try by (eapply sends_main || eapply uses_main || eapply answers_main || eapply asks_main || eapply collects_main || eapply compares_main).
  - simpl in Ha. unfold router_looks in Ha. destruct (threads s !! i) as [[r []]|] eqn:Ei; try done.
    destruct (queues s !! i) as [[|]|]; try done. destruct (done_closed s); [done|]. injection Ha as <-. by eapply doing_frame.
  - simpl in Ha. unfold router_rescans in Ha. destruct (threads s !! i) as [[r []]|] eqn:Ei; try done. injection Ha as <-. by eapply doing_frame.
  - destruct o as [s'|f].
    + destruct (act_ok n topology main_buffer_size secondary_buffer_size Hmat Hsym Hsize solution _ s _ Hs Ha) as [_ Hev].
      simpl in Ha. unfold router_receives in Ha. destruct (threads s !! i) as [[r []]|] eqn:Ei; try done.
      destruct (queues s !! i) as [[|m q]|] eqn:Eq; try done.
      destruct (receives_ok n topology main_buffer_size s i s' Hs) as [_ Hin]; [unfold router_receives; by rewrite Ei, Eq|].
      injection Ha as <-. apply (questions_frame n s); try done; [intros x; by rewrite Hin|]. intros x. simpl.
      destruct (decide (x = i)) as [->|Hne]; [by rewrite lookup_insert_eq, Ei|by rewrite lookup_insert_ne by congruence].
    + simpl in Ha. unfold router_receives in Ha. destruct (threads s !! i) as [[r []]|]; try done. by destruct (queues s !! i) as [[|m q]|].
  - simpl in Ha. unfold router_stops in Ha. destruct (threads s !! i) as [[r []]|] eqn:Ei; try done. destruct (done_closed s); [|done].
    injection Ha as <-. simpl. unfold c_assert. destruct (negb (changed r)); simpl; [by eapply doing_frame|]. split; [done|right; by exists i].
  - simpl in Ha. unfold main_closes in Ha. destruct (main s); try done. by injection Ha as <-.
  - simpl in Ha. unfold main_joins in Ha. destruct (main s); try done. destruct (forallb _ _); [|done]. by injection Ha as <-.
Qed.

Lemma starts_main `{Malloc} lives s0 : run_stress_starts n topology main_buffer_size secondary_buffer_size lives = Done s0 -> main_ok n s0.
Proof using Hmat Hn.
  clear Hsym Hsize Hsol. intros Hst. destruct (starts_ok n topology main_buffer_size secondary_buffer_size Hmat lives s0 Hst) as (H0 & Hm0 & Ha0 & _ & Hin & Hdo).
  replace s0 with (set_main s0 (start_check n)) by (rewrite <- Hm0; by destruct s0).
  assert (Hno : forall i, answer_of (threads s0 !! i) = None).
  { intros i. destruct (threads s0 !! i) as [[r d]|] eqn:Ei; [|done]. pose proof (Hdo i _ Ei) as Hd. simpl in Hd. by subst d. }
  apply start_check_ok; [done| |done|].
  - intros i. unfold owed, answering. by rewrite Hin, Hno.
  - intros i b Hi. by rewrite Hno in Hi.
Qed.
End actions.

(** ** Theorem *)

Section theorem.
Context `{Malloc} (n : nat) (topology solution : list Z).
Hypothesis Hmat : matrix_ok n topology.
Hypothesis Hsym : forall i j, (i < n)%nat -> (j < n)%nat -> link n topology j i <> inf_distance -> link n topology i j <> inf_distance.

(** C20: what can go wrong in the stress test.  Take routers with links in both
    directions, the shortest distances as the solution, channels of size 1 as in
    [test.c], and any interleaving of the routers and the main thread from the
    start of the threads.  Whatever happens next, no pointer to a vector dangles, no array is
    read out of its bounds, no entry of [completed] is used before it is set and no message comes
    over a link that does not exist: the next action fails in one way only, that an
    assertion is violated, and then it is the comparison with the solution in
    [check_done] or the assertion of a router that stops. *)
Theorem stress_only_two_assertions lives s0 s a f :
  (0 < n)%nat -> floyd_warshall n topology = Done solution ->
  run_stress_starts n topology 1 1 lives = Done s0 ->
  rtc (stress_step n topology solution 1 1) s0 s ->
  act n topology solution 1 1 a s = Some (Fault f) ->
  f = AssertFailed /\ (a = MainCompares \/ exists i, a = Stops i).
Proof using Hmat Hsym.
  intros Hn Hfw Hst Hr Ha.
  assert (Hsol : length solution = (n * n)%nat).
  { destruct (floyd_warshall_ok n topology Hmat) as (sol & E & Hl & _). rewrite Hfw in E. by injection E as <-. }
  destruct (starts_ok n topology 1 1 Hmat lives s0 Hst) as (H0 & _).
  pose proof (starts_main n topology 1 1 Hmat Hn lives s0 Hst) as Hmain.
  assert (Hs : stress_ok n topology 1 s /\ main_ok n s).
  { clear Ha Hst. induction Hr as [s|x y z [b x' y' Hb] Hr IH]; [done|]. apply IH.
    - by destruct (act_ok n topology 1 1 Hmat Hsym (Nat.le_refl 1) solution b x' y' H0 Hb).
    - exact (act_main n topology solution 1 1 Hmat Hsym (Nat.le_refl 1) Hn Hsol b x' _ H0 Hmain Hb). }
  destruct Hs as [Hs Hm].
  exact (act_main n topology solution 1 1 Hmat Hsym (Nat.le_refl 1) Hn Hsol a s _ Hs Hm Ha).
Qed.
End theorem.
