(* ===== verification/StressLive.v ===== *)
(** * The stress test: the routers converge

    Whatever has happened so far, as long as the main thread is still checking the
    program is not stuck: some vector can move, after a few steps of the main
    thread and of routers that answer.  With the bound of [StressSilent] the routers
    can always go on to a quiet state, and in that state they know the solution. *)

From Stdlib Require Import ZArith Lia.
From stdpp Require Import gmap list.
From S2P Require Import Prelude Topology Router RouterProps CheckDone Stress StressShared StressSilent StressHeard StressSafe.
Open Scope Z_scope.

Definition checking (m : main_state) : bool := match m with Asking _ _ _ | Collecting _ _ _ _ => true | _ => false end.

Section live.
Context (n : nat) (topology solution : list Z).
Hypothesis Hmat : matrix_ok n topology.
Hypothesis Hsym : forall i j, (i < n)%nat -> (j < n)%nat -> link n topology j i <> inf_distance -> link n topology i j <> inf_distance.
Hypothesis Hn : (0 < n)%nat.
Hypothesis Hsol : length solution = (n * n)%nat.
Implicit Types (s : stress) (r : router_t).

Local Abbreviation act_here := (act n topology solution 1 1).
Local Abbreviation steps := (rtc (stress_step n topology solution 1 1)).

(** ** The invariant *)

Record alive s : Prop := {
  al_stress : stress_ok n topology 1 s;
  al_main : main_ok n s;
  al_exchange : exchange_ok n topology s;
  al_closed : done_closed s = true -> main s = Joining \/ main s = Over;
  al_returned i r : threads s !! i = Some (Thread r Returned) -> done_closed s = true;
  al_answers : (length (answers s) <= 1)%nat
}.

(** What a step leaves of the flags of the end. *)
Record flags_ok s : Prop := {
  fl_closed : done_closed s = true -> main s = Joining \/ main s = Over;
  fl_returned i r : threads s !! i = Some (Thread r Returned) -> done_closed s = true;
  fl_answers : (length (answers s) <= 1)%nat
}.

Lemma flags_set s i r d : flags_ok s -> d <> Returned \/ done_closed s = true -> flags_ok (set_thread s i (Thread r d)).
Proof using Type.
  clear. intros [H1 H2 H3] Hd. split; [done| |done]. intros j rj Hj. simpl in Hj.
  apply lookup_insert_Some in Hj as [[_ [= _ E]]|[_ Hj]]; [naive_solver|by apply (H2 j rj)].
Qed.

Lemma act_flags a s s' : stress_ok n topology 1 s -> flags_ok s -> act_here a s = Some (Done s') -> flags_ok s'.
Proof using Hmat Hsym.
  clear Hn Hsol. intros Hs Hf Ha. pose proof Hf as [Hc Hr Hl]. destruct a; simpl in Ha.
  - unfold router_looks in Ha. destruct (threads s !! i) as [[r []]|] eqn:Ei; try done. destruct (queues s !! i) as [[|]|]; try done.
    destruct (done_closed s); [done|]. injection Ha as <-. apply flags_set; [done|by left].
  - unfold router_rescans in Ha. destruct (threads s !! i) as [[r []]|] eqn:Ei; try done. injection Ha as <-. apply flags_set; [done|by left].
  - destruct (sends_turn n topology 1 Hmat Hsym (Nat.le_refl 1) s i k _ Hs Ha) as (r & r' & out & j & s1 & e & _ & _ & _ & _ & _ & _ & _ & Hd & E).
    injection E as ->. destruct (deliver_mail n 1 s j _ s1 Hd) as (Ht & Hm & Hans & Hdc & _). apply flags_set; [|by left].
    split; [by rewrite Hdc, Hm|by rewrite Ht, Hdc|by rewrite Hans].
  - unfold router_receives in Ha. destruct (threads s !! i) as [[r []]|] eqn:Ei; try done. destruct (queues s !! i) as [[|m q]|]; try done. injection Ha as <-.
    destruct (flags_set s i r (Received m) Hf) as [H1 H2 H3]; [by left|]. by split.
  - destruct (threads s !! i) as [[r [| |m| |]]|] eqn:Ei; try (unfold router_uses in Ha; by rewrite Ei in Ha).
    destruct (uses_turn n topology 1 Hmat Hsym s i r m Hs Ei) as (v & r' & out & d & E & _ & _ & _ & _ & _ & Hd & _).
    rewrite E in Ha. injection Ha as <-. apply flags_set; [done|by left].
  - unfold router_answers in Ha. destruct (threads s !! i) as [[r [| | |b|]]|] eqn:Ei; try done. destruct (_ <? _)%nat eqn:El; [|done].
    injection Ha as <-. destruct (flags_set s i r Selecting Hf) as [H1 H2 H3]; [by left|]. split; [done..|].
    simpl. rewrite length_app. apply Nat.ltb_lt in El. simpl. lia.
  - unfold router_stops in Ha. destruct (threads s !! i) as [[r []]|] eqn:Ei; try done. destruct (done_closed s) eqn:Ed; [|done].
    injection Ha as Ha. apply bind_Done in Ha as ([r' out] & _ & Ha). apply Done_inj in Ha as <-. apply flags_set; [done|by right].
  - unfold main_asks in Ha. destruct (main s) as [again c i| | | | |] eqn:Em; try done. destruct (deliver _ s i None) as [s1|] eqn:Ed; [|done].
    injection Ha as <-. destruct (deliver_mail n 1 s i _ s1 Ed) as (Ht & Hm & Hans & Hdc & _). split; simpl.
    + rewrite Hdc. intros Hx. by destruct (Hc Hx).
    + by rewrite Ht, Hdc.
    + by rewrite Hans.
  - unfold main_collects in Ha. destruct (answers s) as [|b q] eqn:Eq; [done|]. pose proof Ha as Ha'. apply collect_keeps in Ha as [m ->]. split; simpl.
    + intros Hx. unfold collect in Ha'. simpl in Ha'. by destruct (Hc Hx) as [E|E]; rewrite E in Ha'.
    + done.
    + simpl in Hl. lia.
  - unfold main_compares in Ha. destruct (main s) eqn:Em; try done. injection Ha as Ha. apply bind_Done in Ha as (? & _ & Ha).
    apply Done_inj in Ha as <-. split; simpl; [|done|done]. intros Hx. by destruct (Hc Hx).
  - unfold main_closes in Ha. destruct (main s) eqn:Em; try done. injection Ha as <-. split; simpl; [by left|done|done].
  - unfold main_joins in Ha. destruct (main s) eqn:Em; try done. destruct (forallb _ _); [|done]. injection Ha as <-.
    split; simpl; [by right|done|done].
Qed.

Lemma act_alive a s s' : alive s -> act_here a s = Some (Done s') -> alive s'.
Proof using Hmat Hsym Hn Hsol.
  intros [Hs Hm Hx H1 H2 H3] Ha. destruct (act_ok n topology 1 1 Hmat Hsym (Nat.le_refl 1) solution a s s' Hs Ha) as [Hs' _].
  pose proof (act_main n topology solution 1 1 Hmat Hsym (Nat.le_refl 1) Hn Hsol a s _ Hs Hm Ha) as Hm'.
  pose proof (act_exchange n topology solution 1 1 Hmat Hsym (Nat.le_refl 1) a s s' Hs Hx Ha) as Hx'.
  destruct (act_flags a s s' Hs ltac:(by split) Ha) as [H1' H2' H3']. by split.
Qed.

(** ** What can happen next *)

Definition going s : Prop := alive s /\ checking (main s) = true.

Lemma going_act a s s' : going s -> act_here a s = Some (Done s') -> checking (main s') = true -> going s' /\ steps s s'.
Proof using Hmat Hsym Hn Hsol.
  intros [Hs _] Ha Hc. split; [split; [by apply (act_alive a s)|done]|]. apply rtc_once. by apply (stress_action _ _ _ _ _ a).
Qed.

(** A vector moves, now or after some steps. *)
Definition soon s : Prop := exists s1 a s2, steps s s1 /\ going s1 /\ act_here a s1 = Some (Done s2) /\ moves_vector a s1 = true /\ going s2.

Lemma soon_later s s' : steps s s' -> soon s' -> soon s.
Proof using Type. clear. intros Hs (s1 & a & s2 & H1 & H). exists s1, a, s2. split; [by etransitivity|done]. Qed.

Lemma soon_now a s s' : going s -> act_here a s = Some (Done s') -> moves_vector a s = true -> main s' = main s -> soon s.
Proof using Hmat Hsym Hn Hsol.
  intros Hg Ha Hm E. exists s, a, s'. split; [apply rtc_refl|]. split_done. destruct Hg as [Hs Hc]. split; [by apply (act_alive a s)|by rewrite E].
Qed.

(** Steps in which no router learns anything. *)
Definition leads s s' : Prop := steps s s' /\ going s'.

Lemma leads_trans s1 s2 s3 : leads s1 s2 -> leads s2 s3 -> leads s1 s3.
Proof using Type. clear. intros [H1 _] [H2 Hg]. split; [by etransitivity|done]. Qed.

Lemma leads_act a s s' : going s -> act_here a s = Some (Done s') -> main s' = main s -> leads s s'.
Proof using Hmat Hsym Hn Hsol. intros Hg Ha E. destruct (going_act a s s' Hg Ha) as [H1 H2]; [rewrite E; apply Hg|by split]. Qed.

Lemma going_open s : going s -> done_closed s = false /\ forall i r, threads s !! i <> Some (Thread r Returned).
Proof using Type.
  clear. intros [Hs Hc]. assert (E : done_closed s = false).
  { destruct (done_closed s) eqn:E; [|done]. by destruct (al_closed _ Hs E) as [Em|Em]; rewrite Em in Hc. }
  split; [done|]. intros i r Hi. apply (al_returned _ Hs) in Hi. congruence.
Qed.

(** *** A vector in the hands or in the channel of a router that selects *)

Lemma held_soon s i r p : going s -> threads s !! i = Some (Thread r (Received (Some p))) -> soon s.
Proof using Hmat Hsym Hn Hsol.
  intros Hg Ei. destruct (uses_turn n topology 1 Hmat Hsym s i r (Some p) (al_stress _ (proj1 Hg)) Ei) as (v & r' & out & d & E & _).
  apply (soon_now (Uses i) s (set_thread s i (Thread r' d))); [done|done| |done]. simpl. by rewrite Ei.
Qed.

Lemma take_soon s i r p q : going s -> threads s !! i = Some (Thread r Selecting) -> queues s !! i = Some (Some p :: q) -> soon s.
Proof using Hmat Hsym Hn Hsol.
  intros Hg Ei Eq. eapply (soon_now (Receives i) s); [done|simpl; unfold router_receives; rewrite Ei, Eq; reflexivity| |done]. simpl. by rewrite Eq.
Qed.

Lemma rescan s i r : going s -> threads s !! i = Some (Thread r Scanning) -> leads s (set_thread s i (Thread r Selecting)).
Proof using Hmat Hsym Hn Hsol. intros Hg Ei. apply (leads_act (Rescans i)); [done| |done]. simpl. unfold router_rescans. by rewrite Ei. Qed.

Lemma scan_soon s i r p q : going s -> threads s !! i = Some (Thread r Scanning) -> queues s !! i = Some (Some p :: q) -> soon s.
Proof using Hmat Hsym Hn Hsol.
  intros Hg Ei Eq. destruct (rescan s i r Hg Ei) as [Hst Hg']. apply (soon_later _ _ Hst). apply (take_soon _ i r p q Hg'); [|done].
  simpl. by rewrite lookup_insert_eq.
Qed.

(** *** Questions *)

Lemma going_asked s : going s -> exists Q A D k, asked_ok s Q A D k /\ NoDup Q /\
  match main s with Asking _ _ i => k = i /\ D = [] | Collecting _ _ _ todo => k = n /\ todo = (length Q + length A)%nat | _ => False end.
Proof using Type.
  clear. intros [Hs Hc]. pose proof (al_main _ Hs) as Hm. unfold main_ok in Hm.
  assert (Hnd : forall Q A D k, asked_ok s Q A D k -> NoDup Q).
  { intros Q A D k [Hp _ _ _]. apply (NoDup_app Q (A ++ D)). rewrite Hp. apply NoDup_seq. }
  destruct (main s) as [again c i|again c v todo| | | |]; try done.
  - destruct Hm as (_ & _ & _ & Q & A & Ha). exists Q, A, [], i. split_done. by eapply Hnd.
  - destruct Hm as (_ & _ & Q & A & D & Ha & Ht & _). exists Q, A, D, n. split_done. by eapply Hnd.
Qed.

Lemma going_owed s i : going s -> (owed s i <= 1)%nat.
Proof using Type. clear. intros Hg. destruct (going_asked s Hg) as (Q & A & D & k & Ha & _). rewrite (as_owed _ _ _ _ _ Ha). case_decide; lia. Qed.

Lemma unasked s again c k i : going s -> main s = Asking again c k -> (k <= i)%nat -> owed s i = 0%nat.
Proof using Type.
  clear. intros Hg Em Hi. destruct (going_asked s Hg) as (Q & A & D & k' & Ha & _ & Hk). rewrite Em in Hk. destruct Hk as [-> ->].
  rewrite (as_owed _ _ _ _ _ Ha). rewrite decide_False; [done|]. intros Hin.
  assert (Hs : i ∈ seq 0 k) by (rewrite <- (as_all _ _ _ _ _ Ha); set_solver). apply elem_of_seq in Hs. lia.
Qed.

Lemma queue_cases s i : going s -> (i < n)%nat -> exists r d q, threads s !! i = Some (Thread r d) /\ queues s !! i = Some q /\
  (q = [] \/ exists m, q = [m]).
Proof using Type.
  clear. intros [Hs _] Hi. pose proof (al_stress _ Hs) as Hok. apply (so_threads _ _ _ _ Hok) in Hi as Ht. destruct Ht as [[r d] Ei].
  destruct (so_queues _ _ _ _ Hok) as [Hl Hq]. destruct (lookup_lt_is_Some_2 (queues s) i) as [q Eq]; [lia|]. exists r, d, q. split_done.
  specialize (Hq i q Eq). destruct q as [|m [|]]; simpl in Hq; [by left|right; by exists m|lia].
Qed.

(** The main thread asks all routers that are left. *)
Lemma ask_all s again c k : going s -> main s = Asking again c k -> soon s \/ exists s' c' v t,
  leads s s' /\ main s' = Collecting again c' v t /\ threads s' = threads s /\ answers s' = answers s /\
  forall x, owed s x <> 0%nat -> queues s' !! x = queues s !! x.
Proof using Hmat Hsym Hn Hsol.
  remember (n - k)%nat as left eqn:Hleft. revert s c k Hleft. induction left as [|left IH]; intros s c k Hleft Hg Em.
  { pose proof (al_main _ (proj1 Hg)) as Hm. unfold main_ok in Hm. rewrite Em in Hm. destruct Hm. lia. }
  pose proof (unasked s again c k k Hg Em (le_n k)) as Ho.
  destruct (queue_cases s k Hg) as (r & d & q & Ek & Eq & [-> |[m ->]]); [lia| |].
  - (* its channel has room *)
    assert (Ha : act_here MainAsks s = Some (Done (set_main (set_queue s k [None])
      (if (S k <? n)%nat then Asking again c (S k) else Collecting again c true n)))).
    { simpl. unfold main_asks, deliver. rewrite Em, Eq. done. }
    assert (Hg1 : leads s (set_main (set_queue s k [None]) (if (S k <? n)%nat then Asking again c (S k) else Collecting again c true n))).
    { destruct (going_act _ _ _ Hg Ha) as [H1 H2]; [simpl; by destruct (S k <? n)%nat|by split]. }
    assert (Hq : forall x, owed s x <> 0%nat -> <[k := [None]]> (queues s) !! x = queues s !! x).
    { intros x Hx. rewrite list_lookup_insert_ne; [done|]. intros ->. done. }
    destruct (S k <? n)%nat eqn:Elt.
    + destruct (IH _ c (S k) ltac:(lia) (proj2 Hg1) eq_refl) as [Hso|(s' & c' & v & t & H1 & H2 & H3 & H4 & H5)].
      * left. apply (soon_later _ _ (proj1 Hg1)). exact Hso.
      * right. exists s', c', v, t. split; [by eapply leads_trans|]. split; [done|]. split; [done|]. split; [done|].
        intros x Hx. rewrite H5; [by apply Hq|]. intros Hx'. apply Hx. revert Hx'. unfold owed.
        change (inbox (set_main ?y _) x) with (inbox y x). change (threads (set_main ?y _)) with (threads y).
        rewrite inbox_set_queue by (by eapply lookup_lt_Some). simpl. case_decide as E; [|done]. subst x. unfold inbox. rewrite Eq, Ek. simpl.
        rewrite !filter_app, !length_app. simpl. lia.
    + right. eexists _, c, true, n. split; [exact Hg1|]. split_done.
  - (* its channel is full: with a vector, since it owes no answer *)
    left. unfold owed, inbox in Ho. rewrite Ek, Eq in Ho. simpl in Ho. rewrite filter_app, length_app in Ho.
    destruct m as [p|]; [|simpl in Ho; lia]. destruct d as [| |[p'|]|a|].
    + by apply (take_soon s k r p []).
    + by apply (scan_soon s k r p []).
    + by apply (held_soon s k r p').
    + simpl in Ho. lia.
    + unfold answering in Ho. simpl in Ho. lia.
    + by destruct (proj2 (going_open s Hg) k r).
Qed.

(** *** Answers *)

Lemma collect_goes_on s again c v t a s' : main s = Collecting again c v (S (S t)) -> collect n s a = Some (Done s') ->
  exists c' v', s' = set_main s (Collecting again c' v' (S t)).
Proof using Type.
  clear. intros Em Ha. unfold collect in Ha. rewrite Em in Ha. destruct again; injection Ha as Ha.
  - apply bind_Done in Ha as (v' & _ & Ha). apply Done_inj in Ha as <-. by exists c, v'.
  - apply bind_Done in Ha as ([c' v'] & _ & Ha). apply Done_inj in Ha as <-. by exists c', v'.
Qed.

(** The main thread takes an answer while another one is owed. *)
Lemma make_room s i again c v t : going s -> main s = Collecting again c v t -> owed s i <> 0%nat ->
  exists s', leads s s' /\ (exists c' v' t', main s' = Collecting again c' v' t') /\ answers s' = [] /\ threads s' = threads s /\ queues s' = queues s.
Proof using Hmat Hsym Hn Hsol.
  intros Hg Em Ho. pose proof (al_answers _ (proj1 Hg)) as Hlen. destruct (answers s) as [|b q] eqn:Eans.
  { exists s. split; [split; [apply rtc_refl|done]|]. split_done. by exists c, v, t. }
  destruct q; [|simpl in Hlen; lia]. destruct (going_asked s Hg) as (Q & A & D & k & Ha & _ & Hk). rewrite Em in Hk. destruct Hk as [-> ->].
  assert (Hi : i ∈ Q). { pose proof (as_owed _ _ _ _ _ Ha i) as E. case_decide; [done|]. by rewrite E in Ho. }
  pose proof (as_answers _ _ _ _ _ Ha) as Hf. rewrite Eans in Hf. apply Forall2_cons_inv_r in Hf as (o & A' & _ & Hf & ->).
  apply Forall2_nil_inv_r in Hf as ->. assert (HQ : exists t, length Q = S t). { destruct Q; [by apply elem_of_nil in Hi|by eexists]. }
  destruct HQ as [t HQ].
  assert (Em2 : main s = Collecting again c v (S (S t))) by (rewrite Em, HQ; simpl; do 2 f_equal; lia).
  destruct (act_here MainCollects s) as [[s'|f]|] eqn:Eact.
  - pose proof Eact as E. simpl in E. unfold main_collects in E. rewrite Eans in E.
    apply (collect_goes_on _ again c v t) in E as (c' & v' & ->); [|done]. exists (set_main (set_answers s []) (Collecting again c' v' (S t))). split; [|split; [by exists c', v', (S t)|done]].
    destruct (going_act _ _ _ Hg Eact) as [H1 H2]; [done|by split].
  - pose proof (act_main n topology solution 1 1 Hmat Hsym (Nat.le_refl 1) Hn Hsol MainCollects s _ (al_stress _ (proj1 Hg)) (al_main _ (proj1 Hg)) Eact)
      as [_ [?|[? ?]]]; done.
  - simpl in Eact. unfold main_collects, collect in Eact. rewrite Eans in Eact. simpl in Eact. rewrite Em2 in Eact. by destruct again.
Qed.

Lemma answer_goes s i r a : going s -> threads s !! i = Some (Thread r (Answering a)) -> soon s \/ exists s',
  leads s s' /\ threads s' = <[i := Thread r Selecting]> (threads s) /\ queues s' !! i = queues s !! i.
Proof using Hmat Hsym Hn Hsol.
  intros Hg Ei. assert (Ho : owed s i <> 0%nat) by (unfold owed, answering; rewrite Ei; simpl; lia).
  assert (H1 : soon s \/ exists s1 again c v t, leads s s1 /\ main s1 = Collecting again c v t /\ threads s1 = threads s /\ queues s1 !! i = queues s !! i).
  { destruct Hg as [Hs Hc]. destruct (main s) as [again c k|again c v t| | | |] eqn:Em; try done.
    - destruct (ask_all s again c k) as [?|(s' & c' & v & t & H1 & H2 & H3 & H4 & H5)]; [split; [done|by rewrite Em]|done|by left|right].
      exists s', again, c', v, t. split_done. by apply H5.
    - right. exists s, again, c, v, t. split; [split; [apply rtc_refl|split; [done|by rewrite Em]]|done]. }
  destruct H1 as [?|(s1 & again & c & v & t & Hl1 & Em & Et & Eq)]; [by left|right].
  assert (Ho1 : owed s1 i <> 0%nat) by (unfold owed, answering; rewrite Et, Ei; simpl; lia).
  destruct (make_room s1 i again c v t (proj2 Hl1) Em Ho1) as (s2 & Hl2 & _ & Eans & Et2 & Eq2).
  exists (set_answers (set_thread s2 i (Thread r Selecting)) [a]). split.
  - eapply leads_trans; [exact Hl1|]. eapply leads_trans; [exact Hl2|]. apply (leads_act (Answers i)); [apply Hl2| |done].
    simpl. unfold router_answers. by rewrite Et2, Et, Ei, Eans.
  - simpl. by rewrite Et2, Et, Eq2, Eq.
Qed.

(** *** A router comes to its next selection *)

Lemma settle_router s i r d : going s -> threads s !! i = Some (Thread r d) -> soon s \/ exists s',
  leads s s' /\ threads s' = <[i := Thread r Selecting]> (threads s) /\ queues s' !! i = queues s !! i.
Proof using Hmat Hsym Hn Hsol.
  intros Hg Ei. destruct d as [| |[p|]|a|].
  - right. exists s. split; [split; [apply rtc_refl|done]|]. split; [by rewrite insert_id|done].
  - right. exists (set_thread s i (Thread r Selecting)). split; [by apply rescan|done].
  - left. by apply (held_soon s i r p).
  - destruct (uses_turn n topology 1 Hmat Hsym s i r None (al_stress _ (proj1 Hg)) Ei) as (v & r' & out & d & E & _ & Hl & _ & Hd & _ & _ & ->).
    destruct (Hd eq_refl) as [a ->].
    assert (r' = r) as Er.
    { apply (le_question _ _ _ _ _ _ _ Hl); [|done|done]. by apply (ex_calm _ _ _ (al_exchange _ (proj1 Hg)) i), (net_lookup s i r (Received None)). }
    subst r'.
    assert (Hl1 : leads s (set_thread s i (Thread r (Answering a)))) by (by apply (leads_act (Uses i))).
    destruct (answer_goes _ i r a (proj2 Hl1)) as [Hso|(s' & H1 & H2 & H3)]; [simpl; by rewrite lookup_insert_eq|left; by apply (soon_later _ _ (proj1 Hl1))|right].
    exists s'. split; [by eapply leads_trans|]. split; [|done]. rewrite H2. simpl. by rewrite insert_insert_eq.
  - by apply (answer_goes s i r a).
  - by destruct (proj2 (going_open s Hg) i r).
Qed.

Lemma vector_soon s i p : going s -> Some p ∈ inbox s i -> soon s.
Proof using Hmat Hsym Hn Hsol.
  intros Hg Hp. assert (Hi : (i < n)%nat) by (destruct p as [j p]; apply (so_mail _ _ _ _ (al_stress _ (proj1 Hg)) _ _ _ Hp)).
  destruct (queue_cases s i Hg Hi) as (r & d & q & Ei & Eq & Hq). unfold inbox in Hp. rewrite Ei, Eq in Hp. apply elem_of_app in Hp as [Hp|Hp].
  - destruct d as [| |m| |]; simpl in Hp; try by apply elem_of_nil in Hp. apply list_elem_of_singleton in Hp as <-. by apply (held_soon s i r p).
  - simpl in Hp. destruct Hq as [-> |[m ->]]; [by apply elem_of_nil in Hp|]. apply list_elem_of_singleton in Hp as <-.
    destruct (settle_router s i r d Hg Ei) as [?|(s' & H1 & H2 & H3)]; [done|]. apply (soon_later _ _ (proj1 H1)).
    apply (take_soon s' i r p []); [apply H1|by rewrite H2, lookup_insert_eq|by rewrite H3].
Qed.

(** *** A vector that is still to be sent *)

(** Router [i] selects, with nothing in its channel. *)
Lemma empty_queue s i r d : going s -> threads s !! i = Some (Thread r d) -> soon s \/ exists s',
  leads s s' /\ threads s' = <[i := Thread r Selecting]> (threads s) /\ queues s' !! i = Some [].
Proof using Hmat Hsym Hn Hsol.
  intros Hg Ei. destruct (settle_router s i r d Hg Ei) as [?|(s1 & Hl1 & Ht1 & Eq1)]; [by left|].
  assert (Hi : (i < n)%nat) by (apply (so_threads _ _ _ _ (al_stress _ (proj1 Hg))); by eexists).
  assert (Ei1 : threads s1 !! i = Some (Thread r Selecting)) by (by rewrite Ht1, lookup_insert_eq).
  destruct (queue_cases s1 i (proj2 Hl1) Hi) as (r1 & d1 & q & Ei1' & Eq & Hq). rewrite Ei1 in Ei1'. injection Ei1' as <- <-.
  destruct Hq as [-> |[[p|] ->]]; [right; by exists s1|left; apply (soon_later _ _ (proj1 Hl1)); by apply (take_soon s1 i r p [] (proj2 Hl1))|].
  set (s2 := set_queue (set_thread s1 i (Thread r (Received None))) i []).
  assert (Hl2 : leads s1 s2).
  { apply (leads_act (Receives i)); [apply Hl1| |done]. simpl. unfold router_receives. by rewrite Ei1, Eq. }
  destruct (settle_router s2 i r (Received None) (proj2 Hl2)) as [?|(s3 & Hl3 & Ht3 & Eq3)].
  - simpl. by rewrite lookup_insert_eq.
  - left. apply (soon_later _ _ (proj1 Hl1)), (soon_later _ _ (proj1 Hl2)). done.
  - right. exists s3. split; [by eapply leads_trans; [|eapply leads_trans]|]. split.
    + rewrite Ht3. simpl. by rewrite Ht1, !insert_insert_eq.
    + rewrite Eq3. simpl. by rewrite list_lookup_insert_eq by (by eapply lookup_lt_Some).
Qed.

(** It sends when there is room at the other end. *)
Lemma send_soon s i j r k e : going s -> threads s !! i = Some (Thread r Selecting) -> queues s !! i = Some [] -> queues s !! j = Some [] ->
  (2 <= k < select_count r)%nat -> select_list r !! k = Some e -> channel e = RouterChannel j -> soon s.
Proof using Hmat Hsym Hn Hsol.
  intros Hg Ei Eqi Eqj Hk He Hc. set (s1 := set_thread s i (Thread r Scanning)).
  assert (Hl1 : leads s s1).
  { apply (leads_act (Looks i)); [done| |done]. simpl. unfold router_looks. rewrite Ei, Eqi. by rewrite (proj1 (going_open s Hg)). }
  apply (soon_later _ _ (proj1 Hl1)). pose proof (al_stress _ (proj1 (proj2 Hl1))) as Hs1.
  assert (Ei1 : threads s1 !! i = Some (Thread r Scanning)) by (simpl; by rewrite lookup_insert_eq).
  pose proof (net_lookup _ _ _ _ Ei1) as Hr. pose proof (so_net _ _ _ _ Hs1 i r Hr) as Hrok.
  destruct (ro_entries _ _ _ _ Hrok k e He) as [Hsend Hdata]; [lia|].
  assert (Hpos : possible n topology (net_of s1) i r (Selected k None)) by (destruct k as [|[|k]]; simpl; lia).
  destruct (router_step_ok n topology Hmat Hsym (net_of s1) i r k None (so_net _ _ _ _ Hs1) Hr Hpos) as (r' & out & Estep & _).
  destruct e as [ch sd dt]. simpl in Hc, Hsend, Hdata. subst ch sd dt.
  apply (soon_now (Sends i k) s1 (set_thread (set_queue s1 j [Some (i, curr_state r)]) i (Thread r' Selecting))); [apply Hl1| |done|done].
  simpl. unfold router_sends. rewrite Ei1, He, (proj2 (Nat.ltb_lt _ _)) by lia. cbn [fmap option_fmap option_map].
  unfold deliver. simpl queues. rewrite Eqj. cbn [mbind option_bind length Nat.ltb Nat.leb app]. rewrite Estep. done.
Qed.

Lemma pending_soon s i j r d : going s -> threads s !! i = Some (Thread r d) -> pending r j -> soon s.
Proof using Hmat Hsym Hn Hsol.
  intros Hg Ei (k & e & Hk & He & Hc). pose proof (al_stress _ (proj1 Hg)) as Hs.
  destruct (entry_target n topology i r k e (so_net _ _ _ _ Hs i r (net_lookup _ _ _ _ Ei)) ltac:(lia) He) as (j' & Hj' & Hj & Hne & _).
  rewrite Hc in Hj'. injection Hj' as <-.
  destruct (empty_queue s i r d Hg Ei) as [?|(s1 & Hl1 & Ht1 & Eqi)]; [done|]. apply (soon_later _ _ (proj1 Hl1)).
  assert (Ei1 : threads s1 !! i = Some (Thread r Selecting)) by (by rewrite Ht1, lookup_insert_eq). pose proof (proj2 Hl1) as Hg1.
  destruct (queue_cases s1 j Hg1 Hj) as (rj & dj & q & Ej & Eqj & [-> |[[p|] ->]]).
  - by apply (send_soon s1 i j r k e).
  - apply (vector_soon s1 j p Hg1). unfold inbox. rewrite Ej, Eqj. simpl. set_solver.
  - (* a question is in the way; its receiver has no other one *)
    assert (Hdj : dj = Selecting \/ dj = Scanning \/ exists p, dj = Received (Some p)).
    { pose proof (going_owed s1 j Hg1) as Ho. unfold owed, inbox, answering in Ho. rewrite Ej, Eqj in Ho. simpl in Ho. rewrite filter_app, length_app in Ho.
      destruct dj as [| |[p|]|a|]; simpl in Ho; [by left|by right; left|right; right; by eexists|lia|lia|].
      by destruct (proj2 (going_open s1 Hg1) j rj). }
    assert (H2 : soon s1 \/ exists s2, leads s1 s2 /\ threads s2 = <[j := Thread rj Selecting]> (threads s1) /\ queues s2 = queues s1).
    { destruct Hdj as [-> |[-> |[p ->]]]; [right|right|left; by apply (held_soon s1 j rj p)].
      - exists s1. split; [split; [apply rtc_refl|done]|]. by rewrite insert_id.
      - exists (set_thread s1 j (Thread rj Selecting)). split; [by apply rescan|done]. }
    destruct H2 as [?|(s2 & Hl2 & Ht2 & Eq2)]; [done|]. apply (soon_later _ _ (proj1 Hl2)).
    assert (Ej2 : threads s2 !! j = Some (Thread rj Selecting)) by (by rewrite Ht2, lookup_insert_eq).
    set (s3 := set_queue (set_thread s2 j (Thread rj (Received None))) j []).
    assert (Hl3 : leads s2 s3).
    { apply (leads_act (Receives j)); [apply Hl2| |done]. simpl. unfold router_receives. by rewrite Ej2, Eq2, Eqj. }
    apply (soon_later _ _ (proj1 Hl3)). apply (send_soon s3 i j r k e); [apply Hl3|..|done|done|done].
    + simpl. rewrite lookup_insert_ne by congruence. by rewrite Ht2, lookup_insert_ne by congruence.
    + simpl. rewrite list_lookup_insert_ne by congruence. by rewrite Eq2.
    + simpl. by rewrite list_lookup_insert_eq by (rewrite Eq2; by eapply lookup_lt_Some).
Qed.

(** ** Convergence *)

(** Router [i] has nothing to do but answer. *)
Definition idle s (i : nat) : bool :=
  forallb is_question (inbox s i) && match threads s !! i with Some t => (select_count (router t) =? 2)%nat | None => true end.

Lemma quiet_or_soon s : going s -> quiet s \/ soon s.
Proof using Hmat Hsym Hn Hsol.
  intros Hg. pose proof (al_stress _ (proj1 Hg)) as Hs. destruct (forallb (idle s) (seq 0 n)) eqn:E.
  - left. rewrite forallb_forall in E.
    assert (Hidle : forall i, (i < n)%nat -> idle s i = true) by (intros i Hi; apply E, in_seq; lia). split.
    + intros i r Hr. destruct (ro_index _ _ _ _ (so_net _ _ _ _ Hs i r Hr)) as [_ Hi]. specialize (Hidle i Hi). unfold idle in Hidle.
      apply net_lookup_inv in Hr as Ht. destruct Ht as [d Ei]. rewrite Ei in Hidle. apply andb_prop in Hidle as [_ Hc]. apply Nat.eqb_eq in Hc.
      split; [done|]. by apply (ex_calm _ _ _ (al_exchange _ (proj1 Hg)) i r Hr).
    + intros i m Hm. assert (Hi : (i < n)%nat) by (destruct m as [j p]; apply (so_mail _ _ _ _ Hs _ _ _ Hm)). specialize (Hidle i Hi).
      apply andb_prop in Hidle as [Hq _]. rewrite forallb_forall in Hq. by specialize (Hq _ (proj1 (list_elem_of_In _ _) Hm)).
  - right. apply not_true_iff_false in E. rewrite forallb_forall in E.
    assert (Hex : exists i, i ∈ seq 0 n /\ idle s i = false).
    { destruct (decide (Exists (fun i => idle s i = false) (seq 0 n))) as [H|H]; [by apply Exists_exists in H|].
      exfalso. apply E. intros i Hi. destruct (idle s i) eqn:Ei; [done|]. exfalso. apply H, Exists_exists.
      exists i. split; [by apply list_elem_of_In|done]. }
    destruct Hex as (i & Hi & Ei). apply elem_of_seq in Hi. destruct (queue_cases s i Hg ltac:(lia)) as (r & d & q & Et & _).
    unfold idle in Ei. rewrite Et in Ei. apply andb_false_iff in Ei as [Ei|Ei].
    + assert (Hm : exists p, Some p ∈ inbox s i).
      { clear -Ei. induction (inbox s i) as [|[p|] l IH]; [done|exists p; left|]. destruct (IH Ei) as [p Hp]. exists p. by right. }
      destruct Hm as [p Hp]. by apply (vector_soon s i p).
    + apply Nat.eqb_neq in Ei. simpl in Ei. pose proof (so_net _ _ _ _ Hs i r (net_lookup _ _ _ _ Et)) as Hrok.
      destruct (ro_count _ _ _ _ Hrok) as [Hc Hlen]. destruct (lookup_lt_is_Some_2 (select_list r) 2) as [e He]; [lia|].
      destruct (entry_target n topology i r 2 e Hrok (le_n 2) He) as (j & Hj & _). apply (pending_soon s i j r d Hg Et).
      exists 2%nat, e. split_done. lia.
Qed.

Lemma steps_work s s' : stress_ok n topology 1 s -> steps s s' -> work_left n s' <= work_left n s.
Proof using Hmat Hsym.
  clear Hn Hsol. intros Hs Hst. induction Hst as [s|x y z [a x' y' Ha] Hst IH]; [done|].
  destruct (act_ok n topology 1 1 Hmat Hsym (Nat.le_refl 1) solution a x' y' Hs Ha) as [Hs' _].
  pose proof (act_work n topology solution 1 1 Hmat Hsym (Nat.le_refl 1) a x' y' Hs Ha). specialize (IH Hs'). destruct (moves_vector a x'); lia.
Qed.

Lemma going_quiet s : going s -> exists s', steps s s' /\ going s' /\ quiet s'.
Proof using Hmat Hsym Hn Hsol.
  remember (Z.to_nat (work_left n s)) as w eqn:Hw. revert s Hw. induction w as [w IH] using lt_wf_ind. intros s Hw Hg.
  destruct (quiet_or_soon s Hg) as [?|(s1 & a & s2 & H1 & Hg1 & Ha & Hm & Hg2)]; [by exists s; split; [apply rtc_refl|done]|].
  pose proof (al_stress _ (proj1 Hg1)) as Hs1.
  pose proof (steps_work s s1 (al_stress _ (proj1 Hg)) H1).
  pose proof (act_work n topology solution 1 1 Hmat Hsym (Nat.le_refl 1) a s1 s2 Hs1 Ha) as Hwk. rewrite Hm in Hwk.
  pose proof (work_nonneg n topology 1 s2 (al_stress _ (proj1 Hg2))).
  destruct (IH (Z.to_nat (work_left n s2)) ltac:(lia) s2 eq_refl Hg2) as (s' & Hst & H'). exists s'. split; [|done].
  etransitivity; [exact H1|]. eapply rtc_l; [by apply (stress_action _ _ _ _ _ a)|done].
Qed.

(** ** Quiet states stay quiet *)

Lemma quiet_frame s s' : quiet s -> net_of s' = net_of s -> (forall i m, Some m ∈ inbox s' i -> Some m ∈ inbox s i) ->
  quiet s' /\ net_of s' = net_of s.
Proof using Type. clear. intros [H1 H2] En Hin. split; [|done]. split; [by rewrite En|]. intros i m Hm. by apply (H2 i m), Hin. Qed.

Lemma quiet_doing s i r d d' : quiet s -> threads s !! i = Some (Thread r d) -> held (Thread r d') = [] ->
  quiet (set_thread s i (Thread r d')) /\ net_of (set_thread s i (Thread r d')) = net_of s.
Proof using Type.
  clear. intros Hq Ei Hd. apply quiet_frame; [done|by eapply net_set_doing|]. intros k m. rewrite inbox_set_thread. case_decide as E; [|done].
  subst k. rewrite Hd. unfold inbox. intros Hm. apply elem_of_app. by right.
Qed.

Lemma act_quiet a s s' : stress_ok n topology 1 s -> exchange_ok n topology s -> quiet s -> act_here a s = Some (Done s') ->
  quiet s' /\ net_of s' = net_of s.
Proof using Hmat Hsym.
  clear Hn Hsol. intros Hs Hx Hq Ha. destruct a; simpl in Ha.
  - unfold router_looks in Ha. destruct (threads s !! i) as [[r []]|] eqn:Ei; try done. destruct (queues s !! i) as [[|]|]; try done.
    destruct (done_closed s); [done|]. injection Ha as <-. by eapply quiet_doing.
  - unfold router_rescans in Ha. destruct (threads s !! i) as [[r []]|] eqn:Ei; try done. injection Ha as <-. by eapply quiet_doing.
  - destruct (sends_turn n topology 1 Hmat Hsym (Nat.le_refl 1) s i k _ Hs Ha) as (r & r' & out & j & s1 & e & Ei & _ & _ & Hk & _).
    destruct (proj1 Hq i r (net_lookup _ _ _ _ Ei)). lia.
  - destruct (receives_ok n topology 1 s i s' Hs Ha) as [_ Hin]. apply quiet_frame; [done| |intros k m; by rewrite Hin].
    unfold router_receives in Ha. destruct (threads s !! i) as [[r []]|] eqn:Ei; try done. destruct (queues s !! i) as [[|m q]|]; try done. injection Ha as <-.
    exact (net_set_doing s i r _ _ Ei).
  - destruct (threads s !! i) as [[r [| |m| |]]|] eqn:Ei; try (unfold router_uses in Ha; by rewrite Ei in Ha).
    destruct m as [p|]; [exfalso; apply (proj2 Hq i p); unfold inbox; rewrite Ei; left|].
    destruct (uses_turn n topology 1 Hmat Hsym s i r None Hs Ei) as (v & r' & out & d & E & _ & Hl & Hd & _ & _ & _ & ->).
    rewrite E in Ha. injection Ha as <-. assert (r' = r) as Er.
    { apply (le_question _ _ _ _ _ _ _ Hl); [|done|done]. by apply (ex_calm _ _ _ Hx i), (net_lookup s i r (Received None)). }
    subst r'. by eapply quiet_doing.
  - unfold router_answers in Ha. destruct (threads s !! i) as [[r [| | |b|]]|] eqn:Ei; try done. destruct (_ <? _)%nat; [|done]. injection Ha as <-.
    exact (quiet_doing s i r _ Selecting Hq Ei eq_refl).
  - unfold router_stops in Ha. destruct (threads s !! i) as [[r []]|] eqn:Ei; try done. destruct (done_closed s); [|done].
    injection Ha as Ha. apply bind_Done in Ha as ([r' out] & Hst & Ha). apply Done_inj in Ha as <-.
    assert (r' = None) as ->; [|by eapply quiet_doing].
    unfold router_step in Hst. apply bind_Done in Hst as (? & _ & Hst). by apply Done_inj in Hst; injection Hst as <- _.
  - unfold main_asks in Ha. destruct (main s) as [again c i| | | | |]; try done. destruct (deliver _ s i None) as [s1|] eqn:Ed; [|done].
    injection Ha as <-. destruct (deliver_ok n topology 1 s i _ s1 Hs Ed) as (En & _ & _ & _ & Hin & _).
    apply quiet_frame; [done|exact En|]. intros k m. change (inbox (set_main ?x _) k) with (inbox x k). rewrite Hin. case_decide; [subst; set_solver|done].
  - unfold main_collects in Ha. destruct (answers s) as [|b q]; [done|]. apply collect_keeps in Ha as [m ->]. by apply quiet_frame.
  - unfold main_compares in Ha. destruct (main s); try done. injection Ha as Ha. apply bind_Done in Ha as (? & _ & Ha).
    apply Done_inj in Ha as <-. by apply quiet_frame.
  - unfold main_closes in Ha. destruct (main s); try done. injection Ha as <-. by apply quiet_frame.
  - unfold main_joins in Ha. destruct (main s); try done. destruct (forallb _ _); [|done]. injection Ha as <-. by apply quiet_frame.
Qed.

Lemma quiet_steps s s' : alive s -> quiet s -> steps s s' -> quiet s' /\ net_of s' = net_of s.
Proof using Hmat Hsym Hn Hsol.
  intros Hs Hq Hst. induction Hst as [s|x y z [a x' y' Ha] Hst IH]; [done|].
  destruct (act_quiet a x' y' (al_stress _ Hs) (al_exchange _ Hs) Hq Ha) as [Hq' En].
  destruct (IH (act_alive a x' y' Hs Ha) Hq') as [? E]. split; [done|by rewrite E].
Qed.

Lemma starts_alive `{Malloc} lives s : run_stress_starts n topology 1 1 lives = Done s -> alive s.
Proof using Hmat Hn.
  clear Hsym Hsol. intros Hst. destruct (starts_ok n topology 1 1 Hmat lives s Hst) as (H0 & Hm0 & Ha0 & Hc & Hin & Hdo). split.
  - done.
  - by apply (starts_main n topology 1 1 Hmat Hn lives).
  - by apply (starts_exchange n topology 1 1 Hmat lives).
  - by rewrite Hc.
  - intros i r Hi. by apply Hdo in Hi.
  - rewrite Ha0. simpl. lia.
Qed.

Lemma steps_alive s s' : alive s -> steps s s' -> alive s'.
Proof using Hmat Hsym Hn Hsol. intros Hs Hst. induction Hst as [s|x y z [a x' y' Ha] Hst IH]; [done|]. apply IH. by apply (act_alive a x' y'). Qed.
End live.

(** ** Theorem *)

Section theorem.
Context `{Malloc} (n : nat) (topology solution : list Z).
Hypothesis Hmat : matrix_ok n topology.
Hypothesis Hsym : forall i j, (i < n)%nat -> (j < n)%nat -> link n topology j i <> inf_distance -> link n topology i j <> inf_distance.

(** C12: the routers can always converge, and then they are right.  Take routers with
    links in both directions and channels of size 1, and any interleaving up to a
    moment when the main thread is still checking.  However full the channels are,
    the program is not deadlocked: it can go on to a quiet state, in which every
    message is used and nobody has one to send.  The current vector of every router
    is then its row of the solution that [floyd_warshall] computed, and nothing any
    thread does afterwards changes a router any more. *)
Theorem routers_converge lives s0 s :
  (0 < n)%nat -> floyd_warshall n topology = Done solution -> run_stress_starts n topology 1 1 lives = Done s0 ->
  rtc (stress_step n topology solution 1 1) s0 s -> checking (main s) = true ->
  exists s', rtc (stress_step n topology solution 1 1) s s' /\ checking (main s') = true /\ quiet s' /\
    (forall i j, (i < n)%nat -> (j < n)%nat -> exists r c d, net_of s' !! i = Some r /\ vectors r !! curr_state r = Some c /\
       dist c !! j = Some d /\ get_solution_distance n solution i j = Done d) /\
    forall s'', rtc (stress_step n topology solution 1 1) s' s'' -> quiet s'' /\ net_of s'' = net_of s'.
Proof using Hmat Hsym.
  intros Hn Hfw Hst Hr Hc.
  assert (Hlen : length solution = (n * n)%nat /\ forall i j, (i < n)%nat -> (j < n)%nat -> shortest n topology n i j (link n solution i j)).
  { destruct (floyd_warshall_ok n topology Hmat) as (sol & E & Hl & Hs). rewrite Hfw in E. injection E as <-.
    split; [done|]. intros i j Hi Hj. by apply Hs. }
  destruct Hlen as [Hsol Hshort]. pose proof (starts_alive n topology Hmat Hn lives s0 Hst) as H0.
  pose proof (steps_alive n topology solution Hmat Hsym Hn Hsol s0 s H0 Hr) as Hs.
  destruct (going_quiet n topology solution Hmat Hsym Hn Hsol s ltac:(by split)) as (s' & Hss' & [Hs' Hc'] & Hq). exists s'. split_done.
  - intros i j Hi Hj. pose proof (al_stress _ _ _ Hs') as Hok. apply (so_threads _ _ _ _ Hok) in Hi as Ht. destruct Ht as [[r d] Ei].
    pose proof (net_lookup _ _ _ _ Ei) as Hri.
    destruct (get_vector_ok n topology i r (curr_state r) (so_net _ _ _ _ Hok i r Hri)) as (c & _ & Ec & _); [set_solver|].
    destruct (quiet_solves n topology 1 Hmat Hsym s' Hok (al_exchange _ _ _ Hs') Hq i r c j Hri Ec Hj) as (x & Hx & Hmin).
    exists r, c, x. split_done. unfold get_solution_distance.
    destruct (lookup_lt_is_Some_2 solution (element n i j)) as [y Ey]; [rewrite Hsol; by apply element_lt|].
    unfold array_get. rewrite Ey. specialize (Hshort i j Hi Hj). unfold link in Hshort. rewrite Ey in Hshort. simpl in Hshort.
    f_equal. apply Z.le_antisymm; [apply Hshort, Hmin|apply Hmin, Hshort].
  - intros s'' Hss''. by apply (quiet_steps n topology solution Hmat Hsym Hn Hsol).
Qed.
End theorem.

(** Three routers in a line: the ends come to know each other. *)
Lemma routers_converge_witness : exists s0 s',
  @run_stress_starts 3 line_topology 1 1 malloc_first (fun _ => ∅) = Done s0 /\
  rtc (stress_step 3 line_topology [0; 1; 2; 1; 0; 1; 2; 1; 0] 1 1) s0 s' /\ quiet s' /\
  exists r c, net_of s' !! 0%nat = Some r /\ vectors r !! curr_state r = Some c /\ dist c !! 2%nat = Some 2.
Proof.
  destruct (@run_stress_starts 3 line_topology 1 1 malloc_first (fun _ => ∅)) as [s0|] eqn:E0; [|by vm_compute in E0].
  assert (Hc : checking (main s0) = true) by (vm_compute in E0; injection E0 as <-; reflexivity).
  destruct (@routers_converge malloc_first 3 line_topology [0; 1; 2; 1; 0; 1; 2; 1; 0] line_matrix line_symmetric (fun _ => ∅) s0 s0)
    as (s' & Hr & _ & Hq & Hd & _).
  - lia.
  - vm_compute. reflexivity.
  - exact E0.
  - apply rtc_refl.
  - exact Hc.
  - destruct (Hd 0%nat 2%nat) as (r & c & d & Er & Ec & Ed & E); [lia|lia|]. vm_compute in E. injection E as <-.
    exists s0, s'. split; [reflexivity|]. split; [exact Hr|]. split; [exact Hq|]. by exists r, c.
Defined.
