(* ===== verification/StressFooled.v ===== *)
(** * The stress test: a wrong answer is accepted

    [check_done] of [concurrency-project-FreezeKickerz/stress.c] keeps the pointers
    of the first round and compares epochs through them in the second.  A router has
    four buffers and uses them in turn: when it cycles exactly four times between
    its answers, the pointer of its second answer is that of the first and the
    epochs are the same for ever.  Here is such a run of the program, with seven
    routers on a line: both rounds find everything at rest, and then the comparison with
    the solution fails. *)

From Stdlib Require Import ZArith Lia.
From stdpp Require Import gmap list.
From S2P Require Import Prelude Topology Router RouterProps CheckDone Stress StressSafe.
Open Scope Z_scope.

(** The line 6 - 0 - 1 - 2 - 3 - 4 - 5. *)
Definition long_line : list Z :=
  let x := inf_distance in
  [0; 1; x; x; x; x; 1;
   1; 0; 1; x; x; x; x;
   x; 1; 0; 1; x; x; x;
   x; x; 1; 0; 1; x; x;
   x; x; x; 1; 0; 1; x;
   x; x; x; x; 1; 0; x;
   1; x; x; x; x; x; 0].

(** Router 0 sends its first vector and says it has converged. *)
Definition first_question : list action :=
  [Looks 0; Sends 0 2; Looks 0; Sends 0 2; MainAsks; Receives 0; Uses 0; Answers 0]%nat.

(** Distances spread along the line; router 0 hears of routers 2, 3 and 4 and cycles
    with each, while router 6 takes part; router 5 becomes known to router 1 at last. *)
Definition three_cycles : list action :=
  [Receives 6; Uses 6; Looks 6; Sends 6 2; Receives 0; Uses 0; Looks 6; Sends 6 2; Receives 0; Uses 0;
   Receives 1; Uses 1; Looks 1; Sends 1 2; Receives 0; Uses 0; Looks 0; Sends 0 2; Looks 0; Sends 0 2;
   Receives 6; Uses 6; Looks 6; Sends 6 2; Receives 0; Uses 0; Receives 1; Uses 1; Looks 1; Sends 1 2; Looks
   1; Sends 1 3; Receives 0; Uses 0; Receives 2; Looks 1; Sends 1 2; Uses 2; Receives 2; Uses 2; Looks 2;
   Sends 2 2; Receives 1; Uses 1; Looks 1; Sends 1 2; Looks 1; Sends 1 2; Receives 0; Uses 0; Looks 0; Sends 0
   2; Looks 0; Sends 0 2; Receives 6; Uses 6; Looks 6; Sends 6 2; Receives 0; Uses 0; Receives 1; Uses 1;
   Receives 2; Uses 2; Looks 2; Sends 2 2; Looks 2; Sends 2 3; Receives 1; Uses 1; Receives 3; Looks 2; Sends
   2 2; Uses 3; Receives 3; Uses 3; Looks 3; Sends 3 2; Receives 2; Uses 2; Looks 2; Sends 2 2; Looks 2; Sends
   2 2; Receives 1; Uses 1; Looks 1; Sends 1 2; Receives 0; Uses 0; Looks 0; Sends 0 2; Looks 0; Sends 0 2;
   Receives 6; Uses 6; Looks 6; Sends 6 2; Receives 0; Uses 0; Receives 1; Uses 1; Looks 1; Sends 1 2;
   Receives 2; Uses 2; Receives 3; Uses 3; Looks 3; Sends 3 2; Looks 3; Sends 3 3; Receives 2; Uses 2;
   Receives 4; Looks 3; Sends 3 2; Uses 4; Receives 4; Uses 4; Looks 4; Sends 4 2; Receives 3; Uses 3; Looks
   3; Sends 3 2; Looks 3; Sends 3 2; Receives 2; Uses 2; Looks 2; Sends 2 2; Receives 1; Uses 1; Looks 1;
   Sends 1 2; Looks 1; Sends 1 2; Receives 2; Uses 2; Looks 2; Sends 2 2; Receives 3; Uses 3; Receives 4; Uses
   4; Looks 4; Sends 4 2; Looks 4; Sends 4 3; Receives 3; Uses 3; Receives 5; Looks 4; Sends 4 2; Uses 5;
   Receives 5; Uses 5; Looks 5; Sends 5 2; Receives 4; Uses 4; Looks 5; Sends 5 2; Receives 4; Uses 4]%nat.

(** The others have converged too and say so; router 0 still has a message to use. *)
Definition first_round : list action :=
  [MainAsks; MainAsks; MainAsks; MainAsks; MainAsks; MainAsks; MainCollects; Receives 1; Uses 1; Answers 1;
   MainCollects; Receives 2; Uses 2; Answers 2; MainCollects; Receives 3; Uses 3; Answers 3; MainCollects;
   Receives 4; Uses 4; Answers 4; MainCollects; Receives 5; Uses 5; Answers 5; MainCollects; Receives 6; Uses
   6; Answers 6; MainCollects]%nat.

(** Router 0 uses it, cycles for the fourth time, and is asked again while it waits to
    send; its channel was empty when it looked. *)
Definition fourth_cycle : list action :=
  [Receives 0; Uses 0; Looks 0; Sends 0 2; Looks 0; MainAsks]%nat.

(** The other routers answer again: nothing changed for them. *)
Definition second_round : list action :=
  [Receives 1; MainAsks; MainAsks; MainAsks; MainAsks; MainAsks; MainAsks; Uses 1; Receives 1; Uses 1; Answers
   1; MainCollects; Receives 2; Uses 2; Answers 2; MainCollects; Receives 3; Uses 3; Answers 3; MainCollects;
   Receives 4; Uses 4; Answers 4; MainCollects; Receives 5; Uses 5; Answers 5; MainCollects; Receives 6; Uses
   6; Answers 6; MainCollects]%nat.

(** Router 0 sends to router 6, which has yet to read, and answers that it has
    converged. *)
Definition last_answer : list action :=
  [Sends 0 2; Receives 0; Uses 0; Answers 0; MainCollects]%nat.

Definition fooling_run : list action :=
  first_question ++ three_cycles ++ first_round ++ fourth_cycle ++ second_round ++ last_answer.

Definition fooled_start : stress :=
  match @run_stress_starts 7 long_line 1 1 malloc_first (fun _ => ∅) with Done s => s | Fault _ => Stress ∅ [] [] false Over end.
Definition long_solution : list Z := match floyd_warshall 7 long_line with Done l => l | Fault _ => [] end.
Definition fooled : stress := default fooled_start (run_actions 7 long_line long_solution 1 1 fooling_run fooled_start).

(** A property of all pairs of routers, by evaluation. *)
Lemma all_pairs (P : nat -> nat -> bool) n : forallb (fun i => forallb (P i) (seq 0 n)) (seq 0 n) = true ->
  forall i j, (i < n)%nat -> (j < n)%nat -> P i j = true.
Proof.
  rewrite forallb_forall. intros H i j Hi Hj. assert (Hr : forallb (P i) (seq 0 n) = true) by (apply H, in_seq; lia).
  rewrite forallb_forall in Hr. apply Hr, in_seq. lia.
Qed.

Lemma long_line_matrix : matrix_ok 7 long_line.
Proof.
  split; [done|]. intros i j Hi Hj.
  assert (E : (0 <=? link 7 long_line i j) && (link 7 long_line i j <=? inf_distance) = true).
  { by apply (all_pairs (fun i j => (0 <=? link 7 long_line i j) && (link 7 long_line i j <=? inf_distance)) 7). }
  apply andb_prop in E as [? ?]. lia.
Qed.

Lemma long_line_symmetric i j : (i < 7)%nat -> (j < 7)%nat -> link 7 long_line j i <> inf_distance -> link 7 long_line i j <> inf_distance.
Proof.
  intros Hi Hj. assert (E : (link 7 long_line i j =? link 7 long_line j i) = true).
  { by apply (all_pairs (fun i j => link 7 long_line i j =? link 7 long_line j i) 7). }
  apply Z.eqb_eq in E. by rewrite E.
Qed.

Lemma fooled_reached : run_actions 7 long_line long_solution 1 1 fooling_run fooled_start = Some fooled.
Proof. vm_compute. reflexivity. Qed.

(** C23: the stress test can fail although channels and routers do what they
    should.  On a line of seven routers, with links in both directions and channels
    of size 1, some interleaving makes both rounds of [check_done] succeed before
    router 6 has heard of router 5, and the assertion that compares with the
    solution fails: router 0 cycled four times between its two answers, so both
    are the same pointer and the epochs read through it agree. *)
Theorem check_done_fooled : exists solution s0 s,
  floyd_warshall 7 long_line = Done solution /\ @run_stress_starts 7 long_line 1 1 malloc_first (fun _ => ∅) = Done s0 /\
  rtc (stress_step 7 long_line solution 1 1) s0 s /\
  (exists completed, main s = Comparing completed /\ act 7 long_line solution 1 1 MainCompares s = Some (Fault AssertFailed)) /\
  exists r v, net_of s !! 6%nat = Some r /\ vectors r !! curr_state r = Some v /\ dist v !! 5%nat = Some inf_distance /\
    link 7 solution 6 5 = 6.
Proof.
  exists long_solution, fooled_start, fooled. split; [by vm_compute|]. split; [by vm_compute|].
  split; [apply (run_actions_rtc _ _ _ _ _ _ _ _ fooled_reached)|]. split; [eexists; split; by vm_compute|].
  eexists _, _. split; [vm_compute; reflexivity|]. split; [vm_compute; reflexivity|]. split; by vm_compute.
Qed.

Lemma stress_only_two_assertions_witness :
  act 7 long_line long_solution 1 1 MainCompares fooled = Some (Fault AssertFailed) /\
  (MainCompares = MainCompares \/ exists i, MainCompares = Stops i).
Proof.
  assert (E : act 7 long_line long_solution 1 1 MainCompares fooled = Some (Fault AssertFailed)) by (vm_compute; reflexivity).
  split; [exact E|].
  apply (@stress_only_two_assertions malloc_first 7 long_line long_solution long_line_matrix long_line_symmetric
    (fun _ => ∅) fooled_start fooled MainCompares AssertFailed); [lia|by vm_compute|by vm_compute| |exact E].
  apply (run_actions_rtc _ _ _ _ _ _ _ _ fooled_reached).
Defined.
