(* ===== verification/StressCleanup.v ===== *)
(** * The end of the stress test

    The last part of [run_stress] of [concurrency-project-FreezeKickerz/stress.c],
    after all routers were joined: one thread closes and destroys the channels and
    frees the arrays.  [Stress] stops at the join; here the functions are those of
    [Channel], with the statuses that the code asserts. *)

From Stdlib Require Import ZArith Lia.
From stdpp Require Import gmap list.
From S2P Require Import Prelude Dll ConcList Buffer Channel.
Open Scope Z_scope.

(** ** The code *)

(** The nodes that a destroyed channel left allocated. *)
Definition leftovers : Type := gmap loc (node loc) * gmap loc (node loc).

Definition close_channel (ch : channel_t) : outcome channel_t :=
  r ← channel_close 0 ch ∅;
  match r_end r with ERet st _ => _ ← c_assert (st =? SUCCESS); Done (r_chan r) | EWait _ _ => Fault Diverges end.

Definition destroy_channel (ch : channel_t) : outcome leftovers :=
  '(st, rest) ← channel_destroy ch; _ ← c_assert (st =? SUCCESS); deref rest.

(** [free] of an array, which must be live. *)
Definition free (live : gset loc) (p : loc) : outcome (gset loc) :=
  if decide (p ∈ live) then Done (live ∖ {[p]}) else Fault Dangling.

Definition destroy_topology (live : gset loc) (topology solution : loc) : outcome (gset loc) :=
  live ← free live topology; free live solution.

Fixpoint close_and_destroy (chs : list channel_t) : outcome (list leftovers) :=
  match chs with
  | [] => Done []
  | ch :: chs =>
      ch ← close_channel ch;
      l ← destroy_channel ch;
      ls ← close_and_destroy chs;
      Done (l :: ls)
  end.

(** From the comment [cleanup] on. *)
Definition cleanup (done completed : channel_t) (chs : list channel_t) (live : gset loc) (pid channels topology solution : loc) :
    outcome (list leftovers * gset loc) :=
  l1 ← destroy_channel done;
  completed ← close_channel completed;
  l2 ← destroy_channel completed;
  ls ← close_and_destroy chs;
  live ← free live pid;
  live ← free live channels;
  live ← destroy_topology live topology solution;
  Done (l1 :: l2 :: ls, live).

(** ** It succeeds *)

(** A channel as the calls leave it: its lists of selectors are lists, and a
    buffered one has a buffer. *)
Record whole (ch : channel_t) : Prop := {
  wh_send : exists l ns, send_selectors ch = Some l /\ list_ok l ns;
  wh_recv : exists l ns, recv_selectors ch = Some l /\ list_ok l ns;
  wh_buffer : is_unbuffered ch = true \/ is_Some (buffer ch)
}.

Definition nothing_left : leftovers := (∅, ∅).

Lemma destroy_closed ch : whole ch -> closed_flag ch = true -> destroy_channel ch = Done nothing_left.
Proof.
  intros [(ss & ns & Es & Hs) (rs & ns' & Er & Hr) Hb] Hc. unfold destroy_channel, channel_destroy. rewrite Hc. cbn [negb].
  rewrite Es, Er, (list_destroy_ok _ _ Hs), (list_destroy_ok _ _ Hr).
  destruct (is_unbuffered ch); [done|]. by destruct Hb as [|[b ->]].
Qed.

Lemma close_open ch : closed_flag ch = false -> close_channel ch = Done (set_closed ch).
Proof. intros Hc. unfold close_channel, channel_close. by rewrite Hc. Qed.

Lemma whole_closed ch : whole ch -> whole (set_closed ch).
Proof. by intros [H1 H2 H3]. Qed.

Lemma close_and_destroy_ok chs : Forall (fun ch => whole ch /\ closed_flag ch = false) chs ->
  close_and_destroy chs = Done (const nothing_left <$> chs).
Proof.
  induction 1 as [|ch chs [Hw Hc] _ IH]; [done|]. cbn [close_and_destroy]. rewrite close_open by done. cbn [mbind outcome_bind].
  rewrite destroy_closed by (done || by apply whole_closed). cbn [mbind outcome_bind]. by rewrite IH.
Qed.

(** The cleanup succeeds.  With [done_channel] closed and all others open, as
    [run_stress] leaves them, every status is the one asserted, no node of a list of
    selectors stays allocated, and the four arrays are freed, each once. *)
Theorem cleanup_succeeds (done completed : channel_t) (chs : list channel_t) (live : gset loc) (pid channels topology solution : loc) :
  whole done -> closed_flag done = true -> whole completed -> closed_flag completed = false ->
  Forall (fun ch => whole ch /\ closed_flag ch = false) chs ->
  NoDup [pid; channels; topology; solution] -> {[pid; channels; topology; solution]} ⊆ live ->
  cleanup done completed chs live pid channels topology solution =
    Done (nothing_left :: nothing_left :: (const nothing_left <$> chs), live ∖ {[pid; channels; topology; solution]}).
Proof.
  intros Hd Hdc Hw Hwc Hch Hnd Hl. unfold cleanup, destroy_topology. rewrite destroy_closed by done. cbn [mbind outcome_bind].
  rewrite close_open by done. cbn [mbind outcome_bind]. rewrite destroy_closed by (done || by apply whole_closed). cbn [mbind outcome_bind].
  rewrite close_and_destroy_ok by done. cbn [mbind outcome_bind].
  apply NoDup_cons in Hnd as [H1 Hnd]. apply NoDup_cons in Hnd as [H2 Hnd]. apply NoDup_cons in Hnd as [H3 _].
  unfold free. rewrite !not_elem_of_cons in *. repeat (rewrite decide_True by set_solver; cbn [mbind outcome_bind]).
  do 2 f_equal. set_solver.
Qed.

(** A new channel whose lists could be allocated. *)
Lemma created_whole `{Malloc} live size ch : channel_create live size = Done (Some ch) ->
  is_Some (send_selectors ch) -> is_Some (recv_selectors ch) -> whole ch /\ closed_flag ch = false.
Proof.
  unfold channel_create. destruct (malloc live) as [l|]; [|done]. intros E [ss Es] [rs Er].
  assert (Hb : send_selectors ch = list_create ({[l]} ∪ live) /\ recv_selectors ch = list_create ({[l]} ∪ live) /\
    closed_flag ch = false /\ (is_unbuffered ch = true \/ is_Some (buffer ch))).
  { destruct (size =? 0); [by simplify_eq/=; auto|]. destruct (buffer_create _ _) as [b|]; [|done]. simplify_eq/=. eauto. }
  destruct Hb as (H1 & H2 & Hc & Hb). split; [|done]. rewrite Es in H1. rewrite Er in H2.
  split; [exists ss, []|exists rs, []|done]; (split; [done|]); by eapply list_create_ok.
Qed.
