(* ===== verification/Lexer.v ===== *)
(** * The lexer of the mini-shell

    [mini-shell-project-FreezeKickerz/util/parser/parser.l].  A rule is a start
    condition, a pattern and an action; a pattern is the length of its longest
    match at the start of the input, and as flex documents the longest match of
    all rules wins, the earlier rule among equals. *)

From Stdlib Require Import ZArith Lia Ascii.
From Stdlib Require String.
From stdpp Require Import list strings.
From S2P Require Import Prelude CString.
Open Scope Z_scope.

(** ** Tokens *)

Inductive token :=
  | NOT_ACCEPTED_CHAR | INVALID_ENVIRONMENT_VAR | UNEXPECTED_EOF | CHARS_AFTER_EOL
  | END_OF_FILE | END_OF_LINE | BLANK
  | REDIRECT_OE | REDIRECT_O | REDIRECT_E | INDIRECT | REDIRECT_APPEND_E | REDIRECT_APPEND_O
  | WORD (text : string) | ENV_VAR (name : string)
  | SEQUENTIAL | PARALLEL | CONDITIONAL_NZERO | CONDITIONAL_ZERO | PIPE.

Inductive start_condition := INITIAL | ACCEPT_ANY | ACCEPT_ANY_AND_EXPANSION.

(** ** Patterns *)

Definition pattern := list ascii -> option nat.
Definition text (l : list ascii) : string := String.string_of_list_ascii l.

(** The longest run of characters in a class. *)
Fixpoint span (p : ascii -> bool) (l : list ascii) : nat :=
  match l with c :: l => if p c then S (span p l) else O | [] => O end.

Definition literal (s : string) : pattern := fun l =>
  if decide (take (length (chars s)) l = chars s) then Some (length (chars s)) else None.
Definition many (p : ascii -> bool) : pattern := fun l => Some (span p l).
Definition many1 (p : ascii -> bool) : pattern := fun l => match span p l with O => None | n => Some n end.

Definition in_range (a b c : ascii) : bool := (nat_of_ascii a <=? nat_of_ascii c)%nat && (nat_of_ascii c <=? nat_of_ascii b)%nat.
Definition one_of (s : string) (c : ascii) : bool := existsb (Ascii.eqb c) (chars s).

Definition digit (c : ascii) : bool := in_range "0" "9" c.
Definition letter (c : ascii) : bool := in_range "a" "z" c || in_range "A" "Z" c.
Definition nameStart (c : ascii) : bool := Ascii.eqb c "_" || letter c.
Definition nameChar (c : ascii) : bool := nameStart c || digit c.
Definition valueChar (c : ascii) : bool := letter c || digit c || one_of "-\+:._%?*~/," c.
Definition whitespace (c : ascii) : bool := Ascii.eqb c " " || Ascii.eqb c "009".
Definition quote : ascii := "'".
Definition dquote : ascii := "034".
Definition dollar : ascii := "$".
Definition allButCharStateAny (c : ascii) : bool := negb (Ascii.eqb c quote).
Definition allButCharStateAnyAndExpansion (c : ascii) : bool := negb (Ascii.eqb c dquote) && negb (Ascii.eqb c dollar).

Definition envVarName : pattern := fun l =>
  match l with c :: l => if nameStart c then Some (S (span nameChar l)) else None | [] => None end.
Definition newLine : pattern := fun l =>
  match l with
  | c :: l =>
      if decide (c = LF) then Some 1%nat
      else if decide (c = CR) then match l with c' :: _ => if decide (c' = LF) then Some 2%nat else None | [] => None end
      else None
  | [] => None
  end.
Definition anyChar : pattern := fun l => match l with _ :: _ => Some 1%nat | [] => None end.

(** One pattern after another; the first of these has one match only. *)
Definition followed (p q : pattern) : pattern := fun l =>
  n ← p l; m ← q (drop n l); Some (n + m)%nat.

(** ** Rules *)

Inductive action := Return (tok : token) | ReturnWord | ReturnVar | Begin (c : start_condition).

Definition initial_rules : list (pattern * action) := [
  (followed newLine anyChar, Return CHARS_AFTER_EOL);
  (newLine, Return END_OF_LINE);
  (literal "'", Begin ACCEPT_ANY);
  (literal (text [dquote]), Begin ACCEPT_ANY_AND_EXPANSION);
  (literal ";", Return SEQUENTIAL);
  (literal "||", Return CONDITIONAL_NZERO);
  (literal "|", Return PIPE);
  (literal "&&", Return CONDITIONAL_ZERO);
  (literal "&>", Return REDIRECT_OE);
  (literal "&", Return PARALLEL);
  (literal "2>>", Return REDIRECT_APPEND_E);
  (literal ">>", Return REDIRECT_APPEND_O);
  (literal "2>", Return REDIRECT_E);
  (literal ">", Return REDIRECT_O);
  (literal "<", Return INDIRECT);
  (many1 whitespace, Return BLANK);
  (literal "=", ReturnWord);
  (followed (literal "$") envVarName, ReturnVar);
  (literal "$", Return INVALID_ENVIRONMENT_VAR);
  (many1 valueChar, ReturnWord)].

Definition accept_any_rules : list (pattern * action) := [
  (literal "'", Begin INITIAL);
  (many allButCharStateAny, ReturnWord)].

Definition accept_any_and_expansion_rules : list (pattern * action) := [
  (literal (text [dquote]), Begin INITIAL);
  (followed (literal "$") envVarName, ReturnVar);
  (literal "$", Return INVALID_ENVIRONMENT_VAR);
  (many allButCharStateAnyAndExpansion, ReturnWord)].

(** [%s] makes the conditions inclusive: the last rule, which names none, is
    active in all of them. *)
Definition rules (st : start_condition) : list (pattern * action) :=
  match st with
  | INITIAL => initial_rules
  | ACCEPT_ANY => accept_any_rules
  | ACCEPT_ANY_AND_EXPANSION => accept_any_and_expansion_rules
  end ++ [(anyChar, Return NOT_ACCEPTED_CHAR)].

(** The longest match; an earlier rule wins over a later one of the same length. *)
Fixpoint best (rs : list (pattern * action)) (l : list ascii) : option (nat * action) :=
  match rs with
  | [] => None
  | (p, a) :: rs =>
      match p l, best rs l with
      | Some n, Some (m, b) => if (n <? m)%nat then Some (m, b) else Some (n, a)
      | Some n, None => Some (n, a)
      | None, r => r
      end
  end.

(** What an action makes of the matched text: a token, or only another condition. *)
Definition act (st : start_condition) (a : action) (yytext : list ascii) : list token * start_condition :=
  match a with
  | Return tok => ([tok], st)
  | ReturnWord => ([WORD (text yytext)], st)
  | ReturnVar => ([ENV_VAR (text (drop 1 yytext))], st)
  | Begin st => ([], st)
  end.

Definition eof_token (st : start_condition) : token := match st with INITIAL => END_OF_FILE | _ => UNEXPECTED_EOF end.

(** All tokens of an input, with the one at its end. *)
Fixpoint tokens (fuel : nat) (st : start_condition) (l : list ascii) : list token :=
  match fuel, l with
  | _, [] => [eof_token st]
  | O, _ => []
  | S fuel, _ =>
      match best (rules st) l with
      | Some (n, a) => let '(toks, st) := act st a (take n l) in toks ++ tokens fuel st (drop n l)
      | None => []
      end
  end.

Definition lex (st : start_condition) (l : list ascii) : list token := tokens (length l) st l.

Example lex_pipe : lex INITIAL (chars "ls -l 2>>$F'a b'|wc") =
  [WORD "ls"; BLANK; WORD "-l"; BLANK; REDIRECT_APPEND_E; ENV_VAR "F"; WORD "a b"; PIPE; WORD "wc"; END_OF_FILE].
Proof. reflexivity. Qed.

(** Digits before a redirection belong to a word, unless there is only the [2]. *)
Example lex_digits : lex INITIAL (chars "a22>b 2>c") =
  [WORD "a22"; REDIRECT_O; WORD "b"; BLANK; REDIRECT_E; WORD "c"; END_OF_FILE].
Proof. reflexivity. Qed.

(** ** Every step makes progress *)

Lemma best_anyChar rs c l : exists n a, best (rs ++ [(anyChar, Return NOT_ACCEPTED_CHAR)]) (c :: l) = Some (n, a) /\ (0 < n)%nat.
Proof.
  induction rs as [|[p a] rs (n & b & E & Hn)]; simpl; [exists 1%nat, (Return NOT_ACCEPTED_CHAR); split; [done|lia]|].
  rewrite E. destruct (p (c :: l)) as [m|]; [|by exists n, b]. destruct (m <? n)%nat eqn:Em; [by exists n, b|].
  apply Nat.ltb_ge in Em. exists m, a. split; [done|lia].
Qed.

Lemma best_rules st c l : exists n a, best (rules st) (c :: l) = Some (n, a) /\ (0 < n)%nat.
Proof. apply best_anyChar. Qed.

Lemma tokens_fuel f st l : (length l <= f)%nat -> tokens f st l = lex st l.
Proof.
  unfold lex. assert (Hgen : forall n f g st l, (length l <= n)%nat -> (length l <= f)%nat -> (length l <= g)%nat ->
    tokens f st l = tokens g st l); [|intros Hf; apply (Hgen (length l)); lia].
  clear. induction n as [|n IH]; intros f g st [|c l] Hn Hf Hg; simpl in Hn; try lia; try (by destruct f, g).
  destruct f as [|f], g as [|g]; simpl in Hf, Hg; try lia. simpl.
  destruct (best_rules st c l) as (k & a & -> & Hk). destruct (act st a (take k (c :: l))) as [toks st'].
  f_equal. destruct k as [|k]; [lia|]. simpl. pose proof (length_drop l k). apply IH; lia.
Qed.

(** One step of the lexer. *)
Lemma lex_step st c l n a : best (rules st) (c :: l) = Some (n, a) -> (0 < n)%nat ->
  lex st (c :: l) = (act st a (take n (c :: l))).1 ++ lex (act st a (take n (c :: l))).2 (drop n (c :: l)).
Proof.
  intros E Hn. unfold lex at 1. cbn [length tokens]. rewrite E. destruct (act st a _) as [toks st']. simpl.
  f_equal. apply tokens_fuel. destruct n as [|n]; [lia|]. simpl. rewrite length_drop. lia.
Qed.

Lemma lex_nil st : lex st [] = [eof_token st].
Proof. done. Qed.
