(* ===== verification/Shell.v ===== *)
(** * The mini-shell

    [mini-shell-project-FreezeKickerz/src/cmd.c], [utils.c] and [main.c].  A
    command is executed by a tree of system calls: what a process does next,
    depending on their results.  [parse_command] builds the tree, and its
    continuation is what the same process does with the returned status, so that
    [exit(parse_command(...))] in a child and the loop of the shell are written
    as in the source.  The operating system that runs the trees is in
    [ShellSystem].  The parser is in [Parser], and [ShellMain] puts the
    two together; here a parsed line is an argument. *)

From Stdlib Require Import ZArith Lia Ascii.
From Stdlib Require String.
From stdpp Require Import gmap list strings.
From S2P Require Import Prelude CString.
Open Scope Z_scope.

(** ** Parse trees *)

(** A word is the list of its parts ([next_part]); lists of words follow
    [next_word], and an empty list is a null pointer. *)
Record part := Part { string_of : string; expand : bool }.
Definition word := list part.

#[export] Instance part_eq_dec : EqDecision part.
Proof. solve_decision. Defined.
#[export] Instance word_eq_dec : EqDecision word := _.

Definition IO_REGULAR : Z := 0.
Definition IO_OUT_APPEND : Z := 1.
Definition IO_ERR_APPEND : Z := 2.

Record simple_command := SCmd {
  verb : word; params : list word; s_in : list word; s_out : list word; s_err : list word; io_flags : Z
}.

Inductive operator_t :=
  | OP_SEQUENTIAL | OP_PARALLEL | OP_CONDITIONAL_ZERO | OP_CONDITIONAL_NZERO | OP_PIPE | OP_DUMMY.

Inductive command :=
  | Simple (s : simple_command)
  | Compound (op : operator_t) (cmd1 cmd2 : command).

Definition SHELL_EXIT : Z := -100.

(** ** Processes *)

(** The status [waitpid] reports. *)
Inductive wait_status := Exited (code : Z) | Signaled.

(** What a process does. *)
Inductive process :=
  | Exit (code : Z)
  | Crash
  | Environ (k : gmap string string -> process)
  | Setenv (name : string) (value : option string) (k : Z -> process)
  | Chdir (dir : option string) (k : Z -> process)
  | Open (path : string) (flags : Z) (k : Z -> process)
  | Dup2 (oldfd newfd : Z) (k : process)
  | Close (fd : Z) (k : process)
  | Pipe (k : bool -> Z -> Z -> process)
  | Fork (child : process) (k : option Z -> process)
  | Waitpid (pid : Z) (k : wait_status -> process)
  | Exec (argv : list string) (k : process)
  | Report (message : string) (where_ : Z) (k : process).

Definition STDIN_FILENO : Z := 0.
Definition STDOUT_FILENO : Z := 1.
Definition STDERR_FILENO : Z := 2.

Definition O_RDONLY : Z := 0.
(** [O_WRONLY | O_CREAT | O_APPEND] and [O_WRONLY | O_CREAT | O_TRUNC] *)
Definition O_APPENDING : Z := Z.lor (Z.lor 1 64) 1024.
Definition O_TRUNCATING : Z := Z.lor (Z.lor 1 64) 512.

(** ** utils.c *)

(** The loop of [get_word]: [string] is null before the first part. *)
Fixpoint get_word_from (env : gmap string string) (s : word) (string : option string) : option String.string :=
  match s with
  | [] => string
  | p :: s =>
      let substring := if expand p then default ""%string (env !! string_of p) else string_of p in
      get_word_from env s (Some (default ""%string string +:+ substring))
  end.

Definition get_word (env : gmap string string) (s : word) : option string := get_word_from env s None.

(** A list of words where the source takes a word: its first one. *)
Definition get_first (env : gmap string string) (ws : list word) : option string :=
  match ws with [] => None | w :: _ => get_word env w end.

Fixpoint get_params (env : gmap string string) (ws : list word) : option (list string) :=
  match ws with
  | [] => Some []
  | w :: ws => s ← get_word env w; rest ← get_params env ws; Some (s :: rest)
  end.

(** [None] is the exit through [DIE]; the C array ends with a null pointer and
    [*size] is its length. *)
Definition get_argv (env : gmap string string) (c : simple_command) : option (list string) :=
  v ← get_word env (verb c); ps ← get_params env (params c); Some (v :: ps).

(** ** cmd.c *)

Definition shell_cd (dir : list word) (k : Z -> process) : process :=
  Environ (fun env => Chdir (get_first env dir) k).

(** [exit(SHELL_EXIT)] *)
Definition shell_exit : process := Exit SHELL_EXIT.

Definition redirect_to (path : string) (flags target : Z) (k : process) : process :=
  Open path flags (fun fd => Dup2 fd target (Close fd k)).

Definition redirect_both (path : string) (flags : Z) (k : process) : process :=
  Open path flags (fun fd => Dup2 fd STDOUT_FILENO (Dup2 fd STDERR_FILENO (Close fd k))).

Definition out_flags (s : simple_command) : Z :=
  if io_flags s =? IO_OUT_APPEND then O_APPENDING else O_TRUNCATING.
Definition err_flags (s : simple_command) : Z :=
  if io_flags s =? IO_ERR_APPEND then O_APPENDING else O_TRUNCATING.

(** The redirections of a child, before the program runs. *)
Definition set_up_redirections (s : simple_command) (k : process) : process :=
  Environ (fun env =>
    let infile := get_first env (s_in s) in
    let outfile := get_first env (s_out s) in
    let errfile := get_first env (s_err s) in
    let outputs :=
      match outfile, errfile with
      | Some o, Some e =>
          if String.eqb o e then redirect_both o (out_flags s) k
          else redirect_to o (out_flags s) STDOUT_FILENO (redirect_to e (err_flags s) STDERR_FILENO k)
      | Some o, None => redirect_to o (out_flags s) STDOUT_FILENO k
      | None, Some e => redirect_to e (err_flags s) STDERR_FILENO k
      | None, None => k
      end in
    match infile with
    | Some i => redirect_to i O_RDONLY STDIN_FILENO outputs
    | None => outputs
    end).

Definition wait_status_of (st : wait_status) (otherwise : Z) : Z :=
  match st with Exited c => c | Signaled => otherwise end.

(** The program of a simple command, or the message that it cannot run. *)
Definition exec_program (s : simple_command) : process :=
  Environ (fun env =>
    match get_argv env s with
    | None => Report "Error retrieving word." 0 (Exit 1)
    | Some argv => Exec argv (Report ("Execution failed for '" +:+ default ""%string (get_word env (verb s)) +:+ "'") 0 (Exit 1))
    end).

Definition parse_simple (s : simple_command) (level : Z) (k : Z -> process) : process :=
  Fork (set_up_redirections s (exec_program s)) (fun child_pid =>
    match child_pid with
    | None => Report "Fork failed" level (k (-1))
    | Some pid => Waitpid pid (fun status => k (wait_status_of status (-1)))
    end).

(** The two children, then the wait for both; the status is the second one's. *)
Definition run_in_parallel (child1 child2 : process) (level : Z) (k : Z -> process) : process :=
  Fork child1 (fun pid1 =>
    match pid1 with
    | None => Report "Fork failed" level (k 0)
    | Some pid1 =>
        Fork child2 (fun pid2 =>
          match pid2 with
          | None => Report "Fork failed" level (k 0)
          | Some pid2 =>
              Waitpid pid1 (fun _ => Waitpid pid2 (fun status2 => k (wait_status_of status2 0)))
          end)
    end).

Definition run_on_pipe (child1 child2 : process) (level : Z) (k : Z -> process) : process :=
  Pipe (fun ok r w =>
    let go :=
      Fork (Close r (Dup2 w STDOUT_FILENO (Close w child1))) (fun pid1 =>
        match pid1 with
        | None => Report "Fork failed" level (k 0)
        | Some pid1 =>
            Fork (Close w (Dup2 r STDIN_FILENO (Close r child2))) (fun pid2 =>
              match pid2 with
              | None => Report "Fork failed" level (k 0)
              | Some pid2 =>
                  Close r (Close w
                    (Waitpid pid1 (fun _ => Waitpid pid2 (fun status2 => k (wait_status_of status2 0)))))
              end)
        end) in
    if ok then go else Report "Pipe failed" level go).

(** Whether a string contains a character. *)
Fixpoint strchr (s : string) (c : ascii) : bool :=
  match s with EmptyString => false | String a s => Ascii.eqb a c || strchr s c end.

(** The built-in [cd]: tried in a child under the redirections, then done in the
    shell itself. *)
Definition builtin_cd (s : simple_command) (level : Z) (k : Z -> process) : process :=
  Fork (set_up_redirections s
          (shell_cd (params s) (fun rc =>
             if rc =? -1 then Report "Path not found" level (Exit 0) else Exit 0)))
    (fun pid =>
       match pid with
       | None => Report "Fork failed" level (k (-1))
       | Some pid => Waitpid pid (fun _ => shell_cd (params s) k)
       end).

(** Simple commands: assignment, built-ins, programs. *)
Definition parse_none (s : simple_command) (level : Z) (k : Z -> process) : process :=
  Environ (fun env =>
    match get_word env (verb s), verb s with
    | Some text, p :: parts =>
        if strchr text "="%char then
          match parts with
          | [] => Crash
          | _ :: value => Setenv (string_of p) (get_word env value) k
          end
        else if String.eqb (string_of p) "cd" then builtin_cd s level k
        else if String.eqb (string_of p) "exit" || String.eqb (string_of p) "quit" then shell_exit
        else parse_simple s level k
    | _, _ => Crash
    end).

Fixpoint parse_command (c : command) (level : Z) (k : Z -> process) : process :=
  match c with
  | Simple s => parse_none s level k
  | Compound op cmd1 cmd2 =>
      let child cmd := parse_command cmd (level + 1) Exit in
      match op with
      | OP_SEQUENTIAL => parse_command cmd1 (level + 1) (fun _ => parse_command cmd2 (level + 1) k)
      | OP_PARALLEL => run_in_parallel (child cmd1) (child cmd2) level k
      | OP_CONDITIONAL_NZERO =>
          parse_command cmd1 (level + 1) (fun status =>
            if negb (status =? 0) then parse_command cmd2 (level + 1) k else k status)
      | OP_CONDITIONAL_ZERO =>
          parse_command cmd1 (level + 1) (fun status =>
            if status =? 0 then parse_command cmd2 (level + 1) k else k status)
      | OP_PIPE => run_on_pipe (child cmd1) (child cmd2) level k
      | OP_DUMMY => k SHELL_EXIT
      end
  end.

(** ** main.c *)

(** [start_shell] on the lines of the input as the parser returns them: [None] is
    an empty line or one with an error. *)
Fixpoint start_shell (lines : list (option command)) : process :=
  match lines with
  | [] => Exit 0
  | None :: lines => start_shell lines
  | Some root :: lines =>
      parse_command root 0 (fun ret => if ret =? SHELL_EXIT then Exit 0 else start_shell lines)
  end.

Definition parse_error (str : string) (where_ : Z) (k : process) : process := Report str where_ k.

(** *** Reading a line *)

Definition CHUNK_SIZE : nat := 1024.
(** The end of a chunk: without its line end, and whether it had one. *)
Definition chomp (chunk : list ascii) : outcome (list ascii * bool) :=
  match reverse (c_str chunk) with
  | [] => Fault OutOfRange
  | c :: before =>
      if decide (c = LF) then
        match before with
        | d :: before' => Done (if decide (d = CR) then reverse before' else reverse before, true)
        | [] => Done ([], true)
        end
      else Done (c_str chunk, false)
  end.

(** The loop of [read_line]; [line] is null before the first chunk. *)
Fixpoint read_line_loop (fuel : nat) (line : option (list ascii)) (input : list ascii) :
    outcome (option (list ascii) * list ascii) :=
  match fuel with
  | O => Fault Diverges
  | S fuel =>
      match input with
      | [] => Done (line, [])
      | _ :: _ =>
          let '(chunk, rest) := fgets (CHUNK_SIZE - 1) input in
          '(text, endline) ← (chomp chunk : outcome (list ascii * bool));
          let line := Some (default [] line ++ text) in
          if (endline : bool) then Done (line, rest) else read_line_loop fuel line rest
      end
  end.

Definition read_line (input : list ascii) : outcome (option (list ascii) * list ascii) :=
  read_line_loop (S (length input)) None input.
