(* ===== verification/ShellSystem.v ===== *)
(** * Processes of the mini-shell

    The operating system under the trees of [Shell]: processes with an
    environment, a working directory and descriptors, stepped one system call
    at a time in any order.  What the kernel decides (success, the descriptor or
    the process number it hands out, when a program ends) is the choice that
    labels a step. *)

From Stdlib Require Import ZArith Lia Ascii.
From stdpp Require Import gmap list strings.
From S2P Require Import Prelude CString Shell.
Open Scope Z_scope.

(** ** State *)

(** Open file descriptions; the number tells two openings apart. *)
Inductive desc :=
  | Inherited (n : Z)
  | FileOpened (id : Z) (path : string) (flags : Z)
  | PipeRead (id : Z)
  | PipeWrite (id : Z).

Inductive pstate :=
  | Running (b : process)
  | External (argv : list string)
  | Zombie (st : wait_status).

Record proc := Proc {
  p_parent : Z;
  p_env : gmap string string;
  p_dirs : list string;
  p_fds : gmap Z desc;
  p_state : pstate
}.

Record sys := Sys { procs : gmap Z proc; opens : Z }.

Inductive choice :=
  | Plain
  | Failed
  | Opened (fd : Z)
  | Piped (r w : Z)
  | PipeFailed (r w : Z)
  | Forked (pid : Z)
  | Ends (st : wait_status).

(** ** Steps *)

Definition becomes (p : proc) (b : pstate) : proc := Proc (p_parent p) (p_env p) (p_dirs p) (p_fds p) b.
Definition with_fds (p : proc) (fds : gmap Z desc) : proc := Proc (p_parent p) (p_env p) (p_dirs p) fds (p_state p).
Definition with_env (p : proc) (env : gmap string string) : proc := Proc (p_parent p) env (p_dirs p) (p_fds p) (p_state p).
Definition with_dirs (p : proc) (dirs : list string) : proc := Proc (p_parent p) (p_env p) dirs (p_fds p) (p_state p).

Definition update (s : sys) (pid : Z) (p : proc) : sys := Sys (<[pid := p]> (procs s)) (opens s).
Definition goes (s : sys) (pid : Z) (p : proc) (b : process) : option sys := Some (update s pid (becomes p (Running b))).

Definition bad_name (name : string) : bool := String.eqb name "" || strchr name "="%char.

Definition unused (fds : gmap Z desc) (fd : Z) : bool := (0 <=? fd) && bool_decide (fds !! fd = None).

Definition step_process (s : sys) (pid : Z) (p : proc) (b : process) (c : choice) : option sys :=
  match b, c with
  | Exit n, Plain => Some (update s pid (becomes p (Zombie (Exited (Z.land n 255)))))
  | Crash, Plain => Some (update s pid (becomes p (Zombie Signaled)))
  | Environ k, Plain => goes s pid p (k (p_env p))
  | Setenv name value k, Plain =>
      if bad_name name then goes s pid p (k (-1))
      else match value with
           | Some v => goes s pid (with_env p (<[name := v]> (p_env p))) (k 0)
           | None => Some (update s pid (becomes p (Zombie Signaled)))
           end
  | Setenv _ _ k, Failed => goes s pid p (k (-1))
  | Chdir (Some d) k, Plain => goes s pid (with_dirs p (p_dirs p ++ [d])) (k 0)
  | Chdir _ k, Failed => goes s pid p (k (-1))
  | Open path flags k, Opened fd =>
      if unused (p_fds p) fd then
        Some (Sys (<[pid := becomes (with_fds p (<[fd := FileOpened (opens s) path flags]> (p_fds p))) (Running (k fd))]> (procs s))
                  (opens s + 1))
      else None
  | Open _ _ k, Failed => goes s pid p (k (-1))
  | Dup2 o n k, Plain =>
      goes s pid (match p_fds p !! o with Some d => with_fds p (<[n := d]> (p_fds p)) | None => p end) k
  | Close fd k, Plain => goes s pid (with_fds p (delete fd (p_fds p))) k
  | Pipe k, Piped r w =>
      if unused (p_fds p) r && unused (p_fds p) w && negb (r =? w) then
        Some (Sys (<[pid := becomes (with_fds p (<[w := PipeWrite (opens s)]> (<[r := PipeRead (opens s)]> (p_fds p))))
                              (Running (k true r w))]> (procs s)) (opens s + 1))
      else None
  | Pipe k, PipeFailed r w => goes s pid p (k false r w)
  | Fork child k, Forked new =>
      if (0 <? new) && bool_decide (procs s !! new = None) then
        Some (Sys (<[new := Proc pid (p_env p) (p_dirs p) (p_fds p) (Running child)]>
                   (<[pid := becomes p (Running (k (Some new)))]> (procs s))) (opens s))
      else None
  | Fork _ k, Failed => goes s pid p (k None)
  | Waitpid q k, Plain =>
      match procs s !! q with
      | Some child =>
          match p_state child with
          | Zombie st =>
              if p_parent child =? pid then
                Some (Sys (<[pid := becomes p (Running (k st))]> (delete q (procs s))) (opens s))
              else None
          | _ => None
          end
      | None => None
      end
  | Exec argv _, Plain => Some (update s pid (becomes p (External argv)))
  | Exec _ k, Failed => goes s pid p k
  | Report _ _ k, Plain => goes s pid p k
  | _, _ => None
  end.

Definition step (s : sys) (pid : Z) (c : choice) : option sys :=
  match procs s !! pid with
  | None => None
  | Some p =>
      match p_state p, c with
      | Running b, _ => step_process s pid p b c
      | External _, Ends st => Some (update s pid (becomes p (Zombie st)))
      | _, _ => None
      end
  end.

Fixpoint run (s : sys) (l : list (Z * choice)) : option sys :=
  match l with [] => Some s | (pid, c) :: l => s ← step s pid c; run s l end.

(** The shell alone, as process 1. *)
Definition std_fds : gmap Z desc := {[0 := Inherited 0; 1 := Inherited 1; 2 := Inherited 2]}.
Definition shell_process (env : gmap string string) (lines : list (option command)) : proc :=
  Proc 0 env [] std_fds (Running (start_shell lines)).
Definition initial (env : gmap string string) (lines : list (option command)) : sys :=
  Sys {[1 := shell_process env lines]} 0.

(** ** No child and no descriptor is left behind *)

Definition std : gset Z := {[0; 1; 2]}.

(** [clean live open b]: a process with the children [live] and the descriptors
    [open] that goes on as [b] waits for every child before it ends or runs a
    program, and runs programs with the standard descriptors only. *)
Fixpoint clean (live open : gset Z) (b : process) : Prop :=
  match b with
  | Exit _ | Crash => live = ∅
  | Environ k => forall env, clean live open (k env)
  | Setenv _ v k => (v = None -> live = ∅) /\ forall r, clean live open (k r)
  | Chdir _ k => forall r, clean live open (k r)
  | Open _ _ k =>
      (forall fd, 0 <= fd -> fd ∉ open -> clean live ({[fd]} ∪ open) (k fd)) /\ clean live open (k (-1))
  | Dup2 o n k => clean live (if decide (o ∈ open) then {[n]} ∪ open else open) k
  | Close fd k => clean live (open ∖ {[fd]}) k
  | Pipe k =>
      forall r w, 0 <= r -> 0 <= w -> r <> w -> r ∉ open -> w ∉ open -> clean live ({[w]} ∪ ({[r]} ∪ open)) (k true r w)
  | Fork child k => clean ∅ open child /\ forall pid, pid ∉ live -> clean ({[pid]} ∪ live) open (k (Some pid))
  | Waitpid pid k => pid ∈ live /\ forall st, clean (live ∖ {[pid]}) open (k st)
  | Exec _ k => live = ∅ /\ open = std /\ clean live open k
  | Report _ _ k => clean live open k
  end.

Lemma not_std_minus_one : -1 ∉ std.
Proof. unfold std. rewrite !elem_of_union, !elem_of_singleton. lia. Qed.

Lemma redirect_to_clean live path flags target k :
  target ∈ std -> clean live std k -> clean live std (redirect_to path flags target k).
Proof.
  intros Ht Hk. unfold redirect_to. simpl. split.
  - intros fd Hfd Hn. rewrite decide_True by set_solver.
    replace (({[target]} ∪ ({[fd]} ∪ std)) ∖ {[fd]}) with std by set_solver. done.
  - pose proof not_std_minus_one as Hm. rewrite decide_False by done.
    replace (std ∖ {[-1]}) with std by set_solver. done.
Qed.

Lemma redirect_both_clean live path flags k :
  clean live std k -> clean live std (redirect_both path flags k).
Proof.
  intros Hk. unfold redirect_both. simpl. split.
  - intros fd Hfd Hn. rewrite (decide_True (P := fd ∈ {[fd]} ∪ std)) by set_solver.
    rewrite decide_True by set_solver.
    assert (STDOUT_FILENO ∈ std /\ STDERR_FILENO ∈ std) as [? ?] 
      by (unfold std, STDOUT_FILENO, STDERR_FILENO; split; rewrite !elem_of_union, !elem_of_singleton; lia).
    replace (({[STDERR_FILENO]} ∪ ({[STDOUT_FILENO]} ∪ ({[fd]} ∪ std))) ∖ {[fd]}) with std by set_solver. done.
  - pose proof not_std_minus_one as Hm. rewrite !decide_False by done.
    replace (std ∖ {[-1]}) with std by set_solver. done.
Qed.

Lemma redirections_clean live s k : clean live std k -> clean live std (set_up_redirections s k).
Proof.
  intros Hk. unfold set_up_redirections. cbn [clean]. intros env.
  assert (Hin : STDIN_FILENO ∈ std /\ STDOUT_FILENO ∈ std /\ STDERR_FILENO ∈ std)
    by (unfold std, STDIN_FILENO, STDOUT_FILENO, STDERR_FILENO; split_done; rewrite !elem_of_union, !elem_of_singleton; lia).
  destruct Hin as (? & ? & ?). cbv zeta.
  destruct (get_first env (s_in s)), (get_first env (s_out s)), (get_first env (s_err s));
    repeat case_match; repeat first [done | apply redirect_to_clean | apply redirect_both_clean].
Qed.

Lemma exec_program_clean s : clean ∅ std (exec_program s).
Proof. unfold exec_program. simpl. intros env. by destruct (get_argv env s). Qed.

Definition returns_clean (k : Z -> process) : Prop := forall st, clean ∅ std (k st).

Lemma parse_simple_clean s level k : returns_clean k -> clean ∅ std (parse_simple s level k).
Proof.
  intros Hk. unfold parse_simple. simpl. split.
  - apply redirections_clean, exec_program_clean.
  - intros pid _. split; [set_solver|]. intros st. replace (({[pid]} ∪ ∅) ∖ {[pid]}) with (∅ : gset Z) by set_solver. apply Hk.
Qed.

Lemma builtin_cd_clean s level k : returns_clean k -> clean ∅ std (builtin_cd s level k).
Proof.
  intros Hk. unfold builtin_cd. simpl. split.
  - apply redirections_clean. simpl. intros _ r. by destruct (r =? -1).
  - intros pid _. split; [set_solver|]. intros st _ r. replace (({[pid]} ∪ ∅) ∖ {[pid]}) with (∅ : gset Z) by set_solver. apply Hk.
Qed.

Lemma two_waits_clean open pid1 pid2 (k : Z -> process) other :
  (forall st, clean ∅ open (k st)) ->
  clean ({[pid2]} ∪ ({[pid1]} ∪ ∅)) open (Waitpid pid1 (fun _ => Waitpid pid2 (fun st => k (wait_status_of st other)))) \/ pid1 = pid2.
Proof.
  intros Hk. destruct (decide (pid1 = pid2)) as [E|Hne]; [by right|left]. simpl. split; [set_solver|]. intros _. split; [set_solver|].
  intros st. replace ((({[pid2]} ∪ ({[pid1]} ∪ ∅)) ∖ {[pid1]}) ∖ {[pid2]}) with (∅ : gset Z) by set_solver. apply Hk.
Qed.

Lemma run_in_parallel_clean c1 c2 level k :
  clean ∅ std c1 -> clean ∅ std c2 -> returns_clean k -> clean ∅ std (run_in_parallel c1 c2 level k).
Proof.
  intros H1 H2 Hk. unfold run_in_parallel. cbn [clean]. split; [done|]. intros pid1 _. split; [done|]. intros pid2 Hp.
  destruct (two_waits_clean std pid1 pid2 k 0 Hk) as [Hc| ->]; [exact Hc|set_solver].
Qed.

Lemma run_on_pipe_clean c1 c2 level k :
  clean ∅ std c1 -> clean ∅ std c2 -> returns_clean k -> clean ∅ std (run_on_pipe c1 c2 level k).
Proof.
  intros H1 H2 Hk. unfold run_on_pipe. cbn [clean]. intros r w _ _ Hrw Hr Hw.
  assert (Ho : STDIN_FILENO ∈ std /\ STDOUT_FILENO ∈ std)
    by (unfold std, STDIN_FILENO, STDOUT_FILENO; split_done; rewrite !elem_of_union, !elem_of_singleton; lia).
  destruct Ho as [Hin Hout]. split; [|intros pid1 _; split].
  - rewrite decide_True by set_solver.
    replace (({[STDOUT_FILENO]} ∪ (({[w]} ∪ ({[r]} ∪ std)) ∖ {[r]})) ∖ {[w]}) with std by set_solver. done.
  - rewrite decide_True by set_solver.
    replace (({[STDIN_FILENO]} ∪ (({[w]} ∪ ({[r]} ∪ std)) ∖ {[w]})) ∖ {[r]}) with std by set_solver. done.
  - intros pid2 Hp. replace ((({[w]} ∪ ({[r]} ∪ std)) ∖ {[r]}) ∖ {[w]}) with std by set_solver.
    destruct (two_waits_clean std pid1 pid2 k 0 Hk) as [Hc| ->]; [exact Hc|set_solver].
Qed.

Lemma parse_none_clean s level k : returns_clean k -> clean ∅ std (parse_none s level k).
Proof.
  intros Hk. unfold parse_none. cbn [clean]. intros env.
  destruct (get_word env (verb s)) as [text|]; [|done]. destruct (verb s) as [|p parts]; [done|].
  destruct (strchr text "="%char).
  { destruct parts as [|q value]; [done|]. split; [done|exact Hk]. }
  destruct (String.eqb (string_of p) "cd"); [by apply builtin_cd_clean|].
  destruct (String.eqb (string_of p) "exit" || String.eqb (string_of p) "quit"); [done|]. by apply parse_simple_clean.
Qed.

Lemma parse_command_clean c level k : returns_clean k -> clean ∅ std (parse_command c level k).
Proof.
  revert level k. induction c as [s|op c1 IH1 c2 IH2]; intros level k Hk; simpl; [by apply parse_none_clean|].
  assert (Hchild : forall c, (forall level k, returns_clean k -> clean ∅ std (parse_command c level k)) ->
    clean ∅ std (parse_command c (level + 1) Exit)) by (intros c Hc; by apply Hc).
  destruct op.
  - apply IH1. intros st. by apply IH2.
  - apply run_in_parallel_clean; auto.
  - apply IH1. intros st. destruct (st =? 0); [by apply IH2|apply Hk].
  - apply IH1. intros st. destruct (negb (st =? 0)); [by apply IH2|apply Hk].
  - apply run_on_pipe_clean; auto.
  - apply Hk.
Qed.

Lemma start_shell_clean lines : clean ∅ std (start_shell lines).
Proof.
  induction lines as [|[root|] lines IH]; [done| |done]. simpl. apply parse_command_clean.
  intros st. by destruct (st =? SHELL_EXIT).
Qed.

(** ** The invariant of the system *)

Definition children (s : sys) (pid : Z) : gset Z := dom (filter (fun e => p_parent e.2 = pid) (procs s)).

Lemma elem_of_children s pid q :
  q ∈ children s pid <-> exists p, procs s !! q = Some p /\ p_parent p = pid.
Proof.
  unfold children. rewrite elem_of_dom. unfold is_Some.
  setoid_rewrite map_lookup_filter_Some. naive_solver.
Qed.

Definition proc_good (s : sys) (pid : Z) (p : proc) : Prop :=
  match p_state p with
  | Running b => clean (children s pid) (dom (p_fds p)) b
  | External _ => children s pid = ∅ /\ dom (p_fds p) = std
  | Zombie _ => children s pid = ∅
  end.

Record good (s : sys) : Prop := {
  gd_proc pid p : procs s !! pid = Some p -> proc_good s pid p;
  gd_parent pid p : procs s !! pid = Some p -> 0 < pid /\ (p_parent p = 0 \/ p_parent p ∈ dom (procs s))
}.

(** A step that keeps the processes keeps everyone's children. *)
Lemma children_update s pid p p' q :
  procs s !! pid = Some p -> p_parent p' = p_parent p -> forall n, children (Sys (<[pid := p']> (procs s)) n) q = children s q.
Proof.
  intros Hp Hpar n. apply set_eq. intros x. rewrite !elem_of_children. simpl.
  destruct (decide (x = pid)) as [->|Hne].
  - rewrite lookup_insert_eq, Hp. naive_solver.
  - by rewrite lookup_insert_ne by done.
Qed.

Lemma good_update s pid p p' n :
  good s -> procs s !! pid = Some p -> p_parent p' = p_parent p ->
  (proc_good s pid p -> match p_state p' with
     | Running b => clean (children s pid) (dom (p_fds p')) b
     | External _ => children s pid = ∅ /\ dom (p_fds p') = std
     | Zombie _ => children s pid = ∅ end) ->
  good (Sys (<[pid := p']> (procs s)) n).
Proof.
  intros [Hg Hpa] Hp Hpar Hnew. split.
  - intros q p0. simpl. destruct (decide (q = pid)) as [->|Hne].
    + rewrite lookup_insert_eq. intros [= <-]. unfold proc_good. rewrite (children_update s pid p p') by done.
      apply Hnew. by apply Hg.
    + rewrite lookup_insert_ne by done. intros Hq. unfold proc_good. rewrite (children_update s pid p p') by done.
      by apply Hg.
  - intros q p0. simpl. destruct (decide (q = pid)) as [->|Hne].
    + rewrite lookup_insert_eq. intros [= <-]. rewrite Hpar, dom_insert. destruct (Hpa pid p Hp) as [? [?|?]]; set_solver.
    + rewrite lookup_insert_ne by done. intros Hq. rewrite dom_insert. destruct (Hpa q p0 Hq) as [? [?|?]]; set_solver.
Qed.

Lemma goes_good s pid p p' b b' s' :
  good s -> procs s !! pid = Some p -> p_state p = Running b -> p_parent p' = p_parent p ->
  goes s pid p' b' = Some s' ->
  (clean (children s pid) (dom (p_fds p)) b -> clean (children s pid) (dom (p_fds p')) b') ->
  good s'.
Proof.
  intros Hg Hp Hst Hpar [= <-] Hc. eapply good_update; [done|exact Hp|done|]. simpl. unfold proc_good. by rewrite Hst.
Qed.

Lemma fork_good s pid p child k new :
  good s -> procs s !! pid = Some p -> p_state p = Running (Fork child k) -> 0 < new -> procs s !! new = None ->
  good (Sys (<[new := Proc pid (p_env p) (p_dirs p) (p_fds p) (Running child)]>
          (<[pid := becomes p (Running (k (Some new)))]> (procs s))) (opens s)).
Proof.
  intros [Hg Hpa] Hp Hst Hnew Hnone. pose proof (Hg pid p Hp) as Hc. unfold proc_good in Hc. rewrite Hst in Hc.
  destruct Hc as [Hchild Hk]. assert (Hne : new <> pid) by (intros ->; congruence).
  assert (Hnot : new ∉ children s pid) by (rewrite elem_of_children; intros (x & Hx & _); congruence).
  set (s' := Sys _ _). assert (Hch : forall q, children s' q = if decide (q = pid) then {[new]} ∪ children s pid else children s q).
  { intros q. apply set_eq. intros x. rewrite elem_of_children. unfold s'. simpl.
    destruct (decide (x = new)) as [->|Hxn].
    - rewrite lookup_insert_eq. case_decide as Hq; [set_solver|]. rewrite elem_of_children, Hnone. naive_solver.
    - rewrite lookup_insert_ne by done. destruct (decide (x = pid)) as [->|Hxp].
      + rewrite lookup_insert_eq. case_decide as Hq; rewrite ?elem_of_union, elem_of_singleton || idtac;
          rewrite ?elem_of_children, ?Hp; subst; naive_solver.
      + rewrite lookup_insert_ne by done. case_decide as Hq; rewrite ?elem_of_union, ?elem_of_singleton, elem_of_children;
          subst; naive_solver. }
  assert (Hempty : children s new = ∅).
  { apply set_eq. intros x. rewrite elem_of_children. split; [|set_solver]. intros (px & Hx & Hpx).
    destruct (Hpa x px Hx) as [_ [H0|Hd]]; [lia|]. rewrite Hpx in Hd. apply elem_of_dom in Hd as [? Hd]. congruence. }
  split.
  - intros q pq. unfold proc_good. rewrite Hch. unfold s'. simpl. destruct (decide (q = new)) as [->|Hqn].
    + rewrite lookup_insert_eq. intros [= <-]. simpl. rewrite decide_False by done. by rewrite Hempty.
    + rewrite lookup_insert_ne by done. destruct (decide (q = pid)) as [->|Hqp].
      * rewrite lookup_insert_eq. intros [= <-]. simpl. by apply Hk.
      * rewrite lookup_insert_ne by done. intros Hq. by apply (Hg q pq).
  - intros q pq. unfold s'. simpl. rewrite !dom_insert. destruct (decide (q = new)) as [->|Hqn].
    + rewrite lookup_insert_eq. intros [= <-]. simpl. split; [done|right]. set_solver.
    + rewrite lookup_insert_ne by done. destruct (decide (q = pid)) as [->|Hqp].
      * rewrite lookup_insert_eq. intros [= <-]. simpl. destruct (Hpa pid p Hp) as [? [?|?]]; set_solver.
      * rewrite lookup_insert_ne by done. intros Hq. destruct (Hpa q pq Hq) as [? [?|?]]; set_solver.
Qed.

Lemma wait_good s pid p q child k st :
  good s -> procs s !! pid = Some p -> p_state p = Running (Waitpid q k) ->
  procs s !! q = Some child -> p_state child = Zombie st -> p_parent child = pid ->
  good (Sys (<[pid := becomes p (Running (k st))]> (delete q (procs s))) (opens s)).
Proof.
  intros [Hg Hpa] Hp Hst Hq Hzs Hqp. pose proof (Hg pid p Hp) as Hc. unfold proc_good in Hc. rewrite Hst in Hc.
  destruct Hc as [Hin Hk]. assert (Hne : q <> pid) by (intros ->; congruence).
  pose proof (Hg q child Hq) as Hcq. unfold proc_good in Hcq. rewrite Hzs in Hcq.
  set (s' := Sys _ _). assert (Hch : forall x, children s' x = children s x ∖ {[q]}).
  { intros x. apply set_eq. intros y. rewrite elem_of_difference, elem_of_singleton, !elem_of_children. unfold s'. simpl.
    destruct (decide (y = pid)) as [->|Hyp].
    - rewrite lookup_insert_eq, Hp. naive_solver.
    - rewrite lookup_insert_ne by done. destruct (decide (y = q)) as [->|Hyq].
      + rewrite lookup_delete_eq. naive_solver.
      + rewrite lookup_delete_ne by done. naive_solver. }
  split.
  - intros x px. unfold proc_good. rewrite Hch. unfold s'. simpl. destruct (decide (x = pid)) as [->|Hxp].
    + rewrite lookup_insert_eq. intros [= <-]. simpl. apply Hk.
    + rewrite lookup_insert_ne by done. destruct (decide (x = q)) as [->|Hxq]; [by rewrite lookup_delete_eq|].
      rewrite lookup_delete_ne by done. intros Hx. pose proof (Hg x px Hx) as Hgx. unfold proc_good in Hgx.
      assert (Hnq : q ∉ children s x) by (rewrite elem_of_children; naive_solver).
      by replace (children s x ∖ {[q]}) with (children s x) by set_solver.
  - intros x px. unfold s'. simpl. rewrite dom_insert, dom_delete.
    assert (Hkeep : forall x px, procs s !! x = Some px -> p_parent px = 0 \/ p_parent px ∈ {[pid]} ∪ dom (procs s) ∖ {[q]}).
    { intros y py Hy. destruct (Hpa y py Hy) as [_ [?|Hd]]; [by left|right].
      destruct (decide (p_parent py = q)) as [E|Hn]; [|set_solver].
      assert (Hyq : y ∈ children s q) by (rewrite elem_of_children; by exists py). rewrite Hcq in Hyq. set_solver. }
    destruct (decide (x = pid)) as [->|Hxp].
    + rewrite lookup_insert_eq. intros [= <-]. simpl. split; [by apply (Hpa pid p)|by apply (Hkeep pid p)].
    + rewrite lookup_insert_ne by done. intros [Hx1 Hx2]%lookup_delete_Some. split; [by apply (Hpa x px)|by apply (Hkeep x px)].
Qed.

(** The steps in which [fork] or [pipe] fails. *)
Definition out_of_resources (b : process) (c : choice) : bool :=
  match b, c with
  | Fork _ _, Failed => true
  | Pipe _, PipeFailed _ _ => true
  | _, _ => false
  end.

Lemma unused_spec (fds : gmap Z desc) fd : unused fds fd = true <-> 0 <= fd /\ fd ∉ dom fds.
Proof. unfold unused. rewrite andb_true_iff, Z.leb_le, bool_decide_eq_true, not_elem_of_dom. done. Qed.

Lemma step_process_good s pid p b c s' :
  good s -> procs s !! pid = Some p -> p_state p = Running b -> out_of_resources b c = false ->
  step_process s pid p b c = Some s' -> good s'.
Proof.
  intros Hg Hp Hst Hok Hs.
  pose proof (gd_proc _ Hg pid p Hp) as Hc. unfold proc_good in Hc. rewrite Hst in Hc.
  assert (Hgo : forall p' b', p_parent p' = p_parent p -> goes s pid p' b' = Some s' ->
    (clean (children s pid) (dom (p_fds p)) b -> clean (children s pid) (dom (p_fds p')) b') -> good s').
  { intros p' b' Hpar Hgo Hcl. by eapply goes_good. }
  assert (Hup : forall st, Some (update s pid (becomes p st)) = Some s' ->
    (match st with Running b => clean (children s pid) (dom (p_fds p)) b
       | External _ => children s pid = ∅ /\ dom (p_fds p) = std | Zombie _ => children s pid = ∅ end) -> good s').
  { intros st [= <-] Hn. by eapply good_update. }
  destruct b as [n| |k|name v k|d k|path fl k|o n k|fd k|k|child k|q k|argv k|msg l k]; simpl in Hs, Hc.
  - destruct c; try done. by eapply Hup.
  - destruct c; try done. by eapply Hup.
  - destruct c; try done. eapply Hgo; [| exact Hs |]; [done|]. intros _. apply Hc.
  - destruct Hc as [Hc1 Hc2]. destruct c; try done.
    + destruct (bad_name name); [eapply Hgo; [|exact Hs|]; [done|intros _; apply Hc2]|].
      destruct v as [v|]; [|by eapply Hup; [exact Hs|apply Hc1]].
      eapply Hgo; [|exact Hs|]; [done|]. intros _. apply Hc2.
    + eapply Hgo; [|exact Hs|]; [done|intros _; apply Hc2].
  - destruct d, c; try done; (eapply Hgo; [|exact Hs|]; [done|intros _; apply Hc]).
  - destruct Hc as [Hc1 Hc2]. destruct c; try done; [by eapply Hgo; [|exact Hs|intros _; apply Hc2]|].
    destruct (unused (p_fds p) fd) eqn:Eu; [|done]. apply unused_spec in Eu as [? ?]. simplify_eq.
    eapply good_update; [done|exact Hp|done|]. intros _. simpl. rewrite dom_insert_L. by apply Hc1.
  - destruct c; try done. destruct (p_fds p !! o) eqn:Eo.
    + eapply Hgo; [|exact Hs|]; [done|]. intros _. simpl. rewrite dom_insert_L.
      apply elem_of_dom_2 in Eo. by rewrite decide_True in Hc.
    + eapply Hgo; [|exact Hs|]; [done|]. intros _. apply not_elem_of_dom in Eo. by rewrite decide_False in Hc.
  - destruct c; try done. eapply Hgo; [|exact Hs|]; [done|]. intros _. simpl. by rewrite dom_delete_L.
  - destruct c as [| |fd|r w|r w| |]; try done.
    destruct (unused (p_fds p) r) eqn:Er; [|done]. destruct (unused (p_fds p) w) eqn:Ew; [|done].
    destruct (Z.eqb_spec r w); [done|]. apply unused_spec in Er as [? ?], Ew as [? ?]. simpl in Hs. simplify_eq.
    eapply good_update; [done|exact Hp|done|]. intros _. simpl. rewrite !dom_insert_L. by apply Hc.
  - destruct c; try done. destruct (Z.ltb_spec 0 pid0); [|done]. case_bool_decide; [|done]. simpl in Hs. simplify_eq.
    by apply fork_good.
  - destruct c; try done. destruct (procs s !! q) as [pq|] eqn:Eq; [|done].
    destruct (p_state pq) eqn:Est; try done. destruct (Z.eqb_spec (p_parent pq) pid); [|done]. simplify_eq.
    by eapply wait_good.
  - destruct Hc as (Hc1 & Hc2 & Hc3). destruct c; try done; [by eapply Hup|].
    eapply Hgo; [|exact Hs|]; [done|]. done.
  - destruct c; try done. eapply Hgo; [|exact Hs|]; done.
Qed.

(** A run in which [fork] and [pipe] never fail. *)
Fixpoint run_with_resources (s : sys) (l : list (Z * choice)) : option sys :=
  match l with
  | [] => Some s
  | (pid, c) :: l =>
      p ← procs s !! pid;
      match p_state p with
      | Running b => if out_of_resources b c then None else s ← step s pid c; run_with_resources s l
      | _ => s ← step s pid c; run_with_resources s l
      end
  end.

Lemma step_good s pid c s' :
  good s -> (forall p b, procs s !! pid = Some p -> p_state p = Running b -> out_of_resources b c = false) ->
  step s pid c = Some s' -> good s'.
Proof.
  intros Hg Hok Hs. unfold step in Hs. destruct (procs s !! pid) as [p|] eqn:Hp; [|done].
  destruct (p_state p) eqn:Hst; [by eapply step_process_good; eauto| |done].
  destruct c; try done. simplify_eq. eapply good_update; [done|exact Hp|done|].
  unfold proc_good. rewrite Hst. simpl. by intros [? _].
Qed.

Lemma run_good s l s' : good s -> run_with_resources s l = Some s' -> good s'.
Proof.
  revert s. induction l as [|[pid c] l IH]; intros s Hg Hr; [by simplify_eq/=|]. cbn [run_with_resources] in Hr.
  destruct (procs s !! pid) as [p|] eqn:Hp; [|done]. cbn [mbind option_bind] in Hr.
  destruct (p_state p) as [b| |] eqn:Hst.
  - destruct (out_of_resources b c) eqn:Ho; [done|]. destruct (step s pid c) as [s1|] eqn:Hs1; [|done].
    apply (IH s1); [|done]. eapply step_good; [done| |exact Hs1]. intros p0 b0 Hp0 Hb0. congruence.
  - destruct (step s pid c) as [s1|] eqn:Hs1; [|done].
    apply (IH s1); [|done]. eapply step_good; [done| |exact Hs1]. intros p0 b0 Hp0 Hb0. congruence.
  - destruct (step s pid c) as [s1|] eqn:Hs1; [|done].
    apply (IH s1); [|done]. eapply step_good; [done| |exact Hs1]. intros p0 b0 Hp0 Hb0. congruence.
Qed.

Lemma initial_good env lines : good (initial env lines).
Proof.
  split; unfold initial; simpl; intros pid p [<- <-]%lookup_singleton_Some.
  - unfold proc_good. simpl. assert (E : children (initial env lines) 1 = ∅).
    { apply set_eq. intros q. rewrite elem_of_children. simpl. split; [|set_solver].
      intros (p & [<- <-]%lookup_singleton_Some & Hp). done. }
    unfold initial in E. rewrite E. unfold std_fds. rewrite !dom_insert_L, dom_singleton_L.
    replace ({[0]} ∪ ({[1]} ∪ {[2]})) with std by (unfold std; set_solver). apply start_shell_clean.
  - split; [done|by left].
Qed.

(** C9: nothing is left behind.  While [fork] and [pipe] succeed, in every state
    that the shell and its children can reach, whatever the order of their
    steps: a process that runs a program holds exactly the standard descriptors
    (no stray end of a pipe) and has no children, and a process that has ended
    has no children, so every child was waited for by its parent. *)
Theorem shell_leaves_nothing env lines l s pid p :
  run_with_resources (initial env lines) l = Some s -> procs s !! pid = Some p ->
  match p_state p with
  | Running _ => True
  | External _ => dom (p_fds p) = std /\ children s pid = ∅
  | Zombie _ => children s pid = ∅
  end.
Proof.
  intros Hr Hp. pose proof (gd_proc _ (run_good _ _ _ (initial_good env lines) Hr) pid p Hp) as Hg.
  unfold proc_good in Hg. destruct (p_state p); tauto.
Qed.
