(* ===== verification/ShellProps.v ===== *)
(** * What the mini-shell computes

    Words and argument vectors, the descriptors that redirections install, the
    ends of a pipe, and the lines the shell reads. *)

From Stdlib Require Import ZArith Lia Ascii.
From Stdlib Require String.
From stdpp Require Import gmap list strings.
From S2P Require Import Prelude CString Shell ShellSystem.
Open Scope Z_scope.

(** ** Words *)

(** What a part stands for. *)
Definition part_text (env : gmap string string) (p : part) : string :=
  if expand p then default ""%string (env !! string_of p) else string_of p.

Definition word_text (env : gmap string string) (w : word) : string := foldr (fun p s => part_text env p +:+ s) ""%string w.

Lemma append_assoc (a b c : string) : (a +:+ b) +:+ c = a +:+ (b +:+ c).
Proof. induction a as [|x a IH]; [done|]. by apply (f_equal (String x)). Qed.

Lemma append_nil_r (a : string) : a +:+ "" = a.
Proof. induction a as [|x a IH]; [done|]. by apply (f_equal (String x)). Qed.

Lemma get_word_from_ok env w acc :
  get_word_from env w (Some acc) = Some (acc +:+ word_text env w).
Proof.
  revert acc. induction w as [|p w IH]; intros acc; simpl; [by rewrite append_nil_r|].
  rewrite IH. f_equal. by rewrite append_assoc.
Qed.

Lemma get_word_ok env w : get_word env w = match w with [] => None | _ => Some (word_text env w) end.
Proof. destruct w as [|p w]; [done|]. unfold get_word. simpl. by rewrite get_word_from_ok. Qed.

(** The argument vector.  [get_argv] builds the expanded verb followed by the
    expanded parameters, each the concatenation of its parts with the variables
    replaced by their values or by nothing; it gives up exactly when a word has
    no parts. *)
Theorem get_argv_expands env c :
  get_argv env c =
    if decide ([] ∈ verb c :: params c) then None
    else Some (word_text env <$> verb c :: params c).
Proof.
  assert (Hps : forall ws, get_params env ws = if decide ([] ∈ ws) then None else Some (word_text env <$> ws)).
  { induction ws as [|w ws IH]; [by rewrite decide_False by apply not_elem_of_nil|]. simpl. rewrite get_word_ok.
    destruct w as [|p w]; [by rewrite decide_True by by left|]. cbn [mbind option_bind]. rewrite IH.
    destruct (decide ([] ∈ ws)); [by rewrite decide_True by by right|].
    rewrite decide_False; [done|]. rewrite elem_of_cons. naive_solver. }
  unfold get_argv. rewrite get_word_ok, Hps. destruct (verb c) as [|p w] eqn:Ev; cbn [mbind option_bind];
    [by rewrite decide_True by by left|]. destruct (decide ([] ∈ params c)); [by rewrite decide_True by by right|].
  rewrite decide_False; [done|]. rewrite elem_of_cons. naive_solver.
Qed.

(** ** Redirections *)

(** A file to open and the descriptors it goes to. *)
Record opening := Opening { op_path : string; op_flags : Z; op_targets : list Z }.

(** The openings of a command, in order: input first; outputs with the same name
    share one opening. *)
Definition openings (s : simple_command) (env : gmap string string) : list opening :=
  match get_first env (s_in s) with Some i => [Opening i O_RDONLY [0]] | None => [] end ++
  match get_first env (s_out s), get_first env (s_err s) with
  | Some o, Some e =>
      if String.eqb o e then [Opening o (out_flags s) [1; 2]]
      else [Opening o (out_flags s) [1]; Opening e (err_flags s) [2]]
  | Some o, None => [Opening o (out_flags s) [1]]
  | None, Some e => [Opening e (err_flags s) [2]]
  | None, None => []
  end.

Fixpoint dup_all (fd : Z) (ts : list Z) (k : process) : process :=
  match ts with [] => k | t :: ts => Dup2 fd t (dup_all fd ts k) end.

Fixpoint perform (l : list opening) (k : process) : process :=
  match l with
  | [] => k
  | o :: l => Open (op_path o) (op_flags o) (fun fd => dup_all fd (op_targets o) (Close fd (perform l k)))
  end.

Lemma redirections_perform s k :
  exists f, set_up_redirections s k = Environ f /\ forall env, f env = perform (openings s env) k.
Proof.
  eexists. split; [reflexivity|]. intros env. unfold openings. cbv beta zeta.
  destruct (get_first env (s_in s)), (get_first env (s_out s)), (get_first env (s_err s)); try reflexivity;
    simpl; destruct (String.eqb _ _); reflexivity.
Qed.

(** What they leave: each opening that succeeds is installed on its targets. *)
Definition install (n : Z) (o : opening) (fds : gmap Z desc) : gmap Z desc :=
  foldl (fun fds t => <[t := FileOpened n (op_path o) (op_flags o)]> fds) fds (op_targets o).

Fixpoint installed (l : list opening) (os : list (option Z)) (fds : gmap Z desc) (n : Z) : gmap Z desc * Z :=
  match l, os with
  | o :: l, Some _ :: os => installed l os (install n o fds) (n + 1)
  | _ :: l, None :: os => installed l os fds n
  | _, _ => (fds, n)
  end.

Definition opened (o : option Z) : choice := match o with Some fd => Opened fd | None => Failed end.

Fixpoint choices (l : list opening) (os : list (option Z)) : list choice :=
  match l, os with
  | o :: l, r :: os => opened r :: replicate (length (op_targets o)) Plain ++ Plain :: choices l os
  | _, _ => []
  end.

(** A process in a system. *)
Definition sys_at (s : sys) (pid : Z) (p : proc) (fds : gmap Z desc) (b : process) (n : Z) : sys :=
  Sys (<[pid := Proc (p_parent p) (p_env p) (p_dirs p) fds (Running b)]> (procs s)) n.

Lemma run_app s l1 l2 : run s (l1 ++ l2) = (run s l1 ≫= fun s => run s l2).
Proof. revert s. induction l1 as [|[pid c] l1 IH]; intros s; [done|]. simpl. by destruct (step s pid c); simpl. Qed.

Ltac step_sys_at :=
  unfold step, sys_at; simpl; rewrite lookup_insert_eq; simpl; unfold goes, update; simpl;
  rewrite ?insert_insert_eq; reflexivity.

Lemma step_dup2 s pid p fds o t k n d :
  fds !! o = Some d -> step (sys_at s pid p fds (Dup2 o t k) n) pid Plain = Some (sys_at s pid p (<[t := d]> fds) k n).
Proof. intros Hd. unfold step, sys_at. simpl. rewrite lookup_insert_eq. simpl. rewrite Hd. unfold goes, update. simpl. by rewrite insert_insert_eq. Qed.

Lemma step_dup2_none s pid p fds o t k n :
  fds !! o = None -> step (sys_at s pid p fds (Dup2 o t k) n) pid Plain = Some (sys_at s pid p fds k n).
Proof. intros Hd. unfold step, sys_at. simpl. rewrite lookup_insert_eq. simpl. rewrite Hd. unfold goes, update. simpl. by rewrite insert_insert_eq. Qed.

Lemma step_close s pid p fds fd k n :
  step (sys_at s pid p fds (Close fd k) n) pid Plain = Some (sys_at s pid p (delete fd fds) k n).
Proof. step_sys_at. Qed.

Lemma step_open s pid p fds path fl k n fd :
  unused fds fd = true ->
  step (sys_at s pid p fds (Open path fl k) n) pid (Opened fd) =
    Some (sys_at s pid p (<[fd := FileOpened n path fl]> fds) (k fd) (n + 1)).
Proof. intros Hu. unfold step, sys_at. simpl. rewrite lookup_insert_eq. simpl. rewrite Hu. simpl. by rewrite insert_insert_eq. Qed.

Lemma step_open_failed s pid p fds path fl k n :
  step (sys_at s pid p fds (Open path fl k) n) pid Failed = Some (sys_at s pid p fds (k (-1)) n).
Proof. step_sys_at. Qed.

Lemma step_environ s pid p fds k n :
  step (sys_at s pid p fds (Environ k) n) pid Plain = Some (sys_at s pid p fds (k (p_env p)) n).
Proof. step_sys_at. Qed.

Lemma run_dup_all s pid p fds fd ts k n d :
  fds !! fd = Some d -> Forall (fun t => t <> fd) ts ->
  run (sys_at s pid p fds (dup_all fd ts k) n) (pair pid <$> replicate (length ts) Plain) =
    Some (sys_at s pid p (foldl (fun fds t => <[t := d]> fds) fds ts) k n).
Proof.
  revert fds. induction ts as [|t ts IH]; intros fds Hd Hne; [done|]. apply Forall_cons in Hne as [Hne Hts].
  cbn [dup_all length replicate fmap list_fmap run]. rewrite (step_dup2 _ _ _ _ _ _ _ _ d) by done.
  cbn [mbind option_bind foldl]. apply IH; [|done]. by rewrite lookup_insert_ne.
Qed.

Lemma run_dup_none s pid p fds fd ts k n :
  fds !! fd = None ->
  run (sys_at s pid p fds (dup_all fd ts k) n) (pair pid <$> replicate (length ts) Plain) = Some (sys_at s pid p fds k n).
Proof.
  intros Hd. induction ts as [|t ts IH]; [done|].
  cbn [dup_all length replicate fmap list_fmap run]. by rewrite step_dup2_none.
Qed.

Lemma foldl_insert_delete (fds : gmap Z desc) fd d ts :
  fds !! fd = None -> Forall (fun t => t <> fd) ts ->
  delete fd (foldl (fun fds t => <[t := d]> fds) (<[fd := d]> fds) ts) = foldl (fun fds t => <[t := d]> fds) fds ts.
Proof.
  revert fds. induction ts as [|t ts IH]; intros fds Hn Hts; simpl; [by apply delete_insert_id|].
  apply Forall_cons in Hts as [Hne Hts]. rewrite insert_insert_ne by done. apply IH; [|done].
  by rewrite lookup_insert_ne.
Qed.

(** The openings go to the standard descriptors. *)
Definition std_targets (l : list opening) : Prop := Forall (fun o => Forall (fun t => t ∈ std) (op_targets o)) l.

Lemma openings_std s env : std_targets (openings s env).
Proof.
  assert (H0 : 0 ∈ std /\ 1 ∈ std /\ 2 ∈ std)
    by (unfold std; split_done; rewrite !elem_of_union, !elem_of_singleton; lia).
  destruct H0 as (? & ? & ?). unfold std_targets, openings. apply Forall_app. split; repeat case_match; repeat constructor; done.
Qed.

Lemma install_dom n o fds :
  dom fds = std -> Forall (fun t => t ∈ std) (op_targets o) -> dom (install n o fds) = std.
Proof.
  unfold install. revert fds. induction (op_targets o) as [|t ts IH]; intros fds Hdom Ho; [done|].
  apply Forall_cons in Ho as [Ht Hts]. simpl. apply IH; [|done]. rewrite dom_insert_L, Hdom. set_solver.
Qed.

Lemma run_perform s pid p fds l k n os :
  dom fds = std -> std_targets l -> length os = length l ->
  Forall (fun o => forall fd, o = Some fd -> 0 <= fd /\ fd ∉ std) os ->
  run (sys_at s pid p fds (perform l k) n) (pair pid <$> choices l os) =
    Some (sys_at s pid p (installed l os fds n).1 k (installed l os fds n).2).
Proof.
  revert fds n os. induction l as [|o l IH]; intros fds n [|r os] Hdom Hl Hlen Hos; simpl in Hlen; try lia; [done|].
  apply Forall_cons in Hl as [Ho Hl]. apply Forall_cons in Hos as [Hr Hos].
  simpl choices. rewrite fmap_cons, fmap_app, fmap_cons.
  destruct r as [fd|]; cbn [run opened perform installed].
  - destruct (Hr fd eq_refl) as [Hfd Hnew]. assert (Hnone : fds !! fd = None) by (apply not_elem_of_dom; by rewrite Hdom).
    assert (Hts : Forall (fun t => t <> fd) (op_targets o)).
    { eapply Forall_impl; [exact Ho|]. intros t Ht ->. done. }
    rewrite step_open by (apply unused_spec; by rewrite Hdom). cbn [mbind option_bind].
    rewrite run_app, (run_dup_all _ _ _ _ _ _ _ _ (FileOpened n (op_path o) (op_flags o)))
      by (done || apply lookup_insert_eq).
    cbn [mbind option_bind run]. rewrite step_close. cbn [mbind option_bind].
    rewrite foldl_insert_delete by done. apply IH; [|done|lia|done].
    by apply install_dom.
  - assert (Hm : fds !! (-1) = None).
    { apply not_elem_of_dom. rewrite Hdom. exact not_std_minus_one. }
    rewrite step_open_failed. cbn [mbind option_bind]. rewrite run_app, run_dup_none by done.
    cbn [mbind option_bind run]. rewrite step_close. cbn [mbind option_bind].
    rewrite delete_id by done. apply IH; [done|done|lia|done].
Qed.

(** C30: redirections.  In a process that holds the standard descriptors, the
    redirections of a command open its files in order, input first, and leave
    each one that could be opened on its targets, standard output and error on
    one opening when the names are equal; a file that cannot be opened is passed
    over and the descriptor stays what it was.  No other descriptor remains. *)
Theorem redirections_install s pid p cmd k n os :
  dom (p_fds p) = std -> length os = length (openings cmd (p_env p)) ->
  Forall (fun o => forall fd, o = Some fd -> 0 <= fd /\ fd ∉ std) os ->
  let after := installed (openings cmd (p_env p)) os (p_fds p) n in
  run (sys_at s pid p (p_fds p) (set_up_redirections cmd k) n)
      (pair pid <$> Plain :: choices (openings cmd (p_env p)) os) =
    Some (sys_at s pid p after.1 k after.2) /\ dom after.1 = std.
Proof.
  intros Hdom Hlen Hos after. destruct (redirections_perform cmd k) as (f & -> & Hf). split.
  - rewrite fmap_cons. cbn [run]. rewrite step_environ. cbn [mbind option_bind]. rewrite Hf.
    apply run_perform; [done|apply openings_std|done|done].
  - unfold after. generalize (openings_std cmd (p_env p)). clear -Hdom. revert n os.
    generalize (p_fds p) Hdom. clear Hdom. induction (openings cmd (p_env p)) as [|o l IH]; intros fds Hdom n os Hl; [by destruct os|].
    apply Forall_cons in Hl as [Ho Hl]. destruct os as [|[fd|] os]; simpl; [done| |by apply IH].
    apply IH; [by apply install_dom|done].
Qed.

(** Two appends truncate.  When both outputs are appended to ([cmd >> a 2>> b],
    for which the parser sets both flags), neither file is opened for appending:
    both are truncated. *)
Theorem both_append_truncates cmd env o e :
  io_flags cmd = Z.lor IO_OUT_APPEND IO_ERR_APPEND ->
  get_first env (s_out cmd) = Some o -> get_first env (s_err cmd) = Some e ->
  forall op, op ∈ openings cmd env -> op_targets op <> [0] -> op_flags op = O_TRUNCATING.
Proof.
  intros Hfl Ho He op Hin Ht. unfold openings, out_flags, err_flags in Hin. rewrite Ho, He, Hfl in Hin.
  apply elem_of_app in Hin as [Hin|Hin].
  - destruct (get_first env (s_in cmd)); [|by apply not_elem_of_nil in Hin].
    apply list_elem_of_singleton in Hin as ->. done.
  - destruct (String.eqb o e).
    + by apply list_elem_of_singleton in Hin as ->.
    + by apply elem_of_cons in Hin as [-> | ->%list_elem_of_singleton].
Qed.

(** ** Pipes *)

Lemma run_cons s pid c s1 l : step s pid c = Some s1 -> run s ((pid, c) :: l) = run s1 l.
Proof. intros Hs. cbn [run]. by rewrite Hs. Qed.

(** A step of one process: it becomes [p'], the others stay. *)
Definition moves (s s' : sys) (pid : Z) (p' : proc) (n : Z) : Prop :=
  procs s' !! pid = Some p' /\ (forall x, x <> pid -> procs s' !! x = procs s !! x) /\ opens s' = n.

Lemma moves_intro s pid p' n : moves s (Sys (<[pid := p']> (procs s)) n) pid p' n.
Proof.
  split; [apply lookup_insert_eq|]. split; [|done]. intros x Hx. simpl. by rewrite lookup_insert_ne.
Qed.

Section one_step.
Context (s : sys) (pid pa : Z) (env : gmap string string) (dirs : list string) (fds : gmap Z desc).
Local Abbreviation at_ fds b := (Proc pa env dirs fds (Running b)) (only parsing).

Lemma moves_close fd k :
  procs s !! pid = Some (at_ fds (Close fd k)) ->
  exists s', step s pid Plain = Some s' /\ moves s s' pid (at_ (delete fd fds) k) (opens s).
Proof. intros Hp. unfold step. rewrite Hp. simpl. eexists. split; [reflexivity|apply moves_intro]. Qed.

Lemma moves_dup2 o t k d :
  procs s !! pid = Some (at_ fds (Dup2 o t k)) -> fds !! o = Some d ->
  exists s', step s pid Plain = Some s' /\ moves s s' pid (at_ (<[t := d]> fds) k) (opens s).
Proof. intros Hp Hd. unfold step. rewrite Hp. simpl. rewrite Hd. eexists. split; [reflexivity|apply moves_intro]. Qed.

Lemma moves_pipe k r w :
  procs s !! pid = Some (at_ fds (Pipe k)) -> unused fds r = true -> unused fds w = true -> r <> w ->
  exists s', step s pid (Piped r w) = Some s' /\
    moves s s' pid (at_ (<[w := PipeWrite (opens s)]> (<[r := PipeRead (opens s)]> fds)) (k true r w)) (opens s + 1).
Proof.
  intros Hp Hr Hw Hne. unfold step. rewrite Hp. simpl. rewrite Hr, Hw, (proj2 (Z.eqb_neq r w)) by done.
  eexists. split; [reflexivity|apply moves_intro].
Qed.

Lemma moves_fork child k new :
  procs s !! pid = Some (at_ fds (Fork child k)) -> 0 < new -> procs s !! new = None ->
  exists s', step s pid (Forked new) = Some s' /\
    procs s' !! pid = Some (at_ fds (k (Some new))) /\
    procs s' !! new = Some (Proc pid env dirs fds (Running child)) /\
    (forall x, x <> pid -> x <> new -> procs s' !! x = procs s !! x) /\ opens s' = opens s.
Proof.
  intros Hp Hn Hnone. assert (Hne : new <> pid) by congruence. unfold step. rewrite Hp. simpl.
  rewrite (proj2 (Z.ltb_lt _ _)), bool_decide_eq_true_2 by done. eexists. split; [reflexivity|]. simpl.
  rewrite lookup_insert_ne, !lookup_insert_eq by done. split_done. intros x Hx1 Hx2. by rewrite !lookup_insert_ne.
Qed.
End one_step.

(** C29: the ends of a pipe.  Whatever descriptors and process numbers the kernel
    hands out, after their first steps the two sides of [cmd1 | cmd2] are two
    children in which only standard output, or only standard input, is changed,
    to the two ends of one pipe; the parent has its own descriptors back and
    waits for the first side. *)
Theorem pipe_connects s pid p c1 c2 level k r w q1 q2 :
  procs s !! pid = Some p -> p_state p = Running (run_on_pipe c1 c2 level k) -> dom (p_fds p) = std ->
  0 <= r -> 0 <= w -> r <> w -> r ∉ std -> w ∉ std ->
  0 < q1 -> 0 < q2 -> q1 <> q2 -> procs s !! q1 = None -> procs s !! q2 = None ->
  exists s', run s [(pid, Piped r w); (pid, Forked q1); (q1, Plain); (q1, Plain); (q1, Plain);
                    (pid, Forked q2); (q2, Plain); (q2, Plain); (q2, Plain); (pid, Plain); (pid, Plain)] = Some s' /\
    procs s' !! q1 = Some (Proc pid (p_env p) (p_dirs p) (<[1 := PipeWrite (opens s)]> (p_fds p)) (Running c1)) /\
    procs s' !! q2 = Some (Proc pid (p_env p) (p_dirs p) (<[0 := PipeRead (opens s)]> (p_fds p)) (Running c2)) /\
    procs s' !! pid = Some (Proc (p_parent p) (p_env p) (p_dirs p) (p_fds p)
      (Running (Waitpid q1 (fun _ => Waitpid q2 (fun status2 => k (wait_status_of status2 0)))))).
Proof.
  intros Hp Hst Hdom Hr Hw Hrw Hrs Hws Hq1 Hq2 Hq Hn1 Hn2.
  assert (Hp1 : q1 <> pid) by (intros ->; congruence). assert (Hp2 : q2 <> pid) by (intros ->; congruence).
  set (fds := p_fds p) in *.
  assert (Hnr : fds !! r = None) by (apply not_elem_of_dom; by rewrite Hdom).
  assert (Hnw : fds !! w = None) by (apply not_elem_of_dom; by rewrite Hdom).
  assert (Hstd : 0 ∈ std /\ 1 ∈ std) by (unfold std; rewrite !elem_of_union, !elem_of_singleton; lia).
  assert (Hr01 : r <> 0 /\ r <> 1 /\ w <> 0 /\ w <> 1) by (destruct Hstd; split_done; intros ->; done).
  destruct Hr01 as (? & ? & ? & ?).
  set (both := <[w := PipeWrite (opens s)]> (<[r := PipeRead (opens s)]> fds)).
  destruct p as [pa env dirs fds0 st]. cbn [p_fds p_state p_env p_dirs p_parent] in *. subst fds st. rename fds0 into fds.
  destruct (moves_pipe s pid pa env dirs fds _ r w Hp) as (s1 & E1 & Hp1' & Ho1 & En1);
    [by apply unused_spec; rewrite Hdom|by apply unused_spec; rewrite Hdom|done|].
  erewrite run_cons by exact E1. fold both in Hp1'.
  destruct (moves_fork s1 pid pa env dirs both _ _ q1 Hp1' Hq1) as (s2 & E2 & Hp2' & Hq12 & Ho2 & En2);
    [by rewrite Ho1|]. erewrite run_cons by exact E2.
  destruct (moves_close s2 q1 _ _ _ _ _ _ Hq12) as (s3 & E3 & Hq13 & Ho3 & En3). erewrite run_cons by exact E3.
  assert (H1w : delete r both !! w = Some (PipeWrite (opens s))).
  { unfold both. rewrite lookup_delete_ne by done. apply lookup_insert_eq. }
  destruct (moves_dup2 s3 q1 _ _ _ _ _ _ _ _ Hq13 H1w) as (s4 & E4 & Hq14 & Ho4 & En4). erewrite run_cons by exact E4.
  destruct (moves_close s4 q1 _ _ _ _ _ _ Hq14) as (s5 & E5 & Hq15 & Ho5 & En5). erewrite run_cons by exact E5.
  assert (Hp5 : procs s5 !! pid = procs s2 !! pid) by by rewrite Ho5, Ho4, Ho3.
  rewrite Hp2' in Hp5.
  assert (Hn2' : procs s5 !! q2 = None) by by rewrite Ho5, Ho4, Ho3, Ho2, Ho1.
  destruct (moves_fork s5 pid pa env dirs both _ _ q2 Hp5 Hq2 Hn2') as (s6 & E6 & Hp6 & Hq26 & Ho6 & En6).
  erewrite run_cons by exact E6.
  destruct (moves_close s6 q2 _ _ _ _ _ _ Hq26) as (s7 & E7 & Hq27 & Ho7 & En7). erewrite run_cons by exact E7.
  assert (H2r : delete w both !! r = Some (PipeRead (opens s))).
  { unfold both. rewrite lookup_delete_ne, lookup_insert_ne by done. apply lookup_insert_eq. }
  destruct (moves_dup2 s7 q2 _ _ _ _ _ _ _ _ Hq27 H2r) as (s8 & E8 & Hq28 & Ho8 & En8). erewrite run_cons by exact E8.
  destruct (moves_close s8 q2 _ _ _ _ _ _ Hq28) as (s9 & E9 & Hq29 & Ho9 & En9). erewrite run_cons by exact E9.
  assert (Hp9 : procs s9 !! pid = procs s6 !! pid) by by rewrite Ho9, Ho8, Ho7.
  rewrite Hp6 in Hp9.
  destruct (moves_close s9 pid _ _ _ _ _ _ Hp9) as (s10 & E10 & Hp10 & Ho10 & En10). erewrite run_cons by exact E10.
  destruct (moves_close s10 pid _ _ _ _ _ _ Hp10) as (s11 & E11 & Hp11 & Ho11 & En11). erewrite run_cons by exact E11.
  exists s11. split; [done|].
  assert (Hdel : delete w (delete r both) = fds).
  { unfold both. rewrite delete_insert_ne by done. rewrite (delete_insert_id fds r) by done. by rewrite delete_insert_id. }
  assert (Hdel1 : delete w (<[1 := PipeWrite (opens s)]> (delete r both)) = <[1 := PipeWrite (opens s)]> fds).
  { by rewrite delete_insert_ne, Hdel by done. }
  assert (Hdel2 : delete r (<[0 := PipeRead (opens s)]> (delete w both)) = <[0 := PipeRead (opens s)]> fds).
  { by rewrite delete_insert_ne, delete_delete, Hdel by done. }
  split; [|split].
  - rewrite Ho11, Ho10, Ho9, Ho8, Ho7, Ho6, Hq15 by done. unfold STDOUT_FILENO. by rewrite Hdel1.
  - rewrite Ho11, Ho10, Hq29 by done. unfold STDIN_FILENO. by rewrite Hdel2.
  - rewrite Hp11. by rewrite Hdel.
Qed.

(** ** Lines *)

(** The text of a line: a carriage return before the newline is dropped, unless
    it ends a full chunk. *)
Definition strip (l : list ascii) : list ascii :=
  match reverse l with c :: b => if decide (c = CR) then reverse b else l | [] => [] end.
Definition line_text (l : list ascii) : list ascii :=
  if decide (length l mod (CHUNK_SIZE - 1) = 0)%nat then l else strip l.

Lemma chomp_line l : unbroken l -> chomp (l ++ [LF]) = Done (strip l, true).
Proof.
  intros [Hl Hz]. unfold chomp. rewrite c_str_plain.
  - rewrite reverse_app. simpl. unfold strip. destruct (reverse l) as [|d b] eqn:E; [done|].
    rewrite <- E, reverse_involutive. done.
  - rewrite elem_of_app. intros [?|H%list_elem_of_singleton]; [done|discriminate].
Qed.

Lemma chomp_part l : unbroken l -> l <> [] -> chomp l = Done (l, false).
Proof.
  intros [Hl Hz] Hne. unfold chomp. rewrite c_str_plain by done. destruct (reverse l) as [|d b] eqn:E.
  - apply (f_equal reverse) in E. by rewrite reverse_involutive in E.
  - rewrite decide_False; [done|]. intros ->. apply Hl. rewrite <- (reverse_involutive l), E.
    apply elem_of_reverse. by left.
Qed.

Lemma strip_app l k : k <> [] -> strip (l ++ k) = l ++ strip k.
Proof.
  intros Hk. unfold strip. rewrite reverse_app. destruct (reverse k) as [|d b] eqn:E.
  - apply (f_equal reverse) in E. by rewrite reverse_involutive in E.
  - simpl. case_decide; [|done]. by rewrite reverse_app, reverse_involutive.
Qed.

Lemma line_text_chunk l :
  (CHUNK_SIZE - 1 <= length l)%nat ->
  line_text l = take (CHUNK_SIZE - 1) l ++ line_text (drop (CHUNK_SIZE - 1) l).
Proof.
  intros Hl. unfold line_text. rewrite length_drop.
  set (n := (CHUNK_SIZE - 1)%nat) in *. assert (Hn : (n <> 0)%nat) by (vm_compute; lia).
  assert (E : (length l mod n = (length l - n) mod n)%nat).
  { replace (length l) with ((length l - n) + 1 * n)%nat at 1 by lia. by rewrite Nat.Div0.mod_add. }
  rewrite E. case_decide as Hd; [by rewrite take_drop|].
  rewrite <- (take_drop n l) at 1. apply strip_app. intros Hnil. apply (f_equal length) in Hnil.
  rewrite length_drop in Hnil. simpl in Hnil. apply Hd. rewrite Hnil. apply Nat.Div0.mod_0_l.
Qed.

Lemma read_line_loop_ok fuel acc l rest :
  unbroken l -> (length l < fuel)%nat ->
  read_line_loop fuel acc (l ++ LF :: rest) = Done (Some (default [] acc ++ line_text l), rest).
Proof.
  revert acc l. induction fuel as [|fuel IH]; intros acc l Hl Hf; [lia|]. cbn [read_line_loop].
  destruct (l ++ LF :: rest) as [|c0 i0] eqn:E; [by destruct l|]. rewrite <- E. clear E c0 i0.
  destruct (decide (length l < CHUNK_SIZE - 1)%nat) as [Hs|Hge].
  - rewrite fgets_short by done. rewrite chomp_line by done. cbn [mbind outcome_bind].
    do 4 f_equal. unfold line_text. case_decide as Hd; [|done]. rewrite Nat.mod_small in Hd by done. by destruct l.
  - rewrite fgets_full by (done || lia). destruct (unbroken_take (CHUNK_SIZE - 1) l Hl) as [Ht Hdr].
    assert (Hpos : (0 < CHUNK_SIZE - 1)%nat) by (vm_compute; lia).
    rewrite chomp_part; [|done|].
    2:{ intros Hnil. apply (f_equal length) in Hnil. rewrite length_take in Hnil. simpl length in Hnil. lia. }
    cbn [mbind outcome_bind]. rewrite IH; [|done|rewrite length_drop; lia].
    rewrite (line_text_chunk l) by lia. simpl. by rewrite app_assoc.
Qed.

Lemma read_line_end_ok fuel acc l :
  unbroken l -> (length l < fuel)%nat ->
  read_line_loop fuel acc l = Done (match l with [] => acc | _ => Some (default [] acc ++ l) end, []).
Proof.
  revert acc l. induction fuel as [|fuel IH]; intros acc l Hl Hf; [lia|]. cbn [read_line_loop].
  destruct l as [|c0 i0] eqn:E; [done|]. rewrite <- E in *. assert (Hne : l <> []) by (intros ->; discriminate).
  replace (match l with [] => acc | _ :: _ => Some (default [] acc ++ l) end) with (Some (default [] acc ++ l)) by by destruct l.
  clear E. destruct (decide (length l < CHUNK_SIZE - 1)%nat) as [Hs|Hge].
  - rewrite fgets_end by done. rewrite chomp_part by done. cbn [mbind outcome_bind].
    rewrite IH; [done|by split; apply not_elem_of_nil|simpl; destruct l; simpl in *; [done|lia]].
  - destruct (unbroken_take (CHUNK_SIZE - 1) l Hl) as [Ht Hdr].
    assert (Hpos : (0 < CHUNK_SIZE - 1)%nat) by (vm_compute; lia).
    rewrite <- (app_nil_r l) at 1. rewrite fgets_full by (done || lia). rewrite app_nil_r.
    rewrite chomp_part; [|done|].
    2:{ intros Hnil. apply (f_equal length) in Hnil. rewrite length_take in Hnil. simpl length in Hnil. lia. }
    cbn [mbind outcome_bind]. rewrite IH; [|done|rewrite length_drop; lia].
    pose proof (take_drop (CHUNK_SIZE - 1) l) as Htd.
    destruct (drop (CHUNK_SIZE - 1) l); [by rewrite app_nil_r in Htd; rewrite Htd|].
    cbn [default from_option id]. rewrite <- app_assoc. by rewrite Htd.
Qed.

(** Lines of any length.  [read_line] terminates and returns the whole text
    up to the newline, however many chunks it takes, without a carriage return
    before the newline (which it misses only when the text fills its chunks
    exactly), and what follows stays in the input; at the end of the input it
    returns what is left, and null when nothing is. *)
Theorem read_line_reads l rest :
  unbroken l ->
  read_line (l ++ LF :: rest) = Done (Some (line_text l), rest) /\
  read_line l = Done (match l with [] => None | _ => Some l end, []).
Proof.
  intros Hl. unfold read_line. split.
  - rewrite read_line_loop_ok; [done|done|rewrite length_app; simpl; lia].
  - rewrite read_line_end_ok by (done || lia). by destruct l.
Qed.

(** ** Runs *)

Definition word_ (s : string) : word := [Part s false].
Definition demo_cmd : simple_command :=
  SCmd (word_ "ls") [word_ "-l"; [Part "HOME" true; Part "/x" false]] [] [word_ "a"] [word_ "b"] 3.

Lemma both_append_truncates_witness : op_flags (Opening "a" (out_flags demo_cmd) [1]) = O_TRUNCATING.
Proof.
  apply (both_append_truncates demo_cmd ∅ "a" "b"); [reflexivity|reflexivity|reflexivity| |discriminate].
  apply list_elem_of_In. left. reflexivity.
Defined.

Definition demo_proc : proc := Proc 0 ∅ [] std_fds (Running (Exit 0)).

Lemma std_fds_dom : dom std_fds = std.
Proof.
  unfold std_fds. rewrite !dom_insert_L, dom_singleton_L. unfold std. set_solver.
Qed.

Lemma redirections_install_witness :
  let after := installed (openings demo_cmd ∅) [Some 3; None] std_fds 0 in
  run (sys_at (Sys ∅ 0) 1 demo_proc std_fds (set_up_redirections demo_cmd (Exit 0)) 0)
      (pair 1 <$> Plain :: choices (openings demo_cmd ∅) [Some 3; None]) =
    Some (sys_at (Sys ∅ 0) 1 demo_proc after.1 (Exit 0) after.2) /\ dom after.1 = std.
Proof.
  apply (redirections_install (Sys ∅ 0) 1 demo_proc demo_cmd (Exit 0) 0 [Some 3; None]).
  - exact std_fds_dom.
  - reflexivity.
  - apply Forall_cons. split; [|apply Forall_cons; split; [|apply Forall_nil; exact I]].
    + intros fd [= <-]. split; [lia|]. unfold std. rewrite !elem_of_union, !elem_of_singleton. lia.
    + intros fd [=].
Defined.

Definition pipe_sys : sys :=
  Sys {[1 := Proc 0 ∅ [] std_fds (Running (run_on_pipe (Exit 0) (Exit 0) 0 Exit))]} 0.

Lemma pipe_connects_witness :
  exists s', run pipe_sys [(1, Piped 3 4); (1, Forked 2); (2, Plain); (2, Plain); (2, Plain);
                    (1, Forked 3); (3, Plain); (3, Plain); (3, Plain); (1, Plain); (1, Plain)] = Some s' /\
    procs s' !! 2 = Some (Proc 1 ∅ [] (<[1 := PipeWrite 0]> std_fds) (Running (Exit 0))) /\
    procs s' !! 3 = Some (Proc 1 ∅ [] (<[0 := PipeRead 0]> std_fds) (Running (Exit 0))) /\
    procs s' !! 1 = Some (Proc 0 ∅ [] std_fds
      (Running (Waitpid 2 (fun _ => Waitpid 3 (fun status2 => Exit (wait_status_of status2 0)))))).
Proof.
  apply (pipe_connects pipe_sys 1 (Proc 0 ∅ [] std_fds (Running (run_on_pipe (Exit 0) (Exit 0) 0 Exit)))
    (Exit 0) (Exit 0) 0 Exit 3 4 2 3); try lia; try reflexivity.
  - unfold std. rewrite !elem_of_union, !elem_of_singleton. lia.
  - unfold std. rewrite !elem_of_union, !elem_of_singleton. lia.
Defined.

Lemma read_line_reads_witness :
  read_line ([ascii_of_nat 108; ascii_of_nat 115; CR] ++ LF :: [CR]) = Done (Some (line_text [ascii_of_nat 108; ascii_of_nat 115; CR]), [CR]) /\
  read_line [ascii_of_nat 108; ascii_of_nat 115; CR] = Done (Some [ascii_of_nat 108; ascii_of_nat 115; CR], []).
Proof.
  apply (read_line_reads [ascii_of_nat 108; ascii_of_nat 115; CR] [CR]).
  split; rewrite !not_elem_of_cons; split_done; apply not_elem_of_nil.
Defined.

(** The shell runs [ls -l $HOME/x > a 2> b] in a child. *)
Definition demo_schedule : list (Z * choice) :=
  [(1, Plain); (1, Forked 2); (2, Plain); (2, Opened 3); (2, Plain); (2, Plain);
   (2, Opened 3); (2, Plain); (2, Plain); (2, Plain); (2, Plain)].

Lemma shell_leaves_nothing_witness :
  exists s p, run_with_resources (initial ∅ [Some (Simple demo_cmd)]) demo_schedule = Some s /\
    procs s !! 2 = Some p /\ p_state p = External ["ls"; "-l"; "/x"]%string /\
    dom (p_fds p) = std /\ children s 2 = ∅.
Proof.
  destruct (run_with_resources (initial ∅ [Some (Simple demo_cmd)]) demo_schedule) as [s|] eqn:E;
    [|exfalso; vm_compute in E; discriminate].
  destruct (procs s !! 2) as [p|] eqn:Ep; [|exfalso; vm_compute in E; injection E as <-; vm_compute in Ep; discriminate].
  assert (Hst : p_state p = External ["ls"; "-l"; "/x"]%string).
  { vm_compute in E. injection E as <-. vm_compute in Ep. injection Ep as <-. reflexivity. }
  pose proof (shell_leaves_nothing ∅ [Some (Simple demo_cmd)] demo_schedule s 2 p E Ep) as H. rewrite Hst in H.
  exists s, p. split; [reflexivity|]. split; [exact Ep|]. split; [exact Hst|exact H].
Defined.
