(* ===== verification/Parser.v ===== *)
(** * The parser of the mini-shell: the code

    [mini-shell-project-FreezeKickerz/util/parser/parser.y].  bison makes a
    shift-reduce parser of the grammar: the rules below the operators need one
    token of lookahead, and between two operators the declared precedences decide
    whether to reduce.  The actions link words into lists by [next_word]; the
    list cells are kept in a store, since [&>] puts one cell into two lists. *)

From Stdlib Require Import ZArith Lia Ascii.
From Stdlib Require String.
From stdpp Require Import list strings.
From S2P Require Import Prelude CString Lexer Shell.
Open Scope Z_scope.

(** ** Words and lists of words *)

(** A word as a member of lists; a list is its first cell. *)
Record word_cell := Cell { cell_word : word; next_word : option nat }.
Abbreviation cells := (list word_cell) (only parsing).

Definition new_word (str : string) (expand : bool) : word := [Part str expand].
Definition add_part_to_word (w lst : word) : word := lst ++ w.

Definition new_cell (h : cells) (w : word) : cells * nat := (h ++ [Cell w None], length h).

(** The last cell of a list. *)
Fixpoint last_cell (fuel : nat) (h : cells) (crt : nat) : outcome nat :=
  c ← array_get h crt;
  match next_word c, fuel with
  | None, _ => Done crt
  | Some _, O => Fault Diverges
  | Some next, S fuel => last_cell fuel h next
  end.

Definition assert_unlinked (h : cells) (w : nat) : outcome () :=
  c ← array_get h w; c_assert (bool_decide (next_word c = None)).

Definition add_word_to_list (h : cells) (w : nat) (lst : option nat) : outcome (cells * option nat) :=
  match lst with
  | None => _ ← assert_unlinked h w; Done (h, Some w)
  | Some first =>
      crt ← last_cell (length h) h first;
      c ← array_get h crt;
      h ← array_set h crt (Cell (cell_word c) (Some w));
      _ ← assert_unlinked h w;
      Done (h, Some first)
  end.

(** What a reader of the list sees. *)
Fixpoint list_words (fuel : nat) (h : cells) (lst : option nat) : outcome (list word) :=
  match lst, fuel with
  | None, _ => Done []
  | Some _, O => Fault Diverges
  | Some p, S fuel => c ← array_get h p; ws ← list_words fuel h (next_word c); Done (cell_word c :: ws)
  end.

(** ** Redirections *)

Record redirect_t := Redirect { red_i : option nat; red_o : option nat; red_e : option nat; red_flags : Z }.
Definition no_redirect : redirect_t := Redirect None None None IO_REGULAR.

Definition is_redirection (tok : token) : bool :=
  match tok with
  | REDIRECT_OE | REDIRECT_E | REDIRECT_O | REDIRECT_APPEND_E | REDIRECT_APPEND_O | INDIRECT => true
  | _ => false
  end.

(** The action of [redirect tok word], with or without blanks. *)
Definition redirect_action (tok : token) (w : word) (s : cells * redirect_t) : outcome (cells * redirect_t) :=
  let '(h, r) := s in
  let '(h, p) := new_cell h w in
  match tok with
  | REDIRECT_OE =>
      '(h, o) ← add_word_to_list h p (red_o r);
      '(h, e) ← add_word_to_list h p (red_e r);
      Done (h, Redirect (red_i r) o e (red_flags r))
  | REDIRECT_E => '(h, e) ← add_word_to_list h p (red_e r); Done (h, Redirect (red_i r) (red_o r) e (red_flags r))
  | REDIRECT_O => '(h, o) ← add_word_to_list h p (red_o r); Done (h, Redirect (red_i r) o (red_e r) (red_flags r))
  | REDIRECT_APPEND_E =>
      '(h, e) ← add_word_to_list h p (red_e r);
      Done (h, Redirect (red_i r) (red_o r) e (Z.lor (red_flags r) IO_ERR_APPEND))
  | REDIRECT_APPEND_O =>
      '(h, o) ← add_word_to_list h p (red_o r);
      Done (h, Redirect (red_i r) o (red_e r) (Z.lor (red_flags r) IO_OUT_APPEND))
  | _ => '(h, i) ← add_word_to_list h p (red_i r); Done (h, Redirect i (red_o r) (red_e r) (red_flags r))
  end.

(** ** Simple commands: syntax *)

(** [word] *)
Fixpoint take_word (ts : list token) : word * list token :=
  match ts with
  | WORD s :: ts => let '(w, rest) := take_word ts in (new_word s false ++ w, rest)
  | ENV_VAR s :: ts => let '(w, rest) := take_word ts in (new_word s true ++ w, rest)
  | _ => ([], ts)
  end.

Definition skip_blank (ts : list token) : list token := match ts with BLANK :: ts => ts | _ => ts end.

(** The words after the verb: [BLANK word] again and again. *)
Fixpoint take_params (fuel : nat) (ts : list token) : list word * list token :=
  match fuel, ts with
  | S fuel, BLANK :: ts' =>
      match take_word ts' with
      | ([], _) => ([], ts)
      | (w, ts') => let '(ws, rest) := take_params fuel ts' in (w :: ws, rest)
      end
  | _, _ => ([], ts)
  end.

(** [redirect]: the redirections that are complete, and the rest unless a word is
    missing. *)
Fixpoint take_redirects (fuel : nat) (ts : list token) : list (token * word) * option (list token) :=
  match fuel, ts with
  | S fuel, tok :: ts' =>
      if is_redirection tok then
        match take_word (skip_blank ts') with
        | ([], _) => ([], None)
        | (w, ts') => let '(rs, rest) := take_redirects fuel (skip_blank ts') in ((tok, w) :: rs, rest)
        end
      else ([], Some ts)
  | _, _ => ([], Some ts)
  end.

(** [simple_command]: verb, parameters, redirections and the rest. *)
Definition take_simple (ts : list token) : option (word * list word * list (token * word) * option (list token)) :=
  match take_word (skip_blank ts) with
  | ([], _) => None
  | (w, ts) =>
      let '(ps, ts) := take_params (length ts) ts in
      let ts := skip_blank ts in
      let '(rs, rest) := take_redirects (length ts) ts in
      Some (w, ps, rs, rest)
  end.

(** ** Simple commands: actions *)

Fixpoint each {A S} (f : A -> S -> outcome S) (l : list A) (s : S) : outcome S :=
  match l with [] => Done s | a :: l => s ← f a s; each f l s end.

Definition param_action (w : word) (s : cells * option nat) : outcome (cells * option nat) :=
  let '(h, lst) := s in let '(h, p) := new_cell h w in add_word_to_list h p lst.

Definition bind_parts (exe_name : word) (ps : list word) (rs : list (token * word)) : outcome simple_command :=
  '(h, params) ← each param_action ps ([], None);
  '(h, red) ← each (fun r => redirect_action r.1 r.2) rs (h, no_redirect);
  params ← list_words (S (length h)) h params;
  i ← list_words (S (length h)) h (red_i red);
  o ← list_words (S (length h)) h (red_o red);
  e ← list_words (S (length h)) h (red_e red);
  Done (SCmd exe_name params i o e (red_flags red)).

(** ** Commands *)

Definition operator (tok : token) : option operator_t :=
  match tok with
  | SEQUENTIAL => Some OP_SEQUENTIAL
  | PARALLEL => Some OP_PARALLEL
  | CONDITIONAL_NZERO => Some OP_CONDITIONAL_NZERO
  | CONDITIONAL_ZERO => Some OP_CONDITIONAL_ZERO
  | PIPE => Some OP_PIPE
  | _ => None
  end.

(** The lines of [%left], from the weakest. *)
Definition precedence (op : operator_t) : nat :=
  match op with
  | OP_SEQUENTIAL => 1
  | OP_PARALLEL => 2
  | OP_CONDITIONAL_NZERO | OP_CONDITIONAL_ZERO => 3
  | OP_PIPE => 4
  | OP_DUMMY => 0
  end.

Definition bind_commands (cmd1 cmd2 : command) (op : operator_t) : command := Compound op cmd1 cmd2.

(** Commands that wait for their right operand, the last one first.  With an
    operator of this level next, a rule of the same or a higher level is
    reduced ([%left]). *)
Fixpoint reduce (stack : list (command * operator_t)) (c : command) (level : nat) : list (command * operator_t) * command :=
  match stack with
  | (lhs, op) :: below => if (level <=? precedence op)%nat then reduce below (bind_commands lhs c op) level else (stack, c)
  | [] => ([], c)
  end.

Definition ends_line (tok : token) : bool := match tok with END_OF_LINE | END_OF_FILE => true | _ => false end.

Fixpoint parse_commands (fuel : nat) (stack : list (command * operator_t)) (ts : list token) : outcome (option command) :=
  match fuel, take_simple ts with
  | S fuel, Some (w, ps, rs, rest) =>
      s ← bind_parts w ps rs;
      match rest with
      | Some (tok :: ts) =>
          match operator tok with
          | Some op => let '(stack, c) := reduce stack (Simple s) (precedence op) in parse_commands fuel ((c, op) :: stack) ts
          | None => Done (if ends_line tok then Some (reduce stack (Simple s) 0).2 else None)
          end
      | _ => Done None
      end
  | O, Some _ => Fault Diverges
  | _, None => Done None
  end.

(** [command_tree]: nothing for a syntax error, [Some None] for an empty line. *)
Definition yyparse (ts : list token) : outcome (option (option command)) :=
  match ts with
  | END_OF_LINE :: _ | END_OF_FILE :: _ | BLANK :: END_OF_LINE :: _ | BLANK :: END_OF_FILE :: _ => Done (Some None)
  | _ => r ← parse_commands (S (length ts)) [] ts; Done (match r with Some c => Some (Some c) | None => None end)
  end.

(** [parse_line]: whether the line is right, and the tree. *)
Definition parse_line (line : list ascii) : outcome (bool * option command) :=
  r ← yyparse (lex INITIAL line);
  Done (match r with Some root => (true, root) | None => (false, None) end).

Definition plain (s : string) : word := [Part s false].
Definition bare (v : word) (ps : list word) : simple_command := SCmd v ps [] [] [] IO_REGULAR.

Example parse_precedence : parse_line (chars "a; b | c&&d 2>>x <y") =
  Done (true, Some (Compound OP_SEQUENTIAL (Simple (bare (plain "a") []))
    (Compound OP_CONDITIONAL_ZERO
       (Compound OP_PIPE (Simple (bare (plain "b") [])) (Simple (bare (plain "c") [])))
       (Simple (SCmd (plain "d") [] [plain "y"] [] [plain "x"] IO_ERR_APPEND))))).
Proof. reflexivity. Qed.

Example parse_trailing_operator : parse_line (chars "a |") = Done (false, None).
Proof. reflexivity. Qed.

(** The cell that [&>] adds to both lists is one cell: what follows it in one list
    follows it in the other. *)
Example both_then_out : parse_line (chars "c &> a > b") =
  Done (true, Some (Simple (SCmd (plain "c") [] [] [plain "a"; plain "b"] [plain "a"; plain "b"] IO_REGULAR))).
Proof. reflexivity. Qed.

(** A second [&>] links the new cell to itself, and the assertion after that
    stops the shell. *)
Example both_twice : parse_line (chars "c &> a &> b") = Fault AssertFailed.
Proof. reflexivity. Qed.
