(* ===== verification/Grammar.v ===== *)
(** * The grammar of the mini-shell and its parser

    The productions of [mini-shell-project-FreezeKickerz/util/parser/parser.y] as
    relations between tokens and what the actions get, the ambiguity of the
    operators resolved as [%left] says, and the equivalence with [yyparse]. *)

From Stdlib Require Import ZArith Lia Ascii.
From stdpp Require Import list strings.
From S2P Require Import Prelude CString Lexer Shell Parser.
Open Scope Z_scope.

(** ** Productions *)

Inductive d_word : list token -> word -> Prop :=
  | word_more_text ts w s : d_word ts w -> d_word (ts ++ [WORD s]) (add_part_to_word (new_word s false) w)
  | word_more_var ts w s : d_word ts w -> d_word (ts ++ [ENV_VAR s]) (add_part_to_word (new_word s true) w)
  | word_text s : d_word [WORD s] (new_word s false)
  | word_var s : d_word [ENV_VAR s] (new_word s true).

Inductive d_exe_name : list token -> word -> Prop :=
  | exe_word ts w : d_word ts w -> d_exe_name ts w
  | exe_blank ts w : d_word ts w -> d_exe_name (BLANK :: ts) w.

Inductive d_params : list token -> list word -> Prop :=
  | params_more ts ps tw w : d_params ts ps -> d_word tw w -> d_params (ts ++ BLANK :: tw) (ps ++ [w])
  | params_one ts w : d_word ts w -> d_params ts [w].

Definition blanks (b : bool) : list token := if b then [BLANK] else [].

(** The four groups of rules differ in the blanks around the word. *)
Inductive d_redirect : list token -> list (token * word) -> Prop :=
  | redirect_none : d_redirect [] []
  | redirect_more ts rs tok b1 tw w b2 :
      d_redirect ts rs -> is_redirection tok = true -> d_word tw w ->
      d_redirect (ts ++ tok :: blanks b1 ++ tw ++ blanks b2) (rs ++ [(tok, w)]).

(** What a command says: verb, parameters and redirections, or two commands. *)
Inductive syntax :=
  | SSimple (exe_name : word) (ps : list word) (rs : list (token * word))
  | SCompound (op : operator_t) (a b : syntax).

Inductive d_simple : list token -> syntax -> Prop :=
  | simple_params te w tp ps tr rs :
      d_exe_name te w -> d_params tp ps -> d_redirect tr rs -> d_simple (te ++ BLANK :: tp ++ tr) (SSimple w ps rs)
  | simple_params_blank te w tp ps tr rs :
      d_exe_name te w -> d_params tp ps -> d_redirect tr rs -> d_simple (te ++ BLANK :: tp ++ BLANK :: tr) (SSimple w ps rs)
  | simple_redirect te w tr rs : d_exe_name te w -> d_redirect tr rs -> d_simple (te ++ tr) (SSimple w [] rs)
  | simple_blank te w tr rs : d_exe_name te w -> d_redirect tr rs -> d_simple (te ++ BLANK :: tr) (SSimple w [] rs).

Fixpoint all_operators (P : operator_t -> Prop) (t : syntax) : Prop :=
  match t with SSimple _ _ _ => True | SCompound op a b => P op /\ all_operators P a /\ all_operators P b end.

(** Left associative operators: the left operand binds at least as strongly, the
    right one more strongly. *)
Inductive d_command : list token -> syntax -> Prop :=
  | command_simple ts t : d_simple ts t -> d_command ts t
  | command_operator ta a tok op tb b :
      d_command ta a -> operator tok = Some op -> d_command tb b ->
      all_operators (fun o => (precedence op <= precedence o)%nat) a ->
      all_operators (fun o => (precedence op < precedence o)%nat) b ->
      d_command (ta ++ tok :: tb) (SCompound op a b).

(** [YYACCEPT] leaves what follows the end of the line unread. *)
Inductive d_tree : list token -> option syntax -> Prop :=
  | tree_command ts t tok rest : d_command ts t -> ends_line tok = true -> d_tree (ts ++ tok :: rest) (Some t)
  | tree_empty tok rest : ends_line tok = true -> d_tree (tok :: rest) None
  | tree_blank tok rest : ends_line tok = true -> d_tree (BLANK :: tok :: rest) None.

(** The actions, from left to right. *)
Fixpoint build (t : syntax) : outcome command :=
  match t with
  | SSimple w ps rs => s ← bind_parts w ps rs; Done (Simple s)
  | SCompound op a b => a ← build a; b ← build b; Done (bind_commands a b op)
  end.

Definition build_root (t : option syntax) : outcome (option command) :=
  match t with Some t => c ← build t; Done (Some c) | None => Done None end.

(** ** Words *)

Definition starts_word (ts : list token) : bool :=
  match ts with (WORD _ | ENV_VAR _) :: _ => true | _ => false end.

Lemma take_word_app ts w ts' : d_word ts w -> take_word (ts ++ ts') = (w ++ (take_word ts').1, (take_word ts').2).
Proof.
  intros Hw. revert ts'. induction Hw as [ts w s Hw IH|ts w s Hw IH|s|s]; intros ts';
    rewrite <- ?(assoc_L (++)), ?IH; simpl; destruct (take_word ts') as [w' rest]; simpl; unfold add_part_to_word, new_word;
    by rewrite <- ?(assoc_L (++)).
Qed.

Lemma take_word_rest ts : starts_word ts = false -> take_word ts = ([], ts).
Proof. by destruct ts as [|[] ts]. Qed.

Lemma take_word_complete ts w rest : d_word ts w -> starts_word rest = false -> take_word (ts ++ rest) = (w, rest).
Proof. intros Hw Hr. rewrite (take_word_app ts w rest Hw), take_word_rest by done. simpl. by rewrite app_nil_r. Qed.

Lemma d_word_cons ts w tok p : d_word ts w -> d_word [tok] [p] -> d_word (tok :: ts) (p :: w).
Proof.
  intros Hw Hp. induction Hw as [ts w s Hw IH|ts w s Hw IH|s|s].
  - by apply (word_more_text (tok :: ts) (p :: w) s).
  - by apply (word_more_var (tok :: ts) (p :: w) s).
  - by apply (word_more_text [tok] [p] s).
  - by apply (word_more_var [tok] [p] s).
Qed.

Lemma take_word_sound ts w rest : take_word ts = (w, rest) ->
  starts_word rest = false /\ (w = [] /\ rest = ts /\ starts_word ts = false \/ exists t1, ts = t1 ++ rest /\ d_word t1 w).
Proof.
  revert w rest. induction ts as [|tok ts IH]; intros w rest; simpl; [intros [= <- <-]; split_done; by left|].
  assert (Hother : starts_word (tok :: ts) = false -> ([], tok :: ts) = (w, rest) ->
    starts_word rest = false /\ (w = [] /\ rest = tok :: ts /\ starts_word (tok :: ts) = false \/ exists t1, tok :: ts = t1 ++ rest /\ d_word t1 w)).
  { intros Hs [= <- <-]. split; [done|]. by left. }
  assert (Hpart : forall p w0 rest0, d_word [tok] [p] -> take_word ts = (w0, rest0) -> (p :: w0, rest0) = (w, rest) ->
    starts_word rest = false /\ exists t1, tok :: ts = t1 ++ rest /\ d_word t1 w).
  { intros p w0 rest0 Hp E [= <- <-]. destruct (IH _ _ E) as [Hs [(-> & -> & _)|(t1 & -> & Ht)]]; (split; [done|]).
    - by exists [tok].
    - exists (tok :: t1). split; [done|by apply d_word_cons]. }
  destruct tok; try (by apply Hother); destruct (take_word ts) as [w0 rest0] eqn:E; intros Heq.
  - destruct (Hpart (Part text false) w0 rest0) as [? ?]; [apply word_text|done|done|]. split; [done|by right].
  - destruct (Hpart (Part name true) w0 rest0) as [? ?]; [apply word_var|done|done|]. split; [done|by right].
Qed.

Lemma d_word_starts ts w rest : d_word ts w -> starts_word (ts ++ rest) = true /\ w <> [] /\ ts <> [].
Proof.
  induction 1 as [ts w s Hw IH|ts w s Hw IH|s|s]; try done; destruct IH as (H1 & H2 & H3); destruct ts as [|tok ts], w; done.
Qed.

(** ** Parameters *)

(** [BLANK word], again and again. *)
Inductive d_blank_words : list token -> list word -> Prop :=
  | blank_words_nil : d_blank_words [] []
  | blank_words_cons tw w ts ps : d_word tw w -> d_blank_words ts ps -> d_blank_words (BLANK :: tw ++ ts) (w :: ps).

Lemma blank_words_snoc ts ps tw w : d_blank_words ts ps -> d_word tw w -> d_blank_words (ts ++ BLANK :: tw) (ps ++ [w]).
Proof.
  intros Hps Hw. induction Hps as [|tw0 w0 ts ps Hw0 Hps IH]; simpl.
  - rewrite <- (app_nil_r tw). by apply blank_words_cons; [|constructor].
  - rewrite <- (assoc_L (++)). by apply blank_words_cons.
Qed.

Lemma params_blank_words ts ps : d_params ts ps -> d_blank_words (BLANK :: ts) ps /\ ps <> [].
Proof.
  induction 1 as [ts ps tw w _ [IH _] Hw|ts w Hw].
  - split; [by apply (blank_words_snoc (BLANK :: ts))|by destruct ps].
  - split; [|done]. rewrite <- (app_nil_r ts). by apply blank_words_cons; [|constructor].
Qed.

Lemma params_app ts ps ts' ps' : d_params ts ps -> d_blank_words ts' ps' -> d_params (ts ++ ts') (ps ++ ps').
Proof.
  intros Hps Hps'. revert ts ps Hps. induction Hps' as [|tw w ts' ps' Hw Hps' IH]; intros ts ps Hps; [by rewrite !app_nil_r|].
  change (w :: ps') with ([w] ++ ps'). rewrite (assoc_L (++)). change (BLANK :: tw ++ ts') with ((BLANK :: tw) ++ ts').
  rewrite (assoc_L (++)). apply IH. by constructor.
Qed.

Lemma blank_words_params tw w ts ps : d_word tw w -> d_blank_words ts ps -> d_params (tw ++ ts) (w :: ps).
Proof. intros Hw Hps. apply (params_app tw [w]); [by constructor|done]. Qed.

Lemma starts_word_app ts rest : starts_word rest = false -> starts_word (ts ++ rest) = starts_word ts.
Proof. by destruct ts. Qed.

Lemma blank_words_rest ts ps rest : d_blank_words ts ps -> starts_word rest = false -> starts_word (ts ++ rest) = false.
Proof. by intros [|]. Qed.

(** No further parameter follows. *)
Definition no_param (ts : list token) : Prop := starts_word ts = false /\ forall ts', ts = BLANK :: ts' -> starts_word ts' = false.

Lemma take_params_complete fuel ts ps rest : d_blank_words ts ps -> no_param rest -> (length ts <= fuel)%nat ->
  take_params fuel (ts ++ rest) = (ps, rest).
Proof.
  intros Hps [Hr1 Hr2]. revert fuel. induction Hps as [|tw w ts ps Hw Hps IH]; intros fuel Hf.
  - simpl. destruct fuel as [|fuel]; [done|]. destruct rest as [|[] rest]; try done. simpl.
    rewrite take_word_rest by (by apply Hr2). done.
  - destruct fuel as [|fuel]; simpl in Hf; [lia|]. simpl. rewrite <- (assoc_L (++)).
    rewrite (take_word_complete tw w) by (done || by apply (blank_words_rest ts ps)).
    destruct (d_word_starts tw w [] Hw) as (_ & Hne & Ht). destruct w as [|p w]; [done|].
    rewrite IH; [done|]. rewrite length_app in Hf. lia.
Qed.

Lemma take_params_sound fuel ts ps rest : starts_word ts = false -> (length ts <= fuel)%nat -> take_params fuel ts = (ps, rest) ->
  exists t1, ts = t1 ++ rest /\ d_blank_words t1 ps /\ no_param rest.
Proof.
  revert ts ps rest. induction fuel as [|fuel IH]; intros ts ps rest Hs Hl; simpl.
  { intros [= <- <-]. exists []. destruct ts; [|simpl in Hl; lia]. split_done. by constructor. }
  assert (Hstop : (forall ts', ts = BLANK :: ts' -> starts_word ts' = false) -> ([], ts) = (ps, rest) ->
    exists t1, ts = t1 ++ rest /\ d_blank_words t1 ps /\ no_param rest).
  { intros Hn [= <- <-]. exists []. split_done. by constructor. }
  destruct ts as [|tok ts]; [by apply Hstop|]. destruct tok; try (apply Hstop; by intros ts' [=]).
  destruct (take_word ts) as [w ts'] eqn:E. apply take_word_sound in E as [Hs' [(-> & -> & Hts)|(tw & -> & Hw)]].
  - apply Hstop. by intros ts' [= <-].
  - destruct (d_word_starts tw w [] Hw) as (_ & Hne & Ht). destruct w as [|p w]; [done|].
    destruct (take_params fuel ts') as [ps' rest'] eqn:E. intros [= <- <-].
    destruct (IH ts' ps' rest' Hs') as (t1 & -> & Hps & Hn); [|done|].
    + simpl in Hl. rewrite length_app in Hl. lia.
    + exists (BLANK :: tw ++ t1). split; [by rewrite <- app_comm_cons, <- (assoc_L (++))|]. split; [|done]. by constructor.
Qed.

(** ** Redirections *)

Inductive d_redirects : list token -> list (token * word) -> Prop :=
  | redirects_nil : d_redirects [] []
  | redirects_cons tok b1 tw w b2 ts rs :
      is_redirection tok = true -> d_word tw w -> d_redirects ts rs ->
      d_redirects (tok :: blanks b1 ++ tw ++ blanks b2 ++ ts) ((tok, w) :: rs).

Lemma redirects_snoc ts rs tok b1 tw w b2 : d_redirects ts rs -> is_redirection tok = true -> d_word tw w ->
  d_redirects (ts ++ tok :: blanks b1 ++ tw ++ blanks b2) (rs ++ [(tok, w)]).
Proof.
  intros Hrs Htok Hw. induction Hrs as [|tok0 b10 tw0 w0 b20 ts rs Htok0 Hw0 Hrs IH]; simpl.
  - rewrite <- (app_nil_r (blanks b2)). by apply redirects_cons; [..|constructor].
  - rewrite <- !(assoc_L (++)). by apply redirects_cons.
Qed.

Lemma redirects_app ts rs ts' rs' : d_redirect ts rs -> d_redirects ts' rs' -> d_redirect (ts ++ ts') (rs ++ rs').
Proof.
  intros Hrs Hrs'. revert ts rs Hrs. induction Hrs' as [|tok b1 tw w b2 ts' rs' Htok Hw Hrs' IH]; intros ts rs Hrs.
  - by rewrite !app_nil_r.
  - change ((tok, w) :: rs') with ([(tok, w)] ++ rs'). rewrite (app_assoc rs).
    replace (ts ++ tok :: blanks b1 ++ tw ++ blanks b2 ++ ts') with ((ts ++ tok :: blanks b1 ++ tw ++ blanks b2) ++ ts')
      by (by rewrite <- !(assoc_L (++)), <- app_comm_cons, <- !(assoc_L (++))).
    apply IH. by constructor.
Qed.

Lemma redirect_iff ts rs : d_redirect ts rs <-> d_redirects ts rs.
Proof.
  split; [|intros H; apply (redirects_app [] [] ts rs); [constructor|done]].
  induction 1 as [|ts rs tok b1 tw w b2 _ IH Htok Hw]; [constructor|by apply redirects_snoc].
Qed.

(** What follows a simple command: no word, no blank and no redirection. *)
Definition ends_simple (ts : list token) : Prop :=
  match ts with tok :: _ => starts_word ts = false /\ tok <> BLANK /\ is_redirection tok = false | [] => True end.

Lemma redirects_head ts rs rest : d_redirects ts rs -> ends_simple rest ->
  starts_word (ts ++ rest) = false /\ forall ts', ts ++ rest <> BLANK :: ts'.
Proof.
  intros [|tok b1 tw w b2 ts0 rs0 Htok] Hr; simpl.
  - destruct rest; [done|]. destruct Hr as (H1 & H2 & _). split; [done|]. intros ts' [= -> _]. done.
  - by destruct tok.
Qed.

Lemma skip_blank_blanks b ts : (forall ts', ts <> BLANK :: ts') -> skip_blank (blanks b ++ ts) = ts.
Proof. intros Hts. destruct b; [done|]. destruct ts as [|[] ts]; try done. by destruct (Hts ts). Qed.

Lemma take_redirects_complete fuel ts rs rest : d_redirects ts rs -> ends_simple rest -> (length ts < fuel)%nat ->
  take_redirects fuel (ts ++ rest) = (rs, Some rest).
Proof.
  intros Hrs Hr. revert fuel. induction Hrs as [|tok b1 tw w b2 ts rs Htok Hw Hrs IH]; intros fuel Hf; simpl.
  - destruct fuel as [|fuel]; [done|]. destruct rest as [|tok rest]; [done|]. destruct Hr as (_ & _ & Hr). simpl. by rewrite Hr.
  - destruct fuel as [|fuel]; simpl in Hf; [lia|]. simpl. rewrite Htok, <- !(assoc_L (++)).
    destruct (d_word_starts tw w (blanks b2 ++ ts ++ rest) Hw) as (Hst & Hne & _).
    destruct (redirects_head ts rs rest Hrs Hr) as [Hh1 Hh2].
    rewrite skip_blank_blanks by (intros ts' E; rewrite E in Hst; done).
    rewrite (take_word_complete tw w); [|done|by destruct b2]. destruct w as [|p w]; [done|].
    rewrite skip_blank_blanks by done. rewrite IH; [done|]. rewrite !length_app in Hf. lia.
Qed.

Lemma skip_blank_split ts : exists b, ts = blanks b ++ skip_blank ts.
Proof. destruct ts as [|[] ts]; try (by exists false). by exists true. Qed.

Lemma take_redirects_sound fuel ts rs rest : (length ts <= fuel)%nat -> take_redirects fuel ts = (rs, Some rest) ->
  exists t1, ts = t1 ++ rest /\ d_redirects t1 rs.
Proof.
  revert ts rs rest. induction fuel as [|fuel IH]; intros [|tok ts] rs rest Hl; simpl in *; try lia;
    try (intros [= <- <-]; exists []; by split; [|constructor]).
  destruct (is_redirection tok) eqn:Htok; [|intros [= <- <-]; exists []; by split; [|constructor]].
  destruct (take_word (skip_blank ts)) as [w ts'] eqn:E. apply take_word_sound in E as [_ [(-> & -> & _)|(tw & E & Hw)]]; [done|].
  destruct (d_word_starts tw w [] Hw) as (_ & Hne & _). destruct w as [|p w]; [done|].
  destruct (take_redirects fuel (skip_blank ts')) as [rs' r] eqn:Er. intros [= <- ->].
  destruct (skip_blank_split ts) as [b1 E1]. destruct (skip_blank_split ts') as [b2 E2].
  destruct (IH (skip_blank ts') rs' rest) as (t1 & E3 & Hrs); [|done|].
  - rewrite E1, E, E2, !length_app in Hl. lia.
  - exists (tok :: blanks b1 ++ tw ++ blanks b2 ++ t1). split; [|by constructor].
    rewrite E1 at 1. rewrite E, E2 at 1. rewrite E3 at 1. simpl. by rewrite <- !(assoc_L (++)).
Qed.

(** ** Simple commands *)

Lemma exe_name_word te w : d_exe_name te w -> exists b tw, te = blanks b ++ tw /\ d_word tw w.
Proof. intros [ts w0 Hw|ts w0 Hw]; [by exists false, ts|by exists true, ts]. Qed.

Lemma simple_parts ts w ps rs : d_simple ts (SSimple w ps rs) <->
  exists b1 tw tp b2 tr, ts = blanks b1 ++ tw ++ tp ++ blanks b2 ++ tr /\ d_word tw w /\ d_blank_words tp ps /\ d_redirects tr rs.
Proof.
  split.
  - intros H. inversion H as [te w0 tp ps0 tr rs0 He Hp Hr|te w0 tp ps0 tr rs0 He Hp Hr|te w0 tr rs0 He Hr|te w0 tr rs0 He Hr]; subst;
      apply exe_name_word in He as (b & tw & -> & Hw); apply redirect_iff in Hr.
    + apply params_blank_words in Hp as [Hp _]. exists b, tw, (BLANK :: tp), false, tr. by rewrite <- (assoc_L (++)).
    + apply params_blank_words in Hp as [Hp _]. exists b, tw, (BLANK :: tp), true, tr. by rewrite <- (assoc_L (++)).
    + exists b, tw, [], false, tr. rewrite <- (assoc_L (++)). split_done. by constructor.
    + exists b, tw, [], true, tr. rewrite <- (assoc_L (++)). split_done. by constructor.
  - intros (b1 & tw & tp & b2 & tr & -> & Hw & Hp & Hr). apply redirect_iff in Hr. rewrite (assoc_L (++)).
    assert (He : d_exe_name (blanks b1 ++ tw) w) by (destruct b1; by constructor).
    destruct Hp as [|tw0 w0 tp ps Hw0 Hp].
    + destruct b2; [by apply simple_blank|by apply simple_redirect].
    + pose proof (blank_words_params tw0 w0 tp ps Hw0 Hp) as Hps.
      destruct b2; [by apply simple_params_blank|by apply simple_params].
Qed.

Lemma take_simple_complete ts w ps rs tok rest : d_simple ts (SSimple w ps rs) -> ends_simple (tok :: rest) ->
  take_simple (ts ++ tok :: rest) = Some (w, ps, rs, Some (tok :: rest)).
Proof.
  intros (b1 & tw & tp & b2 & tr & -> & Hw & Hp & Hr)%simple_parts Hend. unfold take_simple. rewrite <- !(assoc_L (++)).
  destruct (redirects_head tr rs (tok :: rest) Hr Hend) as [Hh1 Hh2].
  destruct (d_word_starts tw w (tp ++ blanks b2 ++ tr ++ tok :: rest) Hw) as (Hst & Hne & _).
  rewrite skip_blank_blanks by (intros ts' E; rewrite E in Hst; done).
  assert (Hn : no_param (blanks b2 ++ tr ++ tok :: rest)).
  { split; [by destruct b2|]. intros ts'. destruct b2; simpl; [by intros [= <-]|intros E; by destruct (Hh2 ts')]. }
  rewrite (take_word_complete tw w); [|done|by apply (blank_words_rest tp ps); [|exact (proj1 Hn)]]. destruct w as [|p w]; [done|].
  rewrite (take_params_complete _ tp ps) by (done || (rewrite length_app; lia)).
  rewrite skip_blank_blanks by done. rewrite (take_redirects_complete _ tr rs); [done|done|done|].
  rewrite length_app. simpl. lia.
Qed.

Lemma take_simple_sound ts w ps rs rest : take_simple ts = Some (w, ps, rs, Some rest) ->
  exists t1, ts = t1 ++ rest /\ d_simple t1 (SSimple w ps rs).
Proof.
  unfold take_simple. destruct (take_word (skip_blank ts)) as [w0 ts0] eqn:Ew.
  apply take_word_sound in Ew as [Hs [(-> & _)|(tw & E & Hw)]]; [done|].
  destruct (d_word_starts tw w0 [] Hw) as (_ & Hne & _). destruct w0 as [|p w0]; [done|].
  destruct (take_params (length ts0) ts0) as [ps0 ts1] eqn:Ep.
  apply take_params_sound in Ep as (tp & -> & Hp & _); [|done|lia].
  destruct (take_redirects _ _) as [rs0 r] eqn:Er. intros [= <- <- <- ->].
  apply take_redirects_sound in Er as (tr & E2 & Hr); [|lia].
  destruct (skip_blank_split ts) as [b1 E1]. destruct (skip_blank_split ts1) as [b2 E3].
  exists (blanks b1 ++ tw ++ tp ++ blanks b2 ++ tr). split; [|by apply simple_parts; eexists _, _, _, _, _].
  rewrite E1, E, E3, E2. by rewrite <- !(assoc_L (++)).
Qed.

(** ** Commands *)

Definition top (st : list (command * operator_t)) : nat := match st with (_, op) :: _ => precedence op | [] => 0%nat end.

Lemma operator_level tok op : operator tok = Some op -> (0 < precedence op)%nat.
Proof. destruct tok; simpl; intros [= <-]; simpl; lia. Qed.

Lemma all_operators_mono (P Q : operator_t -> Prop) t : (forall o, P o -> Q o) -> all_operators P t -> all_operators Q t.
Proof. intros HPQ. induction t as [|op a IHa b IHb]; simpl; [done|]. naive_solver. Qed.

(** What the waiting commands were made of. *)
Inductive stack_ok : list (command * operator_t) -> list token -> Prop :=
  | stack_nil : stack_ok [] []
  | stack_cons st ts ta a c tok op :
      stack_ok st ts -> d_command ta a -> build a = Done c -> operator tok = Some op ->
      all_operators (fun o => (precedence op <= precedence o)%nat) a -> (top st < precedence op)%nat ->
      stack_ok ((c, op) :: st) (ts ++ ta ++ [tok]).

Lemma reduce_sound st ts tc t c level : stack_ok st ts -> d_command tc t -> build t = Done c ->
  all_operators (fun o => (top st < precedence o)%nat) t -> all_operators (fun o => (level <= precedence o)%nat) t ->
  exists st' c' ts' tc' t', reduce st c level = (st', c') /\ ts ++ tc = ts' ++ tc' /\ stack_ok st' ts' /\
    d_command tc' t' /\ build t' = Done c' /\ ((top st' < level)%nat \/ st' = []) /\
    all_operators (fun o => (level <= precedence o)%nat) t'.
Proof.
  intros Hst. revert tc t c. induction Hst as [|st ts ta a cl tok op Hst IH Ha Hb Htok Hla Htop]; intros tc t c Hc Hbc Ht Hl; simpl.
  { exists [], c, [], tc, t. split_done; [constructor|by right]. }
  destruct (level <=? precedence op)%nat eqn:E.
  - apply Nat.leb_le in E. destruct (IH (ta ++ tok :: tc) (SCompound op a t) (bind_commands cl c op)) as (st' & c' & ts' & tc' & t' & H1 & H2 & H3).
    + apply command_operator; done.
    + simpl. by rewrite Hb, Hbc.
    + simpl. split; [done|]. split; [eapply all_operators_mono; [|exact Hla]|eapply all_operators_mono; [|exact Ht]]; simpl; lia.
    + simpl. split; [done|]. split; [|done]. eapply all_operators_mono; [|exact Hla]. simpl. lia.
    + exists st', c', ts', tc', t'. rewrite H1. split; [done|]. split; [|done]. rewrite <- H2.
      by rewrite <- !(assoc_L (++)).
  - apply Nat.leb_gt in E. exists ((cl, op) :: st), c, (ts ++ ta ++ [tok]), tc, t. split_done; [by econstructor|by left].
Qed.

Lemma parse_commands_sound fuel st ts0 ts c : stack_ok st ts0 -> parse_commands fuel st ts = Done (Some c) ->
  exists t tc tok rest, ts0 ++ ts = tc ++ tok :: rest /\ ends_line tok = true /\ d_command tc t /\ build t = Done c.
Proof.
  revert st ts0 ts. induction fuel as [|fuel IH]; intros st ts0 ts Hst; simpl; [by destruct (take_simple ts)|].
  destruct (take_simple ts) as [[[[w ps] rs] rest]|] eqn:Es; [|done].
  destruct (bind_parts w ps rs) as [s|] eqn:Eb; [|done]. cbn [mbind outcome_bind].
  destruct rest as [[|tok tl]|]; [done| |done]. apply take_simple_sound in Es as (tc & -> & Hs).
  assert (Hc : d_command tc (SSimple w ps rs)) by (by apply command_simple).
  assert (Hbc : build (SSimple w ps rs) = Done (Simple s)) by (simpl; by rewrite Eb).
  destruct (operator tok) as [op|] eqn:Eop.
  - destruct (reduce_sound st ts0 tc _ _ (precedence op) Hst Hc Hbc I I) as (st' & c' & ts' & tc' & t' & -> & E & H1 & H2 & H3 & H4 & H5).
    intros Hp. apply IH with (ts0 := ts' ++ tc' ++ [tok]) in Hp as (t & tc2 & tok2 & rest & E2 & Hrest).
    + exists t, tc2, tok2, rest. split; [|done]. rewrite <- E2, (assoc_L (++)), E. by rewrite <- !(assoc_L (++)).
    + econstructor; try done. destruct H4 as [?| ->]; [done|]. simpl. by eapply operator_level.
  - destruct (ends_line tok) eqn:El; [|done].
    destruct (reduce_sound st ts0 tc _ _ 0 Hst Hc Hbc I I) as (st' & c' & ts' & tc' & t' & -> & E & H1 & H2 & H3 & [H4| ->] & H5); [lia|].
    simpl. intros [= <-]. inversion H1; subst. exists t', tc', tok, tl. split; [|done]. rewrite (assoc_L (++)), E. done.
Qed.

(** After a simple command [c] with [tok] next. *)
Definition continue (fuel : nat) (st : list (command * operator_t)) (c : command) (tok : token) (rest : list token)
    : outcome (option command) :=
  match operator tok with
  | Some op => let '(st, c) := reduce st c (precedence op) in parse_commands fuel ((c, op) :: st) rest
  | None => Done (if ends_line tok then Some (reduce st c 0).2 else None)
  end.

Lemma reduce_twice st c level level' st' c' : (level <= level')%nat -> reduce st c level' = (st', c') ->
  reduce st c level = reduce st' c' level.
Proof.
  intros Hl. revert c. induction st as [|[cl op] st IH]; intros c; simpl; [by intros [= <- <-]|].
  destruct (level' <=? precedence op)%nat eqn:E.
  - apply Nat.leb_le in E. rewrite (proj2 (Nat.leb_le level _)) by lia. apply IH.
  - by intros [= <- <-].
Qed.

Definition after_command (tok : token) : Prop := is_Some (operator tok) \/ ends_line tok = true.

Lemma after_command_ends tok rest : after_command tok -> ends_simple (tok :: rest).
Proof. intros [[op Hop]|Hend]; by destruct tok. Qed.

Lemma command_simple_inv ts w ps rs : d_command ts (SSimple w ps rs) -> d_simple ts (SSimple w ps rs).
Proof. by inversion 1. Qed.

(** Reading a command leaves a state from which it is reduced as one operand. *)
Lemma parse_commands_complete tc t : d_command tc t -> forall c fuel st tok rest,
  build t = Done c -> after_command tok -> (length (tc ++ tok :: rest) <= fuel)%nat ->
  all_operators (fun o => (top st < precedence o)%nat) t ->
  exists fuel' st' c', parse_commands fuel st (tc ++ tok :: rest) = continue fuel' st' c' tok rest /\ (length rest <= fuel')%nat /\
    forall level, (top st < level)%nat \/ st = [] -> all_operators (fun o => (level <= precedence o)%nat) t -> reduce st' c' level = (st, c).
Proof.
  induction 1 as [ts t Hs|ta a tok0 op tb b Ha IHa Hop Hb IHb Hla Hlb]; intros c fuel st tok rest Hbuild Htok Hfuel Htop.
  - destruct t as [w ps rs|]; [|by inversion Hs]. simpl in Hbuild. destruct (bind_parts w ps rs) as [s|] eqn:Eb; [|done].
    injection Hbuild as <-. rewrite length_app in Hfuel. simpl in Hfuel. destruct fuel as [|fuel]; [lia|]. simpl.
    rewrite (take_simple_complete ts w ps rs) by (done || by apply after_command_ends). rewrite Eb. cbn [mbind outcome_bind].
    exists fuel, st, (Simple s). split; [done|]. split; [lia|]. intros level Hlev _.
    destruct st as [|[cl op] st]; [done|]. simpl in *. destruct Hlev as [Hlev|]; [|done].
    by rewrite (proj2 (Nat.leb_gt _ _)) by lia.
  - simpl in Hbuild. destruct (build a) as [ca|] eqn:Ea; [|done]. destruct (build b) as [cb|] eqn:Eb; [|done]. injection Hbuild as <-.
    destruct Htop as (Htop & Hta & _). rewrite <- (assoc_L (++)), <- app_comm_cons in Hfuel |- *.
    destruct (IHa ca fuel st tok0 (tb ++ tok :: rest)) as (fa & sa & xa & -> & Hfa & Hreda);
      [done|left; by eexists|done|done|]. unfold continue at 1. rewrite Hop, (Hreda (precedence op)) by (done || by left).
    destruct (IHb cb fa ((ca, op) :: st) tok rest) as (fb & sb & xb & -> & Hfb & Hredb); [done..|].
    exists fb, sb, xb. split_done. intros level Hlev (Hop1 & _).
    rewrite (reduce_twice sb xb level (S (precedence op)) ((ca, op) :: st) cb); [|lia|].
    + simpl. rewrite (proj2 (Nat.leb_le level _)) by lia. destruct st as [|[cl o] st]; [done|]. simpl in *.
      destruct Hlev as [Hlev|]; [|done]. by rewrite (proj2 (Nat.leb_gt _ _)) by lia.
    + apply Hredb; [left; simpl; lia|]. eapply all_operators_mono; [|done]. simpl. lia.
Qed.

(** ** Lines *)

Lemma command_head tc t : d_command tc t -> exists b ts, tc = blanks b ++ ts /\ starts_word ts = true.
Proof.
  induction 1 as [ts t Hs|ta a tok op tb b _ (b0 & ts & -> & Hst) _ _ _ _ _].
  - destruct t as [w ps rs|]; [|by inversion Hs]. apply simple_parts in Hs as (b1 & tw & tp & b2 & tr & -> & Hw & _).
    exists b1, (tw ++ tp ++ blanks b2 ++ tr). split; [done|]. by apply d_word_starts with w.
  - exists b0, (ts ++ tok :: tb). split; [by rewrite <- (assoc_L (++))|]. by destruct ts as [|[] ts].
Qed.

Lemma yyparse_command b ts : starts_word ts = true -> yyparse (blanks b ++ ts) =
  r ← parse_commands (S (length (blanks b ++ ts))) [] (blanks b ++ ts);
  Done (match r with Some c => Some (Some c) | None => None end).
Proof. intros Hst. destruct b, ts as [|[] ts]; done. Qed.

Lemma yyparse_sound ts root : yyparse ts = Done (Some root) -> exists t, d_tree ts t /\ build_root t = Done root.
Proof.
  assert (Hcmd : forall c, parse_commands (S (length ts)) [] ts = Done (Some c) -> exists t, d_tree ts t /\ build_root t = Done (Some c)).
  { intros c Hp. destruct (parse_commands_sound _ [] [] ts c stack_nil Hp) as (t & tc & tok & rest & E & Hend & Ht & Hb).
    simpl in E. subst ts. exists (Some t). split; [by constructor|]. simpl. by rewrite Hb. }
  assert (Hrest : (r ← parse_commands (S (length ts)) [] ts; Done (match r with Some c => Some (Some c) | None => None end)) =
    Done (Some root) -> exists t, d_tree ts t /\ build_root t = Done root).
  { destruct (parse_commands _ _ _) as [[c|]|] eqn:E; simpl; [|done..]. intros [= <-]. by apply Hcmd. }
  unfold yyparse. destruct ts as [|tok1 ts1]; [done|]. destruct tok1; try done.
  + intros [= <-]. exists None. split; [by apply tree_empty|done].
  + intros [= <-]. exists None. split; [by apply tree_empty|done].
  + destruct ts1 as [|tok2 ts2]; [done|]. destruct tok2; try done;
      (intros [= <-]; exists None; split; [by apply tree_blank|done]).
Qed.

Lemma yyparse_complete ts t root : d_tree ts t -> build_root t = Done root -> yyparse ts = Done (Some root).
Proof.
  intros Ht Hb. destruct Ht as [tc t tok rest Hc Hend|tok rest Hend|tok rest Hend].
  + simpl in Hb. destruct (build t) as [c|] eqn:Eb; [|done]. injection Hb as <-.
    destruct (command_head tc t Hc) as (b & ts & E & Hst).
    destruct (parse_commands_complete tc t Hc c (S (length (tc ++ tok :: rest))) [] tok rest Eb) as (f & st & c' & Ep & _ & Hred);
      [by right|lia| |].
    { clear -Hc. induction Hc as [ts t Hs|ta a tok op tb b _ IHa Hop _ IHb]; [by destruct Hs|]. simpl. split_done.
      by eapply operator_level. }
    rewrite E, <- (assoc_L (++)) in Ep |- *. rewrite yyparse_command by (by destruct ts as [|[] ts]).
    rewrite Ep. unfold continue. assert (operator tok = None) as -> by (by destruct tok). rewrite Hend.
    rewrite (Hred 0%nat); [done|by right|]. clear. induction t as [|op a IHa b IHb]; simpl; [done|]. split_done. lia.
  + destruct tok; try done; simpl in Hb; by injection Hb as <-.
  + destruct tok; try done; simpl in Hb; by injection Hb as <-.
Qed.

(** C17: the parser is the grammar.  The shift-reduce loop accepts a list of tokens
    with a given result exactly when the productions of [parser.y] derive a
    command from it, the operators grouped as the [%left] declarations say, and
    the actions on that derivation build the result.  So the grammar with its
    precedences is unambiguous up to that result, and a line it does not derive
    is a syntax error or stops at an assertion. *)
Theorem parser_implements_grammar (ts : list token) (root : option command) :
  yyparse ts = Done (Some root) <-> exists t, d_tree ts t /\ build_root t = Done root.
Proof. split; [apply yyparse_sound|]. intros (t & Ht & Hb). by apply (yyparse_complete ts t). Qed.
