(* ===== verification/ParserLists.v ===== *)
(** * The parser of the mini-shell: its lists of words

    The actions append one new cell at a time.  As long as no [&>] puts a cell in
    two lists, the lists of a command are the words of the line in order; and
    whatever the line, they hold words of the line only. *)

From Stdlib Require Import ZArith Lia Ascii.
From stdpp Require Import list strings sets.
From S2P Require Import Prelude CString Lexer Shell Parser.
Open Scope Z_scope.

(** ** Lists in the store *)

(** The list from [lst] runs through the cells [ix] and holds the words [ws]. *)
Fixpoint lseg (h : cells) (lst : option nat) (ix : list nat) (ws : list word) : Prop :=
  match ix, ws with
  | [], [] => lst = None
  | i :: ix, w :: ws => lst = Some i /\ exists nx, h !! i = Some (Cell w nx) /\ lseg h nx ix ws
  | _, _ => False
  end.

Implicit Types (h : cells) (ix : list nat) (ws : list word).

Lemma lseg_dom h lst ix ws i : lseg h lst ix ws -> i ∈ ix -> (i < length h)%nat.
Proof.
  revert lst ws. induction ix as [|j ix IH]; intros lst [|w ws]; simpl; try done; [by intros _ ?%elem_of_nil|].
  intros (_ & nx & Hj & Hs) [->|Hi]%elem_of_cons; [by eapply lookup_lt_Some|by eapply IH].
Qed.

Lemma lseg_frame h h' lst ix ws : lseg h lst ix ws -> (forall i, i ∈ ix -> h' !! i = h !! i) -> lseg h' lst ix ws.
Proof.
  revert lst ws. induction ix as [|j ix IH]; intros lst [|w ws]; simpl; try done.
  intros (-> & nx & Hj & Hs) Hf. split; [done|]. exists nx. rewrite Hf by (by left). split; [done|].
  apply (IH _ _ Hs). intros i Hi. apply Hf. by right.
Qed.

Lemma lseg_length h lst ix ws : lseg h lst ix ws -> NoDup ix -> (length ix <= length h)%nat.
Proof.
  intros Hs Hnd. transitivity (length (seq 0 (length h))); [|by rewrite length_seq].
  apply NoDup_incl_length; [by apply NoDup_ListNoDup|]. intros i Hi%list_elem_of_In.
  apply in_seq. split; [lia|]. by eapply lseg_dom.
Qed.

(** The last cell of a list of two or more, and of one. *)
Lemma last_cell_ok h ix i w ws fuel : lseg h (Some i) (i :: ix) (w :: ws) -> (length ix <= fuel)%nat ->
  exists k c, last_cell fuel h i = Done k /\ h !! k = Some (Cell c None) /\ k ∈ i :: ix /\
    (NoDup (i :: ix) -> forall p wp, p ∉ i :: ix -> p <> k -> h !! p = Some (Cell wp None) ->
       lseg (<[k := Cell c (Some p)]> h) (Some i) (i :: ix ++ [p]) (w :: ws ++ [wp])).
Proof.
  revert i w ws fuel. induction ix as [|j ix IH]; intros i w ws fuel Hs Hf.
  - destruct Hs as (_ & nx & Hi & Hs). destruct ws; [|done]. simpl in Hs. subst nx. exists i, w.
    split; [destruct fuel; simpl; unfold array_get; by rewrite Hi|]. split; [done|]. split; [by left|].
    intros _ p wp Hp Hne Hpw. simpl. split; [done|]. exists (Some p). apply lookup_lt_Some in Hi as Hlt.
    rewrite list_lookup_insert_eq by done. split; [done|]. split; [done|]. exists None.
    rewrite list_lookup_insert_ne by done. by split.
  - destruct Hs as (_ & nx & Hi & Hs). destruct ws as [|w' ws]; [done|]. destruct Hs as (-> & Hs).
    destruct fuel as [|fuel]; simpl in Hf; [lia|].
    destruct (IH j w' ws fuel) as (k & c & Hl & Hk & Hin & Happ); [by split|lia|].
    exists k, c. split; [simpl; unfold array_get; by rewrite Hi|]. split; [done|]. split; [by right|].
    intros [Hni Hnd]%NoDup_cons p wp Hp Hne Hpw. simpl. split; [done|]. exists (Some j).
    assert (k <> i) by (intros ->; by apply Hni). rewrite list_lookup_insert_ne by done. split; [done|].
    apply Happ; try done. intros Hp2. apply Hp. by right.
Qed.

(** A new cell is appended to a list; lists elsewhere stay. *)
Lemma append_word h lst ix ws w : lseg h lst ix ws -> NoDup ix ->
  exists h' lst', add_word_to_list (h ++ [Cell w None]) (length h) lst = Done (h', lst') /\
    lseg h' lst' (ix ++ [length h]) (ws ++ [w]) /\ NoDup (ix ++ [length h]) /\ length h' = S (length h) /\
    (forall i, i ∉ ix -> (i < length h)%nat -> h' !! i = h !! i) /\ is_Some lst'.
Proof.
  intros Hs Hnd. set (h1 := h ++ [Cell w None]). set (p := length h).
  assert (Hp : h1 !! p = Some (Cell w None)) by (unfold h1, p; by rewrite lookup_app_r, Nat.sub_diag).
  assert (Hold : forall i, (i < length h)%nat -> h1 !! i = h !! i) by (intros i Hi; unfold h1; by rewrite lookup_app_l).
  assert (Hl1 : length h1 = S (length h)) by (unfold h1; rewrite length_app; simpl; lia).
  assert (Hdom : forall i, i ∈ ix -> (i < length h)%nat) by (intros i; by eapply lseg_dom).
  assert (Hpn : p ∉ ix) by (intros Hi%Hdom; unfold p in Hi; lia).
  assert (Hs1 : lseg h1 lst ix ws) by (eapply lseg_frame; [done|]; intros i Hi; apply Hold; by apply Hdom).
  assert (Hnd' : NoDup (ix ++ [p])).
  { apply NoDup_app. split_done; [intros x Hx ->%list_elem_of_singleton; done|apply NoDup_singleton]. }
  destruct ix as [|i ix].
  - destruct ws; [|done]. simpl in Hs. subst lst. exists h1, (Some p).
    split; [simpl; unfold assert_unlinked, array_get; by rewrite Hp|]. split_done; [|by intros; apply Hold].
    simpl. split; [done|]. by exists None.
  - destruct ws as [|w0 ws]; [done|]. pose proof Hs1 as (-> & _). pose proof (lseg_length h1 _ _ _ Hs1 Hnd) as Hlen. simpl in Hlen.
    destruct (last_cell_ok h1 ix i w0 ws (length h1) Hs1) as (k & c & Ek & Hk & Hin & Happ); [lia|].
    assert (Hkp : p <> k) by (intros <-; by apply Hpn). simpl. unfold assert_unlinked, array_get, array_set in *.
    rewrite Ek. cbn [mbind outcome_bind]. rewrite Hk. cbn [mbind outcome_bind].
    rewrite decide_True by (by eapply lookup_lt_Some). cbn [mbind outcome_bind cell_word].
    rewrite list_lookup_insert_ne, Hp by done. cbn [mbind outcome_bind]. exists (<[k := Cell c (Some p)]> h1), (Some i).
    split; [done|]. split; [by apply Happ|]. split_done; [by rewrite length_insert|].
    intros x Hx Hlt. rewrite list_lookup_insert_ne by (intros ->; by apply Hx). by apply Hold.
Qed.

Lemma list_words_ok h lst ix ws fuel : lseg h lst ix ws -> (length ix < fuel)%nat -> list_words fuel h lst = Done ws.
Proof.
  revert h lst ws fuel. induction ix as [|i ix IH]; intros h lst [|w ws] fuel; simpl; try done.
  - intros -> _. by destruct fuel.
  - intros (-> & nx & Hi & Hs) Hf. destruct fuel as [|fuel]; [lia|]. simpl. unfold array_get. rewrite Hi.
    cbn [mbind outcome_bind next_word cell_word]. rewrite (IH h nx ws fuel Hs) by lia. done.
Qed.

(** ** Parameters and redirections *)

Lemma params_append ps h lst ix ws : lseg h lst ix ws -> NoDup ix ->
  exists h' lst' ix', each param_action ps (h, lst) = Done (h', lst') /\ lseg h' lst' ix' (ws ++ ps) /\ NoDup ix'.
Proof.
  revert h lst ix ws. induction ps as [|w ps IH]; intros h lst ix ws Hs Hnd; simpl.
  { exists h, lst, ix. by rewrite app_nil_r. }
  destruct (append_word h lst ix ws w Hs Hnd) as (h1 & lst1 & E & Hs1 & Hnd1 & _). unfold param_action, new_cell in *.
  rewrite E. cbn [mbind outcome_bind]. destruct (IH h1 lst1 _ _ Hs1 Hnd1) as (h2 & lst2 & ix2 & -> & Hs2 & Hnd2).
  exists h2, lst2, ix2. by rewrite <- (assoc_L (++)) in Hs2.
Qed.

(** The lists of a simple command. *)
Inductive list_kind := Params | InList | OutList | ErrList.

#[export] Instance list_kind_eq_dec : EqDecision list_kind.
Proof. solve_decision. Defined.

Definition heads (params : option nat) (r : redirect_t) (k : list_kind) : option nat :=
  match k with Params => params | InList => red_i r | OutList => red_o r | ErrList => red_e r end.

(** The list a redirection other than [&>] goes to, and whether it appends. *)
Definition list_of (tok : token) : list_kind :=
  match tok with REDIRECT_O | REDIRECT_APPEND_O => OutList | REDIRECT_E | REDIRECT_APPEND_E => ErrList | _ => InList end.
Definition flag_of (tok : token) : Z :=
  match tok with REDIRECT_APPEND_O => IO_OUT_APPEND | REDIRECT_APPEND_E => IO_ERR_APPEND | _ => IO_REGULAR end.

Definition words_for (k : list_kind) (rs : list (token * word)) : list word := (filter (fun r => list_of r.1 = k) rs).*2.
Definition flags_for (rs : list (token * word)) (fl : Z) : Z := foldl (fun fl r => Z.lor fl (flag_of r.1)) fl rs.
Definition one_list (tok : token) : Prop := is_redirection tok = true /\ tok <> REDIRECT_OE.

(** All lists in one store, without a common cell. *)
Record lists_ok h (hd : list_kind -> option nat) (ix : list_kind -> list nat) (ws : list_kind -> list word) : Prop := {
  li_seg k : lseg h (hd k) (ix k) (ws k);
  li_nodup k : NoDup (ix k);
  li_disjoint k k' i : k <> k' -> i ∈ ix k -> i ∉ ix k'
}.

(** The function [f] with another value at [k]. *)
Definition with_kind {A} (f : list_kind -> A) (k : list_kind) (a : A) : list_kind -> A :=
  fun j => if decide (j = k) then a else f j.

Lemma append_to h hd (ix : list_kind -> list nat) (ws : list_kind -> list word) k w : lists_ok h hd ix ws ->
  exists h' lst', add_word_to_list (h ++ [Cell w None]) (length h) (hd k) = Done (h', lst') /\
    forall hd', hd' k = lst' -> (forall j, j <> k -> hd' j = hd j) ->
      lists_ok h' hd' (with_kind ix k (ix k ++ [length h])) (with_kind ws k (ws k ++ [w])).
Proof.
  intros [Hs Hnd Hd]. destruct (append_word h (hd k) (ix k) (ws k) w (Hs k) (Hnd k)) as (h' & lst' & E & Hs' & Hnd' & _ & Hfr & _).
  exists h', lst'. split; [done|]. intros hd' Hk Hj.
  assert (Hnew : forall j, length h ∉ ix j) by (intros j Hi; apply (lseg_dom _ _ _ _ _ (Hs j)) in Hi; lia).
  split; unfold with_kind.
  - intros j. case_decide as E1; [subst j; by rewrite Hk|]. rewrite Hj by done. eapply lseg_frame; [done|].
    intros i Hi. apply Hfr; [by apply (Hd j k)|by eapply lseg_dom].
  - intros j. by case_decide.
  - intros j j' i Hne. case_decide; case_decide; subst; try done; rewrite ?elem_of_app, ?list_elem_of_singleton.
    + intros [Hi| ->]; [by apply (Hd k j')|done].
    + intros Hi [Hi'| ->]; [by apply (Hd j k i)|by apply (Hnew j)].
    + by apply Hd.
Qed.

Lemma redirect_one h params r (ix : list_kind -> list nat) (ws : list_kind -> list word) tok w : lists_ok h (heads params r) ix ws -> one_list tok ->
  exists h' r' (ix' : list_kind -> list nat) (ws' : list_kind -> list word), redirect_action tok w (h, r) = Done (h', r') /\ lists_ok h' (heads params r') ix' ws' /\
    ix' Params = ix Params /\ (forall k, ws' k = ws k ++ words_for k [(tok, w)]) /\
    red_flags r' = Z.lor (red_flags r) (flag_of tok).
Proof.
  intros Hl [Htok Hne]. destruct (append_to h _ ix ws (list_of tok) w Hl) as (h' & lst' & E & Hok).
  unfold redirect_action, new_cell. destruct tok; try done; simpl in E; rewrite E; cbn [mbind outcome_bind];
    (eexists h', _, _, _; split; [done|]; split; [apply Hok; [done|by intros []]|]);
    (split; [done|]; split; [by intros []; simpl; rewrite ?app_nil_r|]); simpl; by rewrite ?Z.lor_0_r.
Qed.

Lemma redirects_append rs h params r (ix : list_kind -> list nat) (ws : list_kind -> list word) : lists_ok h (heads params r) ix ws -> Forall (fun x => one_list x.1) rs ->
  exists h' r' (ix' : list_kind -> list nat) (ws' : list_kind -> list word), each (fun x => redirect_action x.1 x.2) rs (h, r) = Done (h', r') /\
    lists_ok h' (heads params r') ix' ws' /\ (forall k, ws' k = ws k ++ words_for k rs) /\ red_flags r' = flags_for rs (red_flags r).
Proof.
  revert h r ix ws. induction rs as [|[tok w] rs IH]; intros h r ix ws Hl Hrs.
  { exists h, r, ix, ws. split_done. intros k. by rewrite app_nil_r. }
  apply Forall_cons in Hrs as [Htok Hrs]. destruct (redirect_one h params r ix ws tok w Hl Htok) as (h1 & r1 & ix1 & ws1 & E1 & Hl1 & _ & Hw1 & Hf1).
  cbn [each fst snd]. rewrite E1. cbn [mbind outcome_bind]. destruct (IH h1 r1 ix1 ws1 Hl1 Hrs) as (h2 & r2 & ix2 & ws2 & E2 & Hl2 & Hw2 & Hf2).
  exists h2, r2, ix2, ws2. split_done; [|by rewrite Hf2, Hf1]. intros k. rewrite Hw2, Hw1, <- (assoc_L (++)). f_equal.
  unfold words_for. rewrite !filter_cons. simpl. rewrite filter_nil. by case_decide.
Qed.

(** Without [&>] the lists of a command are the words of the line in order. *)
Lemma bind_parts_ok exe ps rs : Forall (fun x => one_list x.1) rs ->
  bind_parts exe ps rs =
    Done (SCmd exe ps (words_for InList rs) (words_for OutList rs) (words_for ErrList rs) (flags_for rs IO_REGULAR)).
Proof.
  intros Hrs. unfold bind_parts. destruct (params_append ps [] None [] []) as (h & params & ip & -> & Hp & Hnd); [done|constructor|].
  cbn [mbind outcome_bind].
  destruct (redirects_append rs h params no_redirect (fun k => if decide (k = Params) then ip else []) (fun k => if decide (k = Params) then ps else []))
    as (h' & r & ix & ws & -> & Hl & Hw & Hf); [|done|].
  { split; [by intros []|by intros []; try constructor|]. intros k k' i Hne. repeat case_decide; subst; try done; rewrite ?elem_of_nil; tauto. }
  cbn [mbind outcome_bind]. pose proof Hl as [Hs Hdi _].
  assert (Hlist : forall k, list_words (S (length h')) h' (heads params r k) = Done (ws k)).
  { intros k. apply (list_words_ok _ _ (ix k)); [done|]. pose proof (lseg_length _ _ _ _ (Hs k) (Hdi k)). lia. }
  pose proof (Hlist Params) as H0. pose proof (Hlist InList) as H1. pose proof (Hlist OutList) as H2. pose proof (Hlist ErrList) as H3.
  simpl heads in *. rewrite H0, H1, H2, H3. cbn [mbind outcome_bind]. rewrite !Hw, Hf. simpl.
  assert (words_for Params rs = []) as ->; [|by rewrite app_nil_r]. clear. unfold words_for.
  induction rs as [|[[] w] rs IH]; simpl; rewrite ?filter_cons; done.
Qed.

(** ** Whatever the line *)

(** The bits of [io_flags]. *)
Definition flag_bits (out err : bool) : Z := (if out then IO_OUT_APPEND else 0) + (if err then IO_ERR_APPEND else 0).

(** An append flag is only set for a list that is not empty. *)
Record simple_ok (P : word -> Prop) (s : simple_command) : Prop := {
  so_verb : P (verb s);
  so_params : Forall P (params s);
  so_in : Forall P (s_in s);
  so_out : Forall P (s_out s);
  so_err : Forall P (s_err s);
  so_flags : exists out err, io_flags s = flag_bits out err /\
    (out = true -> s_out s <> []) /\ (err = true -> s_err s <> [])
}.

Section any.
Context (P : word -> Prop).

Definition cells_ok h : Prop := Forall (fun c => P (cell_word c)) h.

Lemma add_word_cells h p lst h' lst' : add_word_to_list h p lst = Done (h', lst') -> cells_ok h ->
  cells_ok h' /\ is_Some lst'.
Proof using Type.
  unfold add_word_to_list. intros E Hh. destruct lst as [first|].
  - apply bind_Done in E as (crt & _ & E). apply bind_Done in E as (c & Hc & E). apply array_get_Done in Hc.
    apply bind_Done in E as (h1 & Hs & E). apply bind_Done in E as (u & _ & E). injection E as <- <-. split; [|by eexists].
    unfold array_set in Hs. case_decide; [|done]. injection Hs as <-. apply Forall_insert; [done|].
    by apply (Forall_lookup_1 _ _ _ _ Hh Hc).
  - apply bind_Done in E as (u & _ & E). injection E as <- <-. split; [done|by eexists].
Qed.

Lemma new_cell_ok h w : cells_ok h -> P w -> cells_ok (h ++ [Cell w None]).
Proof using Type. intros Hh Hw. apply Forall_app. split; [done|]. by constructor. Qed.

Lemma params_cells ps h lst h' lst' : each param_action ps (h, lst) = Done (h', lst') -> cells_ok h -> Forall P ps -> cells_ok h'.
Proof using Type.
  revert h lst. induction ps as [|w ps IH]; intros h lst E Hh Hps; simpl in E; [by injection E as <- <-|].
  apply Forall_cons in Hps as [Hw Hps]. apply bind_Done in E as ([h1 lst1] & E1 & E).
  apply add_word_cells in E1 as [Hh1 _]; [|by apply new_cell_ok]. by eapply IH.
Qed.

(** A set flag goes with a list that was begun. *)
Definition flags_ok (r : redirect_t) : Prop :=
  exists out err, red_flags r = flag_bits out err /\ (out = true -> is_Some (red_o r)) /\ (err = true -> is_Some (red_e r)).

Lemma redirect_cells tok w h r h' r' : redirect_action tok w (h, r) = Done (h', r') -> cells_ok h -> P w -> flags_ok r ->
  cells_ok h' /\ flags_ok r'.
Proof using Type.
  intros E Hh Hw (out & err & Hf & Ho & He). unfold redirect_action, new_cell in E.
  pose proof (new_cell_ok h w Hh Hw) as Hn.
  assert (Hadd : forall lst h1 lst1, add_word_to_list (h ++ [Cell w None]) (length h) lst = Done (h1, lst1) ->
    cells_ok h1 /\ is_Some lst1) by (intros lst h1 lst1 Ea; by eapply add_word_cells).
  destruct tok; try (apply bind_Done in E as ([h1 x] & E1 & E); apply Hadd in E1 as [H1 Hx]);
    try (injection E as <- <-; split; [done|]; by exists out, err).
  - apply bind_Done in E as ([h2 y] & E2 & E). apply add_word_cells in E2 as [H2 Hy]; [|done].
    injection E as <- <-. split; [done|]. by exists out, err.
  - injection E as <- <-. split; [done|]. exists out, true. simpl. rewrite Hf. split; [by destruct out, err|]. done.
  - injection E as <- <-. split; [done|]. exists true, err. simpl. rewrite Hf. split; [by destruct out, err|]. done.
Qed.

Lemma redirects_cells rs h r h' r' : each (fun x => redirect_action x.1 x.2) rs (h, r) = Done (h', r') ->
  cells_ok h -> Forall (fun x => P x.2) rs -> flags_ok r -> cells_ok h' /\ flags_ok r'.
Proof using Type.
  revert h r. induction rs as [|[tok w] rs IH]; intros h r E Hh Hrs Hf; [by injection E as <- <-|].
  apply Forall_cons in Hrs as [Hw Hrs]. apply bind_Done in E as ([h1 r1] & E1 & E).
  destruct (redirect_cells tok w h r h1 r1 E1 Hh Hw Hf). by eapply IH.
Qed.

Lemma list_words_cells fuel h lst ws : list_words fuel h lst = Done ws -> cells_ok h ->
  Forall P ws /\ (is_Some lst -> ws <> []).
Proof using Type.
  revert lst ws. induction fuel as [|fuel IH]; intros [p|] ws E Hh; simpl in E; try done;
    try (injection E as <-; split; [done|]; by intros [? ?]).
  apply bind_Done in E as (c & Hc & E). apply array_get_Done in Hc. apply bind_Done in E as (ws' & Hws & E). injection E as <-.
  apply IH in Hws as [Hws _]; [|done]. split; [|done]. constructor; [|done]. exact (Forall_lookup_1 _ _ _ _ Hh Hc).
Qed.

Lemma bind_parts_words exe ps rs s : bind_parts exe ps rs = Done s -> P exe -> Forall P ps -> Forall (fun x => P x.2) rs ->
  simple_ok P s.
Proof using Type.
  intros E He Hps Hrs. unfold bind_parts in E.
  apply bind_Done in E as ([h pl] & E1 & E). apply params_cells in E1; [|by constructor|done].
  apply bind_Done in E as ([h' r] & E2 & E). apply redirects_cells in E2 as [Hh (out & err & Hf & Ho & Hr)]; [|done|done|by exists false, false].
  apply bind_Done in E as (wp & Hp & E). apply bind_Done in E as (wi & Hi & E). apply bind_Done in E as (wo & Hwo & E).
  apply bind_Done in E as (we & Hwe & E). injection E as <-.
  apply list_words_cells in Hp as [Hp _], Hi as [Hi _], Hwo as [Hwo Ho'], Hwe as [Hwe He']; try done.
  split; try done. exists out, err. split_done; intros Hb; [by apply Ho', Ho|by apply He', Hr].
Qed.
End any.
