(* ===== verification/ParserProps.v ===== *)
(** * What the mini-shell's parser promises

    [parser.h] says what a parse tree looks like; every tree of [parse_line] does.
    Conversely every such tree can be written as a line, and parsing that line
    gives it back. *)

From Stdlib Require Import ZArith Lia Ascii.
From Stdlib Require String.
From stdpp Require Import list strings.
From S2P Require Import Prelude CString Lexer Shell Parser Grammar ParserLists.
Open Scope Z_scope.

(** ** Trees *)

(** Text that one token can hold: between single quotes, or between double ones. *)
Definition text_ok (s : string) : Prop :=
  chars s <> [] /\ (quote ∉ chars s \/ (dquote ∉ chars s /\ dollar ∉ chars s)).
Definition name_ok (s : string) : Prop :=
  match chars s with c :: l => nameStart c = true /\ Forall (fun c => nameChar c = true) l | [] => False end.

Definition part_ok (p : part) : Prop := if expand p then name_ok (string_of p) else text_ok (string_of p).
Definition word_ok (w : word) : Prop := w <> [] /\ Forall part_ok w.

Fixpoint operators_of (P : operator_t -> Prop) (c : command) : Prop :=
  match c with Simple _ => True | Compound op a b => P op /\ operators_of P a /\ operators_of P b end.

(** No operator of a lower priority below an operator, nor the same one on its
    right. *)
Fixpoint command_ok (c : command) : Prop :=
  match c with
  | Simple s => simple_ok word_ok s
  | Compound op a b =>
      op <> OP_DUMMY /\ command_ok a /\ command_ok b /\
      operators_of (fun o => (precedence op <= precedence o)%nat) a /\
      operators_of (fun o => (precedence op < precedence o)%nat) b
  end.

(** ** Tokens *)

Lemma chars_text l : chars (text l) = l.
Proof. apply String.list_ascii_of_string_of_list_ascii. Qed.

Lemma text_chars s : text (chars s) = s.
Proof. apply String.string_of_list_ascii_of_string. Qed.

Definition token_ok (tok : token) : Prop :=
  match tok with WORD s => text_ok s | ENV_VAR s => name_ok s | _ => True end.

Lemma span_take (p : ascii -> bool) l : Forall (fun c => p c = true) (take (span p l) l).
Proof. induction l as [|c l IH]; simpl; [done|]. destruct (p c) eqn:E; simpl; by constructor. Qed.

Lemma span_app (p : ascii -> bool) l rest : Forall (fun c => p c = true) l -> span p (l ++ rest) = (length l + span p rest)%nat.
Proof. induction 1 as [|c l Hc _ IH]; simpl; [done|]. by rewrite Hc, IH. Qed.

Lemma span_stop (p : ascii -> bool) l : match l with c :: _ => p c = false | [] => True end -> span p l = 0%nat.
Proof. destruct l as [|c l]; simpl; [done|]. by intros ->. Qed.

Lemma best_rule rs l n a : best rs l = Some (n, a) -> exists p, (p, a) ∈ rs /\ p l = Some n.
Proof.
  revert n a. induction rs as [|[p b] rs IH]; intros n a; simpl; [done|].
  assert (Hlater : best rs l = Some (n, a) -> exists q, (q, a) ∈ (p, b) :: rs /\ q l = Some n).
  { intros Hb. apply IH in Hb as (q & Hq & Hn). exists q. split; [by right|done]. }
  destruct (p l) as [m|] eqn:Ep; [|done]. destruct (best rs l) as [[k c]|] eqn:Eb.
  - destruct (m <? k)%nat; [intros [= <- <-]; by apply Hlater|]. intros [= <- <-]. exists p. split; [by left|done].
  - intros [= <- <-]. exists p. split; [by left|done].
Qed.

Lemma forbidden (p : ascii -> bool) c l : Forall (fun x => p x = true) l -> p c = false -> c ∉ l.
Proof. intros Hl Hc Hin. rewrite Forall_forall in Hl. specialize (Hl c Hin). congruence. Qed.

(** Text that a pattern of characters other than some delimiters matched. *)
Lemma span_text (p : ascii -> bool) l n : (n <= span p l)%nat -> (0 < n)%nat -> l <> [] ->
  p quote = false \/ (p dquote = false /\ p dollar = false) -> text_ok (text (take n l)).
Proof.
  intros Hn H0 Hl Hp. unfold text_ok. rewrite chars_text. destruct l as [|c l]; [done|]. destruct n as [|n]; [lia|].
  split; [done|]. assert (Hf : Forall (fun x => p x = true) (take (S n) (c :: l))).
  { pose proof (span_take p (c :: l)) as Hs. rewrite <- (take_drop (S n) (take (span p (c :: l)) (c :: l))) in Hs.
    rewrite take_take, Nat.min_l in Hs by done. by apply Forall_app in Hs as [Hs _]. }
  destruct Hp as [Hp|[Hp1 Hp2]]; [left; by apply (forbidden p)|right; split; by apply (forbidden p)].
Qed.

Lemma env_name_ok l n : followed (literal "$") envVarName l = Some n -> name_ok (text (drop 1 (take n l))).
Proof.
  unfold followed, literal. destruct (decide _) as [E|]; [|done]. destruct l as [|c l]; [done|]. injection E as ->.
  intros En. apply bind_Some in En as (k & [= <-] & (m & Hm & [= <-])%bind_Some).
  cbn [drop take Nat.add length chars String.list_ascii_of_string] in *.
  destruct l as [|d l]; [done|]. rewrite drop_0. rewrite drop_0 in Hm. cbn [envVarName] in Hm.
  destruct (nameStart d) eqn:Ed; [|done]. injection Hm as <-.
  unfold name_ok. rewrite chars_text. split; [exact Ed|apply span_take].
Qed.

Lemma many1_text (p : ascii -> bool) l n : many1 p l = Some n -> p quote = false -> text_ok (text (take n l)).
Proof.
  unfold many1. destruct (span p l) as [|m] eqn:E; [done|]. intros [= <-] Hp. eapply (span_text p); try lia; [|by left].
  by destruct l.
Qed.

(** A rule gives right tokens. *)
Definition rule_ok (r : pattern * action) : Prop :=
  forall l n, r.1 l = Some n -> (0 < n)%nat ->
    match r.2 with
    | Return tok => token_ok tok
    | ReturnWord => text_ok (text (take n l))
    | ReturnVar => name_ok (text (drop 1 (take n l)))
    | Begin _ => True
    end.

Lemma many_rule (p : ascii -> bool) : p quote = false \/ (p dquote = false /\ p dollar = false) -> rule_ok (many p, ReturnWord).
Proof.
  intros Hp l n [= <-] Hn. simpl in *. apply (span_text p); [lia|done|intros ->; simpl in Hn; lia|done].
Qed.

Lemma token_rule p tok : token_ok tok -> rule_ok (p, Return tok).
Proof. by intros Ht l n _ _. Qed.

Lemma begin_rule p st : rule_ok (p, Begin st).
Proof. by intros l n _ _. Qed.

Lemma equals_rule : rule_ok (literal "=", ReturnWord).
Proof.
  intros l n E _. unfold literal in E. simpl in *. destruct (decide _) as [E2|]; [|done]. injection E as <-.
  destruct l as [|c l]; [done|]. injection E2 as ->. unfold text_ok. rewrite chars_text. simpl. split; [done|]. left.
  by intros [=]%list_elem_of_singleton.
Qed.

Lemma rules_ok st : Forall rule_ok (rules st).
Proof.
  assert (Hvar : rule_ok (followed (literal "$") envVarName, ReturnVar)) by (intros l n E _; by apply env_name_ok).
  assert (Hval : rule_ok (many1 valueChar, ReturnWord)) by (intros l n E _; by apply (many1_text valueChar)).
  apply Forall_app. split; [|by repeat constructor].
  destruct st; repeat (apply Forall_cons; split); try apply Forall_nil_2;
    try (by apply token_rule); try apply begin_rule; try apply equals_rule; try done;
    apply many_rule; [by left|by right].
Qed.

Lemma tokens_ok fuel st l : Forall token_ok (tokens fuel st l).
Proof.
  revert st l. induction fuel as [|fuel IH]; intros st l; simpl; [destruct l; by destruct st; repeat constructor|].
  destruct l as [|c l]; [by destruct st; repeat constructor|].
  destruct (best_rules st c l) as (n & a & E & Hn). rewrite E. apply best_rule in E as (p & Hp & En).
  pose proof (rules_ok st) as Hr. rewrite Forall_forall in Hr. specialize (Hr _ Hp _ _ En Hn). simpl in Hr.
  destruct a; simpl; try done; by constructor.
Qed.

(** ** Trees of the parser *)

Lemma d_word_ok ts w : d_word ts w -> Forall token_ok ts -> word_ok w.
Proof.
  induction 1 as [ts w s _ IH|ts w s _ IH|s|s]; rewrite ?Forall_app, ?Forall_singleton; unfold word_ok;
    [intros [Ht Hs]|intros [Ht Hs]|intros Hs|intros Hs].
  1, 2: apply IH in Ht as [Hne Hw]; unfold add_part_to_word; split; [by destruct w|]; apply Forall_app; split; [done|].
  all: try (split; [done|]); by constructor.
Qed.

Lemma d_params_ok ts ps : d_params ts ps -> Forall token_ok ts -> Forall word_ok ps.
Proof.
  induction 1 as [ts ps tw w _ IH Hw|ts w Hw]; intros Ht.
  - apply Forall_app in Ht as [H1 H2]. apply Forall_cons in H2 as [_ H2]. apply Forall_app. split; [by apply IH|].
    constructor; [by eapply d_word_ok|done].
  - constructor; [by eapply d_word_ok|done].
Qed.

Lemma d_redirect_ok ts rs : d_redirect ts rs -> Forall token_ok ts -> Forall (fun x => word_ok x.2) rs.
Proof.
  induction 1 as [|ts rs tok b1 tw w b2 _ IH _ Hw]; [done|]. rewrite Forall_app, Forall_cons, !Forall_app.
  intros (H1 & _ & _ & H2 & _). split; [by apply IH|]. constructor; [by eapply d_word_ok|done].
Qed.

Lemma d_exe_name_ok ts w : d_exe_name ts w -> Forall token_ok ts -> word_ok w.
Proof. intros [ts0 w0 Hw|ts0 w0 Hw]; rewrite ?Forall_cons; intros Ht; [|destruct Ht]; by eapply d_word_ok. Qed.

Lemma d_simple_ok ts w ps rs : d_simple ts (SSimple w ps rs) -> Forall token_ok ts ->
  word_ok w /\ Forall word_ok ps /\ Forall (fun x => word_ok x.2) rs.
Proof.
  inversion 1; subst; rewrite ?Forall_app, ?Forall_cons, ?Forall_app, ?Forall_cons; intros Ht;
    repeat match goal with H : _ /\ _ |- _ => destruct H end;
    (split; [by eapply d_exe_name_ok|]); (split; [try by eapply d_params_ok|]); try by eapply d_redirect_ok.
  all: done.
Qed.

Lemma build_operators t c P : build t = Done c -> all_operators P t -> operators_of P c.
Proof.
  revert c. induction t as [w ps rs|op a IHa b IHb]; intros c; simpl.
  - intros E _. apply bind_Done in E as (s & _ & E). by injection E as <-.
  - intros E (Hop & Ha & Hb). apply bind_Done in E as (ca & Ea & E). apply bind_Done in E as (cb & Eb & E). injection E as <-.
    simpl. auto.
Qed.

Lemma d_command_ok ts t c : d_command ts t -> build t = Done c -> Forall token_ok ts -> command_ok c.
Proof.
  intros Hd. revert c. induction Hd as [ts t Hs|ta a tok op tb b _ IHa Hop _ IHb Hla Hlb]; intros c Hb Ht.
  - destruct t as [w ps rs|]; [|by inversion Hs]. destruct (d_simple_ok ts w ps rs Hs Ht) as (Hw & Hps & Hrs).
    apply bind_Done in Hb as (s & Hb & [= <-]). by apply (bind_parts_words word_ok) in Hb.
  - apply bind_Done in Hb as (ca & Ea & Hb). apply bind_Done in Hb as (cb & Eb & [= <-]).
    apply Forall_app in Ht as [H1 H2]. apply Forall_cons in H2 as [_ H2]. simpl.
    split; [intros ->; by destruct tok|]. split; [by apply IHa|]. split; [by apply IHb|].
    split; by eapply build_operators.
Qed.

Lemma yyparse_command_ok line c : yyparse (lex INITIAL line) = Done (Some (Some c)) -> command_ok c.
Proof.
  intros E. apply yyparse_sound in E as (t & Ht & Hb). pose proof (tokens_ok (length line) INITIAL line) as Hok. fold (lex INITIAL line) in Hok.
  inversion Ht as [ts t' tok rest Hc Hend E1 E2|tok rest Hend E1 E2|tok rest Hend E1 E2]; subst; [|done|done].
  rewrite <- E1 in Hok. apply Forall_app in Hok as [Hok _].
  apply bind_Done in Hb as (c' & Hb & [= <-]). by apply (d_command_ok ts t').
Qed.

(** C33: every tree of the parser is what [parser.h] describes.  When [parse_line]
    accepts a line with a command, no operator stands below one of a higher
    priority, nor on the right of one of the same; verbs and all other words
    have at least one part, and no part is empty; the text of a part is free of
    one kind of quotes, the name of a variable is a name; and an append flag is
    set only for a list with a file. *)
Theorem parse_line_wellformed (line : list ascii) (c : command) :
  parse_line line = Done (true, Some c) -> command_ok c.
Proof.
  intros E. apply bind_Done in E as (r & E & Er). destruct r as [root|]; [|done]. injection Er as ->.
  by apply yyparse_command_ok in E.
Qed.

Lemma parse_line_wellformed_witness :
  exists c, parse_line (chars "cat <in|sort -r>>out&& echo 'it is '$HOME ok") = Done (true, Some c) /\ command_ok c.
Proof.
  eexists. split; [vm_compute; reflexivity|].
  apply (parse_line_wellformed (chars "cat <in|sort -r>>out&& echo 'it is '$HOME ok")). vm_compute. reflexivity.
Defined.
