(* ===== verification/ParserRoundTrip.v ===== *)
(** * Writing a command as a line and reading it back

    [print_command] writes a tree with every text in quotes and blanks around
    operators; [parse_line] gives the tree back. *)

From Stdlib Require Import ZArith Lia Ascii.
From Stdlib Require String.
From stdpp Require Import list strings.
From S2P Require Import Prelude CString Lexer Shell Parser Grammar ParserLists ParserProps.
Open Scope Z_scope.

(** ** Printing *)

Definition quote_with (q : ascii) (s : string) : list ascii := q :: chars s ++ [q].
Definition print_part (p : part) : list ascii :=
  if expand p then dollar :: chars (string_of p)
  else if bool_decide (quote ∈ chars (string_of p)) then quote_with dquote (string_of p) else quote_with quote (string_of p).
Definition print_word (w : word) : list ascii := concat (print_part <$> w).

Definition token_text (tok : token) : list ascii :=
  chars match tok with
  | REDIRECT_O => ">" | REDIRECT_APPEND_O => ">>" | REDIRECT_E => "2>" | REDIRECT_APPEND_E => "2>>" | INDIRECT => "<"
  | SEQUENTIAL => ";" | PARALLEL => "&" | CONDITIONAL_NZERO => "||" | CONDITIONAL_ZERO => "&&" | PIPE => "|"
  | _ => ""
  end.

Definition space : ascii := " ".

Definition out_token (s : simple_command) : token := if Z.testbit (io_flags s) 0 then REDIRECT_APPEND_O else REDIRECT_O.
Definition err_token (s : simple_command) : token := if Z.testbit (io_flags s) 1 then REDIRECT_APPEND_E else REDIRECT_E.
Definition redirections (s : simple_command) : list (token * word) :=
  ((fun w => (INDIRECT, w)) <$> s_in s) ++ ((fun w => (out_token s, w)) <$> s_out s) ++ ((fun w => (err_token s, w)) <$> s_err s).

Definition print_param (w : word) : list ascii := space :: print_word w.
Definition print_redirection (r : token * word) : list ascii := space :: token_text r.1 ++ space :: print_word r.2.
Definition print_simple (s : simple_command) : list ascii :=
  print_word (verb s) ++ concat (print_param <$> params s) ++ concat (print_redirection <$> redirections s).

Definition operator_token (op : operator_t) : token :=
  match op with
  | OP_SEQUENTIAL => SEQUENTIAL | OP_PARALLEL => PARALLEL | OP_CONDITIONAL_NZERO => CONDITIONAL_NZERO
  | OP_CONDITIONAL_ZERO => CONDITIONAL_ZERO | OP_PIPE => PIPE | OP_DUMMY => BLANK
  end.

Fixpoint print_command (c : command) : list ascii :=
  match c with
  | Simple s => print_simple s
  | Compound op a b => print_command a ++ space :: token_text (operator_token op) ++ space :: print_command b
  end.

(** ** The tokens of the line *)

Definition part_token (p : part) : token := if expand p then ENV_VAR (string_of p) else WORD (string_of p).
Definition word_tokens (w : word) : list token := part_token <$> w.
Definition param_tokens (w : word) : list token := BLANK :: word_tokens w.
Definition redirection_tokens (r : token * word) : list token := BLANK :: r.1 :: BLANK :: word_tokens r.2.
Definition simple_tokens (s : simple_command) : list token :=
  word_tokens (verb s) ++ concat (param_tokens <$> params s) ++ concat (redirection_tokens <$> redirections s).
Fixpoint command_tokens (c : command) : list token :=
  match c with
  | Simple s => simple_tokens s
  | Compound op a b => command_tokens a ++ BLANK :: operator_token op :: BLANK :: command_tokens b
  end.

(** A name before [l] ends there. *)
Definition ends_name (l : list ascii) : Prop := match l with c :: _ => nameChar c = false | [] => True end.

Lemma lex_quoted q st (p : ascii -> bool) l rest :
  (forall r, lex INITIAL (q :: r) = lex st r) -> (forall r, lex st (q :: r) = lex INITIAL r) ->
  (forall c r, c <> q -> p c = true -> best (rules st) (c :: r) = Some (span p (c :: r), ReturnWord)) ->
  p q = false -> l <> [] -> Forall (fun c => p c = true) l ->
  lex INITIAL (q :: l ++ q :: rest) = WORD (text l) :: lex INITIAL rest.
Proof.
  intros Hopen Hclose Hbest Hq Hne Hl. rewrite Hopen. destruct l as [|c l]; [done|]. apply Forall_cons in Hl as Hl'. destruct Hl' as [Hc _].
  assert (Hspan : span p ((c :: l) ++ q :: rest) = length (c :: l)).
  { rewrite span_app by done. rewrite (span_stop p (q :: rest)) by done. lia. }
  simpl app in Hspan |- *. rewrite (lex_step st c (l ++ q :: rest) (length (c :: l)) ReturnWord); [|rewrite Hbest, Hspan; try done|simpl; lia].
  - change (c :: l ++ q :: rest) with ((c :: l) ++ q :: rest). rewrite take_app_length, drop_app_length. simpl. by rewrite Hclose.
  - intros ->. congruence.
Qed.

Lemma literal_other q c r : c <> q -> literal (text [q]) (c :: r) = None.
Proof. intros Hc. unfold literal. rewrite chars_text. simpl. rewrite decide_False; [done|]. by intros [= ?]. Qed.

Lemma best_single c r : c <> quote -> best (rules ACCEPT_ANY) (c :: r) = Some (span allButCharStateAny (c :: r), ReturnWord).
Proof.
  intros Hc. assert (Hp : allButCharStateAny c = true) by (unfold allButCharStateAny; by rewrite (proj2 (Ascii.eqb_neq c quote) Hc)).
  unfold rules, accept_any_rules. cbn [app best]. change "'"%string with (text [quote]). rewrite literal_other by done.
  unfold many. cbn [anyChar span]. by rewrite Hp.
Qed.

Lemma best_double c r : c <> dquote -> c <> dollar ->
  best (rules ACCEPT_ANY_AND_EXPANSION) (c :: r) = Some (span allButCharStateAnyAndExpansion (c :: r), ReturnWord).
Proof.
  intros Hc Hd. assert (Hp : allButCharStateAnyAndExpansion c = true).
  { unfold allButCharStateAnyAndExpansion. by rewrite (proj2 (Ascii.eqb_neq c dquote) Hc), (proj2 (Ascii.eqb_neq c dollar) Hd). }
  unfold rules, accept_any_and_expansion_rules, followed. cbn [app best]. change "$"%string with (text [dollar]).
  rewrite !literal_other by done. cbn [mbind option_bind]. unfold many. cbn [anyChar span]. by rewrite Hp.
Qed.

Lemma best_skip p a rs l : p l = None -> best ((p, a) :: rs) l = best rs l.
Proof. intros E. simpl. by rewrite E. Qed.

Lemma best_first p a rs l n : p l = Some n -> (forall m b, best rs l = Some (m, b) -> (m <= n)%nat) ->
  best ((p, a) :: rs) l = Some (n, a).
Proof.
  intros E Hrs. simpl. rewrite E. destruct (best rs l) as [[m b]|]; [|done].
  by rewrite (proj2 (Nat.ltb_ge _ _)) by (by apply (Hrs m b)).
Qed.

Lemma best_var c r : nameStart c = true ->
  best (rules INITIAL) (dollar :: c :: r) = Some (S (S (span nameChar r)), ReturnVar).
Proof.
  intros Hc. unfold rules, initial_rules. cbn [app].
  repeat (rewrite best_skip by (vm_compute; reflexivity)).
  apply best_first.
  - unfold followed. change (literal "$" (dollar :: c :: r)) with (Some 1%nat). simpl. by rewrite Hc.
  - intros m b. rewrite (best_first _ _ _ _ 1); [intros [= <- <-]; lia|done|].
    intros m' b'. rewrite best_skip by done. by intros [= <- <-].
Qed.

(** ** The lexer on printed text *)

Lemma lex_single l rest : l <> [] -> quote ∉ l -> lex INITIAL (quote :: l ++ quote :: rest) = WORD (text l) :: lex INITIAL rest.
Proof.
  intros Hne Hq. apply (lex_quoted quote ACCEPT_ANY allButCharStateAny); try done.
  - intros c r Hc _. by apply best_single.
  - apply Forall_forall. intros c Hc. unfold allButCharStateAny. rewrite (proj2 (Ascii.eqb_neq c quote)); [done|by intros ->].
Qed.

Lemma lex_double l rest : l <> [] -> dquote ∉ l -> dollar ∉ l ->
  lex INITIAL (dquote :: l ++ dquote :: rest) = WORD (text l) :: lex INITIAL rest.
Proof.
  intros Hne Hq Hd. apply (lex_quoted dquote ACCEPT_ANY_AND_EXPANSION allButCharStateAnyAndExpansion); try done.
  - intros c r Hc Hp. apply best_double; [done|]. by intros ->.
  - apply Forall_forall. intros c Hc. unfold allButCharStateAnyAndExpansion.
    rewrite (proj2 (Ascii.eqb_neq c dquote)), (proj2 (Ascii.eqb_neq c dollar)); [done|by intros ->|by intros ->].
Qed.

Lemma lex_variable s rest : name_ok s -> ends_name rest -> lex INITIAL (dollar :: chars s ++ rest) = ENV_VAR s :: lex INITIAL rest.
Proof.
  unfold name_ok. intros Hs Hr. rewrite <- (text_chars s) at 2. destruct (chars s) as [|c l]; [done|]. destruct Hs as [Hc Hl].
  assert (Hspan : span nameChar (l ++ rest) = length l).
  { rewrite span_app, span_stop by done. lia. }
  simpl app. rewrite (lex_step INITIAL dollar (c :: l ++ rest) _ _ (best_var c _ Hc)) by lia. rewrite Hspan.
  change (dollar :: c :: l ++ rest) with ((dollar :: c :: l) ++ rest).
  change (S (S (length l))) with (length (dollar :: c :: l)). rewrite take_app_length, drop_app_length. done.
Qed.

Lemma print_part_ends p rest : ends_name (print_part p ++ rest).
Proof. unfold print_part. destruct (expand p); [done|]. by case_bool_decide. Qed.

Lemma lex_part p rest : part_ok p -> ends_name rest -> lex INITIAL (print_part p ++ rest) = part_token p :: lex INITIAL rest.
Proof.
  intros Hp Hr. unfold part_ok, print_part, part_token in *. destruct (expand p); [by apply lex_variable|].
  destruct Hp as [Hne Hp]. unfold quote_with. case_bool_decide as Hq.
  - destruct Hp as [?|[H1 H2]]; [done|]. simpl. rewrite <- (assoc_L (++)). simpl. by rewrite lex_double, text_chars.
  - simpl. rewrite <- (assoc_L (++)). simpl. by rewrite lex_single, text_chars.
Qed.

Lemma print_word_ends w rest : ends_name rest -> ends_name (print_word w ++ rest).
Proof. intros Hr. destruct w as [|p w]; [done|]. unfold print_word. simpl. rewrite <- (assoc_L (++)). apply print_part_ends. Qed.

Lemma lex_word w rest : Forall part_ok w -> ends_name rest -> lex INITIAL (print_word w ++ rest) = word_tokens w ++ lex INITIAL rest.
Proof.
  intros Hw Hr. induction Hw as [|p w Hp Hw IH]; [done|]. unfold print_word. simpl. rewrite <- (assoc_L (++)).
  rewrite lex_part by (done || by apply print_word_ends). by rewrite <- IH.
Qed.

(** A blank before something else. *)
Lemma lex_space l : match l with c :: _ => whitespace c = false | [] => True end ->
  lex INITIAL (space :: l) = BLANK :: lex INITIAL l.
Proof.
  intros Hl. rewrite (lex_step INITIAL space l 1 (Return BLANK)); [done| |lia].
  unfold rules, initial_rules. cbn [app]. repeat (rewrite best_skip by (vm_compute; reflexivity)).
  apply best_first; [unfold many1; cbn [span]; change (whitespace space) with true; by rewrite span_stop|].
  intros m b. repeat (rewrite best_skip by (vm_compute; reflexivity)). by intros [= <- <-].
Qed.

Lemma lex_token tok rest : is_redirection tok = true /\ tok <> REDIRECT_OE \/ is_Some (operator tok) ->
  lex INITIAL (token_text tok ++ space :: rest) = tok :: lex INITIAL (space :: rest).
Proof.
  intros [[Ht Hne]|[op Ht]]; destruct tok; try done; simpl app;
    (erewrite lex_step; [|vm_compute; reflexivity|lia]; reflexivity).
Qed.

Lemma token_text_blank tok rest : is_redirection tok = true /\ tok <> REDIRECT_OE \/ is_Some (operator tok) ->
  match token_text tok ++ rest with c :: _ => whitespace c = false | [] => True end.
Proof. intros [[Ht Hne]|[op Ht]]; by destruct tok. Qed.

Lemma print_word_blank w rest : word_ok w -> match print_word w ++ rest with c :: _ => whitespace c = false | [] => True end.
Proof.
  intros [Hne _]. destruct w as [|p w]; [done|]. unfold print_word, print_part. simpl. destruct (expand p); [done|]. by case_bool_decide.
Qed.

Lemma lex_spaced_word w rest : word_ok w -> ends_name rest ->
  lex INITIAL (space :: print_word w ++ rest) = BLANK :: word_tokens w ++ lex INITIAL rest.
Proof. intros Hw Hr. rewrite lex_space by (by apply print_word_blank). f_equal. apply lex_word; [apply Hw|done]. Qed.

Lemma ends_params ps rest : ends_name rest -> ends_name (concat (print_param <$> ps) ++ rest).
Proof. by destruct ps. Qed.

Lemma lex_params ps rest : Forall word_ok ps -> ends_name rest ->
  lex INITIAL (concat (print_param <$> ps) ++ rest) = concat (param_tokens <$> ps) ++ lex INITIAL rest.
Proof.
  intros Hps Hr. induction Hps as [|w ps Hw Hps IH]; [done|]. rewrite !fmap_cons. cbn [concat].
  rewrite <- !(assoc_L (++)). unfold print_param at 1. cbn [app].
  rewrite lex_spaced_word by (done || by apply ends_params). by rewrite IH.
Qed.

Lemma ends_redirections rs rest : ends_name rest -> ends_name (concat (print_redirection <$> rs) ++ rest).
Proof. by destruct rs. Qed.

Definition redirection_ok (r : token * word) : Prop := one_list r.1 /\ word_ok r.2.

Lemma lex_redirections rs rest : Forall redirection_ok rs -> ends_name rest ->
  lex INITIAL (concat (print_redirection <$> rs) ++ rest) = concat (redirection_tokens <$> rs) ++ lex INITIAL rest.
Proof.
  intros Hrs Hr. induction Hrs as [|[tok w] rs [Ht Hw] Hrs IH]; [done|]. rewrite !fmap_cons. cbn [concat fst snd] in *.
  rewrite <- !(assoc_L (++)). unfold print_redirection at 1. cbn [app fst snd]. rewrite <- !(assoc_L (++)). cbn [app].
  rewrite lex_space by (apply token_text_blank; by left). rewrite lex_token by (by left).
  rewrite lex_spaced_word by (done || by apply ends_redirections). by rewrite IH.
Qed.

Lemma redirections_ok s : simple_ok word_ok s -> Forall redirection_ok (redirections s).
Proof.
  intros [_ _ Hi Ho He _]. unfold redirections. rewrite !Forall_app, !Forall_fmap. unfold out_token, err_token.
  split_done; eapply Forall_impl; try done; intros w Hw; (split; [split; [|]|done]); simpl; by try case_match.
Qed.

Lemma lex_simple s rest : simple_ok word_ok s -> ends_name rest ->
  lex INITIAL (print_simple s ++ rest) = simple_tokens s ++ lex INITIAL rest.
Proof.
  intros Hs Hr. unfold print_simple, simple_tokens. rewrite <- !(assoc_L (++)). pose proof (ends_redirections (redirections s) rest Hr) as H1.
  rewrite lex_word; [|apply (so_verb _ _ Hs)|by apply ends_params].
  by rewrite lex_params, lex_redirections by (done || by apply redirections_ok || apply (so_params _ _ Hs)).
Qed.

Lemma print_command_blank c rest : command_ok c -> match print_command c ++ rest with c :: _ => whitespace c = false | [] => True end.
Proof.
  revert rest. induction c as [s|op a IHa b _]; intros rest Hc; simpl.
  - unfold print_simple. rewrite <- (assoc_L (++)). apply print_word_blank. apply Hc.
  - rewrite <- (assoc_L (++)). apply IHa. apply Hc.
Qed.

Lemma operator_token_ok op : op <> OP_DUMMY -> operator (operator_token op) = Some op.
Proof. by destruct op. Qed.

Lemma lex_command c rest : command_ok c -> ends_name rest ->
  lex INITIAL (print_command c ++ rest) = command_tokens c ++ lex INITIAL rest.
Proof.
  revert rest. induction c as [s|op a IHa b IHb]; intros rest Hc Hr; [by apply lex_simple|].
  destruct Hc as (Hop & Ha & Hb & _). simpl. rewrite <- !(assoc_L (++)), IHa by done. simpl. rewrite <- !(assoc_L (++)). f_equal.
  assert (Htok : is_Some (operator (operator_token op))) by (rewrite operator_token_ok by done; by eexists).
  rewrite lex_space by (apply token_text_blank; by right). simpl. rewrite lex_token by (by right).
  rewrite lex_space by (by apply print_command_blank). by rewrite IHb.
Qed.

(** ** The derivation of the tokens *)

Lemma derive_word w : word_ok w -> d_word (word_tokens w) w.
Proof.
  intros [Hne _]. induction w as [|p w IH]; [done|]. assert (Hp : d_word [part_token p] [p]).
  { unfold part_token. destruct p as [s [|]]; [apply word_var|apply word_text]. }
  destruct w as [|p' w]; [done|]. by apply d_word_cons; [apply IH|].
Qed.

Lemma derive_params ps : Forall word_ok ps -> d_blank_words (concat (param_tokens <$> ps)) ps.
Proof. induction 1 as [|w ps Hw Hps IH]; [constructor|]. by apply blank_words_cons; [apply derive_word|]. Qed.

Lemma derive_redirections rs trail : Forall redirection_ok rs ->
  exists b tr, concat (redirection_tokens <$> rs) ++ blanks trail = blanks b ++ tr /\ d_redirects tr rs.
Proof.
  induction 1 as [|[tok w] rs [[Ht _] Hw] Hrs (b & tr & E & Hd)].
  - exists trail, []. rewrite app_nil_r. split; [done|constructor].
  - exists true, (tok :: blanks true ++ word_tokens w ++ blanks b ++ tr). split; [|by constructor; [|apply derive_word|]].
    rewrite fmap_cons. cbn [concat]. rewrite <- (assoc_L (++)), E. done.
Qed.

Definition syntax_of_simple (s : simple_command) : syntax := SSimple (verb s) (params s) (redirections s).
Fixpoint syntax_of (c : command) : syntax :=
  match c with Simple s => syntax_of_simple s | Compound op a b => SCompound op (syntax_of a) (syntax_of b) end.

Lemma derive_simple s lead trail : simple_ok word_ok s ->
  d_simple (blanks lead ++ simple_tokens s ++ blanks trail) (syntax_of_simple s).
Proof.
  intros Hs. destruct (derive_redirections (redirections s) trail (redirections_ok s Hs)) as (b & tr & E & Hd).
  apply simple_parts. exists lead, (word_tokens (verb s)), (concat (param_tokens <$> params s)), b, tr.
  unfold simple_tokens. rewrite <- !(assoc_L (++)), E. split_done; [apply derive_word, Hs|apply derive_params, Hs].
Qed.

Lemma syntax_operators c P : operators_of P c -> all_operators P (syntax_of c).
Proof. induction c as [s|op a IHa b IHb]; simpl; [done|]. naive_solver. Qed.

Lemma derive_command c lead trail : command_ok c ->
  d_command (blanks lead ++ command_tokens c ++ blanks trail) (syntax_of c).
Proof.
  revert lead trail. induction c as [s|op a IHa b IHb]; intros lead trail Hc; [by constructor; apply derive_simple|].
  destruct Hc as (Hop & Ha & Hb & Hla & Hlb). simpl.
  replace (blanks lead ++ (command_tokens a ++ BLANK :: operator_token op :: BLANK :: command_tokens b) ++ blanks trail)
    with ((blanks lead ++ command_tokens a ++ blanks true) ++ operator_token op :: blanks true ++ command_tokens b ++ blanks trail)
    by (rewrite <- !(assoc_L (++)); done).
  apply command_operator; [by apply IHa|by apply operator_token_ok|by apply IHb|by apply syntax_operators|by apply syntax_operators].
Qed.

(** ** The actions *)

Lemma flags_for_app rs rs' fl : flags_for (rs ++ rs') fl = flags_for rs' (flags_for rs fl).
Proof. apply foldl_app. Qed.

Lemma flags_for_same tok ws fl : ws <> [] -> flags_for ((fun w => (tok, w)) <$> ws) fl = Z.lor fl (flag_of tok).
Proof.
  intros Hne. destruct ws as [|w ws]; [done|]. rewrite fmap_cons. unfold flags_for. cbn [foldl fst].
  assert (H : forall y, Z.lor y (flag_of tok) = y -> foldl (fun fl r => Z.lor fl (flag_of r.1)) y ((fun w => (tok, w)) <$> ws) = y).
  { clear. induction ws as [|w ws IH]; intros y Hy; [done|]. rewrite fmap_cons. cbn [foldl fst]. rewrite Hy. by apply IH. }
  apply H. by rewrite <- Z.lor_assoc, Z.lor_diag.
Qed.

Lemma flags_for_regular tok ws fl : flag_of tok = 0 -> flags_for ((fun w => (tok, w)) <$> ws) fl = fl.
Proof.
  intros Ht. destruct (decide (ws = [])) as [->|Hne]; [done|]. rewrite flags_for_same by done. by rewrite Ht, Z.lor_0_r.
Qed.

Lemma words_for_app k rs rs' : words_for k (rs ++ rs') = words_for k rs ++ words_for k rs'.
Proof. unfold words_for. by rewrite filter_app, fmap_app. Qed.

Lemma words_for_same k tok ws : words_for k ((fun w => (tok, w)) <$> ws) = if decide (list_of tok = k) then ws else [].
Proof.
  unfold words_for. case_decide as E; (induction ws as [|w ws IH]; [done|]); rewrite fmap_cons, filter_cons; cbn [fst].
  - rewrite decide_True, fmap_cons by done. cbn [snd]. by rewrite IH.
  - by rewrite decide_False.
Qed.

Lemma bind_printed s : simple_ok word_ok s -> bind_parts (verb s) (params s) (redirections s) = Done s.
Proof.
  intros Hs. rewrite bind_parts_ok.
  2: { eapply Forall_impl; [by apply redirections_ok|]. by intros x [Hx _]. }
  destruct (so_flags _ _ Hs) as (out & err & Hf & Ho & He). unfold redirections, out_token, err_token.
  rewrite !words_for_app, !flags_for_app, !words_for_same. destruct s as [v ps i o e fl]. cbn [verb params s_in s_out s_err io_flags] in *. subst fl.
  assert (Z.testbit (flag_bits out err) 0 = out) as -> by (by destruct out, err).
  assert (Z.testbit (flag_bits out err) 1 = err) as -> by (by destruct out, err).
  rewrite (flags_for_regular INDIRECT) by done.
  assert (Eo : flags_for ((fun w => (if out then REDIRECT_APPEND_O else REDIRECT_O, w)) <$> o) IO_REGULAR = flag_bits out false).
  { destruct out; [rewrite flags_for_same by auto; done|by rewrite flags_for_regular]. }
  assert (Ee : forall fl, flags_for ((fun w => (if err then REDIRECT_APPEND_E else REDIRECT_E, w)) <$> e) fl = Z.lor fl (flag_bits false err)).
  { intros fl. destruct err; [rewrite flags_for_same by auto; done|rewrite flags_for_regular by done; by rewrite Z.lor_0_r]. }
  rewrite Eo, Ee. destruct out, err; cbn; by rewrite ?app_nil_r.
Qed.

Lemma build_printed c : command_ok c -> build (syntax_of c) = Done c.
Proof.
  induction c as [s|op a IHa b IHb]; intros Hc; simpl.
  - by rewrite bind_printed.
  - destruct Hc as (_ & Ha & Hb & _). by rewrite IHa, IHb.
Qed.

(** With or without the newline: the shell removes it. *)
Definition line_end (l : list ascii) : Prop := l = [] \/ l = [LF].

Lemma lex_line_end l : line_end l -> exists tok rest, lex INITIAL l = tok :: rest /\ ends_line tok = true.
Proof. by intros [->| ->]; eexists _, _. Qed.

Lemma parse_printed (c : command) l :
  command_ok c -> line_end l -> parse_line (print_command c ++ l) = Done (true, Some c).
Proof.
  intros Hc Hl. unfold parse_line. rewrite lex_command by (done || by destruct Hl as [->| ->]).
  destruct (lex_line_end l Hl) as (tok & rest & -> & Htok).
  rewrite (yyparse_complete _ (Some (syntax_of c)) (Some c)); [done| |].
  - pose proof (derive_command c false false Hc) as Hd. simpl in Hd. rewrite app_nil_r in Hd. by constructor.
  - simpl. by rewrite build_printed.
Qed.

(** C32: writing and reading back.  For every tree that [parser.h] describes,
    [parse_line] accepts the line that [print_command] writes for it, with or
    without a newline, and returns the same tree. *)
Theorem parse_print_command (c : command) (l : list ascii) :
  command_ok c -> line_end l -> parse_line (print_command c ++ l) = Done (true, Some c).
Proof. apply parse_printed. Qed.

Definition demo_command : command :=
  Compound OP_CONDITIONAL_ZERO
    (Compound OP_PIPE
       (Simple (SCmd [Part "cat" false] [] [[Part "in" false]] [] [] 0))
       (Simple (SCmd [Part "sort" false] [[Part "-" false; Part "FLAGS" true]] [] [[Part "out" false]] [[Part "it's" false]] 2)))
    (Simple (SCmd [Part "echo" false] [[Part "a; b" false]; [Part "$x" false]] [] [] [] 0)).

Lemma parse_print_command_witness :
  print_command demo_command =
    chars "'cat' < 'in' | 'sort' '-'$FLAGS > 'out' 2>> " ++ quote_with dquote "it's" ++ chars " && 'echo' 'a; b' '$x'" /\
  parse_line (print_command demo_command ++ [LF]) = Done (true, Some demo_command).
Proof.
  split; [vm_compute; reflexivity|]. apply parse_print_command; [|right; reflexivity].
  assert (Htext : forall s, chars s <> [] -> bool_decide (quote ∈ chars s) = false -> part_ok (Part s false)).
  { intros s H1 H2%bool_decide_eq_false. split; [exact H1|left; exact H2]. }
  assert (Hits : part_ok (Part "it's" false)).
  { split; [discriminate|right]. split; apply (bool_decide_unpack _); vm_compute; exact I. }
  assert (Hvar : part_ok (Part "FLAGS" true)) by (split; [reflexivity|repeat constructor]).
  repeat split; simpl; try discriminate; try lia;
    try (repeat first [apply Forall_cons; split | apply Forall_nil_2 | apply Hits | apply Hvar | (apply Htext; [discriminate|reflexivity]) | (split; [discriminate|])]).
  - exists false, false. repeat split; discriminate.
  - exists false, true. repeat split; discriminate.
  - exists false, false. repeat split; discriminate.
Defined.
