(* ===== verification/ParserMemory.v ===== *)
(** * The memory of the mini-shell's parser

    [mini-shell-project-FreezeKickerz/util/parser]: everything a parse allocates is
    registered in a growing array of pointers, and [free_parse_memory] frees it all
    ([parser.y]); the scanner holds a copy of the line while it is needed
    ([parser.l]).  What a parse does besides is in [Parser]; here it is the number
    of objects it allocates, each registered as it is made. *)

From Stdlib Require Import ZArith Lia.
From stdpp Require Import gmap list.
From S2P Require Import Prelude.
Open Scope Z_scope.

(** ** State *)

(** The static variables of [parser.y] and [parser.l], and the objects of the
    program that are allocated.  A cell of the array that was never written is
    [None]. *)
Record registry := Registry {
  globalAllocMem : option (list (option ptr));
  globalAllocCount : Z;
  globalAllocSize : Z;
  needsFree : bool;
  haveOneBufferState : bool;
  allocated : gset loc
}.

Definition initial_registry (X : gset loc) : registry := Registry None 0 0 false false X.

Definition set_array r a size := Registry a (globalAllocCount r) size (needsFree r) (haveOneBufferState r) (allocated r).
Definition set_cells r a count := Registry a count (globalAllocSize r) (needsFree r) (haveOneBufferState r) (allocated r).
Definition set_live r live := Registry (globalAllocMem r) (globalAllocCount r) (globalAllocSize r) (needsFree r) (haveOneBufferState r) live.
Definition set_buffer r b := Registry (globalAllocMem r) (globalAllocCount r) (globalAllocSize r) (needsFree r) b (allocated r).
Definition set_needsFree r b := Registry (globalAllocMem r) (globalAllocCount r) (globalAllocSize r) b (haveOneBufferState r) (allocated r).

(** ** Code *)

Section code.
(** Whether an array of so many bytes can be had. *)
Context `{Malloc} (room : Z -> bool).
Implicit Types (r : registry).

(** The cells that fit [sizeof(GenericPointer) * size] bytes. *)
Definition array_bytes (size : Z) : Z := mul64 8 size.
Definition array_cells (size : Z) : nat := Z.to_nat (array_bytes size / 8).

Definition ensureSize (newSize : Z) r : outcome registry :=
  _ ← c_assert (0 <? newSize);
  if globalAllocSize r =? 0 then
    _ ← c_assert (bool_decide (globalAllocMem r = None));
    if room (array_bytes newSize) then Done (set_array r (Some (replicate (array_cells newSize) None)) newSize)
    else Fault (Exited 1)
  else
    match globalAllocMem r with
    | None => Fault AssertFailed
    | Some a =>
        if newSize <=? globalAllocSize r then Done r
        else
          let size := add64 (globalAllocSize r) newSize in
          if room (array_bytes size) then Done (set_array r (Some (resize (array_cells size) None a)) size)
          else Fault (Exited 1)
    end.

Definition pointerToMallocMemory (p : ptr) r : outcome registry :=
  match p with
  | None => Fault (Exited 1)
  | Some _ =>
      r ← ensureSize (add64 (globalAllocCount r) 1) r;
      a ← deref (globalAllocMem r);
      a ← array_set a (Z.to_nat (globalAllocCount r)) (Some p);
      Done (set_cells r (Some a) (add64 (globalAllocCount r) 1))
  end.

(** The scanner's buffer. *)
Definition globalEndParsing r : registry := if haveOneBufferState r then set_buffer r false else r.
Definition globalParseAnotherString r : registry := set_buffer (globalEndParsing r) true.

(** [free] of an object. *)
Definition free_object (p : loc) r : outcome registry :=
  if decide (p ∈ allocated r) then Done (set_live r (allocated r ∖ {[p]})) else Fault Dangling.

(** The loop, from the last pointer to the first. *)
Fixpoint free_registered (n : nat) r : outcome registry :=
  match n with
  | O => Done r
  | S i =>
      a ← deref (globalAllocMem r);
      c ← array_get a i;
      match c with
      | None => Fault Uninitialised
      | Some None => Fault AssertFailed
      | Some (Some p) =>
          r ← free_object p r;
          a ← array_set a i (Some None);
          free_registered i (set_cells r (Some a) (Z.of_nat i))
      end
  end.

Definition free_parse_memory r : outcome registry :=
  if needsFree r then
    r ← free_registered (Z.to_nat (globalAllocCount r)) (globalEndParsing r);
    Done (set_needsFree (set_array r None 0) false)
  else Done r.

(** An action of the parser or the scanner that makes an object. *)
Definition allocate r : outcome registry :=
  match malloc (allocated r) with
  | None => pointerToMallocMemory None r
  | Some p => pointerToMallocMemory (Some p) (set_live r ({[p]} ∪ allocated r))
  end.

Fixpoint allocate_many (n : nat) r : outcome registry :=
  match n with O => Done r | S n => r ← allocate r; allocate_many n r end.

(** [parse_line], of a line whose parse makes [n] objects until it ends or fails. *)
Definition parse_line_memory (n : nat) r : outcome registry :=
  r ← free_parse_memory r;
  allocate_many n (set_needsFree (globalParseAnotherString r) true).

(** What a user of the parser calls. *)
Inductive parser_call := ParseLine (objects : nat) | FreeParseMemory.

Definition run_call (c : parser_call) r : outcome registry :=
  match c with ParseLine n => parse_line_memory n r | FreeParseMemory => free_parse_memory r end.

Fixpoint run_calls (cs : list parser_call) r : outcome registry :=
  match cs with [] => Done r | c :: cs => r ← run_call c r; run_calls cs r end.
End code.

(** Eight bytes per pointer; the array of three pointers grows to seven. *)
Example demo_registry :
  (r ← @run_calls malloc_first (fun _ => true) [ParseLine 5; ParseLine 4] (initial_registry ∅);
   Done (globalAllocCount r, globalAllocSize r, size (allocated r))) = Done (4, 7, 4%nat) /\
  @run_calls malloc_first (fun bytes => bytes <? 30) [ParseLine 5] (initial_registry ∅) = Fault (Exited 1).
Proof. vm_compute. done. Qed.

(** ** The registry holds the objects of one parse *)

Section registered.
Context `{Malloc} (room : Z -> bool) (X : gset loc).
Implicit Types (r : registry) (l : list loc) (a : list (option ptr)).

(** The array starts with the pointers in [l]. *)
Definition cells_ok l r : Prop :=
  match globalAllocMem r with
  | None => globalAllocSize r = 0 /\ l = []
  | Some a => Z.of_nat (length a) = globalAllocSize r /\ 0 < globalAllocSize r <= 2 * Z.of_nat (length l) /\
      take (length l) a = (fun p => Some (Some p)) <$> l
  end.

Record registered l r : Prop := {
  rg_count : globalAllocCount r = Z.of_nat (length l);
  rg_cells : cells_ok l r;
  rg_nodup : NoDup l;
  rg_new p : p ∈ l -> p ∉ X;
  rg_live : allocated r = X ∪ list_to_set l;
  rg_buffer : haveOneBufferState r = needsFree r;
  rg_idle : needsFree r = false -> l = []
}.

(** The program gives up because there is no memory. *)
Definition no_memory (f : fault) : Prop := exits f /\ ((exists bytes, room bytes = false) \/ exists Y, malloc Y = None).

Lemma array_cells_ok n : 0 <= n < 2 ^ 60 -> Z.of_nat (array_cells n) = n.
Proof using.
  intros Hn. unfold array_cells, array_bytes. rewrite mul64_small by (change (2 ^ 60) with 1152921504606846976 in Hn; u64_lia).
  rewrite Z.mul_comm, Z.div_mul by lia. lia.
Qed.

Lemma cells_length l a : take (length l) a = (fun p => Some (Some p)) <$> l -> (length l <= length a)%nat.
Proof using. intros E%(f_equal length). rewrite length_take, length_fmap in E. lia. Qed.

(** After [ensureSize] there is a cell for the next pointer. *)
Lemma ensureSize_ends l r : globalAllocCount r = Z.of_nat (length l) -> cells_ok l r -> Z.of_nat (length l) < 2 ^ 58 ->
  ends no_memory (ensureSize room (globalAllocCount r + 1) r) (fun r' => exists a, r' = set_array r (Some a) (Z.of_nat (length a)) /\
    (length l < length a)%nat /\ Z.of_nat (length a) <= 2 * (Z.of_nat (length l) + 1) /\
    take (length l) a = (fun p => Some (Some p)) <$> l).
Proof.
  intros Hc Hcells Hl. change (2 ^ 58) with 288230376151711744 in Hl. unfold ensureSize, cells_ok in *.
  rewrite Hc. rewrite (proj2 (Z.ltb_lt _ _)) by lia. cbn [c_assert mbind outcome_bind].
  destruct (globalAllocMem r) as [a|] eqn:Em.
  - destruct Hcells as (Ha & Hs & Ht). rewrite (proj2 (Z.eqb_neq _ _)) by lia. pose proof (cells_length l a Ht) as Hle.
    destruct (_ <=? _) eqn:E.
    + apply Z.leb_le in E. exists a. rewrite Ha, <- Em. split_done; [by destruct r|lia|lia].
    + apply Z.leb_gt in E. destruct (room _) eqn:Eroom; [|by split; [|left; eexists]]. simpl.
      rewrite add64_small by u64_lia. set (n := globalAllocSize r + (Z.of_nat (length l) + 1)).
      assert (Hn : Z.of_nat (array_cells n) = n) by (apply array_cells_ok; change (2 ^ 60) with 1152921504606846976; lia).
      exists (resize (array_cells n) None a). rewrite length_resize, Hn. split_done; [lia|lia|]. 
      rewrite take_resize_le by lia. rewrite resize_le by lia. exact Ht.
  - destruct Hcells as [-> ->]. cbn [length] in *. simpl. destruct (room _) eqn:Eroom; [|by split; [|left; eexists]]. simpl.
    exists (replicate (array_cells 1) None). change (array_cells 1) with 1%nat. split_done; simpl; lia.
Qed.

Lemma register_ends l r p : registered l r -> needsFree r = true -> p ∉ allocated r -> Z.of_nat (length l) < 2 ^ 58 ->
  ends no_memory (pointerToMallocMemory room (Some p) (set_live r ({[p]} ∪ allocated r)))
    (fun r' => registered (l ++ [p]) r' /\ needsFree r' = true).
Proof.
  intros Hr Hn Hp Hl. pose proof Hr as [Hc Hcells Hnd Hnew Hlive Hbuf _]. unfold pointerToMallocMemory. simpl globalAllocCount.
  assert (Hadd : add64 (globalAllocCount r) 1 = globalAllocCount r + 1).
  { rewrite Hc. change (2 ^ 58) with 288230376151711744 in Hl. apply add64_small. u64_lia. }
  rewrite Hadd. eapply ends_bind; [by apply (ensureSize_ends l (set_live r ({[p]} ∪ allocated r)))|].
  intros r' (a & -> & Hla & Hsz & Ht). simpl. rewrite Hc, Nat2Z.id, array_set_ok by done. simpl. split; [|done].
  split; simpl; try done.
  - rewrite Hc in Hadd. rewrite Hadd, length_app. simpl. lia.
  - unfold cells_ok. simpl. rewrite length_insert, length_app. simpl. split_done; [lia|lia|].
    rewrite fmap_app, <- Ht. replace (length l + 1)%nat with (S (length l)) by lia.
    rewrite (take_S_r _ _ (Some (Some p))) by (by apply list_lookup_insert_eq). by rewrite take_insert_ge by lia.
  - apply NoDup_app. split_done; [|apply NoDup_singleton]. intros q Hq ->%list_elem_of_singleton. apply Hp. rewrite Hlive. set_solver.
  - intros q [Hq| ->%list_elem_of_singleton]%elem_of_app; [by apply Hnew|]. rewrite Hlive in Hp. set_solver.
  - rewrite Hlive, list_to_set_app_L. set_solver.
  - intros Hf. congruence.
Qed.

Lemma allocate_ends l r : registered l r -> needsFree r = true -> Z.of_nat (length l) < 2 ^ 58 ->
  ends no_memory (allocate room r) (fun r' => exists p, registered (l ++ [p]) r' /\ needsFree r' = true).
Proof.
  intros Hr Hn Hl. unfold allocate. destruct (malloc (allocated r)) as [p|] eqn:E; [|by split; [|right; eexists]].
  eapply ends_mono; [apply (register_ends l r p Hr Hn (malloc_fresh _ _ E) Hl)|]. intros r' H'. by exists p.
Qed.

Lemma allocate_many_ends n l r : registered l r -> needsFree r = true -> Z.of_nat (length l + n) < 2 ^ 58 ->
  ends no_memory (allocate_many room n r) (fun r' => exists k, length k = n /\ registered (l ++ k) r' /\ needsFree r' = true).
Proof.
  revert l r. induction n as [|n IH]; intros l r Hr Hn Hl; simpl.
  - exists []. by rewrite app_nil_r.
  - eapply ends_bind; [by apply (allocate_ends l); [..|lia]|]. intros r1 (p & Hr1 & Hn1).
    eapply ends_mono; [apply (IH (l ++ [p])); [done..|rewrite length_app; simpl; lia]|].
    intros r' (k & Hk & Hr' & Hn'). exists (p :: k). split; [simpl; lia|]. by rewrite <- app_assoc in Hr'.
Qed.

(** Every pointer is freed once, the array is as long as before. *)
Lemma free_registered_ok l r a :
  globalAllocMem r = Some a -> globalAllocCount r = Z.of_nat (length l) -> take (length l) a = (fun p => Some (Some p)) <$> l ->
  NoDup l -> (forall p, p ∈ l -> p ∉ X) -> allocated r = X ∪ list_to_set l ->
  exists a', free_registered (length l) r = Done (set_live (set_cells r (Some a') 0) X).
Proof using.
  clear room. revert r a. induction l as [|p l IH] using rev_ind; intros r a Ha Hc Ht Hnd Hnew Hlive.
  - exists a. simpl in *. f_equal. destruct r. simpl in *. subst. unfold set_live, set_cells. simpl. f_equal. set_solver.
  - pose proof (cells_length _ _ Ht) as Hlen. rewrite length_app, Nat.add_1_r in Ht, Hlen |- *. cbn [free_registered].
    rewrite Ha. cbn [deref mbind outcome_bind].
    assert (Hp : a !! length l = Some (Some (Some p))).
    { rewrite <- (lookup_take_lt a (S (length l))) by lia. rewrite Ht, list_lookup_fmap, lookup_app_r, Nat.sub_diag by lia. done. }
    unfold array_get. rewrite Hp. cbn [mbind outcome_bind]. unfold free_object. rewrite decide_True by (rewrite Hlive; set_solver).
    cbn [mbind outcome_bind]. rewrite array_set_ok by lia. cbn [mbind outcome_bind].
    apply NoDup_app in Hnd as (Hnd & Hd & _).
    destruct (IH (set_cells (set_live r (allocated r ∖ {[p]})) (Some (<[length l:=Some None]> a)) (Z.of_nat (length l)))
      (<[length l:=Some None]> a)) as [a' ->]; try done.
    + rewrite take_insert_ge by lia. apply (f_equal (take (length l))) in Ht. rewrite take_take, Nat.min_l in Ht by lia.
      by rewrite Ht, <- fmap_take, take_app_length.
    + intros q Hq. apply Hnew. set_solver.
    + simpl. rewrite Hlive, list_to_set_app_L. assert (p ∉ X) by (apply Hnew; set_solver).
      assert (p ∉ l) by (intros Hq; by apply (Hd p Hq), list_elem_of_singleton). set_solver.
    + by exists a'.
Qed.

Lemma free_parse_memory_ok l r : registered l r -> free_parse_memory r = Done (initial_registry X).
Proof using.
  clear room. intros [Hc Hcells Hnd Hnew Hlive Hbuf Hidle]. unfold free_parse_memory, cells_ok in *. destruct (needsFree r) eqn:En.
  - unfold globalEndParsing. rewrite Hbuf, Hc, Nat2Z.id. destruct (globalAllocMem r) as [a|] eqn:Ea.
    + destruct Hcells as (_ & _ & Ht). destruct (free_registered_ok l (set_buffer r false) a Ea Hc Ht Hnd Hnew Hlive) as [a' ->]. done.
    + destruct Hcells as [_ ->]. simpl. unfold initial_registry, set_needsFree, set_array, set_buffer. simpl. rewrite Hc, Hlive. simpl.
      do 2 f_equal. set_solver.
  - rewrite Hidle in * by done. destruct r as [[a|] c s b h y]; simpl in *; [lia|]. destruct Hcells as [-> _]. subst.
    unfold initial_registry. do 2 f_equal. set_solver.
Qed.

Lemma initial_registered : registered [] (initial_registry X).
Proof using. split; simpl; try done; [constructor|set_solver|set_solver]. Qed.

(** The objects that a call leaves allocated. *)
Definition kept (c : parser_call) : nat := match c with ParseLine n => n | FreeParseMemory => 0 end.

Lemma run_call_ends c l r : registered l r -> Z.of_nat (kept c) < 2 ^ 58 ->
  ends no_memory (run_call room c r) (fun r' => exists l', registered l' r' /\ length l' = kept c).
Proof.
  intros Hr Hc. destruct c as [n|]; simpl in *; unfold parse_line_memory; rewrite (free_parse_memory_ok l r Hr).
  - simpl. eapply ends_mono; [apply (allocate_many_ends n []); [|done|done]|].
    + destruct initial_registered. split; try done.
    + intros r' (k & Hk & Hr' & _). by exists k.
  - exists []. split; [apply initial_registered|done].
Qed.

Lemma run_calls_ends cs l r : registered l r -> Forall (fun c => Z.of_nat (kept c) < 2 ^ 58) cs ->
  ends no_memory (run_calls room cs r) (fun r' => exists l', registered l' r' /\
    length l' = default (length l) (kept <$> last cs)).
Proof.
  intros Hr Hcs. revert l r Hr. induction Hcs as [|c cs Hc Hcs IH]; intros l r Hr; simpl; [by exists l|].
  eapply ends_bind; [by apply (run_call_ends c l)|]. intros r1 (l1 & Hr1 & Hl1).
  eapply ends_mono; [by apply (IH l1)|]. intros r' (l' & Hr' & Hl'). exists l'. split; [done|].
  rewrite Hl'. destruct cs; [done|]. by destruct (last _) eqn:E; [|by apply last_None in E].
Qed.
End registered.

(** ** Theorem *)

(** C34: the parser neither leaks nor frees twice.  After any sequence of calls of
    [parse_line], each making any number of objects below 2^58, and
    [free_parse_memory], the program has the objects it had before and those of
    the last parse, all distinct; [free_parse_memory] then frees exactly these and
    leaves the parser as at the start.  On the way no assertion fails, no cell
    outside the array is touched and nothing is freed that is not allocated; the
    program only gives up when there is no memory. *)
Theorem parse_memory_freed `{Malloc} (room : Z -> bool) (X : gset loc) (cs : list parser_call) :
  Forall (fun c => Z.of_nat (kept c) < 2 ^ 58) cs ->
  ends (no_memory room) (run_calls room cs (initial_registry X)) (fun r => exists l : list loc,
    NoDup l /\ (forall p, p ∈ l -> p ∉ X) /\ allocated r = X ∪ list_to_set l /\ length l = default 0%nat (kept <$> last cs) /\
    free_parse_memory r = Done (initial_registry X)).
Proof.
  intros Hcs. eapply ends_mono; [by apply (run_calls_ends room X cs []); [apply initial_registered|]|].
  intros r (l & Hr & Hl). exists l. pose proof (free_parse_memory_ok X l r Hr). by destruct Hr.
Qed.

Lemma parse_memory_freed_witness :
  exists r, @run_calls malloc_first (fun _ => true) [ParseLine 5; FreeParseMemory; ParseLine 9; ParseLine 3] (initial_registry {[7%positive]}) = Done r /\
    size (allocated r) = 4%nat /\ free_parse_memory r = Done (initial_registry {[7%positive]}).
Proof.
  pose proof (@parse_memory_freed malloc_first (fun _ => true) {[7%positive]} [ParseLine 5; FreeParseMemory; ParseLine 9; ParseLine 3]
    ltac:(repeat constructor)) as Hend.
  destruct (run_calls _ _ _) as [r|f] eqn:E; [|vm_compute in E; discriminate]. destruct Hend as (l & _ & _ & _ & _ & Hf).
  exists r. split; [reflexivity|]. split; [|exact Hf]. vm_compute in E. injection E as <-. reflexivity.
Defined.
