(* ===== verification/ParserNodes.v ===== *)
(** * The nodes of a parse tree

    [new_command] and [bind_commands] of
    [mini-shell-project-FreezeKickerz/util/parser/parser.y] on the memory they
    write: a [command_t] and a [simple_command_t] have a pointer [up] to the node
    above them.  [Parser] builds the tree itself; here the same parser builds its
    nodes, no assertion of these functions fails, and the nodes are that tree with
    every [up] in place. *)

From Stdlib Require Import ZArith Lia Ascii.
From Stdlib Require String.
From stdpp Require Import list strings.
From S2P Require Import Prelude CString Lexer Shell Parser.
Open Scope Z_scope.

(** ** The structures *)

(** [op] is nothing for [OP_NONE]. *)
Record command_t := CommandT {
  up : option nat; cmd1 : option nat; cmd2 : option nat; op : option operator_t; scmd : option nat
}.
Record simple_command_t := SimpleT { content : simple_command; scmd_up : option nat }.

(** What the parser has allocated so far. *)
Record nodes := Nodes { commands : list command_t; simples : list simple_command_t }.
Definition no_nodes : nodes := Nodes [] [].

#[export] Instance operator_t_eq_dec : EqDecision operator_t.
Proof. solve_decision. Defined.

Definition set_up (c : command_t) (u : option nat) : command_t := CommandT u (cmd1 c) (cmd2 c) (op c) (scmd c).

(** ** The functions *)

(** The end of [bind_parts]. *)
Definition new_simple (st : nodes) (s : simple_command) : nodes * nat :=
  (Nodes (commands st) (simples st ++ [SimpleT s None]), length (simples st)).

Definition new_command (st : nodes) (i : nat) : outcome (nodes * nat) :=
  let c := length (commands st) in
  s ← array_get (simples st) i;
  ss ← array_set (simples st) i (SimpleT (content s) (Some c));
  Done (Nodes (commands st ++ [CommandT None None None None (Some i)]) ss, c).

Definition bind_commands (st : nodes) (a b : nat) (o : operator_t) : outcome (nodes * nat) :=
  let c := length (commands st) in
  let cs := commands st ++ [CommandT None None None None None] in
  na ← array_get cs a;
  _ ← c_assert (bool_decide (up na = None));
  cs ← array_set cs a (set_up na (Some c));
  nb ← array_get cs b;
  _ ← c_assert (bool_decide (up nb = None));
  _ ← c_assert (bool_decide (a <> b));
  cs ← array_set cs b (set_up nb (Some c));
  _ ← c_assert (bool_decide (o <> OP_DUMMY));
  cs ← array_set cs c (CommandT None (Some a) (Some b) (Some o) None);
  Done (Nodes cs (simples st), c).

(** [Parser.reduce], [parse_commands], [yyparse] and [parse_line] with these
    actions. *)
Fixpoint reduce (st : nodes) (stack : list (nat * operator_t)) (c : nat) (level : nat) :
    outcome (nodes * list (nat * operator_t) * nat) :=
  match stack with
  | (lhs, o) :: below =>
      if (level <=? precedence o)%nat then '(st, c) ← bind_commands st lhs c o; reduce st below c level
      else Done (st, stack, c)
  | [] => Done (st, [], c)
  end.

Fixpoint parse_commands (fuel : nat) (st : nodes) (stack : list (nat * operator_t)) (ts : list token) :
    outcome (option (nodes * nat)) :=
  match fuel, take_simple ts with
  | S fuel, Some (w, ps, rs, rest) =>
      s ← bind_parts w ps rs;
      let '(st, i) := new_simple st s in
      '(st, c) ← new_command st i;
      match rest with
      | Some (tok :: ts) =>
          match operator tok with
          | Some o =>
              '(st, stack, c) ← (reduce st stack c (precedence o) : outcome (nodes * list (nat * operator_t) * nat));
              parse_commands fuel st ((c, o) :: stack) ts
          | None =>
              if ends_line tok then
                '(st, _, c) ← (reduce st stack c 0 : outcome (nodes * list (nat * operator_t) * nat)); Done (Some (st, c))
              else Done None
          end
      | _ => Done None
      end
  | O, Some _ => Fault Diverges
  | _, None => Done None
  end.

(** The nodes and [command_root]. *)
Definition yyparse (ts : list token) : outcome (option (nodes * option nat)) :=
  match ts with
  | END_OF_LINE :: _ | END_OF_FILE :: _ | BLANK :: END_OF_LINE :: _ | BLANK :: END_OF_FILE :: _ => Done (Some (no_nodes, None))
  | _ =>
      r ← parse_commands (S (length ts)) no_nodes [] ts;
      Done (match r with Some (st, c) => Some (st, Some c) | None => None end)
  end.

Definition parse_line (line : list ascii) : outcome (bool * (nodes * option nat)) :=
  r ← yyparse (lex INITIAL line);
  Done (match r with Some (st, root) => (true, (st, root)) | None => (false, (no_nodes, None)) end).

(** ** Trees in the memory *)

(** The tree at [n], below [u], in the nodes [ns]. *)
Fixpoint tree_at (st : nodes) (u : option nat) (n : nat) (c : command) (ns : list nat) : Prop :=
  match c with
  | Simple s =>
      ns = [n] /\ exists i, commands st !! n = Some (CommandT u None None None (Some i)) /\
        simples st !! i = Some (SimpleT s (Some n))
  | Compound o a b =>
      exists na nb nsa nsb, ns = n :: nsa ++ nsb /\ commands st !! n = Some (CommandT u (Some na) (Some nb) (Some o) None) /\
        tree_at st (Some n) na a nsa /\ tree_at st (Some n) nb b nsb
  end.

(** The trees of a stack. *)
Fixpoint stack_at (st : nodes) (stack : list (nat * operator_t)) (cs : list (command * operator_t)) (ns : list nat) : Prop :=
  match stack, cs with
  | [], [] => ns = []
  | (n, o) :: stack, (c, o') :: cs =>
      o = o' /\ o <> OP_DUMMY /\ exists n1 n2, ns = n1 ++ n2 /\ tree_at st None n c n1 /\ stack_at st stack cs n2
  | _, _ => False
  end.

(** [st'] has the nodes [ns] of [st] as they were. *)
Record keeps (st st' : nodes) (ns : list nat) : Prop := {
  keeps_commands n : n ∈ ns -> commands st' !! n = commands st !! n;
  keeps_simples : simples st `prefix_of` simples st'
}.

Ltac in_part := apply elem_of_app; first [by left|by right].

Lemma keeps_part st st' ns ns' : keeps st st' ns -> (forall n, n ∈ ns' -> n ∈ ns) -> keeps st st' ns'.
Proof. intros [H1 H2] Hs. split; [|done]. intros n Hn. by apply H1, Hs. Qed.

Lemma tree_head st u n c ns : tree_at st u n c ns -> exists ns', ns = n :: ns'.
Proof. destruct c; simpl; naive_solver. Qed.

Lemma tree_dom st u n c ns i : tree_at st u n c ns -> i ∈ ns -> (i < length (commands st))%nat.
Proof.
  revert u n ns. induction c as [s|o a IHa b IHb]; intros u n ns; simpl.
  - intros (-> & j & Hn & _) ->%list_elem_of_singleton. by eapply lookup_lt_Some.
  - intros (na & nb & nsa & nsb & -> & Hn & Ha & Hb) [->|[Hi|Hi]%elem_of_app]%elem_of_cons; [by eapply lookup_lt_Some|by eapply IHa|by eapply IHb].
Qed.

Lemma tree_keeps st st' u n c ns : tree_at st u n c ns -> keeps st st' ns -> tree_at st' u n c ns.
Proof.
  revert u n ns. induction c as [s|o a IHa b IHb]; intros u n ns; simpl.
  - intros (-> & j & Hn & Hj) [H1 H2]. split; [done|]. exists j. rewrite H1 by (by left). split; [done|].
    by eapply prefix_lookup_Some.
  - intros (na & nb & nsa & nsb & -> & Hn & Ha & Hb) Hk. exists na, nb, nsa, nsb. split; [done|].
    rewrite (keeps_commands _ _ _ Hk) by (by left). split; [done|].
    split; [apply IHa|apply IHb]; try done; apply (keeps_part _ _ _ _ Hk); intros m Hm; right; in_part.
Qed.

(** A tree whose top is hung below another node. *)
Lemma tree_hang st st' u n c ns : tree_at st None n c ns -> NoDup ns ->
  (forall m, m ∈ ns -> commands st' !! m = if decide (m = n) then (fun x => set_up x u) <$> commands st !! m else commands st !! m) ->
  simples st `prefix_of` simples st' -> tree_at st' u n c ns.
Proof.
  intros Ht Hnd Hc Hs. destruct c as [s|o a b]; simpl in *.
  - destruct Ht as (-> & j & Hn & Hj). split; [done|]. exists j. rewrite Hc by (by left). rewrite decide_True, Hn by done.
    split; [done|]. by eapply prefix_lookup_Some.
  - destruct Ht as (na & nb & nsa & nsb & -> & Hn & Ha & Hb). exists na, nb, nsa, nsb. split; [done|].
    rewrite Hc by (by left). rewrite decide_True, Hn by done. split; [done|]. apply NoDup_cons in Hnd as [Hni _].
    split; (eapply tree_keeps; [done|]); (split; [|done]); intros m Hm; (rewrite Hc; [rewrite decide_False; [done|]|]);
      first [intros ->; apply Hni; in_part|right; in_part].
Qed.

Lemma stack_dom st stack cs ns i : stack_at st stack cs ns -> i ∈ ns -> (i < length (commands st))%nat.
Proof.
  revert cs ns. induction stack as [|[n o] stack IH]; intros [|[c o'] cs] ns; simpl; try done; [by intros -> ?%elem_of_nil|].
  intros (_ & _ & n1 & n2 & -> & Ht & Hs) [Hi|Hi]%elem_of_app; [by eapply tree_dom|by eapply IH].
Qed.

Lemma stack_keeps st st' stack cs ns : stack_at st stack cs ns -> keeps st st' ns -> stack_at st' stack cs ns.
Proof.
  revert cs ns. induction stack as [|[n o] stack IH]; intros [|[c o'] cs] ns; simpl; try done.
  intros (-> & Ho & n1 & n2 & -> & Ht & Hs) Hk. split_done. exists n1, n2. split; [done|].
  split; [eapply tree_keeps; [done|]|apply IH; [done|]]; apply (keeps_part _ _ _ _ Hk); intros m Hm; in_part.
Qed.

(** ** What the functions do *)

(** Nodes that a step does not touch. *)
Definition elsewhere (st : nodes) (ns ms : list nat) : Prop := forall m, m ∈ ms -> m ∉ ns /\ (m < length (commands st))%nat.

Lemma new_command_ok st s : let '(st1, i) := new_simple st s in
  exists st', new_command st1 i = Done (st', length (commands st)) /\ tree_at st' None (length (commands st)) (Simple s) [length (commands st)] /\
    length (commands st') = S (length (commands st)) /\ forall ms, elsewhere st [] ms -> keeps st st' ms.
Proof.
  unfold new_simple, new_command, array_get, array_set. cbn [simples commands].
  rewrite list_lookup_middle by done. cbn [mbind outcome_bind content].
  rewrite decide_True by (rewrite length_app; simpl; lia). cbn [mbind outcome_bind].
  rewrite insert_app_r_alt, Nat.sub_diag by done. eexists. split; [done|].
  split; [split; [done|exists (length (simples st)); split; by apply list_lookup_middle]|].
  split; [cbn [commands]; rewrite length_app; simpl; lia|]. intros ms Hms. split; cbn [commands simples]; [|by apply prefix_app_r].
  intros m Hm. apply lookup_app_l. by apply Hms.
Qed.

Lemma bind_commands_ok st a b o ca cb nsa nsb :
  tree_at st None a ca nsa -> tree_at st None b cb nsb -> NoDup (nsa ++ nsb) -> o <> OP_DUMMY ->
  exists st', let c := length (commands st) in bind_commands st a b o = Done (st', c) /\
    tree_at st' None c (Compound o ca cb) (c :: nsa ++ nsb) /\ length (commands st') = S c /\
    forall ms, elsewhere st (nsa ++ nsb) ms -> keeps st st' ms.
Proof.
  intros Ha Hb Hnd Ho. set (c := length (commands st)).
  destruct (tree_head _ _ _ _ _ Ha) as [nsa' Ea], (tree_head _ _ _ _ _ Hb) as [nsb' Eb].
  assert (Hla : (a < c)%nat) by (apply (tree_dom _ _ _ _ _ _ Ha); subst nsa; by left).
  assert (Hlb : (b < c)%nat) by (apply (tree_dom _ _ _ _ _ _ Hb); subst nsb; by left).
  apply NoDup_app in Hnd as (Hna & Hdis & Hnb).
  assert (Hab : a <> b) by (intros ->; apply (Hdis b); subst; by left).
  assert (exists xa xb, commands st !! a = Some xa /\ up xa = None /\ commands st !! b = Some xb /\ up xb = None) as (xa & xb & Exa & Ua & Exb & Ub).
  { destruct ca, cb; simpl in Ha, Hb; naive_solver. }
  set (x0 := CommandT None None None None None). set (x1 := CommandT None (Some a) (Some b) (Some o) None).
  set (cs := <[c := x1]> (<[b := set_up xb (Some c)]> (<[a := set_up xa (Some c)]> (commands st ++ [x0])))).
  assert (Hl : length (commands st ++ [x0]) = S c) by (rewrite length_app; simpl; unfold c; lia).
  assert (Hrun : bind_commands st a b o = Done (Nodes cs (simples st), c)).
  { unfold bind_commands, array_get, array_set. fold c x0. rewrite (lookup_app_l _ _ a), Exa by done. cbn [mbind outcome_bind].
    rewrite bool_decide_eq_true_2 by done. cbn [c_assert mbind outcome_bind]. rewrite decide_True by lia. cbn [mbind outcome_bind].
    rewrite list_lookup_insert_ne, lookup_app_l, Exb by done. cbn [mbind outcome_bind].
    rewrite !bool_decide_eq_true_2 by done. cbn [c_assert mbind outcome_bind]. rewrite decide_True by (rewrite length_insert; lia). cbn [mbind outcome_bind].
    rewrite decide_True by (rewrite !length_insert; lia). done. }
  assert (Hc : cs !! c = Some x1) by (unfold cs; apply list_lookup_insert_eq; rewrite !length_insert; lia).
  assert (Hold : forall m, (m < c)%nat -> cs !! m = if decide (m = a) then (fun x => set_up x (Some c)) <$> commands st !! m
            else if decide (m = b) then (fun x => set_up x (Some c)) <$> commands st !! m else commands st !! m).
  { intros m Hm. unfold cs. rewrite list_lookup_insert_ne by lia. destruct (decide (m = b)) as [->|Hmb].
    - rewrite decide_False by done. rewrite list_lookup_insert_eq by (rewrite length_insert; lia). by rewrite Exb.
    - rewrite list_lookup_insert_ne by done. destruct (decide (m = a)) as [->|Hma].
      + rewrite list_lookup_insert_eq by lia. by rewrite Exa.
      + rewrite list_lookup_insert_ne by done. by apply lookup_app_l. }
  exists (Nodes cs (simples st)). split; [done|]. split; [|split].
  - exists a, b, nsa, nsb. split; [done|]. split; [done|].
    split; (eapply tree_hang; [done|done| |done]); intros m Hm; cbn [commands]; rewrite Hold.
    + destruct (decide (m = a)); [done|]. rewrite decide_False; [done|]. intros ->. apply (Hdis b Hm). subst. by left.
    + by apply (tree_dom _ _ _ _ _ _ Ha).
    + rewrite (decide_False (P := m = a)); [done|]. intros ->. apply (Hdis a); [subst; by left|done].
    + by apply (tree_dom _ _ _ _ _ _ Hb).
  - cbn [commands]. unfold cs. by rewrite !length_insert.
  - intros ms Hms. split; [|done]. intros m Hm. destruct (Hms m Hm) as [Hn Hlt]. cbn [commands]. rewrite Hold by done.
    rewrite !decide_False; [done| |]; intros ->; apply Hn; subst; apply elem_of_app; [right|left]; by left.
Qed.

Lemma reduce_ok st stack cs n c level nsc nss :
  tree_at st None n c nsc -> stack_at st stack cs nss -> NoDup (nsc ++ nss) ->
  exists st' stack' n' nsc' nss', reduce st stack n level = Done (st', stack', n') /\
    tree_at st' None n' (Parser.reduce cs c level).2 nsc' /\ stack_at st' stack' (Parser.reduce cs c level).1 nss' /\ NoDup (nsc' ++ nss').
Proof.
  revert st cs n c nsc nss. induction stack as [|[a o] stack IH]; intros st [|[ca o'] cs] n c nsc nss Hc Hs Hnd; simpl in Hs; try done.
  { by exists st, [], n, nsc, nss. }
  destruct Hs as (<- & Ho & n1 & n2 & -> & Ha & Hs). simpl. destruct (level <=? precedence o)%nat eqn:E.
  - rewrite (assoc_L (++)), (Permutation_app_comm nsc n1) in Hnd. pose proof Hnd as (H1 & Hdis & H2)%NoDup_app.
    destruct (bind_commands_ok st a n o ca c n1 nsc Ha Hc H1 Ho) as (st1 & Eb & Ht & Hl & Hk). rewrite Eb. cbn [mbind outcome_bind].
    apply (IH st1 cs _ _ _ n2 Ht).
    + apply (stack_keeps _ _ _ _ _ Hs), Hk. intros m Hm. split; [intros H; by apply (Hdis m)|by eapply stack_dom].
    + cbn [app]. apply NoDup_cons. split; [|done]. intros [[H|H]%elem_of_app|H]%elem_of_app; [apply (tree_dom _ _ _ _ _ _ Ha) in H|
        apply (tree_dom _ _ _ _ _ _ Hc) in H|apply (stack_dom _ _ _ _ _ Hs) in H]; lia.
  - exists st, ((a, o) :: stack), n, nsc, (n1 ++ n2). split_done. simpl. split_done. by exists n1, n2.
Qed.

(** The nodes hold the tree. *)
Definition same_tree (r : option (nodes * nat)) (c : option command) : Prop :=
  match r, c with
  | Some (st, n), Some c => exists ns, tree_at st None n c ns /\ NoDup ns
  | None, None => True
  | _, _ => False
  end.

Lemma operator_some tok o : operator tok = Some o -> o <> OP_DUMMY.
Proof. intros H ->. by destruct tok. Qed.

Lemma parse_commands_refines fuel st stack cs ts nss : stack_at st stack cs nss -> NoDup nss ->
  refines same_tree (parse_commands fuel st stack ts) (Parser.parse_commands fuel cs ts).
Proof.
  revert st stack cs ts nss. induction fuel as [|fuel IH]; intros st stack cs ts nss Hs Hnd; cbn [parse_commands Parser.parse_commands]; [by destruct (take_simple ts)|].
  destruct (take_simple ts) as [[[[w ps] rs] rest]|]; [|done]. destruct (bind_parts w ps rs) as [s|f]; [|done]. cbn [mbind outcome_bind].
  pose proof (new_command_ok st s) as Hn. destruct (new_simple st s) as [st1 i]. destruct Hn as (st2 & En & Ht & Hl & Hk). rewrite En.
  cbn [mbind outcome_bind]. destruct rest as [[|tok tl]|]; try done.
  assert (Hs2 : stack_at st2 stack cs nss).
  { apply (stack_keeps _ _ _ _ _ Hs), Hk. intros m Hm. split; [by apply not_elem_of_nil|by eapply stack_dom]. }
  assert (Hnd2 : NoDup ([length (commands st)] ++ nss)).
  { apply NoDup_cons. split; [|done]. intros H. apply (stack_dom _ _ _ _ _ Hs) in H. lia. }
  destruct (operator tok) as [o|] eqn:Eo; [|destruct (ends_line tok)]; [| |done].
  - destruct (reduce_ok st2 stack cs _ _ (precedence o) _ _ Ht Hs2 Hnd2) as (st3 & stack3 & n3 & nsc3 & nss3 & Er & Ht3 & Hs3 & Hnd3).
    rewrite Er. cbn [mbind outcome_bind]. destruct (Parser.reduce cs (Simple s) (precedence o)) as [cs3 c3]. simpl in Ht3, Hs3.
    apply (IH _ _ _ _ (nsc3 ++ nss3)); [|done]. simpl. split; [done|]. split; [by eapply operator_some|]. by exists nsc3, nss3.
  - destruct (reduce_ok st2 stack cs _ _ 0 _ _ Ht Hs2 Hnd2) as (st3 & stack3 & n3 & nsc3 & nss3 & Er & Ht3 & _ & Hnd3).
    rewrite Er. simpl. exists nsc3. split; [done|]. by apply NoDup_app in Hnd3 as [? _].
Qed.

(** What a caller of [parse_line] gets. *)
Definition same_parse (r : bool * (nodes * option nat)) (p : bool * option command) : Prop :=
  r.1 = p.1 /\ match r.2.2, p.2 with Some n, Some c => exists ns, tree_at r.2.1 None n c ns /\ NoDup ns | None, None => True | _, _ => False end.

Lemma yyparse_refines ts : refines (fun r p => match r, p with
    | Some (st, root), Some c => same_parse (true, (st, root)) (true, c) | None, None => True | _, _ => False end)
  (yyparse ts) (Parser.yyparse ts).
Proof.
  assert (H : forall fuel, refines same_tree (parse_commands fuel no_nodes [] ts) (Parser.parse_commands fuel [] ts)).
  { intros fuel. by apply (parse_commands_refines _ _ _ _ _ []); [|constructor]. }
  unfold yyparse, Parser.yyparse. specialize (H (S (length ts))).
  repeat match goal with |- refines _ (match ?x with _ => _ end) _ => destruct x; try done end;
    (eapply refines_bind; [exact H|]); intros [[st n]|] [c|]; simpl; try done.
Qed.

Lemma nodes_of_line line : refines same_parse (parse_line line) (Parser.parse_line line).
Proof.
  unfold parse_line, Parser.parse_line. eapply refines_bind; [apply yyparse_refines|].
  intros [[st root]|] [c|]; simpl; try done.
Qed.
