(* ===== verification/ParserUsers.v ===== *)
(** * The programs that show what the parser does

    [DisplayStructure.cpp], [UseParser.cpp] and [CUseParser.c] of
    [mini-shell-project-FreezeKickerz/util/parser].  The first one prints the tree
    of every line it reads and asserts on its way what [parser.h] says of the
    pointers; it never fails, and prints the tree of [Parser].  Only the standard
    output is modelled, not the messages on the standard error. *)

From Stdlib Require Import ZArith Lia Ascii.
From Stdlib Require String.
From stdpp Require Import list strings.
From S2P Require Import Prelude CString Lexer Shell Parser Grammar ParserLists ParserProps ParserNodes.
Open Scope Z_scope.

(** ** Programs that print *)

(** What has been written, and how the program goes on. *)
Definition printer (A : Type) : Type := list ascii * outcome A.
#[export] Instance printer_ret : MRet printer := fun A a => ([], Done a).
#[export] Instance printer_bind : MBind printer := fun A B k m =>
  match m.2 with Done a => let r := k a in (m.1 ++ r.1, r.2) | Fault f => (m.1, Fault f) end.

Definition out (l : list ascii) : printer unit := (l, Done tt).
Definition lift {A} (m : outcome A) : printer A := ([], m).

Definition print (s : string) : printer unit := out (chars s).
Definition endl : printer unit := out [LF].
(** [std::setw(n) << ""] *)
Definition setw (n : nat) : printer unit := out (replicate n " "%char).

(** ** DisplayStructure.cpp *)

Definition indent : nat := 4.

(** The loop of [displayWord]. *)
Fixpoint display_parts (w : word) : printer unit :=
  match w with
  | [] => mret tt
  | crt :: w =>
      _ ← (if expand crt then print "expand(" else mret tt);
      _ ← print "'"; _ ← print (string_of crt); _ ← print "'";
      _ ← (if expand crt then print ")" else mret tt);
      _ ← match w with [] => mret tt | _ :: _ => print ";    " end;
      display_parts w
  end.

(** Only the first part of a word is in a list ([word_cell]). *)
Definition displayWord (w : word) : printer unit :=
  _ ← lift (c_assert (bool_decide (w <> []))); _ ← display_parts w; endl.

Fixpoint display_words (ws : list word) (level : nat) : printer unit :=
  match ws with
  | [] => mret tt
  | crt :: ws => _ ← setw (2 * indent * level); _ ← displayWord crt; display_words ws level
  end.

Definition displayList (ws : list word) (level : nat) : printer unit :=
  _ ← lift (c_assert (bool_decide (ws <> []))); display_words ws level.

Definition line_at (n : nat) (s : string) : printer unit := _ ← setw n; _ ← print s; endl.

(** One list of a simple command, between its name and a parenthesis. *)
Definition display_field (name : string) (ws : list word) (append : bool) (level : nat) : printer unit :=
  match ws with
  | [] => mret tt
  | _ :: _ =>
      _ ← line_at (2 * indent * level + indent) name;
      _ ← displayList ws (level + 1);
      _ ← (if append then line_at (2 * indent * (level + 1)) "APPEND" else mret tt);
      line_at (2 * indent * level + indent) ")"
  end.

Definition has_flag (s : simple_command) (flag : Z) : bool := bool_decide (Z.land (io_flags s) flag <> 0).

Definition displaySimple (st : nodes) (s : option nat) (level : nat) (father : option nat) : printer unit :=
  _ ← lift (c_assert (bool_decide (s <> None)));
  s ← lift (i ← deref s; array_get (simples st) i);
  _ ← lift (c_assert (bool_decide (father = scmd_up s)));
  let s := content s in
  _ ← line_at (2 * indent * level) "simple_command_t (";
  _ ← line_at (2 * indent * level + indent) "verb (";
  _ ← displayList [verb s] (level + 1);
  _ ← line_at (2 * indent * level + indent) ")";
  _ ← display_field "params (" (params s) false level;
  _ ← display_field "in (" (s_in s) false level;
  _ ← display_field "out (" (s_out s) (has_flag s IO_OUT_APPEND) level;
  _ ← display_field "err (" (s_err s) (has_flag s IO_ERR_APPEND) level;
  line_at (2 * indent * level) ")".

Definition operator_name (o : operator_t) : outcome string :=
  match o with
  | OP_SEQUENTIAL => Done "OP_SEQUENTIAL"%string
  | OP_PARALLEL => Done "OP_PARALLEL"%string
  | OP_CONDITIONAL_ZERO => Done "OP_CONDITIONAL_ZERO"%string
  | OP_CONDITIONAL_NZERO => Done "OP_CONDITIONAL_NZERO"%string
  | OP_PIPE => Done "OP_PIPE"%string
  | OP_DUMMY => Fault AssertFailed
  end.

Fixpoint displayCommand (fuel : nat) (st : nodes) (c : option nat) (level : nat) (father : option nat) : printer unit :=
  match fuel with
  | O => lift (Fault Diverges)
  | S fuel =>
      _ ← lift (c_assert (bool_decide (c <> None)));
      n ← lift (n ← deref c; array_get (commands st) n);
      _ ← lift (c_assert (bool_decide (up n = father)));
      _ ← line_at (2 * indent * level) "command_t (";
      _ ← match op n with
          | None =>
              _ ← lift (c_assert (bool_decide (cmd1 n = None)));
              _ ← lift (c_assert (bool_decide (cmd2 n = None)));
              _ ← line_at (2 * indent * level + indent) "scmd (";
              _ ← displaySimple st (scmd n) (level + 1) c;
              line_at (2 * indent * level + indent) ")"
          | Some o =>
              _ ← lift (c_assert (bool_decide (scmd n = None)));
              _ ← setw (2 * indent * level + indent); _ ← print "op == ";
              name ← lift (operator_name o); _ ← print name; _ ← endl;
              _ ← line_at (2 * indent * level + indent) "cmd1 (";
              _ ← displayCommand fuel st (cmd1 n) (level + 1) c;
              _ ← line_at (2 * indent * level + indent) ")";
              _ ← line_at (2 * indent * level + indent) "cmd2 (";
              _ ← displayCommand fuel st (cmd2 n) (level + 1) c;
              line_at (2 * indent * level + indent) ")"
          end;
      line_at (2 * indent * level) ")"
  end.

(** [getline]: the line, the rest, and whether the stream is still good, which it
    is not once the end of the input was met. *)
Fixpoint getline (input : list ascii) : list ascii * list ascii * bool :=
  match input with
  | [] => ([], [], false)
  | c :: input => if decide (c = LF) then ([], input, true) else let '(line, rest, good) := getline input in (c :: line, rest, good)
  end.

(** [main]: each turn of the loop takes a character or ends. *)
Fixpoint display_loop (fuel : nat) (input : list ascii) : printer Z :=
  match fuel with
  | O => lift (Fault Diverges)
  | S fuel =>
      _ ← print "> ";
      let '(line, input, good) := getline input in
      if bool_decide (length line = 0%nat) && negb good then mret 0
      else
        _ ← out line; _ ← endl;
        '(ok, (st, root)) ← (lift (ParserNodes.parse_line (c_str line)) : printer (bool * (nodes * option nat)));
        _ ← (if (ok : bool) then
               _ ← line_at 0 "Command successfully read!";
               match root with
               | None => line_at 0 "Command is empty!"
               | Some n => displayCommand (S (length (commands st))) st (Some n) 0 None
               end
             else line_at 0 "Error parsing!");
        _ ← endl; _ ← endl;
        display_loop fuel input
  end.

Definition display_main (input : list ascii) : printer Z := display_loop (S (length input)) input.

(** ** UseParser.cpp and CUseParser.c *)

Definition PROMPT_STRING : string := "> ".

Definition use_parser (input : list ascii) : printer Z :=
  _ ← print PROMPT_STRING;
  let '(line, _, good) := getline input in
  if bool_decide (length line = 0%nat) && negb good then mret 0
  else
    '(ok, (_, root)) ← (lift (ParserNodes.parse_line (c_str line)) : printer (bool * (nodes * option nat)));
    _ ← (if (ok : bool) then
           _ ← line_at 0 "Command successfully read!";
           match root with None => line_at 0 "Command is empty!" | Some _ => mret tt end
         else mret tt);
    mret 0.

Definition MAX_CMD_LEN : nat := 1024.

Definition c_use_parser (input : list ascii) : printer Z :=
  _ ← print PROMPT_STRING;
  match input with
  | [] => mret 0
  | _ :: _ =>
      '(ok, (_, root)) ← (lift (ParserNodes.parse_line (c_str (fgets (MAX_CMD_LEN - 1) input).1)) : printer (bool * (nodes * option nat)));
      _ ← (if (ok : bool) then
             _ ← line_at 0 "Command successfully read!";
             match root with
             | None => line_at 0 "Command is empty!"
             | Some _ => line_at 0 "Starting with command root..."
             end
           else mret tt);
      mret 0
  end.

(** ** What is printed

    A tree as nested blocks, each a level of [indent] further in. *)

Inductive layout := Row (text : list ascii) | Block (name : string) (body : list layout).

Definition row (k : nat) (l : list ascii) : list ascii := replicate (indent * k) " "%char ++ l ++ [LF].

Fixpoint render (k : nat) (d : layout) : list ascii :=
  match d with
  | Row l => row k l
  | Block name body => row k (chars name ++ chars " (") ++ concat (map (render (S k)) body) ++ row k (chars ")")
  end.

Definition part_text (p : part) : list ascii :=
  let q := chars "'" ++ chars (string_of p) ++ chars "'" in
  if expand p then chars "expand(" ++ q ++ chars ")" else q.

Fixpoint word_text (w : word) : list ascii :=
  match w with [] => [] | [p] => part_text p | p :: w => part_text p ++ chars ";    " ++ word_text w end.

Definition words_layout (name : string) (ws : list word) (append : bool) : list layout :=
  match ws with
  | [] => []
  | _ :: _ => [Block name (((fun w => Row (word_text w)) <$> ws) ++ (if append then [Row (chars "APPEND")] else []))]
  end.

Definition simple_layout (s : simple_command) : layout :=
  Block "simple_command_t" (words_layout "verb" [verb s] false ++ words_layout "params" (params s) false ++
    words_layout "in" (s_in s) false ++ words_layout "out" (s_out s) (has_flag s IO_OUT_APPEND) ++
    words_layout "err" (s_err s) (has_flag s IO_ERR_APPEND)).

Fixpoint command_layout (c : command) : layout :=
  Block "command_t"
    match c with
    | Simple s => [Block "scmd" [simple_layout s]]
    | Compound o a b =>
        [Row (chars "op == " ++ match operator_name o with Done name => chars name | Fault _ => [] end);
         Block "cmd1" [command_layout a]; Block "cmd2" [command_layout b]]
    end.

(** ** Printing the tree *)

Definition prints (p : printer unit) (l : list ascii) : Prop := p = (l, Done tt).

Lemma prints_then (p q : printer unit) l k : prints p l -> prints q k -> prints (_ ← p; q) (l ++ k).
Proof. unfold prints. intros -> ->. done. Qed.

Lemma prints_lift {A} (m : outcome A) (k : A -> printer unit) a l : m = Done a -> prints (k a) l -> prints (a ← lift m; k a) l.
Proof. unfold prints. intros -> E. unfold mbind, printer_bind. simpl. by rewrite E. Qed.

Lemma prints_assert b (q : printer unit) l : b = true -> prints q l -> prints (_ ← lift (c_assert b); q) l.
Proof. intros -> H. by apply (prints_lift _ (fun _ => q) tt). Qed.

Lemma prints_eq p l k : prints p l -> l = k -> prints p k.
Proof. by intros H <-. Qed.

Lemma prints_out l : prints (out l) l.
Proof. done. Qed.

Lemma prints_row n k s l : n = (indent * k)%nat -> l = chars s -> prints (line_at n s) (row k l).
Proof. intros -> ->. done. Qed.

Lemma prints_none : prints (mret tt) [].
Proof. done. Qed.

#[export] Hint Resolve prints_out prints_none : prints.
#[export] Hint Extern 1 (prints (line_at _ _) _) => (apply prints_row; [unfold indent; lia | reflexivity]) : prints.

Lemma print_prints s : prints (print s) (chars s).
Proof. done. Qed.
#[export] Hint Resolve print_prints : prints.

Lemma parts_printed w : prints (display_parts w) (word_text w).
Proof.
  induction w as [|p w IH]; [done|]. cbn [display_parts]. destruct (expand p) eqn:E, w as [|p' w].
  all: eapply prints_eq; [repeat (eapply prints_then; [by eauto with prints|]); exact IH|].
  all: cbn [word_text]; unfold part_text; rewrite E, <- ?(assoc_L (++)); simpl; rewrite ?app_nil_r; try done.
Qed.

Lemma row_even level l : row (2 * level) l = replicate (2 * indent * level) " "%char ++ l ++ [LF].
Proof. unfold row. by replace (indent * (2 * level))%nat with (2 * indent * level)%nat by lia. Qed.

Lemma odd_level level : (indent * (2 * level + 1))%nat = (2 * indent * level + indent)%nat.
Proof. lia. Qed.

Lemma odd_printed level s : prints (line_at (2 * indent * level + indent) s) (row (2 * level + 1) (chars s)).
Proof. apply prints_row; [by rewrite odd_level|done]. Qed.

Lemma word_printed w : w <> [] -> prints (displayWord w) (word_text w ++ [LF]).
Proof. intros Hw. apply prints_assert; [by apply bool_decide_eq_true_2|]. apply prints_then; [apply parts_printed|apply prints_out]. Qed.

Lemma words_printed ws level : Forall (fun w => w <> []) ws ->
  prints (display_words ws level) (concat (map (render (2 * level)) ((fun w => Row (word_text w)) <$> ws))).
Proof.
  induction 1 as [|w ws Hw _ IH]; [done|]. cbn [display_words fmap list_fmap map concat render].
  eapply prints_eq; [apply prints_then; [apply prints_out|apply prints_then; [by apply word_printed|exact IH]]|].
  by rewrite row_even, <- !(assoc_L (++)).
Qed.

Lemma list_printed ws level : ws <> [] -> Forall (fun w => w <> []) ws ->
  prints (displayList ws level) (concat (map (render (2 * level)) ((fun w => Row (word_text w)) <$> ws))).
Proof. intros Hne Hws. apply prints_assert; [by apply bool_decide_eq_true_2|]. by apply words_printed. Qed.

Lemma field_printed name nm ws append level : chars name = chars nm ++ chars " (" -> Forall (fun w => w <> []) ws ->
  prints (display_field name ws append level) (concat (map (render (2 * level + 1)) (words_layout nm ws append))).
Proof.
  intros Hn Hws. unfold display_field, words_layout. destruct ws as [|w ws]; [done|]. cbn [map concat render]. rewrite app_nil_r.
  replace (S (2 * level + 1)) with (2 * (level + 1))%nat by lia. rewrite map_app, concat_app, <- (assoc_L (++) (concat _)).
  apply prints_then; [apply prints_row; [unfold indent; lia|done]|]. apply prints_then; [by apply list_printed|].
  apply prints_then; [|auto with prints]. destruct append; [|done]. cbn [map concat render]. rewrite app_nil_r. auto with prints.
Qed.

(** A list of one word, as [displaySimple] shows the verb. *)
Lemma words_one level nm w : concat (map (render (2 * level + 1)) (words_layout nm [w] false)) =
  row (2 * level + 1) (chars nm ++ chars " (") ++ concat (map (render (2 * (level + 1))) ((fun w => Row (word_text w)) <$> [w])) ++
  row (2 * level + 1) (chars ")").
Proof. cbn [words_layout map concat render fmap list_fmap app]. replace (S (2 * level + 1)) with (2 * (level + 1))%nat by lia. by rewrite !app_nil_r. Qed.

(** Trees that can be displayed. *)
Fixpoint displayable (c : command) : Prop :=
  match c with
  | Simple s => simple_ok (fun w => w <> []) s
  | Compound o a b => o <> OP_DUMMY /\ displayable a /\ displayable b
  end.

Lemma command_displayable c : command_ok c -> displayable c.
Proof.
  assert (H : forall ws, Forall word_ok ws -> Forall (fun w => w <> []) ws) by (intros ws Hws; apply (Forall_impl _ _ _ Hws); by intros w []).
  induction c as [s|o a IHa b IHb]; simpl; [|tauto].
  intros [[Hv _] Hp Hi Ho He Hf]. split; auto.
Qed.

Lemma simple_printed st n i s level : simples st !! i = Some (SimpleT s (Some n)) -> simple_ok (fun w => w <> []) s ->
  prints (displaySimple st (Some i) level (Some n)) (render (2 * level) (simple_layout s)).
Proof.
  intros Hi [Hv Hp Hin Hout Herr _]. unfold displaySimple.
  apply prints_assert; [done|]. eapply prints_lift; [unfold array_get; simpl; by rewrite Hi|].
  apply prints_assert; [by apply bool_decide_eq_true_2|]. cbn [content simple_layout render].
  replace (S (2 * level)) with (2 * level + 1)%nat by lia. rewrite !map_app, !concat_app.
  rewrite (words_one level) by done. rewrite <- !(assoc_L (++)).
  do 8 (apply prints_then; [first [by apply field_printed | by apply list_printed; [|by constructor] | auto with prints]|]). auto with prints.
Qed.

Lemma command_printed st fuel n u c ns level : tree_at st u n c ns -> displayable c -> (length ns <= fuel)%nat ->
  prints (displayCommand fuel st (Some n) level u) (render (2 * level) (command_layout c)).
Proof.
  revert fuel n u ns level. induction c as [s|o a IHa b IHb]; intros fuel n u ns level Ht Hd Hf;
    destruct (tree_head _ _ _ _ _ Ht) as [ns' Ens]; (destruct fuel as [|fuel]; [rewrite Ens in Hf; simpl in Hf; lia|]); clear ns' Ens; cbn [displayCommand].
  all: apply prints_assert; [done|].
  - destruct Ht as (-> & i & Hn & Hi). eapply prints_lift; [unfold array_get; simpl; by rewrite Hn|].
    cbn [up op cmd1 cmd2 scmd]. apply prints_assert; [by apply bool_decide_eq_true_2|].
    cbn [command_layout render map concat]. rewrite !app_nil_r. replace (S (2 * level)) with (2 * level + 1)%nat by lia.
    replace (S (2 * level + 1)) with (2 * (level + 1))%nat by lia.
    apply prints_then; [auto with prints|]. apply prints_then; [|auto with prints].
    do 2 (apply prints_assert; [done|]). apply prints_then; [auto with prints|]. apply prints_then; [by apply simple_printed|auto with prints].
  - destruct Ht as (na & nb & nsa & nsb & -> & Hn & Ha & Hb). eapply prints_lift; [unfold array_get; simpl; by rewrite Hn|].
    cbn [up op cmd1 cmd2 scmd]. apply prints_assert; [by apply bool_decide_eq_true_2|].
    destruct Hd as (Ho & Hda & Hdb). cbn [length] in Hf. rewrite length_app in Hf.
    specialize (IHa fuel na (Some n) nsa (level + 1)%nat Ha Hda). specialize (IHb fuel nb (Some n) nsb (level + 1)%nat Hb Hdb).
    assert (exists name, operator_name o = Done name) as [name En] by (destruct o; try done; by eexists).
    cbn [command_layout render map concat]. rewrite En, !app_nil_r. replace (S (2 * level)) with (2 * level + 1)%nat by lia.
    replace (S (2 * level + 1)) with (2 * (level + 1))%nat by lia.
    apply prints_then; [auto with prints|]. apply prints_then; [|auto with prints]. apply prints_assert; [done|].
    eapply prints_eq; [apply prints_then; [apply prints_out|]; apply prints_then; [apply print_prints|]; eapply prints_lift; [done|];
      apply prints_then; [apply print_prints|]; apply prints_then; [apply prints_out|]; apply prints_then; [|
      apply prints_then; [apply IHa; lia|]; apply prints_then; [|apply prints_then; [|apply prints_then; [apply IHb; lia|]]]]; apply odd_printed|].
    unfold row at 5. rewrite odd_level. by rewrite <- !(assoc_L (++)).
Qed.

(** ** The loop *)

Lemma getline_typed l rest : LF ∉ l -> getline (typed l ++ rest) = (l, rest, true).
Proof.
  unfold typed. rewrite <- (assoc_L (++)). induction l as [|c l IH]; simpl; [done|]. intros [Hc Hl]%not_elem_of_cons.
  rewrite decide_False by congruence. simpl in IH. by rewrite IH.
Qed.

Lemma getline_end l : LF ∉ l -> getline l = (l, [], false).
Proof.
  induction l as [|c l IH]; simpl; [done|]. intros [Hc Hl]%not_elem_of_cons. rewrite decide_False by congruence. by rewrite IH.
Qed.

(** What the program prints for a line. *)
Definition verdict (p : bool * option command) : list ascii :=
  match p with
  | (true, Some c) => row 0 (chars "Command successfully read!") ++ render 0 (command_layout c)
  | (true, None) => row 0 (chars "Command successfully read!") ++ row 0 (chars "Command is empty!")
  | (false, _) => row 0 (chars "Error parsing!")
  end.

Definition report (line : list ascii) (p : bool * option command) : list ascii :=
  chars "> " ++ row 0 line ++ verdict p ++ [LF; LF].

Lemma parse_command_ok line ok c : Parser.parse_line line = Done (ok, Some c) -> ok = true /\ command_ok c.
Proof.
  intros E. apply bind_Done in E as (r & E & Er). destruct r as [root|]; [|done]. injection Er as <- ->.
  split; [done|]. by eapply yyparse_command_ok.
Qed.

(** The part of a turn after the line was printed. *)
Lemma turn_printed line p : Parser.parse_line line = Done p -> exists st root, ParserNodes.parse_line line = Done (p.1, (st, root)) /\
  prints (if p.1 then
            _ ← line_at 0 "Command successfully read!";
            match root with
            | None => line_at 0 "Command is empty!"
            | Some n => displayCommand (S (length (commands st))) st (Some n) 0 None
            end
          else line_at 0 "Error parsing!") (verdict p).
Proof.
  intros Ep. destruct p as [ok t]. pose proof (nodes_of_line line) as Hr. rewrite Ep in Hr.
  destruct (ParserNodes.parse_line line) as [[ok' [st root]]|]; [|done]. destruct Hr as [Eok Ht]. simpl in Eok, Ht. subst ok'.
  exists st, root. split; [done|]. cbn [fst]. destruct ok; [|destruct t; by apply (prints_row 0 0)].
  destruct root as [n|], t as [c|]; try done; cbn [verdict].
  apply prints_then; [by apply (prints_row 0 0)|]. destruct Ht as (ns & Ht & Hnd). apply (command_printed st _ n None c ns 0 Ht).
  - apply command_displayable. by eapply parse_command_ok.
  - transitivity (length (seq 0 (length (commands st)))); [|rewrite length_seq; lia].
      apply NoDup_incl_length; [by apply NoDup_ListNoDup|]. intros i Hi%list_elem_of_In. apply in_seq. split; [lia|]. by eapply tree_dom.
Qed.

Lemma then_prints {B} (p : printer unit) (k : printer B) l : prints p l -> (_ ← p; k) = (l ++ k.1, k.2).
Proof. by intros ->. Qed.

Lemma lift_done {A B} (a : A) (k : A -> printer B) : (a ← lift (Done a); k a) = k a.
Proof. unfold mbind, printer_bind. simpl. by destruct (k a). Qed.

(** One turn on a line that parses. *)
Lemma display_turn fuel line rest good p input :
  getline input = (line, rest, good) -> (line <> [] \/ good = true) -> Parser.parse_line (c_str line) = Done p ->
  display_loop (S fuel) input = (report line p ++ (display_loop fuel rest).1, (display_loop fuel rest).2).
Proof.
  intros Eg Hl Ep. cbn [display_loop]. rewrite Eg.
  assert (bool_decide (length line = 0%nat) && negb good = false) as ->.
  { destruct Hl as [Hl| ->]; [|by rewrite andb_false_r]. destruct line; [done|by rewrite bool_decide_eq_false_2]. }
  destruct (turn_printed _ _ Ep) as (st & root & -> & Ht). destruct p as [ok t]. cbn [fst] in Ht.
  rewrite lift_done, (then_prints _ _ _ Ht), !(then_prints _ _ _ (prints_out _)). cbn [fst snd].
  unfold report, row. rewrite Nat.mul_0_r, <- !(assoc_L (++)). done.
Qed.

Lemma display_end fuel : display_loop (S fuel) [] = (chars "> ", Done 0).
Proof. done. Qed.

Lemma display_lines fuel ls last ps :
  Forall (fun l => LF ∉ l) ls -> LF ∉ last -> (length (concat (typed <$> ls) ++ last) < fuel)%nat ->
  Forall2 (fun l p => Parser.parse_line (c_str l) = Done p) (ls ++ last_line last) ps ->
  display_loop fuel (concat (typed <$> ls) ++ last) = (concat (zip_with report (ls ++ last_line last) ps) ++ chars "> ", Done 0).
Proof.
  revert ls ps. induction fuel as [|fuel IH]; intros ls ps Hls Hlast Hf Hps; [lia|]. destruct Hls as [|l ls Hl Hls].
  - destruct last as [|c last].
    + apply Forall2_nil_inv_l in Hps as ->. apply display_end.
    + inversion Hps as [|l' p ls' ps' Ep Hn]; subst. apply Forall2_nil_inv_l in Hn as ->. cbn [fmap list_fmap concat app] in *.
      rewrite (display_turn _ (c :: last) [] false p) by (by auto using getline_end). simpl in Hf. destruct fuel as [|fuel]; [lia|].
      rewrite display_end. cbn [last_line zip_with concat fst snd]. by rewrite app_nil_r.
  - rewrite fmap_cons in Hf |- *. cbn [concat app] in *. rewrite <- (assoc_L (++)) in Hf |- *.
    inversion Hps as [|l' p ls' ps' Ep Hn]; subst. rewrite (display_turn _ l (concat (typed <$> ls) ++ last) true p) by auto using getline_typed.
    rewrite length_app in Hf. assert (0 < length (typed l))%nat by (unfold typed; rewrite length_app; simpl; lia).
    rewrite (IH ls ps') by (done || lia). cbn [zip_with concat fst snd]. by rewrite <- (assoc_L (++)).
Qed.

(** ** The theorem *)

(** C35: the parse tree is shown as it is.  On any input, of any number of lines
    and with or without a final newline, whose lines the parser ends on,
    [DisplayStructure] prints a prompt and the line again for each of them, and then
    that it is wrong, that it is empty, or its whole tree in nested blocks; it ends
    with status 0.  None of the assertions on the way fails: every node has the
    [up] of the node above it, every operator two operands and no simple command, and
    no word or list that is printed is empty. *)
Theorem display_shows_the_trees (ls : list (list ascii)) (last : list ascii) (ps : list (bool * option command)) :
  Forall (fun l => LF ∉ l) ls -> LF ∉ last ->
  Forall2 (fun l p => Parser.parse_line (c_str l) = Done p) (ls ++ last_line last) ps ->
  display_main (concat (typed <$> ls) ++ last) = (concat (zip_with report (ls ++ last_line last) ps) ++ chars "> ", Done 0).
Proof. intros Hls Hlast Hps. apply display_lines; try done. lia. Qed.

Definition demo_display : list (list ascii) := [chars "a; b >>c"; []; chars "| ls"].

Lemma display_shows_the_trees_witness :
  exists ps, Forall2 (fun l p => Parser.parse_line (c_str l) = Done p) (demo_display ++ last_line (chars "exit")) ps /\
    display_main (concat (typed <$> demo_display) ++ chars "exit") =
    (concat (zip_with report (demo_display ++ last_line (chars "exit")) ps) ++ chars "> ", Done 0).
Proof.
  assert (H : Forall2 (fun l p => Parser.parse_line (c_str l) = Done p) (demo_display ++ last_line (chars "exit"))
    [(true, Some (Compound OP_SEQUENTIAL (Simple (bare (plain "a") [])) (Simple (SCmd (plain "b") [] [] [plain "c"] [] IO_OUT_APPEND))));
     (true, None); (false, None); (true, Some (Simple (bare (plain "exit") [])))]).
  { repeat first [apply Forall2_nil_2 | apply Forall2_cons; split; [vm_compute; reflexivity|]]. }
  eexists. split; [exact H|]. apply display_shows_the_trees; [|apply (bool_decide_unpack _); vm_compute; exact I|exact H].
  repeat first [apply Forall_nil_2 | apply Forall_cons; split; [apply (bool_decide_unpack _); vm_compute; exact I|]].
Defined.

(** The two samples on a line. *)
Example use_parser_demo : use_parser (chars "ls | wc") = (chars "> Command successfully read!" ++ [LF], Done 0).
Proof. vm_compute. reflexivity. Qed.

Example c_use_parser_demo :
  c_use_parser (chars "ls | wc" ++ [LF]) = (chars "> Command successfully read!" ++ LF :: chars "Starting with command root..." ++ [LF], Done 0).
Proof. vm_compute. reflexivity. Qed.

Example c_use_parser_wrong : c_use_parser (chars "ls |" ++ [LF]) = (chars "> ", Done 0).
Proof. vm_compute. reflexivity. Qed.
