(* ===== verification/ShellMain.v ===== *)
(** * The mini-shell on its input

    [start_shell] of [mini-shell-project-FreezeKickerz/src/main.c] as one loop:
    [read_line] of [Shell], [parse_line] of [Parser] and [parse_command] of
    [Shell].  [Shell.start_shell] runs lines that are parsed already; here the
    lines are characters, and what a user types runs as the tree it stands for. *)

From Stdlib Require Import ZArith Lia Ascii.
From Stdlib Require String.
From stdpp Require Import gmap list strings.
From S2P Require Import Prelude CString Lexer Shell ShellProps Parser Grammar ParserLists ParserProps ParserRoundTrip.
Open Scope Z_scope.

(** ** The loop *)

(** [stdin] is what is left of the input.  A failed assertion of the parser ends
    the shell with a signal, and so may a line that starts with a zero byte,
    where [read_line] looks before its buffer. *)
Fixpoint start_shell_from (fuel : nat) (stdin : list ascii) : process :=
  match fuel with
  | O => Crash
  | S fuel =>
      match read_line stdin with
      | Fault _ => Crash
      | Done (None, _) => Exit 0
      | Done (Some line, stdin) =>
          match parse_line line with
          | Fault _ => Crash
          | Done (_, None) => start_shell_from fuel stdin
          | Done (_, Some root) =>
              parse_command root 0 (fun ret => if ret =? SHELL_EXIT then Exit 0 else start_shell_from fuel stdin)
          end
      end
  end.

(** Every line that is read has at least one character. *)
Definition shell (stdin : list ascii) : process := start_shell_from (S (length stdin)) stdin.

(** ** Lines *)

(** What the shell does with the texts of lines. *)
Fixpoint run_lines (ls : list (list ascii)) : process :=
  match ls with
  | [] => Exit 0
  | l :: ls =>
      match parse_line l with
      | Fault _ => Crash
      | Done (_, None) => run_lines ls
      | Done (_, Some root) => parse_command root 0 (fun ret => if ret =? SHELL_EXIT then Exit 0 else run_lines ls)
      end
  end.

Lemma read_typed l rest : unbroken l -> read_line (typed l ++ rest) = Done (Some (line_text l), rest).
Proof.
  intros Hl. unfold read_line, typed. rewrite <- (assoc_L (++)). cbn [app]. rewrite read_line_loop_ok; [done|done|rewrite length_app; simpl; lia].
Qed.

Lemma shell_from_lines fuel ls last :
  Forall unbroken ls -> unbroken last -> (length (concat (typed <$> ls) ++ last) < fuel)%nat ->
  start_shell_from fuel (concat (typed <$> ls) ++ last) = run_lines ((line_text <$> ls) ++ last_line last).
Proof.
  revert ls. induction fuel as [|fuel IH]; intros ls Hls Hlast Hf; [lia|].
  assert (Hend : start_shell_from fuel [] = Exit 0 \/ fuel = O) by (destruct fuel; [by right|by left]).
  destruct Hls as [|l ls Hl Hls]; cbn [start_shell_from].
  - simpl app. unfold read_line. rewrite read_line_end_ok by (done || lia). destruct last as [|c last]; [done|]. simpl.
    destruct Hend as [Hend| ->]; [|simpl in Hf; lia]. rewrite Hend. by destruct (parse_line (c :: last)) as [[ok [root|]]|].
  - rewrite fmap_cons in Hf |- *. cbn [concat] in *. rewrite <- (assoc_L (++)) in *. rewrite read_typed by done.
    assert (Hlen : (length (concat (typed <$> ls) ++ last) < fuel)%nat).
    { unfold typed in Hf at 1. rewrite length_app, (length_app l [LF]) in Hf. simpl in Hf. lia. }
    simpl. rewrite IH by done. done.
Qed.

Lemma run_lines_parsed (ls : list (list ascii)) (roots : list (option command)) :
  Forall2 (fun l root => exists ok, parse_line l = Done (ok, root)) ls roots -> run_lines ls = start_shell roots.
Proof.
  induction 1 as [|l root ls roots [ok E] _ IH]; [done|]. simpl. rewrite E. destruct root; by rewrite IH.
Qed.

(** ** Commands as lines *)

Lemma strip_last l c : c <> CR -> strip (l ++ [c]) = l ++ [c].
Proof. intros Hc. unfold strip. rewrite reverse_snoc. by rewrite decide_False. Qed.

Lemma line_text_last l c : c <> CR -> line_text (l ++ [c]) = l ++ [c].
Proof. intros Hc. unfold line_text. case_decide; [done|]. by apply strip_last. Qed.

Definition ends_text (l : list ascii) : Prop := exists k c, l = k ++ [c] /\ c <> CR.

Lemma ends_text_app k l : ends_text l -> ends_text (k ++ l).
Proof. intros (m & c & -> & Hc). exists (k ++ m), c. by rewrite (assoc_L (++)). Qed.

Lemma ends_text_cons a l : ends_text l -> ends_text (a :: l).
Proof. apply (ends_text_app [a]). Qed.

Lemma name_ends l : l <> [] -> Forall (fun c => nameChar c = true) l -> ends_text l.
Proof.
  intros Hne Hl. destruct (exists_last Hne) as (k & c & ->). exists k, c. split; [done|]. intros ->.
  by apply Forall_app in Hl as [_ [H _]%Forall_cons].
Qed.

Lemma part_ends p : part_ok p -> ends_text (print_part p).
Proof.
  unfold part_ok, print_part. destruct (expand p).
  - unfold name_ok. intros Hp. apply ends_text_cons. destruct (chars (string_of p)) as [|c l] eqn:E; [done|].
    destruct Hp as [Hc Hl]. apply name_ends; [done|]. constructor; [|done]. unfold nameChar. by rewrite Hc.
  - intros _. unfold quote_with. case_bool_decide; apply ends_text_cons; (eexists _, _; split; [done|by intros [=]]).
Qed.

Lemma word_ends w : word_ok w -> ends_text (print_word w).
Proof.
  intros [Hne Hw]. destruct (exists_last Hne) as (k & p & ->). unfold print_word.
  rewrite fmap_app, concat_app. apply ends_text_app. simpl. rewrite app_nil_r. apply part_ends.
  by apply Forall_app in Hw as [_ [H _]%Forall_cons].
Qed.

Lemma words_end ws : Forall word_ok ws -> concat (print_param <$> ws) = [] \/ ends_text (concat (print_param <$> ws)).
Proof.
  intros Hws. destruct ws as [|w0 ws0] using rev_ind; [by left|]. right. apply Forall_app in Hws as [_ [Hw _]%Forall_cons].
  rewrite fmap_app, concat_app. apply ends_text_app. simpl. rewrite app_nil_r. by apply ends_text_cons, word_ends.
Qed.

Lemma redirections_end rs : Forall redirection_ok rs -> concat (print_redirection <$> rs) = [] \/ ends_text (concat (print_redirection <$> rs)).
Proof.
  intros Hrs. destruct rs as [|[tok w] rs0] using rev_ind; [by left|]. right. apply Forall_app in Hrs as [_ [[_ Hw] _]%Forall_cons].
  rewrite fmap_app, concat_app. apply ends_text_app. simpl. rewrite app_nil_r. unfold print_redirection. simpl.
  apply ends_text_cons, ends_text_app, ends_text_cons. by apply word_ends.
Qed.

Lemma command_ends c : command_ok c -> ends_text (print_command c).
Proof.
  induction c as [s|op a _ b IHb]; intros Hc; simpl.
  - unfold print_simple. destruct (redirections_end (redirections s)) as [->|H]; [by apply redirections_ok| |by do 2 apply ends_text_app].
    rewrite app_nil_r. destruct (words_end (params s)) as [->|H]; [apply (so_params _ _ Hc)| |by apply ends_text_app].
    rewrite app_nil_r. apply word_ends, (so_verb _ _ Hc).
  - destruct Hc as (_ & _ & Hb & _). apply ends_text_app, ends_text_cons, ends_text_app, ends_text_cons. by apply IHb.
Qed.

Lemma line_text_command c : command_ok c -> line_text (print_command c) = print_command c.
Proof. intros Hc. destruct (command_ends c Hc) as (k & d & -> & Hd). by apply line_text_last. Qed.

(** ** The theorems *)

(** The shell reads all its lines.  On any input whose lines hold no zero byte
    and parse without a failed assertion, of any length and number and with or
    without a final newline, the shell runs the trees of its lines in order, until
    one of them asks it to end; lines that are empty or wrong are passed over. *)
Theorem shell_runs_its_lines (ls : list (list ascii)) (last : list ascii) (roots : list (option command)) :
  Forall unbroken ls -> unbroken last ->
  Forall2 (fun l root => exists ok, parse_line l = Done (ok, root)) ((line_text <$> ls) ++ last_line last) roots ->
  shell (concat (typed <$> ls) ++ last) = start_shell roots.
Proof.
  intros Hls Hlast Hp. unfold shell. rewrite shell_from_lines by (done || lia). by apply run_lines_parsed.
Qed.

(** C31: typed commands run.  Whatever trees [parser.h] describes, in texts without
    a newline or a zero byte: typing the lines that [print_command] writes makes
    the shell run exactly these trees, one after the other. *)
Theorem typed_commands_run (cs : list command) :
  Forall command_ok cs -> Forall (fun c => unbroken (print_command c)) cs ->
  shell (concat ((fun c => typed (print_command c)) <$> cs)) = start_shell (Some <$> cs).
Proof.
  intros Hok Hpl. unfold shell. replace ((fun c => typed (print_command c)) <$> cs) with (typed <$> (print_command <$> cs)) by (by rewrite <- list_fmap_compose).
  rewrite <- (app_nil_r (concat _)). rewrite shell_from_lines; [|by apply Forall_fmap|by split; apply not_elem_of_nil|lia].
  rewrite app_nil_r. apply run_lines_parsed. rewrite !Forall2_fmap_l, Forall2_fmap_r. induction Hok as [|c cs Hc _ IH]; [constructor|].
  apply Forall_cons in Hpl as [_ Hpl]. constructor; [|by apply IH]. exists true. rewrite line_text_command by done.
  rewrite <- (app_nil_r (print_command c)). apply parse_printed; [done|by left].
Qed.

(** ** Runs *)

Definition unbrokenb (l : list ascii) : bool := forallb (fun c => negb (Ascii.eqb c LF || Ascii.eqb c zero)) l.

Lemma unbrokenb_ok l : unbrokenb l = true -> unbroken l.
Proof.
  unfold unbrokenb. rewrite forallb_forall. intros H. split; intros Hin%list_elem_of_In; by specialize (H _ Hin).
Qed.

Lemma unbrokenb_all ls : forallb unbrokenb ls = true -> Forall unbroken ls.
Proof. rewrite forallb_forall. intros H. apply Forall_forall. intros l Hin%list_elem_of_In. apply unbrokenb_ok, H, Hin. Qed.

Definition demo_lines : list (list ascii) := [chars "ls -l" ++ [CR]; []; chars "| ls"].

Lemma shell_runs_its_lines_witness :
  shell (concat (typed <$> demo_lines) ++ chars "exit") =
  start_shell [Some (Simple (bare (plain "ls") [plain "-l"])); None; None; Some (Simple (bare (plain "exit") []))].
Proof.
  apply shell_runs_its_lines; [apply unbrokenb_all; vm_compute; reflexivity|apply unbrokenb_ok; vm_compute; reflexivity|].
  repeat first [apply Forall2_nil_2 | apply Forall2_cons; split; [first [exists true; vm_compute; reflexivity | exists false; vm_compute; reflexivity]|]].
Defined.

Definition demo_typed : list command :=
  [Compound OP_PIPE (Simple (bare (plain "ls") [])) (Simple (bare (plain "wc") [plain "-l"]));
   Simple (bare (plain "exit") [])].

Lemma typed_commands_run_witness :
  concat ((fun c => typed (print_command c)) <$> demo_typed) = chars "'ls' | 'wc' '-l'" ++ LF :: chars "'exit'" ++ [LF] /\
  shell (concat ((fun c => typed (print_command c)) <$> demo_typed)) = start_shell (Some <$> demo_typed).
Proof.
  split; [vm_compute; reflexivity|]. apply typed_commands_run.
  - assert (Hw : forall s, chars s <> [] -> bool_decide (quote ∈ chars s) = false -> word_ok (plain s)).
    { intros s H1 H2%bool_decide_eq_false. split; [discriminate|]. apply Forall_cons. split; [|apply Forall_nil_2].
      split; [exact H1|left; exact H2]. }
    assert (Hs : forall s ps, chars s <> [] -> bool_decide (quote ∈ chars s) = false -> Forall word_ok ps ->
                 simple_ok word_ok (bare (plain s) ps)).
    { intros s ps H1 H2 Hps. split; simpl; try apply Forall_nil_2; try done; [by apply Hw|].
      exists false, false. repeat split; discriminate. }
    apply Forall_cons. split; [|apply Forall_cons; split; [|apply Forall_nil_2]].
    + simpl. split; [discriminate|]. split; [apply Hs; [discriminate|reflexivity|apply Forall_nil_2]|].
      split; [apply Hs; [discriminate|reflexivity|apply Forall_cons; split; [apply Hw; [discriminate|reflexivity]|apply Forall_nil_2]]|].
      split; exact I.
    + apply Hs; [discriminate|reflexivity|apply Forall_nil_2].
  - apply (Forall_fmap print_command unbroken demo_typed), unbrokenb_all. vm_compute. reflexivity.
Defined.
